(* ===== verification/_CoqProject ===== *)
-Q . S2P
Prelude.v
Text.v
Toml.v
TomlPatch.v
Framing.v
Json.v
JsonPatch.v
JsonEdit.v
Manifest.v
Configure.v
CompilePolicy.v
Sandbox.v
World.v
AgentPact.v
HoldPoll.v
McpPolicy.v
Relay.v
Hook.v
HookGate.v
ShellGate.v
Helper.v
Breaker.v
Gate.v
Pending.v
Scope.v
Event.v
Timeline.v
Sync.v
Pricing.v
Stream.v
Prog.v
Adapter.v
McpRouting.v
McpConfigure.v
Profile.v
Reconcile.v
CodexCli.v
Scrub.v
Paths.v
Launch.v
Adaptation.v
Bridges.v
Commands.v
GenericAgent.v
Uninstall.v
Secret.v
Server.v
RunState.v
Update.v
Enroll.v
Store.v
