(* ===== verification/Prelude.v ===== *)
(** * Kyris: a verification of its governance core

    Kyris puts a human and a policy between coding agents and the machine.  Every
    governed call is put to the policy daemon agentpactd, which allows, denies or
    asks; an ask is held at kyrisd, the local daemon, until the user resolves it
    in its dialog, tray or app.  Three front ends ask: the hook an agent runs
    before a tool call ([kyris hook check]), the [kyris-mcp] wrapper that relays an
    agent's MCP traffic to a server, and the shell gate.  kyrisd also relays the
    agents' model traffic and their MCP servers over HTTP, meters both, stops runaway
    sessions, keeps a timeline of events and synchronises it.  The command line
    configures the agents: it writes hooks, routes and policies into their files,
    compiles the user's policy to the languages of the agents, runs commands in a
    sandbox, and takes all of it back at uninstall.  This development models that code
    and proves what it promises.

    ** The parts

    Each file models the Rust code below src/ that it names, one definition per
    function, with the names of the code.  cli/ stands for cli/src/, and so on.

    Values and text.
    - [Text], [Json], [Toml]: the parts of [str], [u8], [serde_json::Value] and
      [toml::Value] in use.  Bytes are [list ascii]; a string is the [string] of its
      UTF-8 bytes.

    Deciding a call.
    - [World]: what blocking code does to the outside, a monad [io] over a [world]
      of scripted answers, silence among them, with a log of effects.  [wp] speaks of
      the log and the outcome in every world; [finishes] says that a loop does not
      outrun its fuel where time goes forward and requests are answered or fail
      ([responsive]).
    - [AgentPact] (core/agentpact.rs, agentpact-client/lib.rs): requests
      to agentpactd, retries, and what a response means.  The class [Libraries]
      holds what comes from other crates.
    - [HoldPoll] (core/pending.rs): holding an ask at kyrisd and polling it.
    - [Hook] (cli/agents/registry.rs, cli/hook_cmd/payload.rs, response.rs,
      audit.rs, cli/recent_approvals.rs, core/path_display.rs): what an
      agent declares, how its payload maps to an action, how it is answered.
    - [HookGate] (cli/hook_cmd/segments.rs, request.rs, hold.rs): the hook from
      preview to exit code: one real request per segment of a command or per file
      of a patch, at most one answer.
    - [ShellGate] (cli/hook_cmd/resolve_shell.rs): the same walk for a line a
      shell is about to run, asking on the terminal; [Helper] (the crate shell-helper): the
      client the shell's own hook runs, with its own copy of the protocol.
    - [McpPolicy], [Framing], [Relay] (mcp/policy.rs, framing.rs, relay.rs): the decision
      on one [tools/call], message boundaries in a byte stream cut anywhere, and the four
      tasks of the wrapper as an interleaving step relation over bounded queues.

    kyrisd.
    - [Pending] (daemon/pending.rs, server/pending_routes.rs): the
      other side of [HoldPoll]: the store of held approvals, claims, timers, routes.
    - [Breaker], [Gate] (daemon/circuit_breaker.rs, gate.rs, server/breaker_routes.rs): the
      count of output tokens since a session's last tool call, its cap, and the prompt a
      session over its cap waits on.
    - [Pricing], [Stream], [Adapter] (daemon/adapter): prices of models, the metering of
      streamed answers, the handler that guards, relays and records a model call;
      [McpRouting] (daemon/mcp_routing): MCP servers behind kyrisd.  Both handlers are
      programs of [Prog], which asks the rest of the daemon by name.
    - [Scope], [Event], [Timeline], [Sync] (daemon/sync, types, the queries of storage.rs):
      what may leave the machine, the shape of events, the timeline and its statistics,
      and the synchronisation with its retries.
    - [Secret], [Server] (core/secret.rs, config.rs, daemon/auth.rs, server.rs, server/,
      trace_id.rs, config.rs, crash.rs): the keys that daemon and callers share, with the steps
      of the processes that mint them; routes, layers, configuration and its reload, startup.
    - [Store] (daemon/storage.rs, server/lifecycle.rs): the task that writes the statistics,
      as a step relation of senders, turns and ticks over what the database answers.

    Configuring the agents.  One [disk], with the install manifest, and commands on it that may
    fail ([cmd], of [Manifest]).
    - [JsonPatch], [JsonEdit], [TomlPatch] (cli/json_patch.rs, integration.rs, toml_patch.rs):
      edits as differences that are taken back later without losing what the user wrote.
    - [Manifest] (cli/state.rs, config_writer.rs), [Configure] (cli/agents/engine.rs),
      [Commands]: the manifest, the operations on configuration files, and lemmas on
      commands, in particular [keeps], the files that a command leaves alone.
    - [CompilePolicy] (cli/compile_policy.rs), [Sandbox] (cli/sandbox): policies of the user as
      rules of Codex and of Gemini; the profile of the sandbox and the command run in it.
    - [McpConfigure] (cli/agents/configure, mcp/main.rs): servers wrapped or routed, and back.
    - [Profile], [Reconcile] (cli/agents/profile.rs, reconcile.rs, configure.rs, undo.rs): what
      is known of an agent; setup, the reconcile pass, disconnect.
    - [CodexCli] (cli/agents/codex_cli): the configuration of Codex and the trust in its hooks.
    - [Scrub] (cli/agents/scrub.rs): taking kyris out of a file by its signatures.
    - [Paths], [Launch] (core/paths.rs, live_evidence.rs, cli/agents/prestage.rs, shim.rs,
      probe.rs): where files are; the environment and the shim an agent is launched with.
    - [Adaptation], [Bridges] (cli/agents/adaptation.rs, documents.rs, manifest.rs,
      templates.rs): the documents that describe an agent, the five that are shipped, and
      the scripts installed; [GenericAgent] (generic.rs, engine.rs): what runs them.
    - [Uninstall] (cli/lifecycle/uninstall.rs): undo of every agent, restore of the manifest,
      sweep.  [RunState] (cli/lifecycle/run_state.rs): disabling and enabling, an edit of one
      line of the policy.  [Update] (update.rs, release.rs): versions, checksums, binaries
      replaced.  [Enroll] (enroll.rs, core/enrollment.rs): the device flow and the credentials.

    [HookGate], [ShellGate] and [McpPolicy] use [AgentPact] and [HoldPoll] through
    their [wp] lemmas, and both gates share one lemma about the walk over the
    segments; [Relay] uses the decision type of [McpPolicy] and the readers of
    [Framing]; [Gate] uses the table of [Breaker], and [Adapter] asks both.  [HoldPoll] and
    [Pending] are two ends of HTTP and share no state: the client is proved against every
    behaviour of the server, and the server against every order of requests.  [GenericAgent]
    gives the record of operations of an agent that [Uninstall] runs, and takes that of
    [CodexCli] for the agent that delegates.

    ** What is proved

    - Safety of the answers.  [HookGate]: a hook ends with exit code 0 only on an
      acceptance by agentpactd or the user, or where the agent's own prompt, log
      mode or an outage of a daemon that was asked stands in, a fail-open being recorded;
      a sole guard fails closed; the
      native-approval consultation only vouches for what was previewed or noted lately.
      [ShellGate]: a line runs only if each segment is cleared, or a daemon could not be
      asked and the outage is spooled.  [Relay]: of the lines that are one call, only allowed
      ones reach the server, also as the server splits its input into lines (a batch is not
      looked at).  [Pending]: a holder hears approved only if agentpactd accepted the answer
      for its own token; every branch of the resolve handler.  [Gate]: a request goes on only after a human's
      Continue.  [Adapter], [McpRouting]: a model or tool call goes out only when cleared.
      [Sandbox]: a command runs only in the jail that its configuration describes.
      [Server]: a request reaches a handler only with the key of its route.  [Update]: only
      verified bytes replace a binary.  [Enroll]: only the relay's credentials are written.
    - Accounting: the breaker against the sum of the tokens since the last tool call, streams
      recorded once whatever the cuts, calls accounted, events synchronised exactly once; one
      row in the table per event written, or the daemon reports that it is not well
      ([Store]).
    - Edits and their undo: differences of JSON and TOML unapplied, an install undone, a
      toggle that edits one line, a server wrapped so that the wrapper runs the original.
    - Setup against its own probe: the exports and the shim of an agent, the routing of Cline,
      the trust of Codex in its hook, are found by the code that probes them; the documents
      shipped are consistent; a disconnected agent stays so.
    - Invariants and liveness: one owner per sender, one prompt per channel, final
      states; one secret for all that ask; an answer reaches its waiters; the hook, the
      policy check and the device flow end, given that each request is answered or fails:
      the clients have no timeout of their own.
    - Where the code falls short, as theorems about a run: an empty split allows;
      an outage spools a denied command as run; a smuggled call; a wait past its
      window; a stranded or wrongly approved hold; records that starve the
      synchronisation; a secret left empty by a process that dies; a user's line or file
      deleted by uninstall; residue that uninstall puts back; a drain of the statistics
      that always times out.

    ** Conventions

    An [i64] or [u64] is a [Z]: [wrap_i64] where it can overflow in release builds,
    [saturating_sub] and the like as in the code.  Floats are an interface, [TomlFloat] and
    [FloatEq].  Concurrency is by steps that the
    code's locks and await points make atomic, in any order.  Durations are in
    milliseconds.  Fuel: the readers of [Framing] take one more than the bytes
    left, the poll loop one more than the seconds of its window, the walk up a path its
    length; these are proved to suffice.  The path of a file of a document takes their
    number, which only a cycle of siblings outruns.  A theorem about [io] holds in every
    world, in particular for daemons that answer anything, refuse, or keep silent; in the last
    case the program has no outcome, and what has happened until then is still covered.  Parsers and printers of other
    crates are interfaces ([SerdeText], [ConfigStore], [CodexDigest], [PolicyLoader]); a
    theorem that needs a printed document to read back says so of the document it is about,
    and its witness has a printer and a parser that do.

    ** Not modelled

    agentpactd itself and the crates it comes from; the JSON, TOML and YAML parsers and
    printers, UUIDs and SHA-256; failures of the local disk and of stdout, file modes and
    directories (a file is there when its path is); diagnostics on stderr; the process table
    behind [discover_agent_pid]; spawning and signalling the MCP server.  Of the program: the
    opening of the daemon's database, its sockets and TLS, tray and
    dialogs, logging, signals and the writing of crash reports; what the router of axum makes of
    a path is an argument of [Server], and HEAD, which axum serves by the handler of GET, is
    left out; a request that is given up by its client while it waits at the [Gate]; a
    secret whose write fails after its file was created ([Secret]); a writer of the
    statistics that panics ([Store]); links between files; of the command line the installation of services and
    shell profiles, the verification of an installation, doctor, status and reports, which are
    processes, launchctl and rendering. *)

From stdpp Require Export base gmap strings list fin_maps.
From Stdlib Require Export ZArith Lia Sorted.

(** ** Automation *)

Create HintDb kyris.
Create Rewrite HintDb kyris.

(** Case analysis on every [decide] and [match] in sight, closing easy goals. *)
Ltac split_cases :=
  repeat (case_match || case_decide); simplify_eq/=; try done.

(** A decidable proposition about closed data, by evaluation. *)
Ltac vm_decided := refine (bool_decide_unpack _ _); vm_compute; exact I.

(** Normalise boolean comparisons on [Z] into propositions. *)
Ltac bool_to_prop :=
  repeat match goal with
  | H : context [Z.leb ?a ?b] |- _ => destruct (Z.leb_spec a b)
  | H : context [Z.ltb ?a ?b] |- _ => destruct (Z.ltb_spec a b)
  | H : context [Z.eqb ?a ?b] |- _ => destruct (Z.eqb_spec a b)
  | |- context [Z.leb ?a ?b] => destruct (Z.leb_spec a b)
  | |- context [Z.ltb ?a ?b] => destruct (Z.ltb_spec a b)
  | |- context [Z.eqb ?a ?b] => destruct (Z.eqb_spec a b)
  end.

(** ** Results: Rust's [Result] *)

Inductive result (A E : Type) :=
| Ok (a : A)
| Err (e : E).
Arguments Ok {A E} a.
Arguments Err {A E} e.

Definition ok {A E} (r : result A E) : option A :=
  match r with Ok a => Some a | Err _ => None end.

(** ** Machine integers

    A Rust [i64] is a [Z]; arithmetic that can leave the width is written with
    [wrap_i64], the two's complement wrap-around the release profile performs
    (the workspace's [profile.release] does not turn overflow checks on). *)

Definition i64_min : Z := (-9223372036854775808)%Z.
Definition i64_max : Z := 9223372036854775807%Z.
Definition u64_max : Z := 18446744073709551615%Z.

Definition wrap_i64 (z : Z) : Z :=
  ((z - i64_min) mod 18446744073709551616 + i64_min)%Z.

Definition in_i64 (z : Z) : Prop := (i64_min <= z <= i64_max)%Z.

Section machine_integers.
Local Open Scope Z_scope.

Lemma wrap_i64_id z : in_i64 z -> wrap_i64 z = z.
Proof.
  unfold wrap_i64, in_i64, i64_min, i64_max. intros H.
  rewrite Z.mod_small by lia. lia.
Qed.

Lemma wrap_i64_range z : in_i64 (wrap_i64 z).
Proof.
  unfold wrap_i64, in_i64, i64_min, i64_max.
  pose proof (Z.mod_pos_bound (z - -9223372036854775808) 18446744073709551616).
  lia.
Qed.

Lemma wrap_i64_congr z : exists k, wrap_i64 z = z + k * 18446744073709551616.
Proof.
  unfold wrap_i64. exists (- ((z - i64_min) / 18446744073709551616)).
  pose proof (Z.div_mod (z - i64_min) 18446744073709551616). lia.
Qed.

Lemma wrap_i64_shift z k : wrap_i64 (z + k * 18446744073709551616) = wrap_i64 z.
Proof.
  unfold wrap_i64. f_equal.
  replace (z + k * 18446744073709551616 - i64_min)
    with (z - i64_min + k * 18446744073709551616) by lia.
  apply Z.mod_add. lia.
Qed.

(** Wrapping an addend first does not change a wrapped sum. *)
Lemma wrap_i64_add_l a b : wrap_i64 (wrap_i64 a + b) = wrap_i64 (a + b).
Proof.
  destruct (wrap_i64_congr a) as [k ->].
  replace (a + k * 18446744073709551616 + b)
    with (a + b + k * 18446744073709551616) by lia.
  apply wrap_i64_shift.
Qed.
End machine_integers.

#[export] Hint Resolve wrap_i64_range : kyris.
#[export] Hint Rewrite wrap_i64_add_l : kyris.

(** ** Traces of a step relation *)

Section traces.
Context {St Ev : Type} (step : St -> Ev -> St -> Prop).

(** [trace s evs s']: the events [evs] lead from [s] to [s'], in order. *)
Inductive trace : St -> list Ev -> St -> Prop :=
| trace_nil s : trace s [] s
| trace_snoc s evs s1 e s2 :
    trace s evs s1 -> step s1 e s2 -> trace s (evs ++ [e]) s2.

(** Rule induction for state invariants. *)
Lemma trace_invariant (P : St -> Prop) s evs s' :
  (forall s1 e s2, P s1 -> step s1 e s2 -> P s2) ->
  trace s evs s' -> P s -> P s'.
Proof. intros Hstep Htr. induction Htr; eauto. Qed.

(** The same for invariants that speak about the events so far. *)
Lemma trace_history_invariant (P : list Ev -> St -> Prop) s evs s' :
  (forall evs1 s1 e s2, P evs1 s1 -> step s1 e s2 -> P (evs1 ++ [e]) s2) ->
  trace s evs s' -> P [] s -> P evs s'.
Proof. intros Hstep Htr. induction Htr; eauto. Qed.

Lemma trace_app s evs1 s1 evs2 s2 :
  trace s evs1 s1 -> trace s1 evs2 s2 -> trace s (evs1 ++ evs2) s2.
Proof.
  intros H1 H2. induction H2 as [|? ? ? ? ? ? IH]; [by rewrite app_nil_r|].
  rewrite app_assoc. econstructor; eauto.
Qed.

Lemma trace_one s e s' : step s e s' -> trace s [e] s'.
Proof. intros. apply (trace_snoc _ [] s); [constructor|done]. Qed.
End traces.

(** Running a list of events of an executable transition function. *)

Section runs.
Context {St Ev : Type} (exec : St -> Ev -> option St).

Definition exec_list (s : St) (es : list Ev) : option St :=
  foldl (fun os e => s ← os; exec s e) (Some s) es.

Lemma exec_list_trace s es s' :
  exec_list s es = Some s' -> trace (fun s e s' => exec s e = Some s') s es s'.
Proof.
  unfold exec_list. revert s'. induction es as [|e es IH] using rev_ind; intros s'.
  - intros [= <-]. constructor.
  - rewrite foldl_app. simpl. intros (s1 & H1 & H2)%bind_Some.
    econstructor; eauto.
Qed.
End runs.

(** ** Sums *)

Definition sum_Z (l : list Z) : Z := foldr Z.add 0%Z l.

Lemma sum_Z_app l1 l2 : sum_Z (l1 ++ l2) = (sum_Z l1 + sum_Z l2)%Z.
Proof. induction l1; simpl in *; lia. Qed.

#[export] Instance sum_Z_Permutation : Proper ((≡ₚ) ==> eq) sum_Z.
Proof. induction 1; simpl; lia. Qed.

#[export] Hint Rewrite sum_Z_app : kyris.

(** ** [flat_map] *)

Section flat_maps.
Context {A B C : Type}.

Lemma fmap_flat_map (g : B -> C) (f : A -> list B) l :
  g <$> flat_map f l = flat_map (fun x => g <$> f x) l.
Proof. induction l as [|x l IH]; simpl; [done|]. by rewrite fmap_app, IH. Qed.

Lemma flat_map_fmap (g : C -> A) (f : A -> list B) l :
  flat_map f (g <$> l) = flat_map (fun x => f (g x)) l.
Proof. induction l as [|x l IH]; simpl; [done|]. by rewrite <- IH. Qed.

Lemma flat_map_ext_Forall (f g : A -> list B) l :
  Forall (fun x => f x = g x) l -> flat_map f l = flat_map g l.
Proof. induction 1 as [|x l Hx _ IH]; simpl; [done|]. by rewrite Hx, IH. Qed.

Lemma Forall_flat_map_intro (P : B -> Prop) (f : A -> list B) l :
  Forall (fun x => Forall P (f x)) l -> Forall P (flat_map f l).
Proof. induction 1; simpl; [constructor|by apply Forall_app]. Qed.

Lemma elem_of_flat_map (f : A -> list B) l y : y ∈ flat_map f l <-> exists x, x ∈ l /\ y ∈ f x.
Proof. rewrite list_elem_of_In, in_flat_map. by setoid_rewrite list_elem_of_In. Qed.

Lemma elem_of_List_filter (p : A -> bool) l x : x ∈ List.filter p l <-> x ∈ l /\ p x = true.
Proof. rewrite !list_elem_of_In. apply filter_In. Qed.

Lemma rev_flat_map (f : A -> list B) l :
  rev (flat_map f l) = concat ((fun x => rev (f x)) <$> rev l).
Proof.
  induction l as [|x l IH]; simpl; [done|].
  rewrite rev_app_distr, IH, fmap_app, concat_app. simpl. by rewrite app_nil_r.
Qed.
End flat_maps.

(** ** [slice::sort_by]: a stable sort by a total preorder *)

Section sorting.
Context {A : Type} (le : A -> A -> bool).

(** Before the elements it is not above, so that equal ones keep their order. *)
Fixpoint insert_by (x : A) (l : list A) : list A :=
  match l with
  | [] => [x]
  | y :: l' => if le x y then x :: l else y :: insert_by x l'
  end.

Definition sort_by (l : list A) : list A := foldr insert_by [] l.

Lemma insert_by_Permutation x l : insert_by x l ≡ₚ x :: l.
Proof.
  induction l as [|y l IH]; simpl; [done|]. destruct (le x y); [done|].
  rewrite IH. by apply Permutation_swap.
Qed.

Lemma sort_by_Permutation l : sort_by l ≡ₚ l.
Proof. induction l as [|x l IH]; simpl; [done|]. by rewrite insert_by_Permutation, IH. Qed.

Hypothesis le_total : forall x y, le x y = true \/ le y x = true.
Hypothesis le_trans : forall x y z, le x y = true -> le y z = true -> le x z = true.

Lemma sort_by_sorted l : StronglySorted (fun x y => le x y = true) (sort_by l).
Proof.
  induction l as [|x l IH]; simpl; [constructor|].
  induction IH as [|y l' Hl' IH' Hy]; simpl; [repeat constructor|].
  destruct (le x y) eqn:E.
  - repeat constructor; [done..|]. eapply Forall_impl; [done|]. intros z Hz. by eapply le_trans.
  - constructor; [done|]. rewrite insert_by_Permutation. constructor; [|done].
    destruct (le_total x y); [congruence|done].
Qed.

(** Where equivalent elements of the list are equal, the result does not depend on
    the order of the input. *)
Lemma sort_by_canonical l l' :
  (forall x y, x ∈ l -> y ∈ l -> le x y = true -> le y x = true -> x = y) ->
  l ≡ₚ l' -> sort_by l = sort_by l'.
Proof.
  intros Hanti Hp. assert (sort_by l ≡ₚ sort_by l') as Hs.
  { by rewrite !sort_by_Permutation. }
  assert (forall x y, x ∈ sort_by l -> y ∈ sort_by l -> le x y = true -> le y x = true -> x = y) as Ha.
  { intros x y. rewrite !sort_by_Permutation. apply Hanti. }
  clear Hp Hanti. pose proof (sort_by_sorted l) as H1. pose proof (sort_by_sorted l') as H2.
  revert Hs H1 H2 Ha. generalize (sort_by l) (sort_by l'). intros s s' Hs.
  intros H1. revert s' Hs. induction H1 as [|x s Hs1 IH Hx]; intros s' Hs H2 Ha.
  { by apply Permutation_nil_l in Hs. }
  destruct s' as [|y s']; [by apply Permutation_nil_r in Hs|].
  apply StronglySorted_inv in H2 as [H2 Hy].
  assert (x = y) as <-.
  { assert (x ∈ y :: s') as Hxin by (rewrite <- Hs; constructor).
    assert (y ∈ x :: s) as Hyin by (rewrite Hs; constructor).
    rewrite Forall_forall in Hx, Hy.
    apply elem_of_cons in Hxin as [->|Hxin]; [done|].
    pose proof Hyin as Hyin'. apply elem_of_cons in Hyin as [->|Hyin]; [done|].
    apply Ha; [constructor|done|by apply Hx|by apply Hy]. }
  f_equal. apply IH; [by eapply Permutation_cons_inv|done|].
  intros a b Hain Hbin. apply Ha; by constructor.
Qed.
End sorting.

(** Sorting commutes with a map that carries the order over. *)
Lemma sort_by_fmap {A B} (f : A -> B) (le : B -> B -> bool) l :
  sort_by le (f <$> l) = f <$> sort_by (fun x y => le (f x) (f y)) l.
Proof.
  induction l as [|x l IH]; [done|]. cbn [sort_by foldr fmap list_fmap].
  fold (sort_by le (f <$> l)) (sort_by (fun x y => le (f x) (f y)) l). rewrite IH.
  generalize (sort_by (fun x y => le (f x) (f y)) l). clear.
  induction l as [|y l IH]; simpl; [done|]. destruct (le (f x) (f y)); [done|].
  cbn [fmap list_fmap]. f_equal. exact IH.
Qed.
