(* ===== verification/Text.v ===== *)
(** * Bytes and UTF-8 text

    The parts of Rust's [str], [u8] and [BufRead] the modelled code uses.  A byte
    string is a [list ascii]; text is the same list, held to be valid UTF-8. *)

From S2P Require Import Prelude.
From Stdlib Require Export Ascii.

Abbreviation bytes := (list ascii).

(** The bytes of a string literal. *)
Definition lit (s : string) : bytes := String.list_ascii_of_string s.

Lemma lit_of_bytes l : lit (String.string_of_list_ascii l) = l.
Proof. apply String.list_ascii_of_string_of_list_ascii. Qed.

Lemma lit_inj s t : lit s = lit t -> s = t.
Proof.
  intros H. rewrite <- (String.string_of_list_ascii_of_string s).
  rewrite <- (String.string_of_list_ascii_of_string t). unfold lit in H. by rewrite H.
Qed.

Lemma lit_app s t : lit (String.append s t) = lit s ++ lit t.
Proof. induction s as [|c s IH]; simpl; [done|]. by f_equal. Qed.

(** ** Bytes *)

Definition code (b : ascii) : N := N_of_ascii b.

(** [u8::is_ascii_whitespace]: space, tab, line feed, form feed, carriage return. *)
Definition is_ascii_whitespace (b : ascii) : bool :=
  match code b with
  | 32 | 9 | 10 | 12 | 13 => true
  | _ => false
  end%N.

Definition to_ascii_lowercase_byte (b : ascii) : ascii :=
  let n := code b in
  if ((65 <=? n) && (n <=? 90))%N then ascii_of_N (n + 32) else b.

Definition to_ascii_lowercase (l : bytes) : bytes := to_ascii_lowercase_byte <$> l.

Fixpoint starts_with (p l : bytes) : bool :=
  match p, l with
  | [], _ => true
  | b :: p', c :: l' => Ascii.eqb b c && starts_with p' l'
  | _ :: _, [] => false
  end.

Definition ends_with (p l : bytes) : bool := starts_with (rev p) (rev l).

Definition str_strip_prefix (p l : bytes) : option bytes :=
  if starts_with p l then Some (drop (length p) l) else None.

Definition bytes_eqb (a b : bytes) : bool := bool_decide (a = b).

(** ** UTF-8 validity, as [core::str::from_utf8] checks it *)

Definition in_range (lo hi : N) (b : ascii) : bool :=
  ((lo <=? code b) && (code b <=? hi))%N.

Definition cont (b : ascii) : bool := in_range 128 191 b.

(** The length of the character at the head of the text, 0 if it is ill-formed. *)
Definition utf8_head (l : bytes) : nat :=
  match l with
  | b0 :: l1 =>
      if (code b0 <? 128)%N then 1
      else match l1 with
      | b1 :: l2 =>
          if in_range 194 223 b0 then (if cont b1 then 2 else 0)
          else match l2 with
          | b2 :: l3 =>
              if in_range 224 239 b0 then
                let lo := if (code b0 =? 224)%N then 160%N else 128%N in
                let hi := if (code b0 =? 237)%N then 159%N else 191%N in
                if in_range lo hi b1 && cont b2 then 3 else 0
              else match l3 with
              | b3 :: _ =>
                  if in_range 240 244 b0 then
                    let lo := if (code b0 =? 240)%N then 144%N else 128%N in
                    let hi := if (code b0 =? 244)%N then 143%N else 191%N in
                    if in_range lo hi b1 && cont b2 && cont b3 then 4 else 0
                  else 0
              | [] => 0
              end
          | [] => 0
          end
      | [] => 0
      end
  | [] => 0
  end.

Fixpoint valid_utf8_aux (fuel : nat) (l : bytes) : bool :=
  match l, fuel with
  | [], _ => true
  | _, O => false
  | _, S fuel' =>
      match utf8_head l with
      | O => false
      | n => valid_utf8_aux fuel' (drop n l)
      end
  end.

(** Every character takes a byte at least, so the length is fuel enough. *)
Definition valid_utf8 (l : bytes) : bool := valid_utf8_aux (length l) l.

(** ** [str::trim] *)

(** The UTF-8 encodings of the characters with the property White_Space. *)
Definition white_space : list bytes :=
  map (map ascii_of_N)
   [[9]; [10]; [11]; [12]; [13]; [32]; [194; 133]; [194; 160]; [225; 154; 128];
    [226; 128; 128]; [226; 128; 129]; [226; 128; 130]; [226; 128; 131]; [226; 128; 132];
    [226; 128; 133]; [226; 128; 134]; [226; 128; 135]; [226; 128; 136]; [226; 128; 137];
    [226; 128; 138]; [226; 128; 168]; [226; 128; 169]; [226; 128; 175]; [226; 129; 159];
    [227; 128; 128]]%N.

Definition white_space_rev : list bytes := map (@rev ascii) white_space.

Definition strip_one (ws : list bytes) (l : bytes) : option bytes :=
  head (omap (fun w => str_strip_prefix w l) ws).

Fixpoint trim_start_aux (ws : list bytes) (fuel : nat) (l : bytes) : bytes :=
  match fuel with
  | O => l
  | S fuel' =>
      match strip_one ws l with
      | Some l' => trim_start_aux ws fuel' l'
      | None => l
      end
  end.

Definition trim_start (l : bytes) : bytes := trim_start_aux white_space (length l) l.

Definition trim_end (l : bytes) : bytes :=
  rev (trim_start_aux white_space_rev (length l) (rev l)).

Definition trim (l : bytes) : bytes := trim_end (trim_start l).

(** ** [str::parse::<usize>] *)

Definition digit (b : ascii) : option N :=
  if in_range 48 57 b then Some (code b - 48)%N else None.

Fixpoint parse_digits (acc : N) (l : bytes) : option N :=
  match l with
  | [] => Some acc
  | b :: l' =>
      d ← digit b;
      let acc' := (acc * 10 + d)%N in
      if (acc' <=? 18446744073709551615)%N then parse_digits acc' l' else None
  end.

Definition parse_usize (l : bytes) : option N :=
  match l with
  | [] => None
  | b :: l' =>
      if Ascii.eqb b "+"%char then (match l' with [] => None | _ => parse_digits 0 l' end)
      else parse_digits 0 l
  end.

(** ** Lines *)

Definition newline : ascii := "010"%char.

(** The double quote and the backslash. *)
Definition dquote : ascii := "034"%char.
Definition backslash : ascii := "092"%char.

(** The bytes up to and including the first newline. *)
Fixpoint first_line (l : bytes) : bytes :=
  match l with
  | [] => []
  | b :: l' => if Ascii.eqb b newline then [b] else b :: first_line l'
  end.

(** What a reader of newline-delimited messages makes of the bytes; the last piece
    counts only if it is not empty. *)
Fixpoint split_newlines_from (current l : bytes) : list bytes :=
  match l with
  | [] => match current with [] => [] | _ => [current] end
  | b :: l' =>
      if Ascii.eqb b newline then current :: split_newlines_from [] l'
      else split_newlines_from (current ++ [b]) l'
  end.

Definition split_newlines (l : bytes) : list bytes := split_newlines_from [] l.

(** [str::lines]: without the line ends, a carriage return before one included. *)
Definition strip_cr (l : bytes) : bytes :=
  match rev l with
  | b :: r => if Ascii.eqb b "013"%char then rev r else l
  | [] => []
  end.

Fixpoint lines_from (current l : bytes) : list bytes :=
  match l with
  | [] => match current with [] => [] | _ => [current] end
  | b :: l' =>
      if Ascii.eqb b newline then strip_cr current :: lines_from [] l'
      else lines_from (current ++ [b]) l'
  end.

Definition lines (l : bytes) : list bytes := lines_from [] l.

(** ** The same on strings *)

Definition of_bytes (l : bytes) : string := String.string_of_list_ascii l.

Definition str_trim (s : string) : string := of_bytes (trim (lit s)).

Definition str_starts_with (p s : string) : bool := starts_with (lit p) (lit s).

(** [str::contains]. *)
Fixpoint contains (p l : bytes) : bool :=
  starts_with p l || match l with [] => false | _ :: l' => contains p l' end.

(** [str::split_whitespace]: the pieces between white space, the empty ones left out. *)
Definition piece (l : bytes) : list bytes := match l with [] => [] | _ => [l] end.

Fixpoint split_whitespace_from (fuel : nat) (current l : bytes) : list bytes :=
  match fuel, l with
  | S fuel', b :: l' =>
      match strip_one white_space l with
      | Some rest => piece current ++ split_whitespace_from fuel' [] rest
      | None => split_whitespace_from fuel' (current ++ [b]) l'
      end
  | _, _ => piece current
  end.

(** A step drops a byte at least, so the length is fuel enough. *)
Definition split_whitespace (l : bytes) : list bytes := split_whitespace_from (length l) [] l.

(** [str::replace] of one byte. *)
Definition replace_byte (b : ascii) (by_ l : bytes) : bytes :=
  flat_map (fun c => if Ascii.eqb c b then by_ else [c]) l.

(** ** Lemmas *)

(** The order of [str] is that of the bytes. *)
Lemma ascii_compare_trans a b c :
  Ascii.compare a b = Lt -> Ascii.compare b c = Lt -> Ascii.compare a c = Lt.
Proof. unfold Ascii.compare. rewrite !N.compare_lt_iff. lia. Qed.

Lemma string_leb_refl s : String.leb s s = true.
Proof. destruct (String.leb_total s s); done. Qed.

Lemma string_leb_trans s t u : String.leb s t = true -> String.leb t u = true -> String.leb s u = true.
Proof.
  unfold String.leb. revert t u.
  induction s as [|a s IH]; intros [|b t] [|c u]; simpl; try done.
  destruct (Ascii.compare a b) eqn:E1, (Ascii.compare b c) eqn:E2; try done;
    repeat match goal with H : Ascii.compare _ _ = Eq |- _ => apply Ascii.compare_eq_iff in H as -> end.
  - intros H1 H2. rewrite (proj2 (N.compare_eq_iff _ _) eq_refl : Ascii.compare c c = Eq).
    by apply (IH t u).
  - by rewrite E2.
  - by rewrite E1.
  - by rewrite (ascii_compare_trans _ _ _ E1 E2).
Qed.

Lemma split_newlines_line current m l :
  newline ∉ m ->
  split_newlines_from current (m ++ newline :: l) = (current ++ m) :: split_newlines_from [] l.
Proof.
  revert current. induction m as [|b m IH]; intros current Hm; simpl; [by rewrite app_nil_r|].
  apply not_elem_of_cons in Hm as [Hb Hm].
  destruct (Ascii.eqb_spec b newline); [congruence|]. rewrite IH by done. by rewrite <- app_assoc.
Qed.

(** Lines written one by one are read back. *)
Lemma split_newlines_lines ms :
  Forall (fun m => newline ∉ m) ms ->
  split_newlines (concat ((fun m => m ++ [newline]) <$> ms)) = ms.
Proof.
  unfold split_newlines. induction 1 as [|m ms Hm _ IH]; simpl; [done|].
  rewrite <- app_assoc. simpl. rewrite split_newlines_line by done. simpl. by f_equal.
Qed.

Lemma starts_with_app p l : starts_with p (p ++ l) = true.
Proof. induction p as [|b p IH]; simpl; [done|]. by rewrite Ascii.eqb_refl. Qed.

Lemma starts_with_true p l : starts_with p l = true <-> exists r, l = p ++ r.
Proof.
  split.
  - revert l. induction p as [|b p IH]; intros l; simpl; [eauto|].
    destruct l as [|c l]; [done|]. rewrite andb_true_iff. intros [->%Ascii.eqb_eq Hp].
    destruct (IH _ Hp) as [r ->]. eauto.
  - intros [r ->]. apply starts_with_app.
Qed.

Lemma first_line_prefix l : exists r, l = first_line l ++ r.
Proof.
  induction l as [|b l [r IH]]; simpl; [by exists []|].
  destruct (Ascii.eqb b newline); [by exists l|]. exists r. simpl. by f_equal.
Qed.

Lemma first_line_nil l : first_line l = [] -> l = [].
Proof. destruct l as [|b l]; simpl; [done|]. by destruct (Ascii.eqb b newline). Qed.

Lemma first_line_length l : length (first_line l) <= length l.
Proof.
  destruct (first_line_prefix l) as [r Hr]. rewrite Hr at 2. rewrite length_app. lia.
Qed.

Lemma first_line_app p l :
  newline ∉ p -> first_line (p ++ newline :: l) = p ++ [newline].
Proof.
  induction p as [|b p IH]; simpl; [done|]. rewrite not_elem_of_cons. intros [Hb Hp].
  destruct (Ascii.eqb_spec b newline); [congruence|]. by rewrite IH.
Qed.

(** ** Trimming text that starts and ends with a visible ASCII character *)

Definition visible (b : ascii) : bool := in_range 33 126 b.

Lemma visible_range b : visible b = true -> (33 <= code b <= 126)%N.
Proof.
  unfold visible, in_range. rewrite andb_true_iff, !N.leb_le. done.
Qed.

Lemma strip_one_visible b l (ws : list bytes) :
  Forall (fun w => match w with c :: _ => (code c < 33 \/ 126 < code c)%N | [] => False end) ws ->
  visible b = true -> strip_one ws (b :: l) = None.
Proof.
  intros Hws Hb%visible_range. unfold strip_one.
  replace (omap (fun w => str_strip_prefix w (b :: l)) ws) with (@nil bytes); [done|].
  symmetry. apply elem_of_nil_inv. intros x (w & Hin & Hx)%list_elem_of_omap.
  rewrite Forall_forall in Hws. specialize (Hws w Hin). destruct w as [|c w]; [done|].
  unfold str_strip_prefix in Hx. simpl in Hx. destruct (Ascii.eqb_spec c b); [subst; lia|done].
Qed.

Lemma strip_one_newline l : is_Some (strip_one white_space (newline :: l)).
Proof. by eexists. Qed.

Lemma split_whitespace_from_spec fuel current l :
  newline ∉ current ->
  Forall (fun t => t <> [] /\ newline ∉ t) (split_whitespace_from fuel current l).
Proof.
  assert (forall cur, newline ∉ cur -> Forall (fun t => t <> [] /\ newline ∉ t) (piece cur)) as Hpiece.
  { intros [|b cur] Hcur; [constructor|]. by apply Forall_singleton. }
  revert current l. induction fuel as [|fuel IH]; intros current l Hcur; [by apply Hpiece|].
  destruct l as [|b l]; [by apply Hpiece|]. cbn [split_whitespace_from].
  destruct (strip_one white_space (b :: l)) as [rest|] eqn:Es.
  - apply Forall_app. split; [by apply Hpiece|]. apply IH. apply not_elem_of_nil.
  - apply IH. rewrite not_elem_of_app. split; [done|]. intros <-%list_elem_of_singleton.
    destruct (strip_one_newline l) as [? Hn]. congruence.
Qed.

(** The pieces are not empty and hold no line feed. *)
Lemma split_whitespace_spec l : Forall (fun t => t <> [] /\ newline ∉ t) (split_whitespace l).
Proof. apply split_whitespace_from_spec, not_elem_of_nil. Qed.

Lemma white_space_heads :
  Forall (fun w => match w with c :: _ => (code c < 33 \/ 126 < code c)%N | [] => False end)
    white_space.
Proof. repeat (apply Forall_cons; split; [vm_compute; auto|]). by apply Forall_nil. Qed.

Lemma white_space_tails :
  Forall (fun w => match w with c :: _ => (code c < 33 \/ 126 < code c)%N | [] => False end)
    white_space_rev.
Proof. repeat (apply Forall_cons; split; [vm_compute; auto|]). by apply Forall_nil. Qed.

Lemma trim_start_visible b l : visible b = true -> trim_start (b :: l) = b :: l.
Proof.
  intros Hb. unfold trim_start. simpl.
  by rewrite (strip_one_visible _ _ _ white_space_heads Hb).
Qed.

Lemma trim_end_visible b l : visible b = true -> trim_end (l ++ [b]) = l ++ [b].
Proof.
  intros Hb. unfold trim_end. rewrite length_app, Nat.add_comm. simpl. rewrite rev_unit.
  rewrite (strip_one_visible _ _ _ white_space_tails Hb). simpl. by rewrite rev_involutive.
Qed.

(** [str::trim] on a line: visible text, then a carriage return and newline. *)
Lemma trim_end_crlf b l :
  visible b = true -> trim_end (l ++ [b; "013"%char; newline]) = l ++ [b].
Proof.
  intros Hb. unfold trim_end. rewrite length_app, Nat.add_comm. rewrite rev_app_distr.
  change (length [b; "013"%char; newline] + length l) with (S (S (S (length l)))).
  assert (forall m, strip_one white_space_rev (newline :: m) = Some m) as Hnl
    by done.
  assert (forall m, strip_one white_space_rev ("013"%char :: m) = Some m) as Hcr
    by done.
  cbn [trim_start_aux rev app]. rewrite Hnl, Hcr, (strip_one_visible _ _ _ white_space_tails Hb).
  simpl. by rewrite rev_involutive.
Qed.

Lemma white_space_bytes b :
  visible b = true -> Forall (fun w : bytes => b ∉ w) white_space_rev.
Proof.
  intros Hb%visible_range.
  assert (Forall (Forall (fun c => (code c < 33 \/ 126 < code c)%N)) white_space_rev) as Hws.
  { repeat (apply Forall_cons; split; [repeat (constructor; [vm_compute; auto|]); constructor|]).
    by apply Forall_nil. }
  eapply Forall_impl; [exact Hws|]. intros w Hw Hin. rewrite Forall_forall in Hw.
  specialize (Hw b Hin). simpl in Hw. lia.
Qed.

Lemma trim_start_aux_unit ws b fuel l :
  Forall (fun w : bytes => b ∉ w) ws -> trim_start_aux ws fuel (l ++ [b]) <> [].
Proof.
  intros Hws. revert l. induction fuel as [|fuel IH]; intros l; simpl; [by destruct l|].
  destruct (strip_one ws (l ++ [b])) as [l'|] eqn:Hs; [|by destruct l].
  unfold strip_one in Hs. apply head_Some_elem_of in Hs.
  apply list_elem_of_omap in Hs as (w & Hw & Hx).
  unfold str_strip_prefix in Hx. destruct (starts_with w (l ++ [b])) eqn:Hp; [|done].
  apply starts_with_true in Hp as [r Hr]. rewrite Hr, drop_app_length in Hx. injection Hx as <-.
  rewrite Forall_forall in Hws. specialize (Hws w Hw).
  destruct r as [|c r _] using rev_ind.
  - exfalso. apply Hws. rewrite app_nil_r in Hr. rewrite <- Hr. set_solver.
  - rewrite app_assoc in Hr. apply app_inj_tail in Hr as [_ <-]. apply IH.
Qed.

(** Text that starts with a visible character is not blank. *)
Lemma trim_not_blank b l : visible b = true -> trim (b :: l) <> [].
Proof.
  intros Hb. unfold trim. rewrite (trim_start_visible _ _ Hb). unfold trim_end.
  intros Hn%(f_equal (@rev ascii)). rewrite rev_involutive in Hn.
  change (rev (b :: l)) with (rev l ++ [b]) in Hn.
  exact (trim_start_aux_unit _ _ _ _ (white_space_bytes b Hb) Hn).
Qed.

Lemma valid_utf8_ascii l : Forall (fun b => (code b < 128)%N) l -> valid_utf8 l = true.
Proof.
  intros Hl. unfold valid_utf8. generalize (Nat.le_refl (length l)).
  generalize (length l) at 2 as n. intros n. revert l Hl.
  induction n as [|n IH]; intros l Hl Hn; destruct l as [|b l]; simpl in *; try done; [lia|].
  apply Forall_cons in Hl as [Hb Hl]. destruct (N.ltb_spec (code b) 128); [|lia].
  simpl. rewrite drop_0. apply IH; [done|lia].
Qed.

Lemma in_range_ascii lo hi b : (code b < 128)%N -> (128 <= lo)%N -> in_range lo hi b = false.
Proof. intros Hb Hlo. unfold in_range. apply andb_false_intro1, N.leb_gt. lia. Qed.

Lemma utf8_head_ascii l b r :
  (code b < 128)%N -> l <> [] -> utf8_head (l ++ b :: r) = utf8_head l /\ utf8_head l <= length l.
Proof.
  intros Hb Hl. assert (forall lo hi, (128 <= lo)%N -> in_range lo hi b = false) as Hr
    by (intros; by apply in_range_ascii).
  destruct l as [|b0 [|b1 [|b2 [|b3 l]]]]; [done| | | |]; cbn [utf8_head app length]; unfold cont;
    repeat first [rewrite (Hr 128%N 191%N) by lia | rewrite Hr by (case_match; lia)
                 | rewrite andb_false_r | split; [done|lia] | progress (cbn [andb]) | case_match]; lia.
Qed.

Lemma valid_utf8_aux_fuel n m l : length l <= n -> length l <= m -> valid_utf8_aux n l = valid_utf8_aux m l.
Proof.
  revert m l. induction n as [|n IH]; intros [|m] [|b l]; cbn [length]; intros Hn Hm; try done; try lia.
  cbn [valid_utf8_aux]. destruct (utf8_head (b :: l)) as [|k]; [done|].
  cbn [drop]. apply IH; rewrite length_drop; lia.
Qed.

(** A byte that is a character stands between two others. *)
Lemma valid_utf8_ascii_app l b r :
  (code b < 128)%N -> valid_utf8 (l ++ b :: r) = valid_utf8 l && valid_utf8 r.
Proof.
  intros Hb. unfold valid_utf8. rewrite length_app. generalize (Nat.le_refl (length l)).
  generalize (length l) at 2 3 4 as n. intros n. cbn [length]. rewrite Nat.add_succ_r.
  revert l. induction n as [|n IH]; intros l Hl; cbn [Nat.add].
  - destruct l; [|cbn in Hl; lia]. cbn [app valid_utf8_aux utf8_head].
    destruct (N.ltb_spec (code b) 128); [done|lia].
  - destruct (decide (l = [])) as [->|Hne].
    + cbn [app valid_utf8_aux utf8_head]. destruct (N.ltb_spec (code b) 128); [|lia].
      change (valid_utf8_aux (S (n + length r)) r = valid_utf8_aux (length r) r).
      apply valid_utf8_aux_fuel; lia.
    + destruct (utf8_head_ascii l b r Hb Hne) as [Hh Hle]. destruct l as [|c l]; [done|].
      cbn [app valid_utf8_aux]. cbn [app] in Hh. rewrite Hh.
      destruct (utf8_head (c :: l)) as [|k]; [done|]. cbn [length] in *. cbn [drop].
      rewrite drop_app_le by lia. rewrite <- IH by (rewrite length_drop; lia). done.
Qed.

(** ** Whole lines *)

(** Nothing, or text that ends with a line feed. *)
Definition whole (l : bytes) : Prop := l = [] \/ last l = Some newline.

Lemma whole_app a b : whole a -> whole b -> whole (a ++ b).
Proof.
  unfold whole. intros Ha [->|Hb]; [by rewrite app_nil_r|]. right. by rewrite last_app, Hb.
Qed.

Lemma lines_from_app current a b :
  lines_from current (a ++ newline :: b) = lines_from current (a ++ [newline]) ++ lines b.
Proof.
  revert current. induction a as [|c a IH]; intros current; simpl; [done|].
  destruct (Ascii.eqb c newline); simpl; by rewrite IH.
Qed.

Lemma lines_app a b : whole a -> lines (a ++ b) = lines a ++ lines b.
Proof.
  intros [->|Ha]; [done|]. apply last_Some in Ha as [a' ->].
  rewrite <- app_assoc. apply lines_from_app.
Qed.

(** ** Sorted lists without repetitions *)

(** [Vec::dedup]. *)
Fixpoint dedup (l : list string) : list string :=
  match l with
  | x :: ((y :: _) as l') => if String.eqb x y then dedup l' else x :: dedup l'
  | _ => l
  end.

Lemma dedup_cons x y l :
  dedup (x :: y :: l) = if String.eqb x y then dedup (y :: l) else x :: dedup (y :: l).
Proof. done. Qed.

Lemma dedup_elem x l : x ∈ dedup l <-> x ∈ l.
Proof.
  induction l as [|y [|z l] IH]; [done..|]. rewrite dedup_cons.
  destruct (String.eqb_spec y z) as [->|]; [rewrite IH; set_solver|].
  rewrite !(elem_of_cons (z :: l)), !(elem_of_cons _ _ y), IH. done.
Qed.

Lemma dedup_NoDup l : StronglySorted (fun x y => String.leb x y = true) l -> NoDup (dedup l).
Proof.
  induction 1 as [|y l Hs IH Hy]; [constructor|]. destruct l as [|z l]; [apply NoDup_singleton|].
  rewrite dedup_cons. destruct (String.eqb_spec y z) as [->|Hne]; [done|]. constructor; [|done].
  rewrite dedup_elem. intros Hin. apply Hne.
  apply Forall_cons in Hy as [Hyz _]. apply StronglySorted_inv in Hs as [_ Hz].
  apply elem_of_cons in Hin as [->|Hin]; [done|]. rewrite Forall_forall in Hz.
  apply String.leb_antisym; [done|by apply Hz].
Qed.

Lemma sorted_set_elem x l : x ∈ dedup (sort_by String.leb l) <-> x ∈ l.
Proof. by rewrite dedup_elem, sort_by_Permutation. Qed.

Lemma sorted_set_NoDup l : NoDup (dedup (sort_by String.leb l)).
Proof. apply dedup_NoDup, sort_by_sorted; [apply String.leb_total|apply string_leb_trans]. Qed.

(** ** Indentation *)

Lemma strip_white w l : w ∈ white_space -> strip_one white_space (w ++ l) = Some l.
Proof. revert w. apply Forall_forall. repeat constructor. Qed.

Lemma trim_start_aux_indent ws fuel b l :
  Forall (fun w => w ∈ white_space) ws -> length ws <= fuel -> visible b = true ->
  trim_start_aux white_space fuel (concat ws ++ b :: l) = b :: l.
Proof.
  intros Hws Hfuel Hb. revert fuel Hfuel. induction Hws as [|w ws Hw _ IH]; intros fuel Hfuel; cbn [concat app].
  - destruct fuel as [|fuel]; [done|]. cbn [trim_start_aux].
    by rewrite (strip_one_visible _ _ _ white_space_heads Hb).
  - destruct fuel as [|fuel]; cbn [length] in Hfuel; [lia|]. cbn [trim_start_aux].
    rewrite <- app_assoc, strip_white by done. apply IH. lia.
Qed.

(** White space alone. *)
Definition indentation (l : bytes) : Prop :=
  exists ws, Forall (fun w => w ∈ white_space) ws /\ l = concat ws.

Lemma length_indentation ws : Forall (fun w => w ∈ white_space) ws -> length ws <= length (concat ws).
Proof.
  induction 1 as [|w ws Hw _ IH]; [done|]. cbn [concat length]. rewrite length_app.
  pose proof white_space_heads as Hh. rewrite Forall_forall in Hh. specialize (Hh w Hw).
  destruct w; [done|]. cbn [length]. lia.
Qed.

Lemma trim_start_indent i b l :
  indentation i -> visible b = true -> trim_start (i ++ b :: l) = b :: l.
Proof.
  intros (ws & Hws & ->) Hb. unfold trim_start. apply trim_start_aux_indent; [done| |done].
  rewrite length_app. pose proof (length_indentation ws Hws). lia.
Qed.

Lemma strip_one_split l l' : strip_one white_space l = Some l' -> exists w, w ∈ white_space /\ l = w ++ l'.
Proof.
  unfold strip_one. intros (w & Hw & E)%head_Some_elem_of%list_elem_of_omap. exists w. split; [done|].
  unfold str_strip_prefix in E. destruct (starts_with w l) eqn:Hs; [|done].
  apply starts_with_true in Hs as [r ->]. rewrite drop_app_length in E. by injection E as ->.
Qed.

Lemma trim_start_split l : exists i, indentation i /\ l = i ++ trim_start l.
Proof.
  unfold trim_start. generalize (length l) as fuel. intros fuel. revert l.
  induction fuel as [|fuel IH]; intros l; cbn [trim_start_aux]; [by exists []; split; [exists []|]|].
  destruct (strip_one white_space l) as [l'|] eqn:E; [|by exists []; split; [exists []|]].
  apply strip_one_split in E as (w & Hw & ->). destruct (IH l') as (i & (ws & Hws & ->) & Hl).
  exists (concat (w :: ws)). split; [exists (w :: ws); by split; [constructor|]|].
  cbn [concat]. rewrite <- app_assoc. by f_equal.
Qed.

Lemma strip_cr_last l : strip_cr l = l <-> last l <> Some "013"%char.
Proof.
  unfold strip_cr. destruct l as [|b l _] using rev_ind; [done|]. rewrite rev_unit, last_snoc.
  destruct (Ascii.eqb_spec b "013"%char) as [->|Hb]; [|split; congruence].
  rewrite rev_involutive. split; [|done]. intros E%(f_equal length). rewrite length_app in E. cbn in E. lia.
Qed.

Lemma last_app_ne (l r : bytes) : r <> [] -> last (l ++ r) = last r.
Proof. intros Hr. rewrite last_app. destruct (last r) eqn:E; [done|]. by apply last_None in E. Qed.
