(* ===== verification/Toml.v ===== *)
(** * TOML values

    [toml::Value] as the crate builds it by default: a table is a [BTreeMap], a list of
    pairs in the order of their keys.  [integration.rs]: the edits of a TOML document
    by path, and the merge of a set of strings into one table. *)

From S2P Require Import Prelude Text.

(** [f64] as far as values are compared, and read as integers. *)
Class TomlFloat := {
  f64 : Type;
  f64_eqb : f64 -> f64 -> bool;
  (** [p.fract() == 0.0 && (0.0..=999.0).contains(p)]. *)
  f64_integral_below_1000 : f64 -> bool;
}.

(** A single float, for documents without any. *)
Definition one_float : TomlFloat := {|
  f64 := unit; f64_eqb _ _ := true; f64_integral_below_1000 _ := false |}.

Unset Elimination Schemes.

Inductive toml `{TomlFloat} :=
| TString (s : string)
| TInteger (n : Z)
| TFloat (x : f64)
| TBoolean (b : bool)
| TDatetime (repr : string)
| TArray (l : list toml)
| TTable (m : list (string * toml)).

Set Elimination Schemes.

Section toml_ind.
Context `{TomlFloat} (P : toml -> Prop)
  (Hstr : forall s, P (TString s)) (Hint : forall n, P (TInteger n))
  (Hfloat : forall x, P (TFloat x)) (Hbool : forall b, P (TBoolean b))
  (Hdate : forall s, P (TDatetime s)) (Harr : forall l, Forall P l -> P (TArray l))
  (Htable : forall m, Forall (fun p => P p.2) m -> P (TTable m)).

Fixpoint toml_ind (t : toml) : P t :=
  match t with
  | TString s => Hstr s
  | TInteger n => Hint n
  | TFloat x => Hfloat x
  | TBoolean b => Hbool b
  | TDatetime s => Hdate s
  | TArray l =>
      Harr l ((fix go l : Forall P l :=
        match l with
        | [] => List.Forall_nil _
        | x :: l' => List.Forall_cons _ _ _ (toml_ind x) (go l')
        end) l)
  | TTable m =>
      Htable m ((fix go m : Forall (fun p => P p.2) m :=
        match m with
        | [] => List.Forall_nil _
        | x :: m' => List.Forall_cons _ _ _ (toml_ind x.2) (go m')
        end) m)
  end.
End toml_ind.

(** ** [BTreeMap<String, A>] *)

Section tables.
Context {A : Type}.

Fixpoint tbl_get (k : string) (m : list (string * A)) : option A :=
  match m with
  | [] => None
  | (k', v) :: m' => if String.eqb k k' then Some v else tbl_get k m'
  end.

Fixpoint tbl_insert (k : string) (v : A) (m : list (string * A)) : list (string * A) :=
  match m with
  | [] => [(k, v)]
  | (k', v') :: m' =>
      match String.compare k k' with
      | Lt => (k, v) :: m
      | Eq => (k, v) :: m'
      | Gt => (k', v') :: tbl_insert k v m'
      end
  end.

Definition tbl_remove (k : string) (m : list (string * A)) : list (string * A) :=
  filter (fun p => p.1 <> k) m.

(** Keys in ascending order, each once. *)
Fixpoint ascending (m : list (string * A)) : bool :=
  match m with
  | p :: ((q :: _) as m') => String.ltb p.1 q.1 && ascending m'
  | _ => true
  end.

Lemma tbl_get_insert k k' v m :
  tbl_get k' (tbl_insert k v m) = if String.eqb k' k then Some v else tbl_get k' m.
Proof.
  induction m as [|[k1 v1] m IH]; simpl; [done|].
  destruct (String.compare k k1) eqn:E; simpl.
  - apply String.compare_eq_iff in E as ->. by destruct (String.eqb_spec k' k1).
  - done.
  - rewrite IH. destruct (String.eqb_spec k' k1) as [->|]; [|done].
    destruct (String.eqb_spec k1 k) as [->|]; [|done].
    pose proof (String.compare_antisym k k) as Ha. by rewrite E in Ha.
Qed.

Lemma tbl_get_remove k k' m :
  tbl_get k' (tbl_remove k m) = if String.eqb k' k then None else tbl_get k' m.
Proof.
  unfold tbl_remove. induction m as [|[k1 v1] m IH]; simpl; [by destruct (String.eqb k' k)|].
  rewrite filter_cons. simpl. case_decide as Hk; simpl; rewrite IH;
    destruct (String.eqb_spec k' k1), (String.eqb_spec k' k); naive_solver.
Qed.

Lemma tbl_get_elem k v m : tbl_get k m = Some v -> (k, v) ∈ m.
Proof.
  induction m as [|[k' v'] m IH]; simpl; [done|].
  destruct (String.eqb_spec k k'); intros; simplify_eq; [left|right; auto].
Qed.

Lemma tbl_get_None k m : tbl_get k m = None <-> k ∉ m.*1.
Proof.
  induction m as [|[k' v'] m IH]; simpl; [set_solver|].
  destruct (String.eqb_spec k k') as [->|]; [set_solver|]. rewrite IH. set_solver.
Qed.

Lemma elem_tbl_get k v m : NoDup m.*1 -> (k, v) ∈ m -> tbl_get k m = Some v.
Proof.
  induction m as [|[k' v'] m IH]; simpl; [set_solver|].
  intros [Hk Hnd]%NoDup_cons [[= -> ->]|Hin]%elem_of_cons; [by rewrite String.eqb_refl|].
  destruct (String.eqb_spec k k') as [->|]; [|auto].
  destruct Hk. apply list_elem_of_fmap. by exists (k', v).
Qed.
End tables.

Lemma string_ltb_compare s t : String.ltb s t = true <-> String.compare s t = Lt.
Proof. unfold String.ltb. by destruct (String.compare s t). Qed.

Lemma string_ltb_trans s t u : String.ltb s t = true -> String.ltb t u = true -> String.ltb s u = true.
Proof.
  assert (forall a b, String.ltb a b = true <-> String.leb a b = true /\ a <> b) as Hlt.
  { intros a b. unfold String.ltb, String.leb. destruct (String.compare a b) eqn:E; split; try done.
    - by intros [_ Hne]; apply String.compare_eq_iff in E.
    - intros _. split; [done|]. intros ->. pose proof (String.compare_antisym b b) as Ha.
      by rewrite E in Ha.
    - by intros []. }
  rewrite !Hlt. intros [H1 N1] [H2 N2]. split; [by eapply string_leb_trans|].
  intros ->. apply N2. by apply String.leb_antisym.
Qed.

Lemma ascending_head {A} (p : string * A) m :
  ascending (p :: m) = true -> ascending m = true /\ Forall (fun q => String.ltb p.1 q.1 = true) m.
Proof.
  revert p. induction m as [|q m IH]; intros p Ha; [by repeat constructor|].
  cbn [ascending] in Ha. apply andb_true_iff in Ha as [Hpq Ha]. split; [done|].
  constructor; [done|]. apply IH in Ha as [_ Hq]. eapply Forall_impl; [done|].
  intros r Hr. by eapply string_ltb_trans.
Qed.

Lemma ascending_NoDup {A} (m : list (string * A)) : ascending m = true -> NoDup m.*1.
Proof.
  induction m as [|p m IH]; intros Ha; simpl; [constructor|].
  apply ascending_head in Ha as [Ha Hp]. constructor; [|by apply IH].
  intros (q & Hq & Hin)%list_elem_of_fmap. rewrite Forall_forall in Hp. apply Hp in Hin.
  rewrite Hq in Hin. apply string_ltb_compare in Hin.
  pose proof (String.compare_antisym q.1 q.1) as Hs. by rewrite Hin in Hs.
Qed.

(** Where the tables are as they are built, lookups determine them. *)
Lemma ascending_ext {A} (m m' : list (string * A)) :
  ascending m = true -> ascending m' = true -> (forall k, tbl_get k m = tbl_get k m') -> m = m'.
Proof.
  revert m'. induction m as [|[k v] m IH]; intros [|[k' v'] m'] Ha Ha' Hget; try done.
  { specialize (Hget k'). simpl in Hget. by rewrite String.eqb_refl in Hget. }
  { specialize (Hget k). simpl in Hget. by rewrite String.eqb_refl in Hget. }
  apply ascending_head in Ha as [Ha Hk]. apply ascending_head in Ha' as [Ha' Hk'].
  assert (forall a b, String.ltb a b = true -> String.ltb b a = true -> False) as Hasym.
  { intros a b H1%string_ltb_compare H2%string_ltb_compare.
    rewrite String.compare_antisym, H2 in H1. done. }
  assert (forall k1 (l : list (string * A)) v1, Forall (fun q => String.ltb k1 q.1 = true) l ->
    tbl_get k1 l = Some v1 -> False) as Hself.
  { intros k1 l v1 Hl Hin%tbl_get_elem. rewrite Forall_forall in Hl. apply Hl in Hin.
    simpl in Hin. eauto. }
  assert (k = k') as <-.
  { pose proof (Hget k) as H1. pose proof (Hget k') as H2. simpl in H1, H2.
    rewrite String.eqb_refl in H1, H2. destruct (String.eqb_spec k k') as [|Hne]; [done|].
    destruct (String.eqb_spec k' k); [done|]. symmetry in H1.
    apply tbl_get_elem in H1, H2. rewrite Forall_forall in Hk, Hk'.
    apply Hk in H2. apply Hk' in H1. simpl in *. exfalso. eauto. }
  assert (v = v') as <-.
  { specialize (Hget k). simpl in Hget. rewrite String.eqb_refl in Hget. by simplify_eq. }
  f_equal. apply IH; [done..|]. intros k1. specialize (Hget k1). simpl in Hget.
  destruct (String.eqb_spec k1 k) as [Hk1|]; [|done]. rewrite Hk1.
  destruct (tbl_get k m) eqn:E1; [by exfalso; eauto|].
  destruct (tbl_get k m') eqn:E2; [by exfalso; eauto|done].
Qed.

Lemma tbl_insert_Forall {A} (Q : string * A -> Prop) k v m :
  Q (k, v) -> Forall Q m -> Forall Q (tbl_insert k v m).
Proof.
  intros Hq. induction 1 as [|[k' v'] m Hp Hm IH]; simpl; [by constructor|].
  destruct (String.compare k k'); by repeat constructor.
Qed.

Lemma tbl_insert_ascending {A} k (v : A) m : ascending m = true -> ascending (tbl_insert k v m) = true.
Proof.
  induction m as [|[k' v'] m IH]; intros Ha; [done|].
  cbn [tbl_insert]. destruct (String.compare k k') eqn:E.
  - apply String.compare_eq_iff in E as ->. by destruct m.
  - cbn [ascending fst]. apply andb_true_iff. split; [by apply string_ltb_compare|done].
  - apply ascending_head in Ha as [Ha Hk'].
    assert (Forall (fun q => String.ltb k' q.1 = true) (tbl_insert k v m)) as Hf.
    { apply tbl_insert_Forall; [|done]. simpl. apply string_ltb_compare.
      by rewrite String.compare_antisym, E. }
    specialize (IH Ha). destruct (tbl_insert k v m) as [|q m']; [done|].
    apply Forall_cons in Hf as [Hq _]. cbn [ascending]. by rewrite andb_true_iff.
Qed.

Lemma tbl_insert_insert {A} k (v v' : A) m : tbl_insert k v (tbl_insert k v' m) = tbl_insert k v m.
Proof.
  assert (String.compare k k = Eq) as Hkk.
  { pose proof (String.compare_antisym k k). by destruct (String.compare k k). }
  induction m as [|[k1 v1] m IH]; simpl; [by rewrite Hkk|].
  destruct (String.compare k k1) eqn:E; simpl; rewrite ?Hkk, ?E, ?IH; done.
Qed.

Lemma tbl_insert_id {A} k (v : A) m :
  ascending m = true -> tbl_get k m = Some v -> tbl_insert k v m = m.
Proof.
  intros Ha Hk. apply ascending_ext; [by apply tbl_insert_ascending|done|].
  intros k'. rewrite tbl_get_insert. by destruct (String.eqb_spec k' k) as [->|].
Qed.

Lemma tbl_remove_insert {A} k (v : A) m : tbl_remove k (tbl_insert k v m) = tbl_remove k m.
Proof.
  unfold tbl_remove. induction m as [|[k1 v1] m IH]; simpl; [by rewrite filter_cons, decide_False by naive_solver|].
  destruct (String.compare k k1) eqn:E; rewrite ?filter_cons; simpl.
  - apply String.compare_eq_iff in E as ->. by rewrite !decide_False by naive_solver.
  - by rewrite (decide_False (P := k <> k)) by naive_solver.
  - by rewrite IH.
Qed.

Lemma tbl_remove_head {A} k (v : A) m : ascending ((k, v) :: m) = true -> tbl_remove k ((k, v) :: m) = m.
Proof.
  intros Ha%ascending_NoDup. simpl in Ha. apply NoDup_cons in Ha as [Hk _]. unfold tbl_remove.
  rewrite filter_cons, decide_False by naive_solver. induction m as [|p m IH]; [done|].
  rewrite filter_cons, decide_True by (simpl in Hk; set_solver). f_equal. apply IH. set_solver.
Qed.

Lemma tbl_remove_ascending {A} k (m : list (string * A)) :
  ascending m = true -> ascending (tbl_remove k m) = true.
Proof.
  unfold tbl_remove. induction m as [|p m IH]; intros Ha; [done|].
  apply ascending_head in Ha as [Ha Hp]. rewrite filter_cons. specialize (IH Ha).
  case_decide; [|done].
  assert (Forall (fun q => String.ltb p.1 q.1 = true) (filter (fun p => p.1 <> k) m)) as Hf.
  { rewrite Forall_forall in Hp |- *. intros q [_ Hq]%list_elem_of_filter. auto. }
  destruct (filter _ m) as [|q m']; [done|]. apply Forall_cons in Hf as [Hq _].
  cbn [ascending]. by rewrite andb_true_iff.
Qed.

(** ** Accessors *)

Section values.
Context `{TomlFloat}.

Abbreviation table := (list (string * toml)).

Definition as_table (t : toml) : option table :=
  match t with TTable m => Some m | _ => None end.

Definition tget (k : string) (t : toml) : option toml := as_table t ≫= tbl_get k.

Definition tas_str (t : toml) : option string :=
  match t with TString s => Some s | _ => None end.

Definition tas_bool (t : toml) : option bool :=
  match t with TBoolean b => Some b | _ => None end.

Definition tas_array (t : toml) : option (list toml) :=
  match t with TArray l => Some l | _ => None end.

(** Tables as they are built, at every depth. *)
Fixpoint twf (t : toml) : bool :=
  match t with
  | TArray l => forallb twf l
  | TTable m => ascending m && forallb (fun p => twf p.2) m
  | _ => true
  end.

Lemma twf_table m : twf (TTable m) = true <-> ascending m = true /\ Forall (fun p => twf p.2 = true) m.
Proof.
  simpl. rewrite andb_true_iff, forallb_forall, Forall_forall. by setoid_rewrite <- list_elem_of_In.
Qed.

Lemma twf_get m k v : twf (TTable m) = true -> tbl_get k m = Some v -> twf v = true.
Proof.
  intros [_ Hm]%twf_table Hk%tbl_get_elem. rewrite Forall_forall in Hm. by apply (Hm (k, v)).
Qed.

Lemma twf_insert m k v : twf (TTable m) = true -> twf v = true -> twf (TTable (tbl_insert k v m)) = true.
Proof.
  intros [Ha Hm]%twf_table Hv. apply twf_table. split; [by apply tbl_insert_ascending|].
  by apply tbl_insert_Forall.
Qed.

Lemma twf_remove m k : twf (TTable m) = true -> twf (TTable (tbl_remove k m)) = true.
Proof.
  intros [Ha Hm]%twf_table. apply twf_table. split; [by apply tbl_remove_ascending|].
  rewrite Forall_forall in Hm |- *. intros p [_ Hp]%list_elem_of_filter. auto.
Qed.
End values.

Abbreviation toml_table := (list (string * toml)).

#[export] Hint Resolve twf_get twf_insert twf_remove : kyris.
