(* ===== verification/TomlPatch.v ===== *)
(** * Reversible edits of TOML configuration files

    [cli/src/toml_patch.rs], the twin of [JsonPatch] on TOML values, and the TOML edits
    of [cli/src/integration.rs]: values set by path, and a set of strings merged into
    one table. *)

From S2P Require Import Prelude Text Toml.

Module TomlPatch.
Local Open Scope string_scope.
Local Open Scope list_scope.

Section patch.
Context `{TomlFloat}.

(** ** Operations *)

Inductive TomlOp :=
| Add (path : list string) (value : toml)
| Replace (path : list string) (old : toml)
| Remove (path : list string) (old : toml).

Definition child_path (prefix : list string) (key : string) : list string := prefix ++ [key].

Definition fmt_path (path : list string) : string := String.concat "." path.

Definition split_path (path : list string) : result (list string * string) string :=
  match last path with
  | Some key => Ok (removelast path, key)
  | None => Err "path is empty"
  end.

(** [toml::Value::eq]: tables in the order of their keys, floats as [f64]s. *)
Fixpoint toml_eqb (a b : toml) : bool :=
  match a, b with
  | TString s, TString t => String.eqb s t
  | TInteger m, TInteger n => Z.eqb m n
  | TFloat x, TFloat y => f64_eqb x y
  | TBoolean x, TBoolean y => Bool.eqb x y
  | TDatetime s, TDatetime t => String.eqb s t
  | TArray l, TArray l' =>
      (fix go (l l' : list toml) : bool :=
         match l, l' with
         | [], [] => true
         | x :: l, y :: l' => toml_eqb x y && go l l'
         | _, _ => false
         end) l l'
  | TTable m, TTable m' =>
      (fix go (m m' : toml_table) : bool :=
         match m, m' with
         | [], [] => true
         | (k, x) :: m, (k', y) :: m' => String.eqb k k' && toml_eqb x y && go m m'
         | _, _ => false
         end) m m'
  | _, _ => false
  end.

Fixpoint diff_recursive (prefix : list string) (old new : toml) : list TomlOp :=
  match old, new with
  | TTable old_t, TTable new_t =>
      flat_map (fun p : string * toml =>
        let path := child_path prefix p.1 in
        match tbl_get p.1 old_t with
        | Some old_val => if toml_eqb old_val p.2 then [] else diff_recursive path old_val p.2
        | None => [Add path p.2]
        end) new_t
      ++ flat_map (fun p : string * toml =>
        match tbl_get p.1 new_t with
        | Some _ => []
        | None => [Remove (child_path prefix p.1) p.2]
        end) old_t
  | _, _ => if toml_eqb old new then [] else [Replace prefix old]
  end.

Definition diff (old new : toml) : list TomlOp := diff_recursive [] old new.

(** ** Access by path *)

Fixpoint table_at_path (root : toml) (path : list string) : option toml_table :=
  m ← as_table root;
  match path with
  | [] => Some m
  | seg :: path => child ← tbl_get seg m; table_at_path child path
  end.

(** A use [f] of the reference that [table_at_path_mut] returns. *)
Fixpoint table_at_path_mut {A} (root : toml) (path : list string)
    (f : toml_table -> toml_table * A) : option (toml * A) :=
  m ← as_table root;
  match path with
  | [] => let '(m', a) := f m in Some (TTable m', a)
  | seg :: path =>
      child ← tbl_get seg m;
      '(child', a) ← table_at_path_mut child path f;
      Some (TTable (tbl_insert seg child' m), a)
  end.

Definition remove_at_path (root : toml) (path : list string) : toml * result bool string :=
  match split_path path with
  | Err w => (root, Err w)
  | Ok (parent, key) =>
      match table_at_path_mut root parent
              (fun t => (tbl_remove key t, bool_decide (is_Some (tbl_get key t)))) with
      | None => (root, Ok false)
      | Some (root', removed) => (root', Ok removed)
      end
  end.

(** The loop of [set_at_path] below a table: an absent parent is created. *)
Fixpoint set_below (cur : toml_table) (parent : list string) (key : string) (value : toml)
    : toml_table * result unit string :=
  match parent with
  | [] => (tbl_insert key value cur, Ok tt)
  | seg :: parent =>
      let entry := default (TTable []) (tbl_get seg cur) in
      match as_table entry with
      | Some child =>
          let '(child', r) := set_below child parent key value in
          (tbl_insert seg (TTable child') cur, r)
      | None => (tbl_insert seg entry cur, Err ("'" ++ seg ++ "' is not a table")%string)
      end
  end.

Definition set_at_path (root : toml) (path : list string) (value : toml) : toml * result unit string :=
  match split_path path with
  | Err w => (root, Err w)
  | Ok (parent, key) =>
      match as_table root with
      | None => (root, Err "root is not a table"%string)
      | Some m => let '(m', r) := set_below m parent key value in (TTable m', r)
      end
  end.

(** ** Taking operations back *)

Definition state : Type := toml * list string.

Definition warn {A} (what : string) (path : list string) (ws : list string)
    (r : toml * result A string) : state :=
  match r with
  | (root, Ok _) => (root, ws)
  | (root, Err w) => (root, ws ++ [(what ++ fmt_path path ++ ": " ++ w)%string])
  end.

Fixpoint unapply_add (s : state) (path : list string) (value : toml) : state :=
  match path with
  | [] => s
  | _ =>
      match value with
      | TTable added_t =>
          let '(root, ws) :=
            foldl (fun s p => unapply_add s (child_path path p.1) p.2) s added_t in
          match table_at_path root path with
          | Some [] => warn "cleanup empty table at " path ws (remove_at_path root path)
          | _ => (root, ws)
          end
      | _ => warn "remove at " path s.2 (remove_at_path s.1 path)
      end
  end.

Definition unapply_op (s : state) (op : TomlOp) : state :=
  match op with
  | Add path value => unapply_add s path value
  | Replace path old => warn "replace at " path s.2 (set_at_path s.1 path old)
  | Remove path old => warn "restore removed key at " path s.2 (set_at_path s.1 path old)
  end.

Definition unapply (root : toml) (ops : list TomlOp) : state :=
  foldl unapply_op (root, []) (rev ops).

(** ** Edits by path: [integration.rs] *)

Definition as_toml_table (value : toml) : toml_table := default [] (as_table value).

(** The walk of the cursor to the parent of the last key, which creates tables and
    overwrites what is none; [leaf] edits the parent. *)
Fixpoint at_toml_path (root : toml) (path : list string) (leaf : toml_table -> toml_table * bool)
    : toml * bool :=
  match path with
  | [] => let '(t, changed) := leaf (as_toml_table root) in (TTable t, changed)
  | key :: rest =>
      let table := as_toml_table root in
      let '(child, changed) := at_toml_path (default (TTable []) (tbl_get key table)) rest leaf in
      (TTable (tbl_insert key child table), changed)
  end.

Definition ensure_leaf (leaf : string) (there : toml -> bool) (value : toml) (table : toml_table)
    : toml_table * bool :=
  if match tbl_get leaf table with Some v => there v | None => false end
  then (table, false)
  else (tbl_insert leaf value table, true).

Definition ensure_toml_string_path (root : toml) (path : list string) (value : string) : toml * bool :=
  match split_path path with
  | Err _ => (root, false)
  | Ok (parent, leaf) =>
      at_toml_path root parent
        (ensure_leaf leaf (fun v => bool_decide (tas_str v = Some value)) (TString value))
  end.

Definition ensure_toml_bool_path (root : toml) (path : list string) (value : bool) : toml * bool :=
  match split_path path with
  | Err _ => (root, false)
  | Ok (parent, leaf) =>
      at_toml_path root parent
        (ensure_leaf leaf (fun v => bool_decide (tas_bool v = Some value)) (TBoolean value))
  end.

Fixpoint merge_entries (entries : list (string * string)) (table : toml_table) : toml_table * bool :=
  match entries with
  | [] => (table, false)
  | (key, value) :: entries =>
      let '(table, changed) :=
        ensure_leaf key (fun v => bool_decide (tas_str v = Some value)) (TString value) table in
      let '(table, later) := merge_entries entries table in
      (table, changed || later)
  end.

Definition merge_toml_string_entries (root : toml) (table_path : list string)
    (entries : list (string * string)) : toml * bool :=
  match entries with
  | [] => (root, false)
  | _ => at_toml_path root table_path (merge_entries entries)
  end.
(** ** Working below a key

    An operation whose path starts with [k] acts on the child of [k] alone. *)

Definition prefix_op (k : string) (op : TomlOp) : TomlOp :=
  match op with
  | Add path value => Add (k :: path) value
  | Replace path old => Replace (k :: path) old
  | Remove path old => Remove (k :: path) old
  end.

Definition op_path (op : TomlOp) : list string :=
  match op with Add path _ | Replace path _ | Remove path _ => path end.

Lemma toml_split_path_cons k path :
  path <> [] ->
  split_path (k :: path) =
    match split_path path with Ok (parent, key) => Ok (k :: parent, key) | Err w => Err w end.
Proof using Type.
  intros Hp. unfold split_path. destruct path as [|k2 path]; [done|].
  change (last (k :: k2 :: path)) with (last (k2 :: path)).
  by destruct (last (k2 :: path)).
Qed.

Lemma toml_split_path_Ok path : path <> [] -> exists parent key, split_path path = Ok (parent, key).
Proof using Type.
  intros Hp. unfold split_path. destruct path as [|key parent _] using rev_ind; [done|].
  rewrite last_snoc. eauto.
Qed.

Section below.
Context (k : string) (m : toml_table).

(** The root whose child under [k] is [c]. *)
Definition above (c : toml) : toml := TTable (tbl_insert k c m).

Lemma toml_above_id c : ascending m = true -> tbl_get k m = Some c -> above c = TTable m.
Proof using Type. intros. unfold above. by rewrite tbl_insert_id. Qed.

Lemma table_at_path_above c path :
  table_at_path (above c) (k :: path) = table_at_path c path.
Proof using Type. simpl. by rewrite tbl_get_insert, String.eqb_refl. Qed.

Lemma table_at_path_mut_above {A} c path (f : _ -> _ * A) :
  table_at_path_mut (above c) (k :: path) f =
    '(c', a) ← table_at_path_mut c path f; Some (above c', a).
Proof using Type.
  simpl. rewrite tbl_get_insert, String.eqb_refl. simpl.
  destruct (table_at_path_mut c path f) as [[c' a]|]; simpl; [|done].
  unfold above. by rewrite tbl_insert_insert.
Qed.

Lemma toml_remove_at_path_above c path :
  path <> [] ->
  remove_at_path (above c) (k :: path) =
    let '(c', r) := remove_at_path c path in (above c', r).
Proof using Type.
  intros Hp. unfold remove_at_path. rewrite toml_split_path_cons by done.
  destruct (toml_split_path_Ok path Hp) as (parent & key & ->).
  rewrite table_at_path_mut_above.
  by destruct (table_at_path_mut _ _ _) as [[? []]|].
Qed.

Lemma toml_set_at_path_above c path value :
  path <> [] ->
  set_at_path (above (TTable c)) (k :: path) value =
    let '(c', r) := set_at_path (TTable c) path value in (above c', r).
Proof using Type.
  intros Hp. unfold set_at_path. rewrite toml_split_path_cons by done.
  destruct (toml_split_path_Ok path Hp) as (parent & key & ->). simpl.
  rewrite tbl_get_insert, String.eqb_refl. simpl.
  destruct (set_below c parent key value) as [c' r].
  unfold above. by rewrite tbl_insert_insert.
Qed.

(** [lifted ws s t]: [t] is the root above the state [s] of the child, with as many
    warnings after [ws]. *)
Definition lifted (ws : list string) (s t : state) : Prop :=
  (exists c, s.1 = TTable c) /\ t.1 = above s.1 /\
  exists ws', t.2 = ws ++ ws' /\ length ws' = length s.2.

Lemma toml_lifted_warn {A} ws0 what (r : toml * result A string) ws ws' path :
  (exists c, r.1 = TTable c) -> (exists ws1, ws' = ws0 ++ ws1 /\ length ws1 = length ws) ->
  lifted ws0 (warn what path ws r)
    (warn what (k :: path) ws' (let '(c, x) := r in (above c, x))).
Proof using Type.
  destruct r as [root []]; simpl; intros ? (ws1 & -> & Hl); split_and!; simpl; eauto.
  rewrite <- app_assoc. eexists; split; [done|]. rewrite !length_app. simpl. lia.
Qed.
End below.

(** A table stays a table. *)
Lemma table_at_path_mut_table {A} m path (f : _ -> _ * A) c a :
  table_at_path_mut (TTable m) path f = Some (c, a) -> exists m', c = TTable m'.
Proof using Type.
  destruct path; simpl; [destruct (f m); naive_solver|].
  intros (? & _ & ([] & _ & ?)%bind_Some)%bind_Some. naive_solver.
Qed.

Lemma remove_at_path_table m path : exists m', (remove_at_path (TTable m) path).1 = TTable m'.
Proof using Type.
  unfold remove_at_path. destruct (split_path path) as [[parent key]|]; [|by exists m].
  destruct (table_at_path_mut _ _ _) as [[c a]|] eqn:E; [|by exists m].
  by eapply table_at_path_mut_table.
Qed.

Lemma set_at_path_table m path v : exists m', (set_at_path (TTable m) path v).1 = TTable m'.
Proof using Type.
  unfold set_at_path. destruct (split_path path) as [[parent key]|]; [|by exists m].
  simpl. destruct (set_below m parent key v) as [m' r]. by exists m'.
Qed.

#[local] Hint Resolve remove_at_path_table set_at_path_table : kyris.

Lemma toml_warn_state {A} what path ws (r : toml * result A string) : (warn what path ws r).1 = r.1.
Proof using Type. by destruct r as [? []]. Qed.

(** The two branches of [unapply_add]. *)
Definition unapply_children (s : state) path (am : toml_table) : state :=
  foldl (fun s p => unapply_add s (child_path path p.1) p.2) s am.

Lemma toml_unapply_add_leaf s path v :
  path <> [] -> as_table v = None ->
  unapply_add s path v = warn "remove at " path s.2 (remove_at_path s.1 path).
Proof using Type. destruct path, v; done. Qed.

Lemma unapply_add_table s path am :
  path <> [] ->
  unapply_add s path (TTable am) =
    let '(root, ws) := unapply_children s path am in
    match table_at_path root path with
    | Some [] => warn "cleanup empty table at " path ws (remove_at_path root path)
    | _ => (root, ws)
    end.
Proof using Type. by destruct path. Qed.

Lemma toml_child_path_nonempty path key : child_path path key <> [].
Proof using Type. by destruct path. Qed.
#[local] Hint Resolve toml_child_path_nonempty : kyris.

Lemma toml_unapply_add_above k m ws0 s t path value :
  path <> [] -> lifted k m ws0 s t ->
  lifted k m ws0 (unapply_add s path value) (unapply_add t (k :: path) value).
Proof using Type.
  revert s t path. induction value as [x|x|x|x|x|l _|am IH] using toml_ind; intros s t p Hp Hst;
    pose proof Hst as ([c Hc] & Ht & Hw);
    try (rewrite !toml_unapply_add_leaf, Ht, Hc, toml_remove_at_path_above by done;
         apply toml_lifted_warn; [eauto with kyris|done]).
  rewrite !unapply_add_table by done.
  assert (lifted k m ws0 (unapply_children s p am) (unapply_children t (k :: p) am)) as Hfold.
  { clear Hc Ht Hw c. unfold unapply_children. revert s t Hst.
    induction IH as [|[key v] am Hv _ IHam]; intros s t Hst; simpl; [done|].
    apply IHam, Hv; [apply toml_child_path_nonempty|done]. }
  destruct (unapply_children s p am) as [root ws], (unapply_children t (k :: p) am) as [root' ws'].
  destruct Hfold as ([c' Hc'] & Ht' & Hw'). simpl in Hc', Ht', Hw'. subst root root'.
  rewrite table_at_path_above, toml_remove_at_path_above by done.
  destruct (table_at_path (TTable c') p) as [[|]|];
    [apply toml_lifted_warn; [eauto with kyris|done]|by split_and!; simpl; eauto..].
Qed.

Lemma toml_unapply_op_above k m ws0 s t op :
  op_path op <> [] -> lifted k m ws0 s t ->
  lifted k m ws0 (unapply_op s op) (unapply_op t (prefix_op k op)).
Proof using Type.
  intros Hp Hst. destruct op as [path v|path v|path v]; simpl in *;
    [by apply toml_unapply_add_above|..];
    destruct Hst as ([c Hc] & Ht & Hw); rewrite Ht, Hc, toml_set_at_path_above by done;
    (apply toml_lifted_warn; [eauto with kyris|done]).
Qed.

Lemma unapply_op_table op m ws : exists m', (unapply_op (TTable m, ws) op).1 = TTable m'.
Proof using Type.
  assert (forall s path v, (exists m0, s.1 = TTable m0) ->
    exists m', (unapply_add s path v).1 = TTable m') as Hadd.
  { intros s path v. revert s path.
    induction v as [x|x|x|x|x|l _|am IH] using toml_ind; intros s path [m0 Hs];
      (destruct (decide (path = [])) as [->|Hp]; [by exists m0|]);
      try (rewrite toml_unapply_add_leaf, toml_warn_state, Hs by done; eauto with kyris).
    rewrite unapply_add_table by done.
    assert (exists m1, (unapply_children s path am).1 = TTable m1) as [m1 Hm1].
    { unfold unapply_children. revert s m0 Hs.
      induction IH as [|x am Hx _ IHam]; intros s m0 Hs; simpl; [eauto|].
      destruct (Hx s (child_path path x.1)) as [m1 Hm1]; eauto. }
    destruct (unapply_children s path am) as [root ws']. simpl in Hm1. subst root.
    destruct (table_at_path _ path) as [[|]|]; [rewrite toml_warn_state|..]; eauto with kyris. }
  destruct op; simpl; [eauto|rewrite toml_warn_state..]; eauto with kyris.
Qed.

Definition run (s : state) (ops : list TomlOp) : state := foldl unapply_op s ops.

Lemma toml_run_app s ops ops' : run s (ops ++ ops') = run (run s ops) ops'.
Proof using Type. apply foldl_app. Qed.

(** Taking back prefixed operations is taking them back in the child. *)
Lemma toml_run_above k m c c' ops ws :
  Forall (fun op => op_path op <> []) ops -> ascending m = true ->
  tbl_get k m = Some (TTable c) ->
  run (TTable c, []) ops = (c', []) ->
  run (TTable m, ws) (prefix_op k <$> ops) = (TTable (tbl_insert k c' m), ws).
Proof using Type.
  intros Hops Hm Hk Hrun.
  assert (lifted k m ws (c', []) (run (TTable m, ws) (prefix_op k <$> ops)))
    as (_ & Hr & ws' & Hw & Hl).
  { rewrite <- Hrun. assert (lifted k m ws (TTable c, []) (TTable m, ws)) as Hst.
    { split_and!; simpl; [eauto|by rewrite toml_above_id|exists []; by rewrite app_nil_r]. }
    clear Hrun Hk. revert Hst. generalize (TTable c, [] : list string) (TTable m, ws).
    induction Hops as [|op ops Hop _ IH]; intros s t Hst; simpl; [done|].
    by apply IH, toml_unapply_op_above. }
  apply nil_length_inv in Hl as ->. rewrite app_nil_r in Hw.
  by apply injective_projections.
Qed.

(** [unapply_add] of an added value that is still as it was added removes exactly
    its key. *)
Lemma toml_unapply_add_removes k v m ws :
  twf v = true -> ascending m = true -> tbl_get k m = Some v ->
  unapply_add (TTable m, ws) [k] v = (TTable (tbl_remove k m), ws).
Proof using Type.
  revert k m ws. induction v as [x|x|x|x|x|l _|am IH] using toml_ind; intros k m ws Hwf Hm Hk;
    try by rewrite toml_unapply_add_leaf.
  rewrite unapply_add_table by done.
  apply twf_table in Hwf as [Ha Hwf].
  assert (unapply_children (TTable (tbl_insert k (TTable am) m), ws) [k] am =
            (TTable (tbl_insert k (TTable []) m), ws)) as Hfold.
  { clear Hk. induction IH as [|[key v] am Hv _ IHam]; [done|].
    apply Forall_cons in Hwf as [Hwv Hwf]. pose proof (ascending_head _ _ Ha) as [Ha' _].
    unfold unapply_children. cbn [foldl fst snd].
    pose proof (toml_run_above k (tbl_insert k (TTable ((key, v) :: am)) m) ((key, v) :: am) (TTable am)
      [Add [key] v] ws) as Hr.
    cbn [run foldl fmap list_fmap unapply_op prefix_op] in Hr.
    unfold child_path. cbn [app]. rewrite Hr;
      [|by repeat constructor|by apply tbl_insert_ascending|by rewrite tbl_get_insert, String.eqb_refl|].
    - rewrite tbl_insert_insert. by apply IHam.
    - cbn [snd] in Hv. rewrite Hv; [|done..|simpl; by rewrite String.eqb_refl].
      by rewrite tbl_remove_head. }
  rewrite <- (tbl_insert_id k (TTable am) m) at 1 by done.
  rewrite Hfold.
  simpl. rewrite tbl_get_insert, String.eqb_refl. simpl.
  unfold remove_at_path. simpl. by rewrite tbl_remove_insert.
Qed.

(** ** Equality up to [==]: what the difference takes for unchanged stays as it is *)
Inductive teq : toml -> toml -> Prop :=
| teq_refl t : teq t t
| teq_eqb a b : toml_eqb a b = true -> teq b a
| teq_table m m' :
    (forall k, option_Forall2 teq (tbl_get k m) (tbl_get k m')) -> teq (TTable m) (TTable m').

(** ** Tables stay as they are built *)

Lemma table_at_path_mut_twf {A} root path (f : _ -> _ * A) root' a :
  (forall m, twf (TTable m) = true -> twf (TTable (f m).1) = true) ->
  table_at_path_mut root path f = Some (root', a) -> twf root = true -> twf root' = true.
Proof using Type.
  intros Hf. revert root root'. induction path as [|seg path IH]; intros root root' E Hw;
    simpl in E; apply bind_Some in E as (m & Hm & E);
    assert (root = TTable m) as -> by (destruct root; naive_solver).
  - specialize (Hf m Hw). destruct (f m). by simplify_eq/=.
  - apply bind_Some in E as (c & Hc & E). apply bind_Some in E as ([c' a'] & E' & [= <- <-]).
    apply twf_insert; [done|]. eapply IH; [done|]. by eapply twf_get.
Qed.

Lemma toml_remove_at_path_wf root path : twf root = true -> twf (remove_at_path root path).1 = true.
Proof using Type.
  intros Hw. unfold remove_at_path. destruct (split_path path) as [[parent key]|]; [|done].
  destruct (table_at_path_mut _ _ _) as [[c a]|] eqn:E; [|done].
  eapply table_at_path_mut_twf; [|done..]. intros. by apply twf_remove.
Qed.

Lemma toml_set_at_path_wf root path v :
  twf root = true -> twf v = true -> twf (set_at_path root path v).1 = true.
Proof using Type.
  intros Hw Hv. unfold set_at_path. destruct (split_path path) as [[parent key]|]; [|done].
  destruct root as [| | | | | |m]; try done. simpl.
  assert (twf (TTable (set_below m parent key v).1) = true) as Hs;
    [|by destruct (set_below m parent key v)].
  revert m Hw. induction parent as [|seg parent IH]; intros m Hw; simpl; [by apply twf_insert|].
  assert (twf (default (TTable []) (tbl_get seg m)) = true) as He
    by (destruct (tbl_get seg m) eqn:E; [by eapply twf_get|done]).
  destruct (default _ _) as [| | | | | |c]; simpl; try by apply twf_insert.
  specialize (IH c He). destruct (set_below c parent key v). by apply twf_insert.
Qed.

Lemma toml_unapply_add_wf s path v : twf s.1 = true -> twf (unapply_add s path v).1 = true.
Proof using Type.
  revert s path. induction v as [x|x|x|x|x|l _|am IH] using toml_ind; intros s path Hw;
    (destruct (decide (path = [])) as [->|Hp]; [done|]);
    try (rewrite toml_unapply_add_leaf, toml_warn_state by done; by apply toml_remove_at_path_wf).
  rewrite unapply_add_table by done.
  assert (twf (unapply_children s path am).1 = true) as Hc.
  { unfold unapply_children. revert s Hw. induction IH; intros; simpl; auto. }
  destruct (unapply_children s path am) as [root ws]. simpl in Hc.
  destruct (table_at_path root path) as [[|]|]; try done.
  rewrite toml_warn_state. by apply toml_remove_at_path_wf.
Qed.

Definition op_wf (op : TomlOp) : bool :=
  match op with Add _ _ => true | Replace _ old | Remove _ old => twf old end.

Lemma toml_run_wf ops s :
  Forall (fun op => op_wf op = true) ops -> twf s.1 = true -> twf (run s ops).1 = true.
Proof using Type.
  intros Hops. revert s. induction Hops as [|op ops Hop _ IH]; intros s Hw; simpl; [done|].
  apply IH. destruct op; simpl in *; [by apply toml_unapply_add_wf|rewrite toml_warn_state..];
    by apply toml_set_at_path_wf.
Qed.

(** ** One key at a time *)


(** [acts k ops src tgt]: on an object that has [src] under [k], [ops] put the
    equal of [tgt] there, leave the other keys alone and do not warn. *)
Definition acts (k : string) (ops : list TomlOp) (src tgt : option toml) : Prop :=
  forall m ws, ascending m = true -> tbl_get k m = src ->
  exists m', run (TTable m, ws) ops = (TTable m', ws) /\ ascending m' = true /\
    option_Forall2 teq (tbl_get k m') tgt /\
    forall k', k' <> k -> tbl_get k' m' = tbl_get k' m.

Lemma toml_acts_sequence (B : string -> list TomlOp) (src tgt : string -> option toml) ks m ws :
  NoDup ks -> (forall k, k ∈ ks -> acts k (B k) (src k) (tgt k)) ->
  ascending m = true -> (forall k, k ∈ ks -> tbl_get k m = src k) ->
  exists m', run (TTable m, ws) (concat (B <$> ks)) = (TTable m', ws) /\
    (forall k, k ∈ ks -> option_Forall2 teq (tbl_get k m') (tgt k)) /\
    (forall k, k ∉ ks -> tbl_get k m' = tbl_get k m).
Proof using Type.
  revert m. induction ks as [|k ks IH]; intros m Hks HB Hm Hsrc.
  { exists m. split_and!; [done|set_solver|done]. }
  apply NoDup_cons in Hks as [Hk Hks].
  destruct (HB k ltac:(set_solver) m ws) as (m1 & Hr1 & Hm1 & Ht1 & Hf1); [done|set_solver|].
  destruct (IH m1) as (m2 & Hr2 & Ht2 & Hf2); [done|set_solver|done| |].
  { intros k' Hk'. rewrite Hf1 by set_solver. apply Hsrc. set_solver. }
  exists m2. rewrite fmap_cons, concat_cons, toml_run_app, Hr1, Hr2. split_and!; [done|..].
  - intros k' [->|Hk']%elem_of_cons; [by rewrite Hf2|by apply Ht2].
  - intros k' [Hne Hk']%not_elem_of_cons. rewrite Hf2, Hf1 by done. done.
Qed.

Lemma toml_acts_nothing k v v' : teq v v' -> acts k [] (Some v) (Some v').
Proof using Type.
  intros Hv m ws Hm Hk. exists m. split_and!; try done. rewrite Hk. by constructor.
Qed.

Lemma toml_acts_set k src old op :
  op = Replace [k] old \/ op = Remove [k] old -> acts k [op] src (Some old).
Proof using Type.
  intros Hop m ws Hm _. exists (tbl_insert k old m). split_and!.
  - by destruct Hop as [-> | ->].
  - by apply tbl_insert_ascending.
  - rewrite tbl_get_insert, String.eqb_refl. constructor. apply teq_refl.
  - intros k' Hk'. rewrite tbl_get_insert. by destruct (String.eqb_spec k' k).
Qed.

Lemma toml_acts_add k v : twf v = true -> acts k [Add [k] v] (Some v) None.
Proof using Type.
  intros Hv m ws Hm Hk. exists (tbl_remove k m). split_and!.
  - by apply toml_unapply_add_removes.
  - by apply tbl_remove_ascending.
  - rewrite tbl_get_remove, String.eqb_refl by done. constructor.
  - intros k' Hk'. rewrite tbl_get_remove by done. by destruct (String.eqb_spec k' k).
Qed.

Lemma toml_acts_below k c c' ops old :
  Forall (fun op => op_path op <> []) ops ->
  run (TTable c, []) ops = (c', []) -> teq c' old ->
  acts k (prefix_op k <$> ops) (Some (TTable c)) (Some old).
Proof using Type.
  intros Hops Hr Ho m ws Hm Hk. exists (tbl_insert k c' m). split_and!.
  - by eapply toml_run_above.
  - by apply tbl_insert_ascending.
  - rewrite tbl_get_insert, String.eqb_refl. by constructor.
  - intros k' Hk'. rewrite tbl_get_insert. by destruct (String.eqb_spec k' k).
Qed.

(** ** The difference, key by key *)

Lemma toml_diff_recursive_prefix k prefix old new :
  diff_recursive (k :: prefix) old new = prefix_op k <$> diff_recursive prefix old new.
Proof using Type.
  revert prefix old. induction new as [x|x|x|x|x|l _|nm IH] using toml_ind; intros prefix old;
    try (destruct old; cbn -[toml_eqb]; by case_match).
  destruct old as [| | | | | |om]; try (cbn -[toml_eqb]; by case_match).
  cbn [diff_recursive]. rewrite fmap_app, !fmap_flat_map. f_equal; apply flat_map_ext_Forall.
  - eapply Forall_impl; [done|]. intros [k' v] Hv. cbn [fst snd] in *.
    repeat case_match; try done. apply Hv.
  - apply Forall_forall. intros [k' v] _. cbn [fst snd]. by case_match.
Qed.

(** The operations recorded for one key. *)
Definition block (om nm : toml_table) (k : string) : list TomlOp :=
  match tbl_get k nm, tbl_get k om with
  | Some v, Some v0 => if toml_eqb v0 v then [] else diff_recursive [k] v0 v
  | Some v, None => [Add [k] v]
  | None, Some v0 => [Remove [k] v0]
  | None, None => []
  end.

Lemma toml_diff_blocks om nm :
  ascending om = true -> ascending nm = true ->
  diff (TTable om) (TTable nm) =
    flat_map (block om nm) (nm.*1 ++ filter (fun k => k ∉ nm.*1) om.*1).
Proof using Type.
  intros Hom Hnm. unfold diff. cbn [diff_recursive].
  rewrite flat_map_app. f_equal.
  - rewrite flat_map_fmap. apply flat_map_ext_Forall, Forall_forall. intros [k v] Hin.
    unfold block. cbn [fst snd]. by rewrite (elem_tbl_get _ _ _ (ascending_NoDup _ Hnm) Hin).
  - assert (forall l, (forall k v, (k, v) ∈ l -> tbl_get k om = Some v) ->
      flat_map (fun p : string * toml =>
        match tbl_get p.1 nm with Some _ => [] | None => [Remove (child_path [] p.1) p.2] end) l =
      flat_map (block om nm) (filter (fun k => k ∉ nm.*1) l.*1)) as Hl.
    { induction l as [|[k v] l IH]; intros Hl; simpl; [done|]. rewrite filter_cons.
      rewrite IH by set_solver. case_decide as Hk.
      - simpl. unfold block at 2. rewrite (Hl k v) by set_solver.
        by apply tbl_get_None in Hk as ->.
      - destruct (tbl_get k nm) eqn:E; [done|]. by apply tbl_get_None in E. }
    apply Hl. intros k v. by apply elem_tbl_get, ascending_NoDup.
Qed.

Lemma toml_diff_op_wf prefix old new :
  twf old = true -> twf new = true ->
  Forall (fun op => op_wf op = true) (diff_recursive prefix old new).
Proof using Type.
  revert prefix old. induction new as [x|x|x|x|x|l _|nm IH] using toml_ind; intros prefix old Ho Hn;
    try (destruct old; cbn -[toml_eqb twf] in *; case_match; by repeat constructor).
  destruct old as [| | | | | |om]; try (cbn -[toml_eqb twf]; case_match; by repeat constructor).
  cbn [diff_recursive]. apply Forall_app. split; apply Forall_flat_map_intro.
  - apply twf_table in Hn as [_ Hn]. rewrite Forall_forall in IH, Hn |- *.
    intros [k v] Hin. cbn [fst snd]. repeat case_match; try by repeat constructor.
    eapply (IH (k, v)); [done|by eapply twf_get|by apply (Hn (k, v))].
  - apply twf_table in Ho as [_ Ho]. rewrite Forall_forall in Ho |- *.
    intros [k v] Hin. case_match; repeat constructor. by apply (Ho (k, v)).
Qed.

Lemma toml_diff_paths om nm :
  ascending om = true -> ascending nm = true ->
  Forall (fun op => op_path op <> []) (diff (TTable om) (TTable nm)).
Proof using Type.
  intros Hom Hnm. rewrite toml_diff_blocks by done. apply Forall_flat_map_intro, Forall_forall.
  intros k _. unfold block. repeat case_match; try by repeat constructor.
  rewrite toml_diff_recursive_prefix. apply Forall_fmap, Forall_forall. by intros [].
Qed.

(** The reference: uninstalling right after installing. *)
Definition restores (old new : toml) : Prop :=
  exists res, unapply new (diff old new) = (res, []) /\ teq res old.

Lemma toml_acts_block om nm k :
  twf (TTable om) = true -> twf (TTable nm) = true ->
  (forall om' nm', tbl_get k om = Some (TTable om') -> tbl_get k nm = Some (TTable nm') ->
    restores (TTable om') (TTable nm')) ->
  acts k (rev (block om nm k)) (tbl_get k nm) (tbl_get k om).
Proof using Type.
  intros Wo Wn IH. unfold block.
  destruct (tbl_get k nm) as [v|] eqn:Ev, (tbl_get k om) as [v0|] eqn:E0.
  - assert (twf v = true /\ twf v0 = true) as [Wv Wv0] by (split; eauto using twf_get).
    destruct (toml_eqb v0 v) eqn:Heq.
    { by apply toml_acts_nothing, teq_eqb. }
    assert ((exists om' nm', v0 = TTable om' /\ v = TTable nm') \/
            diff_recursive [k] v0 v = [Replace [k] v0]) as [(om' & nm' & -> & ->)| ->].
    { destruct v0, v; try (right; cbn -[toml_eqb]; by rewrite Heq). left. eauto. }
    + destruct (IH _ _ eq_refl eq_refl) as (res & Hr & Ho).
      rewrite toml_diff_recursive_prefix.
      rewrite <- (map_rev (prefix_op k)). eapply toml_acts_below; [|exact Hr|done].
      apply Forall_rev, toml_diff_paths; by apply twf_table.
    + eapply toml_acts_set. by left.
  - apply toml_acts_add. by eapply twf_get.
  - eapply toml_acts_set. by right.
  - intros m ws Hm Hk. exists m. split_and!; try done. rewrite Hk. constructor.
Qed.

Lemma restores_tables om nm :
  twf (TTable om) = true -> twf (TTable nm) = true -> restores (TTable om) (TTable nm).
Proof using Type.
  intros Wo Wn. remember (TTable nm) as new eqn:En. revert nm om En Wo Wn.
  induction new as [x|x|x|x|x|l _|nm' IH] using toml_ind; intros nm om [= ->] Wo Wn.
  assert (ascending om = true /\ ascending nm = true) as [Hom Hnm] by (split; by apply twf_table).
  unfold restores, unapply. fold (run (TTable nm, []) (rev (diff (TTable om) (TTable nm)))).
  rewrite toml_diff_blocks by done. set (ks := nm.*1 ++ _).
  rewrite rev_flat_map.
  edestruct (toml_acts_sequence (fun k => rev (block om nm k)) (fun k => tbl_get k nm)
    (fun k => tbl_get k om) (rev ks) nm []) as (res & Hr & Ht & Hf); [ | |done|done|].
  - rewrite <- Permutation_rev. subst ks. apply NoDup_app. split_and!; [by apply ascending_NoDup| |by apply NoDup_filter, ascending_NoDup].
    intros k Hk [? _]%list_elem_of_filter. done.
  - intros k _. apply toml_acts_block; [done..|]. intros om' nm' Eo En.
    rewrite Forall_forall in IH. eapply (IH (k, TTable nm')); eauto using twf_get, tbl_get_elem.
  - exists (TTable res). split; [done|]. apply teq_table. intros k.
    destruct (decide (k ∈ rev ks)) as [Hk|Hk]; [by apply Ht|].
    rewrite Hf by done. rewrite <- Permutation_rev in Hk. subst ks.
    apply not_elem_of_app in Hk as [Hn Ho]. rewrite list_elem_of_filter in Ho.
    rewrite (proj2 (tbl_get_None k nm)), (proj2 (tbl_get_None k om)) by naive_solver.
    constructor.
Qed.

(** C19. Installing and then uninstalling gives a TOML configuration back: for a document
    [om] and whatever document [nm] an install made of it, taking the recorded difference
    back from [nm] makes no warning and leaves the old document, tables in order as
    before (up to what [==] takes for the same, such as a zero and its negative). *)
Theorem toml_unapply_diff om nm :
  twf (TTable om) = true -> twf (TTable nm) = true ->
  exists res, unapply (TTable nm) (diff (TTable om) (TTable nm)) = (res, []) /\
    twf res = true /\ teq res (TTable om).
Proof using Type.
  intros Wo Wn. destruct (restores_tables om nm Wo Wn) as (res & Hr & He).
  exists res. split; [done|]. split; [|done].
  change res with ((res, [] : list string).1). rewrite <- Hr.
  apply (toml_run_wf _ (TTable nm, [])); [by apply Forall_rev, toml_diff_op_wf|done].
Qed.

(** ** Edits by path *)

Fixpoint value_at (root : toml) (path : list string) : option toml :=
  match path with
  | [] => Some root
  | seg :: path => m ← as_table root; child ← tbl_get seg m; value_at child path
  end.

Definition incomparable (p q : list string) : Prop := ~ p `prefix_of` q /\ ~ q `prefix_of` p.

Lemma split_path_snoc parent key : split_path (parent ++ [key]) = Ok (parent, key).
Proof using Type. unfold split_path. by rewrite last_snoc, removelast_last. Qed.

Lemma twf_as_toml_table root : twf root = true -> twf (TTable (as_toml_table root)) = true.
Proof using Type. by destruct root. Qed.

Lemma twf_entry m key : twf (TTable m) = true -> twf (default (TTable []) (tbl_get key m)) = true.
Proof using Type. intros Hm. destruct (tbl_get key m) eqn:E; [by eapply twf_get|done]. Qed.

Lemma at_toml_path_twf root path leaf :
  (forall m, twf (TTable m) = true -> twf (TTable (leaf m).1) = true) ->
  twf root = true -> twf (at_toml_path root path leaf).1 = true.
Proof using Type.
  intros Hl. revert root. induction path as [|key path IH]; intros root Hw; cbn [at_toml_path].
  - specialize (Hl _ (twf_as_toml_table _ Hw)). by destruct (leaf _).
  - pose proof (twf_as_toml_table _ Hw) as Ht. specialize (IH _ (twf_entry _ key Ht)).
    destruct (at_toml_path _ path leaf) as [child c]. by apply twf_insert.
Qed.

Lemma ensure_leaf_twf leaf there value m :
  twf value = true -> twf (TTable m) = true -> twf (TTable (ensure_leaf leaf there value m).1) = true.
Proof using Type.
  intros Hv Hm. unfold ensure_leaf. destruct (tbl_get leaf m) as [v|]; [destruct (there v)|];
    try done; by apply twf_insert.
Qed.

Lemma merge_entries_twf entries m : twf (TTable m) = true -> twf (TTable (merge_entries entries m).1) = true.
Proof using Type.
  revert m. induction entries as [|[k v] entries IH]; intros m Hm; [done|]. cbn [merge_entries].
  pose proof (ensure_leaf_twf k (fun v0 => bool_decide (tas_str v0 = Some v)) (TString v) m eq_refl Hm) as Hl.
  destruct (ensure_leaf _ _ _ _) as [m1 c1]. specialize (IH m1 Hl).
  by destruct (merge_entries entries m1).
Qed.

Lemma ensure_toml_string_path_twf root path s :
  twf root = true -> twf (ensure_toml_string_path root path s).1 = true.
Proof using Type.
  unfold ensure_toml_string_path. destruct (split_path path) as [[parent leaf]|]; [|done].
  apply at_toml_path_twf. intros m. by apply ensure_leaf_twf.
Qed.

Lemma ensure_toml_bool_path_twf root path b :
  twf root = true -> twf (ensure_toml_bool_path root path b).1 = true.
Proof using Type.
  unfold ensure_toml_bool_path. destruct (split_path path) as [[parent leaf]|]; [|done].
  apply at_toml_path_twf. intros m. by apply ensure_leaf_twf.
Qed.

Lemma merge_toml_string_entries_twf root path entries :
  twf root = true -> twf (merge_toml_string_entries root path entries).1 = true.
Proof using Type.
  unfold merge_toml_string_entries. destruct entries as [|e entries]; [done|].
  apply at_toml_path_twf. intros m. apply merge_entries_twf.
Qed.

(** Every edit keeps the documents as the parser builds them: tables at every depth in the order of their keys, each key once.  Setting strings and booleans by path,
    merging a set of strings and taking a recorded difference back take well-formed
    documents to well-formed documents. *)
Theorem edits_keep_documents_wellformed root path s b entries old new :
  twf root = true -> twf old = true -> twf new = true ->
  twf (ensure_toml_string_path root path s).1 = true /\
  twf (ensure_toml_bool_path root path b).1 = true /\
  twf (merge_toml_string_entries root path entries).1 = true /\
  twf (unapply root (diff old new)).1 = true.
Proof using Type.
  intros Hr Ho Hn. split; [by apply ensure_toml_string_path_twf|].
  split; [by apply ensure_toml_bool_path_twf|]. split; [by apply merge_toml_string_entries_twf|].
  apply (toml_run_wf _ (root, [])); [by apply Forall_rev, toml_diff_op_wf|done].
Qed.

Lemma value_at_tbl m path : value_at (TTable m) path =
  match path with [] => Some (TTable m) | seg :: path => tbl_get seg m ≫= (fun c => value_at c path) end.
Proof using Type. by destruct path. Qed.

Lemma value_at_as_table root seg path :
  value_at root (seg :: path) = tbl_get seg (as_toml_table root) ≫= (fun c => value_at c path).
Proof using Type. by destruct root. Qed.

(** The edit of the table at a path, seen from the root. *)
Lemma at_toml_path_below root path leaf rest :
  value_at (at_toml_path root path leaf).1 (path ++ rest) =
    value_at (TTable (leaf (as_toml_table (default (TTable []) (value_at root path)))).1) rest.
Proof using Type.
  revert root. induction path as [|key path IH]; intros root; cbn [at_toml_path app].
  - cbn [value_at default]. by destruct (leaf _).
  - pose proof (IH (default (TTable []) (tbl_get key (as_toml_table root)))) as Hc.
    destruct (at_toml_path _ path leaf) as [child c]. cbn [fst] in *.
    rewrite value_at_tbl, tbl_get_insert, String.eqb_refl. cbn [mbind option_bind]. rewrite Hc.
    rewrite value_at_as_table. destruct (tbl_get key (as_toml_table root)) as [v|]; [done|].
    cbn [default mbind option_bind]. by destruct path.
Qed.

Lemma at_toml_path_elsewhere root path leaf p :
  ~ p `prefix_of` path -> ~ path `prefix_of` p ->
  value_at (at_toml_path root path leaf).1 p = value_at root p.
Proof using Type.
  revert root p. induction path as [|key path IH]; intros root p Hp Hq.
  { destruct Hq. apply prefix_nil. }
  destruct p as [|seg p]; [destruct Hp; apply prefix_nil|]. cbn [at_toml_path].
  pose proof (fun H1 H2 => IH (default (TTable []) (tbl_get key (as_toml_table root))) p H1 H2) as Hc.
  destruct (at_toml_path _ path leaf) as [child c]. cbn [fst] in *.
  rewrite value_at_tbl, value_at_as_table, tbl_get_insert.
  destruct (String.eqb_spec seg key) as [->|]; [|done]. cbn [mbind option_bind].
  assert (~ p `prefix_of` path /\ ~ path `prefix_of` p) as [Hp' Hq']
    by (split; intros ?; [destruct Hp|destruct Hq]; by apply prefix_cons).
  rewrite Hc by done.
  destruct (tbl_get key (as_toml_table root)); [done|]. cbn [default mbind option_bind].
  destruct p as [|s p]; [|done]. destruct Hp. apply prefix_cons, prefix_nil.
Qed.

Lemma at_toml_path_same root path leaf :
  twf root = true -> is_Some (value_at root path) -> (exists m, value_at root path = Some (TTable m)) ->
  (leaf (as_toml_table (default (TTable []) (value_at root path)))).1 =
    as_toml_table (default (TTable []) (value_at root path)) ->
  (at_toml_path root path leaf).1 = root.
Proof using Type.
  revert root. induction path as [|key path IH]; intros root Hw _ [m Hm] Hl; cbn [at_toml_path].
  - cbn [value_at] in *. injection Hm as ->. change (as_toml_table (default (TTable []) (Some (TTable m)))) with m in Hl.
    change (as_toml_table (TTable m)) with m. destruct (leaf m). simpl in Hl. by rewrite Hl.
  - rewrite value_at_as_table in Hm, Hl.
    destruct root as [| | | | | |t]; try done. change (as_toml_table (TTable t)) with t in *.
    destruct (tbl_get key t) as [v|] eqn:Ek; [|done]. cbn [mbind option_bind] in *.
    change (default (TTable []) (Some v)) with v in *.
    pose proof (IH v ltac:(by eapply twf_get) ltac:(by eexists) ltac:(by eexists) Hl) as Hsame.
    destruct (at_toml_path v path leaf) as [child c]. simpl in Hsame. subst child. cbn [fst].
    rewrite tbl_insert_id; [done| |done]. by apply twf_table in Hw as [Ha _].
Qed.
Lemma toml_value_at_app root p q : value_at root (p ++ q) = v ← value_at root p; value_at v q.
Proof using Type.
  revert root. induction p as [|seg p IH]; intros root; [done|]. cbn [app].
  rewrite !value_at_as_table. by destruct (tbl_get seg (as_toml_table root)); simpl.
Qed.

(** What a leaf sees of the document. *)
Lemma value_at_leaf root parent leaf :
  tbl_get leaf (as_toml_table (default (TTable []) (value_at root parent))) =
    value_at root (parent ++ [leaf]).
Proof using Type.
  rewrite toml_value_at_app. destruct (value_at root parent) as [v|]; [|done]. cbn [default mbind option_bind].
  rewrite value_at_as_table. by destruct (tbl_get leaf _).
Qed.

(** Setting a leaf leaves every path alone that neither leads to it nor through it. *)
Lemma at_toml_path_frame root parent leaf_edit leaf p :
  (forall t k, k <> leaf -> tbl_get k (leaf_edit t).1 = tbl_get k t) ->
  incomparable p (parent ++ [leaf]) ->
  value_at (at_toml_path root parent leaf_edit).1 p = value_at root p.
Proof using Type.
  intros Hedit [Hp Hq]. destruct (decide (parent `prefix_of` p)) as [[rest ->]|Hn].
  - rewrite at_toml_path_below. destruct rest as [|seg rest]; [destruct Hp; apply prefix_app, prefix_nil|].
    assert (seg <> leaf) as Hne.
    { intros ->. destruct Hq. apply prefix_app, prefix_cons, prefix_nil. }
    rewrite value_at_tbl, Hedit, toml_value_at_app by done.
    destruct (value_at root parent) as [v|]; [|done].
    by rewrite <- value_at_as_table.
  - apply at_toml_path_elsewhere; [|done]. intros ?. destruct Hp. by apply prefix_app_r.
Qed.

(** Setting a leaf by path, where [there] recognises the value: the value is there
    afterwards; no change is reported exactly if it was there before, and then the document
    is the same; and every path that neither leads to the edited one nor through it keeps
    its value. *)
Lemma ensure_leaf_path_spec root parent leaf there value :
  twf root = true -> (forall v, there v = true <-> v = value) ->
  let path := parent ++ [leaf] in
  let r := at_toml_path root parent (ensure_leaf leaf there value) in
  value_at r.1 path = Some value /\
  (r.2 = false <-> value_at root path = Some value) /\
  (r.2 = false -> r.1 = root) /\
  (forall p, incomparable p path -> value_at r.1 p = value_at root p).
Proof using Type.
  intros Hw Hthere path r. subst path r. set (edit := ensure_leaf leaf there value).
  assert (forall t, tbl_get leaf (edit t).1 = Some value /\
    ((edit t).2 = false <-> tbl_get leaf t = Some value) /\ ((edit t).2 = false -> (edit t).1 = t))
    as Hedit.
  { intros t. unfold edit, ensure_leaf.
    destruct (tbl_get leaf t) as [v|] eqn:Ek; [destruct (there v) eqn:Hv|];
      cbn [fst snd]; rewrite ?tbl_get_insert, ?String.eqb_refl.
    - apply Hthere in Hv as ->. done.
    - split; [done|]. split; [|done]. split; [done|]. intros [= ->]. by rewrite (proj2 (Hthere value)) in Hv.
    - done. }
  assert ((at_toml_path root parent edit).2 =
    (edit (as_toml_table (default (TTable []) (value_at root parent)))).2) as Hflag.
  { clear. revert root. induction parent as [|key parent IH]; intros root; cbn [at_toml_path].
    - by destruct (edit _).
    - specialize (IH (default (TTable []) (tbl_get key (as_toml_table root)))).
      destruct (at_toml_path _ parent edit) as [child c]. cbn [snd] in *. rewrite IH, value_at_as_table.
      destruct (tbl_get key (as_toml_table root)); [done|]. by destruct parent. }
  destruct (Hedit (as_toml_table (default (TTable []) (value_at root parent)))) as (H1 & H2 & H3).
  split_and!.
  - rewrite at_toml_path_below, value_at_tbl, H1. done.
  - by rewrite Hflag, H2, value_at_leaf.
  - rewrite Hflag. intros Hf. assert (exists m, value_at root parent = Some (TTable m)) as Hm.
    { apply H2 in Hf. destruct (value_at root parent) as [[]|]; try done. eauto. }
    apply at_toml_path_same; [done|by destruct Hm as [? ->]|done|by apply H3].
  - intros p Hp. eapply at_toml_path_frame; [|done]. intros t k Hk. unfold edit, ensure_leaf.
    destruct (match tbl_get leaf t with Some v => _ | None => _ end); [done|]. cbn [fst].
    rewrite tbl_get_insert. by destruct (String.eqb_spec k leaf).
Qed.

(** Setting a string by path. *)
Theorem ensure_toml_string_path_spec root parent leaf s :
  twf root = true ->
  let path := parent ++ [leaf] in
  let r := ensure_toml_string_path root path s in
  value_at r.1 path = Some (TString s) /\
  (r.2 = false <-> value_at root path = Some (TString s)) /\
  (r.2 = false -> r.1 = root) /\
  (forall p, incomparable p path -> value_at r.1 p = value_at root p).
Proof using Type.
  intros Hw path r. subst path r. unfold ensure_toml_string_path. rewrite split_path_snoc.
  apply (ensure_leaf_path_spec root parent leaf); [done|]. intros v. rewrite bool_decide_eq_true.
  destruct v; split; simpl; congruence.
Qed.

(** Setting a boolean by path. *)
Lemma ensure_toml_bool_path_spec root parent leaf b :
  twf root = true ->
  let path := parent ++ [leaf] in
  let r := ensure_toml_bool_path root path b in
  value_at r.1 path = Some (TBoolean b) /\
  (r.2 = false <-> value_at root path = Some (TBoolean b)) /\
  (r.2 = false -> r.1 = root) /\
  (forall p, incomparable p path -> value_at r.1 p = value_at root p).
Proof using Type.
  intros Hw path r. subst path r. unfold ensure_toml_bool_path. rewrite split_path_snoc.
  apply (ensure_leaf_path_spec root parent leaf); [done|]. intros v. rewrite bool_decide_eq_true.
  destruct v; split; simpl; congruence.
Qed.
End patch.

(** ** A document and an edit *)

Module Sample.
#[local] Existing Instance one_float.

Definition old : toml_table := [("model", TString "o3"); ("tui", TTable [("theme", TString "dark")])].
Definition new : toml_table :=
  [("features", TTable [("hooks", TBoolean true)]); ("model", TString "kyris");
   ("tui", TTable [("theme", TString "dark"); ("x", TInteger 1)])].

Lemma toml_unapply_diff_witness :
  exists res, unapply (TTable new) (diff (TTable old) (TTable new)) = (res, []) /\
    twf res = true /\ teq res (TTable old).
Proof. apply toml_unapply_diff; reflexivity. Defined.

Lemma edits_keep_documents_wellformed_witness :
  twf (ensure_toml_string_path (TTable old) ["features"; "x"] "y").1 = true.
Proof.
  apply (edits_keep_documents_wellformed (TTable old) ["features"; "x"] "y" true [] (TTable old) (TTable new));
    reflexivity.
Defined.

Lemma ensure_toml_string_path_spec_witness :
  value_at (ensure_toml_string_path (TTable old) ["model_providers"; "kyris"] "x").1
    ["model_providers"; "kyris"] = Some (TString "x").
Proof. apply (ensure_toml_string_path_spec (TTable old) ["model_providers"] "kyris" "x"). reflexivity. Defined.
End Sample.
End TomlPatch.
