(* ===== verification/Framing.v ===== *)
(** * Message framing of the MCP wrapper: the readers of mcp/src/relay.rs

    A [BufReader] is the list of the chunks still to be read, each non-empty;
    [fill_buf] shows the first.  Reads from the underlying pipe succeed, so the
    only errors are the ones the readers raise themselves.  The loops that skip
    lines and switch modes carry fuel, one more than the bytes left, which
    [read_message_total] shows is enough. *)

From S2P Require Import Prelude Text.

Module Framing.

Abbreviation stream := (list bytes).

(** [BufRead::consume], across chunks. *)
Fixpoint consume (n : nat) (s : stream) : stream :=
  match s with
  | [] => []
  | c :: s' =>
      if decide (length c <= n) then consume (n - length c) s'
      else drop n c :: s'
  end.

Inductive outcome (A : Type) :=
| Done (a : A)
| InvalidData
| UnexpectedEof
| NoFuel.
Arguments Done {A} a.
Arguments InvalidData {A}.
Arguments UnexpectedEof {A}.
Arguments NoFuel {A}.

Inductive FrameMode := Unknown | Newline | BraceDepth | ContentLength.

#[export] Instance FrameMode_eq_dec : EqDecision FrameMode.
Proof. solve_decision. Defined.

(** ** [read_brace_delimited] *)

Record brace_state := mkBrace {
  depth : Z;
  in_string : bool;
  escape_next : bool }.

Definition brace_init : brace_state := mkBrace 0 false false.

(** One byte: the new state, and whether the message ends with this byte.
    [depth] is a [u32]. *)
Definition brace_step (st : brace_state) (byte : ascii) : brace_state * bool :=
  if escape_next st then (mkBrace (depth st) (in_string st) false, false)
  else if in_string st then
    if Ascii.eqb byte backslash then (mkBrace (depth st) true true, false)
    else if Ascii.eqb byte dquote then (mkBrace (depth st) false false, false)
    else (st, false)
  else
    if Ascii.eqb byte dquote then (mkBrace (depth st) true false, false)
    else if Ascii.eqb byte "{"%char then
      (mkBrace ((depth st + 1) mod 4294967296) false false, false)
    else if Ascii.eqb byte "}"%char then
      let d := ((depth st - 1) mod 4294967296)%Z in (mkBrace d false false, (d =? 0)%Z)
    else (st, false).

(** The scan of one buffer: the bytes pushed, and either the bytes left after the
    closing brace or the state at the end of the buffer. *)
Fixpoint scan (st : brace_state) (l : bytes) : bytes * (brace_state + bytes) :=
  match l with
  | [] => ([], inl st)
  | b :: l' =>
      let '(st', fin) := brace_step st b in
      if fin then ([b], inr l')
      else let '(p, r) := scan st' l' in (b :: p, r)
  end.

Definition unread (rest : bytes) (s : stream) : stream :=
  match rest with [] => s | _ => rest :: s end.

Fixpoint read_brace (st : brace_state) (message : bytes) (s : stream)
    : option bytes * stream :=
  match s with
  | [] => (match message with [] => None | _ => Some message end, [])
  | c :: s' =>
      match scan st c with
      | (p, inr rest) => (Some (message ++ p), unread rest s')
      | (p, inl st') => read_brace st' (message ++ p) s'
      end
  end.

Definition read_brace_delimited (s : stream) : option bytes * stream :=
  read_brace brace_init [] s.

(** ** Lines *)

(** [BufRead::read_line]: the line with its newline, an error if it is not UTF-8. *)
Definition read_line (s : stream) : outcome (bytes * stream) :=
  let l := first_line (concat s) in
  if valid_utf8 l then Done (l, consume (length l) s) else InvalidData.

(** ** [read_content_length] *)

Definition content_length_header : bytes := lit "content-length:".

(** The first loop: skip lines up to the header; [None] at end of input. *)
Fixpoint read_header (fuel : nat) (s : stream) : outcome (option bytes * stream) :=
  match fuel with
  | O => NoFuel
  | S fuel' =>
      match read_line s with
      | Done (line, s') =>
          match line with
          | [] => Done (None, s')
          | _ =>
              if starts_with content_length_header (to_ascii_lowercase (trim line))
              then Done (Some line, s')
              else read_header fuel' s'
          end
      | InvalidData => InvalidData
      | UnexpectedEof => UnexpectedEof
      | NoFuel => NoFuel
      end
  end.

(** The second loop: skip lines up to a blank one; [false] at end of input. *)
Fixpoint read_blank (fuel : nat) (s : stream) : outcome (bool * stream) :=
  match fuel with
  | O => NoFuel
  | S fuel' =>
      match read_line s with
      | Done (line, s') =>
          match line with
          | [] => Done (false, s')
          | _ => match trim line with
                 | [] => Done (true, s')
                 | _ => read_blank fuel' s'
                 end
          end
      | InvalidData => InvalidData
      | UnexpectedEof => UnexpectedEof
      | NoFuel => NoFuel
      end
  end.

Definition fuel_of (s : stream) : nat := S (length (concat s)).

Definition read_content_length (s : stream) : outcome (option bytes * stream) :=
  match read_header (fuel_of s) s with
  | Done (None, s1) => Done (None, s1)
  | Done (Some header_line, s1) =>
      let length_str := trim (drop (length content_length_header) (trim header_line)) in
      match parse_usize length_str with
      | None => InvalidData
      | Some n =>
          match read_blank (fuel_of s1) s1 with
          | Done (false, s2) => Done (None, s2)
          | Done (true, s2) =>
              if decide (n <= N.of_nat (length (concat s2)))%N
              then Done (Some (take (N.to_nat n) (concat s2)), consume (N.to_nat n) s2)
              else UnexpectedEof
          | InvalidData => InvalidData
          | UnexpectedEof => UnexpectedEof
          | NoFuel => NoFuel
          end
      end
  | InvalidData => InvalidData
  | UnexpectedEof => UnexpectedEof
  | NoFuel => NoFuel
  end.

(** ** [read_message] *)

(** The arm [FrameMode::Unknown] on a buffer: the first byte that is not white
    space decides. *)
Definition sniff (buf : bytes) : option FrameMode :=
  match list_find (fun b => is_ascii_whitespace b = false) buf with
  | Some (_, b) =>
      Some (if Ascii.eqb b "{"%char then BraceDepth
            else if Ascii.eqb b "C"%char then ContentLength else Newline)
  | None => None
  end.

(** The inner loop of the arm [FrameMode::BraceDepth]. *)
Fixpoint skip_whitespace (buf : bytes) : bytes :=
  match buf with
  | [] => []
  | b :: l => if is_ascii_whitespace b then skip_whitespace l else buf
  end.

Fixpoint skip_whitespace_stream (s : stream) : stream :=
  match s with
  | [] => []
  | c :: s' => match skip_whitespace c with
               | [] => skip_whitespace_stream s'
               | c' => c' :: s'
               end
  end.

Fixpoint read_message (fuel : nat) (mode : FrameMode) (s : stream)
    : outcome (option bytes * FrameMode * stream) :=
  match fuel with
  | O => NoFuel
  | S fuel' =>
      match mode with
      | Unknown =>
          match s with
          | [] => Done (None, mode, [])
          | buf :: s' =>
              match sniff buf with
              | Some mode' => read_message fuel' mode' s
              | None => read_message fuel' mode s'
              end
          end
      | Newline =>
          match read_line s with
          | Done ([], s') => Done (None, mode, s')
          | Done (line, s') =>
              match trim line with
              | [] => read_message fuel' mode s'
              | trimmed => Done (Some trimmed, mode, s')
              end
          | InvalidData => InvalidData
          | UnexpectedEof => UnexpectedEof
          | NoFuel => NoFuel
          end
      | BraceDepth =>
          match skip_whitespace_stream s with
          | (b :: c) :: s' =>
              if Ascii.eqb b "C"%char
              then read_message fuel' ContentLength ((b :: c) :: s')
              else if Ascii.eqb b "{"%char then
                let '(m, s'') := read_brace_delimited ((b :: c) :: s') in Done (m, mode, s'')
              else read_message fuel' mode (consume 1 ((b :: c) :: s'))
          | s' => Done (None, mode, s')
          end
      | ContentLength =>
          match read_content_length s with
          | Done (m, s') => Done (m, mode, s')
          | InvalidData => InvalidData
          | UnexpectedEof => UnexpectedEof
          | NoFuel => NoFuel
          end
      end
  end.

(** A mode switch consumes nothing, so there are two steps per byte at most. *)
Definition read_message_fuel (s : stream) : nat := 3 + 2 * length (concat s).

Definition next_message (mode : FrameMode) (s : stream)
    : outcome (option bytes * FrameMode * stream) :=
  read_message (read_message_fuel s) mode s.

(** ** Streams *)

(** [fill_buf] never shows an empty buffer before the end of input. *)
Definition wf (s : stream) : Prop := Forall (fun c => c <> []) s.

Lemma wf_nil_concat s : wf s -> concat s = [] -> s = [].
Proof. destruct s as [|[|b c] s]; [done| |done]. by intros [? _]%Forall_cons. Qed.

Lemma concat_consume n s : concat (consume n s) = drop n (concat s).
Proof.
  revert n. induction s as [|c s IH]; intros n; simpl; [by rewrite drop_nil|].
  case_decide.
  - by rewrite IH, drop_app_ge by done.
  - simpl. by rewrite drop_app_le by lia.
Qed.

Lemma wf_consume n s : wf s -> wf (consume n s).
Proof.
  revert n. induction s as [|c s IH]; intros n; simpl; [done|].
  intros [Hc Hs]%Forall_cons. case_decide as Hn; [by apply IH|].
  constructor; [|done]. intros He%(f_equal length). rewrite length_drop in He. simpl in He. lia.
Qed.

Lemma concat_unread rest s : concat (unread rest s) = rest ++ concat s.
Proof. by destruct rest. Qed.

Lemma wf_unread rest s : wf s -> wf (unread rest s).
Proof. destruct rest; [done|]. by constructor. Qed.

Lemma length_skip_whitespace l : length (skip_whitespace l) <= length l.
Proof. induction l as [|b l IH]; simpl; [done|]. destruct (is_ascii_whitespace b); simpl; lia. Qed.

Lemma skip_whitespace_stream_spec s :
  concat (skip_whitespace_stream s) = skip_whitespace (concat s) /\
  (wf s -> wf (skip_whitespace_stream s)).
Proof.
  induction s as [|c s [IH1 IH2]]; simpl; [done|].
  assert (forall l, skip_whitespace (c ++ l) =
    match skip_whitespace c with [] => skip_whitespace l | c' => c' ++ l end) as ->.
  { intros l. induction c as [|b c IH]; simpl; [done|]. by destruct (is_ascii_whitespace b). }
  destruct (skip_whitespace c) as [|b c'].
  - split; [done|]. intros [_ Hs]%Forall_cons. auto.
  - split; [done|]. intros [_ Hs]%Forall_cons. by constructor.
Qed.

(** ** Totality *)

Lemma read_line_cases s :
  read_line s = InvalidData \/
  exists l, read_line s = Done (l, consume (length l) s) /\ l = first_line (concat s).
Proof. unfold read_line. destruct (valid_utf8 _); eauto. Qed.

Lemma read_line_valid s l :
  first_line (concat s) = l -> valid_utf8 l = true ->
  read_line s = Done (l, consume (length l) s).
Proof. intros <- Hu. unfold read_line. by rewrite Hu. Qed.

Lemma read_header_hit s l s' :
  read_line s = Done (l, s') ->
  starts_with content_length_header (to_ascii_lowercase (trim l)) = true ->
  read_header (fuel_of s) s = Done (Some l, s').
Proof. unfold fuel_of. simpl. intros -> H. destruct l; [done|]. by rewrite H. Qed.

Lemma read_blank_hit s l s' :
  read_line s = Done (l, s') -> l <> [] -> trim l = [] ->
  read_blank (fuel_of s) s = Done (true, s').
Proof. unfold fuel_of. simpl. intros -> Hl H. destruct l; [done|]. by rewrite H. Qed.

Lemma length_consume n s :
  length (concat (consume n s)) = length (concat s) - n.
Proof. by rewrite concat_consume, length_drop. Qed.

(** A line that is not the end of input shortens the stream. *)
Lemma read_line_shorter s b l s' :
  read_line s = Done (b :: l, s') -> length (concat s') < length (concat s).
Proof.
  intros H. destruct (read_line_cases s) as [?|(l' & Hr & Hl)]; [congruence|].
  rewrite Hr in H. injection H as -> <-. rewrite length_consume.
  pose proof (first_line_length (concat s)) as Hlen. rewrite <- Hl in Hlen. simpl in *. lia.
Qed.

Lemma read_header_total fuel s : length (concat s) < fuel -> read_header fuel s <> NoFuel.
Proof.
  revert s. induction fuel as [|fuel IH]; intros s Hf; [lia|]. simpl.
  destruct (read_line s) as [[[|b l] s']| | |] eqn:E; try done.
  - case_match; [done|]. apply IH. apply read_line_shorter in E. lia.
  - destruct (read_line_cases s) as [?|(? & ? & _)]; congruence.
Qed.

Lemma read_blank_total fuel s : length (concat s) < fuel -> read_blank fuel s <> NoFuel.
Proof.
  revert s. induction fuel as [|fuel IH]; intros s Hf; [lia|]. simpl.
  destruct (read_line s) as [[[|b l] s']| | |] eqn:E; try done.
  - destruct (trim (b :: l)); [done|]. apply IH. apply read_line_shorter in E. lia.
  - destruct (read_line_cases s) as [?|(? & ? & _)]; congruence.
Qed.

Lemma read_content_length_total s : read_content_length s <> NoFuel.
Proof.
  unfold read_content_length, fuel_of.
  pose proof (read_header_total _ s (Nat.lt_succ_diag_r _)) as H.
  destruct (read_header _ s) as [[[line|] s1]| | |]; try done.
  destruct (parse_usize _); [|done].
  pose proof (read_blank_total _ s1 (Nat.lt_succ_diag_r _)) as H1.
  destruct (read_blank _ s1) as [[[] s2]| | |]; try done. by case_decide.
Qed.

(** Which modes may still hand over to another: the fuel a switch costs. *)
Definition switches (mode : FrameMode) : nat :=
  match mode with Unknown => 2 | BraceDepth => 1 | _ => 0 end.

Lemma read_message_total fuel mode s :
  wf s -> length (concat s) + switches mode < fuel -> read_message fuel mode s <> NoFuel.
Proof.
  revert mode s. induction fuel as [|fuel IH]; intros mode s Hwf Hf; [lia|].
  destruct mode; simpl in *.
  - destruct s as [|buf s']; [done|]. destruct (sniff buf) as [mode'|] eqn:E.
    + apply IH; [done|]. unfold sniff in E. destruct (list_find _ _) as [[]|]; [|done].
      injection E as <-. simpl. repeat case_match; simpl in *; lia.
    + apply Forall_cons in Hwf as [Hb Hs]. apply IH; [done|]. simpl in *.
      rewrite length_app in Hf. destruct buf; simpl in *; [done|lia].
  - destruct (read_line s) as [[[|b l] s']| | |] eqn:E; try done.
    + destruct (trim (b :: l)); [|done]. pose proof (read_line_shorter _ _ _ _ E).
      apply IH; [|simpl; lia].
      destruct (read_line_cases s) as [?|(? & Hr & _)]; [congruence|].
      rewrite Hr in E. injection E as _ <-. by apply wf_consume.
    + destruct (read_line_cases s) as [?|(? & ? & _)]; congruence.
  - destruct (skip_whitespace_stream_spec s) as [Hc Hw]. specialize (Hw Hwf).
    pose proof (length_skip_whitespace (concat s)) as Hlen. rewrite <- Hc in Hlen.
    destruct (skip_whitespace_stream s) as [|[|b c] s'] eqn:E; try done.
    destruct (Ascii.eqb b "C"%char); [apply IH; [done|simpl in *; lia]|].
    destruct (Ascii.eqb b "{"%char); [by destruct (read_brace_delimited _)|].
    apply IH; [exact (wf_consume 1 _ Hw)|].
    pose proof (length_consume 1 ((b :: c) :: s')) as H. simpl in *. lia.
  - pose proof (read_content_length_total s).
    by destruct (read_content_length s) as [[]| | |].
Qed.

(** *** Reading keeps the chunks non-empty *)

Lemma read_line_wf s l s' : read_line s = Done (l, s') -> wf s -> wf s'.
Proof.
  destruct (read_line_cases s) as [?|(l' & Hr & _)]; [congruence|]. rewrite Hr.
  intros [= <- <-]. apply wf_consume.
Qed.

Lemma read_header_wf fuel s o s' : read_header fuel s = Done (o, s') -> wf s -> wf s'.
Proof.
  revert s. induction fuel as [|fuel IH]; intros s; [done|]. cbn [read_header].
  destruct (read_line s) as [[[|b l] s1]| | |] eqn:E; try done.
  - intros [= <- <-]. by eapply read_line_wf.
  - destruct (starts_with _ (to_ascii_lowercase _)); [intros [= <- <-]; by eapply read_line_wf|].
    intros Hr Hwf. eapply IH; [done|]. by eapply read_line_wf.
Qed.

Lemma read_blank_wf fuel s o s' : read_blank fuel s = Done (o, s') -> wf s -> wf s'.
Proof.
  revert s. induction fuel as [|fuel IH]; intros s; simpl; [done|].
  destruct (read_line s) as [[[|b l] s1]| | |] eqn:E; try done.
  - intros [= <- <-]. by eapply read_line_wf.
  - destruct (trim (b :: l)); [intros [= <- <-]; by eapply read_line_wf|].
    intros Hr Hwf. eapply IH; [done|]. by eapply read_line_wf.
Qed.

Lemma read_content_length_wf s o s' : read_content_length s = Done (o, s') -> wf s -> wf s'.
Proof.
  unfold read_content_length. intros H Hwf.
  destruct (read_header (fuel_of s) s) as [[[line|] s1]| | |] eqn:E; try done.
  - destruct (parse_usize _) as [n|]; [|done].
    destruct (read_blank (fuel_of s1) s1) as [[[] s2]| | |] eqn:E2; try done.
    + case_decide; [|done]. injection H as <- <-. apply wf_consume.
      eapply read_blank_wf; [done|]. by eapply read_header_wf.
    + injection H as <- <-. eapply read_blank_wf; [done|]. by eapply read_header_wf.
  - injection H as <- <-. by eapply read_header_wf.
Qed.

Lemma read_brace_wf st message s : wf s -> wf (read_brace st message s).2.
Proof.
  revert st message. induction s as [|c s IH]; intros st message Hwf; simpl; [done|].
  apply Forall_cons in Hwf as [_ Hwf].
  destruct (scan st c) as [q [st'|r]]; [by apply IH|]. by apply wf_unread.
Qed.

Lemma read_message_wf fuel mode s o mode' s' :
  read_message fuel mode s = Done (o, mode', s') -> wf s -> wf s'.
Proof.
  revert mode s. induction fuel as [|fuel IH]; intros mode s; simpl; [done|]. intros H Hwf.
  destruct mode.
  - destruct s as [|buf s1]; [by injection H as <- <- <-|].
    destruct (sniff buf); [by eapply IH|]. apply Forall_cons in Hwf as [_ Hwf]. by eapply IH.
  - destruct (read_line s) as [[[|b l] s1]| | |] eqn:E; try done.
    + injection H as <- <- <-. by eapply read_line_wf.
    + destruct (trim (b :: l)); [eapply IH; [done|]|injection H as <- <- <-]; by eapply read_line_wf.
  - destruct (skip_whitespace_stream_spec s) as [_ Hw]. specialize (Hw Hwf).
    destruct (skip_whitespace_stream s) as [|[|b c] s1]; try by injection H as <- <- <-.
    destruct (Ascii.eqb b "C"%char); [by eapply IH|].
    destruct (Ascii.eqb b "{"%char).
    + unfold read_brace_delimited in H.
      pose proof (read_brace_wf brace_init [] ((b :: c) :: s1) Hw) as Hb.
      destruct (read_brace _ _ _) as [m s2]. injection H as <- <- <-. done.
    + eapply IH; [done|]. exact (wf_consume 1 _ Hw).
  - destruct (read_content_length s) as [[m s1]| | |] eqn:E; try done.
    injection H as <- <- <-. by eapply read_content_length_wf.
Qed.

(** ** Chunks do not matter to the brace scanner *)

Lemma scan_app st a b :
  scan st (a ++ b) =
  match scan st a with
  | (p, inr rest) => (p, inr (rest ++ b))
  | (p, inl st') => let '(p', r) := scan st' b in (p ++ p', r)
  end.
Proof.
  revert st. induction a as [|x a IH]; intros st; simpl.
  - by destruct (scan st b).
  - destruct (brace_step st x) as [st' []]; [done|]. rewrite IH.
    destruct (scan st' a) as [p [st''|rest]]; [|done]. by destruct (scan st'' b).
Qed.

Lemma read_brace_found st message s p rest :
  wf s -> scan st (concat s) = (p, inr rest) ->
  exists s', read_brace st message s = (Some (message ++ p), s') /\
    concat s' = rest /\ wf s'.
Proof.
  revert st message p. induction s as [|c s IH]; intros st message p Hwf; simpl; [done|].
  apply Forall_cons in Hwf as [_ Hwf]. rewrite scan_app.
  destruct (scan st c) as [q [st'|r]].
  - destruct (scan st' (concat s)) as [p' r'] eqn:E. intros [= <- ->].
    destruct (IH _ (message ++ q) _ Hwf E) as (s' & -> & ? & ?).
    exists s'. by rewrite app_assoc.
  - intros [= <- <-]. exists (unread r s).
    split_and!; [done|apply concat_unread|by apply wf_unread].
Qed.

(** ** The text of a JSON object, as the scanner needs it *)

(** Inside a string: no bare quote, and every backslash with its character. *)
Inductive string_body : bytes -> Prop :=
| sb_nil : string_body []
| sb_char b w : b <> dquote -> b <> backslash -> string_body w -> string_body (b :: w)
| sb_escape b w : string_body w -> string_body (backslash :: b :: w).

(** Between braces: balanced braces outside strings. *)
Inductive brace_body : bytes -> Prop :=
| bb_nil : brace_body []
| bb_char b w : b <> dquote -> b <> "{"%char -> b <> "}"%char ->
    brace_body w -> brace_body (b :: w)
| bb_string t w : string_body t -> brace_body w ->
    brace_body (dquote :: t ++ dquote :: w)
| bb_nested u w : brace_body u -> brace_body w ->
    brace_body ("{"%char :: u ++ "}"%char :: w).

Definition object_text (t : bytes) : Prop :=
  exists u, t = "{"%char :: u ++ ["}"%char] /\ brace_body u.

(** What scanning [w ++ l] from [st] is, when [w] is passed over whole. *)
Definition passes (st : brace_state) (w : bytes) : Prop :=
  forall l, scan st (w ++ l) = let '(p, r) := scan st l in (w ++ p, r).

Lemma scan_string d t l :
  string_body t ->
  scan (mkBrace d true false) (t ++ dquote :: l) =
  let '(p, r) := scan (mkBrace d false false) l in (t ++ dquote :: p, r).
Proof.
  induction 1 as [|b w Hq Hb _ IH|b w _ IH]; simpl.
  - unfold brace_step; simpl. by destruct (scan _ l).
  - unfold brace_step; simpl.
    destruct (Ascii.eqb_spec b backslash); [done|].
    destruct (Ascii.eqb_spec b dquote); [done|]. rewrite IH. by destruct (scan _ l).
  - unfold brace_step; simpl. rewrite IH. by destruct (scan _ l).
Qed.

Lemma passes_body u :
  brace_body u -> forall d, (0 < d)%Z -> (d + Z.of_nat (length u) < 4294967296)%Z ->
  passes (mkBrace d false false) u.
Proof.
  induction 1 as [|b w Hq Ho Hc _ IH|t w Ht _ IH|u w _ IHu _ IHw]; intros d Hd Hlen l.
  - simpl. by destruct (scan _ l).
  - simpl in *. unfold brace_step; simpl.
    destruct (Ascii.eqb_spec b dquote); [done|].
    destruct (Ascii.eqb_spec b "{"%char); [done|].
    destruct (Ascii.eqb_spec b "}"%char); [done|].
    rewrite IH by lia. by destruct (scan _ l).
  - simpl in *. unfold brace_step; simpl. rewrite <- app_assoc. simpl.
    rewrite scan_string by done. rewrite length_app in Hlen. simpl in Hlen.
    rewrite IH by lia. destruct (scan _ l). by rewrite <- app_assoc.
  - simpl in *. rewrite length_app in Hlen. simpl in Hlen.
    rewrite Z.mod_small by lia. rewrite <- app_assoc. simpl.
    rewrite IHu by lia. simpl. rewrite Z.mod_small by lia. destruct (Z.eqb_spec (d + 1 - 1) 0); [lia|].
    replace (d + 1 - 1)%Z with d by lia. rewrite IHw by lia.
    destruct (scan _ l). by rewrite <- app_assoc.
Qed.

(** The scanner stops exactly at the end of an object. *)
Lemma scan_object t rest :
  object_text t -> (Z.of_nat (length t) < 4294967296)%Z ->
  scan brace_init (t ++ rest) = (t, inr rest).
Proof.
  intros (u & -> & Hu) Hlen.
  assert (1 + Z.of_nat (length u) < 4294967296)%Z as Hu'
    by (rewrite length_cons, length_app in Hlen; lia).
  simpl. rewrite <- app_assoc. simpl. by rewrite (passes_body u Hu 1).
Qed.

(** ** Reading a framed object *)

Lemma skip_whitespace_app w l :
  Forall (fun b => is_ascii_whitespace b = true) w ->
  skip_whitespace (w ++ l) = skip_whitespace l.
Proof. induction 1 as [|b w Hb _ IH]; simpl; [done|]. by rewrite Hb. Qed.

Lemma read_object_brace_mode fuel w t rest s :
  wf s -> concat s = w ++ t ++ rest ->
  Forall (fun b => is_ascii_whitespace b = true) w ->
  object_text t -> (Z.of_nat (length t) < 4294967296)%Z ->
  exists s', read_message (S fuel) BraceDepth s = Done (Some t, BraceDepth, s') /\
    concat s' = rest /\ wf s'.
Proof.
  intros Hwf Hs Hw Ht Hlen. simpl.
  destruct (skip_whitespace_stream_spec s) as [Hc Hwf']. specialize (Hwf' Hwf).
  rewrite Hs, skip_whitespace_app in Hc by done.
  assert (exists u, t = "{"%char :: u) as [u Hu] by (destruct Ht as (u & -> & _); eauto).
  subst t. simpl in Hc.
  destruct (skip_whitespace_stream s) as [|[|b c] s1]; simpl in Hc; [done| |].
  { by apply Forall_cons in Hwf' as [? _]. }
  injection Hc as -> Hc. simpl.
  destruct (read_brace_found brace_init [] (("{"%char :: c) :: s1) ("{"%char :: u) rest Hwf')
    as (s' & Hr & ? & ?).
  - replace (concat (("{"%char :: c) :: s1)) with (("{"%char :: u) ++ rest)
      by (simpl; by rewrite Hc).
    by apply scan_object.
  - unfold read_brace_delimited. rewrite Hr. by exists s'.
Qed.

(** The mode [Unknown] skips white space chunk by chunk until the object starts. *)
Lemma read_object_unknown_mode fuel w t rest s :
  wf s -> concat s = w ++ t ++ rest ->
  Forall (fun b => is_ascii_whitespace b = true) w ->
  object_text t -> (Z.of_nat (length t) < 4294967296)%Z -> length w < fuel ->
  exists s', read_message (S fuel) Unknown s = Done (Some t, BraceDepth, s') /\
    concat s' = rest /\ wf s'.
Proof.
  intros Hwf Hs Hw Ht Hlen. revert w fuel Hs Hw.
  induction s as [|buf s IH]; intros w fuel Hs Hw Hfuel.
  { destruct Ht as (u & -> & _). by destruct w. }
  assert (exists u, t = "{"%char :: u) as [u Hu] by (destruct Ht as (u & -> & _); eauto).
  assert (forall buf w l, buf ++ l = w ++ "{"%char :: u ++ rest ->
    Forall (fun b => is_ascii_whitespace b = true) w ->
    sniff buf = Some BraceDepth \/
    (sniff buf = None /\ exists w', w = buf ++ w' /\ l = w' ++ "{"%char :: u ++ rest))
    as Hsniff.
  { clear. intros buf. induction buf as [|b buf IH]; intros w l Heq Hw.
    - right. split; [done|]. by exists w.
    - destruct w as [|b' w]; simpl in Heq; injection Heq as -> Heq; [by left|].
      apply Forall_cons in Hw as [Hb Hw].
      assert (sniff (b' :: buf) = sniff buf) as ->.
      { unfold sniff. simpl. rewrite Hb. rewrite decide_False by done.
        by destruct (list_find _ buf) as [[]|]. }
      destruct (IH w l Heq Hw) as [?|(? & w' & -> & ->)]; [by left|].
      right. split; [done|]. by exists w'. }
  simpl in Hs. rewrite Hu in Hs. destruct (Hsniff _ _ _ Hs Hw) as [Hb|(Hb & w' & -> & Hl)].
  - destruct fuel as [|fuel]; [lia|].
    change (read_message (S (S fuel)) Unknown (buf :: s)) with
      (match sniff buf with
       | Some mode' => read_message (S fuel) mode' (buf :: s)
       | None => read_message (S fuel) Unknown s end).
    rewrite Hb. eapply read_object_brace_mode; [done| |done..]. simpl. by rewrite Hs, Hu.
  - apply Forall_cons in Hwf as [Hbuf Hwf]. apply Forall_app in Hw as [_ Hw].
    rewrite length_app in Hfuel. destruct buf as [|b0 buf]; [done|].
    destruct fuel as [|fuel]; [simpl in Hfuel; lia|].
    change (read_message (S (S fuel)) Unknown ((b0 :: buf) :: s)) with
      (match sniff (b0 :: buf) with
       | Some mode' => read_message (S fuel) mode' ((b0 :: buf) :: s)
       | None => read_message (S fuel) Unknown s end).
    rewrite Hb. apply (IH Hwf w'); [by rewrite Hl, Hu|done|simpl in Hfuel; lia].
Qed.

(** ** Reading a body of declared length *)

Definition crlf : bytes := ["013"%char; newline].

Definition content_length_frame (ds body : bytes) : bytes :=
  lit "Content-Length: " ++ ds ++ crlf ++ crlf ++ body.

Lemma digit_visible b : in_range 48 57 b = true -> visible b = true.
Proof.
  unfold visible, in_range. rewrite !andb_true_iff, !N.leb_le. lia.
Qed.

Lemma digits_no_newline ds : Forall (fun b => in_range 48 57 b = true) ds -> newline ∉ ds.
Proof. intros H Hin. rewrite Forall_forall in H. by apply H in Hin. Qed.

Section content_length.
Context (ds' : bytes) (d : ascii).
Context (Hds : Forall (fun b => in_range 48 57 b = true) (ds' ++ [d])).

Let line : bytes := lit "Content-Length: " ++ (ds' ++ [d]) ++ crlf.

Lemma header_line l : first_line (line ++ l) = line.
Proof.
  unfold line, crlf.
  replace ((lit "Content-Length: " ++ (ds' ++ [d]) ++ ["013"%char; newline]) ++ l)
    with ((lit "Content-Length: " ++ (ds' ++ [d]) ++ ["013"%char]) ++ newline :: l)
    by (rewrite <- !app_assoc; done).
  rewrite first_line_app; [by rewrite <- !app_assoc|].
  rewrite !elem_of_app. intros [H|[[H|H]|H]].
  - by apply list_elem_of_In in H; simpl in H; naive_solver.
  - apply (digits_no_newline _ Hds), elem_of_app. by left.
  - apply (digits_no_newline _ Hds), elem_of_app. by right.
  - by apply list_elem_of_singleton in H.
Qed.

Lemma header_utf8 : valid_utf8 line = true.
Proof.
  apply valid_utf8_ascii. unfold line, crlf. rewrite !Forall_app. split_and!.
  - repeat (apply Forall_cons; split; [done|]). by apply Forall_nil.
  - apply Forall_app in Hds as [H _]. eapply Forall_impl; [exact H|]. intros b Hb.
    apply digit_visible, visible_range in Hb. simpl. lia.
  - apply Forall_app in Hds as [_ H]. eapply Forall_impl; [exact H|]. intros b Hb.
    apply digit_visible, visible_range in Hb. simpl. lia.
  - repeat (apply Forall_cons; split; [done|]). by apply Forall_nil.
Qed.

Lemma header_trimmed : trim line = lit "Content-Length: " ++ ds' ++ [d].
Proof.
  unfold trim, line, crlf. simpl lit. simpl app. rewrite trim_start_visible by done.
  change ("C"%char :: "o"%char :: "n"%char :: "t"%char :: "e"%char :: "n"%char :: "t"%char ::
    "-"%char :: "L"%char :: "e"%char :: "n"%char :: "g"%char :: "t"%char :: "h"%char ::
    ":"%char :: " "%char :: (ds' ++ [d]) ++ ["013"%char; newline])
    with (lit "Content-Length: " ++ (ds' ++ [d]) ++ ["013"%char; newline]).
  rewrite <- (app_assoc ds'), (app_assoc (lit _)).
  change ([d] ++ ["013"%char; newline]) with [d; "013"%char; newline].
  rewrite trim_end_crlf; [by rewrite <- app_assoc|].
  apply Forall_app in Hds as [_ H]. apply Forall_cons in H as [H _]. by apply digit_visible.
Qed.

Lemma header_value :
  trim (drop (length content_length_header) (lit "Content-Length: " ++ ds' ++ [d])) = ds' ++ [d].
Proof.
  change (drop (length content_length_header) (lit "Content-Length: " ++ ds' ++ [d]))
    with (" "%char :: ds' ++ [d]).
  unfold trim.
  assert (trim_start (" "%char :: ds' ++ [d]) = ds' ++ [d]) as ->.
  { unfold trim_start. cbn [length trim_start_aux].
    change (strip_one white_space (" "%char :: ds' ++ [d])) with (Some (ds' ++ [d])).
    cbv iota. fold (trim_start (ds' ++ [d])).
    destruct ds' as [|b ds'']; simpl app; apply trim_start_visible;
      apply Forall_cons in Hds as [H _]; by apply digit_visible. }
  apply trim_end_visible.
  apply Forall_app in Hds as [_ H]. apply Forall_cons in H as [H _]. by apply digit_visible.
Qed.

Lemma header_found :
  starts_with content_length_header (to_ascii_lowercase (trim line)) = true.
Proof.
  rewrite header_trimmed. unfold to_ascii_lowercase. rewrite fmap_app.
  change (to_ascii_lowercase_byte <$> lit "Content-Length: ")
    with (content_length_header ++ [" "%char]).
  rewrite <- app_assoc. apply starts_with_app.
Qed.

Lemma read_content_length_spec body rest s :
  wf s -> concat s = content_length_frame (ds' ++ [d]) body ++ rest ->
  parse_usize (ds' ++ [d]) = Some (N.of_nat (length body)) ->
  exists s', read_content_length s = Done (Some body, s') /\ concat s' = rest /\ wf s'.
Proof.
  intros Hwf Hs Hn.
  assert (concat s = line ++ crlf ++ body ++ rest) as Hs'.
  { rewrite Hs. unfold content_length_frame, line. by rewrite <- !app_assoc. }
  set (s1 := consume (length line) s).
  assert (concat s1 = crlf ++ body ++ rest) as Hs1
    by (unfold s1; by rewrite concat_consume, Hs', drop_app_length).
  set (s2 := consume 2 s1).
  assert (concat s2 = body ++ rest) as Hs2 by (unfold s2; by rewrite concat_consume, Hs1).
  assert (read_line s = Done (line, s1)) as Hl1.
  { apply read_line_valid; [by rewrite Hs', header_line|apply header_utf8]. }
  assert (read_line s1 = Done (crlf, s2)) as Hl2 by (apply read_line_valid; by rewrite ?Hs1).
  assert (read_header (fuel_of s) s = Done (Some line, s1)) as Hh.
  { by apply read_header_hit; [|apply header_found]. }
  assert (read_blank (fuel_of s1) s1 = Done (true, s2)) as Hb.
  { by apply (read_blank_hit s1 crlf). }
  unfold read_content_length. rewrite Hh, header_trimmed, header_value, Hn, Hb.
  rewrite Hs2, length_app, decide_True by lia. rewrite Nat2N.id, take_app_length.
  eexists. split; [done|]. rewrite concat_consume, Hs2, drop_app_length.
  split; [done|]. unfold s2, s1. by repeat apply wf_consume.
Qed.

End content_length.

(** ** Properties *)

Lemma next_message_finishes mode s : wf s -> next_message mode s <> NoFuel.
Proof.
  intros Hwf. apply read_message_total; [done|]. unfold read_message_fuel.
  destruct mode; simpl; lia.
Qed.

(** Reading terminates: on any input, in any mode, the readers return a
    message, the end of input or an error (the fuel never runs out). *)
Theorem next_message_total mode s : wf s -> next_message mode s <> NoFuel.
Proof. apply next_message_finishes. Qed.

Definition sample_object : bytes := lit "{" ++ dquote :: lit "}{" ++ [backslash; dquote; dquote] ++ lit "}".

Lemma sample_object_text : object_text sample_object.
Proof.
  exists (dquote :: (lit "}{" ++ [backslash; dquote]) ++ [dquote]). split; [done|].
  apply bb_string; [|constructor].
  repeat (apply sb_char; [done..|]). apply sb_escape. constructor.
Qed.

Lemma next_message_total_witness :
  wf [lit " "; lit "{"] /\ next_message Unknown [lit " "; lit "{"] <> NoFuel.
Proof. assert (wf [lit " "; lit "{"]) as H by (by repeat constructor). split; [done|]. by apply next_message_total. Defined.

(** Whatever the chunks in which the pipe delivers it, a JSON object (white
    space before it; braces and escaped quotes inside its strings) shorter than
    2^32 bytes is read as one message, byte for byte, and the reader is left
    exactly at its end, in the initial mode and in brace mode alike. *)
Theorem object_framed mode w t rest s :
  mode = Unknown \/ mode = BraceDepth ->
  wf s -> concat s = w ++ t ++ rest ->
  Forall (fun b => is_ascii_whitespace b = true) w ->
  object_text t -> (Z.of_nat (length t) < 4294967296)%Z ->
  exists s', next_message mode s = Done (Some t, BraceDepth, s') /\
    concat s' = rest /\ wf s'.
Proof.
  intros [-> | ->] Hwf Hs Hw Ht Hlen; unfold next_message, read_message_fuel.
  - eapply read_object_unknown_mode; [done..|]. rewrite Hs, length_app. lia.
  - by eapply read_object_brace_mode.
Qed.

Lemma object_framed_witness :
  exists s', next_message Unknown [lit " "; lit " {"; drop 1 sample_object ++ lit "x"] =
    Done (Some sample_object, BraceDepth, s') /\ concat s' = lit "x" /\ wf s'.
Proof.
  apply (object_framed _ (lit "  ") sample_object (lit "x")).
  - by left.
  - by repeat constructor.
  - reflexivity.
  - by repeat constructor.
  - apply sample_object_text.
  - reflexivity.
Defined.

(** A frame with a Content-Length header written in decimal is read back as
    its body, whatever bytes the body holds and however the pipe cuts the frame,
    and the reader is left exactly behind it. *)
Theorem content_length_framed ds' d body rest s :
  Forall (fun b => in_range 48 57 b = true) (ds' ++ [d]) ->
  parse_usize (ds' ++ [d]) = Some (N.of_nat (length body)) ->
  wf s -> concat s = content_length_frame (ds' ++ [d]) body ++ rest ->
  exists s', next_message ContentLength s = Done (Some body, ContentLength, s') /\
    concat s' = rest /\ wf s'.
Proof.
  intros Hds Hn Hwf Hs. unfold next_message, read_message_fuel. simpl.
  destruct (read_content_length_spec ds' d Hds body rest s Hwf Hs Hn) as (s' & -> & ? & ?).
  by exists s'.
Qed.

Lemma content_length_framed_witness :
  exists s', next_message ContentLength
      [lit "Content-Length: 1"; lit "1" ++ crlf ++ crlf ++ lit "{";  lit "nl:" ++ [newline] ++ lit "bytes}rest"] =
    Done (Some (lit "{nl:" ++ [newline] ++ lit "bytes}"), ContentLength, s') /\
    concat s' = lit "rest" /\ wf s'.
Proof.
  apply (content_length_framed (lit "1") "1"%char).
  - by repeat constructor.
  - reflexivity.
  - by repeat constructor.
  - reflexivity.
Defined.

End Framing.
