(* ===== verification/Json.v ===== *)
(** * JSON values

    [serde_json::Value] with the [preserve_order] feature (the workspace turns it
    on): an object is a list of pairs with distinct keys, in insertion order. *)

From S2P Require Import Prelude.

Unset Elimination Schemes.

Inductive json :=
| JNull
| JBool (b : bool)
| JNumber (n : Z)
| JFloat (repr : string)
| JString (s : string)
| JArray (l : list json)
| JObject (m : list (string * json)).

Set Elimination Schemes.

(** Induction with hypotheses for the elements of arrays and objects. *)
Section json_ind.
Context (P : json -> Prop)
  (Hnull : P JNull) (Hbool : forall b, P (JBool b)) (Hnum : forall n, P (JNumber n))
  (Hfloat : forall r, P (JFloat r)) (Hstr : forall s, P (JString s))
  (Harr : forall l, Forall P l -> P (JArray l))
  (Hobj : forall m, Forall (fun p => P p.2) m -> P (JObject m)).

Fixpoint json_ind (j : json) : P j :=
  match j with
  | JNull => Hnull
  | JBool b => Hbool b
  | JNumber n => Hnum n
  | JFloat r => Hfloat r
  | JString s => Hstr s
  | JArray l =>
      Harr l ((fix go l : Forall P l :=
        match l with
        | [] => List.Forall_nil _
        | x :: l' => List.Forall_cons _ _ _ (json_ind x) (go l')
        end) l)
  | JObject m =>
      Hobj m ((fix go m : Forall (fun p => P p.2) m :=
        match m with
        | [] => List.Forall_nil _
        | x :: m' => List.Forall_cons _ _ _ (json_ind x.2) (go m')
        end) m)
  end.
End json_ind.

(** ** Objects: [serde_json::Map] *)

Fixpoint obj_get (k : string) (m : list (string * json)) : option json :=
  match m with
  | [] => None
  | (k', v) :: m' => if String.eqb k k' then Some v else obj_get k m'
  end.

(** [Map::insert]: in place for a key that is there, at the end otherwise. *)
Fixpoint obj_insert (k : string) (v : json) (m : list (string * json)) : list (string * json) :=
  match m with
  | [] => [(k, v)]
  | (k', v') :: m' => if String.eqb k k' then (k', v) :: m' else (k', v') :: obj_insert k v m'
  end.

(** [Map::shift_remove], which keeps the order of the other entries. *)
Fixpoint obj_remove (k : string) (m : list (string * json)) : list (string * json) :=
  match m with
  | [] => []
  | (k', v') :: m' => if String.eqb k k' then m' else (k', v') :: obj_remove k m'
  end.

(** [Map::remove], which is [swap_remove]: the last entry takes the place of the
    removed one. *)
Fixpoint obj_swap_remove (k : string) (m : list (string * json)) : list (string * json) :=
  match m with
  | [] => []
  | (k', v') :: m' =>
      if String.eqb k k' then
        match last m' with Some e => e :: removelast m' | None => [] end
      else (k', v') :: obj_swap_remove k m'
  end.

(** ** Accessors of [Value] *)

Definition get (k : string) (j : json) : option json :=
  match j with JObject m => obj_get k m | _ => None end.

Definition as_str (j : json) : option string :=
  match j with JString s => Some s | _ => None end.

Definition as_bool (j : json) : option bool :=
  match j with JBool b => Some b | _ => None end.

Definition as_array (j : json) : option (list json) :=
  match j with JArray l => Some l | _ => None end.

Definition as_object (j : json) : option (list (string * json)) :=
  match j with JObject m => Some m | _ => None end.

(** [as_i64] and [as_u64]: integers in range; a float is neither. *)
Definition as_i64 (j : json) : option Z :=
  match j with
  | JNumber n => if decide (i64_min <= n <= i64_max)%Z then Some n else None
  | _ => None
  end.

Definition as_u64 (j : json) : option Z :=
  match j with
  | JNumber n => if decide (0 <= n <= u64_max)%Z then Some n else None
  | _ => None
  end.

(** ** Equality

    [Value::eq]: arrays in order, objects whatever their order; two floats are
    compared as [f64]s, an equivalence as JSON has no NaN (it is not equality of
    the printed forms: [-0.0 == 0.0]). *)
Class FloatEq := {
  float_eqb : string -> string -> bool;
  float_eqb_refl r : float_eqb r r = true;
  float_eqb_sym r s : float_eqb r s = true -> float_eqb s r = true;
  float_eqb_trans r s t : float_eqb r s = true -> float_eqb s t = true -> float_eqb r t = true;
}.

(** Floats compared by their printed form. *)
Program Definition printed_floats : FloatEq := {| float_eqb := String.eqb |}.
Next Obligation. apply String.eqb_refl. Qed.
Next Obligation. by intros r s ->%String.eqb_eq; apply String.eqb_refl. Qed.
Next Obligation. by intros r s t ->%String.eqb_eq. Qed.

Section list_eqb.
Context {A B : Type} (eqb : A -> B -> bool).

Fixpoint list_eqb (l : list A) (l' : list B) : bool :=
  match l, l' with
  | [], [] => true
  | x :: l, y :: l' => eqb x y && list_eqb l l'
  | _, _ => false
  end.
End list_eqb.

Fixpoint json_eqb `{FloatEq} (a b : json) : bool :=
  match a, b with
  | JNull, JNull => true
  | JBool x, JBool y => Bool.eqb x y
  | JNumber x, JNumber y => Z.eqb x y
  | JFloat x, JFloat y => float_eqb x y
  | JString x, JString y => String.eqb x y
  | JArray l, JArray l' => list_eqb json_eqb l l'
  | JObject m, JObject m' =>
      Nat.eqb (length m) (length m') &&
      forallb (fun p => match obj_get p.1 m' with
                        | Some v => json_eqb p.2 v
                        | None => false
                        end) m
  | _, _ => false
  end.

(** What the type [Map] promises: keys are distinct, at every depth. *)
Fixpoint wf (j : json) : bool :=
  match j with
  | JArray l => forallb wf l
  | JObject m => bool_decide (NoDup m.*1) && forallb (fun p => wf p.2) m
  | _ => true
  end.

(** The same equality as a relation: objects are equal when their lookups are. *)
Inductive jeq `{FloatEq} : Equiv json :=
| jeq_null : JNull ≡ JNull
| jeq_bool b : JBool b ≡ JBool b
| jeq_number n : JNumber n ≡ JNumber n
| jeq_float r s : float_eqb r s = true -> JFloat r ≡ JFloat s
| jeq_string s : JString s ≡ JString s
| jeq_array l l' : Forall2 jeq l l' -> JArray l ≡ JArray l'
| jeq_object m m' :
    (forall k, option_Forall2 jeq (obj_get k m) (obj_get k m')) -> JObject m ≡ JObject m'.
#[export] Existing Instance jeq.

(** ** Lemmas *)

Lemma obj_get_insert k k' v m :
  obj_get k (obj_insert k' v m) = if String.eqb k k' then Some v else obj_get k m.
Proof.
  induction m as [|[k0 v0] m IH]; simpl.
  - by destruct (String.eqb k k').
  - destruct (String.eqb_spec k' k0); subst; simpl.
    + by destruct (String.eqb k k0).
    + destruct (String.eqb_spec k k0); subst; [|done].
      destruct (String.eqb_spec k0 k'); congruence.
Qed.

Lemma obj_get_None k m : obj_get k m = None <-> k ∉ m.*1.
Proof.
  induction m as [|[k0 v0] m IH]; simpl; [set_solver|].
  destruct (String.eqb_spec k k0); subst; [set_solver|]. rewrite IH. set_solver.
Qed.

Lemma obj_get_remove_ne k k' m :
  k <> k' -> obj_get k (obj_remove k' m) = obj_get k m.
Proof.
  intros Hne. induction m as [|[k0 v0] m IH]; simpl; [done|].
  destruct (String.eqb_spec k' k0); subst; simpl.
  - by destruct (String.eqb_spec k k0).
  - by destruct (String.eqb k k0).
Qed.

Lemma obj_get_remove_eq k m : NoDup m.*1 -> obj_get k (obj_remove k m) = None.
Proof.
  induction m as [|[k0 v0] m IH]; simpl; [done|]. intros [Hk Hm]%NoDup_cons.
  destruct (String.eqb_spec k k0); subst; simpl.
  - by apply obj_get_None.
  - destruct (String.eqb_spec k k0); [congruence|auto].
Qed.

#[export] Hint Rewrite obj_get_insert : kyris.

Lemma obj_get_elem k v m : obj_get k m = Some v -> (k, v) ∈ m.
Proof.
  induction m as [|[k0 v0] m IH]; simpl; [done|].
  destruct (String.eqb_spec k k0); intros; simplify_eq; set_solver.
Qed.

Lemma elem_obj_get k v m : NoDup m.*1 -> (k, v) ∈ m -> obj_get k m = Some v.
Proof.
  induction m as [|[k0 v0] m IH]; simpl; [set_solver|]. intros [Hk Hm]%NoDup_cons Hin.
  apply elem_of_cons in Hin as [[= -> ->]|Hin]; [by rewrite String.eqb_refl|].
  destruct (String.eqb_spec k k0) as [->|]; [|by apply IH].
  destruct Hk. by apply (list_elem_of_fmap_2 fst m (k0, v)).
Qed.

Lemma obj_get_is_Some k m : is_Some (obj_get k m) <-> k ∈ m.*1.
Proof.
  rewrite <- not_eq_None_Some, obj_get_None. destruct (decide (k ∈ m.*1)); naive_solver.
Qed.

Lemma obj_get_perm k m m' : m ≡ₚ m' -> NoDup m.*1 -> obj_get k m = obj_get k m'.
Proof.
  intros Hp Hm. assert (NoDup m'.*1) by by rewrite <- Hp.
  destruct (obj_get k m) as [v|] eqn:E.
  - symmetry. apply elem_obj_get; [done|]. rewrite <- Hp. by apply obj_get_elem.
  - symmetry. apply obj_get_None. rewrite <- Hp. by apply obj_get_None.
Qed.

Lemma obj_insert_keys k v m :
  (obj_insert k v m).*1 = if decide (k ∈ m.*1) then m.*1 else m.*1 ++ [k].
Proof.
  induction m as [|[k0 v0] m IH]; simpl; [done|].
  destruct (String.eqb_spec k k0) as [->|]; simpl; [by rewrite decide_True by set_solver|].
  change (k0 :: (obj_insert k v m).*1 = if decide (k ∈ k0 :: m.*1) then k0 :: m.*1 else k0 :: m.*1 ++ [k]).
  rewrite IH. repeat case_decide; set_solver.
Qed.

Lemma obj_insert_NoDup k v m : NoDup m.*1 -> NoDup (obj_insert k v m).*1.
Proof.
  intros Hm. rewrite obj_insert_keys. case_decide; [done|].
  apply NoDup_app. split_and!; [done|set_solver|apply NoDup_singleton].
Qed.

Lemma obj_insert_insert k v v' m : obj_insert k v (obj_insert k v' m) = obj_insert k v m.
Proof.
  induction m as [|[k0 v0] m IH]; simpl; [by rewrite String.eqb_refl|].
  destruct (String.eqb_spec k k0); simpl; [by destruct (String.eqb_spec k k0)|].
  destruct (String.eqb_spec k k0); [done|]. by rewrite IH.
Qed.

Lemma obj_insert_id k v m : obj_get k m = Some v -> obj_insert k v m = m.
Proof.
  induction m as [|[k0 v0] m IH]; simpl; [done|].
  destruct (String.eqb_spec k k0); [naive_solver|]. intros. by rewrite IH.
Qed.

Lemma last_removelast {A} (l : list A) x : last l = Some x -> l = removelast l ++ [x].
Proof.
  induction l as [|y l IH]; [done|]. destruct l as [|z l]; [naive_solver|].
  intros E. change (y :: z :: l = y :: (removelast (z :: l) ++ [x])). f_equal. by apply IH.
Qed.

Lemma obj_swap_remove_perm k m : obj_swap_remove k m ≡ₚ obj_remove k m.
Proof.
  induction m as [|[k0 v0] m IH]; simpl; [done|].
  destruct (String.eqb k k0); [|by rewrite IH].
  destruct (last m) as [e|] eqn:E; [|by destruct m using rev_ind; rewrite ?last_snoc in E].
  rewrite (last_removelast m e) at 2 by done. apply Permutation_cons_append.
Qed.

Lemma obj_remove_perm k v m m' :
  (k, v) :: m ≡ₚ m' -> NoDup m'.*1 -> obj_remove k m' ≡ₚ m.
Proof.
  intros Hp Hm. assert ((k, v) ∈ m') as (m1 & m2 & ->)%list_elem_of_split
    by (rewrite <- Hp; set_solver).
  apply Permutation_cons_app_inv in Hp. rewrite Hp. rewrite fmap_app in Hm.
  apply NoDup_app in Hm as (_ & Hm & _). clear Hp.
  induction m1 as [|[k1 v1] m1 IH]; simpl; [by rewrite String.eqb_refl|].
  destruct (String.eqb_spec k k1) as [->|]; [set_solver|].
  rewrite IH; [done|set_solver].
Qed.

Lemma obj_remove_keys k m : (obj_remove k m).*1 `sublist_of` m.*1.
Proof.
  induction m as [|[k0 v0] m IH]; simpl; [done|].
  destruct (String.eqb k k0); [by apply sublist_cons|by apply sublist_skip].
Qed.

Lemma obj_swap_remove_NoDup k m : NoDup m.*1 -> NoDup (obj_swap_remove k m).*1.
Proof.
  intros Hm. rewrite obj_swap_remove_perm. by eapply sublist_NoDup, obj_remove_keys.
Qed.

Lemma obj_get_swap_remove k k' m :
  NoDup m.*1 ->
  obj_get k (obj_swap_remove k' m) = if String.eqb k k' then None else obj_get k m.
Proof.
  intros Hm. rewrite (obj_get_perm _ _ _ (obj_swap_remove_perm k' m))
    by by apply obj_swap_remove_NoDup.
  destruct (String.eqb_spec k k') as [->|]; [by apply obj_get_remove_eq|by apply obj_get_remove_ne].
Qed.

Lemma obj_swap_remove_insert k v m :
  obj_get k m <> None -> obj_swap_remove k (obj_insert k v m) = obj_swap_remove k m.
Proof.
  induction m as [|[k0 v0] m IH]; simpl; [done|].
  destruct (String.eqb_spec k k0); simpl; destruct (String.eqb_spec k k0); try done.
  intros. by rewrite IH.
Qed.

Lemma wf_object m : wf (JObject m) = true <-> NoDup m.*1 /\ Forall (fun p => wf p.2 = true) m.
Proof.
  simpl. rewrite andb_true_iff, bool_decide_eq_true, forallb_forall, Forall_forall.
  by setoid_rewrite <- list_elem_of_In.
Qed.

Lemma wf_get m k v : wf (JObject m) = true -> obj_get k m = Some v -> wf v = true.
Proof.
  intros [_ Hf]%wf_object Hg%obj_get_elem. by rewrite Forall_forall in Hf; apply Hf in Hg.
Qed.

Lemma wf_insert k v m :
  wf (JObject m) = true -> wf v = true -> wf (JObject (obj_insert k v m)) = true.
Proof.
  rewrite !wf_object. intros [Hm Hf] Hv. split; [by apply obj_insert_NoDup|]. clear Hm.
  induction Hf as [|[k0 v0] m H0 Hf IH]; simpl; [by repeat constructor|].
  destruct (String.eqb k k0); by constructor.
Qed.

Lemma wf_swap_remove k m : wf (JObject m) = true -> wf (JObject (obj_swap_remove k m)) = true.
Proof.
  rewrite !wf_object. intros [Hm Hf]. split; [by apply obj_swap_remove_NoDup|].
  rewrite obj_swap_remove_perm. clear Hm.
  induction Hf as [|[k0 v0] m H0 Hf IH]; simpl; [done|].
  destruct (String.eqb k k0); [done|by constructor].
Qed.

Section equality.
Context `{FloatEq}.

#[export] Instance jeq_refl : Reflexive jeq.
Proof.
  intros j. induction j as [| | |r | |l IH|m IH] using json_ind; constructor.
  - apply float_eqb_refl.
  - by apply Forall_Forall2_diag.
  - intros k. destruct (obj_get k m) as [v|] eqn:E; constructor.
    apply obj_get_elem in E. by rewrite Forall_forall in IH; apply IH in E.
Qed.

#[export] Instance jeq_sym : Symmetric jeq.
Proof.
  intros j. induction j as [| | |r | |l IH|m IH] using json_ind; intros j' E;
    inversion E as [| | |? ? Hr| |? l' Hl|? m' Hm]; subst; constructor.
  - by apply float_eqb_sym.
  - clear E. revert l' Hl. induction IH; intros l' Hl; inversion Hl; subst; constructor; auto.
  - intros k. specialize (Hm k).
    destruct (obj_get k m) as [v|] eqn:?; inversion Hm; subst; constructor.
    rewrite Forall_forall in IH. by apply (IH (k, v)); [apply obj_get_elem|].
Qed.

#[export] Instance jeq_trans : Transitive jeq.
Proof.
  intros j. induction j as [| | |r | |l IH|m IH] using json_ind; intros j1 j2 E1 E2;
    inversion E1 as [| | |? ? Hr| |? l' Hl|? m' Hm]; subst;
    inversion E2 as [| | |? ? Hr2| |? l2 Hl2|? m2 Hm2]; subst; constructor.
  - by eapply float_eqb_trans.
  - clear E1 E2. revert l' l2 Hl Hl2. induction IH; intros l' l2 Hl Hl2;
      inversion Hl; subst; inversion Hl2; subst; constructor; eauto.
  - intros k. specialize (Hm k). specialize (Hm2 k).
    destruct (obj_get k m) as [v|] eqn:?; inversion Hm as [? ? ? F1 F2|F1 F2]; subst;
      rewrite <- ?F1, <- ?F2 in Hm2; inversion Hm2; subst; constructor.
    rewrite Forall_forall in IH. by eapply (IH (k, v)); [apply obj_get_elem| |].
Qed.

#[export] Instance jeq_equivalence : Equivalence jeq.
Proof. split; apply _. Qed.

(** Lookups, insertion and the constructors respect the equality. *)
#[export] Instance JObject_get_proper k : Proper (jeq ==> option_Forall2 jeq) (get k).
Proof. intros j j' E. inversion E; simpl; try constructor; auto. Qed.

Lemma jeq_same_keys m m' k : JObject m ≡ JObject m' -> k ∈ m.*1 <-> k ∈ m'.*1.
Proof.
  intros E. inversion E as [| | | | | |? ? Hm]; subst. specialize (Hm k).
  rewrite <- !obj_get_is_Some. destruct Hm; split; eauto using is_Some_None; intros []; done.
Qed.

Lemma jeq_insert k v v' m m' :
  v ≡ v' -> JObject m ≡ JObject m' -> JObject (obj_insert k v m) ≡ JObject (obj_insert k v' m').
Proof.
  intros Hv E. inversion E as [| | | | | |? ? Hm]; subst. constructor. intros k'.
  rewrite !obj_get_insert. destruct (String.eqb k' k); [by constructor|done].
Qed.

Lemma json_eqb_object m m' :
  NoDup m.*1 -> NoDup m'.*1 ->
  json_eqb (JObject m) (JObject m') = true <->
  forall k, match obj_get k m, obj_get k m' with
            | Some v, Some v' => json_eqb v v' = true
            | None, None => True
            | _, _ => False
            end.
Proof.
  intros Hm Hm'. simpl. rewrite andb_true_iff, Nat.eqb_eq, forallb_forall.
  setoid_rewrite <- list_elem_of_In. split.
  - intros [Hlen Hall] k. destruct (obj_get k m) as [v|] eqn:E.
    + apply obj_get_elem, Hall in E. simpl in E. by destruct (obj_get k m').
    + apply obj_get_None in E. case_match eqn:E'; [|done]. apply E.
      assert (m.*1 ≡ₚ m'.*1) as ->; [|by eapply obj_get_is_Some].
      apply submseteq_length_Permutation; [|by rewrite !length_fmap, Hlen].
      apply NoDup_submseteq; [done|]. intros k0 ((k1, v) & -> & Hin)%list_elem_of_fmap.
      apply Hall in Hin. simpl in *. apply obj_get_is_Some. by destruct (obj_get k1 m').
  - intros Hall. split.
    + rewrite <- (length_fmap fst m), <- (length_fmap fst m'). apply Permutation_length.
      apply NoDup_Permutation; [done..|]. intros k. specialize (Hall k).
      rewrite <- !obj_get_is_Some. split; intros [v E]; rewrite E in Hall; by case_match.
    + intros [k v] Hin. apply elem_obj_get in Hin; [|done]. specialize (Hall k).
      simpl. rewrite Hin in Hall. by case_match.
Qed.

(** The test the code runs decides the equality, on values with distinct keys. *)
Lemma json_eqb_spec a b : wf a = true -> wf b = true -> json_eqb a b = true <-> a ≡ b.
Proof.
  revert b. induction a as [|x|x|x|x|l IH|m IH] using json_ind; intros b Ha Hb.
  - destruct b; split; intros E; try constructor; inversion E; done.
  - destruct b as [|y| | | | |]; split; intros E; inversion E; subst; try constructor.
    + apply Bool.eqb_prop in E as ->. constructor.
    + simpl. apply Bool.eqb_reflx.
  - destruct b as [| |y| | | |]; split; intros E; inversion E; subst; try constructor.
    + apply Z.eqb_eq in E as ->. constructor.
    + simpl. apply Z.eqb_refl.
  - destruct b as [| | |y| | |]; split; intros E; inversion E; subst; try constructor; done.
  - destruct b as [| | | |y| |]; split; intros E; inversion E; subst; try constructor.
    + apply String.eqb_eq in E as ->. constructor.
    + simpl. apply String.eqb_refl.
  - destruct b as [| | | | |l'|]; try (split; intros E; inversion E; done).
    transitivity (Forall2 jeq l l'); [|split; [by constructor|by inversion 1]].
    simpl in *. revert l' Hb Ha. induction IH as [|y l Hy _ IHl]; intros [|z l'] Hb Ha; simpl in *.
    + by split; constructor.
    + by split; inversion 1.
    + by split; inversion 1.
    + apply andb_true_iff in Ha as [], Hb as [].
      rewrite andb_true_iff, Hy, IHl by done. split; [intros []; by constructor|by inversion 1].
  - destruct b as [| | | | | |m']; try (split; intros E; inversion E; done).
    pose proof (wf_get m) as Wm. pose proof (wf_get m') as Wm'.
    rewrite json_eqb_object by by apply wf_object.
    transitivity (forall k, option_Forall2 jeq (obj_get k m) (obj_get k m'));
      [|split; [by constructor|by inversion 1]].
    rewrite Forall_forall in IH. apply forall_proper. intros k.
    destruct (obj_get k m) as [v|] eqn:E, (obj_get k m') as [v'|] eqn:E';
      try (by split; [|inversion 1]); [|by split; [constructor|]].
    rewrite (IH (k, v)); [|by apply obj_get_elem|by eauto..].
    split; [by constructor|by inversion 1].
Qed.
End equality.
