(* ===== verification/JsonPatch.v ===== *)
(** * Reversible edits of JSON configuration files

    [cli/src/json_patch_ops.rs]: setup records the difference between an agent's
    configuration before and after its own edit, and uninstall takes exactly that
    difference back from whatever the file holds by then. *)

From S2P Require Import Prelude Text Json.

Module JsonPatch.

(** ** Operations *)

Inductive JsonOp :=
| Add (path : list string) (value : json)
| Replace (path : list string) (old : json)
| Remove (path : list string) (old : json).

Definition child_path (prefix : list string) (key : string) : list string := prefix ++ [key].

Definition fmt_path (path : list string) : string := String.concat "." path.

Definition split_path (path : list string) : result (list string * string) string :=
  match last path with
  | Some key => Ok (removelast path, key)
  | None => Err "path is empty"
  end.

(** ** The difference of two values *)

Section diff.
Context `{FloatEq}.

Fixpoint diff_recursive (prefix : list string) (old new : json) : list JsonOp :=
  match old, new with
  | JObject old_m, JObject new_m =>
      flat_map (fun p : string * json =>
        let path := child_path prefix p.1 in
        match obj_get p.1 old_m with
        | Some old_val => if json_eqb old_val p.2 then [] else diff_recursive path old_val p.2
        | None => [Add path p.2]
        end) new_m
      ++ flat_map (fun p : string * json =>
        match obj_get p.1 new_m with
        | Some _ => []
        | None => [Remove (child_path prefix p.1) p.2]
        end) old_m
  | _, _ => if json_eqb old new then [] else [Replace prefix old]
  end.

Definition diff (old new : json) : list JsonOp := diff_recursive [] old new.
End diff.

(** ** Access by path *)

Fixpoint object_at_path (root : json) (path : list string) : option (list (string * json)) :=
  m ← as_object root;
  match path with
  | [] => Some m
  | seg :: path => child ← obj_get seg m; object_at_path child path
  end.

(** A use [f] of the reference [object_at_path_mut] returns: the root with the
    object at the path updated in place. *)
Fixpoint object_at_path_mut {A} (root : json) (path : list string)
    (f : list (string * json) -> list (string * json) * A) : option (json * A) :=
  m ← as_object root;
  match path with
  | [] => let '(m', a) := f m in Some (JObject m', a)
  | seg :: path =>
      child ← obj_get seg m;
      '(child', a) ← object_at_path_mut child path f;
      Some (JObject (obj_insert seg child' m), a)
  end.

Definition remove_at_path (root : json) (path : list string) : json * result bool string :=
  match split_path path with
  | Err w => (root, Err w)
  | Ok (parent, key) =>
      match object_at_path_mut root parent
              (fun obj => (obj_swap_remove key obj, bool_decide (is_Some (obj_get key obj)))) with
      | None => (root, Ok false)
      | Some (root', removed) => (root', Ok removed)
      end
  end.

(** The loop of [set_at_path] below an object: an absent parent is created. *)
Fixpoint set_below (cur : list (string * json)) (parent : list string) (key : string)
    (value : json) : list (string * json) * result unit string :=
  match parent with
  | [] => (obj_insert key value cur, Ok tt)
  | seg :: parent =>
      let entry := default (JObject []) (obj_get seg cur) in
      match as_object entry with
      | Some child =>
          let '(child', r) := set_below child parent key value in
          (obj_insert seg (JObject child') cur, r)
      | None => (obj_insert seg entry cur, Err ("'" ++ seg ++ "' is not an object")%string)
      end
  end.

Definition set_at_path (root : json) (path : list string) (value : json)
    : json * result unit string :=
  match split_path path with
  | Err w => (root, Err w)
  | Ok (parent, key) =>
      match as_object root with
      | None => (root, Err "root is not an object"%string)
      | Some m => let '(m', r) := set_below m parent key value in (JObject m', r)
      end
  end.

(** ** Taking operations back *)

(** The root and the warnings so far. *)
Definition state : Type := json * list string.

(** Appends the warning an error makes. *)
Definition warn {A} (what : string) (path : list string) (ws : list string)
    (r : json * result A string) : state :=
  match r with
  | (root, Ok _) => (root, ws)
  | (root, Err w) => (root, ws ++ [(what ++ fmt_path path ++ ": " ++ w)%string])
  end.

Fixpoint unapply_add (s : state) (path : list string) (value : json) : state :=
  match path with
  | [] => s
  | _ =>
      match value with
      | JObject added_m =>
          let '(root, ws) :=
            foldl (fun s p => unapply_add s (child_path path p.1) p.2) s added_m in
          match object_at_path root path with
          | Some [] => warn "cleanup empty object at " path ws (remove_at_path root path)
          | _ => (root, ws)
          end
      | _ => warn "remove at " path s.2 (remove_at_path s.1 path)
      end
  end.

Definition unapply_op (s : state) (op : JsonOp) : state :=
  match op with
  | Add path value => unapply_add s path value
  | Replace path old => warn "replace at " path s.2 (set_at_path s.1 path old)
  | Remove path old => warn "restore removed key at " path s.2 (set_at_path s.1 path old)
  end.

Definition unapply (root : json) (ops : list JsonOp) : state :=
  foldl unapply_op (root, []) (rev ops).

(** ** Working below a key

    An operation whose path starts with [k] acts on the child of [k] alone. *)

Definition prefix_op (k : string) (op : JsonOp) : JsonOp :=
  match op with
  | Add path value => Add (k :: path) value
  | Replace path old => Replace (k :: path) old
  | Remove path old => Remove (k :: path) old
  end.

Definition op_path (op : JsonOp) : list string :=
  match op with Add path _ | Replace path _ | Remove path _ => path end.

Lemma split_path_cons k path :
  path <> [] ->
  split_path (k :: path) =
    match split_path path with Ok (parent, key) => Ok (k :: parent, key) | Err w => Err w end.
Proof.
  intros Hp. unfold split_path. destruct path as [|k2 path]; [done|].
  change (last (k :: k2 :: path)) with (last (k2 :: path)).
  by destruct (last (k2 :: path)).
Qed.

Lemma split_path_Ok path : path <> [] -> exists parent key, split_path path = Ok (parent, key).
Proof.
  intros Hp. unfold split_path. destruct path as [|key parent _] using rev_ind; [done|].
  rewrite last_snoc. eauto.
Qed.

Section below.
Context (k : string) (m : list (string * json)).

(** The root whose child under [k] is [c]. *)
Definition above (c : json) : json := JObject (obj_insert k c m).

Lemma above_id c : obj_get k m = Some c -> above c = JObject m.
Proof. intros. unfold above. by rewrite obj_insert_id. Qed.

Lemma object_at_path_above c path :
  object_at_path (above c) (k :: path) = object_at_path c path.
Proof. simpl. by rewrite obj_get_insert, String.eqb_refl. Qed.

Lemma object_at_path_mut_above {A} c path (f : _ -> _ * A) :
  object_at_path_mut (above c) (k :: path) f =
    '(c', a) ← object_at_path_mut c path f; Some (above c', a).
Proof.
  simpl. rewrite obj_get_insert, String.eqb_refl. simpl.
  destruct (object_at_path_mut c path f) as [[c' a]|]; simpl; [|done].
  unfold above. by rewrite obj_insert_insert.
Qed.

Lemma remove_at_path_above c path :
  path <> [] ->
  remove_at_path (above c) (k :: path) =
    let '(c', r) := remove_at_path c path in (above c', r).
Proof.
  intros Hp. unfold remove_at_path. rewrite split_path_cons by done.
  destruct (split_path_Ok path Hp) as (parent & key & ->).
  rewrite object_at_path_mut_above.
  by destruct (object_at_path_mut _ _ _) as [[? []]|].
Qed.

Lemma set_at_path_above c path value :
  path <> [] ->
  set_at_path (above (JObject c)) (k :: path) value =
    let '(c', r) := set_at_path (JObject c) path value in (above c', r).
Proof.
  intros Hp. unfold set_at_path. rewrite split_path_cons by done.
  destruct (split_path_Ok path Hp) as (parent & key & ->). simpl.
  rewrite obj_get_insert, String.eqb_refl. simpl.
  destruct (set_below c parent key value) as [c' r].
  unfold above. by rewrite obj_insert_insert.
Qed.

(** [lifted ws s t]: [t] is the root above the state [s] of the child, with as many
    warnings after [ws]. *)
Definition lifted (ws : list string) (s t : state) : Prop :=
  (exists c, s.1 = JObject c) /\ t.1 = above s.1 /\
  exists ws', t.2 = ws ++ ws' /\ length ws' = length s.2.

Lemma lifted_warn {A} ws0 what (r : json * result A string) ws ws' path :
  (exists c, r.1 = JObject c) -> (exists ws1, ws' = ws0 ++ ws1 /\ length ws1 = length ws) ->
  lifted ws0 (warn what path ws r)
    (warn what (k :: path) ws' (let '(c, x) := r in (above c, x))).
Proof.
  destruct r as [root []]; simpl; intros ? (ws1 & -> & Hl); split_and!; simpl; eauto.
  rewrite <- app_assoc. eexists; split; [done|]. rewrite !length_app. simpl. lia.
Qed.
End below.

(** An object stays an object. *)
Lemma object_at_path_mut_object {A} m path (f : _ -> _ * A) c a :
  object_at_path_mut (JObject m) path f = Some (c, a) -> exists m', c = JObject m'.
Proof.
  destruct path; simpl; [destruct (f m); naive_solver|].
  intros (? & _ & ([] & _ & ?)%bind_Some)%bind_Some. naive_solver.
Qed.

Lemma remove_at_path_object m path : exists m', (remove_at_path (JObject m) path).1 = JObject m'.
Proof.
  unfold remove_at_path. destruct (split_path path) as [[parent key]|]; [|by exists m].
  destruct (object_at_path_mut _ _ _) as [[c a]|] eqn:E; [|by exists m].
  by eapply object_at_path_mut_object.
Qed.

Lemma set_at_path_object m path v : exists m', (set_at_path (JObject m) path v).1 = JObject m'.
Proof.
  unfold set_at_path. destruct (split_path path) as [[parent key]|]; [|by exists m].
  simpl. destruct (set_below m parent key v) as [m' r]. by exists m'.
Qed.

#[local] Hint Resolve remove_at_path_object set_at_path_object : kyris.

Lemma warn_state {A} what path ws (r : json * result A string) : (warn what path ws r).1 = r.1.
Proof. by destruct r as [? []]. Qed.

(** The two branches of [unapply_add]. *)
Definition unapply_children (s : state) path (am : list (string * json)) : state :=
  foldl (fun s p => unapply_add s (child_path path p.1) p.2) s am.

Lemma unapply_add_leaf s path v :
  path <> [] -> as_object v = None ->
  unapply_add s path v = warn "remove at " path s.2 (remove_at_path s.1 path).
Proof. destruct path, v; done. Qed.

Lemma unapply_add_object s path am :
  path <> [] ->
  unapply_add s path (JObject am) =
    let '(root, ws) := unapply_children s path am in
    match object_at_path root path with
    | Some [] => warn "cleanup empty object at " path ws (remove_at_path root path)
    | _ => (root, ws)
    end.
Proof. by destruct path. Qed.

Lemma child_path_nonempty path key : child_path path key <> [].
Proof. by destruct path. Qed.
#[local] Hint Resolve child_path_nonempty : kyris.

Lemma unapply_add_above k m ws0 s t path value :
  path <> [] -> lifted k m ws0 s t ->
  lifted k m ws0 (unapply_add s path value) (unapply_add t (k :: path) value).
Proof.
  revert s t path. induction value as [|x|x|x|x|l _|am IH] using json_ind; intros s t p Hp Hst;
    pose proof Hst as ([c Hc] & Ht & Hw);
    try (rewrite !unapply_add_leaf, Ht, Hc, remove_at_path_above by done;
         apply lifted_warn; [eauto with kyris|done]).
  rewrite !unapply_add_object by done.
  assert (lifted k m ws0 (unapply_children s p am) (unapply_children t (k :: p) am)) as Hfold.
  { clear Hc Ht Hw c. unfold unapply_children. revert s t Hst.
    induction IH as [|[key v] am Hv _ IHam]; intros s t Hst; simpl; [done|].
    apply IHam, Hv; [apply child_path_nonempty|done]. }
  destruct (unapply_children s p am) as [root ws], (unapply_children t (k :: p) am) as [root' ws'].
  destruct Hfold as ([c' Hc'] & Ht' & Hw'). simpl in Hc', Ht', Hw'. subst root root'.
  rewrite object_at_path_above, remove_at_path_above by done.
  destruct (object_at_path (JObject c') p) as [[|]|];
    [apply lifted_warn; [eauto with kyris|done]|by split_and!; simpl; eauto..].
Qed.

Lemma unapply_op_above k m ws0 s t op :
  op_path op <> [] -> lifted k m ws0 s t ->
  lifted k m ws0 (unapply_op s op) (unapply_op t (prefix_op k op)).
Proof.
  intros Hp Hst. destruct op as [path v|path v|path v]; simpl in *;
    [by apply unapply_add_above|..];
    destruct Hst as ([c Hc] & Ht & Hw); rewrite Ht, Hc, set_at_path_above by done;
    (apply lifted_warn; [eauto with kyris|done]).
Qed.

Lemma unapply_op_object op m ws : exists m', (unapply_op (JObject m, ws) op).1 = JObject m'.
Proof.
  assert (forall s path v, (exists m0, s.1 = JObject m0) ->
    exists m', (unapply_add s path v).1 = JObject m') as Hadd.
  { intros s path v. revert s path.
    induction v as [|x|x|x|x|l _|am IH] using json_ind; intros s path [m0 Hs];
      (destruct (decide (path = [])) as [->|Hp]; [by exists m0|]);
      try (rewrite unapply_add_leaf, warn_state, Hs by done; eauto with kyris).
    rewrite unapply_add_object by done.
    assert (exists m1, (unapply_children s path am).1 = JObject m1) as [m1 Hm1].
    { unfold unapply_children. revert s m0 Hs.
      induction IH as [|x am Hx _ IHam]; intros s m0 Hs; simpl; [eauto|].
      destruct (Hx s (child_path path x.1)) as [m1 Hm1]; eauto. }
    destruct (unapply_children s path am) as [root ws']. simpl in Hm1. subst root.
    destruct (object_at_path _ path) as [[|]|]; [rewrite warn_state|..]; eauto with kyris. }
  destruct op; simpl; [eauto|rewrite warn_state..]; eauto with kyris.
Qed.

Definition run (s : state) (ops : list JsonOp) : state := foldl unapply_op s ops.

Lemma run_app s ops ops' : run s (ops ++ ops') = run (run s ops) ops'.
Proof. apply foldl_app. Qed.

(** Taking back prefixed operations is taking them back in the child. *)
Lemma run_above k m c c' ops ws :
  Forall (fun op => op_path op <> []) ops ->
  obj_get k m = Some (JObject c) ->
  run (JObject c, []) ops = (c', []) ->
  run (JObject m, ws) (prefix_op k <$> ops) = (JObject (obj_insert k c' m), ws).
Proof.
  intros Hops Hk Hrun.
  assert (lifted k m ws (c', []) (run (JObject m, ws) (prefix_op k <$> ops)))
    as (_ & Hr & ws' & Hw & Hl).
  { rewrite <- Hrun. assert (lifted k m ws (JObject c, []) (JObject m, ws)) as Hst.
    { split_and!; simpl; [eauto|by rewrite above_id|exists []; by rewrite app_nil_r]. }
    clear Hrun Hk. revert Hst. generalize (JObject c, [] : list string) (JObject m, ws).
    induction Hops as [|op ops Hop _ IH]; intros s t Hst; simpl; [done|].
    by apply IH, unapply_op_above. }
  apply nil_length_inv in Hl as ->. rewrite app_nil_r in Hw.
  by apply injective_projections.
Qed.

(** [unapply_add] of an added value that is still as it was added removes exactly
    its key. *)
Lemma unapply_add_removes k v m ws :
  wf v = true -> NoDup m.*1 -> obj_get k m = Some v ->
  unapply_add (JObject m, ws) [k] v = (JObject (obj_swap_remove k m), ws).
Proof.
  revert k m ws. induction v as [|x|x|x|x|l _|am IH] using json_ind; intros k m ws Hwf Hm Hk;
    try by rewrite unapply_add_leaf.
  rewrite unapply_add_object by done.
  apply wf_object in Hwf as [Hnd Hwf].
  assert (forall c, am ≡ₚ c ->
    unapply_children (JObject (obj_insert k (JObject c) m), ws) [k] am =
      (JObject (obj_insert k (JObject []) m), ws)) as Hfold.
  { clear Hk. induction IH as [|[key v] am Hv _ IHam]; intros c Hc.
    { by apply Permutation_nil_l in Hc as <-. }
    apply Forall_cons in Hwf as [Hwv Hwf]. assert (NoDup c.*1) as Hndc by by rewrite <- Hc.
    apply NoDup_cons in Hnd as [_ Hnd].
    unfold unapply_children. cbn [foldl fst snd].
    pose proof (run_above k (obj_insert k (JObject c) m) c
      (JObject (obj_swap_remove key c)) [Add [key] v] ws) as Hr.
    cbn [run foldl fmap list_fmap unapply_op prefix_op] in Hr.
    unfold child_path. cbn [app]. rewrite Hr;
      [|by repeat constructor|by rewrite obj_get_insert, String.eqb_refl|].
    - rewrite obj_insert_insert. apply IHam; [done..|].
      rewrite obj_swap_remove_perm. symmetry. by eapply obj_remove_perm.
    - apply Hv; [done..|]. apply elem_obj_get; [done|]. rewrite <- Hc. set_solver. }
  rewrite <- (obj_insert_id k (JObject am) m) at 1 by done.
  rewrite Hfold by done.
  simpl. rewrite obj_get_insert, String.eqb_refl. simpl.
  unfold remove_at_path. simpl. rewrite obj_swap_remove_insert by congruence. done.
Qed.

(** ** Keys stay distinct *)

Lemma object_at_path_mut_wf {A} root path (f : _ -> _ * A) root' a :
  (forall m, wf (JObject m) = true -> wf (JObject (f m).1) = true) ->
  object_at_path_mut root path f = Some (root', a) -> wf root = true -> wf root' = true.
Proof.
  intros Hf. revert root root'. induction path as [|seg path IH]; intros root root' E Hw;
    simpl in E; apply bind_Some in E as (m & Hm & E);
    assert (root = JObject m) as -> by (destruct root; naive_solver).
  - specialize (Hf m Hw). destruct (f m). by simplify_eq/=.
  - apply bind_Some in E as (c & Hc & E). apply bind_Some in E as ([c' a'] & E' & [= <- <-]).
    apply wf_insert; [done|]. eapply IH; [done|]. by eapply wf_get.
Qed.

Lemma remove_at_path_wf root path : wf root = true -> wf (remove_at_path root path).1 = true.
Proof.
  intros Hw. unfold remove_at_path. destruct (split_path path) as [[parent key]|]; [|done].
  destruct (object_at_path_mut _ _ _) as [[c a]|] eqn:E; [|done].
  eapply object_at_path_mut_wf; [|done..]. intros. by apply wf_swap_remove.
Qed.

Lemma set_at_path_wf root path v :
  wf root = true -> wf v = true -> wf (set_at_path root path v).1 = true.
Proof.
  intros Hw Hv. unfold set_at_path. destruct (split_path path) as [[parent key]|]; [|done].
  destruct root as [| | | | | |m]; try done. simpl.
  assert (wf (JObject (set_below m parent key v).1) = true) as Hs;
    [|by destruct (set_below m parent key v)].
  revert m Hw. induction parent as [|seg parent IH]; intros m Hw; simpl; [by apply wf_insert|].
  assert (wf (default (JObject []) (obj_get seg m)) = true) as He
    by (destruct (obj_get seg m) eqn:E; [by eapply wf_get|done]).
  destruct (default _ _) as [| | | | | |c]; simpl; try by apply wf_insert.
  specialize (IH c He). destruct (set_below c parent key v). by apply wf_insert.
Qed.

Lemma unapply_add_wf s path v : wf s.1 = true -> wf (unapply_add s path v).1 = true.
Proof.
  revert s path. induction v as [|x|x|x|x|l _|am IH] using json_ind; intros s path Hw;
    (destruct (decide (path = [])) as [->|Hp]; [done|]);
    try (rewrite unapply_add_leaf, warn_state by done; by apply remove_at_path_wf).
  rewrite unapply_add_object by done.
  assert (wf (unapply_children s path am).1 = true) as Hc.
  { unfold unapply_children. revert s Hw. induction IH; intros; simpl; auto. }
  destruct (unapply_children s path am) as [root ws]. simpl in Hc.
  destruct (object_at_path root path) as [[|]|]; try done.
  rewrite warn_state. by apply remove_at_path_wf.
Qed.

Definition op_wf (op : JsonOp) : bool :=
  match op with Add _ _ => true | Replace _ old | Remove _ old => wf old end.

Lemma run_wf ops s :
  Forall (fun op => op_wf op = true) ops -> wf s.1 = true -> wf (run s ops).1 = true.
Proof.
  intros Hops. revert s. induction Hops as [|op ops Hop _ IH]; intros s Hw; simpl; [done|].
  apply IH. destruct op; simpl in *; [by apply unapply_add_wf|rewrite warn_state..];
    by apply set_at_path_wf.
Qed.

(** ** One key at a time *)

Section keys.
Context `{FloatEq}.

(** [acts k ops src tgt]: on an object that has [src] under [k], [ops] put the
    equal of [tgt] there, leave the other keys alone and do not warn. *)
Definition acts (k : string) (ops : list JsonOp) (src tgt : option json) : Prop :=
  forall m ws, NoDup m.*1 -> obj_get k m = src ->
  exists m', run (JObject m, ws) ops = (JObject m', ws) /\ NoDup m'.*1 /\
    option_Forall2 jeq (obj_get k m') tgt /\
    forall k', k' <> k -> obj_get k' m' = obj_get k' m.

Lemma acts_sequence (B : string -> list JsonOp) (src tgt : string -> option json) ks m ws :
  NoDup ks -> (forall k, k ∈ ks -> acts k (B k) (src k) (tgt k)) ->
  NoDup m.*1 -> (forall k, k ∈ ks -> obj_get k m = src k) ->
  exists m', run (JObject m, ws) (concat (B <$> ks)) = (JObject m', ws) /\
    (forall k, k ∈ ks -> option_Forall2 jeq (obj_get k m') (tgt k)) /\
    (forall k, k ∉ ks -> obj_get k m' = obj_get k m).
Proof.
  revert m. induction ks as [|k ks IH]; intros m Hks HB Hm Hsrc.
  { exists m. split_and!; [done|set_solver|done]. }
  apply NoDup_cons in Hks as [Hk Hks].
  destruct (HB k ltac:(set_solver) m ws) as (m1 & Hr1 & Hm1 & Ht1 & Hf1); [done|set_solver|].
  destruct (IH m1) as (m2 & Hr2 & Ht2 & Hf2); [done|set_solver|done| |].
  { intros k' Hk'. rewrite Hf1 by set_solver. apply Hsrc. set_solver. }
  exists m2. rewrite fmap_cons, concat_cons, run_app, Hr1, Hr2. split_and!; [done|..].
  - intros k' [->|Hk']%elem_of_cons; [by rewrite Hf2|by apply Ht2].
  - intros k' [Hne Hk']%not_elem_of_cons. rewrite Hf2, Hf1 by done. done.
Qed.

Lemma acts_nothing k v v' : v ≡ v' -> acts k [] (Some v) (Some v').
Proof.
  intros Hv m ws Hm Hk. exists m. split_and!; try done. rewrite Hk. by constructor.
Qed.

Lemma acts_set k src old op :
  op = Replace [k] old \/ op = Remove [k] old -> acts k [op] src (Some old).
Proof.
  intros Hop m ws Hm _. exists (obj_insert k old m). split_and!.
  - by destruct Hop as [-> | ->].
  - by apply obj_insert_NoDup.
  - rewrite obj_get_insert, String.eqb_refl. by constructor.
  - intros k' Hk'. rewrite obj_get_insert. by destruct (String.eqb_spec k' k).
Qed.

Lemma acts_add k v : wf v = true -> acts k [Add [k] v] (Some v) None.
Proof.
  intros Hv m ws Hm Hk. exists (obj_swap_remove k m). split_and!.
  - by apply unapply_add_removes.
  - by apply obj_swap_remove_NoDup.
  - rewrite obj_get_swap_remove, String.eqb_refl by done. constructor.
  - intros k' Hk'. rewrite obj_get_swap_remove by done. by destruct (String.eqb_spec k' k).
Qed.

Lemma acts_below k c c' ops old :
  Forall (fun op => op_path op <> []) ops ->
  run (JObject c, []) ops = (c', []) -> c' ≡ old ->
  acts k (prefix_op k <$> ops) (Some (JObject c)) (Some old).
Proof.
  intros Hops Hr Ho m ws Hm Hk. exists (obj_insert k c' m). split_and!.
  - by eapply run_above.
  - by apply obj_insert_NoDup.
  - rewrite obj_get_insert, String.eqb_refl. by constructor.
  - intros k' Hk'. rewrite obj_get_insert. by destruct (String.eqb_spec k' k).
Qed.

(** ** The difference, key by key *)

Lemma diff_recursive_prefix k prefix old new :
  diff_recursive (k :: prefix) old new = prefix_op k <$> diff_recursive prefix old new.
Proof.
  revert prefix old. induction new as [|x|x|x|x|l _|nm IH] using json_ind; intros prefix old;
    try (destruct old; cbn -[json_eqb]; by case_match).
  destruct old as [| | | | | |om]; try (cbn -[json_eqb]; by case_match).
  cbn [diff_recursive]. rewrite fmap_app, !fmap_flat_map. f_equal; apply flat_map_ext_Forall.
  - eapply Forall_impl; [done|]. intros [k' v] Hv. cbn [fst snd] in *.
    repeat case_match; try done. apply Hv.
  - apply Forall_forall. intros [k' v] _. cbn [fst snd]. by case_match.
Qed.

(** The operations recorded for one key. *)
Definition block (om nm : list (string * json)) (k : string) : list JsonOp :=
  match obj_get k nm, obj_get k om with
  | Some v, Some v0 => if json_eqb v0 v then [] else diff_recursive [k] v0 v
  | Some v, None => [Add [k] v]
  | None, Some v0 => [Remove [k] v0]
  | None, None => []
  end.

Lemma diff_blocks om nm :
  NoDup om.*1 -> NoDup nm.*1 ->
  diff (JObject om) (JObject nm) =
    flat_map (block om nm) (nm.*1 ++ filter (fun k => k ∉ nm.*1) om.*1).
Proof.
  intros Hom Hnm. unfold diff. cbn [diff_recursive].
  rewrite flat_map_app. f_equal.
  - rewrite flat_map_fmap. apply flat_map_ext_Forall, Forall_forall. intros [k v] Hin.
    unfold block. cbn [fst snd]. rewrite (elem_obj_get _ _ _ Hnm Hin). done.
  - assert (forall l, (forall k v, (k, v) ∈ l -> obj_get k om = Some v) ->
      flat_map (fun p : string * json =>
        match obj_get p.1 nm with Some _ => [] | None => [Remove (child_path [] p.1) p.2] end) l =
      flat_map (block om nm) (filter (fun k => k ∉ nm.*1) l.*1)) as Hl.
    { induction l as [|[k v] l IH]; intros Hl; simpl; [done|]. rewrite filter_cons.
      rewrite IH by set_solver. case_decide as Hk.
      - simpl. unfold block at 2. rewrite (Hl k v) by set_solver.
        by apply obj_get_None in Hk as ->.
      - destruct (obj_get k nm) eqn:E; [done|]. by apply obj_get_None in E. }
    apply Hl. intros k v. by apply elem_obj_get.
Qed.

Lemma diff_op_wf prefix old new :
  wf old = true -> wf new = true ->
  Forall (fun op => op_wf op = true) (diff_recursive prefix old new).
Proof.
  revert prefix old. induction new as [|x|x|x|x|l _|nm IH] using json_ind; intros prefix old Ho Hn;
    try (destruct old; cbn -[json_eqb wf] in *; case_match; by repeat constructor).
  destruct old as [| | | | | |om]; try (cbn -[json_eqb wf]; case_match; by repeat constructor).
  cbn [diff_recursive]. apply Forall_app. split; apply Forall_flat_map_intro.
  - apply wf_object in Hn as [_ Hn]. rewrite Forall_forall in IH, Hn |- *.
    intros [k v] Hin. cbn [fst snd]. repeat case_match; try by repeat constructor.
    eapply (IH (k, v)); [done|by eapply wf_get|by apply (Hn (k, v))].
  - apply wf_object in Ho as [_ Ho]. rewrite Forall_forall in Ho |- *.
    intros [k v] Hin. case_match; repeat constructor. by apply (Ho (k, v)).
Qed.

Lemma diff_paths om nm :
  NoDup om.*1 -> NoDup nm.*1 ->
  Forall (fun op => op_path op <> []) (diff (JObject om) (JObject nm)).
Proof.
  intros Hom Hnm. rewrite diff_blocks by done. apply Forall_flat_map_intro, Forall_forall.
  intros k _. unfold block. repeat case_match; try by repeat constructor.
  rewrite diff_recursive_prefix. apply Forall_fmap, Forall_forall. by intros [].
Qed.

(** The reference: uninstalling right after installing. *)
Definition restores (old new : json) : Prop :=
  exists res, unapply new (diff old new) = (res, []) /\ res ≡ old.

Lemma acts_block om nm k :
  wf (JObject om) = true -> wf (JObject nm) = true ->
  (forall om' nm', obj_get k om = Some (JObject om') -> obj_get k nm = Some (JObject nm') ->
    restores (JObject om') (JObject nm')) ->
  acts k (rev (block om nm k)) (obj_get k nm) (obj_get k om).
Proof.
  intros Wo Wn IH. unfold block.
  destruct (obj_get k nm) as [v|] eqn:Ev, (obj_get k om) as [v0|] eqn:E0.
  - assert (wf v = true /\ wf v0 = true) as [Wv Wv0] by (split; eauto using wf_get).
    destruct (json_eqb v0 v) eqn:Heq.
    { apply acts_nothing. symmetry. by apply json_eqb_spec. }
    assert ((exists om' nm', v0 = JObject om' /\ v = JObject nm') \/
            diff_recursive [k] v0 v = [Replace [k] v0]) as [(om' & nm' & -> & ->)| ->].
    { destruct v0, v; try (right; cbn -[json_eqb]; by rewrite Heq). left. eauto. }
    + destruct (IH _ _ eq_refl eq_refl) as (res & Hr & Ho).
      rewrite diff_recursive_prefix.
      rewrite <- (map_rev (prefix_op k)). eapply acts_below; [|exact Hr|done].
      apply Forall_rev, diff_paths; by apply wf_object.
    + eapply acts_set. by left.
  - apply acts_add. by eapply wf_get.
  - eapply acts_set. by right.
  - intros m ws Hm Hk. exists m. split_and!; try done. rewrite Hk. constructor.
Qed.

Lemma restores_objects om nm :
  wf (JObject om) = true -> wf (JObject nm) = true -> restores (JObject om) (JObject nm).
Proof.
  intros Wo Wn. remember (JObject nm) as new eqn:En. revert nm om En Wo Wn.
  induction new as [|x|x|x|x|l _|nm' IH] using json_ind; intros nm om [= ->] Wo Wn.
  assert (NoDup om.*1 /\ NoDup nm.*1) as [Hom Hnm] by (split; by apply wf_object).
  unfold restores, unapply. fold (run (JObject nm, []) (rev (diff (JObject om) (JObject nm)))).
  rewrite diff_blocks by done. set (ks := nm.*1 ++ _).
  rewrite rev_flat_map.
  edestruct (acts_sequence (fun k => rev (block om nm k)) (fun k => obj_get k nm)
    (fun k => obj_get k om) (rev ks) nm []) as (res & Hr & Ht & Hf); [ | |done|done|].
  - rewrite <- Permutation_rev. subst ks. apply NoDup_app. split_and!; [done| |by apply NoDup_filter].
    intros k Hk [? _]%list_elem_of_filter. done.
  - intros k _. apply acts_block; [done..|]. intros om' nm' Eo En.
    rewrite Forall_forall in IH. eapply (IH (k, JObject nm')); eauto using wf_get, obj_get_elem.
  - exists (JObject res). split; [done|]. constructor. intros k.
    destruct (decide (k ∈ rev ks)) as [Hk|Hk]; [by apply Ht|].
    rewrite Hf by done. rewrite <- Permutation_rev in Hk. subst ks.
    apply not_elem_of_app in Hk as [Hn Ho]. rewrite list_elem_of_filter in Ho.
    rewrite (proj2 (obj_get_None k nm)), (proj2 (obj_get_None k om)) by naive_solver.
    constructor.
Qed.

Lemma diff_equal om nm :
  NoDup om.*1 -> NoDup nm.*1 -> json_eqb (JObject om) (JObject nm) = true ->
  diff (JObject om) (JObject nm) = [].
Proof.
  intros Hom Hnm E. rewrite diff_blocks by done. rewrite json_eqb_object in E by done.
  assert (forall ks, flat_map (block om nm) ks = []) as Hall; [|apply Hall].
  induction ks as [|k ks IH]; simpl; [done|]. rewrite IH, app_nil_r. unfold block.
  specialize (E k). repeat case_match; naive_solver.
Qed.

(** Only equal objects have nothing to record. *)
Lemma diff_nil om nm :
  wf (JObject om) = true -> wf (JObject nm) = true ->
  diff (JObject om) (JObject nm) = [] -> json_eqb (JObject om) (JObject nm) = true.
Proof.
  intros Wo Wn E. destruct (restores_objects om nm Wo Wn) as (res & Hr & He).
  rewrite E in Hr. injection Hr as <-. apply json_eqb_spec; [done..|].
  by symmetry.
Qed.

(** C7. Installing and then uninstalling gives the file back: for a configuration
    object [old] and whatever object [new] an install made of it, taking the
    recorded difference back from [new] makes no warning and leaves a value equal
    to [old], keys distinct as before. *)
Theorem unapply_diff om nm :
  wf (JObject om) = true -> wf (JObject nm) = true ->
  exists res, unapply (JObject nm) (diff (JObject om) (JObject nm)) = (res, []) /\
    wf res = true /\ json_eqb res (JObject om) = true.
Proof.
  intros Wo Wn. destruct (restores_objects om nm Wo Wn) as (res & Hr & He).
  assert (wf res = true) as Wr.
  { change res with ((res, [] : list string).1). rewrite <- Hr.
    apply (run_wf _ (JObject nm, [])); [by apply Forall_rev, diff_op_wf|done]. }
  exists res. split_and!; [done..|]. by apply json_eqb_spec.
Qed.

(** Where a side is not an object there is nothing to take back to: the
    difference is one replacement at the root, and undoing it only warns. *)
Theorem root_replacement_only_warns old new :
  as_object old = None \/ as_object new = None -> json_eqb old new = false ->
  unapply new (diff old new) = (new, ["replace at : path is empty"%string]).
Proof.
  intros Ho Hne. assert (diff old new = [Replace [] old]) as ->; [|done].
  unfold diff. destruct old, new; cbn -[json_eqb] in *; rewrite ?Hne; naive_solver.
Qed.
End keys.

(** ** Edits elsewhere *)

Fixpoint value_at (root : json) (path : list string) : option json :=
  match path with
  | [] => Some root
  | seg :: path => m ← as_object root; child ← obj_get seg m; value_at child path
  end.

Definition incomparable (p q : list string) : Prop := ~ p `prefix_of` q /\ ~ q `prefix_of` p.

(** The paths an operation is about: of an added object, its leaves. *)
Fixpoint leaves (path : list string) (v : json) : list (list string) :=
  match v with
  | JObject ((_ :: _) as am) => flat_map (fun p => leaves (child_path path p.1) p.2) am
  | _ => [path]
  end.

Definition touched (op : JsonOp) : list (list string) :=
  match op with Add path v => leaves path v | Replace path _ | Remove path _ => [path] end.

Lemma value_at_set m path v p :
  incomparable p path -> value_at (set_at_path (JObject m) path v).1 p = value_at (JObject m) p.
Proof.
  unfold set_at_path, split_path. intros [Hp Hq].
  destruct path as [|key parent _] using rev_ind; [done|]. rewrite last_snoc, removelast_last. simpl.
  assert (value_at (JObject (set_below m parent key v).1) p = value_at (JObject m) p) as Hs;
    [|by destruct (set_below m parent key v)].
  revert m p Hp Hq. induction parent as [|seg parent IH]; intros m [|s p] Hp Hq;
    try (by destruct Hp; apply prefix_nil).
  - simpl. rewrite obj_get_insert. destruct (String.eqb_spec s key) as [->|]; [|done].
    destruct Hq. by apply prefix_cons, prefix_nil.
  - cbn [set_below]. destruct (String.eqb_spec s seg) as [->|Hne].
    + assert (~ p `prefix_of` parent ++ [key] /\ ~ parent ++ [key] `prefix_of` p) as [Hp' Hq']
        by (split; intros ?; [destruct Hp|destruct Hq]; by apply prefix_cons).
      destruct (obj_get seg m) as [e|] eqn:E; simpl; [destruct e as [| | | | | |c]; simpl|];
        try (by rewrite obj_get_insert, String.eqb_refl, E);
        (specialize (IH c p Hp' Hq') || specialize (IH [] p Hp' Hq'));
        destruct (set_below _ parent key v) as [c' r]; simpl in *;
        rewrite obj_get_insert, String.eqb_refl, E; simpl; [done|].
      rewrite IH. destruct p; [|done]. by destruct Hp'; apply prefix_nil.
    + destruct (as_object _) as [c|]; [destruct (set_below c parent key v)|]; simpl;
        rewrite obj_get_insert; by destruct (String.eqb_spec s seg).
Qed.

Lemma object_at_path_value root path m :
  object_at_path root path = Some m -> value_at root path = Some (JObject m).
Proof.
  revert root. induction path as [|seg path IH]; intros [] E; try done; simpl in *;
    [by simplify_eq|]. apply bind_Some in E as (c & -> & E). simpl. by apply IH.
Qed.

Lemma value_at_app root p q : value_at root (p ++ q) = v ← value_at root p; value_at v q.
Proof.
  revert root. induction p as [|seg p IH]; intros root; simpl; [done|].
  destruct (as_object root) as [m|]; simpl; [|done]. by destruct (obj_get seg m); simpl.
Qed.

(** A value off the removed path stays. *)
Lemma value_at_remove root path p :
  wf root = true -> incomparable p path ->
  value_at (remove_at_path root path).1 p = value_at root p.
Proof.
  unfold remove_at_path, split_path. intros Hw [Hp Hq].
  destruct path as [|key parent _] using rev_ind; [done|]. rewrite last_snoc, removelast_last.
  destruct (object_at_path_mut _ _ _) as [[root' a]|] eqn:E; [|done]. simpl.
  revert root root' p Hw Hp Hq E. induction parent as [|seg parent IH];
    intros root root' [|s p] Hw Hp Hq E; try (by destruct Hp; apply prefix_nil);
    simpl in E; apply bind_Some in E as (m & Hm & E);
    assert (root = JObject m) as -> by (destruct root; naive_solver).
  - simplify_eq/=. rewrite obj_get_swap_remove by by apply wf_object.
    destruct (String.eqb_spec s key) as [->|]; [|done].
    destruct Hq. by apply prefix_cons, prefix_nil.
  - apply bind_Some in E as (c & Hc & E). apply bind_Some in E as ([c' a'] & E' & [= <- <-]).
    simpl. rewrite obj_get_insert. destruct (String.eqb_spec s seg) as [->|]; [|done].
    rewrite Hc. simpl. eapply IH; [by eapply wf_get| | |done];
      intros ?; [destruct Hp|destruct Hq]; by apply prefix_cons.
Qed.

(** The removal of an empty object takes nothing below it. *)
Lemma value_at_remove_empty root path s p :
  wf root = true -> object_at_path root path = Some [] ->
  value_at (remove_at_path root path).1 (path ++ s :: p) = value_at root (path ++ s :: p).
Proof.
  intros Hw Ho. rewrite (value_at_app root), (object_at_path_value _ _ _ Ho). simpl.
  unfold remove_at_path, split_path.
  destruct path as [|key parent _] using rev_ind.
  { simpl in Ho. destruct root as [| | | | | |[]]; naive_solver. }
  rewrite last_snoc, removelast_last.
  destruct (object_at_path_mut _ _ _) as [[root' a]|] eqn:E; simpl;
    [|by rewrite value_at_app, (object_at_path_value _ _ _ Ho)].
  revert root root' Hw Ho E. induction parent as [|seg parent IH]; intros root root' Hw Ho E;
    simpl in E, Ho; apply bind_Some in E as (m & Hm & E);
    assert (root = JObject m) as -> by (destruct root; naive_solver).
  - simplify_eq/=. by rewrite obj_get_swap_remove, String.eqb_refl by by apply wf_object.
  - apply bind_Some in E as (c & Hc & E). apply bind_Some in E as ([c' a'] & E' & [= <- <-]).
    simpl in *. rewrite Hc in Ho. simpl in Ho. rewrite obj_get_insert, String.eqb_refl. simpl.
    eapply IH; [by eapply wf_get|done..].
Qed.

Lemma leaves_below path v q : q ∈ leaves path v -> path `prefix_of` q.
Proof.
  revert path. induction v as [|x|x|x|x|l _|am IH] using json_ind; intros path; simpl;
    try (by intros ->%list_elem_of_singleton).
  destruct am as [|a am]; [by intros ->%list_elem_of_singleton|].
  rewrite list_elem_of_In, in_flat_map. intros (x & Hx%list_elem_of_In & Hq%list_elem_of_In).
  rewrite Forall_forall in IH. apply (IH x Hx) in Hq. unfold child_path in Hq.
  by eapply prefix_app_l.
Qed.

Lemma leaves_nonempty path v : exists q, q ∈ leaves path v.
Proof.
  revert path. induction v as [|x|x|x|x|l _|am IH] using json_ind; intros path; simpl;
    try (eexists; by apply list_elem_of_singleton).
  destruct IH as [|a am Ha _]; [eexists; by apply list_elem_of_singleton|].
  destruct (Ha (child_path path a.1)) as [q Hq]. exists q. simpl. set_solver.
Qed.

Lemma value_at_unapply_add s path v p :
  wf s.1 = true -> (forall q, q ∈ leaves path v -> incomparable p q) ->
  value_at (unapply_add s path v).1 p = value_at s.1 p.
Proof.
  revert s path. induction v as [|x|x|x|x|l _|am IH] using json_ind; intros s path Hw Hi;
    (destruct (decide (path = [])) as [->|Hne]; [done|]);
    try (rewrite unapply_add_leaf, warn_state by done;
         apply value_at_remove; [done|apply Hi; by apply list_elem_of_singleton]).
  rewrite unapply_add_object by done.
  destruct (leaves_nonempty path (JObject am)) as [q Hq].
  assert (value_at (unapply_children s path am).1 p = value_at s.1 p /\
          wf (unapply_children s path am).1 = true) as [<- Hc].
  { assert (forall x, x ∈ am -> forall q, q ∈ leaves (child_path path x.1) x.2 -> incomparable p q)
      as Hall.
    { intros x Hx q' Hq'. apply Hi. destruct am as [|a am]; [set_solver|].
      cbn [leaves]. rewrite list_elem_of_In, in_flat_map.
      exists x. by rewrite <- !list_elem_of_In. }
    clear Hi Hq. unfold unapply_children. revert s Hw.
    induction IH as [|x am Hx _ IHam]; intros s Hw; simpl; [done|].
    destruct (IHam ltac:(set_solver) (unapply_add s (child_path path x.1) x.2)) as [-> ?];
      [by apply unapply_add_wf|].
    split; [|done]. apply Hx; [done|]. apply Hall. set_solver. }
  destruct (unapply_children s path am) as [root ws]. simpl in Hc |- *.
  destruct (object_at_path root path) as [[|]|] eqn:Ho; try done. rewrite warn_state.
  apply Hi in Hq as Hpq. apply leaves_below in Hq.
  destruct (decide (path `prefix_of` p)) as [[r ->]|Hpp].
  - destruct r as [|s' r]; [|by apply value_at_remove_empty].
    destruct Hpq as [Hpq _]. destruct Hpq. by rewrite app_nil_r.
  - apply value_at_remove; [done|]. split; [|done]. intros Hx. apply (proj1 Hpq).
    exact (transitivity Hx Hq).
Qed.

(** Uninstalling survives the user's own edits: whatever the file holds by
    then, a value at a path that no recorded operation touches (neither above nor
    below a replaced, removed or added leaf) is the same afterwards. *)
Theorem unapply_keeps_other_edits m ops p :
  wf (JObject m) = true ->
  Forall (fun op => op_wf op = true) ops ->
  (forall op q, op ∈ ops -> q ∈ touched op -> incomparable p q) ->
  value_at (unapply (JObject m) ops).1 p = value_at (JObject m) p.
Proof.
  intros Hw Hops Hi. unfold unapply.
  assert (forall op q, op ∈ rev ops -> q ∈ touched op -> incomparable p q) as Hi'
    by (intros op q; rewrite <- Permutation_rev; apply Hi).
  apply Forall_rev in Hops. revert Hops Hi'. generalize (rev ops) ([] : list string) m Hw.
  clear. intros ops ws m Hw Hops. revert m ws Hw.
  induction Hops as [|op ops Hop _ IH]; intros m ws Hw Hi; simpl; [done|].
  destruct (unapply_op_object op m ws) as [m' E].
  destruct (unapply_op (JObject m, ws) op) as [r ws'] eqn:Er. simpl in E. subst r.
  assert (wf (JObject m') = true) as Hw'.
  { change (JObject m') with ((JObject m', ws').1). rewrite <- Er.
    apply (run_wf [op] (JObject m, ws)); [by constructor|done]. }
  rewrite IH; [|done|intros; eapply Hi; [by right|done]].
  change (JObject m') with ((JObject m', ws').1). rewrite <- Er.
  assert (forall q, q ∈ touched op -> incomparable p q) as Ht
    by (intros q; apply Hi; by left).
  destruct op as [path v|path v|path v]; simpl in *;
    [by apply (value_at_unapply_add (JObject m, ws))|rewrite warn_state..];
    apply value_at_set, Ht; by apply list_elem_of_singleton.
Qed.

(** ** Witnesses *)

#[local] Existing Instance printed_floats.

Definition sample_old : list (string * json) :=
  [("model"%string, JString "opus"); ("env"%string, JObject [("A"%string, JNumber 1)]);
   ("theme"%string, JString "dark")].

Definition sample_new : list (string * json) :=
  [("model"%string, JString "opus");
   ("env"%string, JObject [("A"%string, JNumber 2); ("URL"%string, JString "http://127.0.0.1")]);
   ("hooks"%string, JObject [("PreToolUse"%string, JArray [JString "kyris"])])].

Lemma unapply_diff_witness :
  exists res, unapply (JObject sample_new) (diff (JObject sample_old) (JObject sample_new)) = (res, []) /\
    wf res = true /\ json_eqb res (JObject sample_old) = true.
Proof. apply unapply_diff; vm_compute; reflexivity. Defined.

Lemma root_replacement_only_warns_witness :
  unapply (JObject sample_new) (diff JNull (JObject sample_new)) =
    (JObject sample_new, ["replace at : path is empty"%string]).
Proof. apply root_replacement_only_warns; [by left|vm_compute; reflexivity]. Defined.

(** The user adds a hook of their own next to the one setup added. *)
Definition sample_edited : list (string * json) :=
  [("hooks"%string, JObject [("PreToolUse"%string, JArray [JString "kyris"]);
                             ("Stop"%string, JString "mine")])].

Lemma unapply_keeps_other_edits_witness :
  value_at (unapply (JObject sample_edited) [Add ["hooks"%string] (JObject [("PreToolUse"%string, JArray [])])]).1
    ["hooks"; "Stop"]%string = Some (JString "mine").
Proof.
  rewrite unapply_keeps_other_edits; [reflexivity|vm_compute; reflexivity|by repeat constructor|].
  intros op q ->%list_elem_of_singleton ->%list_elem_of_singleton.
  split; intros [r Hr]; discriminate.
Defined.

End JsonPatch.
