(* ===== verification/JsonEdit.v ===== *)
(** * The edits setup makes to JSON configuration

    [cli/src/integration.rs] and [apply_governed_permissions] of
    [cli/src/agents/engine.rs]: functions on a parsed configuration that say
    whether they changed it. *)

From S2P Require Import Prelude Text Json JsonPatch.

Module JsonEdit.
Import JsonPatch.

Definition as_json_object (value : json) : list (string * json) := default [] (as_object value).

Definition as_json_array (value : json) : list json := default [] (as_array value).

(** [object.entry(key).or_insert_with(..)]: the value there, or the new one. *)
Definition entry_or (key : string) (new : json) (object : list (string * json)) : json :=
  default new (obj_get key object).

(** ** Values by path *)

Section paths.
Context `{FloatEq}.

(** The walk of a cursor down to the parent of the last key, creating objects; the
    edit of the parent is [leaf_edit]. *)
Fixpoint set_json_value_path (root : json) (path : list string) (value : json) : json * bool :=
  match path with
  | [] => (root, false)
  | key :: rest =>
      let object := as_json_object root in
      match rest with
      | [] =>
          if match obj_get key object with Some v => json_eqb v value | None => false end
          then (JObject object, false)
          else (JObject (obj_insert key value object), true)
      | _ =>
          let '(child, changed) :=
            set_json_value_path (entry_or key (JObject []) object) rest value in
          (JObject (obj_insert key child object), changed)
      end
  end.
End paths.

Fixpoint set_json_string_path (root : json) (path : list string) (value : string) : json * bool :=
  match path with
  | [] => (root, false)
  | key :: rest =>
      let object := as_json_object root in
      match rest with
      | [] =>
          if bool_decide ((v ← obj_get key object; as_str v) = Some value)
          then (JObject object, false)
          else (JObject (obj_insert key (JString value) object), true)
      | _ =>
          let '(child, changed) :=
            set_json_string_path (entry_or key (JObject []) object) rest value in
          (JObject (obj_insert key child object), changed)
      end
  end.

Fixpoint ensure_json_array_contains (root : json) (path : list string) (value : string)
    : json * bool :=
  match path with
  | [] => (root, false)
  | key :: rest =>
      let object := as_json_object root in
      match rest with
      | [] =>
          let array := entry_or key (JArray []) object in
          match as_array array with
          | None => (JObject (obj_insert key array object), false)
          | Some items =>
              if existsb (fun v => bool_decide (as_str v = Some value)) items
              then (JObject (obj_insert key array object), false)
              else (JObject (obj_insert key (JArray (items ++ [JString value])) object), true)
          end
      | _ =>
          let '(child, changed) :=
            ensure_json_array_contains (entry_or key (JObject []) object) rest value in
          (JObject (obj_insert key child object), changed)
      end
  end.

Fixpoint remove_json_string_if (root : json) (path : list string) (pred : string -> bool)
    : json * bool :=
  match path with
  | [] => (root, false)
  | key :: rest =>
      match rest with
      | [] =>
          match root with
          | JObject object =>
              match obj_get key object ≫= as_str with
              | Some s =>
                  if pred s then (JObject (obj_swap_remove key object), true) else (root, false)
              | None => (root, false)
              end
          | _ => (root, false)
          end
      | _ =>
          match root with
          | JObject object =>
              match obj_get key object with
              | Some next =>
                  let '(next', removed) := remove_json_string_if next rest pred in
                  (JObject (obj_insert key next' object), removed)
              | None => (root, false)
              end
          | _ => (root, false)
          end
      end
  end.

Definition KYRIS_KEY_PREFIX : string := "sk-kyris-".

Definition is_kyris_key (s : string) : bool := str_starts_with KYRIS_KEY_PREFIX s.

(** ** Command hooks *)

Definition entry_has_command (entry : json) (command : string) : bool :=
  bool_decide (get "type" entry ≫= as_str = Some "command"%string)
    && bool_decide (get "command" entry ≫= as_str = Some command)
  || match get "hooks" entry ≫= as_array with
     | Some nested =>
         existsb (fun hook =>
           bool_decide (get "type" hook ≫= as_str = Some "command"%string)
             && bool_decide (get "command" hook ≫= as_str = Some command)) nested
     | None => false
     end.

Definition entry_has_command_substr (entry : json) (substr : string) : bool :=
  let has v := match get "command" v ≫= as_str with
               | Some cmd => contains (lit substr) (lit cmd)
               | None => false
               end in
  has entry
  || match get "hooks" entry ≫= as_array with
     | Some nested => existsb has nested
     | None => false
     end.

(** [handler["timeout"] = json!(t)], on a handler that is an object. *)
Definition set_timeout (t : Z) (handler : json) : json :=
  JObject (obj_insert "timeout" (JNumber t) (as_json_object handler)).

(** [iter_mut().find(..)] with an edit of what it finds: the new list, and whether
    the edit changed anything. *)
Fixpoint find_mut (p : json -> bool) (f : json -> json * bool) (l : list json)
    : option (list json * bool) :=
  match l with
  | [] => None
  | x :: l =>
      if p x then let '(x', b) := f x in Some (x' :: l, b)
      else '(l', b) ← find_mut p f l; Some (x :: l', b)
  end.

Definition reconcile_timeout (t : Z) (handler : json) : json * bool :=
  if bool_decide (get "timeout" handler ≫= as_i64 = Some t)
  then (handler, false) else (set_timeout t handler, true).

(** The registered entry: its handler gets the timeout. *)
Definition reconcile_existing (command : string) (nested : bool) (timeout : option Z)
    (existing : json) : json * bool :=
  match timeout with
  | None => (existing, false)
  | Some t =>
      if nested then
        match get "hooks" existing ≫= as_array with
        | Some handlers =>
            match find_mut (fun h => bool_decide (get "command" h ≫= as_str = Some command))
                    (reconcile_timeout t) handlers with
            | Some (handlers', b) =>
                (JObject (obj_insert "hooks" (JArray handlers') (as_json_object existing)), b)
            | None => (existing, false)
            end
        | None => (existing, false)
        end
      else reconcile_timeout t existing
  end.

Definition new_entry (command : string) (nested : bool) (timeout : option Z) : json :=
  let inner :=
    JObject (("type"%string, JString "command") :: ("command"%string, JString command)
             :: match timeout with Some t => [("timeout"%string, JNumber t)] | None => [] end) in
  if nested
  then JObject [("matcher"%string, JString ""); ("hooks"%string, JArray [inner])]
  else inner.

Definition ensure_json_command_hook (root : json) (phase command : string) (nested : bool)
    (timeout : option Z) : json * bool :=
  let object := as_json_object root in
  let hooks_object := as_json_object (entry_or "hooks" (JObject []) object) in
  let hooks_array := as_json_array (entry_or phase (JArray []) hooks_object) in
  let rebuild array :=
    JObject (obj_insert "hooks" (JObject (obj_insert phase (JArray array) hooks_object)) object) in
  match find_mut (fun entry => entry_has_command entry command)
          (reconcile_existing command nested timeout) hooks_array with
  | Some (array, changed) => (rebuild array, changed)
  | None => (rebuild (hooks_array ++ [new_entry command nested timeout]), true)
  end.

Definition remove_json_command_hook (root : json) (phase command_substr : string) : json * bool :=
  match root with
  | JObject object =>
      match obj_get "hooks" object with
      | Some (JObject hooks) =>
          match obj_get phase hooks with
          | Some (JArray phase_hooks) =>
              let kept := List.filter (fun entry =>
                negb (entry_has_command_substr entry command_substr)) phase_hooks in
              (JObject (obj_insert "hooks" (JObject (obj_insert phase (JArray kept) hooks)) object),
               negb (Nat.eqb (length kept) (length phase_hooks)))
          | _ => (root, false)
          end
      | _ => (root, false)
      end
  | _ => (root, false)
  end.

(** ** Governed permissions *)

Definition GOVERNED : list string := ["bash"; "edit"; "write"]%string.

Definition governed_base (config : json) : list (string * json) :=
  match get "permission" config with
  | Some (JObject m) =>
      if Nat.eqb (length m) 1 && bool_decide (obj_get "*" m ≫= as_str = Some "allow"%string)
      then [] else m
  | Some (JString s) => if String.eqb s "allow" then [] else [("*"%string, JString s)]
  | _ => []
  end.

Definition apply_governed_permissions `{FloatEq} (config : json) : json * bool :=
  let perm := foldl (fun m tool => obj_insert tool (JString "allow") m) (governed_base config) GOVERNED in
  set_json_value_path config ["permission"%string] (JObject perm).

(** ** Lemmas *)

Lemma find_mut_idempotent p f l l' b :
  (forall x, p x = true -> p (f x).1 = true) ->
  (forall x, p x = true -> f (f x).1 = ((f x).1, false)) ->
  find_mut p f l = Some (l', b) -> find_mut p f l' = Some (l', false).
Proof.
  intros Hp Hf. revert l' b. induction l as [|x l IH]; intros l' b E; simpl in E; [done|].
  destruct (p x) eqn:Ex.
  - specialize (Hp x Ex). specialize (Hf x Ex). destruct (f x) as [x' b']. simplify_eq/=.
    by rewrite Hp, Hf.
  - apply bind_Some in E as ([l1 b1] & E & [= <- <-]). simpl. rewrite Ex.
    by rewrite (IH _ _ E).
Qed.

Lemma find_mut_app_none p f l x :
  find_mut p f l = None ->
  find_mut p f (l ++ [x]) = if p x then let '(x', b) := f x in Some (l ++ [x'], b) else None.
Proof.
  induction l as [|y l IH]; simpl; intros E; [destruct (p x), (f x); done|].
  destruct (p y); [by destruct (f y)|].
  apply bind_None in E as [E|([] & E & ?)]; [|done]. rewrite IH by done.
  destruct (p x); [by destruct (f x)|done].
Qed.

Lemma get_as_object k v s : get k v ≫= as_str = Some s -> JObject (as_json_object v) = v.
Proof. by destruct v. Qed.

Lemma get_set_timeout k t h :
  k <> "timeout"%string -> JObject (as_json_object h) = h ->
  get k (set_timeout t h) = get k h.
Proof.
  intros Hk Hh. unfold set_timeout. simpl. rewrite obj_get_insert.
  destruct (String.eqb_spec k "timeout"); [done|]. by rewrite <- Hh.
Qed.

Lemma get_reconcile_timeout k t h :
  k <> "timeout"%string -> JObject (as_json_object h) = h ->
  get k (reconcile_timeout t h).1 = get k h.
Proof.
  intros Hk Hh. unfold reconcile_timeout. case_bool_decide; simpl; [done|].
  by apply get_set_timeout.
Qed.

Lemma reconcile_timeout_idempotent t h :
  in_i64 t -> reconcile_timeout t (reconcile_timeout t h).1 = ((reconcile_timeout t h).1, false).
Proof.
  intros Ht. unfold reconcile_timeout at 2 3. case_bool_decide as Hh; simpl; unfold reconcile_timeout.
  - by rewrite bool_decide_eq_true_2.
  - rewrite bool_decide_eq_true_2; [done|].
    unfold set_timeout. simpl. rewrite obj_get_insert. simpl. by rewrite decide_True.
Qed.

Lemma find_mut_existsb p f q l l' b :
  (forall x, p x = true -> q (f x).1 = q x) ->
  find_mut p f l = Some (l', b) -> existsb q l' = existsb q l.
Proof.
  intros Hq. revert l' b. induction l as [|x l IH]; intros l' b E; simpl in E; [done|].
  destruct (p x) eqn:Ex.
  - specialize (Hq x Ex). destruct (f x) as [x' b']. simplify_eq/=. by rewrite Hq.
  - apply bind_Some in E as ([l1 b1] & E & [= <- <-]). simpl. by rewrite (IH _ _ E).
Qed.

(** The handler of a command. *)
Definition runs (command : string) (h : json) : bool :=
  bool_decide (get "command" h ≫= as_str = Some command).

Lemma runs_object command h : runs command h = true -> JObject (as_json_object h) = h.
Proof. unfold runs. intros ?%bool_decide_eq_true. by eapply get_as_object. Qed.

Lemma reconcile_timeout_runs command t h :
  runs command h = true -> runs command (reconcile_timeout t h).1 = true.
Proof. intros Hr. unfold runs. by rewrite get_reconcile_timeout by by eauto using runs_object. Qed.

Lemma entry_has_command_object command e :
  entry_has_command e command = true -> JObject (as_json_object e) = e.
Proof. by destruct e. Qed.

(** The update of a nested handler. *)
Definition with_handlers (hs : list json) (e : json) : json :=
  JObject (obj_insert "hooks" (JArray hs) (as_json_object e)).

Lemma get_with_handlers k hs e :
  JObject (as_json_object e) = e ->
  get k (with_handlers hs e) = if String.eqb k "hooks" then Some (JArray hs) else get k e.
Proof. intros He. unfold with_handlers. simpl. rewrite obj_get_insert. by rewrite <- He. Qed.

Lemma reconcile_existing_has_command command nested timeout e :
  entry_has_command e command = true ->
  entry_has_command (reconcile_existing command nested timeout e).1 command = true.
Proof.
  intros He. pose proof (entry_has_command_object _ _ He) as Ho.
  destruct timeout as [t|]; [|done]. unfold reconcile_existing. destruct nested.
  - destruct (get "hooks" e ≫= as_array) as [hs|] eqn:Eh; [|done]. fold (runs command).
    destruct (find_mut _ _ hs) as [[hs' b]|] eqn:Ef; [|done]. fold (with_handlers hs' e).
    unfold entry_has_command in *. cbn [fst]. rewrite !get_with_handlers by done. simpl.
    rewrite Eh in He. erewrite find_mut_existsb; [exact He| |exact Ef].
    intros x Hx%runs_object. cbn beta. by rewrite !get_reconcile_timeout by done.
  - unfold entry_has_command in *. by rewrite !get_reconcile_timeout by done.
Qed.

Lemma reconcile_existing_idempotent command nested timeout e :
  match timeout with Some t => in_i64 t | None => True end ->
  entry_has_command e command = true ->
  reconcile_existing command nested timeout (reconcile_existing command nested timeout e).1 =
    ((reconcile_existing command nested timeout e).1, false).
Proof.
  intros Ht He. pose proof (entry_has_command_object _ _ He) as Ho.
  destruct timeout as [t|]; [|done]. unfold reconcile_existing at 2 3. destruct nested.
  - destruct (get "hooks" e ≫= as_array) as [hs|] eqn:Eh; cbn [fst];
      [|unfold reconcile_existing; by rewrite Eh].
    fold (runs command). destruct (find_mut _ _ hs) as [[hs' b]|] eqn:Ef; cbn [fst];
      [|unfold reconcile_existing; rewrite Eh; fold (runs command); by rewrite Ef].
    fold (with_handlers hs' e). unfold reconcile_existing. rewrite get_with_handlers by done.
    simpl. fold (runs command).
    erewrite find_mut_idempotent; [| | |exact Ef].
    + change (as_json_object (with_handlers hs' e))
        with (obj_insert "hooks" (JArray hs') (as_json_object e)).
      by rewrite obj_insert_insert.
    + intros. by apply reconcile_timeout_runs.
    + intros. by apply reconcile_timeout_idempotent.
  - by apply reconcile_timeout_idempotent.
Qed.

Lemma new_entry_has_command command nested timeout :
  entry_has_command (new_entry command nested timeout) command = true.
Proof.
  destruct nested, timeout; unfold entry_has_command; simpl;
    by rewrite (bool_decide_eq_true_2 (_ = Some command)).
Qed.

Lemma new_entry_reconciled command nested timeout :
  match timeout with Some t => in_i64 t | None => True end ->
  reconcile_existing command nested timeout (new_entry command nested timeout) =
    (new_entry command nested timeout, false).
Proof.
  intros Ht. destruct timeout as [t|]; [|done].
  destruct nested; unfold reconcile_existing, reconcile_timeout; simpl;
    rewrite ?(bool_decide_eq_true_2 (_ = Some command)) by done; simpl;
    rewrite decide_True by done; simpl; rewrite bool_decide_eq_true_2 by done; done.
Qed.

(** ** What the edits guarantee *)

(** The entries registered for a phase. *)
Definition phase_entries (root : json) (phase : string) : list json :=
  as_json_array (entry_or phase (JArray [])
    (as_json_object (entry_or "hooks" (JObject []) (as_json_object root)))).

Definition with_phase (root : json) (phase : string) (entries : list json) : json :=
  let object := as_json_object root in
  let hooks_object := as_json_object (entry_or "hooks" (JObject []) object) in
  JObject (obj_insert "hooks" (JObject (obj_insert phase (JArray entries) hooks_object)) object).

Lemma phase_entries_with root phase entries :
  phase_entries (with_phase root phase entries) phase = entries.
Proof.
  unfold phase_entries, with_phase, entry_or, as_json_object. simpl.
  rewrite obj_get_insert. simpl. by rewrite obj_get_insert, String.eqb_refl.
Qed.

Lemma with_phase_with root phase entries entries' :
  with_phase (with_phase root phase entries) phase entries' = with_phase root phase entries'.
Proof.
  unfold with_phase, entry_or, as_json_object. simpl. rewrite obj_get_insert. simpl.
  by rewrite !obj_insert_insert.
Qed.

Lemma ensure_json_command_hook_unfold root phase command nested timeout :
  ensure_json_command_hook root phase command nested timeout =
    match find_mut (fun e => entry_has_command e command)
            (reconcile_existing command nested timeout) (phase_entries root phase) with
    | Some (array, changed) => (with_phase root phase array, changed)
    | None => (with_phase root phase (phase_entries root phase ++ [new_entry command nested timeout]), true)
    end.
Proof. done. Qed.

Lemma find_mut_existsb_found p f l l' b :
  (forall x, p x = true -> p (f x).1 = true) ->
  find_mut p f l = Some (l', b) -> existsb p l' = true.
Proof.
  intros Hp. revert l' b. induction l as [|x l IH]; intros l' b E; simpl in E; [done|].
  destruct (p x) eqn:Ex.
  - specialize (Hp x Ex). destruct (f x) as [x' b']. simplify_eq/=. by rewrite Hp.
  - apply bind_Some in E as ([l1 b1] & E & [= <- <-]). simpl. by rewrite (IH _ _ E), orb_true_r.
Qed.

Lemma find_mut_filter p f l l' b :
  (forall x, p x = true -> p (f x).1 = true) ->
  find_mut p f l = Some (l', b) ->
  List.filter (fun x => negb (p x)) l' = List.filter (fun x => negb (p x)) l.
Proof.
  intros Hp. revert l' b. induction l as [|x l IH]; intros l' b E; simpl in E; [done|].
  destruct (p x) eqn:Ex.
  - specialize (Hp x Ex). destruct (f x) as [x' b']. simplify_eq/=. by rewrite Hp, Ex.
  - apply bind_Some in E as ([l1 b1] & E & [= <- <-]). simpl. rewrite Ex. simpl.
    by rewrite (IH _ _ E).
Qed.

(** Setup is idempotent and leaves the user's hooks alone: registering a command
    for a phase leaves every entry of the phase that does not run the command as it
    was and in its place, at most one entry is new; registering it again finds it,
    with its timeout reconciled, and reports that nothing changed. *)
Theorem ensure_hook_idempotent root phase command nested timeout :
  match timeout with Some t => in_i64 t | None => True end ->
  let '(root', changed) := ensure_json_command_hook root phase command nested timeout in
  ensure_json_command_hook root' phase command nested timeout = (root', false) /\
  existsb (fun e => entry_has_command e command) (phase_entries root' phase) = true /\
  List.filter (fun e => negb (entry_has_command e command)) (phase_entries root' phase) =
    List.filter (fun e => negb (entry_has_command e command)) (phase_entries root phase).
Proof.
  intros Ht. rewrite ensure_json_command_hook_unfold.
  pose proof (reconcile_existing_has_command command nested timeout) as Hp.
  pose proof (fun e => reconcile_existing_idempotent command nested timeout e Ht) as Hf.
  destruct (find_mut _ _ (phase_entries root phase)) as [[entries b]|] eqn:E;
    rewrite ensure_json_command_hook_unfold, phase_entries_with.
  - rewrite (find_mut_idempotent _ _ _ _ _ Hp Hf E), with_phase_with.
    by erewrite find_mut_existsb_found, find_mut_filter.
  - rewrite find_mut_app_none, new_entry_has_command, new_entry_reconciled, with_phase_with by done.
    rewrite existsb_app, List.filter_app. simpl. rewrite new_entry_has_command. simpl.
    by rewrite orb_true_r, app_nil_r.
Qed.

Section values.
Context `{FloatEq}.

Lemma json_eqb_refl v : wf v = true -> json_eqb v v = true.
Proof. intros. by apply json_eqb_spec. Qed.

Lemma entry_or_insert key new v object : entry_or key new (obj_insert key v object) = v.
Proof. unfold entry_or. by rewrite obj_get_insert, String.eqb_refl. Qed.

(** Setting a value by path is idempotent, and truthful about change: afterwards
    the value is there, setting it again changes nothing, and where it reports no
    change the configuration is the one it was given. *)
Theorem set_value_spec root path value :
  wf value = true -> path <> [] ->
  let '(root', changed) := set_json_value_path root path value in
  (exists v, value_at root' path = Some v /\ json_eqb v value = true) /\
  set_json_value_path root' path value = (root', false) /\
  (changed = false -> root' = root).
Proof.
  intros Hv. revert root. induction path as [|key rest IH]; intros root Hp; [done|].
  cbn [set_json_value_path]. destruct rest as [|key2 rest].
  - destruct (obj_get key (as_json_object root)) as [v|] eqn:E; [destruct (json_eqb v value) eqn:Ev|];
      cbn [as_json_object as_object default value_at set_json_value_path].
    + change (as_json_object (JObject ?m)) with m. simpl. rewrite E. simpl. rewrite Ev.
      split_and!; [by exists v|done|]. intros _. by destruct root.
    + simpl. rewrite obj_get_insert, String.eqb_refl. simpl. rewrite json_eqb_refl by done.
      split_and!; [eexists; split; [done|by apply json_eqb_refl]|done|done].
    + simpl. rewrite obj_get_insert, String.eqb_refl. simpl. rewrite json_eqb_refl by done.
      split_and!; [eexists; split; [done|by apply json_eqb_refl]|done|done].
  - specialize (IH (entry_or key (JObject []) (as_json_object root)) ltac:(done)).
    remember (key2 :: rest) as p eqn:Ep.
    destruct (set_json_value_path _ p value) as [child changed].
    destruct IH as ((v & Hv1 & Hv2) & Hset & Hch). split_and!.
    + exists v. split; [|done]. cbn [value_at as_object]. simpl.
      by rewrite obj_get_insert, String.eqb_refl.
    + change (as_json_object (JObject ?m)) with m. rewrite entry_or_insert, Hset.
      by rewrite obj_insert_insert.
    + intros Hc. rewrite Hch in * by done. unfold entry_or in *.
      destruct (obj_get key (as_json_object root)) as [c|] eqn:E; simpl in Hv1 |- *.
      * rewrite obj_insert_id by done. by destruct root.
      * by subst p.
Qed.
Lemma wf_entry_or key m : wf (JObject m) = true -> wf (entry_or key (JObject []) m) = true.
Proof.
  intros Hm. unfold entry_or. destruct (obj_get key m) eqn:E; [by eapply wf_get|done].
Qed.

Lemma wf_as_json_object v : wf v = true -> wf (JObject (as_json_object v)) = true.
Proof. by destruct v. Qed.

Lemma set_json_value_path_wf root path value :
  wf root = true -> wf value = true -> wf (set_json_value_path root path value).1 = true.
Proof.
  intros Hr Hv. revert root Hr. induction path as [|key rest IH]; intros root Hr; [done|].
  apply wf_as_json_object in Hr. cbn [set_json_value_path]. destruct rest as [|key2 rest].
  - case_match; [done|by apply wf_insert].
  - specialize (IH _ (wf_entry_or key _ Hr)). destruct (set_json_value_path _ _ _).
    by apply wf_insert.
Qed.

Definition governed (m : list (string * json)) : list (string * json) :=
  foldl (fun m tool => obj_insert tool (JString "allow") m) m GOVERNED.

Lemma obj_get_governed k m :
  obj_get k (governed m) = if decide (k ∈ GOVERNED) then Some (JString "allow") else obj_get k m.
Proof.
  unfold governed. simpl. rewrite !obj_get_insert.
  destruct (String.eqb_spec k "write"), (String.eqb_spec k "edit"), (String.eqb_spec k "bash");
    case_decide; subst; try done; set_solver.
Qed.

Lemma governed_id m :
  (forall t, t ∈ GOVERNED -> obj_get t m = Some (JString "allow")) -> governed m = m.
Proof.
  intros Hm. unfold governed. simpl.
  rewrite (obj_insert_id "bash") by (apply Hm; set_solver).
  rewrite (obj_insert_id "edit") by (apply Hm; set_solver).
  apply obj_insert_id, Hm. set_solver.
Qed.

Lemma governed_base_object config m :
  get "permission" config = Some (JObject m) -> obj_get "bash" m = Some (JString "allow") ->
  governed_base config = m.
Proof.
  intros Hm Hb. unfold governed_base. rewrite Hm.
  destruct (Nat.eqb_spec (length m) 1) as [Hl|]; [|done].
  destruct m as [|[k v] []]; try done. cbn -[String.eqb] in Hb.
  destruct (String.eqb_spec "bash" k) as [<-|]; [|done]. simpl. done.
Qed.

Lemma wf_governed_base config : wf config = true -> wf (JObject (governed_base config)) = true.
Proof.
  intros Hw. unfold governed_base. destruct config as [| | | | | |c]; try done.
  destruct (get _ _) as [v|] eqn:E; [|done]. apply (wf_get c) in E; [|done].
  destruct v; try done; by case_match.
Qed.

Lemma wf_governed m : wf (JObject m) = true -> wf (JObject (governed m)) = true.
Proof. intros. unfold governed. simpl foldl. by repeat apply wf_insert. Qed.

(** The agent's own prompts are switched off for the governed tools and nothing
    else: afterwards each of them is allowed, every other rule is the user's (a
    sole allow-all is dropped), and doing it again changes nothing. *)
Theorem governed_permissions_spec config :
  wf config = true ->
  let '(config', _) := apply_governed_permissions config in
  apply_governed_permissions config' = (config', false) /\
  exists perm, get "permission" config' = Some (JObject perm) /\
    (forall t, t ∈ GOVERNED -> obj_get t perm = Some (JString "allow")) /\
    (forall k, k ∉ GOVERNED -> option_Forall2 jeq (obj_get k perm) (obj_get k (governed_base config))).
Proof.
  intros Hw. unfold apply_governed_permissions. fold (governed (governed_base config)).
  assert (wf (JObject (governed (governed_base config))) = true) as Hg
    by by apply wf_governed, wf_governed_base.
  assert (wf (set_json_value_path config ["permission"%string] (JObject (governed (governed_base config)))).1 = true) as Hw'.
  { by apply set_json_value_path_wf. }
  pose proof (set_value_spec config ["permission"%string] _ Hg ltac:(done)) as Hs.
  destruct (set_json_value_path _ _ _) as [config' changed]. simpl in Hw'.
  destruct Hs as ((v & Hv & Heq) & Hset & _).
  assert (get "permission" config' = Some v) as Hget.
  { simpl in Hv. destruct config'; try done. simpl in *. by destruct (obj_get _ m). }
  assert (wf v = true) as Wv by (destruct config'; try done; by eapply wf_get).
  apply json_eqb_spec in Heq; [|done..].
  inversion Heq as [| | | | | |m ? Hm]; subst.
  assert (forall t, t ∈ GOVERNED -> obj_get t m = Some (JString "allow")) as Ha.
  { intros t Ht. specialize (Hm t). rewrite obj_get_governed, decide_True in Hm by done.
    inversion Hm as [? ? Hx|]; subst. by inversion Hx. }
  split.
  - fold (governed (governed_base config')).
    rewrite (governed_base_object config' m), governed_id; [|done..|apply Ha; set_solver].
    destruct config' as [| | | | | |c]; try done. cbn [get] in Hget.
    cbn [set_json_value_path]. change (as_json_object (JObject c)) with c.
    by rewrite Hget, json_eqb_refl.
  - exists m. split_and!; [done..|]. intros k Hk. specialize (Hm k).
    by rewrite obj_get_governed, decide_False in Hm by done.
Qed.
End values.

(** ** Witnesses *)

Definition sample_hooks : json :=
  JObject [("hooks"%string, JObject [("BeforeTool"%string,
    JArray [JObject [("type"%string, JString "command"); ("command"%string, JString "lint")]])])].

Lemma ensure_hook_idempotent_witness :
  let '(root', changed) := ensure_json_command_hook sample_hooks "BeforeTool" "kyris" true (Some 600000%Z) in
  ensure_json_command_hook root' "BeforeTool" "kyris" true (Some 600000%Z) = (root', false) /\
  existsb (fun e => entry_has_command e "kyris") (phase_entries root' "BeforeTool") = true /\
  List.filter (fun e => negb (entry_has_command e "kyris")) (phase_entries root' "BeforeTool") =
    List.filter (fun e => negb (entry_has_command e "kyris")) (phase_entries sample_hooks "BeforeTool").
Proof.
  apply (ensure_hook_idempotent sample_hooks "BeforeTool" "kyris" true (Some 600000%Z)).
  unfold in_i64, i64_min, i64_max. lia.
Defined.

End JsonEdit.
