(* ===== verification/Manifest.v ===== *)
(** * The install manifest

    [cli/src/state.rs], with the readers and writers of JSON and TOML values of
    [cli/src/integration.rs]: every file setup touches is recorded with how to undo
    it, and uninstall undoes what is recorded.

    The disk is a map from paths to UTF-8 contents and the manifest file, which is
    kept parsed; a read or write of a file that is there does not fail.
    Directories and permissions are not modelled. *)

From stdpp Require Import pretty.
From S2P Require Import Prelude Text Json JsonPatch JsonEdit Toml TomlPatch.

Module Manifest.
Import JsonPatch JsonEdit.

Section manifest.
Context {T : TomlFloat}.

(** ** Data *)

Inductive ManifestAction :=
| Created
| LinesAppended (lines : list bytes)
| JsonPatch (ops : list JsonOp)
| TomlPatch (ops : list TomlPatch.TomlOp).

Record ManifestEntry := mkEntry {
  path : string;
  action : ManifestAction;
  component : string;
  file_created : bool;
  timestamp : string }.

Record disk := mkDisk {
  files : gmap string bytes;
  manifest : option (list ManifestEntry);
  time : string }.

(** What [serde_json] and [toml] read and print, and [{:?}] of an action. *)
Class SerdeText := {
  from_str : bytes -> result json string;
  to_string_pretty : json -> bytes;
  toml_from_str : bytes -> result toml string;
  toml_to_string_pretty : toml -> result bytes string;
  debug : ManifestAction -> string }.

(** ** Commands on the disk, which may fail *)

Definition cmd (A : Type) : Type := disk -> result A string * disk.

#[export] Instance cmd_ret : MRet cmd := fun A a d => (Ok a, d).

#[export] Instance cmd_bind : MBind cmd := fun A B f m d =>
  match m d with
  | (Ok a, d') => f a d'
  | (Err e, d') => (Err e, d')
  end.

Definition throw {A} (e : string) : cmd A := fun d => (Err e, d).

Definition lift {A} (context : string) (r : result A string) : cmd A :=
  match r with Ok a => mret a | Err e => throw (context ++ e)%string end.

(** [path.exists()] and the read after it. *)
Definition read_if_exists (p : string) : cmd (option bytes) := fun d => (Ok (files d !! p), d).

Definition write_file (p : string) (contents : bytes) : cmd unit := fun d =>
  (Ok tt, mkDisk (<[p := contents]> (files d)) (manifest d) (time d)).

Definition remove_if_exists (p : string) : cmd unit := fun d =>
  (Ok tt, mkDisk (delete p (files d)) (manifest d) (time d)).

Definition load_manifest : cmd (list ManifestEntry) := fun d => (Ok (default [] (manifest d)), d).

Definition save_manifest (entries : list ManifestEntry) : cmd unit := fun d =>
  (Ok tt, mkDisk (files d) (Some entries) (time d)).

Definition remove_manifest : cmd unit := fun d => (Ok tt, mkDisk (files d) None (time d)).

Definition now_rfc3339 : cmd string := fun d => (Ok (time d), d).

(** [e.path == path_string(path) && e.component == component]. *)
Definition is_entry (p c : string) (e : ManifestEntry) : bool :=
  String.eqb (path e) p && String.eqb (component e) c.

(** The first entry a test accepts, with its place. *)
Definition find_entry (test : ManifestEntry -> bool) (entries : list ManifestEntry)
    : option (nat * ManifestEntry) :=
  list_find (fun e => test e = true) entries.

Definition with_action (a : ManifestAction) (e : ManifestEntry) : ManifestEntry :=
  mkEntry (path e) a (component e) (file_created e) (timestamp e).

Definition with_component (c : string) (e : ManifestEntry) : ManifestEntry :=
  mkEntry (path e) (action e) c (file_created e) (timestamp e).

(** ** Lines of text files *)

(** [component.split(", ")]. *)
Fixpoint split_components_from (current l : bytes) : list bytes :=
  match l with
  | ","%char :: " "%char :: l => current :: split_components_from [] l
  | b :: l => split_components_from (current ++ [b]) l
  | [] => [current]
  end.

Definition contributes (entry_component c : string) : bool :=
  existsb (fun x => bool_decide (x = lit c)) (split_components_from [] (lit entry_component)).

(** [l.trim() == line.trim()]. *)
Definition same_line (l line : bytes) : bool := bool_decide (trim l = trim line).

Definition record_line_in_manifest (p : string) (line : bytes) (c : string) : cmd unit :=
  entries ← load_manifest;
  match find_entry (fun e => String.eqb (path e) p) entries with
  | Some (i, entry) =>
      let '(entry1, changed1) :=
        match action entry with
        | LinesAppended ls =>
            if existsb (fun l => same_line l line) ls then (entry, false)
            else (with_action (LinesAppended (ls ++ [line])) entry, true)
        | _ => (entry, false)
        end in
      let '(entry2, changed2) :=
        if contributes (component entry1) c then (entry1, changed1)
        else (with_component (component entry1 ++ ", " ++ c) entry1, true) in
      if changed2 : bool then save_manifest (<[i := entry2]> entries) else mret tt
  | None =>
      t ← now_rfc3339;
      save_manifest (entries ++ [mkEntry p (LinesAppended [line]) c false t])
  end.

Definition ensure_line (p : string) (line : bytes) (c : string) : cmd bool :=
  existing ← read_if_exists p;
  let contents := default [] existing in
  if existsb (fun l => same_line l line) (lines contents) then
    record_line_in_manifest p line c;; mret false
  else
    let contents :=
      if negb (bool_decide (contents = [])) && negb (ends_with [newline] contents)
      then contents ++ [newline] else contents in
    write_file p (contents ++ line ++ [newline]);;
    record_line_in_manifest p line c;;
    mret true.

(** [join] with a line feed. *)
Fixpoint join_lines (ls : list bytes) : bytes :=
  match ls with
  | [] => []
  | [l] => l
  | l :: ls => l ++ newline :: join_lines ls
  end.

Definition remove_lines (p : string) (ls : list bytes) : cmd unit :=
  existing ← read_if_exists p;
  match existing with
  | None => throw ("Cannot read " ++ p)%string
  | Some contents =>
      let filtered := List.filter (fun l => negb (existsb (same_line l) ls)) (lines contents) in
      if Nat.eqb (length filtered) (length (lines contents)) then mret tt
      else if forallb (fun l => bool_decide (trim l = [])) filtered then remove_if_exists p
      else
        let new_contents := join_lines filtered in
        write_file p (if ends_with [newline] contents && negb (bool_decide (new_contents = []))
                      then new_contents ++ [newline] else new_contents)
  end.

(** ** Files kyris owns *)

Definition record_manifest_if_absent (p : string) (a : ManifestAction) (c : string)
    (created : bool) : cmd unit :=
  entries ← load_manifest;
  if existsb (is_entry p c) entries then mret tt
  else t ← now_rfc3339; save_manifest (entries ++ [mkEntry p a c created t]).

Definition write_managed_file (p : string) (contents : bytes) (c : string)
    (validate : bytes -> result unit string) : cmd bool :=
  existing ← read_if_exists p;
  if bool_decide (existing = Some contents) then
    record_manifest_if_absent p Created c true;; mret false
  else
    lift ("validation failed for " ++ p ++ ": ") (validate contents);;
    write_file p contents;;
    record_manifest_if_absent p Created c true;;
    mret true.

(** ** JSON configuration *)

Section json.
Context {serde : SerdeText} `{FloatEq}.

Definition read_json_value (p : string) : cmd json :=
  existing ← read_if_exists p;
  match existing with
  | None => mret (JObject [])
  | Some contents => lift ("Cannot parse " ++ p ++ ": ") (from_str contents)
  end.

Definition make_json_action (old new : json) : ManifestAction :=
  match diff old new with
  | [] => Created
  | ops => JsonPatch ops
  end.

Definition record_managed_json_edit (p : string) (old_on_disk new : json)
    (file_existed_before_kyris : bool) (c : string) : cmd unit :=
  entries ← load_manifest;
  match find_entry (is_entry p c) entries with
  | Some (i, entry) =>
      match action entry with
      | Created => save_manifest entries
      | JsonPatch ops =>
          let '(original, _) := unapply old_on_disk ops in
          save_manifest (<[i := with_action (make_json_action original new) entry]> entries)
      | other =>
          throw ("manifest entry for " ++ p ++ " has unexpected action for a JSON edit: "
                 ++ debug other)%string
      end
  | None =>
      t ← now_rfc3339;
      save_manifest (entries ++
        [mkEntry p (make_json_action old_on_disk new) c (negb file_existed_before_kyris) t])
  end.

Definition write_managed_json (p : string) (old new : json) (contents : bytes)
    (file_existed : bool) (c : string) : cmd bool :=
  existing ← read_if_exists p;
  if bool_decide (existing = Some contents) then
    record_managed_json_edit p old new file_existed c;; mret false
  else
    write_file p contents;;
    record_managed_json_edit p old new file_existed c;;
    mret true.

Definition WellFormedJsonValidator (contents : bytes) : result unit string :=
  match from_str contents with Ok _ => Ok tt | Err e => Err e end.

(** [to_string_pretty] and the line feed after it. *)
Definition serialized (value : json) : bytes := to_string_pretty value ++ [newline].

(** Every caller passes the same validator. *)
Definition write_json_value (p : string) (value : json) (c : string) : cmd bool :=
  lift ("validation failed for " ++ p ++ ": ") (WellFormedJsonValidator (serialized value));;
  existing ← read_if_exists p;
  let file_existed := bool_decide (is_Some existing) in
  old ← read_json_value p;
  write_managed_json p old value (serialized value) file_existed c.

(** ** TOML configuration *)

Definition read_toml_value (p : string) : cmd toml :=
  existing ← read_if_exists p;
  match existing with
  | None => mret (TTable [])
  | Some contents => lift ("Cannot parse " ++ p ++ ": ") (toml_from_str contents)
  end.

Definition make_toml_action (old new : toml) : ManifestAction :=
  match TomlPatch.diff old new with
  | [] => Created
  | ops => TomlPatch ops
  end.

Definition record_managed_toml_edit (p : string) (old_on_disk new : toml)
    (file_existed_before_kyris : bool) (c : string) : cmd unit :=
  entries ← load_manifest;
  match find_entry (is_entry p c) entries with
  | Some (i, entry) =>
      match action entry with
      | Created => save_manifest entries
      | TomlPatch ops =>
          let '(original, _) := TomlPatch.unapply old_on_disk ops in
          save_manifest (<[i := with_action (make_toml_action original new) entry]> entries)
      | other =>
          throw ("manifest entry for " ++ p ++ " has unexpected action for a TOML edit: "
                 ++ debug other)%string
      end
  | None =>
      t ← now_rfc3339;
      save_manifest (entries ++
        [mkEntry p (make_toml_action old_on_disk new) c (negb file_existed_before_kyris) t])
  end.

Definition write_managed_toml (p : string) (old new : toml) (contents : bytes)
    (file_existed : bool) (c : string) : cmd bool :=
  existing ← read_if_exists p;
  if bool_decide (existing = Some contents) then
    record_managed_toml_edit p old new file_existed c;; mret false
  else
    write_file p contents;;
    record_managed_toml_edit p old new file_existed c;;
    mret true.

Definition write_toml_value (p : string) (value : toml) (c : string)
    (validate : bytes -> result unit string) : cmd bool :=
  printed ← lift ("Cannot serialize " ++ p ++ ": ") (toml_to_string_pretty value);
  let contents := printed ++ [newline] in
  lift ("validation failed for " ++ p ++ ": ") (validate contents);;
  existing ← read_if_exists p;
  let file_existed := bool_decide (is_Some existing) in
  old ← read_toml_value p;
  write_managed_toml p old value contents file_existed c.

(** ** Undoing entries *)

Definition unapply_json_file (p : string) (ops : list JsonOp) : cmd unit :=
  existing ← read_if_exists p;
  match existing with
  | None => throw ("Cannot read " ++ p)%string
  | Some contents =>
      value ← lift ("Cannot parse " ++ p ++ ": ") (from_str contents);
      let '(value, _) := unapply value ops in
      write_file p (serialized value)
  end.

Definition remove_empty_created_json_file (entry : ManifestEntry) : cmd unit :=
  existing ← read_if_exists (path entry);
  match existing with
  | Some contents =>
      if file_created entry then
        value ← lift ("Cannot parse " ++ path entry ++ ": ") (from_str contents);
        match value with
        | JObject [] => remove_if_exists (path entry)
        | _ => mret tt
        end
      else mret tt
  | None => mret tt
  end.

Definition unapply_toml_file (p : string) (ops : list TomlPatch.TomlOp) : cmd unit :=
  existing ← read_if_exists p;
  match existing with
  | None => throw ("Cannot read " ++ p)%string
  | Some contents =>
      value ← lift ("Cannot parse " ++ p ++ ": ") (toml_from_str contents);
      let '(value, _) := TomlPatch.unapply value ops in
      printed ← lift ("Cannot serialize " ++ p ++ ": ") (toml_to_string_pretty value);
      write_file p (printed ++ [newline])
  end.

Definition remove_empty_created_toml_file (entry : ManifestEntry) : cmd unit :=
  existing ← read_if_exists (path entry);
  match existing with
  | Some contents =>
      if file_created entry then
        value ← lift ("Cannot parse " ++ path entry ++ ": ") (toml_from_str contents);
        match value with
        | TTable [] => remove_if_exists (path entry)
        | _ => mret tt
        end
      else mret tt
  | None => mret tt
  end.

Definition unapply_entry (entry : ManifestEntry) : cmd string :=
  match action entry with
  | Created =>
      remove_if_exists (path entry);; mret ("removed " ++ path entry)%string
  | LinesAppended ls =>
      existing ← read_if_exists (path entry);
      (if bool_decide (is_Some existing) then remove_lines (path entry) ls else mret tt);;
      mret ("removed kyris lines from " ++ path entry)%string
  | JsonPatch ops =>
      existing ← read_if_exists (path entry);
      if bool_decide (is_Some existing) then
        unapply_json_file (path entry) ops;;
        remove_empty_created_json_file entry;;
        mret ("unapplied JSON patch on " ++ path entry)%string
      else mret ("skipped " ++ path entry ++ " (already absent)")%string
  | TomlPatch ops =>
      existing ← read_if_exists (path entry);
      if bool_decide (is_Some existing) then
        unapply_toml_file (path entry) ops;;
        remove_empty_created_toml_file entry;;
        mret ("unapplied TOML patch on " ++ path entry)%string
      else mret ("skipped " ++ path entry ++ " (already absent)")%string
  end.

Definition save_or_remove (entries : list ManifestEntry) : cmd unit :=
  match entries with
  | [] => remove_manifest
  | _ => save_manifest entries
  end.

(** The loop over the places of the entries, the last one first. *)
Fixpoint unapply_indices (places : list nat) (entries : list ManifestEntry)
    : cmd (list ManifestEntry) :=
  match places with
  | [] => mret entries
  | i :: places =>
      match entries !! i with
      | Some entry => unapply_entry entry;; unapply_indices places (delete i entries)
      | None => throw "removal index out of bounds"
      end
  end.

Definition matching (p : string) (entries : list ManifestEntry) : list nat :=
  omap (fun x => if String.eqb (path x.2) p then Some x.1 else None) (imap pair entries).

Definition restore_manifest_entry (p : string) : cmd bool :=
  entries ← load_manifest;
  match matching p entries with
  | [] => mret false
  | places =>
      entries ← unapply_indices (rev places) entries;
      save_or_remove entries;;
      mret true
  end.

Fixpoint unapply_each (entries : list ManifestEntry) : cmd (list string) :=
  match entries with
  | [] => mret []
  | entry :: entries =>
      unapply_entry entry;; restored ← unapply_each entries; mret (path entry :: restored)
  end.

Definition restore_manifest_component (c : string) : cmd (list string) :=
  entries ← load_manifest;
  let '(mine, remaining) := List.partition (fun e => String.eqb (component e) c) entries in
  match mine with
  | [] => mret []
  | _ =>
      restored ← unapply_each mine;
      save_or_remove remaining;;
      mret restored
  end.

Definition restore_manifest_entry_component (p c : string) : cmd bool :=
  entries ← load_manifest;
  match find_entry (is_entry p c) entries with
  | None => mret false
  | Some (i, entry) =>
      unapply_entry entry;;
      save_or_remove (delete i entries);;
      mret true
  end.

(** Best effort: an entry that fails is a warning. *)
Fixpoint unapply_all (entries : list ManifestEntry) (actions warnings : list string)
    : cmd (list string * list string) := fun d =>
  match entries with
  | [] => (Ok (actions, warnings), d)
  | entry :: entries =>
      match unapply_entry entry d with
      | (Ok a, d') => unapply_all entries (actions ++ [a]) warnings d'
      | (Err w, d') => unapply_all entries actions (warnings ++ [w]) d'
      end
  end.

Definition restore_all_manifest_entries : cmd (list string) :=
  entries ← load_manifest;
  '(actions, warnings) ← unapply_all (rev entries) [] [];
  remove_manifest;;
  mret (actions ++
        match warnings with
        | [] => []
        | _ => [("(" ++ pretty (length warnings)
                 ++ " entries could not be fully cleaned; see warnings above)")%string]
        end).

(** ** Installing and uninstalling a JSON configuration *)

Definition no_entry (p : string) (entries : list ManifestEntry) : Prop :=
  Forall (fun e => path e <> p) entries.

Lemma insert_last {A} (l : list A) x y : <[length l := x]> (l ++ [y]) = l ++ [x].
Proof. induction l; simpl; by f_equal. Qed.

Lemma delete_last {A} (l : list A) y : delete (length l) (l ++ [y]) = l.
Proof. induction l; simpl; by f_equal. Qed.

Lemma lookup_last {A} (l : list A) y : (l ++ [y]) !! length l = Some y.
Proof. by rewrite lookup_app_r, Nat.sub_diag. Qed.

Lemma find_entry_new p c base : no_entry p base -> find_entry (is_entry p c) base = None.
Proof.
  intros Hb. unfold find_entry. apply list_find_None. eapply Forall_impl; [exact Hb|].
  intros e He. unfold is_entry. by destruct (String.eqb_spec (path e) p).
Qed.

Lemma find_entry_snoc test entries e :
  find_entry test entries = None -> test e = true ->
  find_entry test (entries ++ [e]) = Some (length entries, e).
Proof.
  intros Hb He. unfold find_entry in *. apply list_find_None in Hb. apply list_find_Some. split_and!.
  - apply lookup_last.
  - done.
  - intros j y Hj Hlt. rewrite lookup_app_l in Hj by lia.
    apply list_elem_of_lookup_2 in Hj. rewrite Forall_forall in Hb. by apply Hb.
Qed.

Lemma find_entry_last p c base e :
  no_entry p base -> path e = p -> component e = c ->
  find_entry (is_entry p c) (base ++ [e]) = Some (length base, e).
Proof.
  intros Hb Hp Hc. apply find_entry_snoc; [by apply find_entry_new|].
  unfold is_entry. by rewrite Hp, Hc, !String.eqb_refl.
Qed.

Lemma matching_last p base e : no_entry p base -> path e = p -> matching p (base ++ [e]) = [length base].
Proof.
  intros Hb Hp. unfold matching. rewrite imap_app, omap_app. simpl.
  rewrite Hp, String.eqb_refl. simpl. rewrite Nat.add_0_r.
  assert (forall n, omap (fun x : nat * ManifestEntry => if String.eqb (path x.2) p then Some x.1 else None)
    (imap (fun i e => (n + i, e)) base) = []) as Hn;
    [|by rewrite (imap_ext _ (fun i e => (0 + i, e)) base), Hn].
  induction Hb as [|e' base He _ IH]; intros n; [done|].
  cbn [imap]. simpl. destruct (String.eqb_spec (path e') p); [done|].
  rewrite <- (IH (S n)). f_equal. apply imap_ext. intros. simpl. f_equal. lia.
Qed.

Lemma save_or_remove_base entries d :
  exists d', save_or_remove entries d = (Ok tt, d') /\ files d' = files d /\
    default [] (manifest d') = entries.
Proof. unfold save_or_remove, remove_manifest, save_manifest. destruct entries; by eexists. Qed.

Section install.
Context (p c : string) (d0 : disk) (om : list (string * json)).

Definition base : list ManifestEntry := default [] (manifest d0).
Definition created0 : bool := negb (bool_decide (is_Some (files d0 !! p))).

(** What the file holds before setup: an absent file counts as an empty object. *)
Definition starts_as : Prop :=
  match files d0 !! p with
  | Some contents => from_str contents = Ok (JObject om)
  | None => om = []
  end.

(** A value that setup may write: an object that its text is read back as, other
    than what the file held. *)
Definition installable (v : json) : Prop :=
  wf v = true /\ (exists nm, v = JObject nm) /\
  from_str (serialized v) = Ok v /\ json_eqb (JObject om) v = false.

(** After a write of [v]. *)
Definition recorded (v : json) (d : disk) : Prop :=
  files d = <[p := serialized v]> (files d0) /\
  exists om' t, manifest d =
      Some (base ++ [mkEntry p (JsonPatch (diff (JObject om') v)) c created0 t]) /\
    wf (JObject om') = true /\ JObject om' ≡ JObject om.

Context (Hom : wf (JObject om) = true) (Hbase : no_entry p base) (Hstart : starts_as).

Lemma json_action_of om' v :
  wf (JObject om') = true -> JObject om' ≡ JObject om -> installable v ->
  make_json_action (JObject om') v = JsonPatch (diff (JObject om') v).
Proof using Hom.
  intros Wo He (Wv & (nm & ->) & _ & Hne). unfold make_json_action.
  destruct (diff _ _) eqn:E; [|done]. apply diff_nil in E; [|done..].
  apply json_eqb_spec in E; [|done..]. rewrite He in E.
  apply json_eqb_spec in E; [congruence|done..].
Qed.

Lemma first_write v :
  installable v -> exists b d, write_json_value p v c d0 = (Ok b, d) /\ recorded v d.
Proof using Hom Hbase Hstart.
  intros Hv. pose proof Hv as (Wv & _ & Hread & _).
  assert (read_json_value p d0 = (Ok (JObject om), d0)) as Hr.
  { unfold read_json_value, starts_as in *. unfold mbind, cmd_bind, read_if_exists.
    destruct (files d0 !! p) as [contents|]; by rewrite Hstart. }
  unfold write_json_value, WellFormedJsonValidator, write_managed_json.
  unfold mbind, cmd_bind. rewrite Hread. cbn [lift mret cmd_ret].
  unfold read_if_exists at 1. rewrite Hr. unfold read_if_exists.
  assert (forall d, files d = files d0 \/ files d = <[p := serialized v]> (files d0) ->
    (files d = files d0 -> files d0 !! p = Some (serialized v)) ->
    manifest d = manifest d0 ->
    exists d', record_managed_json_edit p (JObject om) v (bool_decide (is_Some (files d0 !! p))) c d
      = (Ok tt, d') /\ recorded v d') as Hrec.
  { intros d Hf Hs Hm. unfold record_managed_json_edit, load_manifest, now_rfc3339, save_manifest.
    unfold mbind, cmd_bind. rewrite Hm. fold base. rewrite find_entry_new by done.
    eexists. split; [done|]. split.
    - destruct Hf as [Hf|Hf]; cbn [files]; [|done]. rewrite Hf. symmetry. by apply insert_id, Hs.
    - exists om, (time d). cbn [manifest]. rewrite json_action_of; [|done..]. done. }
  destruct (bool_decide (files d0 !! p = Some (serialized v))) eqn:Hex.
  - apply bool_decide_eq_true in Hex. destruct (Hrec d0) as (d' & -> & ?); eauto.
  - unfold write_file.
    destruct (Hrec (mkDisk (<[p := serialized v]> (files d0)) (manifest d0) (time d0)))
      as (d' & E & ?); [by right| |done|rewrite E; eauto].
    simpl. intros <-. by rewrite lookup_insert_eq.
Qed.

(** A later write of the same component keeps one entry, from the original to the
    value written last. *)
Lemma next_write v v2 d :
  installable v -> installable v2 -> recorded v d ->
  exists b d', write_json_value p v2 c d = (Ok b, d') /\ recorded v2 d'.
Proof using Hom Hbase.
  intros Hv Hv2 (Hf & om' & t & Hm & Wo & He).
  pose proof Hv as (Wv & (nm & ->) & Hread & _). pose proof Hv2 as (Wv2 & _ & Hread2 & _).
  assert (files d !! p = Some (serialized (JObject nm))) as Hp
    by (by rewrite Hf, lookup_insert_eq).
  assert (read_json_value p d = (Ok (JObject nm), d)) as Hr.
  { unfold read_json_value. unfold mbind, cmd_bind, read_if_exists. by rewrite Hp, Hread. }
  unfold write_json_value, WellFormedJsonValidator, write_managed_json.
  unfold mbind, cmd_bind. rewrite Hread2. cbn [lift mret cmd_ret].
  unfold read_if_exists at 1. rewrite Hr. unfold read_if_exists.
  destruct (restores_objects om' nm Wo Wv) as (res & Hu & Hres).
  assert (exists rm, res = JObject rm) as [rm ->] by (inversion Hres; subst; eauto).
  assert (wf (JObject rm) = true) as Wr.
  { change (JObject rm) with ((JObject rm, [] : list string).1). rewrite <- Hu.
    apply (run_wf _ (JObject nm, [])); [by apply Forall_rev, diff_op_wf|done]. }
  assert (forall d1 ex, manifest d1 = manifest d ->
    files d1 = <[p := serialized v2]> (files d0) ->
    exists d', record_managed_json_edit p (JObject nm) v2 ex c d1 = (Ok tt, d') /\ recorded v2 d')
    as Hrec.
  { intros d1 ex Hm1 Hf1. unfold record_managed_json_edit, load_manifest, save_manifest.
    unfold mbind, cmd_bind. rewrite Hm1, Hm. change (default [] (Some ?l)) with l.
    erewrite find_entry_last by done. cbn [action]. rewrite Hu. cbn [fst].
    eexists. split; [done|]. split; [done|]. exists rm, t. cbn [manifest].
    rewrite insert_last. rewrite json_action_of; [|done|by rewrite Hres|done].
    split_and!; [done..|]. by rewrite Hres. }
  destruct (bool_decide (files d !! p = Some (serialized v2))) eqn:Hex.
  - apply bool_decide_eq_true in Hex.
    edestruct (Hrec d) as (d' & -> & ?); [done| |eauto].
    rewrite Hf. rewrite Hp in Hex. by injection Hex as ->.
  - unfold write_file.
    edestruct (Hrec (mkDisk (<[p := serialized v2]> (files d)) (manifest d) (time d)))
      as (d' & E & ?); [done| |rewrite E; eauto].
    cbn [files]. by rewrite Hf, insert_insert_eq.
Qed.

Fixpoint write_each (vs : list json) : cmd unit :=
  match vs with
  | [] => mret tt
  | v :: vs => write_json_value p v c;; write_each vs
  end.

Lemma later_writes v vs d :
  installable v -> Forall installable vs -> recorded v d ->
  exists d', write_each vs d = (Ok tt, d') /\
    exists v', installable v' /\ recorded v' d'.
Proof using Hom Hbase.
  intros Hv Hvs. revert v d Hv. induction Hvs as [|v2 vs Hv2 _ IH]; intros v d Hv Hd; [eauto 6|].
  destruct (next_write v v2 d Hv Hv2 Hd) as (b & d1 & Hw & Hd1).
  destruct (IH v2 d1 Hv2 Hd1) as (d2 & Hw2 & Hd2). exists d2. split; [|done].
  cbn [write_each]. unfold mbind, cmd_bind. by rewrite Hw.
Qed.

Lemma restore_recorded v d :
  installable v -> recorded v d ->
  (files d0 !! p = None -> from_str (serialized (JObject [])) = Ok (JObject [])) ->
  exists d', restore_manifest_entry p d = (Ok true, d') /\
    restore_manifest_entry_component p c d = (Ok true, d') /\
    default [] (manifest d') = base /\
    (forall q, q <> p -> files d' !! q = files d0 !! q) /\
    match files d0 !! p with
    | Some _ => exists res, files d' !! p = Some (serialized res) /\
                  json_eqb res (JObject om) = true
    | None => files d' !! p = None
    end.
Proof using Hom Hbase Hstart.
  intros (Wv & (nm & ->) & Hread & _) (Hf & om' & t & Hm & Wo & He) Hempty.
  destruct (restores_objects om' nm Wo Wv) as (res & Hu & Hres).
  assert (wf res = true) as Wr.
  { change res with ((res, [] : list string).1). rewrite <- Hu.
    apply (run_wf _ (JObject nm, [])); [by apply Forall_rev, diff_op_wf|done]. }
  assert (json_eqb res (JObject om) = true) as Heq
    by (apply json_eqb_spec; [done..|]; by rewrite Hres).
  set (e := mkEntry p (JsonPatch (diff (JObject om') (JObject nm))) c created0 t) in *.
  assert (exists a d1, unapply_entry e d = (Ok a, d1) /\ manifest d1 = manifest d /\
    (forall q, q <> p -> files d1 !! q = files d0 !! q) /\
    match files d0 !! p with
    | Some _ => files d1 !! p = Some (serialized res)
    | None => files d1 !! p = None
    end) as (a & d1 & Hu1 & Hm1 & Hother & Hmine).
  { unfold unapply_entry, unapply_json_file, remove_empty_created_json_file, read_if_exists.
    unfold mbind, cmd_bind. subst e. cbn [action path file_created].
    assert (files d !! p = Some (serialized (JObject nm))) as Hpd
      by (by rewrite Hf, lookup_insert_eq).
    cbv beta. rewrite Hpd, bool_decide_eq_true_2 by eauto. cbv beta. rewrite Hpd, Hread.
    cbn [lift mret cmd_ret]. rewrite Hu. unfold write_file. cbn [files].
    rewrite Hf, insert_insert_eq, lookup_insert_eq. unfold created0.
    destruct (files d0 !! p) as [contents|] eqn:Hp.
    - rewrite bool_decide_eq_true_2 by eauto. cbn [negb].
      eexists _, _. split_and!; [done|done| |cbn [files]; by rewrite lookup_insert_eq].
      intros q Hq. cbn [files]. by rewrite lookup_insert_ne.
    - rewrite bool_decide_eq_false_2 by (by intros []). cbn [negb].
      assert (res = JObject []) as ->.
      { unfold starts_as in Hstart. rewrite Hp in Hstart. rewrite Hstart in Heq.
        destruct res as [| | | | | |[|]]; done. }
      rewrite Hempty by done. cbn [lift mret cmd_ret].
      unfold remove_if_exists. cbn [files manifest].
      eexists _, _. split_and!; [done|done| |cbn [files]; by rewrite lookup_delete_eq].
      intros q Hq. cbn [files]. by rewrite lookup_delete_ne, lookup_insert_ne. }
  destruct (save_or_remove_base base d1) as (d2 & Hs2 & Hf2 & Hm2).
  exists d2. rewrite Hf2. split_and!; [..|done|done|].
  { unfold restore_manifest_entry, load_manifest. unfold mbind, cmd_bind. rewrite Hm.
    change (default [] (Some ?l)) with l. rewrite matching_last by done.
    cbn [rev app unapply_indices]. rewrite lookup_last. unfold mbind, cmd_bind.
    by rewrite Hu1, delete_last; cbn [mret cmd_ret]; rewrite Hs2. }
  { unfold restore_manifest_entry_component, load_manifest. unfold mbind, cmd_bind. rewrite Hm.
    change (default [] (Some ?l)) with l. rewrite (find_entry_last p c base e) by done.
    by rewrite Hu1, delete_last, Hs2. }
  destruct (files d0 !! p); [eauto|done].
Qed.
End install.

(** C8. Uninstalling gives a JSON configuration back, however many times setup wrote it.
    The file held an object, or there was none, and no earlier entry of the manifest names
    it; one component then writes it any number of times, an object each time that is other
    than the original and that its text is read back as.  Undoing the entry, by file or by
    component, leaves a file that parses to the equal of what was there, or none where there
    was none; every other file and every other entry of the manifest is as before.  A write
    of what the file held already is left out: setup records it as the creation of the file,
    and undoing that deletes the file ([Configure.unchanged_setting_deletes_file]). *)
Theorem install_then_uninstall p c d om v vs :
  wf (JObject om) = true -> no_entry p (base d) -> starts_as p d om ->
  Forall (installable om) (v :: vs) ->
  (files d !! p = None -> from_str (serialized (JObject [])) = Ok (JObject [])) ->
  exists d1 d2, write_each p c (v :: vs) d = (Ok tt, d1) /\
    restore_manifest_entry p d1 = (Ok true, d2) /\
    restore_manifest_entry_component p c d1 = (Ok true, d2) /\
    default [] (manifest d2) = base d /\
    (forall q, q <> p -> files d2 !! q = files d !! q) /\
    match files d !! p with
    | Some _ => exists res, files d2 !! p = Some (serialized res) /\
                  json_eqb res (JObject om) = true
    | None => files d2 !! p = None
    end.
Proof.
  intros Hom Hbase Hstart [Hv Hvs]%Forall_cons Hempty.
  destruct (first_write p c d om Hom Hbase Hstart v Hv) as (b & d1 & Hw & Hd1).
  destruct (later_writes p c d om Hom Hbase v vs d1 Hv Hvs Hd1) as (d2 & Hws & v' & Hv' & Hd2).
  destruct (restore_recorded p c d om Hom Hbase Hstart v' d2 Hv' Hd2 Hempty) as (d3 & Hr).
  exists d2, d3. split; [|done]. cbn [write_each]. unfold mbind, cmd_bind. by rewrite Hw.
Qed.
End json.

(** ** Lines *)

Definition text_of (ls : list bytes) : bytes := concat ((fun l => l ++ [newline]) <$> ls).

(** A line that [lines] gives back: no line feed in it, no carriage return at its
    end. *)
Definition plain_line (l : bytes) : Prop := newline ∉ l /\ strip_cr l = l.

Lemma lines_text_of ls : Forall plain_line ls -> lines (text_of ls) = ls.
Proof.
  unfold lines. induction 1 as [|l ls [Hl Hcr] _ IH]; [done|].
  change (text_of (l :: ls)) with ((l ++ [newline]) ++ text_of ls). rewrite <- app_assoc.
  assert (forall current m, newline ∉ m ->
    lines_from current (m ++ [newline] ++ text_of ls) =
      strip_cr (current ++ m) :: lines_from [] (text_of ls)) as Hgo.
  { intros current m. revert current. induction m as [|b m IHm]; intros current Hm; simpl.
    - by rewrite app_nil_r.
    - apply not_elem_of_cons in Hm as [Hb Hm].
      destruct (Ascii.eqb_spec b newline); [congruence|]. rewrite IHm by done.
      by rewrite <- app_assoc. }
  rewrite Hgo by done. simpl. by rewrite Hcr, IH.
Qed.

Lemma join_lines_text ls : ls <> [] -> join_lines ls ++ [newline] = text_of ls.
Proof.
  induction ls as [|l ls IH]; [done|]. intros _. destruct ls as [|l2 ls];
    [unfold text_of; simpl; by rewrite app_nil_r|].
  change (text_of (l :: l2 :: ls)) with ((l ++ [newline]) ++ text_of (l2 :: ls)).
  rewrite <- IH by done. cbn [join_lines]. by rewrite <- !app_assoc.
Qed.

Lemma text_of_ends ls : ls <> [] -> ends_with [newline] (text_of ls) = true.
Proof.
  intros Hls. rewrite <- join_lines_text by done. unfold ends_with. rewrite rev_app_distr.
  apply starts_with_app.
Qed.

Lemma text_of_snoc ls l : text_of (ls ++ [l]) = text_of ls ++ l ++ [newline].
Proof. unfold text_of. rewrite fmap_app, concat_app. simpl. by rewrite app_nil_r. Qed.

(** What is left of lines. *)
Definition without (line : bytes) (ls : list bytes) : list bytes :=
  List.filter (fun l => negb (same_line l line)) ls.

Lemma without_shorter line ls :
  existsb (fun l => same_line l line) ls = true -> length (without line ls) <> length ls.
Proof.
  assert (forall ls, length (without line ls) <= length ls) as Hle.
  { intros l. induction l as [|x l IH]; simpl; [done|]. destruct (same_line x line); simpl; lia. }
  induction ls as [|l ls IH]; simpl; [done|]. destruct (same_line l line); simpl.
  - intros _. specialize (Hle ls). lia.
  - intros Hx. specialize (IH Hx). lia.
Qed.

Lemma same_line_refl l : same_line l l = true.
Proof. by apply bool_decide_eq_true. Qed.

Lemma remove_lines_text p line ls d :
  files d !! p = Some (text_of ls) -> Forall plain_line ls ->
  existsb (fun l => same_line l line) ls = true ->
  existsb (fun l => negb (bool_decide (trim l = []))) (without line ls) = true ->
  remove_lines p [line] d =
    (Ok tt, mkDisk (<[p := text_of (without line ls)]> (files d)) (manifest d) (time d)).
Proof.
  intros Hp Hls Hin Hsome. unfold remove_lines, read_if_exists. unfold mbind, cmd_bind.
  cbv beta. rewrite Hp, lines_text_of by done.
  assert (List.filter (fun l => negb (existsb (same_line l) [line])) ls = without line ls) as ->
    by (apply List.filter_ext; intros l; simpl; by rewrite orb_false_r).
  rewrite (proj2 (Nat.eqb_neq _ _)) by by apply without_shorter.
  assert (forallb (fun l => bool_decide (trim l = [])) (without line ls) = false) as ->.
  { rewrite <- (negb_involutive (forallb _ _)). apply negb_false_iff.
    induction (without line ls) as [|l l' IH]; simpl in *; [done|].
    destruct (bool_decide (trim l = [])); simpl in *; auto. }
  assert (without line ls <> []) as Hne by (intros E; by rewrite E in Hsome).
  rewrite text_of_ends by (intros ->; done). rewrite <- join_lines_text by done.
  destruct (join_lines (without line ls)) as [|b l] eqn:Ej; simpl; [|done].
  exfalso. destruct (without line ls) as [|l1 [|l2 l]]; [done| |by destruct l1].
  simpl in Ej. by subst l1.
Qed.

Section append.
Context (p c : string) (d : disk) (ls : list bytes) (line : bytes).
Context (Hbase : no_entry p (base d)) (Hp : files d !! p = Some (text_of ls)).
Context (Hls : Forall plain_line ls) (Hne : ls <> []).

Definition present : bool := existsb (fun l => same_line l line) ls.
Definition appended_lines : list bytes := if present then ls else ls ++ [line].
Definition line_entry : ManifestEntry := mkEntry p (LinesAppended [line]) c false (time d).

Lemma ensure_line_text :
  ensure_line p line c d =
    (Ok (negb present),
     mkDisk (<[p := text_of appended_lines]> (files d)) (Some (base d ++ [line_entry])) (time d)).
Proof using Hbase Hp Hls Hne.
  unfold ensure_line, record_line_in_manifest, read_if_exists, load_manifest, now_rfc3339,
    save_manifest, write_file. unfold mbind, cmd_bind.
  assert (find_entry (fun e => String.eqb (path e) p) (base d) = None) as Hfind.
  { unfold find_entry. apply list_find_None. eapply Forall_impl; [exact Hbase|].
    intros e' He'. by destruct (String.eqb_spec (path e') p). }
  cbv beta. rewrite Hp. change (default [] (Some ?x)) with x.
  rewrite lines_text_of by done. fold present. unfold appended_lines.
  destruct present; cbn [negb].
  - fold (base d). rewrite Hfind. cbn [mret cmd_ret]. by rewrite insert_id.
  - rewrite text_of_ends, andb_false_r by done. cbn [manifest]. fold (base d). rewrite Hfind.
    cbn [mret cmd_ret files time]. by rewrite text_of_snoc.
Qed.

Lemma without_appended : without line appended_lines = without line ls.
Proof using Type.
  unfold appended_lines, without. destruct present; [done|].
  rewrite List.filter_app. simpl. rewrite same_line_refl. simpl. by rewrite app_nil_r.
Qed.

Lemma appended_has_line : existsb (fun l => same_line l line) appended_lines = true.
Proof using Type.
  unfold appended_lines. destruct present eqn:E; [done|].
  rewrite existsb_app. simpl. by rewrite same_line_refl, orb_true_r.
Qed.
End append.

(** What setup appends to a shell profile uninstall takes out, and with it
    every line equal to it up to white space: for a profile of plain lines of
    which some line that is not blank is to stay, appending a line and undoing the
    entry leaves exactly the other lines, byte for byte. A line the user already
    had before setup is not appended a second time, but it is removed all the
    same. *)
Theorem append_then_uninstall `{SerdeText} `{FloatEq} p c d ls line :
  no_entry p (base d) -> files d !! p = Some (text_of ls) ->
  Forall plain_line (line :: ls) ->
  existsb (fun l => negb (bool_decide (trim l = []))) (without line ls) = true ->
  exists appended d1 d2, ensure_line p line c d = (Ok appended, d1) /\
    appended = negb (existsb (fun l => same_line l line) ls) /\
    restore_manifest_entry p d1 = (Ok true, d2) /\
    files d2 = <[p := text_of (without line ls)]> (files d) /\ default [] (manifest d2) = base d.
Proof.
  intros Hbase Hp Hls Hsome. apply Forall_cons in Hls as [Hline Hls].
  assert (ls <> []) as Hne by (intros ->; done).
  set (d1 := mkDisk (<[p := text_of (appended_lines ls line)]> (files d))
               (Some (base d ++ [line_entry p c d line])) (time d)).
  assert (Forall plain_line (appended_lines ls line)) as Hls1.
  { unfold appended_lines. destruct (present ls line); [done|].
    apply Forall_app; by auto using Forall_cons. }
  assert (exists d', unapply_entry (line_entry p c d line) d1 =
      (Ok ("removed kyris lines from " ++ p)%string, d') /\
    files d' = <[p := text_of (without line ls)]> (files d) /\ manifest d' = manifest d1)
    as (d' & Hu & Hfd & Hmd).
  { unfold unapply_entry, read_if_exists. unfold mbind, cmd_bind. cbn [action path line_entry].
    assert (files d1 !! p = Some (text_of (appended_lines ls line))) as Hp1
      by (simpl; by rewrite lookup_insert_eq).
    cbv beta. rewrite Hp1, bool_decide_eq_true_2 by eauto.
    erewrite remove_lines_text; [|exact Hp1|done|apply appended_has_line|by rewrite without_appended].
    cbn [mret cmd_ret]. eexists. split; [done|]. split; [|done]. cbn [files d1].
    by rewrite insert_insert_eq, without_appended. }
  destruct (save_or_remove_base (base d) d') as (d2 & Hs2 & Hf2 & Hm2).
  exists (negb (present ls line)), d1, d2. split_and!; [by apply ensure_line_text|done| |by rewrite Hf2|done].
  unfold restore_manifest_entry, load_manifest. unfold mbind, cmd_bind. cbn [manifest d1].
  change (default [] (Some ?l)) with l. rewrite matching_last by done.
  cbn [rev app unapply_indices]. rewrite lookup_last. unfold mbind, cmd_bind.
  by rewrite Hu, delete_last; cbn [mret cmd_ret]; rewrite Hs2.
Qed.

End manifest.

(** ** Witnesses *)

#[local] Existing Instance printed_floats.

Definition user_settings : json := JObject [("model"%string, JString "opus")].
Definition first_settings : json :=
  JObject [("model"%string, JString "opus"); ("hooks"%string, JArray [JString "kyris"])].
Definition last_settings : json :=
  JObject [("model"%string, JString "kyris/opus"); ("hooks"%string, JArray [JString "kyris"])].

#[local] Existing Instance one_float.

(** A printer and parser for these three values. *)
#[local] Instance sample_serde : SerdeText := {|
  to_string_pretty v :=
    if json_eqb v user_settings then lit "user"
    else if json_eqb v first_settings then lit "first"
    else if json_eqb v last_settings then lit "last" else lit "{}";
  from_str b :=
    let b := trim b in
    if bool_decide (b = lit "user") then Ok user_settings
    else if bool_decide (b = lit "first") then Ok first_settings
    else if bool_decide (b = lit "last") then Ok last_settings
    else if bool_decide (b = lit "{}") then Ok (JObject [])
    else Err "expected value"%string;
  toml_from_str _ := Ok (TTable []);
  toml_to_string_pretty _ := Ok [];
  debug _ := ""%string |}.

Definition sample_disk : disk :=
  mkDisk {[ "settings.json"%string := lit "user" ]} None "2026-01-01T00:00:00Z".

Lemma install_then_uninstall_witness :
  exists d1 d2,
    write_each "settings.json" "claude-code:tool" [first_settings; last_settings] sample_disk = (Ok tt, d1) /\
    restore_manifest_entry "settings.json" d1 = (Ok true, d2) /\
    restore_manifest_entry_component "settings.json" "claude-code:tool" d1 = (Ok true, d2) /\
    default [] (manifest d2) = base sample_disk /\
    (forall q, q <> "settings.json"%string -> files d2 !! q = files sample_disk !! q) /\
    match files sample_disk !! "settings.json"%string with
    | Some _ => exists res, files d2 !! "settings.json"%string = Some (serialized res) /\
                  json_eqb res user_settings = true
    | None => files d2 !! "settings.json"%string = None
    end.
Proof.
  apply install_then_uninstall.
  - vm_compute. reflexivity.
  - apply List.Forall_nil.
  - vm_compute. reflexivity.
  - apply List.Forall_cons; [|apply List.Forall_cons; [|apply List.Forall_nil]];
      (split_and!; [vm_compute; reflexivity|eexists; reflexivity|vm_compute; reflexivity..]).
  - intros _. vm_compute. reflexivity.
Defined.

Definition profile_disk : disk :=
  mkDisk {[ ".zshrc"%string := text_of [lit "export A=1"; lit "source kyris.sh"] ]} None "2026-01-01T00:00:00Z".

(** The user's own line goes, too. *)
Lemma append_then_uninstall_witness :
  exists appended d1 d2,
    ensure_line ".zshrc" (lit "source kyris.sh") "hooks" profile_disk = (Ok appended, d1) /\
    appended = negb (existsb (fun l => same_line l (lit "source kyris.sh"))
                       [lit "export A=1"; lit "source kyris.sh"]) /\
    restore_manifest_entry ".zshrc" d1 = (Ok true, d2) /\
    files d2 = <[".zshrc"%string := text_of
      (without (lit "source kyris.sh") [lit "export A=1"; lit "source kyris.sh"])]> (files profile_disk) /\
    default [] (manifest d2) = base profile_disk.
Proof.
  apply append_then_uninstall.
  - apply List.Forall_nil.
  - reflexivity.
  - repeat (apply List.Forall_cons || apply List.Forall_nil);
      (split; [apply (bool_decide_unpack _); vm_compute; exact I|vm_compute; reflexivity]).
  - vm_compute. reflexivity.
Defined.

End Manifest.
