(* ===== verification/Configure.v ===== *)
(** * Configure operations

    The operations of an agent's capability document that edit JSON, in
    [cli/src/agents/engine.rs]: read a configuration in its declared format, edit
    it, write it back under a component of the install manifest. *)

From S2P Require Import Prelude Text Json JsonPatch JsonEdit Toml Manifest.

Module Configure.
Import JsonPatch JsonEdit Manifest.

Inductive FileFormat := Json | Toml | Jsonc.

(** ** JSON with comments

    [strip_jsonc_comments] looks at ASCII characters only, so at bytes. *)

Definition slash : ascii := "/"%char.
Definition star : ascii := "*"%char.

Record comment_state := mkComment { in_str : bool; in_line : bool; in_block : bool; escaped : bool }.

Fixpoint strip_comments (st : comment_state) (src : bytes) : bytes :=
  match src with
  | [] => []
  | c :: rest =>
      if in_line st then
        if Ascii.eqb c newline
        then newline :: strip_comments (mkComment (in_str st) false (in_block st) (escaped st)) rest
        else strip_comments st rest
      else if in_block st then
        match rest with
        | c2 :: rest2 =>
            if Ascii.eqb c star && Ascii.eqb c2 slash
            then strip_comments (mkComment (in_str st) (in_line st) false (escaped st)) rest2
            else strip_comments st rest
        | [] => []
        end
      else if in_str st then
        c :: strip_comments
               (if escaped st then mkComment true false false false
                else if Ascii.eqb c backslash then mkComment true false false true
                else if Ascii.eqb c dquote then mkComment false false false false
                else st) rest
      else if Ascii.eqb c dquote then dquote :: strip_comments (mkComment true false false (escaped st)) rest
      else
        match rest with
        | c2 :: rest2 =>
            if Ascii.eqb c slash && Ascii.eqb c2 slash
            then strip_comments (mkComment false true false (escaped st)) rest2
            else if Ascii.eqb c slash && Ascii.eqb c2 star
            then strip_comments (mkComment false false true (escaped st)) rest2
            else c :: strip_comments st rest
        | [] => [c]
        end
  end.

Definition strip_jsonc_comments (src : bytes) : bytes :=
  strip_comments (mkComment false false false false) src.

(** The characters of a text, each as its UTF-8 bytes. *)
Fixpoint chars_aux (fuel : nat) (l : bytes) : list bytes :=
  match fuel, l with
  | S fuel, _ :: _ =>
      let n := Nat.max 1 (utf8_head l) in take n l :: chars_aux fuel (drop n l)
  | _, _ => []
  end.

Definition chars (l : bytes) : list bytes := chars_aux (length l) l.

Definition is_whitespace (c : bytes) : bool := bool_decide (c ∈ white_space).

Record comma_state := mkComma {
  c_in_str : bool; c_escaped : bool; pending_comma : bool; pending_ws : bytes }.

(** One character of [strip_trailing_commas]: what it writes, and the state after. *)
Definition comma_step (st : comma_state) (c : bytes) : bytes * comma_state :=
  if c_in_str st then
    (c, if c_escaped st then mkComma true false (pending_comma st) (pending_ws st)
        else if bool_decide (c = [backslash]) then mkComma true true (pending_comma st) (pending_ws st)
        else if bool_decide (c = [dquote]) then mkComma false false (pending_comma st) (pending_ws st)
        else st)
  else if pending_comma st then
    if is_whitespace c then ([], mkComma false (c_escaped st) true (pending_ws st ++ c))
    else if bool_decide (c = lit "}") || bool_decide (c = lit "]")
    then (pending_ws st ++ c, mkComma false (c_escaped st) false [])
    else (lit "," ++ pending_ws st ++ c,
          mkComma (bool_decide (c = [dquote])) (c_escaped st) false [])
  else if bool_decide (c = [dquote]) then (c, mkComma true (c_escaped st) false (pending_ws st))
  else if bool_decide (c = lit ",") then ([], mkComma false (c_escaped st) true (pending_ws st))
  else (c, st).

Fixpoint strip_commas (st : comma_state) (cs : list bytes) : bytes :=
  match cs with
  | [] => if pending_comma st then lit "," ++ pending_ws st else []
  | c :: cs => let '(out, st') := comma_step st c in out ++ strip_commas st' cs
  end.

Definition strip_trailing_commas (src : bytes) : bytes :=
  strip_commas (mkComma false false false []) (chars src).

(** ** Templates *)

Record SubstCtx := mkSubst { base_url : string; ctx_inbound_key : string; ctx_agent_id : string }.

(** [str::replace]. *)
Fixpoint replace_aux (fuel : nat) (from to l : bytes) : bytes :=
  match fuel, l with
  | S fuel, b :: l' =>
      match str_strip_prefix from l with
      | Some rest => to ++ replace_aux fuel from to rest
      | None => b :: replace_aux fuel from to l'
      end
  | _, _ => l
  end.

Definition str_replace (from to s : string) : string :=
  of_bytes (replace_aux (length (lit s)) (lit from) (lit to) (lit s)).

Definition apply (ctx : SubstCtx) (s : string) : string :=
  str_replace "{agent_id}" (ctx_agent_id ctx)
    (str_replace "{inbound_key}" (ctx_inbound_key ctx)
      (str_replace "{base_url}" (base_url ctx)
        (str_replace "{base_url_v1}" (base_url ctx ++ "/v1") s))).

Definition substitute_value (value : json) (ctx : SubstCtx) : json :=
  match value with JString s => JString (apply ctx s) | other => other end.

(** ** Reading and the operations *)

Section engine.
Context {T : TomlFloat} {serde : SerdeText} `{FloatEq}.

Definition read_jsonc_tolerant (p : string) : cmd json :=
  existing ← read_if_exists p;
  match existing with
  | None => mret (JObject [])
  | Some raw =>
      lift ("cannot parse " ++ p ++ ": ")
        (from_str (strip_trailing_commas (strip_jsonc_comments raw)))
  end.

Definition read_config (p : string) (format : FileFormat) : cmd json :=
  match format with
  | Jsonc => read_jsonc_tolerant p
  | Json =>
      existing ← read_if_exists p;
      if bool_decide (is_Some existing) then read_json_value p else mret (JObject [])
  | Toml => throw "TOML config read is not yet supported by the generic engine"
  end.

(** [.is_ok()] of a read. *)
Definition succeeds {A} (m : cmd A) : cmd bool := fun d =>
  (Ok (match m d with (Ok _, _) => true | (Err _, _) => false end), d).

Definition require_writable (p : string) : cmd unit :=
  existing ← read_if_exists p;
  strict ← succeeds (read_json_value p);
  if negb (bool_decide (is_Some existing)) || strict then mret tt
  else
    tolerant ← succeeds (read_jsonc_tolerant p);
    if tolerant : bool then
      throw (p ++ " uses JSONC syntax (comments and/or trailing commas), which kyris cannot manage without losing it. Convert it to standard JSON (remove the JSONC syntax), then re-run setup.")%string
    else mret tt.

Definition apply_json_set_keys (p : string) (ops : list (list string * json)) (ctx : SubstCtx)
    (c : string) : cmd (list string) :=
  config ← read_json_value p;
  let '(config, modified) :=
    foldl (fun s op =>
      let '(config, changed) := set_json_value_path s.1 op.1 (substitute_value op.2 ctx) in
      (config, s.2 || changed)) (config, false) ops in
  if modified : bool then write_json_value p config c;; mret [("wrote " ++ p)%string] else mret [].

Definition set_governed_permissions (p : string) (format : FileFormat) (c : string)
    : cmd (list string) :=
  config ← read_config p format;
  let '(config, changed) := apply_governed_permissions config in
  if changed : bool then
    write_json_value p config c;;
    mret [("allowed kyris-governed tools in " ++ p ++ " (preserving other native gates)")%string]
  else mret [].

Definition strip_kyris_apikey (p : string) (format : FileFormat) (key_path : list string)
    (inbound c : string) : cmd (list string) :=
  existing ← read_if_exists p;
  match existing with
  | None => mret []
  | Some _ =>
      config ← read_config p format;
      let '(config, removed) :=
        remove_json_string_if config key_path (fun v => String.eqb v inbound || is_kyris_key v) in
      if removed : bool then
        write_json_value p config c;; mret [("removed stale kyris credential in " ++ p)%string]
      else mret []
  end.

Fixpoint json_get (v : json) (p : list string) : option json :=
  match p with [] => Some v | key :: p => child ← get key v; json_get child p end.

Definition set_setting_from_input (p : string) (format : FileFormat) (key_path : list string)
    (value c : string) : cmd (list string) :=
  let dotted := fmt_path key_path in
  match parse_usize (lit value) with
  | None => throw (dotted ++ " must be a non-negative integer, got '" ++ value ++ "'")%string
  | Some n =>
      settings ← read_config p format;
      let parent := take (length key_path - 1) key_path in
      let refused :=
        bool_decide (2 <= length key_path) &&
        match json_get settings parent with
        | Some (JObject _) | Some JNull | None => false
        | Some _ => true
        end in
      if refused : bool then
        throw ("cannot set " ++ dotted ++ ": " ++ p ++ " has a non-object `" ++ fmt_path parent
               ++ "` value; fix it to an object first")%string
      else
        let '(settings, _) := set_json_value_path settings key_path (JNumber (Z.of_N n)) in
        write_json_value p settings c;;
        mret [("set " ++ dotted ++ " in " ++ p)%string]
  end.

(** The [restore_component] undo operation. *)
Definition restore (p scope : string) (delete_if_unmanaged : bool) : cmd unit :=
  restored ← restore_manifest_entry_component p scope;
  if negb restored && delete_if_unmanaged then remove_if_exists p else mret tt.

(** ** Uninstall and a setting the user already had *)

Lemma json_get_value_at v p : json_get v p = value_at v p.
Proof.
  revert v. induction p as [|key p IH]; intros v; [done|]. cbn [json_get value_at].
  destruct v; try done. simpl. by destruct (obj_get key m); simpl.
Qed.

Lemma set_json_value_path_same root key_path v value :
  key_path <> [] -> value_at root key_path = Some v -> json_eqb v value = true ->
  set_json_value_path root key_path value = (root, false).
Proof.
  intros Hne. revert root. induction key_path as [|key rest IH]; intros root Hv Heq; [done|].
  destruct root as [| | | | | |m]; try done. cbn [value_at as_object] in Hv.
  change (as_object (JObject m)) with (Some m) in Hv. simpl in Hv.
  apply bind_Some in Hv as (child & Hc & Hv).
  cbn [set_json_value_path]. change (as_json_object (JObject m)) with m.
  destruct rest as [|key2 rest].
  - simpl in Hv. simplify_eq. by rewrite Hc, Heq.
  - unfold entry_or. rewrite Hc. change (default _ (Some child)) with child.
    rewrite IH by done. by rewrite obj_insert_id.
Qed.

Lemma parent_is_object m key_path v :
  value_at (JObject m) key_path = Some v -> 2 <= length key_path ->
  exists pm, value_at (JObject m) (take (length key_path - 1) key_path) = Some (JObject pm).
Proof.
  intros Hv Hl. destruct key_path as [|key parent _] using rev_ind; [simpl in Hl; lia|].
  rewrite length_app. simpl. rewrite Nat.add_sub, take_app_length.
  rewrite value_at_app in Hv. apply bind_Some in Hv as (w & -> & Hw).
  destruct w; try done. eauto.
Qed.

(** Writing a value the file already has, for the first time under a component. *)
Lemma write_unchanged p c contents sm d :
  files d !! p = Some contents -> from_str contents = Ok (JObject sm) ->
  wf (JObject sm) = true -> from_str (serialized (JObject sm)) = Ok (JObject sm) ->
  find_entry (is_entry p c) (base d) = None ->
  exists b d1, write_json_value p (JObject sm) c d = (Ok b, d1) /\
    files d1 = <[p := serialized (JObject sm)]> (files d) /\
    exists e, path e = p /\ component e = c /\ action e = Created /\
      manifest d1 = Some (base d ++ [e]).
Proof.
  intros Hp Hread Hw Hprint Hfind.
  assert (NoDup sm.*1) as Hnd by by apply wf_object.
  assert (make_json_action (JObject sm) (JObject sm) = Created) as Ha.
  { unfold make_json_action. rewrite diff_equal; [done..|]. by apply json_eqb_spec. }
  unfold write_json_value, WellFormedJsonValidator, write_managed_json, read_json_value,
    record_managed_json_edit, read_if_exists, load_manifest, now_rfc3339, save_manifest, write_file.
  unfold mbind, cmd_bind. rewrite Hprint. cbn [lift mret cmd_ret]. cbv beta.
  rewrite Hp, (bool_decide_eq_true_2 (is_Some (Some contents))) by eauto.
  rewrite Hread. cbn [lift mret cmd_ret]. rewrite Hp. destruct (bool_decide (Some contents = _)) eqn:Hex; cbn [manifest];
    fold (base d); rewrite Hfind, Ha; cbn [mret cmd_ret files manifest time].
  - apply bool_decide_eq_true in Hex. simplify_eq.
    eexists _, _. split; [done|]. cbn [files manifest]. rewrite insert_id by done.
    split; [done|]. by exists (mkEntry p Created c false (time d)).
  - eexists _, _. split; [done|]. split; [done|]. by exists (mkEntry p Created c false (time d)).
Qed.

(** A no-op setup can cost the user the file: when a numeric setting is asked
    for that the configuration already has, and no other edit of the component is
    recorded for it, the write records the file as created by kyris, whoever it
    belongs to, and the undo of the component deletes it with all it holds. *)
Theorem unchanged_setting_deletes_file p c key_path value n contents sm d :
  parse_usize (lit value) = Some n -> key_path <> [] ->
  files d !! p = Some contents -> from_str contents = Ok (JObject sm) ->
  wf (JObject sm) = true -> from_str (serialized (JObject sm)) = Ok (JObject sm) ->
  value_at (JObject sm) key_path = Some (JNumber (Z.of_N n)) ->
  find_entry (is_entry p c) (base d) = None ->
  exists msg d1 d2,
    set_setting_from_input p Json key_path value c d = (Ok msg, d1) /\
    from_str (default [] (files d1 !! p)) = Ok (JObject sm) /\
    restore p c false d1 = (Ok tt, d2) /\ files d2 !! p = None.
Proof.
  intros Hn Hne Hp Hread Hw Hprint Hv Hfind.
  assert (read_config p Json d = (Ok (JObject sm), d)) as Hr.
  { unfold read_config, read_json_value, read_if_exists. unfold mbind, cmd_bind. cbv beta.
    rewrite Hp, bool_decide_eq_true_2 by eauto. cbv beta. by rewrite Hp, Hread. }
  assert (json_eqb (JNumber (Z.of_N n)) (JNumber (Z.of_N n)) = true) as Heq
    by (simpl; apply Z.eqb_refl).
  assert ((bool_decide (2 <= length key_path) &&
        match json_get (JObject sm) (take (length key_path - 1) key_path) with
        | Some (JObject _) | Some JNull | None => false
        | Some _ => true
        end) = false) as Hrefused.
  { destruct (decide (2 <= length key_path)) as [Hl|]; [|by rewrite bool_decide_eq_false_2].
    rewrite bool_decide_eq_true_2, json_get_value_at by done.
    by destruct (parent_is_object _ _ _ Hv Hl) as [pm ->]. }
  assert (exists b d1, write_json_value p (JObject sm) c d = (Ok b, d1) /\
    files d1 = <[p := serialized (JObject sm)]> (files d) /\
    exists e, path e = p /\ component e = c /\ action e = Created /\
      manifest d1 = Some (base d ++ [e])) as (b & d1 & Hwrite & Hf1 & e & He1 & He2 & He3 & Hm1).
  { by apply (write_unchanged p c contents). }
  assert (find_entry (is_entry p c) (base d ++ [e]) = Some (length (base d), e)) as Hlast.
  { apply find_entry_snoc; [done|]. unfold is_entry. by rewrite He1, He2, !String.eqb_refl. }
  destruct (save_or_remove_base (base d)
    (mkDisk (delete p (files d1)) (manifest d1) (time d1))) as (d2 & Hs & Hf2 & _).
  eexists _, d1, d2. split_and!.
  - unfold set_setting_from_input. rewrite Hn. unfold mbind, cmd_bind. rewrite Hr, Hrefused.
    rewrite (set_json_value_path_same _ _ _ _ Hne Hv Heq). by rewrite Hwrite.
  - by rewrite Hf1, lookup_insert_eq.
  - unfold restore, restore_manifest_entry_component, load_manifest. unfold mbind, cmd_bind.
    rewrite Hm1. change (default [] (Some ?l)) with l. rewrite Hlast.
    unfold unapply_entry. rewrite He3, He1. unfold mbind, cmd_bind, remove_if_exists.
    cbn [mret cmd_ret]. by rewrite delete_last, Hs.
  - rewrite Hf2. cbn [files]. by rewrite lookup_delete_eq.
Qed.
End engine.

(** ** Witness *)

#[local] Existing Instance printed_floats.
#[local] Existing Instance one_float.

Definition gemini_settings : json :=
  JObject [("model"%string, JObject [("maxSessionTurns"%string, JNumber 50)]);
           ("theme"%string, JString "dark")].

#[local] Instance gemini_serde : SerdeText := {|
  to_string_pretty _ := lit "settings";
  from_str b := Ok gemini_settings;
  toml_from_str _ := Ok (TTable []);
  toml_to_string_pretty _ := Ok [];
  debug _ := ""%string |}.

Definition gemini_disk : disk :=
  mkDisk {[ "settings.json"%string := lit "settings" ]} None "2026-01-01T00:00:00Z".

Lemma unchanged_setting_deletes_file_witness :
  exists msg d1 d2,
    set_setting_from_input "settings.json" Json ["model"; "maxSessionTurns"]%string "50"
      "gemini-cli:burn-control" gemini_disk = (Ok msg, d1) /\
    from_str (default [] (files d1 !! "settings.json"%string)) = Ok gemini_settings /\
    restore "settings.json" "gemini-cli:burn-control" false d1 = (Ok tt, d2) /\
    files d2 !! "settings.json"%string = None.
Proof.
  apply (unchanged_setting_deletes_file _ _ _ _ 50 (lit "settings")); try done.
Defined.

End Configure.
