(* ===== verification/CompilePolicy.v ===== *)
(** * Policy compilation: [cli/src/compile_policy.rs] and [compile_policy/]

    The user's AgentPact policy is translated into the rules each agent enforces by
    itself, for the time its hook is down.  The maps of a policy are [HashMap]s: a
    traversal comes in an order that differs from run to run ([HashOrder]), and what
    is compiled should not depend on it. *)

From stdpp Require Import gmap pretty.
From S2P Require Import Prelude Text Json Toml.

Module CompilePolicy.
Local Open Scope string_scope.
Local Open Scope list_scope.

(** ** The policy *)

Inductive Permission := Auto | Ask | Deny.
#[export] Instance Permission_eq_dec : EqDecision Permission.
Proof. solve_decision. Defined.

(** [PolicyLevel]; the type of the default is agentpact's. *)
Record PolicyLevel {U : Type} := mkLevel {
  commands : gmap string Permission;
  urls : gmap string Permission;
  paths : gmap string Permission;
  mcp : gmap (string * string) Permission;
  unclassified_default : option U;
}.
Arguments PolicyLevel : clear implicits.
Arguments mkLevel {U}.

Definition default_level {U} : PolicyLevel U := mkLevel ∅ ∅ ∅ ∅ None.

(** The order of one traversal of each map. *)
Record HashOrder := mkOrder {
  by_name : gmap string Permission -> list (string * Permission);
  by_tool : gmap (string * string) Permission -> list (string * string * Permission);
  by_name_perm m : by_name m ≡ₚ map_to_list m;
  by_tool_perm m : by_tool m ≡ₚ map_to_list m;
}.

Program Definition map_order : HashOrder := {| by_name := map_to_list; by_tool := map_to_list |}.
Solve All Obligations with done.

Program Definition reverse_order : HashOrder :=
  {| by_name m := rev (map_to_list m); by_tool m := rev (map_to_list m) |}.
Next Obligation. intros. by rewrite <- Permutation_rev. Qed.
Next Obligation. intros. by rewrite <- Permutation_rev. Qed.

(** What the crate agentpact provides; files are read inside it. *)
Class PolicyLoader := {
  unclassified : Type;
  policy_file : Type;
  load_policy_dir : string -> result (list policy_file) string;
  parse_policy_level : list policy_file -> result (PolicyLevel unclassified) string;
  default_user_policy_dir : string -> string;
  (** The working directory, the home directory, the user's own policy directory;
      nearest level first. *)
  resolve_walk_up : string -> string -> string -> result (list (PolicyLevel unclassified)) string;
  id_to_shell : string -> string;
}.

(** The environment of the process: [HOME], the working directory, and [display] and
    [to_str] of the standard library on paths. *)
Record Env := mkEnv {
  HOME : option string;
  current_dir : result string string;
  display : string -> string;
  to_str : string -> option string;
}.

Section compile.
Context `{PolicyLoader}.

Definition dirs_home (env : Env) : result string string :=
  match HOME env with Some home => Ok home | None => Err "HOME is not set" end.

(** [for (k, v) in source { target.insert(k, v) }], in any order. *)
Definition insert_all {K A} `{Countable K} (entries : list (K * A)) (target : gmap K A) : gmap K A :=
  foldl (fun m e => <[e.1 := e.2]> m) target entries.

Definition merge_level (o : HashOrder) (merged level : PolicyLevel unclassified)
    : PolicyLevel unclassified :=
  mkLevel
    (insert_all (by_name o (commands level)) (commands merged))
    (insert_all (by_name o (urls level)) (urls merged))
    (insert_all (by_name o (paths level)) (paths merged))
    (insert_all (by_tool o (mcp level)) (mcp merged))
    (match unclassified_default level with
     | Some d => Some d
     | None => unclassified_default merged
     end).

(** From the farthest level to the nearest. *)
Definition merge_levels (o : HashOrder) (levels : list (PolicyLevel unclassified))
    : PolicyLevel unclassified :=
  foldl (merge_level o) default_level (rev levels).

Definition load_merged_policy (env : Env) (o : HashOrder) (policy_dir : option string)
    : result (PolicyLevel unclassified) string :=
  match dirs_home env with
  | Err e => Err e
  | Ok home =>
      match policy_dir with
      | Some dir =>
          match load_policy_dir dir with
          | Err e => Err e
          | Ok [] => Err ("No policy files found in " ++ display env dir)%string
          | Ok files => parse_policy_level files
          end
      | None =>
          match current_dir env with
          | Err e => Err ("Cannot determine working directory: " ++ e)%string
          | Ok cwd =>
              let user_policy_dir := default_user_policy_dir home in
              match resolve_walk_up (default "." (to_str env cwd)) home user_policy_dir with
              | Err e => Err e
              | Ok [] =>
                  Err ("No policy files found. Looked for .agentpact/policy/ from "
                       ++ display env cwd ++ " up through " ++ display env home
                       ++ " and " ++ display env user_policy_dir)%string
              | Ok levels => Ok (merge_levels o levels)
              end
          end
      end
  end.

(** ** Cline *)

Definition sort_strings : list string -> list string := sort_by String.leb.

(** The shell forms of the commands with a permission, in the order of traversal. *)
Definition rules_with (p : Permission) (entries : list (string * Permission)) : list string :=
  omap (fun e => if decide (e.2 = p) then Some (id_to_shell e.1) else None) entries.

Definition compile_cline (o : HashOrder) (level : PolicyLevel unclassified) : json * list string :=
  let entries := by_name o (commands level) in
  let allow_rules := sort_strings (rules_with Auto entries) in
  let deny_rules := sort_strings (rules_with Deny entries) in
  let ask_dropped_names := sort_strings (rules_with Ask entries) in
  (JObject [("allow", JArray (JString <$> allow_rules)); ("deny", JArray (JString <$> deny_rules))],
   ask_dropped_names).

(** The compilers read the policy first; [on_policy] is their [?]. *)
Definition on_policy {A} (env : Env) (o : HashOrder) (policy_path : option string)
    (f : PolicyLevel unclassified -> A) : result A string :=
  match load_merged_policy env o policy_path with
  | Err e => Err e
  | Ok level => Ok (f level)
  end.

Definition compile_cline_permissions (env : Env) (o : HashOrder) (policy_path : option string)
    : result (json * list string) string :=
  on_policy env o policy_path (compile_cline o).

(** ** OpenCode *)

Definition perm_str (p : Permission) : string :=
  match p with Auto => "allow" | Deny => "deny" | Ask => "ask" end.

Definition by_key {A} : list (string * A) -> list (string * A) :=
  sort_by (fun a b => String.leb a.1 b.1).

(** Sorted by key and collected into an object: of equal keys the last one counts. *)
Definition sorted_map (entries : list (string * Permission)) : list (string * json) :=
  foldl (fun m e => obj_insert e.1 (JString (perm_str e.2)) m) [] (by_key entries).

Definition insert_unless_empty (key : string) (rules : list (string * json))
    (output : list (string * json)) : list (string * json) :=
  match rules with [] => output | _ => obj_insert key (JObject rules) output end.

Definition shell_entries (entries : list (string * Permission)) : list (string * Permission) :=
  (fun e => (id_to_shell e.1, e.2)) <$> entries.

Definition compile_opencode (o : HashOrder) (level : PolicyLevel unclassified) : json * Z :=
  let bash_rules := sorted_map (shell_entries (by_name o (commands level))) in
  let edit_rules := sorted_map (by_name o (paths level)) in
  let webfetch_rules := sorted_map (by_name o (urls level)) in
  (JObject (insert_unless_empty "webfetch" webfetch_rules
     (insert_unless_empty "edit" edit_rules
       (insert_unless_empty "bash" bash_rules []))), 0%Z).

Definition compile_opencode_permissions (env : Env) (o : HashOrder) (policy_path : option string)
    : result (json * Z) string :=
  on_policy env o policy_path (compile_opencode o).

(** ** Filters on MCP tools *)

Definition add_filter (filters : gmap string (list string)) (e : string * string * Permission)
    : gmap string (list string) :=
  if decide (e.2 = Deny)
  then <[e.1.1 := default [] (filters !! e.1.1) ++ [e.1.2]]> filters
  else filters.

Definition tool_filters (o : HashOrder) (level : PolicyLevel unclassified)
    : gmap string (list string) :=
  sort_strings <$> foldl add_filter ∅ (by_tool o (mcp level)).

Definition compile_mcp_tool_filters (env : Env) (o : HashOrder) (policy_path : option string)
    : result (gmap string (list string)) string :=
  on_policy env o policy_path (tool_filters o).

(** ** Codex: command rules *)

Definition codex_permission (p : Permission) : string :=
  match p with Auto => "Allow" | Deny => "Forbidden" | Ask => "Prompt" end.

Definition codex_rule (e : string * Permission) : json :=
  JObject [("prefix", JString (id_to_shell e.1)); ("permission", JString (codex_permission e.2))].

(** [a[key].as_str().unwrap_or("")]. *)
Definition str_at (key : string) (j : json) : string := default "" (get key j ≫= as_str).

Definition compile_codex (o : HashOrder) (level : PolicyLevel unclassified) : json * Z :=
  (JArray (sort_by (fun a b => String.leb (str_at "prefix" a) (str_at "prefix" b))
     (codex_rule <$> by_name o (commands level))), 0%Z).

Definition compile_codex_permissions (env : Env) (o : HashOrder) (policy_path : option string)
    : result (json * Z) string :=
  on_policy env o policy_path (compile_codex o).

(** Backslashes first, then quotes. *)
Definition escape_token (t : bytes) : bytes :=
  replace_byte dquote [backslash; dquote] (replace_byte backslash [backslash; backslash] t).

Definition quote_token (t : bytes) : bytes := dquote :: escape_token t ++ [dquote].

Fixpoint join_with (sep : bytes) (pieces : list bytes) : bytes :=
  match pieces with
  | [] => []
  | [p] => p
  | p :: pieces => p ++ sep ++ join_with sep pieces
  end.

Definition rule_line (prefix permission : string) : bytes :=
  lit "prefix_rule(pattern=[" ++ join_with (lit ", ") (quote_token <$> split_whitespace (lit prefix))
  ++ lit "], decision=" ++ dquote :: to_ascii_lowercase (lit permission) ++ [dquote] ++ lit ")".

Definition serialize_codex_rules_file (rules : json) : bytes :=
  match as_array rules with
  | None => []
  | Some arr =>
      flat_map (fun rule =>
        rule_line (str_at "prefix" rule) (default "Prompt" (get "permission" rule ≫= as_str))
        ++ [newline]) arr
  end.

(** ** Codex: file system and network *)

Inductive FileAccessMode := ModeNone | ModeRead | ModeWrite.

Definition file_codex_token (m : FileAccessMode) : string :=
  match m with ModeNone => "none" | ModeRead => "read" | ModeWrite => "write" end.

Inductive NetworkAccess := NetAllow | NetDeny.

Definition network_codex_token (a : NetworkAccess) : string :=
  match a with NetAllow => "allow" | NetDeny => "deny" end.

Definition permission_to_file_mode (p : Permission) : FileAccessMode :=
  match p with Auto => ModeWrite | Ask | Deny => ModeNone end.

Definition permission_to_network_access (p : Permission) : NetworkAccess :=
  match p with Auto => NetAllow | Ask | Deny => NetDeny end.

(** [Path::join]: an absolute path replaces the base. *)
Definition path_join (base path : string) : string :=
  if str_starts_with "/" path then path
  else match last (lit base) with
       | None => path
       | Some b => if Ascii.eqb b "/" then base ++ path else base ++ "/" ++ path
       end%string.

Definition to_codex_fs_path (glob workspace_root : string) : string :=
  if String.eqb glob "~" || str_starts_with "/" glob || str_starts_with "~/" glob
     || str_starts_with ":" glob
  then glob
  else
    let rel := default glob (of_bytes <$> str_strip_prefix (lit "./") (lit glob)) in
    path_join workspace_root rel.

(** [str::find]: what follows the first occurrence of [p]. *)
Fixpoint after_first (p l : bytes) : option bytes :=
  match str_strip_prefix p l with
  | Some rest => Some rest
  | None => match l with [] => None | _ :: l' => after_first p l' end
  end.

(** The first piece of a [split] on ["/"]. *)
Fixpoint before_slash (l : bytes) : bytes :=
  match l with
  | [] => []
  | b :: l' => if Ascii.eqb b "/" then [] else b :: before_slash l'
  end.

Definition extract_host (domain_key : string) : string :=
  of_bytes (before_slash (default (lit domain_key) (after_first (lit "://") (lit domain_key)))).

Record CodexPermissionsTable := mkCodexTable {
  filesystem : gmap string string;
  network_domains : gmap string string;
  gaps : list string;
}.

Definition ask_names (entries : list (string * Permission)) : list string :=
  omap (fun e => if decide (e.2 = Ask) then Some e.1 else None) entries.

Definition stripped_urls (entries : list (string * Permission)) : list string :=
  omap (fun e => if String.eqb (extract_host e.1) e.1 then None else Some e.1) entries.

Definition gap (what : string) (names : list string) : list string :=
  match names with
  | [] => []
  | _ => [(pretty (length names) ++ what ++ String.concat ", " names)%string]
  end.

(** [current_dir().unwrap_or("/")]; a rendered path is its lossy form. *)
Definition compile_codex_table (env : Env) (o : HashOrder) (level : PolicyLevel unclassified)
    : CodexPermissionsTable :=
  let workspace_root := match current_dir env with Ok cwd => cwd | Err _ => "/" end in
  let path_entries := by_name o (paths level) in
  let url_entries := by_name o (urls level) in
  mkCodexTable
    (insert_all ((fun e => (display env (to_codex_fs_path e.1 workspace_root),
                            file_codex_token (permission_to_file_mode e.2))) <$> path_entries) ∅)
    (insert_all ((fun e => (extract_host e.1,
                            network_codex_token (permission_to_network_access e.2))) <$> url_entries) ∅)
    (gap " domain rule(s) had URL path components stripped — Codex matches host only: "
       (stripped_urls url_entries)
     ++ gap " ask rule(s) compiled as deny/none in [permissions.kyris] — no prompt path at Codex sandbox layer: "
       (ask_names path_entries ++ ask_names url_entries)).

Definition compile_codex_permissions_table (env : Env) (o : HashOrder) (policy_path : option string)
    : result CodexPermissionsTable string :=
  on_policy env o policy_path (compile_codex_table env o).

(** ** Gemini *)

Definition GEMINI_DENY_PRIORITY : Z := 900.
Definition GEMINI_ALLOW_PRIORITY : Z := 100.

(** The decision of a rule, and the count of asks dropped. *)
Definition decision_for (ask_dropped : Z) (p : Permission) : option (string * Z) * Z :=
  match p with
  | Auto => (Some ("allow", GEMINI_ALLOW_PRIORITY), ask_dropped)
  | Deny => (Some ("deny", GEMINI_DENY_PRIORITY), ask_dropped)
  | Ask => (None, (ask_dropped + 1)%Z)
  end.

(** One of the three loops: [heads_of] are the fields before [decision] of the rules
    of an entry. *)
Definition emit {K} (heads_of : K -> list (list (string * json))) (st : list json * Z)
    (entries : list (K * Permission)) : list json * Z :=
  foldl (fun st e =>
    let '(rules, ask_dropped) := st in
    match decision_for ask_dropped e.2 with
    | (None, asked) => (rules, asked)
    | (Some (decision, priority), asked) =>
        (rules ++ ((fun head => JObject (head ++ [("decision", JString decision);
                                                  ("priority", JNumber priority)]))
                   <$> heads_of e.1), asked)
    end) st entries.

Definition command_heads (command_id : string) : list (list (string * json)) :=
  [[("toolName", JString "run_shell_command"); ("commandPrefix", JString (id_to_shell command_id))]].

Definition FILE_TOOLS : list string := ["read_file"; "write_file"; "replace"].

Section gemini.
(** [regex::escape]. *)
Context (regex_escape : bytes -> bytes).

(** [replace(r"\*", ".*")] in the escaped glob. *)
Fixpoint unescape_stars (l : bytes) : bytes :=
  match l with
  | b1 :: ((b2 :: l') as l1) =>
      if Ascii.eqb b1 backslash && Ascii.eqb b2 "*" then "."%char :: "*"%char :: unescape_stars l'
      else b1 :: unescape_stars l1
  | _ => l
  end.

Definition file_path_field : bytes := dquote :: lit "file_path" ++ [dquote; ":"%char; dquote].

Definition path_regex (path_pattern : string) : bytes :=
  file_path_field ++ unescape_stars (regex_escape (lit path_pattern)) ++ [dquote].

Definition path_heads (path_pattern : string) : list (list (string * json)) :=
  (fun tool_name => [("toolName", JString tool_name);
                     ("argsPattern", JString (of_bytes (path_regex path_pattern)))]) <$> FILE_TOOLS.

Definition mcp_heads (st : string * string) : list (list (string * json)) :=
  [[("toolName", JString ("mcp_" ++ st.1 ++ "_" ++ st.2)%string)]].

Definition then_with (c : comparison) (d : comparison) : comparison :=
  match c with Eq => d | _ => c end.

Definition rule_compare (a b : json) : comparison :=
  then_with (String.compare (str_at "toolName" a) (str_at "toolName" b))
    (then_with (String.compare (str_at "commandPrefix" a) (str_at "commandPrefix" b))
      (String.compare (str_at "argsPattern" a) (str_at "argsPattern" b))).

Definition rule_leb (a b : json) : bool :=
  match rule_compare a b with Gt => false | _ => true end.

Definition compile_gemini (o : HashOrder) (level : PolicyLevel unclassified) : json * Z :=
  let st := emit command_heads ([], 0%Z) (by_name o (commands level)) in
  let st := emit path_heads st (by_name o (paths level)) in
  let '(rules, ask_dropped) := emit mcp_heads st (by_tool o (mcp level)) in
  (JArray (sort_by rule_leb rules), ask_dropped).

Definition compile_gemini_permissions (env : Env) (o : HashOrder) (policy_path : option string)
    : result (json * Z) string :=
  on_policy env o policy_path (compile_gemini o).
End gemini.

(** ** Gemini's policy file *)

Record GeminiPolicyRule := mkGeminiRule {
  tool_name : option string;
  command_prefix : option string;
  args_pattern : option string;
  decision : option string;
  priority : option Z;
}.

Definition gemini_policy_rule (rule : json) : GeminiPolicyRule :=
  mkGeminiRule (get "toolName" rule ≫= as_str) (get "commandPrefix" rule ≫= as_str)
    (get "argsPattern" rule ≫= as_str) (get "decision" rule ≫= as_str)
    ((get "priority" rule ≫= as_u64) ≫= (fun p => if (p <? 4294967296)%Z then Some p else None)).

Definition policy_header : string :=
  of_bytes (lit "# Generated by Kyris — AgentPact compiled policy for Gemini CLI" ++ [newline]
    ++ lit "# Loads at the USER tier (~/.gemini/policies = effective priority 4.x);" ++ [newline]
    ++ lit "# kyris denies sit at 900 (hard to shadow), allows at 100 (any user rule" ++ [newline]
    ++ lit "# above 100 and every deny outranks them). Admin tier (5.x) always wins." ++ [newline; newline]).

Section policy_file.
Context `{TomlFloat}.
(** [toml::to_string] on a policy file, and [toml::from_str]. *)
Context (toml_to_string : list GeminiPolicyRule -> result string string)
  (toml_from_str : string -> result toml string).

Definition serialize_gemini_policy_toml (rules : json) : string :=
  match as_array rules with
  | None | Some [] => policy_header
  | Some arr =>
      match toml_to_string (gemini_policy_rule <$> arr) with
      | Ok body => policy_header ++ body
      | Err e => policy_header ++ "# ERROR: failed to serialize policy: " ++ e ++ of_bytes [newline]
      end%string
  end.

Definition is_str (t : toml) : bool := match t with TString _ => true | _ => false end.

Definition rule_is_loadable (rule : toml) : bool :=
  match as_table rule with
  | None => false
  | Some table =>
      let tool_ok :=
        match tbl_get "toolName" table with
        | Some (TString _) => true
        | Some (TArray names) =>
            match names with [] => false | _ => forallb is_str names end
        | _ => false
        end in
      let decision_ok :=
        match tbl_get "decision" table ≫= tas_str with
        | Some d => bool_decide (d ∈ ["allow"; "deny"; "ask_user"])
        | None => false
        end in
      let priority_ok :=
        match tbl_get "priority" table with
        | Some (TInteger p) => (0 <=? p)%Z && (p <=? 999)%Z
        | Some (TFloat p) => f64_integral_below_1000 p
        | _ => false
        end in
      tool_ok && decision_ok && priority_ok
  end.

Definition gemini_policy_file_is_loadable (contents : string) : bool :=
  match toml_from_str contents with
  | Err _ => false
  | Ok value =>
      match tget "rule" value ≫= tas_array with
      | None | Some [] => false
      | Some rules => forallb rule_is_loadable rules
      end
  end.
End policy_file.

(** ** The command: [kyris policy compile] *)

Inductive printed :=
| Stdout (j : json)
| Stderr (line : string)
| Exit (status : Z).

Definition print_compiled_cline (env : Env) (o : HashOrder) (policy_path : option string) : list printed :=
  match compile_cline_permissions env o policy_path with
  | Ok (output, ask_dropped) =>
      Stdout output ::
      match ask_dropped with
      | [] => []
      | _ => [Stderr ("Warning: " ++ pretty (length ask_dropped) ++ " ask rules dropped: "
                      ++ String.concat ", " ask_dropped)%string]
      end
  | Err e => [Stderr e; Exit 1]
  end.

Definition print_compiled (compiled : result (json * Z) string) : list printed :=
  match compiled with
  | Ok (output, ask_dropped) =>
      Stdout output ::
      (if (0 <? ask_dropped)%Z
       then [Stderr ("Warning: " ++ pretty ask_dropped ++ " ask rules were dropped.")%string]
       else [])
  | Err e => [Stderr e; Exit 1]
  end.

Definition run (regex_escape : bytes -> bytes) (env : Env) (o : HashOrder) (agent : string)
    (policy : option string) : list printed :=
  if String.eqb agent "cline" then print_compiled_cline env o policy
  else if String.eqb agent "opencode" then print_compiled (compile_opencode_permissions env o policy)
  else if String.eqb agent "codex-cli" then print_compiled (compile_codex_permissions env o policy)
  else if String.eqb agent "gemini-cli" then
    print_compiled (compile_gemini_permissions regex_escape env o policy)
  else [Stderr ("Unsupported agent for policy compilation: " ++ agent)%string;
        Stderr "Supported: cline, opencode, codex-cli, gemini-cli"; Exit 1].

(** ** Maps and orders *)

Lemma insert_all_lookup {K A} `{Countable K} (entries : list (K * A)) m k :
  NoDup entries.*1 ->
  insert_all entries m !! k =
    match list_to_map (M := gmap K A) entries !! k with Some v => Some v | None => m !! k end.
Proof using Type.
  revert m. unfold insert_all. induction entries as [|[k1 v1] l IH]; intros m Hnd; simpl; [by rewrite lookup_empty|].
  apply NoDup_cons in Hnd as [Hk1 Hnd]. rewrite IH by done.
  destruct (decide (k = k1)) as [->|Hne].
  - rewrite lookup_insert_eq, (not_elem_of_list_to_map_1 l k1) by done. by rewrite lookup_insert_eq.
  - rewrite !lookup_insert_ne by done. done.
Qed.

(** Inserting all entries of a map is the left-biased union. *)
Lemma insert_all_union {K A} `{Countable K} (entries : list (K * A)) (m1 m : gmap K A) :
  entries ≡ₚ map_to_list m1 -> insert_all entries m = m1 ∪ m.
Proof using Type.
  intros Hp. assert (NoDup entries.*1) as Hnd by (rewrite Hp; apply NoDup_fst_map_to_list).
  apply map_eq. intros k. rewrite insert_all_lookup by done.
  rewrite (list_to_map_proper _ _ Hnd Hp), list_to_map_to_list, lookup_union.
  by destruct (m1 !! k), (m !! k).
Qed.

(** With keys that may coincide, a value comes from one of the entries. *)
Lemma insert_all_elem {K A} `{Countable K} (entries : list (K * A)) m k v :
  insert_all entries m !! k = Some v -> (k, v) ∈ entries \/ m !! k = Some v.
Proof using Type.
  revert m. unfold insert_all. induction entries as [|[k1 v1] l IH]; intros m; simpl; [auto|].
  intros [Hin|Hm]%IH; [set_solver|]. destruct (decide (k = k1)) as [->|Hne].
  - rewrite lookup_insert_eq in Hm. simplify_eq. set_solver.
  - rewrite lookup_insert_ne in Hm by done. auto.
Qed.

Lemma insert_all_is_Some {K A} `{Countable K} (entries : list (K * A)) m k :
  is_Some (insert_all entries m !! k) <-> k ∈ entries.*1 \/ is_Some (m !! k).
Proof using Type.
  revert m. unfold insert_all. induction entries as [|[k1 v1] l IH]; intros m; simpl; [set_solver|].
  rewrite IH. rewrite elem_of_cons. destruct (decide (k = k1)) as [->|Hne].
  - rewrite lookup_insert_eq. naive_solver.
  - rewrite lookup_insert_ne by done. naive_solver.
Qed.

Lemma by_name_elem o m k p : (k, p) ∈ by_name o m <-> m !! k = Some p.
Proof using Type. by rewrite by_name_perm, elem_of_map_to_list. Qed.

Lemma by_name_orders o o' m : by_name o m ≡ₚ by_name o' m.
Proof using Type. by rewrite !by_name_perm. Qed.

Lemma by_tool_orders o o' m : by_tool o m ≡ₚ by_tool o' m.
Proof using Type. by rewrite !by_tool_perm. Qed.

(** The reference: a key has the permission of the nearest level that names it. *)
Definition nearest {K A} `{Countable K} (field : PolicyLevel unclassified -> gmap K A)
    (levels : list (PolicyLevel unclassified)) (k : K) : option A :=
  head (omap (fun level => field level !! k) levels).

Lemma merge_levels_cons o level levels :
  merge_levels o (level :: levels) = merge_level o (merge_levels o levels) level.
Proof using Type. unfold merge_levels. simpl. by rewrite foldl_app. Qed.

(** C16. The merged policy is the nearest one: for every command, URL, path and MCP
    tool, and for the default, the merge has what the nearest level naming it says,
    whatever order the maps are traversed in. *)
Theorem merged_policy_nearest o levels :
  (forall k, commands (merge_levels o levels) !! k = nearest commands levels k) /\
  (forall k, urls (merge_levels o levels) !! k = nearest urls levels k) /\
  (forall k, paths (merge_levels o levels) !! k = nearest paths levels k) /\
  (forall k, mcp (merge_levels o levels) !! k = nearest mcp levels k) /\
  unclassified_default (merge_levels o levels) = head (omap unclassified_default levels).
Proof using Type.
  unfold nearest. induction levels as [|level levels (Hc & Hu & Hp & Hm & Hd)]; [done|].
  rewrite merge_levels_cons. unfold merge_level. simpl.
  rewrite !insert_all_union with (m1 := commands level) by apply by_name_perm.
  rewrite !insert_all_union with (m1 := urls level) by apply by_name_perm.
  rewrite !insert_all_union with (m1 := paths level) by apply by_name_perm.
  rewrite !insert_all_union with (m1 := mcp level) by apply by_tool_perm.
  assert (forall A (x : option A) l, x ∪ head l = head (match x with Some a => a :: l | None => l end))
    as Hhead by (intros A [] []; done).
  split; [intros k; rewrite lookup_union, Hc; apply Hhead|].
  split; [intros k; rewrite lookup_union, Hu; apply Hhead|].
  split; [intros k; rewrite lookup_union, Hp; apply Hhead|].
  split; [intros k; rewrite lookup_union, Hm; apply Hhead|].
  rewrite Hd. by destruct (unclassified_default level).
Qed.

(** ** Independence of the order of traversal *)

(** Keys with the same native form have the same permission. *)
Definition unambiguous {K B} `{Countable K} (f : K -> B) (m : gmap K Permission) : Prop :=
  forall k k' p p', m !! k = Some p -> m !! k' = Some p' -> f k = f k' -> p = p'.

Lemma sort_strings_perm l l' : l ≡ₚ l' -> sort_strings l = sort_strings l'.
Proof using Type.
  apply sort_by_canonical; [apply String.leb_total|apply string_leb_trans|].
  intros x y _ _. apply String.leb_antisym.
Qed.

Lemma by_key_perm {A} (l l' : list (string * A)) :
  (forall x y, x ∈ l -> y ∈ l -> x.1 = y.1 -> x = y) -> l ≡ₚ l' -> by_key l = by_key l'.
Proof using Type.
  intros Huniq. apply sort_by_canonical.
  - intros x y. apply String.leb_total.
  - intros x y z. apply string_leb_trans.
  - intros x y Hx Hy H1 H2. apply Huniq; [done..|]. by apply String.leb_antisym.
Qed.

Lemma rules_with_perm p l l' : l ≡ₚ l' -> rules_with p l ≡ₚ rules_with p l'.
Proof using Type. unfold rules_with. by intros ->. Qed.

Lemma sorted_map_perm l l' :
  (forall x y, x ∈ l -> y ∈ l -> x.1 = y.1 -> x = y) -> l ≡ₚ l' -> sorted_map l = sorted_map l'.
Proof using Type. intros Hu Hp. unfold sorted_map. by rewrite (by_key_perm l l'). Qed.

Lemma by_name_keys o m x y : x ∈ by_name o m -> y ∈ by_name o m -> x.1 = y.1 -> x = y.
Proof using Type.
  destruct x as [k p], y as [k' p']. rewrite !by_name_elem. simpl. intros H1 H2 ->. congruence.
Qed.

Lemma shell_entries_keys o m x y :
  unambiguous id_to_shell m ->
  x ∈ shell_entries (by_name o m) -> y ∈ shell_entries (by_name o m) -> x.1 = y.1 -> x = y.
Proof using Type.
  intros Hu ((k & p) & -> & H1)%list_elem_of_fmap ((k' & p') & -> & H2)%list_elem_of_fmap.
  apply by_name_elem in H1, H2. simpl. intros Hk. f_equal; [done|]. by eapply Hu.
Qed.

(** The tools of a server that are denied, in the order of the entries. *)
Definition denied_tools (server : string) (l : list (string * string * Permission)) : list string :=
  omap (fun e => if decide (e.1.1 = server /\ e.2 = Deny) then Some e.1.2 else None) l.

Lemma denied_tools_cons server s tool p l :
  denied_tools server ((s, tool, p) :: l) =
    (if decide (s = server /\ p = Deny) then [tool] else []) ++ denied_tools server l.
Proof using Type. unfold denied_tools. simpl. by case_decide. Qed.

Lemma add_filter_lookup l m server :
  foldl add_filter m l !! server =
    match denied_tools server l with
    | [] => m !! server
    | ts => Some (default [] (m !! server) ++ ts)
    end.
Proof using Type.
  revert m. induction l as [|[[s tool] p] l IH]; intros m; [done|].
  cbn [foldl]. rewrite IH, denied_tools_cons. unfold add_filter. cbn [fst snd].
  destruct (decide (p = Deny)) as [->|Hp].
  - destruct (decide (s = server)) as [->|Hs].
    + rewrite (decide_True (P := server = server /\ Deny = Deny)), lookup_insert_eq by done. simpl.
      destruct (denied_tools server l); [done|]. by rewrite <- app_assoc.
    + rewrite (decide_False (P := s = server /\ Deny = Deny)) by naive_solver. simpl.
      by rewrite lookup_insert_ne by done.
  - by rewrite (decide_False (P := s = server /\ p = Deny)) by naive_solver.
Qed.

Lemma tool_filters_lookup o level server :
  tool_filters o level !! server =
    match denied_tools server (by_tool o (mcp level)) with
    | [] => None
    | ts => Some (sort_strings ts)
    end.
Proof using Type.
  unfold tool_filters. rewrite lookup_fmap, add_filter_lookup, lookup_empty.
  by destruct (denied_tools server _).
Qed.

Lemma tool_filters_orders o o' level : tool_filters o level = tool_filters o' level.
Proof using Type.
  apply map_eq. intros server. rewrite !tool_filters_lookup.
  assert (denied_tools server (by_tool o (mcp level)) ≡ₚ denied_tools server (by_tool o' (mcp level)))
    as Hp by (unfold denied_tools; by rewrite (by_tool_orders o o')).
  pose proof (sort_strings_perm _ _ Hp) as Hs.
  destruct (denied_tools server (by_tool o _)), (denied_tools server (by_tool o' _)); try done.
  - by apply Permutation_nil_l in Hp.
  - by apply Permutation_nil_r in Hp.
  - by rewrite Hs.
Qed.

(** *** Gemini's rules *)

Definition rules_of {K} (heads_of : K -> list (list (string * json))) (e : K * Permission) : list json :=
  match decision_for 0 e.2 with
  | (None, _) => []
  | (Some (decision, priority), _) =>
      (fun head => JObject (head ++ [("decision", JString decision); ("priority", JNumber priority)]))
      <$> heads_of e.1
  end.

Definition asks {K} (entries : list (K * Permission)) : Z :=
  Z.of_nat (length (filter (fun e => e.2 = Ask) entries)).

Lemma emit_spec {K} (heads_of : K -> list (list (string * json))) st entries :
  emit heads_of st entries = (st.1 ++ flat_map (rules_of heads_of) entries, (st.2 + asks entries)%Z).
Proof using Type.
  unfold emit. revert st. induction entries as [|[k p] l IH]; intros [rules n].
  { simpl. by rewrite app_nil_r, Z.add_0_r. }
  cbn [foldl]. rewrite IH. unfold asks. rewrite filter_cons. cbn [flat_map fst snd].
  destruct p; simpl; rewrite <- ?app_assoc; try done. f_equal; lia.
Qed.

Definition gemini_rules (regex_escape : bytes -> bytes) (o : HashOrder)
    (level : PolicyLevel unclassified) : list json :=
  flat_map (rules_of command_heads) (by_name o (commands level))
  ++ flat_map (rules_of (path_heads regex_escape)) (by_name o (paths level))
  ++ flat_map (rules_of mcp_heads) (by_tool o (mcp level)).

Lemma compile_gemini_spec regex_escape o level :
  compile_gemini regex_escape o level =
    (JArray (sort_by rule_leb (gemini_rules regex_escape o level)),
     (asks (by_name o (commands level)) + asks (by_name o (paths level))
      + asks (by_tool o (mcp level)))%Z).
Proof using Type.
  unfold compile_gemini. rewrite !emit_spec. cbn [fst snd]. unfold gemini_rules.
  by rewrite app_nil_l, <- app_assoc, Z.add_0_l.
Qed.

#[local] Instance flat_map_Permutation {A B} (f : A -> list B) : Proper ((≡ₚ) ==> (≡ₚ)) (flat_map f).
Proof using Type.
  intros l l' Hp. induction Hp; simpl; [done|by f_equiv| |by etrans].
  by rewrite !app_assoc, (Permutation_app_comm (f y) (f x)).
Qed.

Lemma asks_Permutation {K} (l l' : list (K * Permission)) : l ≡ₚ l' -> asks l = asks l'.
Proof using Type. unfold asks. by intros ->. Qed.

Lemma gemini_rules_orders regex_escape o o' level :
  gemini_rules regex_escape o level ≡ₚ gemini_rules regex_escape o' level.
Proof using Type.
  unfold gemini_rules.
  by rewrite (by_name_orders o o' (commands level)), (by_name_orders o o' (paths level)),
    (by_tool_orders o o' (mcp level)).
Qed.

(** The order of rules is that of a triple of strings. *)
Lemma then_with_trans (x y z : string) c d e :
  (c <> Gt -> d <> Gt -> e <> Gt) ->
  then_with (String.compare x y) c <> Gt -> then_with (String.compare y z) d <> Gt ->
  then_with (String.compare x z) e <> Gt.
Proof using Type.
  intros Hcde. destruct (String.compare x y) eqn:E1, (String.compare y z) eqn:E2; simpl; try done;
    repeat match goal with H : String.compare _ _ = Eq |- _ => apply String.compare_eq_iff in H as -> end.
  - intros. destruct (String.compare z z) eqn:Ez; simpl; [auto|done|].
    pose proof (String.compare_antisym z z) as Ha. by rewrite Ez in Ha.
  - by rewrite E2.
  - by rewrite E1.
  - assert (String.compare x z = Lt) as ->; [|done].
    apply string_ltb_compare. eapply string_ltb_trans; by apply string_ltb_compare.
Qed.

Lemma rule_leb_compare a b : rule_leb a b = true <-> rule_compare a b <> Gt.
Proof using Type. unfold rule_leb. by destruct (rule_compare a b). Qed.

Lemma rule_compare_antisym a b : rule_compare a b = CompOpp (rule_compare b a).
Proof using Type.
  unfold rule_compare, then_with.
  rewrite (String.compare_antisym (str_at "toolName" a)),
    (String.compare_antisym (str_at "commandPrefix" a)), (String.compare_antisym (str_at "argsPattern" a)).
  by destruct (String.compare (str_at "toolName" b) _), (String.compare (str_at "commandPrefix" b) _),
    (String.compare (str_at "argsPattern" b) _).
Qed.

Lemma rule_leb_total a b : rule_leb a b = true \/ rule_leb b a = true.
Proof using Type.
  rewrite !rule_leb_compare, (rule_compare_antisym b a). destruct (rule_compare a b); simpl; naive_solver.
Qed.

Lemma rule_leb_trans a b c : rule_leb a b = true -> rule_leb b c = true -> rule_leb a c = true.
Proof using Type.
  rewrite !rule_leb_compare. unfold rule_compare.
  apply then_with_trans, then_with_trans. intros H1 H2.
  assert (forall x y z, String.compare x y <> Gt -> String.compare y z <> Gt -> String.compare x z <> Gt)
    as Ht; [|by eapply Ht].
  intros x y z Hxy Hyz. pose proof (string_leb_trans x y z) as Ht. unfold String.leb in Ht.
  destruct (String.compare x y), (String.compare y z), (String.compare x z); try done;
    by specialize (Ht eq_refl eq_refl).
Qed.

Lemma rule_leb_antisym a b :
  rule_leb a b = true -> rule_leb b a = true ->
  str_at "toolName" a = str_at "toolName" b /\ str_at "commandPrefix" a = str_at "commandPrefix" b /\
  str_at "argsPattern" a = str_at "argsPattern" b.
Proof using Type.
  rewrite !rule_leb_compare, (rule_compare_antisym b a).
  intros H1 H2. assert (rule_compare a b = Eq) as E by by destruct (rule_compare a b).
  clear H1 H2. unfold rule_compare, then_with in E.
  repeat (destruct (String.compare _ _) eqn:? in E; try done).
  split_and!; by apply String.compare_eq_iff.
Qed.

(** The rule of a head with a permission that is not an ask. *)
Definition gemini_rule (head : list (string * json)) (p : Permission) : json :=
  JObject (head ++
    match p with
    | Auto => [("decision", JString "allow"); ("priority", JNumber GEMINI_ALLOW_PRIORITY)]
    | _ => [("decision", JString "deny"); ("priority", JNumber GEMINI_DENY_PRIORITY)]
    end).

Lemma elem_of_rules_of {K} (heads_of : K -> list (list (string * json))) r entries :
  r ∈ flat_map (rules_of heads_of) entries <->
  exists k p head, (k, p) ∈ entries /\ p <> Ask /\ head ∈ heads_of k /\ r = gemini_rule head p.
Proof using Type.
  rewrite list_elem_of_In, in_flat_map. split.
  - intros ([k p] & Hin & Hr). apply list_elem_of_In in Hin, Hr.
    destruct p; simpl in Hr; try (by apply elem_of_nil in Hr);
      apply list_elem_of_fmap in Hr as (head & -> & Hh); eexists k, _, head; by split_and!.
  - intros (k & p & head & Hin & Hp & Hh & ->). exists (k, p). rewrite <- !list_elem_of_In.
    split; [done|]. destruct p; simpl; try done; apply list_elem_of_fmap; eauto.
Qed.

(** What a rule is about: three strings. *)
Definition rule_keys (r : json) : string * string * string :=
  (str_at "toolName" r, str_at "commandPrefix" r, str_at "argsPattern" r).

Inductive rule_for (regex_escape : bytes -> bytes) (level : PolicyLevel unclassified)
    : Permission -> string * string * string -> json -> Prop :=
| rule_command k p :
    commands level !! k = Some p -> p <> Ask ->
    rule_for regex_escape level p ("run_shell_command", id_to_shell k, "")
      (gemini_rule [("toolName", JString "run_shell_command"); ("commandPrefix", JString (id_to_shell k))] p)
| rule_path tool k p :
    paths level !! k = Some p -> p <> Ask -> tool ∈ FILE_TOOLS ->
    rule_for regex_escape level p (tool, "", of_bytes (path_regex regex_escape k))
      (gemini_rule [("toolName", JString tool);
                    ("argsPattern", JString (of_bytes (path_regex regex_escape k)))] p)
| rule_mcp server tool p :
    mcp level !! (server, tool) = Some p -> p <> Ask ->
    rule_for regex_escape level p (("mcp_" ++ server ++ "_" ++ tool)%string, "", "")
      (gemini_rule [("toolName", JString ("mcp_" ++ server ++ "_" ++ tool)%string)] p).

Lemma rule_for_keys regex_escape level p ks r : rule_for regex_escape level p ks r -> rule_keys r = ks.
Proof using Type. by intros [k [] ? ?|tool k [] ? ? ?|server tool [] ? ?]. Qed.

(** The rules are exactly those of the entries that are not asks. *)
Lemma gemini_rules_elem regex_escape o level r :
  r ∈ gemini_rules regex_escape o level <-> exists p ks, rule_for regex_escape level p ks r.
Proof using Type.
  unfold gemini_rules. rewrite !elem_of_app, !elem_of_rules_of. split.
  - intros [(k & p & head & Hin & Hp & Hh & ->)|[(k & p & head & Hin & Hp & Hh & ->)|
            ([s tool] & p & head & Hin & Hp & Hh & ->)]].
    + apply by_name_elem in Hin. apply list_elem_of_singleton in Hh as ->. eauto using rule_command.
    + apply by_name_elem in Hin. apply list_elem_of_fmap in Hh as (tool & -> & Htool).
      eauto using rule_path.
    + rewrite by_tool_perm, elem_of_map_to_list in Hin. apply list_elem_of_singleton in Hh as ->.
      eauto using rule_mcp.
  - intros (p & ks & [k p' Hk Hp|tool k p' Hk Hp Htool|s tool p' Hk Hp]).
    + left. eexists k, p', _. rewrite by_name_elem. split_and!; [done|done|by left|done].
    + right. left. eexists k, p', _. rewrite by_name_elem. split_and!; [done..| |done].
      apply list_elem_of_fmap. eauto.
    + right. right. eexists (s, tool), p', _. rewrite by_tool_perm, elem_of_map_to_list.
      split_and!; [done|done|by left|done].
Qed.

Definition mcp_name (st : string * string) : string := ("mcp_" ++ st.1 ++ "_" ++ st.2)%string.

(** Rules about the same thing are the same. *)
Lemma rule_for_unique regex_escape level p ks r p' ks' r' :
  unambiguous id_to_shell (commands level) ->
  unambiguous (path_regex regex_escape) (paths level) -> unambiguous mcp_name (mcp level) ->
  rule_for regex_escape level p ks r -> rule_for regex_escape level p' ks' r' -> ks = ks' -> r = r'.
Proof using Type.
  intros Hc Hp Hm H1 H2 Hks.
  pose proof (f_equal snd Hks) as Hargs. pose proof (f_equal (fun t => snd (fst t)) Hks) as Hprefix.
  pose proof (f_equal (fun t => fst (fst t)) Hks) as Htool. clear Hks.
  destruct H1, H2; cbn [fst snd] in *;
    try (exfalso; repeat match goal with H : _ ∈ FILE_TOOLS |- _ =>
      apply elem_of_cons in H as [->|[->|[->|[]%elem_of_nil]%elem_of_cons]%elem_of_cons] end;
    discriminate).
  - rewrite Hprefix. f_equal. by eapply Hc.
  - assert (path_regex regex_escape k = path_regex regex_escape k0) as E.
    { rewrite <- (lit_of_bytes (path_regex regex_escape k)), <- (lit_of_bytes (path_regex regex_escape k0)).
      by f_equal. }
    rewrite E, Htool. f_equal. by eapply Hp.
  - rewrite Htool. f_equal. by eapply Hm.
Qed.

Lemma str_at_prefix e : str_at "prefix" (codex_rule e) = id_to_shell e.1.
Proof using Type. done. Qed.

Lemma compile_codex_spec o level :
  (compile_codex o level).1 =
    JArray (codex_rule <$> sort_by (fun a b => String.leb (id_to_shell a.1) (id_to_shell b.1))
                             (by_name o (commands level))).
Proof using Type. unfold compile_codex. simpl. by rewrite sort_by_fmap. Qed.

(** What is compiled does not depend on the order in which the maps of a policy
    are traversed, which differs from run to run.  For Cline and the MCP filters this
    always holds; for the other targets it holds if entries with the same native form
    have the same permission. *)
Theorem compiled_order_independent regex_escape o o' level :
  compile_cline o level = compile_cline o' level /\
  tool_filters o level = tool_filters o' level /\
  (unambiguous id_to_shell (commands level) ->
   compile_opencode o level = compile_opencode o' level /\
   compile_codex o level = compile_codex o' level /\
   (unambiguous (path_regex regex_escape) (paths level) -> unambiguous mcp_name (mcp level) ->
    compile_gemini regex_escape o level = compile_gemini regex_escape o' level)).
Proof using Type.
  split; [|split; [apply tool_filters_orders|intros Hc; split; [|split]]].
  - unfold compile_cline. pose proof (by_name_orders o o' (commands level)) as Hp.
    by rewrite !(sort_strings_perm _ _ (rules_with_perm _ _ _ Hp)).
  - unfold compile_opencode. f_equal.
    rewrite (sorted_map_perm (shell_entries (by_name o (commands level)))
               (shell_entries (by_name o' (commands level)))),
      (sorted_map_perm (by_name o (paths level)) (by_name o' (paths level))),
      (sorted_map_perm (by_name o (urls level)) (by_name o' (urls level)));
      eauto using by_name_orders, by_name_keys, shell_entries_keys.
    unfold shell_entries. by rewrite (by_name_orders o o').
  - pose proof (compile_codex_spec o level) as E. pose proof (compile_codex_spec o' level) as E'.
    assert ((compile_codex o level).1 = (compile_codex o' level).1) as Heq;
      [|unfold compile_codex in *; by f_equal].
    rewrite E, E'. f_equal.
    rewrite <- !(sort_by_fmap codex_rule (fun a b => String.leb (str_at "prefix" a) (str_at "prefix" b))).
    apply sort_by_canonical; [intros; apply String.leb_total|intros ? ? ?; apply string_leb_trans| |].
    + intros x y ((k & p) & -> & H1)%list_elem_of_fmap ((k' & p') & -> & H2)%list_elem_of_fmap.
      apply by_name_elem in H1, H2. intros Hl Hl'. pose proof (String.leb_antisym _ _ Hl Hl') as Hk.
      rewrite !str_at_prefix in Hk. simpl in Hk. unfold codex_rule. simpl.
      by rewrite Hk, (Hc _ _ _ _ H1 H2 Hk).
    + by rewrite (by_name_orders o o').
  - intros Hp Hm. rewrite !compile_gemini_spec. f_equal.
    + f_equal. apply sort_by_canonical; [apply rule_leb_total|apply rule_leb_trans| |].
      * intros x y (p & ks & H1)%gemini_rules_elem (p' & ks' & H2)%gemini_rules_elem Hl Hl'.
        eapply rule_for_unique; [done..|].
        rewrite <- (rule_for_keys _ _ _ _ _ H1), <- (rule_for_keys _ _ _ _ _ H2).
        destruct (rule_leb_antisym _ _ Hl Hl') as (E1 & E2 & E3). unfold rule_keys. congruence.
      * apply gemini_rules_orders.
    + by rewrite (asks_Permutation _ _ (by_name_orders o o' (commands level))),
        (asks_Permutation _ _ (by_name_orders o o' (paths level))),
        (asks_Permutation _ _ (by_tool_orders o o' (mcp level))).
Qed.

(** ** Reading Codex rules back

    The reference: a reader of the generated lines, with the escapes of a Starlark
    string that the writer uses. *)

Fixpoint read_string (l : bytes) : option (bytes * bytes) :=
  match l with
  | [] => None
  | b :: l' =>
      if Ascii.eqb b dquote then Some ([], l')
      else if Ascii.eqb b backslash then
        match l' with
        | c :: l'' =>
            if Ascii.eqb c dquote || Ascii.eqb c backslash
            then '(s, rest) ← read_string l''; Some (c :: s, rest)
            else None
        | [] => None
        end
      else '(s, rest) ← read_string l'; Some (b :: s, rest)
  end.

(** The elements of a list up to its bracket; as many as there are bytes at most. *)
Fixpoint read_strings (fuel : nat) (l : bytes) : option (list bytes * bytes) :=
  match fuel, l with
  | S fuel', b :: l' =>
      if Ascii.eqb b "]" then Some ([], l')
      else if Ascii.eqb b dquote then
        '(s, rest) ← read_string l';
        match str_strip_prefix (lit ", ") rest with
        | Some rest' => '(ss, rest'') ← read_strings fuel' rest'; Some (s :: ss, rest'')
        | None => rest' ← str_strip_prefix (lit "]") rest; Some ([s], rest')
        end
      else None
  | _, _ => None
  end.

Definition read_rule (l : bytes) : option (list bytes * bytes) :=
  l1 ← str_strip_prefix (lit "prefix_rule(pattern=[") l;
  '(tokens, l2) ← read_strings (length l1) l1;
  l3 ← str_strip_prefix (lit ", decision=" ++ [dquote]) l2;
  '(decision, l4) ← read_string l3;
  match str_strip_prefix (lit ")") l4 with
  | Some [] => Some (tokens, decision)
  | _ => None
  end.

Definition read_rules (contents : bytes) : option (list (list bytes * bytes)) :=
  mapM read_rule (split_newlines contents).

Definition escape_byte (b : ascii) : bytes :=
  if Ascii.eqb b dquote then [backslash; dquote]
  else if Ascii.eqb b backslash then [backslash; backslash]
  else [b].

Lemma escape_token_bytes t : escape_token t = flat_map escape_byte t.
Proof using Type.
  unfold escape_token, replace_byte. induction t as [|b t IH]; [done|].
  cbn [flat_map]. rewrite flat_map_app, IH. f_equal. unfold escape_byte.
  destruct (Ascii.eqb_spec b backslash) as [->|]; [done|].
  cbn [flat_map]. by destruct (Ascii.eqb b dquote).
Qed.

Lemma read_string_quoted t rest : read_string (escape_token t ++ dquote :: rest) = Some (t, rest).
Proof using Type.
  rewrite escape_token_bytes. induction t as [|b t IH]; [done|].
  cbn [flat_map]. rewrite <- app_assoc. unfold escape_byte at 1.
  destruct (Ascii.eqb_spec b dquote) as [->|Hq]; [cbn; by rewrite IH|].
  destruct (Ascii.eqb_spec b backslash) as [->|Hb]; [cbn; by rewrite IH|].
  cbn [app read_string]. apply Ascii.eqb_neq in Hq, Hb. rewrite Hq, Hb, IH. done.
Qed.

Lemma str_strip_prefix_app p l : str_strip_prefix p (p ++ l) = Some l.
Proof using Type.
  unfold str_strip_prefix. rewrite starts_with_app. by rewrite drop_app_length.
Qed.

Lemma read_strings_list tokens rest fuel :
  length tokens < fuel ->
  read_strings fuel (join_with (lit ", ") (quote_token <$> tokens) ++ "]"%char :: rest) =
    Some (tokens, rest).
Proof using Type.
  revert fuel. induction tokens as [|t tokens IH]; intros [|fuel] Hf; simpl in Hf; try lia; [done|].
  destruct tokens as [|t' tokens].
  - cbn [fmap list_fmap join_with]. unfold quote_token. cbn [app read_strings].
    rewrite (eq_refl : Ascii.eqb dquote "]" = false), Ascii.eqb_refl.
    rewrite <- app_assoc. cbn [app]. by rewrite read_string_quoted.
  - change (join_with (lit ", ") (quote_token <$> t :: t' :: tokens))
      with (quote_token t ++ lit ", " ++ join_with (lit ", ") (quote_token <$> t' :: tokens)).
    unfold quote_token at 1. rewrite <- !app_assoc. cbn [app read_strings].
    rewrite (eq_refl : Ascii.eqb dquote "]" = false), Ascii.eqb_refl.
    rewrite <- app_assoc. cbn [app]. rewrite read_string_quoted. cbn [mbind option_bind].
    rewrite str_strip_prefix_app, IH by (simpl in *; lia). done.
Qed.

Lemma join_length tokens : length tokens <= length (join_with (lit ", ") (quote_token <$> tokens)).
Proof using Type.
  induction tokens as [|t [|t' tokens] IH]; [done|simpl; lia|].
  change (join_with (lit ", ") (quote_token <$> t :: t' :: tokens))
    with (quote_token t ++ lit ", " ++ join_with (lit ", ") (quote_token <$> t' :: tokens)).
  rewrite !length_app. unfold quote_token at 1. cbn [length] in *. lia.
Qed.

(** A decision of letters needs no escapes. *)
Lemma read_rule_line prefix permission :
  escape_token (to_ascii_lowercase (lit permission)) = to_ascii_lowercase (lit permission) ->
  read_rule (rule_line prefix permission) =
    Some (split_whitespace (lit prefix), to_ascii_lowercase (lit permission)).
Proof using Type.
  intros Hesc. unfold read_rule, rule_line. rewrite str_strip_prefix_app. cbn [mbind option_bind].
  set (tokens := split_whitespace (lit prefix)).
  change (lit "], decision=") with ("]"%char :: lit ", decision="). cbn [app].
  rewrite read_strings_list by (rewrite length_app; cbn [length]; pose proof (join_length tokens); lia).
  cbn [mbind option_bind].
  rewrite <- Hesc at 1. cbn [app].
  change (lit ", decision=" ++ dquote :: ?x) with ((lit ", decision=" ++ [dquote]) ++ x).
  rewrite str_strip_prefix_app. cbn [mbind option_bind]. rewrite read_string_quoted. done.
Qed.

Lemma join_newline_free pieces :
  Forall (fun p => newline ∉ p) pieces -> newline ∉ join_with (lit ", ") pieces.
Proof using Type.
  induction 1 as [|p pieces Hp Hps IH]; [by apply not_elem_of_nil|].
  destruct pieces as [|p' pieces]; [done|].
  change (join_with (lit ", ") (p :: p' :: pieces)) with (p ++ lit ", " ++ join_with (lit ", ") (p' :: pieces)).
  rewrite !not_elem_of_app. split_and!; [done| |done]. vm_decided.
Qed.

Lemma quote_token_newline_free t : newline ∉ t -> newline ∉ quote_token t.
Proof using Type.
  intros Ht. unfold quote_token. rewrite escape_token_bytes, not_elem_of_cons, not_elem_of_app.
  split_and!; [done| |vm_decided].
  rewrite list_elem_of_In, in_flat_map. intros (b & Hb & Hin). apply list_elem_of_In in Hb, Hin.
  revert Hin. unfold escape_byte.
  destruct (Ascii.eqb b dquote); [vm_decided|].
  destruct (Ascii.eqb b backslash); [vm_decided|].
  intros <-%list_elem_of_singleton. done.
Qed.

Definition codex_decision (p : Permission) : bytes :=
  lit (match p with Auto => "allow" | Deny => "forbidden" | Ask => "prompt" end).

Lemma codex_decision_lowercase p : to_ascii_lowercase (lit (codex_permission p)) = codex_decision p.
Proof using Type. by destruct p. Qed.

Lemma rule_line_newline_free prefix p : newline ∉ rule_line prefix (codex_permission p).
Proof using Type.
  unfold rule_line. rewrite codex_decision_lowercase, !not_elem_of_app, not_elem_of_cons, !not_elem_of_app.
  split; [vm_decided|]. split; [|split; [vm_decided|split; [done|]]];
    [|split; [destruct p; vm_decided|split; vm_decided]].
  apply join_newline_free, Forall_fmap. eapply Forall_impl; [apply split_whitespace_spec|].
  intros t [_ Ht]. by apply quote_token_newline_free.
Qed.

Definition line_of (e : string * Permission) : bytes :=
  rule_line (id_to_shell e.1) (codex_permission e.2).

Lemma serialize_codex_lines entries :
  serialize_codex_rules_file (JArray (codex_rule <$> entries)) =
    concat ((fun m => m ++ [newline]) <$> (line_of <$> entries)).
Proof using Type.
  unfold serialize_codex_rules_file. cbn [as_array]. induction entries as [|e entries IH]; [done|].
  cbn [fmap list_fmap flat_map concat]. rewrite <- IH. done.
Qed.

Lemma mapM_read_lines entries :
  mapM read_rule (line_of <$> entries) =
    Some ((fun e => (split_whitespace (lit (id_to_shell e.1)), codex_decision e.2)) <$> entries).
Proof using Type.
  apply mapM_Some, Forall2_fmap_2, Forall_Forall2_diag, Forall_forall. intros [k p] _.
  unfold line_of. cbn [fst snd]. rewrite read_rule_line by by destruct p.
  by rewrite codex_decision_lowercase.
Qed.

(** The rules file written for Codex reads back as the policy: one rule per
    command, in the order of their shell forms, whose pattern is the words of the
    shell form, also those with quotes and backslashes, and whose decision is the
    permission of the policy. *)
Theorem codex_rules_read_back o level :
  exists entries,
    entries ≡ₚ map_to_list (commands level) /\
    StronglySorted (fun a b => String.leb (id_to_shell a.1) (id_to_shell b.1) = true) entries /\
    read_rules (serialize_codex_rules_file (compile_codex o level).1) =
      Some ((fun e => (split_whitespace (lit (id_to_shell e.1)), codex_decision e.2)) <$> entries).
Proof using Type.
  set (entries := sort_by (fun a b => String.leb (id_to_shell a.1) (id_to_shell b.1))
                    (by_name o (commands level))).
  exists entries. split; [|split].
  - unfold entries. by rewrite sort_by_Permutation, by_name_perm.
  - apply sort_by_sorted; [intros; apply String.leb_total|intros ? ? ?; apply string_leb_trans].
  - rewrite compile_codex_spec. fold entries. unfold read_rules. rewrite serialize_codex_lines.
    rewrite split_newlines_lines.
    + rewrite mapM_read_lines. done.
    + apply Forall_fmap, Forall_forall. intros [k p] _. apply rule_line_newline_free.
Qed.

(** ** Codex: the tables *)

(** The native keys of a path and of a URL. *)
Definition codex_root (env : Env) : string :=
  match current_dir env with Ok cwd => cwd | Err _ => "/" end.

Definition codex_path (env : Env) (glob : string) : string :=
  display env (to_codex_fs_path glob (codex_root env)).

Section native.
Context (native : string -> string) (token : Permission -> string) (o : HashOrder)
  (policy : gmap string Permission).

Definition native_map : gmap string string :=
  insert_all ((fun e => (native e.1, token e.2)) <$> by_name o policy) ∅.

Lemma native_map_from k v :
  native_map !! k = Some v -> exists g p, policy !! g = Some p /\ native g = k /\ token p = v.
Proof using Type.
  intros [Hin|Hv]%insert_all_elem; [|by rewrite lookup_empty in Hv].
  apply list_elem_of_fmap in Hin as ([g p] & [= -> ->] & Hin). apply by_name_elem in Hin. eauto.
Qed.

Lemma native_map_covers g p : policy !! g = Some p -> is_Some (native_map !! native g).
Proof using Type.
  intros Hg. apply insert_all_is_Some. left. rewrite <- list_fmap_compose. apply list_elem_of_fmap.
  exists (g, p). by rewrite by_name_elem.
Qed.

Lemma native_map_exact g p :
  unambiguous native policy -> policy !! g = Some p -> native_map !! native g = Some (token p).
Proof using Type.
  intros Hu Hg. destruct (native_map_covers g p Hg) as [v Hv].
  destruct (native_map_from _ _ Hv) as (g' & p' & Hg' & Hn & <-).
  by rewrite (Hu _ _ _ _ Hg Hg' (eq_sym Hn)), Hv.
Qed.
End native.

Lemma gap_nil what names : gap what names = [] <-> names = [].
Proof using Type. by destruct names. Qed.

Lemma ask_names_nil o m : ask_names (by_name o m) = [] <-> forall k, m !! k <> Some Ask.
Proof using Type.
  unfold ask_names. split.
  - intros Hn k Hk. apply (by_name_elem o) in Hk. apply (elem_of_nil k). rewrite <- Hn.
    apply list_elem_of_omap. by exists (k, Ask).
  - intros Hall. apply elem_of_nil_inv. intros k ([k' p] & Hin & Hk)%list_elem_of_omap.
    apply by_name_elem in Hin. simpl in Hk. case_decide; naive_solver.
Qed.

Lemma stripped_urls_nil o m :
  stripped_urls (by_name o m) = [] <-> forall k, is_Some (m !! k) -> extract_host k = k.
Proof using Type.
  unfold stripped_urls. split.
  - intros Hn k [p Hk]. apply (by_name_elem o) in Hk. destruct (String.eqb_spec (extract_host k) k) as [|Hne]; [done|].
    exfalso. apply (elem_of_nil k). rewrite <- Hn. apply list_elem_of_omap. exists (k, p).
    split; [done|]. simpl. by destruct (String.eqb_spec (extract_host k) k).
  - intros Hall. apply elem_of_nil_inv. intros k ([k' p] & Hin & Hk)%list_elem_of_omap.
    apply by_name_elem in Hin. simpl in Hk. rewrite Hall, String.eqb_refl in Hk by eauto. done.
Qed.

(** The tables compiled for Codex's sandbox fail closed and say what they lose.
    A path is writable, and a host reachable, only where the policy has an [auto]
    entry of that native form; every entry of the policy has its native key there,
    with its own permission where no other entry shares the key; and no warning is
    given exactly if there is no ask and every URL is a bare host. *)
Theorem codex_table_fails_closed env o level :
  let table := compile_codex_table env o level in
  (forall k, filesystem table !! k = Some "write" ->
     exists g, paths level !! g = Some Auto /\ codex_path env g = k) /\
  (forall h, network_domains table !! h = Some "allow" ->
     exists u, urls level !! u = Some Auto /\ extract_host u = h) /\
  (forall g p, paths level !! g = Some p ->
     is_Some (filesystem table !! codex_path env g) /\
     (unambiguous (codex_path env) (paths level) ->
      filesystem table !! codex_path env g = Some (if decide (p = Auto) then "write" else "none"))) /\
  (forall u p, urls level !! u = Some p ->
     is_Some (network_domains table !! extract_host u) /\
     (unambiguous extract_host (urls level) ->
      network_domains table !! extract_host u = Some (if decide (p = Auto) then "allow" else "deny"))) /\
  (gaps table = [] <->
     (forall g, paths level !! g <> Some Ask) /\
     (forall u, urls level !! u <> Some Ask) /\
     (forall u, is_Some (urls level !! u) -> extract_host u = u)).
Proof using Type.
  intros table.
  change (filesystem table) with
    (native_map (codex_path env) (fun p => file_codex_token (permission_to_file_mode p)) o (paths level)).
  change (network_domains table) with
    (native_map extract_host (fun p => network_codex_token (permission_to_network_access p)) o (urls level)).
  repeat match goal with |- _ /\ _ => split end.
  - intros k (g & [] & Hg & Hk & Ht)%native_map_from; try done. eauto.
  - intros k (g & [] & Hg & Hk & Ht)%native_map_from; try done. eauto.
  - intros g p Hg. split; [by eapply native_map_covers|]. intros Hu.
    rewrite (native_map_exact _ _ _ _ g p) by done. by destruct p.
  - intros g p Hg. split; [by eapply native_map_covers|]. intros Hu.
    rewrite (native_map_exact _ _ _ _ g p) by done. by destruct p.
  - simpl. rewrite app_nil, !gap_nil, app_nil, !ask_names_nil, stripped_urls_nil. naive_solver.
Qed.

End compile.

(** ** Gemini: the pattern of a path rule

    The reference: how a regular expression of the generated shape is read, and what
    it matches.  [regex::escape] puts a backslash before every metacharacter. *)

Inductive tok := Char (b : ascii) | AnyRun.

Fixpoint read_regex (l : bytes) : list tok :=
  match l with
  | [] => []
  | b :: l' =>
      match l' with
      | [] => [Char b]
      | c :: l'' =>
          if Ascii.eqb b backslash then Char c :: read_regex l''
          else if Ascii.eqb b "." && Ascii.eqb c "*" then AnyRun :: read_regex l''
          else Char b :: read_regex l'
      end
  end.

(** A run is of characters other than a line feed. *)
Inductive matches : list tok -> bytes -> Prop :=
| matches_nil : matches [] []
| matches_char b ts l : matches ts l -> matches (Char b :: ts) (b :: l)
| matches_run run ts l : newline ∉ run -> matches ts l -> matches (AnyRun :: ts) (run ++ l).

(** A search: the pattern anywhere in the text. *)
Definition found (pattern : bytes) (text : bytes) : Prop :=
  exists pre m post, text = pre ++ m ++ post /\ matches (read_regex pattern) m.

Definition star : ascii := "*".

(** The glob of a policy as it is meant: a star is a run, all else is itself. *)
Definition glob_toks (g : bytes) : list tok :=
  (fun b => if Ascii.eqb b star then AnyRun else Char b) <$> g.

Section path_regex.
Context (is_meta : ascii -> bool)
  (Hbackslash : is_meta backslash = true) (Hstar : is_meta star = true)
  (Hdot : is_meta "."%char = true).

Definition escape_all (l : bytes) : bytes :=
  flat_map (fun b => if is_meta b then [backslash; b] else [b]) l.

Context (regex_escape : bytes -> bytes) (Hescape : forall l, regex_escape l = escape_all l).

Definition starred (l : bytes) : bytes :=
  flat_map (fun b => if Ascii.eqb b star then ["."%char; star]
                     else if is_meta b then [backslash; b] else [b]) l.

Lemma escape_all_head l : head (escape_all l) <> Some star.
Proof using Hstar.
  destruct l as [|b l]; [done|]. cbn [escape_all flat_map]. destruct (is_meta b) eqn:E; [done|].
  simpl. congruence.
Qed.

Lemma unescape_stars_plain b l :
  b <> backslash \/ head l <> Some star -> unescape_stars (b :: l) = b :: unescape_stars l.
Proof using Type.
  intros Hb. destruct l as [|c l]; [done|]. cbn [unescape_stars].
  destruct (Ascii.eqb_spec b backslash); [|done]. destruct (Ascii.eqb_spec c "*"); [|done].
  subst. naive_solver.
Qed.

Lemma unescape_stars_escape l : unescape_stars (escape_all l) = starred l.
Proof using Hstar Hbackslash.
  induction l as [|b l IH]; [done|]. cbn [escape_all starred flat_map].
  fold (escape_all l) (starred l).
  destruct (Ascii.eqb_spec b star) as [->|Hb].
  { rewrite Hstar. cbn [app]. simpl. by rewrite IH. }
  destruct (is_meta b) eqn:Em; cbn [app].
  - rewrite unescape_stars_plain by (right; naive_solver).
    rewrite unescape_stars_plain by (right; apply escape_all_head). by rewrite IH.
  - rewrite unescape_stars_plain by (left; intros ->; congruence). by rewrite IH.
Qed.

Lemma read_regex_starred l rest :
  (forall c, head rest = Some c -> is_meta c = false) ->
  read_regex (starred l ++ rest) = glob_toks l ++ read_regex rest.
Proof using Hstar Hbackslash Hdot.
  intros Hrest. induction l as [|b l IH]; [done|]. cbn [starred flat_map glob_toks fmap list_fmap].
  fold (starred l). fold (glob_toks l). rewrite <- app_assoc.
  destruct (Ascii.eqb_spec b star) as [->|Hb].
  { change (AnyRun :: read_regex (starred l ++ rest) = AnyRun :: (glob_toks l ++ read_regex rest)).
    by rewrite IH. }
  destruct (is_meta b) eqn:Em.
  { change (Char b :: read_regex (starred l ++ rest) = Char b :: (glob_toks l ++ read_regex rest)).
    by rewrite IH. }
  change (read_regex (b :: (starred l ++ rest)) = Char b :: (glob_toks l ++ read_regex rest)).
  rewrite <- IH. clear IH. cbn [read_regex].
  assert (Ascii.eqb b backslash = false) as -> by (apply Ascii.eqb_neq; congruence).
  assert (Ascii.eqb b "." = false) as -> by (apply Ascii.eqb_neq; congruence).
  by destruct (starred l ++ rest).
Qed.

Hypothesis Hquote : is_meta dquote = false.

Lemma read_field l : read_regex (file_path_field ++ l) = (Char <$> file_path_field) ++ read_regex l.
Proof using Type. by destruct l. Qed.

Lemma path_regex_reads g :
  read_regex (path_regex regex_escape g) =
    (Char <$> file_path_field) ++ glob_toks (lit g) ++ [Char dquote].
Proof using Hstar Hbackslash Hdot Hescape Hquote.
  unfold path_regex. rewrite read_field, Hescape, unescape_stars_escape, read_regex_starred; [done|].
  by intros c [= <-].
Qed.

Lemma matches_app ts1 ts2 l :
  matches (ts1 ++ ts2) l <-> exists l1 l2, l = l1 ++ l2 /\ matches ts1 l1 /\ matches ts2 l2.
Proof using Type.
  split.
  - revert l. induction ts1 as [|t ts1 IH]; intros l Hm.
    { exists [], l. by repeat constructor. }
    inversion Hm as [|b ts l' Hm'|run ts l' Hrun Hm']; subst;
      destruct (IH _ Hm') as (l1 & l2 & -> & H1 & H2).
    + exists (b :: l1), l2. by repeat constructor.
    + exists (run ++ l1), l2. rewrite app_assoc. by repeat constructor.
  - intros (l1 & l2 & -> & H1 & H2). induction H1; simpl; [done|by constructor|].
    rewrite <- app_assoc. by constructor.
Qed.

Lemma matches_chars p l : matches (Char <$> p) l <-> l = p.
Proof using Type.
  revert l. induction p as [|b p IH]; intros l; (split; [intros Hm; inversion Hm; subst|intros ->]);
    simpl; try done; try (by constructor); [f_equal; by apply IH|constructor; by apply IH].
Qed.

(** The pattern written for a path of the policy finds a call exactly where the
    arguments hold the field [file_path] with an opening quote, then a text that the
    glob matches (a star stands for any run, everything else for itself, no matter
    what it means in a regular expression), then a quote. *)
Theorem path_rule_matches g text :
  found (path_regex regex_escape g) text <->
  exists pre m post, text = pre ++ file_path_field ++ m ++ [dquote] ++ post /\
                     matches (glob_toks (lit g)) m.
Proof using Hstar Hbackslash Hdot Hescape Hquote.
  unfold found. rewrite path_regex_reads. setoid_rewrite matches_app. setoid_rewrite matches_app.
  setoid_rewrite matches_chars. change [Char dquote] with (Char <$> [dquote]).
  setoid_rewrite matches_chars. split.
  - intros (pre & m & post & -> & l1 & l2 & -> & -> & l3 & l4 & -> & Hm & ->).
    exists pre, l3, post. by rewrite <- !app_assoc.
  - intros (pre & m & post & -> & Hm). exists pre, (file_path_field ++ m ++ [dquote]), post.
    split; [by rewrite <- !app_assoc|]. exists file_path_field, (m ++ [dquote]).
    split; [done|]. split; [done|]. by exists m, [dquote].
Qed.

(** Without a star only the path itself. *)
Lemma glob_toks_exact g m : star ∉ g -> matches (glob_toks g) m <-> m = g.
Proof using Type.
  intros Hs. rewrite <- matches_chars. unfold glob_toks.
  assert ((fun b => if Ascii.eqb b star then AnyRun else Char b) <$> g = Char <$> g) as ->; [|done].
  apply list_fmap_ext. intros i b Hb. destruct (Ascii.eqb_spec b star) as [->|]; [|done].
  destruct Hs. by eapply list_elem_of_lookup_2.
Qed.

(** A star does not stop at the closing quote: the call may be about another file, if
    a later field of the arguments ends as the glob does. *)
Theorem star_crosses_fields a b pre other post :
  star ∉ lit a -> star ∉ lit b -> newline ∉ other ->
  found (path_regex regex_escape (a ++ "*" ++ b)%string)
    (pre ++ file_path_field ++ (lit a ++ other ++ lit b) ++ [dquote] ++ post).
Proof using Hstar Hbackslash Hdot Hescape Hquote.
  intros Ha Hb Hn. apply path_rule_matches. exists pre, (lit a ++ other ++ lit b), post. split; [done|].
  rewrite !lit_app. unfold glob_toks. rewrite !fmap_app. apply matches_app.
  exists (lit a), (other ++ lit b). split; [done|].
  split; [by apply glob_toks_exact|]. apply (matches_run other); [done|]. by apply glob_toks_exact.
Qed.
End path_regex.

(** ** Gemini: the policy file loads *)

Section policy_loads.
Context `{PolicyLoader} `{TomlFloat}.
Context (regex_escape : bytes -> bytes)
  (toml_to_string : list GeminiPolicyRule -> result string string)
  (toml_from_str : string -> result toml string).

(** The document of a policy file: a table per rule, of the fields that are there. *)
Definition field {A} (key : string) (f : A -> toml) (x : option A) : list (string * toml) :=
  match x with Some a => [(key, f a)] | None => [] end.

Definition rule_table (r : GeminiPolicyRule) : toml :=
  TTable (field "argsPattern" TString (args_pattern r) ++
          field "commandPrefix" TString (command_prefix r) ++
          field "decision" TString (decision r) ++
          field "priority" TInteger (priority r) ++
          field "toolName" TString (tool_name r)).

Definition policy_document (rules : list GeminiPolicyRule) : toml :=
  TTable [("rule", TArray (rule_table <$> rules))].

Lemma rule_for_loadable level p ks r :
  rule_for regex_escape level p ks r -> rule_is_loadable (rule_table (gemini_policy_rule r)) = true.
Proof using Type. by intros [k [] ? ?|tool k [] ? ? ?|server tool [] ? ?]. Qed.

(** What [kyris policy compile] writes for Gemini, Gemini loads.  If the policy has
    an entry that is not an ask, the rules serialise, and the file parses as the
    document of those rules, then the file passes the loader's contract: a rule table,
    and each rule with a tool, a lowercase decision and a priority within bounds. *)
Theorem compiled_gemini_policy_loads o level body :
  let rules := sort_by rule_leb (gemini_rules regex_escape o level) in
  gemini_rules regex_escape o level <> [] ->
  toml_to_string (gemini_policy_rule <$> rules) = Ok body ->
  toml_from_str (policy_header ++ body)%string = Ok (policy_document (gemini_policy_rule <$> rules)) ->
  gemini_policy_file_is_loadable toml_from_str
    (serialize_gemini_policy_toml toml_to_string (compile_gemini regex_escape o level).1) = true.
Proof using Type.
  intros rules Hne Hto Hfrom. rewrite compile_gemini_spec. fold rules. cbn [fst].
  assert (rules <> []) as Hr.
  { intros E. apply Hne, Permutation_nil_r. rewrite <- E. unfold rules. by rewrite sort_by_Permutation. }
  assert (Forall (fun r => rule_is_loadable (rule_table (gemini_policy_rule r)) = true) rules) as Hall.
  { apply Forall_forall. intros r Hin. unfold rules in Hin. rewrite sort_by_Permutation in Hin.
    apply gemini_rules_elem in Hin as (p & ks & Hin). by eapply rule_for_loadable. }
  unfold serialize_gemini_policy_toml. cbn [as_array]. clearbody rules.
  destruct rules as [|r rules]; [done|]. rewrite Hto. unfold gemini_policy_file_is_loadable.
  rewrite Hfrom. unfold policy_document. cbn [tget as_table mbind option_bind tbl_get].
  rewrite String.eqb_refl. cbn [mbind option_bind tas_array fmap list_fmap].
  apply forallb_forall. intros x Hx. rewrite Forall_forall in Hall.
  change (In x (rule_table <$> (gemini_policy_rule <$> r :: rules))) in Hx.
  apply list_elem_of_In in Hx. rewrite <- list_fmap_compose in Hx.
  apply list_elem_of_fmap in Hx as (r' & -> & Hr'). by apply Hall.
Qed.
End policy_loads.

(** ** A policy that is compiled *)

Module Sample.

Definition level : PolicyLevel unit :=
  mkLevel (list_to_map [("git status", Auto); ("rm -rf", Deny); ("docker build", Ask)])
    (list_to_map [("api.example.com/v1", Auto); ("api.example.com/admin", Deny)])
    (list_to_map [("/tmp/safe/*", Auto); ("/etc/secrets", Deny)])
    (list_to_map [(("fs", "read_file"), Auto); (("fs", "delete_file"), Deny)]) None.

#[local] Instance loader : PolicyLoader := {|
  unclassified := unit;
  policy_file := unit;
  load_policy_dir _ := Ok [tt];
  parse_policy_level _ := Ok level;
  default_user_policy_dir home := (home ++ "/.agentpact/policy")%string;
  resolve_walk_up _ _ _ := Ok [level];
  id_to_shell id := id;
|}.

Definition env : Env :=
  mkEnv (Some "/home/u") (Ok "/home/u/project") (fun p => p) (fun p => Some p).

(** The metacharacters that [regex::escape] documents. *)
Definition is_meta (b : ascii) : bool :=
  bool_decide (b ∈ lit "\.+*?()|[]{}^$#&-~").

#[local] Existing Instance one_float.

Definition rules : list GeminiPolicyRule :=
  gemini_policy_rule <$> sort_by rule_leb (gemini_rules (escape_all is_meta) map_order level).

(** Two URLs of the policy with the same host are one key of Codex's table, and
    which of them counts is up to the order of the map: the same policy, with one path
    of the host allowed and another denied, opens the whole host in one run and closes
    it in another. *)
Theorem codex_hosts_depend_on_order :
  let compiled o := compile_codex_table env o level in
  network_domains (compiled map_order) !! "api.example.com" <>
    network_domains (compiled reverse_order) !! "api.example.com" /\
  (network_domains (compiled map_order) !! "api.example.com" = Some "allow" \/
   network_domains (compiled reverse_order) !! "api.example.com" = Some "allow").
Proof. split; [|(by left + by right)]; vm_compute; congruence. Qed.

Lemma compiled_order_independent_witness :
  unambiguous id_to_shell (commands level) /\
  compile_codex map_order level = compile_codex reverse_order level.
Proof.
  assert (unambiguous id_to_shell (commands level)) as Hu.
  { intros k k' p p' H1 H2 Hk. simpl in Hk. subst k'. rewrite H1 in H2. by injection H2. }
  split; [exact Hu|].
  exact (proj1 (proj2 (proj2 (proj2 (compiled_order_independent (escape_all is_meta) map_order
    reverse_order level)) Hu))).
Defined.

(** The arguments of a read of the denied file. *)
Definition secrets_call : bytes :=
  lit "{" ++ file_path_field ++ lit "/etc/secrets" ++ [dquote] ++ lit "}".

Lemma path_rule_matches_witness :
  is_meta backslash = true /\ is_meta star = true /\ is_meta "."%char = true /\
  is_meta dquote = false /\ found (path_regex (escape_all is_meta) "/etc/secrets") secrets_call.
Proof.
  split; [reflexivity|]. split; [reflexivity|]. split; [reflexivity|]. split; [reflexivity|].
  apply (path_rule_matches is_meta (eq_refl : is_meta backslash = true) (eq_refl : is_meta star = true)
    (eq_refl : is_meta "."%char = true) (escape_all is_meta) (fun l => eq_refl)
    (eq_refl : is_meta dquote = false)).
  exists (lit "{"), (lit "/etc/secrets"), (lit "}"). split; [reflexivity|].
  apply glob_toks_exact; [vm_decided|reflexivity].
Defined.

Definition to_string (_ : list GeminiPolicyRule) : result string string := Ok "body".

Definition from_str (s : string) : result toml string :=
  if String.eqb s (policy_header ++ "body")%string then Ok (policy_document rules) else Err "".

Lemma compiled_gemini_policy_loads_witness :
  gemini_policy_file_is_loadable from_str
    (serialize_gemini_policy_toml to_string (@compile_gemini loader (escape_all is_meta) map_order level).1)
  = true.
Proof.
  apply (@compiled_gemini_policy_loads loader one_float (escape_all is_meta) to_string from_str map_order level "body").
  - vm_compute. discriminate.
  - reflexivity.
  - unfold from_str. rewrite String.eqb_refl. reflexivity.
Defined.
End Sample.
End CompilePolicy.
