(* ===== verification/Sandbox.v ===== *)
(** * The session sandbox: [exec/src/main.rs], [exec/src/profile.rs]

    [kyris-exec] resolves a launch into the roots a jailed agent may write, announces
    them to agentpactd and replaces itself by the sandboxed command.  The compiler
    from a specification to the launcher's arguments is agentpact-sandbox's. *)

From stdpp Require Import gmap pretty.
From S2P Require Import Prelude Text.

Module Sandbox.
Local Open Scope string_scope.
Local Open Scope list_scope.

(** ** Paths

    [Path::components] of a Unix path: a slash at the start is the root; repeated
    slashes, slashes at the end and dots after the start are dropped. *)

Inductive component := RootDir | CurDir | ParentDir | Normal (name : string).
#[export] Instance component_eq_dec : EqDecision component.
Proof. solve_decision. Defined.

Fixpoint split_slashes (current l : bytes) : list bytes :=
  match l with
  | [] => [current]
  | b :: l' =>
      if Ascii.eqb b "/" then current :: split_slashes [] l' else split_slashes (current ++ [b]) l'
  end.

Definition component_of (piece : bytes) : option component :=
  match of_bytes piece with
  | "" | "." => None
  | ".." => Some ParentDir
  | name => Some (Normal name)
  end.

Definition is_absolute (path : string) : bool := str_starts_with "/" path.

Definition components (path : string) : list component :=
  let pieces := split_slashes [] (lit path) in
  if is_absolute path then RootDir :: omap component_of pieces
  else match pieces with
       | piece :: rest =>
           if bool_decide (of_bytes piece = ".") then CurDir :: omap component_of rest
           else omap component_of pieces
       | [] => []
       end.

(** [Path::starts_with]: by components. *)
Definition path_starts_with (path base : string) : bool :=
  bool_decide (take (length (components base)) (components path) = components base).

(** [Path::join] of a relative path that is not empty. *)
Definition join (base path : string) : string :=
  match last (lit base) with
  | None => path
  | Some b => if Ascii.eqb b "/" then base ++ path else base ++ "/" ++ path
  end%string.

(** ** agentpact-sandbox *)

Inductive NetworkPolicy := NetOff | NetFull.

Inductive ReadAccess := ReadFullDisk | ReadRoots (paths : list string).

(** [WritableRoot] and the compiler of specifications; the names that
    [with_default_protections] keeps read-only are the crate's. *)
Class SandboxCrate := {
  default_protected_names : list string;
}.

Record WritableRoot := mkRoot { root : string; protected_metadata_names : list string }.
#[export] Instance WritableRoot_eq_dec : EqDecision WritableRoot.
Proof. solve_decision. Defined.

Definition with_default_protections `{SandboxCrate} (path : string) : WritableRoot :=
  mkRoot path default_protected_names.

Definition unprotected (path : string) : WritableRoot := mkRoot path [].

Record SandboxSpec := mkSpec {
  writable_roots : list WritableRoot;
  read_access : ReadAccess;
  network : NetworkPolicy;
  allow_unix_sockets : list string;
}.

(** The environment and the file system. *)
Record Env := mkEnv {
  var_os : string -> option string;
  is_dir : string -> bool;
  canonicalize : string -> option string;
  current_dir : result string string;
  to_string_lossy : string -> string;
  read_to_string : string -> result string string;
}.

Section profile.
Context `{SandboxCrate} (macos : bool) (env : Env).

Definition canonicalize_or_keep (path : string) : string := default path (canonicalize env path).

Definition temp_roots : list string :=
  (match var_os env "TMPDIR" with
   | Some tmpdir => if is_dir env tmpdir then [tmpdir] else []
   | None => []
   end)
  ++ (if is_dir env "/tmp" then ["/tmp"] else []).

Definition home_dir : option string :=
  match var_os env "HOME" with
  | Some home => if String.eqb home "" then None else Some home
  | None => None
  end.

Definition agent_carveout_dirs (agent_id : string) : list string :=
  match home_dir with
  | None => []
  | Some home =>
      (if String.eqb agent_id "claude-code" then [join home ".claude"; join home ".claude.json"]
       else if String.eqb agent_id "codex-cli" then [join home ".codex"]
       else if String.eqb agent_id "gemini-cli" then [join home ".gemini"]
       else if String.eqb agent_id "cline" then [join home ".cline"]
       else if String.eqb agent_id "opencode" then
         [join (join home ".config") "opencode";
          join (join (join home ".local") "share") "opencode";
          join (join (join home ".local") "state") "opencode"]
       else [])
      ++ [if macos then join (join home "Library") "Caches" else join home ".cache"]
      ++ [join home ".agentpact"]
  end.

Definition build_session_spec (workspace : string) (agent_id : string) : SandboxSpec :=
  let workspace := canonicalize_or_keep workspace in
  let extra :=
    List.filter (fun dir => negb (path_starts_with workspace dir))
      (canonicalize_or_keep <$> (temp_roots ++ agent_carveout_dirs agent_id)) in
  mkSpec (with_default_protections workspace :: (unprotected <$> extra)) ReadFullDisk NetFull [].

Definition registration_roots (workspace : string) (agent_id : string) : list string :=
  let workspace_canon := canonicalize_or_keep workspace in
  let candidates :=
    [workspace; workspace_canon]
    ++ flat_map (fun dir =>
         if path_starts_with workspace_canon (canonicalize_or_keep dir) then []
         else [dir; canonicalize_or_keep dir]) (temp_roots ++ agent_carveout_dirs agent_id) in
  dedup (sort_by String.leb (to_string_lossy env <$> List.filter is_absolute candidates)).
End profile.

(** [display] renders as [to_string_lossy] does. *)
Definition summary (env : Env) (spec : SandboxSpec) : string :=
  let workspace :=
    match head (writable_roots spec) with
    | Some r => to_string_lossy env (root r)
    | None => "-"
    end in
  let net := match network spec with NetOff => "off" | NetFull => "full" end in
  ("workspace-write " ++ workspace ++ "; " ++ pretty (length (writable_roots spec))
   ++ " writable roots; net=" ++ net)%string.

(** ** The command line *)

Definition EXIT_USAGE : Z := 64.
Definition EXIT_BAD_SPEC : Z := 65.
Definition EXIT_SANDBOX_UNAVAILABLE : Z := 69.
Definition EXIT_EXEC_FAILED : Z := 71.

Definition USAGE : string :=
  ("usage: kyris-exec --session [--workspace <dir>] --agent <id> [--print-policy] -- <command> [args...]"
   ++ of_bytes [newline]
   ++ "       kyris-exec --spec-file <path> [--print-policy] -- <command> [args...]")%string.

Inductive SpecSource :=
| FromFile (path : string)
| Session (workspace : option string) (agent : string).

Record Invocation := mkInvocation {
  source : SpecSource;
  print_policy : bool;
  command : list string;
}.

(** The variables of the loop. *)
Record Options := mkOptions {
  o_spec_file : option string;
  o_session : bool;
  o_workspace : option string;
  o_agent : option string;
  o_print_policy : bool;
}.

Definition no_options : Options := mkOptions None false None None false.

Definition set_spec_file v o := mkOptions (Some v) (o_session o) (o_workspace o) (o_agent o) (o_print_policy o).
Definition set_session o := mkOptions (o_spec_file o) true (o_workspace o) (o_agent o) (o_print_policy o).
Definition set_workspace v o := mkOptions (o_spec_file o) (o_session o) (Some v) (o_agent o) (o_print_policy o).
Definition set_agent v o := mkOptions (o_spec_file o) (o_session o) (o_workspace o) (Some v) (o_print_policy o).
Definition set_print_policy o := mkOptions (o_spec_file o) (o_session o) (o_workspace o) (o_agent o) true.

(** The loop over the arguments, up to the separator. *)
Fixpoint scan (o : Options) (args : list string) : result (Options * list string) string :=
  match args with
  | [] => Err "missing -- separator before command"
  | arg :: rest =>
      if String.eqb arg "--spec-file" then
        match rest with v :: rest => scan (set_spec_file v o) rest | [] => Err "--spec-file requires a path" end
      else if String.eqb arg "--session" then scan (set_session o) rest
      else if String.eqb arg "--workspace" then
        match rest with v :: rest => scan (set_workspace v o) rest | [] => Err "--workspace requires a path" end
      else if String.eqb arg "--agent" then
        match rest with v :: rest => scan (set_agent v o) rest | [] => Err "--agent requires an id" end
      else if String.eqb arg "--print-policy" then scan (set_print_policy o) rest
      else if String.eqb arg "--" then Ok (o, rest)
      else Err ("unknown argument: " ++ arg)%string
  end.

Definition source_of (o : Options) : result SpecSource string :=
  match o_spec_file o, o_session o with
  | Some _, true => Err "--spec-file and --session are mutually exclusive"
  | Some path, false =>
      match o_workspace o, o_agent o with
      | None, None => Ok (FromFile path)
      | _, _ => Err "--workspace/--agent only apply with --session"
      end
  | None, true =>
      match o_agent o with
      | Some agent => Ok (Session (o_workspace o) agent)
      | None => Err "--session requires --agent <id>"
      end
  | None, false => Err "missing --session or --spec-file"
  end.

Definition parse_args (args : list string) : result Invocation string :=
  match scan no_options args with
  | Err e => Err e
  | Ok (o, command) =>
      match command with
      | [] => Err "missing command after --"
      | _ =>
          match source_of o with
          | Err e => Err e
          | Ok source => Ok (mkInvocation source (o_print_policy o) command)
          end
      end
  end.

(** ** From the source to the specification and the roots to register *)

Section main.
Context `{SandboxCrate} (macos : bool) (env : Env).
(** [serde_json::from_str], [create_seatbelt_command_args], and agentpact's types. *)
Context (spec_from_json : string -> result SandboxSpec string)
  (create_seatbelt_command_args : SandboxSpec -> list string -> list string).

Definition resolve_spec (source : SpecSource) : result (SandboxSpec * list string) string :=
  match source with
  | FromFile path =>
      match read_to_string env path with
      | Err err => Err ("cannot read spec file " ++ path ++ ": " ++ err)%string
      | Ok contents =>
          match spec_from_json contents with
          | Err err => Err ("invalid spec in " ++ path ++ ": " ++ err)%string
          | Ok spec => Ok (spec, (fun r => to_string_lossy env (root r)) <$> writable_roots spec)
          end
      end
  | Session workspace agent =>
      match match workspace with
            | Some dir => Ok dir
            | None =>
                match current_dir env with
                | Ok dir => Ok dir
                | Err err => Err ("cannot resolve launch dir: " ++ err)%string
                end
            end with
      | Err e => Err e
      | Ok workspace =>
          Ok (build_session_spec macos env workspace agent, registration_roots macos env workspace agent)
      end
  end.

Inductive SandboxReads := SandboxFullDisk | SandboxReadRoots (paths : list string).

Record SandboxCapability := mkCapability {
  cap_writable_roots : list string;
  readable : SandboxReads;
  protected_names : list string;
  cap_network : NetworkPolicy;
}.

(** The union of the protected names is collected in a [BTreeSet]. *)
Definition capability_from_spec (spec : SandboxSpec) (registration_roots : list string) : SandboxCapability :=
  mkCapability registration_roots
    (match read_access spec with
     | ReadFullDisk => SandboxFullDisk
     | ReadRoots paths => SandboxReadRoots (to_string_lossy env <$> paths)
     end)
    (dedup (sort_by String.leb (flat_map protected_metadata_names (writable_roots spec))))
    (network spec).

(** What the process does to the outside; [Exec] replaces it where it succeeds. *)
Inductive effect :=
| Print (line : string)
| Eprint (line : string)
| Register (summary : string) (capability : SandboxCapability)
| Harden
| Exec (program : string) (args : list string)
| Exit (code : Z)
| Panicked.

Definition fail (code : Z) (message : string) : list effect :=
  [Eprint ("[kyris-exec] " ++ message)%string; Exit code].

Definition MACOS_PATH_TO_SEATBELT_EXECUTABLE : string := "/usr/bin/sandbox-exec".

(** What the host answers: whether the launcher is there, whether agentpactd took the
    registration, and the error of an [exec] that returns. *)
Record Host := mkHost {
  launcher_exists : bool;
  registered : bool;
  exec_error : option string;
}.

Definition register_session (host : Host) (spec : SandboxSpec) (registration_roots : list string) : list effect :=
  Register (summary env spec) (capability_from_spec spec registration_roots) ::
  (if registered host then []
   else [Eprint "[kyris-exec] could not register sandbox session with agentpactd; the jail is active but governed commands will prompt as usual"]).

Definition exec_sandboxed (host : Host) (spec : SandboxSpec) (registration_roots command : list string)
    (print_policy : bool) : list effect :=
  if macos then
    if negb (launcher_exists host) then
      fail EXIT_SANDBOX_UNAVAILABLE
        (MACOS_PATH_TO_SEATBELT_EXECUTABLE ++ " not found; cannot establish sandbox")%string
    else
      let args := create_seatbelt_command_args spec command in
      let rest :=
        register_session host spec registration_roots
        ++ Harden :: Exec MACOS_PATH_TO_SEATBELT_EXECUTABLE args ::
        match exec_error host with
        | None => []
        | Some err => fail EXIT_EXEC_FAILED
                        ("exec " ++ MACOS_PATH_TO_SEATBELT_EXECUTABLE ++ " failed: " ++ err)%string
        end in
      if print_policy then
        match args !! 1%nat with
        | Some policy => Eprint policy :: rest
        | None => [Panicked]
        end
      else rest
  else fail EXIT_SANDBOX_UNAVAILABLE "no sandbox backend for this platform (macOS Seatbelt only today)".

Definition is_version (a : string) : bool := String.eqb a "--version" || String.eqb a "-V".

Definition main (package_version : string) (host : Host) (args : list string) : list effect :=
  if existsb is_version args then [Print ("kyris-exec " ++ package_version)%string]
  else
    match parse_args args with
    | Err message => fail EXIT_USAGE (message ++ of_bytes [newline] ++ USAGE)%string
    | Ok invocation =>
        match resolve_spec (source invocation) with
        | Err message => fail EXIT_BAD_SPEC message
        | Ok (spec, registration_roots) =>
            exec_sandboxed host spec registration_roots (command invocation) (print_policy invocation)
        end
    end.
End main.

(** ** The command line, read back

    The reference: an invocation written out, its options in any order that puts them
    before the separator. *)

Definition render_source (s : SpecSource) : list string :=
  match s with
  | FromFile path => ["--spec-file"; path]
  | Session workspace agent =>
      "--session" :: match workspace with Some w => ["--workspace"; w] | None => [] end
      ++ ["--agent"; agent]
  end.

Definition render (i : Invocation) : list string :=
  render_source (source i) ++ (if print_policy i then ["--print-policy"] else [])
  ++ "--" :: command i.

(** An invocation that is written out is parsed back as it was, whatever the paths,
    the agent and the command are, if there is a command: everything after the first
    separator is the command, its own options and separators included. *)
Theorem parse_render i : command i <> [] -> parse_args (render i) = Ok i.
Proof.
  intros Hc. unfold parse_args, render.
  destruct i as [[path|[w|] agent] [] command]; simpl; simpl in Hc; by destruct command.
Qed.


(** ** Sorted lists without repetitions *)

(** ** The roots of a session *)

(** [path] lies under [base], or is it. *)
Definition under (path base : string) : Prop := components base `prefix_of` components path.

Lemma path_starts_with_spec path base : path_starts_with path base = true <-> under path base.
Proof.
  unfold path_starts_with, under. rewrite bool_decide_eq_true. split.
  - intros Ht. exists (drop (length (components base)) (components path)).
    by rewrite <- Ht at 1; rewrite take_drop.
  - intros [rest ->]. by rewrite take_app_length.
Qed.

Section session.
Context `{SandboxCrate} (macos : bool) (env : Env).

Definition candidate_dirs (agent_id : string) : list string :=
  temp_roots env ++ agent_carveout_dirs macos env agent_id.

Lemma session_root_elem workspace agent_id r :
  r ∈ writable_roots (build_session_spec macos env workspace agent_id) <->
  r = with_default_protections (canonicalize_or_keep env workspace) \/
  exists dir, dir ∈ candidate_dirs agent_id /\ r = unprotected (canonicalize_or_keep env dir) /\
    ~ under (canonicalize_or_keep env workspace) (canonicalize_or_keep env dir).
Proof using Type.
  unfold build_session_spec. cbn [writable_roots]. rewrite elem_of_cons. f_equiv.
  rewrite list_elem_of_fmap. setoid_rewrite elem_of_List_filter. setoid_rewrite list_elem_of_fmap.
  setoid_rewrite negb_true_iff. split.
  - intros (d & -> & (dir & -> & Hdir) & Hn). exists dir. split_and!; [done..|].
    rewrite <- path_starts_with_spec. congruence.
  - intros (dir & Hdir & -> & Hn). eexists. split; [done|]. split; [by eexists|].
    rewrite <- path_starts_with_spec in Hn. by destruct (path_starts_with _ _).
Qed.

(** C18. The protections of the workspace hold whatever else the agent may write: the
    workspace is the first root and keeps the protected names; and any other root that
    reaches a file under the workspace lies strictly inside the workspace, so no broad
    root (a temporary directory, a cache) re-exposes it. *)
Theorem workspace_protections_hold workspace agent_id r path :
  let ws := canonicalize_or_keep env workspace in
  let spec := build_session_spec macos env workspace agent_id in
  head (writable_roots spec) = Some (with_default_protections ws) /\
  (r ∈ writable_roots spec -> r <> with_default_protections ws -> under path ws -> under path (root r) ->
   protected_metadata_names r = [] /\ under (root r) ws /\ components (root r) <> components ws).
Proof using Type.
  intros ws spec. split; [done|]. intros Hr Hne Hws Hroot.
  apply session_root_elem in Hr as [->|(dir & Hdir & -> & Hn)]; [done|]. cbn [root unprotected] in *.
  split; [done|]. assert (under (canonicalize_or_keep env dir) ws) as Hin.
  { destruct (prefix_weak_total _ _ _ Hws Hroot) as [|Hp]; [done|]. by destruct Hn. }
  split; [done|]. intros Heq. apply Hn. unfold under. by rewrite Heq.
Qed.

(** What is registered with agentpactd is the jail: the registered roots are, each
    once, the absolute ones among the literal and the canonical forms of the workspace
    and of the directories that are roots of the session's specification; and the
    registered capability protects the names that the workspace protects. *)
Theorem registered_roots_are_the_jail workspace agent_id :
  let spec := build_session_spec macos env workspace agent_id in
  let roots := registration_roots macos env workspace agent_id in
  let canonical := canonicalize_or_keep env in
  NoDup roots /\
  (forall s, s ∈ roots <->
     exists p, s = to_string_lossy env p /\ is_absolute p = true /\
       (p = workspace \/ p = canonical workspace \/
        exists dir, dir ∈ candidate_dirs agent_id /\
          unprotected (canonical dir) ∈ tail (writable_roots spec) /\ (p = dir \/ p = canonical dir))) /\
  (forall r, r ∈ writable_roots spec -> is_absolute (root r) = true -> to_string_lossy env (root r) ∈ roots) /\
  (forall name, name ∈ protected_names (capability_from_spec env spec roots) <->
     name ∈ default_protected_names).
Proof using Type.
  intros spec roots canonical.
  assert (forall dir, dir ∈ candidate_dirs agent_id ->
    unprotected (canonical dir) ∈ tail (writable_roots spec) <->
    ~ under (canonical workspace) (canonical dir)) as Htail.
  { intros dir Hdir. simpl. rewrite list_elem_of_fmap. setoid_rewrite elem_of_List_filter. rewrite <- path_starts_with_spec. split.
    - intros (d & [= <-] & _ & Hn%negb_true_iff). fold canonical in Hn. congruence.
    - intros Hn. exists (canonical dir). split; [done|]. split; [apply list_elem_of_fmap; eauto|].
      apply negb_true_iff. fold canonical. by destruct (path_starts_with _ _). }
  assert (forall s, s ∈ roots <->
     exists p, s = to_string_lossy env p /\ is_absolute p = true /\
       (p = workspace \/ p = canonical workspace \/
        exists dir, dir ∈ candidate_dirs agent_id /\
          unprotected (canonical dir) ∈ tail (writable_roots spec) /\ (p = dir \/ p = canonical dir))) as Hroots.
  { intros s. unfold roots, registration_roots. rewrite sorted_set_elem, list_elem_of_fmap.
    fold (candidate_dirs agent_id). fold canonical. apply exist_proper. intros p.
    rewrite elem_of_List_filter, elem_of_app, !elem_of_cons, elem_of_flat_map. split.
    - intros (-> & [[->|[->|[]%elem_of_nil]]|(dir & Hdir & Hp)] & Habs); (split; [done|split; [done|]]).
      + by left.
      + right. by left.
      + right. right. exists dir. rewrite Htail, <- path_starts_with_spec by done.
        destruct (path_starts_with _ _); [by apply elem_of_nil in Hp|]. split_and!; [done..|]. set_solver.
    - intros (-> & Habs & [->|[->|(dir & Hdir & Hr & Hp)]]); (split; [done|split; [|done]]).
      + left. by left.
      + left. right. by left.
      + right. exists dir. split; [done|]. rewrite Htail, <- path_starts_with_spec in Hr by done.
        destruct (path_starts_with _ _); [done|]. set_solver. }
  split; [apply sorted_set_NoDup|]. split; [exact Hroots|]. split.
  - intros r Hr Habs. apply Hroots. apply session_root_elem in Hr as [->|(dir & Hdir & -> & Hn)].
    + exists (canonical workspace). eauto.
    + exists (canonical dir). split_and!; [done..|]. right. right. exists dir. rewrite Htail by done. eauto.
  - intros name. unfold capability_from_spec. cbn [protected_names].
    rewrite sorted_set_elem, elem_of_flat_map. split.
    + intros (r & Hr & Hname). apply session_root_elem in Hr as [->|(dir & Hdir & -> & Hn)]; [done|].
      by apply elem_of_nil in Hname.
    + intros Hname. exists (with_default_protections (canonical workspace)). split; [by left|done].
Qed.
End session.

(** ** What is executed *)

Section launches.
Context `{SandboxCrate} (macos : bool) (env : Env).
Context (spec_from_json : string -> result SandboxSpec string)
  (create_seatbelt_command_args : SandboxSpec -> list string -> list string).

Definition launch (version : string) (host : Host) (args : list string) : list effect :=
  main macos env spec_from_json create_seatbelt_command_args version host args.

Definition executes (es : list effect) : Prop := exists program args, Exec program args ∈ es.

Lemma fail_not_exec program args code message : Exec program args ∉ fail code message.
Proof using Type. unfold fail. rewrite !not_elem_of_cons. split_and!; [done|done|apply not_elem_of_nil]. Qed.

Lemma register_not_exec program args host spec roots :
  Exec program args ∉ register_session env host spec roots.
Proof using Type.
  unfold register_session. rewrite not_elem_of_cons. split; [done|].
  destruct (registered host); [apply not_elem_of_nil|]. rewrite not_elem_of_cons.
  split; [done|apply not_elem_of_nil].
Qed.

Lemma exec_sandboxed_exec host spec roots command print_policy program args :
  Exec program args ∈ exec_sandboxed macos env create_seatbelt_command_args host spec roots command print_policy ->
  macos = true /\ launcher_exists host = true /\ program = MACOS_PATH_TO_SEATBELT_EXECUTABLE /\
  args = create_seatbelt_command_args spec command /\
  exists before after,
    exec_sandboxed macos env create_seatbelt_command_args host spec roots command print_policy =
      before ++ Register (summary env spec) (capability_from_spec env spec roots) :: after /\
    Exec program args ∈ after /\ Exec program args ∉ before.
Proof using Type.
  unfold exec_sandboxed. destruct macos; [|by intros ?%fail_not_exec].
  destruct (launcher_exists host); [|by intros ?%fail_not_exec]. cbn [negb].
  set (sargs := create_seatbelt_command_args spec command).
  set (rest := register_session env host spec roots ++ _).
  assert (Exec program args ∈ rest -> program = MACOS_PATH_TO_SEATBELT_EXECUTABLE /\ args = sargs /\
    exists after, rest = Register (summary env spec) (capability_from_spec env spec roots) :: after /\
      Exec program args ∈ after) as Hrest.
  { intros [Hin|Hin]%elem_of_app; [by apply register_not_exec in Hin|].
    assert (program = MACOS_PATH_TO_SEATBELT_EXECUTABLE /\ args = sargs) as [-> ->].
    { apply elem_of_cons in Hin as [Hin|Hin]; [done|].
      apply elem_of_cons in Hin as [[= -> ->]|Hin]; [done|].
      destruct (exec_error host); [by apply fail_not_exec in Hin|by apply elem_of_nil in Hin]. }
    split; [done|]. split; [done|]. eexists. split; [done|].
    apply elem_of_app. right. right. left. }
  destruct print_policy; [destruct (sargs !! 1) as [policy|]|].
  - intros [Hin|Hin]%elem_of_cons; [done|]. destruct (Hrest Hin) as (-> & -> & after & -> & Ha).
    split_and!; try done. exists [Eprint policy], after. split_and!; [done..|].
    rewrite not_elem_of_cons. split; [done|apply not_elem_of_nil].
  - by intros [Hin|Hin%elem_of_nil]%elem_of_cons.
  - intros Hin. destruct (Hrest Hin) as (-> & -> & after & -> & Ha).
    split_and!; try done. exists [], after. split_and!; [done..|apply not_elem_of_nil].
Qed.

(** C17. The command never runs unconfined.  Whatever [kyris-exec] executes is the
    sandbox launcher, on a host that has it, with the arguments compiled from the
    resolved specification and exactly the command after the separator; the session
    has been announced to agentpactd with that specification before.  In every other
    run nothing is executed. *)
Theorem command_runs_only_jailed version host args program args' :
  Exec program args' ∈ launch version host args ->
  macos = true /\ launcher_exists host = true /\ program = MACOS_PATH_TO_SEATBELT_EXECUTABLE /\
  existsb is_version args = false /\
  exists invocation spec roots before after,
    parse_args args = Ok invocation /\
    resolve_spec macos env spec_from_json (source invocation) = Ok (spec, roots) /\
    args' = create_seatbelt_command_args spec (command invocation) /\
    launch version host args = before ++ Register (summary env spec) (capability_from_spec env spec roots) :: after /\
    Exec program args' ∈ after /\ Exec program args' ∉ before.
Proof using Type.
  unfold launch, main. destruct (existsb is_version args) eqn:Ev.
  { by intros [Hin|Hin%elem_of_nil]%elem_of_cons. }
  destruct (parse_args args) as [invocation|message]; [|by intros ?%fail_not_exec].
  destruct (resolve_spec _ _ _ _) as [[spec roots]|message] eqn:Er; [|by intros ?%fail_not_exec].
  intros Hin. pose proof Hin as (Hm & Hl & Hp & Ha & before & after & He & Haf & Hbe)%exec_sandboxed_exec.
  split_and!; [done..|]. exists invocation, spec, roots, before, after. by split_and!.
Qed.

(** Where nothing is executed the process ends with one of its own exit codes, unless
    the version was asked for or the compiler of the policy returned no policy. *)
Lemma failures_exit version host args :
  ~ executes (launch version host args) -> existsb is_version args = false ->
  last (launch version host args) = Some Panicked \/
  exists code, last (launch version host args) = Some (Exit code) /\
    code ∈ [EXIT_USAGE; EXIT_BAD_SPEC; EXIT_SANDBOX_UNAVAILABLE; EXIT_EXEC_FAILED].
Proof using Type.
  unfold launch, main. intros Hne Hv. rewrite Hv in Hne |- *.
  destruct (parse_args args) as [invocation|message]; [|right; by exists EXIT_USAGE; split; [|left]].
  destruct (resolve_spec _ _ _ _) as [[spec roots]|message];
    [|right; exists EXIT_BAD_SPEC; split; [done|right; left]].
  revert Hne. unfold exec_sandboxed.
  destruct macos, (launcher_exists host); cbn [negb];
    try (intros _; right; exists EXIT_SANDBOX_UNAVAILABLE; split; [done|right; right; left]; fail).
  intros Hne. destruct (print_policy invocation); [destruct (_ !! 1); [|by left]|]; destruct Hne;
    do 2 eexists; [right|]; apply elem_of_app; right; right; left.
Qed.

(** A command with [--version] or [-V] among its own arguments is not run: the
    options are looked for in the whole command line, also after the separator, so the
    version of [kyris-exec] is printed instead.  The shims that stand for the agents
    launch every agent this way. *)
Theorem version_flag_swallows_command version host invocation :
  (exists a, a ∈ command invocation /\ is_version a = true) ->
  launch version host (render invocation) = [Print ("kyris-exec " ++ version)%string] /\
  parse_args (render invocation) = Ok invocation.
Proof using Type.
  intros (a & Ha & Hv). split.
  - unfold launch, main. replace (existsb is_version (render invocation)) with true; [done|].
    symmetry. apply existsb_exists. exists a. split; [|done]. apply list_elem_of_In. unfold render.
    rewrite !elem_of_app, elem_of_cons. auto.
  - apply parse_render. destruct (command invocation); [by apply elem_of_nil in Ha|done].
Qed.
End launches.

(** ** A launch *)

Module Sample.

#[local] Instance crate : SandboxCrate := {| default_protected_names := [".git"; ".kyris"] |}.

Definition env : Env :=
  mkEnv (fun v => if String.eqb v "HOME" then Some "/home/u" else None)
    (fun d => String.eqb d "/tmp") (fun p => if String.eqb p "/tmp" then Some "/private/tmp" else Some p)
    (Ok "/home/u/project") (fun p => p) (fun _ => Err "no file").

Definition seatbelt (spec : SandboxSpec) (command : list string) : list string :=
  ["-p"; "(version 1)"; "--"] ++ command.

Definition host : Host := mkHost true true None.

Definition invocation (command : list string) : Invocation := mkInvocation (Session None "codex-cli") false command.

Lemma parse_render_witness : parse_args (render (invocation ["codex"; "--"; "--agent"])) = Ok (invocation ["codex"; "--"; "--agent"]).
Proof. apply (parse_render (invocation ["codex"; "--"; "--agent"])). discriminate. Defined.

Lemma workspace_protections_hold_witness :
  protected_metadata_names (unprotected "/home/u/.codex") = [] /\
  under "/home/u/.codex" "/home/u" /\ components "/home/u/.codex" <> components "/home/u".
Proof.
  apply (workspace_protections_hold true env "/home/u" "codex-cli" (unprotected "/home/u/.codex") "/home/u/.codex/x").
  - vm_decided.
  - discriminate.
  - apply path_starts_with_spec. reflexivity.
  - apply path_starts_with_spec. reflexivity.
Defined.

Lemma command_runs_only_jailed_witness :
  true = true /\ launcher_exists host = true.
Proof.
  destruct (command_runs_only_jailed true env (fun _ => Err "none") seatbelt "1" host
    (render (invocation ["codex"])) MACOS_PATH_TO_SEATBELT_EXECUTABLE
    ["-p"; "(version 1)"; "--"; "codex"]) as (H1 & H2 & _).
  - apply list_elem_of_In. right. right. left. reflexivity.
  - split; [exact H1|exact H2].
Defined.

Lemma version_flag_swallows_command_witness :
  launch true env (fun _ => Err "none") seatbelt "1" host (render (invocation ["codex"; "--version"]))
  = [Print "kyris-exec 1"].
Proof.
  apply (version_flag_swallows_command true env (fun _ => Err "none") seatbelt "1" host
    (invocation ["codex"; "--version"])).
  exists "--version". split; [apply list_elem_of_In; right; left; reflexivity|reflexivity].
Defined.
End Sample.
End Sandbox.
