(* ===== verification/World.v ===== *)
(** * The outside world of the command-line parts

    The hooks, the MCP wrapper's policy client and the agentpactd client are
    blocking code: each effect happens in program order.  They are functions in
    the monad [io], which threads a [world] and stops at [std::process::exit].
    Loops that end by the clock carry fuel.  [Unfinished] is a loop that ran out of
    it, or a wait that never ends: for kyrisd, whose requests have no timeout, or for
    the user at the terminal.  [finishes] rules it out for every [responsive] world.

    A world holds what the other side will do (the scripts [agentpactd], [kyrisd]
    and [tty], each entry with the milliseconds it takes; a script that has run
    out means the other side is gone) and the [log] of every effect so far, each
    exchange with its answer.  Theorems quantify over all worlds, so over all
    behaviours of the daemons, the network and the user.

    [eprintln!] diagnostics are not modelled, except the reason of a deny, which
    the agents read. *)

From S2P Require Import Prelude Text Json.

(** One try of [send_daemon_request_to_socket] on the socket of agentpactd. *)
Inductive socket_result :=
| ConnectFailed
| WriteFailed (e : string)
| ShutdownFailed (e : string)
| ReadFailed (e : string)
| Replied (raw : bytes).

(** An HTTP request to kyrisd: an error, its status and body, or no end of it. *)
Inductive http_result :=
| HttpFailed
| HttpResponse (status : Z) (body : bytes)
| HttpSilent.                                      (* and no timeout: it never returns *)

(** One attempt to have the user answer on /dev/tty. *)
Inductive tty_result :=
| TtyUnavailable
| TtyError
| TtyLine (line : bytes)
| TtySilent.                                       (* nobody types *)

(** [KyrisdConnection]. *)
Record connection := mkConnection {
  base_url : string;
  operator_key : string }.

Inductive effect :=
| Loaded (c : option connection)                   (* kyrisd.yaml and the operator key *)
| Exchange (request : json) (r : socket_result)
| Restarted                                        (* launchctl kickstart *)
| Slept (ms : Z)
| Http (method url : string) (body : option json) (r : http_result)
| TtyAsked (prompt : string) (r : tty_result)
| Stdout (line : string)
| Denied (reason : string)                         (* on stderr, by emit_deny *)
| HookLog (body : json)                            (* POST /api/hook/log *)
| FailOpen (agent action detail mcp_server : string) (working_dir : option string)
| LiveEvidence (agent surface : string)
| PromptLog (approval_id surface event : string) (outcome : option string)
| NotesRead (notes : gmap string Z) (at_time : Z)
| NotesChanged (notes : gmap string Z).            (* the recent-approvals directory *)

Record world := mkWorld {
  agentpactd : list (Z * socket_result);
  kyrisd : list (Z * http_result);
  tty : list (Z * tty_result);
  kyrisd_connection : option connection;
  notes : gmap string Z;      (* recent approvals: file name, time written *)
  clock : Z;
  next_uuid : nat;
  log : list effect }.

(** ** The monad *)

Inductive outcome (A : Type) :=
| Val (a : A)
| Exited (code : Z)
| Unfinished.
Arguments Val {A} a.
Arguments Exited {A} code.
Arguments Unfinished {A}.

Definition io (A : Type) : Type := world -> outcome A * world.

#[export] Instance io_ret : MRet io := fun A a w => (Val a, w).

#[export] Instance io_bind : MBind io := fun A B f m w =>
  match m w with
  | (Val a, w') => f a w'
  | (Exited c, w') => (Exited c, w')
  | (Unfinished, w') => (Unfinished, w')
  end.

Definition unfinished {A} : io A := fun w => (Unfinished, w).

Definition exit {A} (code : Z) : io A := fun w => (Exited code, w).

(** ** Primitive effects *)

Definition emit (e : effect) : io unit := fun w =>
  (Val (), mkWorld (agentpactd w) (kyrisd w) (tty w) (kyrisd_connection w) (notes w) (clock w)
    (next_uuid w) (log w ++ [e])).

Definition now : io Z := fun w => (Val (clock w), w).

Definition load_kyrisd_connection : io (option connection) := fun w =>
  (Val (kyrisd_connection w), (emit (Loaded (kyrisd_connection w)) w).2).

Definition fresh_uuid : io nat := fun w =>
  (Val (next_uuid w), mkWorld (agentpactd w) (kyrisd w) (tty w) (kyrisd_connection w) (notes w)
    (clock w) (S (next_uuid w)) (log w)).

Definition read_notes : io (gmap string Z) := fun w =>
  (Val (notes w), (emit (NotesRead (notes w) (clock w)) w).2).

Definition write_notes (ns : gmap string Z) : io unit := fun w =>
  (Val (), mkWorld (agentpactd w) (kyrisd w) (tty w) (kyrisd_connection w) ns (clock w)
    (next_uuid w) (log w ++ [NotesChanged ns])).

(** The connect, write, shut down and read of one request. *)
Definition exchange (request : json) : io socket_result := fun w =>
  let '(took, r, rest) :=
    match agentpactd w with
    | [] => (0%Z, ConnectFailed, [])
    | (took, r) :: rest => (took, r, rest)
    end in
  (Val r, mkWorld rest (kyrisd w) (tty w) (kyrisd_connection w) (notes w) (clock w + took)
    (next_uuid w) (log w ++ [Exchange request r])).

Definition http (method url : string) (body : option json) : io http_result := fun w =>
  let '(took, r, rest) :=
    match kyrisd w with
    | [] => (0%Z, HttpFailed, [])
    | (took, r) :: rest => (took, r, rest)
    end in
  (match r with HttpSilent => Unfinished | _ => Val r end,
   mkWorld (agentpactd w) rest (tty w) (kyrisd_connection w) (notes w) (clock w + took)
     (next_uuid w) (log w ++ [Http method url body r])).

Definition ask_tty (prompt : string) : io tty_result := fun w =>
  let '(took, r, rest) :=
    match tty w with
    | [] => (0%Z, TtyUnavailable, [])
    | (took, r) :: rest => (took, r, rest)
    end in
  (match r with TtySilent => Unfinished | _ => Val r end,
   mkWorld (agentpactd w) (kyrisd w) rest (kyrisd_connection w) (notes w) (clock w + took)
     (next_uuid w) (log w ++ [TtyAsked prompt r])).

Definition sleep (ms : Z) : io unit := fun w =>
  (Val (), mkWorld (agentpactd w) (kyrisd w) (tty w) (kyrisd_connection w) (notes w) (clock w + ms)
    (next_uuid w) (log w ++ [Slept ms])).

(** ** What a program does, in terms of its effects

    [wp m Q]: from every world, the effects [m] adds to the log and its outcome
    satisfy [Q]. *)

Definition wp {A} (m : io A) (Q : list effect -> outcome A -> Prop) : Prop :=
  forall w, exists l, log (m w).2 = log w ++ l /\ Q l (m w).1.

Section wp.
Context {A B : Type}.
Implicit Types (m : io A) (f : A -> io B).

Lemma bind_val m f w a w' : m w = (Val a, w') -> (m ≫= f) w = f a w'.
Proof. unfold mbind, io_bind. by intros ->. Qed.

Lemma bind_exited m f w c w' : m w = (Exited c, w') -> (m ≫= f) w = (Exited c, w').
Proof. unfold mbind, io_bind. by intros ->. Qed.

Lemma wp_mono m Q R : wp m Q -> (forall l o, Q l o -> R l o) -> wp m R.
Proof. intros H HQ w. destruct (H w) as (l & ? & ?). eauto. Qed.

Lemma wp_bind m f Q :
  wp m (fun l1 o => match o with
                    | Val a => wp (f a) (fun l2 o => Q (l1 ++ l2) o)
                    | Exited c => Q l1 (Exited c)
                    | Unfinished => Q l1 Unfinished
                    end) ->
  wp (m ≫= f) Q.
Proof.
  intros H w. unfold mbind, io_bind. destruct (H w) as (l1 & E & Hf).
  destruct (m w) as [[a|c|] w1]; simpl in *; [|by eauto..].
  destruct (Hf w1) as (l2 & E2 & HQ). exists (l1 ++ l2). split; [|done].
  by rewrite E2, E, app_assoc.
Qed.

Lemma wp_ret (a : A) Q : Q [] (Val a) -> wp (mret a) Q.
Proof. intros H w. exists []. simpl. by rewrite app_nil_r. Qed.

Lemma wp_exit c (Q : list effect -> outcome A -> Prop) : Q [] (Exited c) -> wp (exit c) Q.
Proof. intros H w. exists []. simpl. by rewrite app_nil_r. Qed.

Lemma wp_unfinished (Q : list effect -> outcome A -> Prop) : Q [] Unfinished -> wp unfinished Q.
Proof. intros H w. exists []. simpl. by rewrite app_nil_r. Qed.

(** Two facts about the same run. *)
Lemma wp_and m Q R : wp m Q -> wp m R -> wp m (fun l o => Q l o /\ R l o).
Proof.
  intros HQ HR w. destruct (HQ w) as (l & E & ?), (HR w) as (l' & E' & ?).
  rewrite E in E'. apply app_inv_head in E' as <-. eauto.
Qed.

Lemma wp_elim m Q w o w' :
  wp m Q -> m w = (o, w') -> exists l, log w' = log w ++ l /\ Q l o.
Proof. intros H E. destruct (H w) as (l & ? & ?). rewrite E in *. eauto. Qed.
End wp.

Lemma wp_emit e Q : Q [e] (Val tt) -> wp (emit e) Q.
Proof. intros H w. by exists [e]. Qed.

Lemma wp_now Q : (forall t, Q [] (Val t)) -> wp now Q.
Proof. intros H w. exists []. simpl. by rewrite app_nil_r. Qed.

Lemma wp_load Q : (forall c, Q [Loaded c] (Val c)) -> wp load_kyrisd_connection Q.
Proof. intros H w. by eexists [_]. Qed.

Lemma wp_read_notes Q : (forall ns t, Q [NotesRead ns t] (Val ns)) -> wp read_notes Q.
Proof. intros H w. by eexists [_]. Qed.

Lemma wp_write_notes ns Q : Q [NotesChanged ns] (Val tt) -> wp (write_notes ns) Q.
Proof. intros H w. by exists [NotesChanged ns]. Qed.

Lemma wp_uuid Q : (forall n, Q [] (Val n)) -> wp fresh_uuid Q.
Proof. intros H w. exists []. simpl. by rewrite app_nil_r. Qed.

Lemma wp_exchange r Q : (forall a, Q [Exchange r a] (Val a)) -> wp (exchange r) Q.
Proof. intros H w. unfold exchange. destruct (agentpactd w) as [|[]]; simpl; eauto. Qed.

Lemma wp_http m u b Q :
  (forall a, Q [Http m u b a] (Val a)) -> Q [Http m u b HttpSilent] Unfinished -> wp (http m u b) Q.
Proof. intros H Hs w. unfold http. destruct (kyrisd w) as [|[? []]]; simpl; eauto. Qed.

Lemma wp_ask_tty p Q :
  (forall a, Q [TtyAsked p a] (Val a)) -> Q [TtyAsked p TtySilent] Unfinished -> wp (ask_tty p) Q.
Proof. intros H Hs w. unfold ask_tty. destruct (tty w) as [|[? []]]; simpl; eauto. Qed.

Lemma wp_sleep ms Q : Q [Slept ms] (Val tt) -> wp (sleep ms) Q.
Proof. intros H w. by exists [Slept ms]. Qed.

(** The symbolic execution of straight-line code. *)
Ltac wp_step :=
  match goal with
  | |- wp (mbind _ _) _ => apply wp_bind
  | |- wp (mret _) _ => apply wp_ret
  | |- wp (exit _) _ => apply wp_exit
  | |- wp unfinished _ => apply wp_unfinished
  | |- wp (emit _) _ => apply wp_emit
  | |- wp now _ => apply wp_now; intros ?
  | |- wp load_kyrisd_connection _ => apply wp_load; intros ?
  | |- wp fresh_uuid _ => apply wp_uuid; intros ?
  | |- wp read_notes _ => apply wp_read_notes; intros ? ?
  | |- wp (write_notes _) _ => apply wp_write_notes
  | |- wp (exchange _) _ => apply wp_exchange; intros ?
  | |- wp (http _ _ _) _ => apply wp_http; [intros ?|]
  | |- wp (ask_tty _) _ => apply wp_ask_tty; [intros ?|]
  | |- wp (sleep _) _ => apply wp_sleep
  end.

Ltac wp_steps := repeat (wp_step; simpl).

(** ** Time *)

(** Every entry of the scripts takes time going forward, and each request to kyrisd and each
    question at the terminal comes to an end, in an answer or an error.  (The exchanges with
    agentpactd have a timeout of their own.) *)
Definition responsive (w : world) : Prop :=
  Forall (fun p => (0 <= p.1)%Z) (agentpactd w) /\
  Forall (fun p => (0 <= p.1)%Z /\ p.2 <> HttpSilent) (kyrisd w) /\
  Forall (fun p => (0 <= p.1)%Z /\ p.2 <> TtySilent) (tty w).

(** [m] finishes, and time goes forward meanwhile. *)
Definition finishes {A} (m : io A) : Prop :=
  forall w, responsive w ->
    (m w).1 <> Unfinished /\ responsive (m w).2 /\ (clock w <= clock (m w).2)%Z.

Section finishes.
Context {A B : Type}.
Implicit Types (m : io A) (f : A -> io B).

Lemma finishes_bind m f : finishes m -> (forall a, finishes (f a)) -> finishes (m ≫= f).
Proof.
  intros Hm Hf w Hw. unfold mbind, io_bind. destruct (Hm w Hw) as (Hu & Hw1 & Hc).
  destruct (m w) as [[a|c|] w1]; simpl in *; [|done..].
  destruct (Hf a w1 Hw1) as (? & ? & ?). split_and!; [done..|lia].
Qed.

Lemma finishes_ret (a : A) : finishes (mret a).
Proof. intros w Hw. simpl. split_and!; [done..|lia]. Qed.

Lemma finishes_exit c : finishes (exit (A := A) c).
Proof. intros w Hw. simpl. split_and!; [done..|lia]. Qed.
End finishes.

Lemma finishes_emit e : finishes (emit e).
Proof. intros w Hw. simpl. split_and!; [done..|lia]. Qed.

Lemma finishes_now : finishes now.
Proof. intros w Hw. simpl. split_and!; [done..|lia]. Qed.

Lemma finishes_load : finishes load_kyrisd_connection.
Proof. intros w Hw. simpl. split_and!; [done..|lia]. Qed.

Lemma finishes_uuid : finishes fresh_uuid.
Proof. intros w Hw. simpl. split_and!; [done..|lia]. Qed.

Lemma finishes_read_notes : finishes read_notes.
Proof. intros w Hw. simpl. split_and!; [done..|lia]. Qed.

Lemma finishes_write_notes ns : finishes (write_notes ns).
Proof. intros w Hw. simpl. split_and!; [done..|lia]. Qed.

Lemma finishes_exchange r : finishes (exchange r).
Proof.
  intros w (H1 & H2 & H3). unfold exchange, responsive.
  destruct (agentpactd w) as [|[t a] rest]; simpl; [split_and!; [done..|lia]|].
  apply Forall_cons in H1 as [Ht H1]. simpl in Ht. split_and!; [done..|lia].
Qed.

Lemma finishes_http m u b : finishes (http m u b).
Proof.
  intros w (H1 & H2 & H3). unfold http, responsive.
  destruct (kyrisd w) as [|[t a] rest]; simpl; [split_and!; [done..|lia]|].
  apply Forall_cons in H2 as [[Ht Ha] H2]. simpl in Ht, Ha. split_and!; [by destruct a|done..|lia].
Qed.

Lemma finishes_ask_tty p : finishes (ask_tty p).
Proof.
  intros w (H1 & H2 & H3). unfold ask_tty, responsive.
  destruct (tty w) as [|[t a] rest]; simpl; [split_and!; [done..|lia]|].
  apply Forall_cons in H3 as [[Ht Ha] H3]. simpl in Ht, Ha. split_and!; [by destruct a|done..|lia].
Qed.

Lemma finishes_sleep ms : (0 <= ms)%Z -> finishes (sleep ms).
Proof. intros Hms w Hw. simpl. split_and!; [done..|lia]. Qed.

#[export] Hint Resolve finishes_bind finishes_ret finishes_exit finishes_emit finishes_now finishes_load finishes_uuid
  finishes_exchange finishes_http finishes_ask_tty finishes_sleep : kyris.

(** Totality of straight-line code. *)
Ltac finishes_step :=
  match goal with
  | |- finishes (mbind _ _) => apply finishes_bind; [|intros]
  | |- finishes (mret _) => apply finishes_ret
  | |- finishes (exit _) => apply finishes_exit
  | |- finishes (emit _) => apply finishes_emit
  | |- finishes now => apply finishes_now
  | |- finishes load_kyrisd_connection => apply finishes_load
  | |- finishes fresh_uuid => apply finishes_uuid
  | |- finishes read_notes => apply finishes_read_notes
  | |- finishes (write_notes _) => apply finishes_write_notes
  | |- finishes (exchange _) => apply finishes_exchange
  | |- finishes (http _ _ _) => apply finishes_http
  | |- finishes (ask_tty _) => apply finishes_ask_tty
  | |- finishes (sleep _) => apply finishes_sleep; [lia]
  end.

Ltac finishes_steps := repeat finishes_step.

Ltac finishes_all := repeat first [finishes_step | case_match | solve [eauto with kyris]].
