(* ===== verification/AgentPact.v ===== *)
(** * The agentpactd client

    core/src/agentpact.rs (the decision types and the text of an approval prompt)
    and agentpact-client/src/lib.rs (building requests, interpreting responses,
    the retry loop).  What the code takes from crates outside this repository is
    the class [Libraries]: serde_json's parser, uuid, and agentpact_types' [Mode],
    [AskContext] decoding and command-length ceiling. *)

From S2P Require Import Prelude Text Json World.
From stdpp Require Export pretty.

Module AgentPact.
Local Open Scope string_scope.

(** ** agentpact_types, as far as the code reads it *)

Inductive SandboxBackend := MacosSeatbelt | NoBackend.
Inductive SandboxNetwork := NetworkFull | NetworkOff | Allowlisted (hosts : list string).

Record SandboxCapability := mkCapability {
  backend : SandboxBackend;
  writable_roots : list string;
  network : SandboxNetwork }.

Record SandboxFact := mkSandboxFact {
  capability : SandboxCapability;
  verified : bool }.

Record EffectFact := mkEffectFact {
  action : string;
  resource : option string;
  note : option string }.

Inductive RememberInfo :=
| SessionScope (scope : string)
| NotRemembered (reason : string).

Record AskContext := mkAskContext {
  effects : list EffectFact;
  unresolved : list string;
  sandbox : option SandboxFact;
  remember : option RememberInfo }.

Class Libraries := {
  from_slice : bytes -> result json string;
  uuid_now_v7 : nat -> string;
  Mode : Type;
  Mode_Enforce : Mode;
  is_log : Mode -> bool;
  Mode_from_wire : string -> option Mode;
  ask_context_from_value : json -> option AskContext;
  MAX_COMMAND_LENGTH_CEILING : nat }.

(** ** core/src/agentpact.rs *)

Inductive DenyCode := PolicyDenied | CapExceeded | PolicyError | DaemonUnreachable.

#[export] Instance DenyCode_eq_dec : EqDecision DenyCode.
Proof. solve_decision. Defined.

Inductive McpPermissionDecision {lib : Libraries} :=
| Allow (mode : Mode)
| Deny (code : DenyCode) (reason : string) (hint : option string)
| Ask (approval_id approval_token : string) (allow_always : bool) (detail : option string).

Record ToolAnnotations := mkAnnotations {
  read_only_hint : option bool;
  destructive_hint : option bool }.

Definition default_annotations : ToolAnnotations := mkAnnotations None None.

Record McpContext := mkMcpContext {
  working_dir : option string;
  mcp_operation : option string;
  annotations : ToolAnnotations;
  declared_agent : option string }.

Inductive ApprovalResponse := Approved | DeniedResponse | Always.

#[export] Instance ApprovalResponse_eq_dec : EqDecision ApprovalResponse.
Proof. solve_decision. Defined.

Definition as_agentpact_response (r : ApprovalResponse) : string :=
  match r with Approved => "approved" | DeniedResponse => "denied" | Always => "always" end.

Definition allows_execution (r : ApprovalResponse) : bool :=
  match r with Approved | Always => true | DeniedResponse => false end.

Definition daemon_unavailable_message : string := "AgentPact daemon is unreachable.".

(** *** The body of an approval prompt *)

Definition nl : string := String newline "".

Definition format_effect (e : EffectFact) : option string :=
  note ← note e;
  Some match resource e with
       | Some resource => "• " ++ action e ++ " " ++ resource ++ " — " ++ note
       | None => "• " ++ action e ++ " — " ++ note
       end.

Definition format_sandbox (sb : SandboxFact) : string :=
  let backend := match backend (capability sb) with
                 | MacosSeatbelt => "macOS Seatbelt"
                 | NoBackend => "OS jail"
                 end in
  let status := if verified sb then "verified"
                else "unverified — protection not confirmed" in
  let line := "Sandboxed (" ++ backend ++ ", " ++ status ++ ")" in
  let line := match writable_roots (capability sb) with
              | [] => line
              | roots => line ++ " — writes bounded to " ++ String.concat ", " roots
              end in
  match network (capability sb) with
  | NetworkFull => line
  | NetworkOff => line ++ "; network off"
  | Allowlisted _ => line ++ "; network allowlisted"
  end.

Definition format_remember (r : RememberInfo) : string :=
  match r with
  | SessionScope scope => "“For session” remembers " ++ scope ++ " for the rest of the session."
  | NotRemembered reason => "Won’t be remembered: " ++ reason
  end.

Definition format_ask_context (ctx : AskContext) : string :=
  let lines := omap format_effect (effects ctx) in
  let lines := match unresolved ctx with
               | [] => lines
               | u => app lines ["• unresolved: " ++ String.concat ", " u]
               end in
  let lines := app lines (option_list (format_sandbox <$> sandbox ctx)) in
  let lines := app lines (option_list (format_remember <$> remember ctx)) in
  String.concat nl lines.

(** ** agentpact-client/src/lib.rs *)

Section client.
Context {lib : Libraries}.

(** [json["key"] = value], on an object. *)
Definition set_field (k : string) (v : json) (j : json) : json :=
  match j with JObject m => JObject (obj_insert k v m) | _ => j end.

Definition set_opt (k : string) (v : option json) (j : json) : json :=
  match v with Some v => set_field k v j | None => j end.

Definition request_id (prefix : string) (n : nat) : string := prefix ++ "-" ++ uuid_now_v7 n.

Definition hook_permission_request (id action detail : string)
    (working_dir : option string) (seed_boundary_pid : option N) (declared_agent : option string)
    (anchor_pid : option N) (ppid_chain : option (list N)) : json :=
  let context := set_opt "working_dir" (JString <$> working_dir) (JObject []) in
  let request := JObject [("id", JString id);
    ("method", JString "permission.request"); ("action", JString action);
    ("detail", JString detail); ("context", context)] in
  let pid p := JNumber (Z.of_N p) in
  let request := set_opt "seed_boundary_pid" (pid <$> seed_boundary_pid) request in
  let request := set_opt "agent" (JString <$> declared_agent) request in
  let request := set_opt "anchor_pid" (pid <$> anchor_pid) request in
  match ppid_chain with
  | Some (p :: chain) => set_field "ppid_chain" (JArray (pid <$> p :: chain)) request
  | _ => request
  end.

Definition build_hook_permission_request (prefix action detail : string)
    (working_dir : option string) (seed_boundary_pid : option N) (declared_agent : option string)
    (anchor_pid : option N) (ppid_chain : option (list N)) : io json :=
  n ← fresh_uuid;
  mret (hook_permission_request (request_id prefix n) action detail working_dir
    seed_boundary_pid declared_agent anchor_pid ppid_chain).

Definition mcp_permission_request (id server_name tool_name : string) (ctx : McpContext) : json :=
  let context := JObject [("mcp_server", JString server_name)] in
  let context := set_opt "working_dir" (JString <$> working_dir ctx) context in
  let context := set_opt "mcp_operation" (JString <$> mcp_operation ctx) context in
  let context := set_opt "read_only_hint" (JBool <$> read_only_hint (annotations ctx)) context in
  let context := set_opt "destructive_hint" (JBool <$> destructive_hint (annotations ctx)) context in
  let request := JObject [("id", JString id);
    ("method", JString "permission.request"); ("action", JString "call");
    ("detail", JString tool_name); ("context", context)] in
  set_opt "agent" (JString <$> declared_agent ctx) request.

Definition build_mcp_permission_request (prefix server_name tool_name : string)
    (ctx : McpContext) : io json :=
  n ← fresh_uuid;
  mret (mcp_permission_request (request_id prefix n) server_name tool_name ctx).

Definition build_permission_respond_request (prefix approval_token : string)
    (response : ApprovalResponse) : io json :=
  n ← fresh_uuid;
  mret (JObject [("id", JString (request_id prefix n)); ("method", JString "permission.respond");
    ("approval_token", JString approval_token);
    ("response", JString (as_agentpact_response response))]).

Definition parse_ask_context_detail (response : json) : option string :=
  v ← get "ask_context" response;
  ctx ← ask_context_from_value v;
  Some (format_ask_context ctx).

(** [response.get(k).and_then(Value::as_str)]. *)
Definition get_str (k : string) (response : json) : option string := get k response ≫= as_str.

Definition code_of (response : json) : option string := get_str "code" response.

Definition get_bool (k : string) (response : json) : option bool := get k response ≫= as_bool.

Definition parse_mcp_permission_response (response : json) : McpPermissionDecision :=
  let code_is s := bool_decide (code_of response = Some s) in
  if code_is "PACT_OK" then
    Allow (default Mode_Enforce (get_str "mode" response ≫= Mode_from_wire))
  else if code_is "PACT_DENIED" then
    let value := match get "reason" response with
                 | Some v => Some v
                 | None => get "error" response
                 end in
    Deny PolicyDenied (default "denied by policy" (value ≫= as_str)) None
  else if code_is "PACT_ASK" then
    let approval_id := default "" (get_str "approval_id" response) in
    let approval_token := default "" (get_str "approval_token" response) in
    if String.eqb approval_id "" || String.eqb approval_token "" then
      Deny PolicyError "invalid approval response from agentpactd" None
    else
      Ask approval_id approval_token (default false (get_bool "allow_always" response))
        (parse_ask_context_detail response)
  else if code_is "PACT_POLICY_ERROR" || code_is "PACT_PROTOCOL_ERROR" then
    Deny PolicyError (default "unknown error" (get_str "error" response))
      (get_str "recovery_hint" response)
  else if code_is "PACT_CAP_EXCEEDED" then
    Deny CapExceeded (default "unknown error" (get_str "error" response))
      (get_str "recovery_hint" response)
  else Deny PolicyError "invalid response from agentpactd" None.

(** *** Transport *)

(** The bytes without the newlines and carriage returns at their end. *)
Fixpoint drop_newlines (l : bytes) : bytes :=
  match l with
  | b :: l' => if Ascii.eqb b newline || Ascii.eqb b "013"%char then drop_newlines l' else l
  | [] => []
  end.

Definition trim_socket_message (l : bytes) : bytes := rev (drop_newlines (rev l)).

(** What the caller gets of one exchange. *)
Definition interpret (r : socket_result) : result json string :=
  match r with
  | ConnectFailed => Err daemon_unavailable_message
  | WriteFailed e => Err ("failed to send request to agentpactd: " ++ e)
  | ShutdownFailed e => Err ("failed to close request body: " ++ e)
  | ReadFailed e => Err ("failed to read response from agentpactd: " ++ e)
  | Replied raw =>
      match from_slice (trim_socket_message raw) with
      | Ok v => Ok v
      | Err e => Err ("invalid response from agentpactd: " ++ e)
      end
  end.

(** Serialising a [Value] does not fail, so a request is sent once connected. *)
Definition send_daemon_request_to_socket (request : json) : io (result json string) :=
  r ← exchange request; mret (interpret r).

Fixpoint drive_retry (backoffs : list Z) (attempt : io (result json string))
    (recover : Z -> io unit) : io (result json string) :=
  r ← attempt;
  match r with
  | Ok response => mret (Ok response)
  | Err error =>
      match backoffs with
      | [] => mret (Err error)
      | backoff_ms :: backoffs => recover backoff_ms;; drive_retry backoffs attempt recover
      end
  end.

Definition RETRY_BACKOFFS : list Z := [50; 100; 250]%Z.

(** The closure [recover]: restart agentpactd (errors ignored), then wait. *)
Definition restart_and_sleep (backoff_ms : Z) : io unit := emit Restarted;; sleep backoff_ms.

Definition send_daemon_request_with_retry (request : json) : io (result json string) :=
  drive_retry RETRY_BACKOFFS (send_daemon_request_to_socket request) restart_and_sleep.

(** *** Requests *)

Definition oversized_execute_deny (action detail : string) : option McpPermissionDecision :=
  if String.eqb action "execute" && (MAX_COMMAND_LENGTH_CEILING <? String.length detail)%nat
  then Some (Deny PolicyDenied
    ("command exceeds the " ++ pretty MAX_COMMAND_LENGTH_CEILING ++
     "-byte governance ceiling (length " ++ pretty (String.length detail) ++
     "); split it into smaller commands") None)
  else None.

Definition map_ok {A B E} (f : A -> B) (r : result A E) : result B E :=
  match r with Ok a => Ok (f a) | Err e => Err e end.

Definition request_mcp_tool_permission_with_id (prefix server_name tool_name : string)
    (ctx : McpContext) : io (result (McpPermissionDecision * string) string) :=
  request ← build_mcp_permission_request prefix server_name tool_name ctx;
  let id := default "" (get_str "id" request) in
  r ← send_daemon_request_with_retry request;
  mret (map_ok (fun response => (parse_mcp_permission_response response, id)) r).

Definition request_mcp_tool_permission (prefix server_name tool_name : string)
    (ctx : McpContext) : io (result McpPermissionDecision string) :=
  r ← request_mcp_tool_permission_with_id prefix server_name tool_name ctx;
  mret (map_ok fst r).

(** [collect] into an [Option]: all of them strings, or nothing. *)
Definition parse_response_segments (response : json) : option (list string) :=
  l ← get "segments" response ≫= as_array;
  mapM as_str l.

(** The compound group and the token lifetime of a real request. *)
Definition tag_request (command_group : option (string * string)) (approval_ttl_secs : option Z)
    (request : json) : json :=
  let request := match command_group with
    | Some (group, original) =>
        set_field "original_command" (JString original)
          (set_field "command_group" (JString group) request)
    | None => request
    end in
  set_opt "approval_ttl_secs" (JNumber <$> approval_ttl_secs) request.

Definition request_hook_permission (prefix action detail : string) (working_dir : option string)
    (seed_boundary_pid : option N) (declared_agent : option string) (anchor_pid : option N)
    (ppid_chain : option (list N)) (command_group : option (string * string))
    (approval_ttl_secs : option Z)
    : io (result (McpPermissionDecision * option (list string)) string) :=
  match oversized_execute_deny action detail with
  | Some deny => mret (Ok (deny, None))
  | None =>
      request ← build_hook_permission_request prefix action detail working_dir
        seed_boundary_pid declared_agent anchor_pid ppid_chain;
      r ← send_daemon_request_with_retry (tag_request command_group approval_ttl_secs request);
      mret (map_ok (fun response =>
        (parse_mcp_permission_response response, parse_response_segments response)) r)
  end.

Definition new_command_group : io string :=
  n ← fresh_uuid; mret ("cg-" ++ uuid_now_v7 n).

Definition send_command_commit (command_group : string) : io unit :=
  n ← fresh_uuid;
  _ ← send_daemon_request_with_retry (JObject [("id", JString (request_id "commit" n));
    ("method", JString "command.commit"); ("command_group", JString command_group)]);
  mret tt.

(** The decision of a preview: an ask without its token. *)
Definition preview_decision (response : json) : McpPermissionDecision :=
  if bool_decide (code_of response = Some "PACT_ASK")
  then Ask "" "" (default false (get_bool "allow_always" response)) None
  else parse_mcp_permission_response response.

Definition request_hook_permission_preview (prefix action detail : string)
    (working_dir : option string) (seed_boundary_pid : option N) (declared_agent : option string)
    : io (result (McpPermissionDecision * option (list string)) string) :=
  match oversized_execute_deny action detail with
  | Some deny => mret (Ok (deny, None))
  | None =>
      request ← build_hook_permission_request prefix action detail working_dir
        seed_boundary_pid declared_agent None None;
      r ← send_daemon_request_with_retry (set_field "preview" (JBool true) request);
      mret (map_ok (fun response =>
        (preview_decision response, parse_response_segments response)) r)
  end.

Record CommandCheck := mkCommandCheck {
  decision : string;
  matched_rule : option string;
  check_reason : option string }.

(** [a.or_else(|| b)]. *)
Definition or_else {A} (a b : option A) : option A := match a with Some _ => a | None => b end.

Definition parse_command_check (response : json) : CommandCheck :=
  mkCommandCheck (default "unknown" (get_str "decision" response))
    (or_else (get_str "matched_rule" response) (get_str "rule_id" response))
    (or_else (get_str "reason" response) (get_str "error" response)).

Definition check_command (command : string) (working_dir : option string)
    : io (result CommandCheck string) :=
  request ← build_hook_permission_request "kyris-check" "execute" command working_dir
    None None None None;
  r ← send_daemon_request_to_socket (set_field "preview" (JBool true) request);
  mret (map_ok parse_command_check r).

(** [filter(|s| !s.is_empty())]. *)
Definition non_empty (s : option string) : option string :=
  s ← s; if String.eqb s "" then None else Some s.

Definition send_trace_attach (trace_token trace_id : string)
    : io (result (option string) string) :=
  n ← fresh_uuid;
  r ← send_daemon_request_to_socket (JObject [("id", JString (request_id "kyrisd-trace" n));
    ("method", JString "trace.attach"); ("trace_token", JString trace_token);
    ("trace_id", JString trace_id)]);
  mret match r with
       | Err e => Err e
       | Ok response =>
           match code_of response with
           | Some code =>
               if String.eqb code "PACT_OK" then Ok (non_empty (get_str "working_dir" response))
               else Err ("trace.attach rejected: " ++ code ++ ": " ++
                         default "unknown" (get_str "error" response))
           | None => Err "trace.attach returned malformed response"
           end
       end.

Definition resolve_agent (pid : N) : io (option string) :=
  n ← fresh_uuid;
  r ← send_daemon_request_to_socket (JObject [("id", JString (request_id "kyrisd-attr" n));
    ("method", JString "attribution.resolve"); ("pid", JNumber (Z.of_N pid))]);
  mret match r with
       | Err _ => None
       | Ok response =>
           if bool_decide (code_of response = Some "PACT_OK") then
             s ← non_empty (get_str "agent" response);
             if String.eqb s "unknown" then None else Some s
           else None
       end.

(** Whether a round trip was answered [PACT_OK]. *)
Definition answered_ok (r : result json string) : bool :=
  match r with
  | Ok response => bool_decide (code_of response = Some "PACT_OK")
  | Err _ => false
  end.

Definition register_jailed_session (profile_summary : string) (capability : json) : io bool :=
  n ← fresh_uuid;
  r ← send_daemon_request_to_socket (JObject [("id", JString (request_id "kyris-exec" n));
    ("method", JString "session.register"); ("profile_summary", JString profile_summary);
    ("capability", capability)]);
  mret (answered_ok r).

Definition send_permission_response (prefix approval_token : string)
    (response : ApprovalResponse) : io (result (option string) string) :=
  request ← build_permission_respond_request prefix approval_token response;
  r ← send_daemon_request_to_socket request;
  mret match r with
       | Err e => Err e
       | Ok value =>
           let warning := non_empty (get_str "reason" value) in
           match parse_mcp_permission_response value with
           | Allow _ => Ok warning
           | Deny _ reason _ =>
               if decide (response = DeniedResponse) then Ok warning
               else Err ("agentpactd rejected approval response: " ++ reason)
           | Ask _ _ _ _ => Err "agentpactd returned an unexpected ask response"
           end
       end.

Definition probe_daemon_health : io bool :=
  r ← send_daemon_request_to_socket (JObject [("id", JString "kyrisd-health");
    ("method", JString "daemon.health")]);
  mret (answered_ok r).

(** *** Protocol version *)

Definition PROTOCOL_VERSION : Z := 1.

Definition check_daemon_protocol_version (state : json) : result unit string :=
  match get "protocol_version" state ≫= as_u64 with
  | None => Ok tt
  | Some version =>
      if (version =? PROTOCOL_VERSION)%Z then Ok tt
      else if (PROTOCOL_VERSION <? version)%Z then
        Err ("agentpactd protocol version " ++ pretty version ++
             " is newer than kyris expects (" ++ pretty PROTOCOL_VERSION ++
             "). Upgrade kyris: brew upgrade kyris")
      else
        Err ("agentpactd protocol version " ++ pretty version ++
             " is older than kyris expects (" ++ pretty PROTOCOL_VERSION ++
             "). Upgrade agentpact: brew upgrade agentpact")
  end.

(** [None]: daemon.state cannot be read, or not as UTF-8 text. *)
Definition read_daemon_state_at (file : option bytes) : option json :=
  contents ← file; ok (from_slice contents).

Definition check_protocol_compatibility_at (file : option bytes) : result unit string :=
  match read_daemon_state_at file with
  | None => Ok tt
  | Some state => check_daemon_protocol_version state
  end.

(** ** What the client does *)

Lemma wp_send_once request Q :
  (forall r, Q [Exchange request r] (Val (interpret r))) ->
  wp (send_daemon_request_to_socket request) Q.
Proof. intros H. unfold send_daemon_request_to_socket. wp_steps. apply H. Qed.

Definition failing (r : socket_result) : Prop := ok (interpret r) = None.

(** The effects of a failed attempt that is followed by another. *)
Definition attempt_failed (request : json) (r : socket_result) (backoff_ms : Z) : list effect :=
  [Exchange request r; Restarted; Slept backoff_ms].

Fixpoint attempts_failed (request : json) (failed : list socket_result) (backoffs : list Z)
    : list effect :=
  match failed, backoffs with
  | r :: failed, b :: backoffs =>
      app (attempt_failed request r b) (attempts_failed request failed backoffs)
  | _, _ => []
  end.

Lemma wp_drive_retry backoffs request Q :
  (forall failed r,
     Forall failing failed -> (length failed <= length backoffs)%nat ->
     (failing r -> length failed = length backoffs) ->
     Q (app (attempts_failed request failed backoffs) [Exchange request r]) (Val (interpret r))) ->
  wp (drive_retry backoffs (send_daemon_request_to_socket request) restart_and_sleep) Q.
Proof.
  revert Q. induction backoffs as [|b backoffs IH]; intros Q HQ; simpl; apply wp_bind, wp_send_once;
    intros r; destruct (interpret r) as [v|e] eqn:Er.
  - apply wp_ret. specialize (HQ [] r). rewrite Er in HQ. apply HQ; [done|simpl; lia|].
    by unfold failing; rewrite Er.
  - apply wp_ret. specialize (HQ [] r). rewrite Er in HQ. by apply HQ.
  - apply wp_ret. specialize (HQ [] r). rewrite Er in HQ. apply HQ; [done|simpl; lia|].
    by unfold failing; rewrite Er.
  - unfold restart_and_sleep. wp_steps. apply IH. intros failed r' Hf Hlen Hlast.
    apply (HQ (r :: failed)); [|simpl; lia|simpl; intros; f_equal; auto].
    constructor; [|done]. unfold failing. by rewrite Er.
Qed.

(** *** Fields of the requests *)

Lemma get_set_field k k' v j :
  is_Some (as_object j) ->
  get k (set_field k' v j) = if String.eqb k k' then Some v else get k j.
Proof. destruct j; intros [? [=]]. apply obj_get_insert. Qed.

Lemma is_object_set_field k v j :
  is_Some (as_object j) -> is_Some (as_object (set_field k v j)).
Proof. destruct j; intros [? [=]]. simpl. eauto. Qed.

Lemma get_set_opt k k' v j :
  is_Some (as_object j) ->
  get k (set_opt k' v j) = if String.eqb k k' then or_else v (get k j) else get k j.
Proof.
  intros Hj. destruct v as [v|]; simpl; [by apply get_set_field|].
  by destruct (String.eqb k k').
Qed.

Lemma is_object_set_opt k v j :
  is_Some (as_object j) -> is_Some (as_object (set_opt k v j)).
Proof. destruct v; [apply is_object_set_field|done]. Qed.

Hint Resolve is_object_set_field is_object_set_opt : core.

Lemma hook_request_object id action detail wd seed agent anchor chain :
  is_Some (as_object (hook_permission_request id action detail wd seed agent anchor chain)).
Proof. unfold hook_permission_request. destruct chain as [[|p chain]|]; eauto 10. Qed.

Definition pid_json (p : N) : json := JNumber (Z.of_N p).

Lemma get_chain k c j :
  is_Some (as_object j) ->
  get k match c with
        | Some (p :: chain) => set_field "ppid_chain" (JArray (pid_json <$> p :: chain)) j
        | _ => j
        end =
  if String.eqb k "ppid_chain" then
    match c with
    | Some (p :: chain) => Some (JArray (pid_json <$> p :: chain))
    | _ => get k j
    end
  else get k j.
Proof. destruct c as [[|p c]|]; intros Hj; rewrite ?get_set_field by done; by destruct (String.eqb k _). Qed.

(** The fields agentpactd reads of a hook request. *)
Lemma hook_request_fields id action detail wd seed agent anchor chain :
  let q := hook_permission_request id action detail wd seed agent anchor chain in
  get "method" q = Some (JString "permission.request") /\
  get "action" q = Some (JString action) /\
  get "detail" q = Some (JString detail) /\
  get "context" q = Some (set_opt "working_dir" (JString <$> wd) (JObject [])) /\
  get "agent" q = JString <$> agent /\
  get "anchor_pid" q = pid_json <$> anchor /\
  get "preview" q = None /\
  get "command_group" q = None /\
  (chain = None -> get "ppid_chain" q = None).
Proof.
  intros q. unfold q, hook_permission_request. fold pid_json.
  rewrite !get_chain by eauto 10. rewrite !get_set_opt by eauto 10. simpl.
  split_and!; try done; try (by destruct agent); try (by destruct anchor).
  by intros ->.
Qed.

Lemma get_tag_request k group ttl q :
  is_Some (as_object q) -> k <> "command_group" -> k <> "original_command" ->
  k <> "approval_ttl_secs" -> get k (tag_request group ttl q) = get k q.
Proof.
  intros Hq H1 H2 H3. unfold tag_request.
  destruct group as [[g o]|]; rewrite get_set_opt by eauto;
    repeat match goal with
    | |- context [String.eqb k ?s] => destruct (String.eqb_spec k s); [done|]
    | |- context [get k (set_field _ _ _)] => rewrite get_set_field by eauto
    end; done.
Qed.

Lemma wp_send_with_retry request Q :
  (forall failed r,
     Forall failing failed -> (length failed <= 3)%nat ->
     (failing r -> length failed = 3) ->
     Q (app (attempts_failed request failed RETRY_BACKOFFS) [Exchange request r])
       (Val (interpret r))) ->
  wp (send_daemon_request_with_retry request) Q.
Proof. apply (wp_drive_retry RETRY_BACKOFFS). Qed.

(** Every exchange of a retried request is with that request. *)
Lemma exchange_of_attempts q r request failed r' backoffs :
  Exchange q r ∈ app (attempts_failed request failed backoffs) [Exchange request r'] -> q = request.
Proof.
  rewrite elem_of_app, list_elem_of_singleton. intros [H|H]; [|congruence].
  revert backoffs H. induction failed as [|x failed IH]; intros [|b backoffs]; simpl.
  1-3: by intros ?%elem_of_nil.
  rewrite !elem_of_cons. intros [?|[?|[?|?]]]; [congruence|done|done|eauto].
Qed.

(** With agentpactd down every request fails. *)
Lemma send_when_down request w :
  agentpactd w = [] ->
  exists w', send_daemon_request_to_socket request w =
    (Val (Err daemon_unavailable_message), w') /\ agentpactd w' = [].
Proof.
  intros Hw. unfold send_daemon_request_to_socket, mbind, io_bind, exchange. rewrite Hw.
  eexists. split; reflexivity.
Qed.

Lemma retry_when_down request w :
  agentpactd w = [] ->
  exists e w', send_daemon_request_with_retry request w = (Val (Err e), w') /\
    agentpactd w' = [].
Proof.
  unfold send_daemon_request_with_retry. generalize RETRY_BACKOFFS as bs. intros bs. revert w.
  induction bs as [|b bs IH]; intros w Hw; cbn [drive_retry];
    destruct (send_when_down request w Hw) as (w1 & E & Hw1); erewrite bind_val by exact E.
  - eauto.
  - destruct (IH (restart_and_sleep b w1).2 Hw1) as (e & w2 & E2 & Hw2). exists e, w2.
    split; [|done]. exact E2.
Qed.

(** The spec of a real and of a preview request, for the callers' proofs. *)
Lemma wp_request_hook_permission prefix action detail wd seed agent anchor chain group ttl Q :
  (forall d, oversized_execute_deny action detail = Some d -> Q [] (Val (Ok (d, None)))) ->
  (forall id failed r,
     oversized_execute_deny action detail = None ->
     let q := tag_request group ttl
       (hook_permission_request id action detail wd seed agent anchor chain) in
     Forall failing failed -> (length failed <= 3)%nat -> (failing r -> length failed = 3) ->
     Q (app (attempts_failed q failed RETRY_BACKOFFS) [Exchange q r])
       (Val (map_ok (fun response =>
         (parse_mcp_permission_response response, parse_response_segments response))
         (interpret r)))) ->
  wp (request_hook_permission prefix action detail wd seed agent anchor chain group ttl) Q.
Proof.
  intros Hover Hsent. unfold request_hook_permission.
  destruct (oversized_execute_deny action detail) as [d|]; [by apply wp_ret, Hover|].
  unfold build_hook_permission_request. wp_steps.
  apply wp_send_with_retry. intros failed r Hf Hlen Hlast. apply wp_ret.
  rewrite app_nil_r. by apply Hsent.
Qed.

Lemma wp_request_hook_permission_preview prefix action detail wd seed agent Q :
  (forall d, oversized_execute_deny action detail = Some d -> Q [] (Val (Ok (d, None)))) ->
  (forall id failed r,
     oversized_execute_deny action detail = None ->
     let q := set_field "preview" (JBool true)
       (hook_permission_request id action detail wd seed agent None None) in
     Forall failing failed -> (length failed <= 3)%nat -> (failing r -> length failed = 3) ->
     Q (app (attempts_failed q failed RETRY_BACKOFFS) [Exchange q r])
       (Val (map_ok (fun response =>
         (preview_decision response, parse_response_segments response)) (interpret r)))) ->
  wp (request_hook_permission_preview prefix action detail wd seed agent) Q.
Proof.
  intros Hover Hsent. unfold request_hook_permission_preview.
  destruct (oversized_execute_deny action detail) as [d|]; [by apply wp_ret, Hover|].
  unfold build_hook_permission_request. wp_steps.
  apply wp_send_with_retry. intros failed r Hf Hlen Hlast. apply wp_ret.
  rewrite app_nil_r. by apply Hsent.
Qed.

(** The client's calls finish. *)
Lemma once_finishes q : finishes (send_daemon_request_to_socket q).
Proof. unfold send_daemon_request_to_socket. finishes_steps. Qed.

Lemma retry_finishes q : finishes (send_daemon_request_with_retry q).
Proof.
  unfold send_daemon_request_with_retry, RETRY_BACKOFFS, drive_retry, restart_and_sleep.
  repeat (finishes_step || apply once_finishes || case_match).
Qed.

Lemma response_finishes prefix token a : finishes (send_permission_response prefix token a).
Proof.
  unfold send_permission_response, build_permission_respond_request. finishes_steps.
  apply once_finishes.
Qed.

(** [agentpactd] accepted: the exchange was answered [PACT_OK]. *)
Definition accepted (r : socket_result) : Prop :=
  exists v, interpret r = Ok v /\ code_of v = Some "PACT_OK".

Lemma parse_allow response mode :
  parse_mcp_permission_response response = Allow mode -> code_of response = Some "PACT_OK".
Proof. unfold parse_mcp_permission_response. repeat case_bool_decide; simpl; repeat case_match; by simplify_eq. Qed.

Lemma parse_ok response :
  code_of response = Some "PACT_OK" ->
  parse_mcp_permission_response response =
    Allow (default Mode_Enforce (get_str "mode" response ≫= Mode_from_wire)).
Proof. unfold parse_mcp_permission_response. intros H. by rewrite bool_decide_true. Qed.

(** The exchange [q] delivers [response] for [token]. *)
Definition delivers (token : string) (response : ApprovalResponse) (q : json) : Prop :=
  get "method" q = Some (JString "permission.respond") /\
  get "approval_token" q = Some (JString token) /\
  get "response" q = Some (JString (as_agentpact_response response)).

Lemma wp_send_response prefix token response Q :
  (forall q r (o : result (option string) string), delivers token response q ->
     (allows_execution response = true -> forall u, o = Ok u -> accepted r) ->
     Q [Exchange q r] (Val o)) ->
  wp (send_permission_response prefix token response) Q.
Proof.
  intros HQ. unfold send_permission_response, build_permission_respond_request.
  wp_steps. apply wp_send_once. intros r. wp_steps. apply HQ; [done|].
  intros Hallow u. unfold accepted. destruct (interpret r) as [v|e]; [|done].
  destruct (parse_mcp_permission_response v) as [m|c reason h|] eqn:E; try done.
  - intros _. exists v. split; [done|]. by eapply parse_allow.
  - by rewrite decide_False by (by intros ->).
Qed.

(** ** Properties *)

(** A request is tried at most four times, always the same request, with
    agentpactd restarted and 50, 100 and 250 ms waited between the tries; an
    error is returned only after the fourth, and otherwise the answer is that of
    the first try that did not fail. *)
Theorem retry_bounded request :
  wp (send_daemon_request_with_retry request) (fun l o => exists failed r,
    o = Val (interpret r) /\ Forall failing failed /\ (length failed <= 3)%nat /\
    (failing r -> length failed = 3) /\
    l = app (attempts_failed request failed [50; 100; 250]%Z) [Exchange request r]).
Proof. apply wp_send_with_retry. intros failed r ???. exists failed, r. by split_and!. Qed.

(** What agentpactd is asked: a preview always carries [preview: true] and
    neither anchor nor ancestor chain (so it can mint or consume no token); a
    real request never carries it; both name the action, the command and the
    declared agent. *)
Theorem hook_requests_on_the_wire prefix action detail wd seed agent anchor chain group ttl :
  wp (request_hook_permission_preview prefix action detail wd seed agent) (fun l _ =>
    forall q r, Exchange q r ∈ l ->
      get "preview" q = Some (JBool true) /\ get "anchor_pid" q = None /\
      get "ppid_chain" q = None /\ get "action" q = Some (JString action) /\
      get "detail" q = Some (JString detail) /\ get "agent" q = JString <$> agent) /\
  wp (request_hook_permission prefix action detail wd seed agent anchor chain group ttl) (fun l _ =>
    forall q r, Exchange q r ∈ l ->
      get "preview" q = None /\ get "anchor_pid" q = pid_json <$> anchor /\
      get "action" q = Some (JString action) /\ get "detail" q = Some (JString detail) /\
      get "agent" q = JString <$> agent).
Proof.
  split.
  - apply wp_request_hook_permission_preview; [by intros ? _ ? ? ?%elem_of_nil|].
    intros id failed r _ q _ _ _ q' r' ->%exchange_of_attempts. unfold q.
    pose proof (hook_request_object id action detail wd seed agent None None) as Hobj.
    rewrite !get_set_field by done. simpl.
    by destruct (hook_request_fields id action detail wd seed agent None None)
      as (? & ? & ? & ? & ? & ? & ? & ? & ?); split_and!; auto.
  - apply wp_request_hook_permission; [by intros ? _ ? ? ?%elem_of_nil|].
    intros id failed r _ q _ _ _ q' r' ->%exchange_of_attempts. unfold q.
    pose proof (hook_request_object id action detail wd seed agent anchor chain) as Hobj.
    rewrite !get_tag_request by done.
    by destruct (hook_request_fields id action detail wd seed agent anchor chain)
      as (? & ? & ? & ? & ? & ? & ? & ? & ?); split_and!; auto.
Qed.

(** A command longer than the governance ceiling is denied without a single
    message to agentpactd, by the real and by the preview request. *)
Theorem oversized_never_sent prefix detail wd seed agent anchor chain group ttl :
  (MAX_COMMAND_LENGTH_CEILING < String.length detail)%nat ->
  exists reason,
    wp (request_hook_permission prefix "execute" detail wd seed agent anchor chain group ttl)
      (fun l o => l = [] /\ o = Val (Ok (Deny PolicyDenied reason None, None))) /\
    wp (request_hook_permission_preview prefix "execute" detail wd seed agent)
      (fun l o => l = [] /\ o = Val (Ok (Deny PolicyDenied reason None, None))).
Proof.
  intros Hlen. destruct (oversized_execute_deny "execute" detail) as [d|] eqn:E;
    unfold oversized_execute_deny in E; simpl in E;
    destruct (Nat.ltb_spec MAX_COMMAND_LENGTH_CEILING (String.length detail)); try lia; try done.
  injection E as <-. eexists. split.
  - apply wp_request_hook_permission; intros *; unfold oversized_execute_deny; simpl;
      (destruct (Nat.ltb_spec MAX_COMMAND_LENGTH_CEILING (String.length detail)); [|lia]).
    + by intros [= <-].
    + done.
  - apply wp_request_hook_permission_preview; intros *; unfold oversized_execute_deny; simpl;
      (destruct (Nat.ltb_spec MAX_COMMAND_LENGTH_CEILING (String.length detail)); [|lia]).
    + by intros [= <-].
    + done.
Qed.

(** The interpretation of a response is fail-safe: it is an allow exactly on
    [PACT_OK], an ask exactly on [PACT_ASK] with both an approval id and a token,
    a spend denial exactly on [PACT_CAP_EXCEEDED], and every other value, however
    malformed, a denial. *)
Theorem response_fails_safe response :
  (forall mode, parse_mcp_permission_response response = Allow mode ->
     mode = default Mode_Enforce (get_str "mode" response ≫= Mode_from_wire)) /\
  ((exists mode, parse_mcp_permission_response response = Allow mode) <->
     code_of response = Some "PACT_OK") /\
  (forall id token always detail,
     parse_mcp_permission_response response = Ask id token always detail ->
     code_of response = Some "PACT_ASK" /\ id <> "" /\ token <> "" /\
     get_str "approval_id" response = Some id /\ get_str "approval_token" response = Some token /\
     (always = true -> get_bool "allow_always" response = Some true)) /\
  ((exists reason hint, parse_mcp_permission_response response = Deny CapExceeded reason hint) <->
     code_of response = Some "PACT_CAP_EXCEEDED").
Proof.
  split_and!.
  - intros mode E. pose proof (parse_ok _ (parse_allow _ _ E)). congruence.
  - split; [intros [mode E]; by eapply parse_allow|]. intros H%parse_ok. eauto.
  - intros id token always detail. unfold parse_mcp_permission_response.
    repeat case_bool_decide; simpl; try done; [|by case_match..].
    destruct (String.eqb_spec (default "" (get_str "approval_id" response)) ""); [done|].
    destruct (String.eqb_spec (default "" (get_str "approval_token" response)) ""); [done|].
    simpl. intros [= <- <- <- _].
    destruct (get_str "approval_id" response), (get_str "approval_token" response); simpl in *; try done.
    split_and!; try done. by destruct (get_bool _ response) as [[]|].
  - unfold parse_mcp_permission_response.
    repeat case_bool_decide; simpl; try case_match; naive_solver.
Qed.

(** Delivering a user's answer is one exchange, never retried, that carries
    the approval token and the answer; an allowing answer counts as delivered
    exactly when agentpactd acknowledged it with [PACT_OK]. *)
Theorem approval_needs_acknowledgement prefix token response :
  wp (send_permission_response prefix token response) (fun l o => exists q r,
    l = [Exchange q r] /\
    get "method" q = Some (JString "permission.respond") /\
    get "approval_token" q = Some (JString token) /\
    get "response" q = Some (JString (as_agentpact_response response)) /\
    (allows_execution response = true -> ((exists warning, o = Val (Ok warning)) <-> accepted r)) /\
    (accepted r -> exists warning, o = Val (Ok warning))).
Proof.
  unfold send_permission_response, build_permission_respond_request. wp_steps.
  apply wp_send_once. intros r. apply wp_ret. simpl.
  eexists _, r. split_and!; [done..| |].
  - intros Hallow. unfold accepted. destruct (interpret r) as [v|e]; [|naive_solver].
    destruct (parse_mcp_permission_response v) as [m|c reason h|] eqn:E.
    + apply parse_allow in E. naive_solver.
    + rewrite decide_False by (by intros ->).
      split; [naive_solver|]. intros (v' & [= <-] & Hv%parse_ok). congruence.
    + split; [naive_solver|]. intros (v' & [= <-] & Hv%parse_ok). congruence.
  - intros (v & -> & Hv). rewrite (parse_ok _ Hv). eauto.
Qed.

End client.

#[export] Hint Resolve once_finishes retry_finishes response_finishes : kyris.

(** A concrete choice of the libraries, for evaluating the model: a decoder that
    knows a few responses by name, and a ceiling of 64 bytes. *)
Definition sample_responses : list (string * json) :=
  [("ok", JObject [("code", JString "PACT_OK"); ("mode", JString "enforce")]);
   ("ok-log", JObject [("code", JString "PACT_OK"); ("mode", JString "log")]);
   ("split", JObject [("code", JString "PACT_ASK");
     ("segments", JArray [JString "ls"; JString "rm x"])]);
   ("ask", JObject [("code", JString "PACT_ASK"); ("approval_id", JString "a1");
     ("approval_token", JString "t1")]);
   ("denied", JObject [("code", JString "PACT_DENIED"); ("reason", JString "no")]);
   ("held", JObject [("state", JString "held")]);
   ("approved", JObject [("state", JString "approved")]);
   ("no-segments", JObject [("code", JString "PACT_ASK"); ("segments", JArray [])]);
   ("payload", JObject [("tool_name", JString "Bash");
     ("tool_input", JObject [("command", JString "ls")]); ("cwd", JString "/w")]);
   ("consultation", JObject [("hook_event_name", JString "PermissionRequest");
     ("tool_name", JString "Bash"); ("tool_input", JObject [("command", JString "ls")])])].

Definition sample_from_slice (l : bytes) : result json string :=
  match list_find (fun p => lit p.1 = l) sample_responses with
  | Some (_, (_, v)) => Ok v
  | None => Err "expected value"
  end.

Definition sample_libraries : Libraries := {|
  from_slice := sample_from_slice;
  uuid_now_v7 := pretty;
  Mode := bool;
  Mode_Enforce := false;
  is_log := id;
  Mode_from_wire := fun s =>
    if String.eqb s "log" then Some true else if String.eqb s "enforce" then Some false else None;
  ask_context_from_value := fun _ => None;
  MAX_COMMAND_LENGTH_CEILING := 64 |}.

Definition long_command : string :=
  "echo 0123456789012345678901234567890123456789012345678901234567890123456789".

Lemma oversized_never_sent_witness :
  exists reason,
    wp (request_hook_permission (lib := sample_libraries) "kyris-hook" "execute" long_command
          None None None None None None None)
      (fun l o => l = [] /\ o = Val (Ok (Deny PolicyDenied reason None, None))) /\
    wp (request_hook_permission_preview (lib := sample_libraries) "kyris-hook" "execute"
          long_command None None None)
      (fun l o => l = [] /\ o = Val (Ok (Deny PolicyDenied reason None, None))).
Proof. apply oversized_never_sent. vm_compute. lia. Defined.

(** A request answered on the second try. *)
Example retry_example :
  let w := mkWorld [(1%Z, ConnectFailed); (1%Z, Replied (lit "ok" ++ [newline]))] [] [] None ∅ 0%Z 0 [] in
  (send_daemon_request_with_retry (lib := sample_libraries) JNull w).1 =
    Val (Ok (JObject [("code", JString "PACT_OK"); ("mode", JString "enforce")])).
Proof. reflexivity. Qed.

End AgentPact.
