(* ===== verification/HoldPoll.v ===== *)
(** * Waiting for an approval: core/src/pending.rs

    Hold a [PACT_ASK] at kyrisd, then poll its status until the user resolves it
    or the window closes.  Durations are milliseconds.  The requests carry no
    timeout of their own ([reqwest::Client::new()]), so a poll takes as long as
    kyrisd takes; the authorization header is left out. *)

From S2P Require Import Prelude Text Json World AgentPact.

Module HoldPoll.
Import AgentPact.
Local Open Scope string_scope.

Definition POLL_INTERVAL : Z := 1000.
Definition NATIVE_HOOK_POLL_TIMEOUT : Z := 590000.
Definition POLL_TIMEOUT : Z := NATIVE_HOOK_POLL_TIMEOUT.

Inductive Resolution :=
| ResApproved
| ResDenied
| Unreachable
| Failed (reason : string).

Record PendingApproval := mkPendingApproval {
  approval_id : string;
  approval_token : string;
  server : string;
  tool : string;
  code : option string;
  agent : string;
  allow_always : bool;
  detail : option string }.

Definition json_opt (s : option string) : json :=
  match s with Some s => JString s | None => JNull end.

(** [max_wait.as_secs().saturating_add(60)]. *)
Definition ttl_seconds (max_wait : Z) : Z := Z.min (max_wait / 1000 + 60) u64_max.

Definition hold_body (a : PendingApproval) (max_wait : Z) : json :=
  JObject [("id", JString (approval_id a)); ("approval_token", JString (approval_token a));
    ("server", JString (server a)); ("tool", JString (tool a)); ("code", json_opt (code a));
    ("agent", JString (agent a)); ("allow_always", JBool (allow_always a));
    ("detail", json_opt (detail a)); ("ttl_seconds", JNumber (ttl_seconds max_wait))].

Definition is_success (status : Z) : bool := (200 <=? status)%Z && (status <? 300)%Z.

(** The dialog is up. *)
Definition held (r : http_result) : bool :=
  match r with HttpResponse status _ => is_success status | _ => false end.

Section hold_poll.
Context {lib : Libraries}.

Definition hold_url (conn : connection) : string := base_url conn ++ "/api/pending/hold".
Definition status_url (conn : connection) (id : string) : string :=
  base_url conn ++ "/api/pending/" ++ id ++ "/status".
Definition cancel_url (conn : connection) (id : string) : string :=
  base_url conn ++ "/api/pending/" ++ id ++ "/cancel".

Definition cancel (conn : connection) (pending_id : string) : io unit :=
  _ ← http "DELETE" (cancel_url conn pending_id) None; mret tt.

(** What one status response says: [None] is [continue]. *)
Definition poll_answer (r : http_result) : option (option string) :=
  match r with
  | HttpFailed | HttpSilent => None
  | HttpResponse _ body =>
      match from_slice body with
      | Err _ => None
      | Ok body => Some (get_str "state" body)
      end
  end.

(** The polling loop. *)
Fixpoint poll_loop (fuel : nat) (conn : connection) (id : string) (deadline : Z)
    : io Resolution :=
  match fuel with
  | O => unfinished
  | S fuel =>
      sleep POLL_INTERVAL;;
      t ← now;
      if (deadline <=? t)%Z then
        cancel conn id;; mret (Failed "approval timed out")
      else
        r ← http "GET" (status_url conn id) None;
        match poll_answer r with
        | None => poll_loop fuel conn id deadline
        | Some state =>
            if bool_decide (state = Some "held") then poll_loop fuel conn id deadline
            else if bool_decide (state = Some "approved") then mret ResApproved
            else if bool_decide (state = Some "denied") then mret ResDenied
            else cancel conn id;; mret (Failed "unexpected pending state")
        end
  end.

(** One poll a second at most, so this many fit into the window. *)
Definition poll_fuel (max_wait : Z) : nat := S (Z.to_nat (max_wait / POLL_INTERVAL)).

Definition hold_poll_resolve_with_timeout (conn : connection) (approval : PendingApproval)
    (max_wait : Z) : io Resolution :=
  hold_result ← http "POST" (hold_url conn) (Some (hold_body approval max_wait));
  if held hold_result then
    t ← now;
    poll_loop (poll_fuel max_wait) conn (approval_id approval) (t + max_wait)
  else mret Unreachable.

Definition hold_poll_resolve (conn : connection) (approval : PendingApproval) : io Resolution :=
  hold_poll_resolve_with_timeout conn approval POLL_TIMEOUT.

(** ** What is sent, and what each resolution rests on *)

Definition waiting (r : http_result) : Prop :=
  poll_answer r = None \/ poll_answer r = Some (Some "held").

Definition poll (conn : connection) (id : string) (r : http_result) : list effect :=
  [Slept POLL_INTERVAL; Http "GET" (status_url conn id) None r].

Definition polls (conn : connection) (id : string) (rs : list http_result) : list effect :=
  concat (poll conn id <$> rs).

Definition cancelled (conn : connection) (id : string) (r : http_result) : effect :=
  Http "DELETE" (cancel_url conn id) None r.

(** The last request of a loop that never hears from kyrisd again. *)
Definition unanswered (conn : connection) (id : string) (l : list effect) : Prop :=
  l = poll conn id HttpSilent \/ l = [Slept POLL_INTERVAL; cancelled conn id HttpSilent] \/
  exists r, l = app (poll conn id r) [cancelled conn id HttpSilent].

(** The loop's effects and result, after the responses [rs] that kept it going. *)
Definition loop_spec (conn : connection) (id : string) (l : list effect)
    (o : outcome Resolution) : Prop :=
  exists rs, Forall waiting rs /\
  match o with
  | Val ResApproved => exists r, poll_answer r = Some (Some "approved") /\
      l = app (polls conn id rs) (poll conn id r)
  | Val ResDenied => exists r, poll_answer r = Some (Some "denied") /\
      l = app (polls conn id rs) (poll conn id r)
  | Val (Failed reason) => exists rc,
      (reason = "approval timed out" /\
       l = app (polls conn id rs) [Slept POLL_INTERVAL; cancelled conn id rc]) \/
      (exists r st, reason = "unexpected pending state" /\ poll_answer r = Some st /\
       st <> Some "held" /\ st <> Some "approved" /\ st <> Some "denied" /\
       l = app (polls conn id rs) (app (poll conn id r) [cancelled conn id rc]))
  | Val Unreachable | Exited _ => False
  | Unfinished => l = polls conn id rs \/
      exists l', unanswered conn id l' /\ l = app (polls conn id rs) l'
  end.

(** An effect of a wait at kyrisd. *)
Definition wait_only (e : effect) : Prop :=
  match e with Http _ _ _ _ | Slept _ => True | _ => False end.

Lemma loop_wait_only conn id l o : loop_spec conn id l o -> Forall wait_only l.
Proof.
  intros (rs & _ & H). assert (Forall wait_only (polls conn id rs)) as Hp
    by (clear; unfold polls; induction rs as [|r rs IH]; simpl; [constructor|by repeat constructor]).
  destruct o as [[| | |reason]|c|]; try done.
  - destruct H as (r & _ & ->). apply Forall_app. split; [done|by repeat constructor].
  - destruct H as (r & _ & ->). apply Forall_app. split; [done|by repeat constructor].
  - destruct H as (rc & [(_ & ->)|(r & st & _ & _ & _ & _ & _ & ->)]);
      apply Forall_app; (split; [done|by repeat constructor]).
  - destruct H as [->|(l' & [->|[->|(r & ->)]] & ->)]; [done|..];
      apply Forall_app; (split; [done|by repeat constructor]).
Qed.

Lemma loop_spec_more conn id r l o :
  waiting r -> loop_spec conn id l o -> loop_spec conn id (app (poll conn id r) l) o.
Proof.
  intros Hr (rs & Hrs & H). exists (r :: rs). split; [by constructor|].
  destruct o as [[| | |reason]|c|]; try done.
  - destruct H as (r' & ? & ->). by exists r'.
  - destruct H as (r' & ? & ->). by exists r'.
  - destruct H as (rc & [(? & ->)|(r' & st & ? & ? & ? & ? & ? & ->)]); exists rc; [by left|].
    right. by exists r', st.
  - destruct H as [->|(l' & ? & ->)]; [by left|right]. by exists l'.
Qed.

Lemma wp_poll_loop fuel conn id deadline :
  wp (poll_loop fuel conn id deadline) (loop_spec conn id).
Proof.
  induction fuel as [|fuel IH]; simpl.
  { wp_steps. exists []. split; [done|by left]. }
  assert (forall l, unanswered conn id l -> loop_spec conn id l Unfinished) as Hsilent
    by (intros l Hl; exists []; split; [done|right; by exists l]).
  wp_steps. match goal with |- context [Z.leb deadline ?t] => destruct (Z.leb deadline t) end.
  - unfold cancel. wp_steps; [|apply Hsilent; by right; left].
    exists []. split; [done|]. eexists. left. by split.
  - wp_steps; [|apply Hsilent; by left]. rename a into r.
    assert (waiting r -> wp (poll_loop fuel conn id deadline) (fun l2 o =>
      loop_spec conn id (app (poll conn id r) l2) o)) as Hmore.
    { intros Hr. eapply wp_mono; [apply IH|]. intros l o. by apply loop_spec_more. }
    destruct (poll_answer r) as [state|] eqn:Er.
    + case_bool_decide; [apply Hmore; right; by subst|].
      case_bool_decide; [wp_steps; exists []; split; [done|]; exists r; by subst|].
      case_bool_decide; [wp_steps; exists []; split; [done|]; exists r; by subst|].
      unfold cancel. wp_steps; [|apply Hsilent; right; right; by exists r].
      exists []. split; [done|]. eexists. right. by exists r, state.
    + apply Hmore. by left.
Qed.

(** ** Time *)

Lemma finishes_cancel conn id : finishes (cancel conn id).
Proof. unfold cancel. finishes_steps. Qed.

(** The world after a second of sleep. *)
Definition slept (w : world) : world := (sleep POLL_INTERVAL w).2.

Definition timed_out (conn : connection) (id : string) : io Resolution :=
  cancel conn id;; mret (Failed "approval timed out").

(** What the loop does with a status response. *)
Definition on_answer (fuel : nat) (conn : connection) (id : string) (deadline : Z)
    (r : http_result) : io Resolution :=
  match poll_answer r with
  | None => poll_loop fuel conn id deadline
  | Some state =>
      if bool_decide (state = Some "held") then poll_loop fuel conn id deadline
      else if bool_decide (state = Some "approved") then mret ResApproved
      else if bool_decide (state = Some "denied") then mret ResDenied
      else cancel conn id;; mret (Failed "unexpected pending state")
  end.

Lemma poll_loop_S fuel conn id deadline w :
  poll_loop (S fuel) conn id deadline w =
  if (deadline <=? clock (slept w))%Z then timed_out conn id (slept w)
  else (http "GET" (status_url conn id) None ≫= on_answer fuel conn id deadline) (slept w).
Proof.
  cbn [poll_loop]. unfold mbind at 1, io_bind at 1. simpl. unfold slept. simpl.
  unfold mbind at 1, io_bind at 1. simpl. by destruct (deadline <=? _)%Z.
Qed.

Arguments poll_loop : simpl never.

Lemma http_finishes method url body w :
  responsive w -> exists r w', http method url body w = (Val r, w') /\ responsive w' /\
    (clock w <= clock w')%Z.
Proof.
  intros Hw. destruct (finishes_http method url body w Hw) as (H1 & H2 & H3).
  unfold http in *. destruct (kyrisd w) as [|[t []] rest]; simpl in *; eauto 6; done.
Qed.

Lemma responsive_slept w : responsive w -> responsive (slept w).
Proof. done. Qed.

Lemma poll_loop_finishes fuel conn id deadline w :
  responsive w -> (1 <= fuel)%nat -> (deadline <= clock w + 1000 * Z.of_nat fuel)%Z ->
  let r := poll_loop fuel conn id deadline w in
  r.1 <> Unfinished /\ responsive r.2 /\ (clock w <= clock r.2)%Z.
Proof.
  revert w. induction fuel as [|fuel IH]; intros w Hw Hfuel Hdl; [lia|].
  rewrite poll_loop_S. apply responsive_slept in Hw.
  assert (clock (slept w) = clock w + 1000)%Z as Hc by done.
  assert (forall reason, finishes (cancel conn id;; mret (Failed reason))) as Hcancel
    by (intros; finishes_steps; apply finishes_cancel).
  destruct (Z.leb_spec deadline (clock (slept w))).
  - destruct (Hcancel "approval timed out" _ Hw) as (? & ? & ?).
    unfold timed_out. cbv zeta. split_and!; [done..|lia].
  - destruct (http_finishes "GET" (status_url conn id) None _ Hw) as (r & w2 & E & Hw2 & Hc2).
    rewrite (bind_val _ _ _ _ _ E). unfold on_answer. cbv zeta.
    destruct (IH w2 Hw2) as (? & ? & ?); [lia..|].
    destruct (poll_answer r) as [state|]; [|split_and!; [done..|lia]].
    case_bool_decide; [split_and!; [done..|lia]|].
    case_bool_decide; [split_and!; [done..|simpl; lia]|].
    case_bool_decide; [split_and!; [done..|simpl; lia]|].
    destruct (Hcancel "unexpected pending state" _ Hw2) as (? & ? & ?). split_and!; [done..|lia].
Qed.

Lemma hold_poll_finishes conn approval max_wait :
  finishes (hold_poll_resolve_with_timeout conn approval max_wait).
Proof.
  unfold hold_poll_resolve_with_timeout. finishes_steps.
  destruct (held a); [|finishes_steps].
  intros w Hw. unfold mbind, io_bind, now.
  apply poll_loop_finishes; [done|unfold poll_fuel; lia|].
  unfold poll_fuel, POLL_INTERVAL. pose proof (Z.div_mod max_wait 1000).
  pose proof (Z.mod_pos_bound max_wait 1000). lia.
Qed.

Lemma hold_poll_not_exited conn approval max_wait w c :
  (hold_poll_resolve_with_timeout conn approval max_wait w).1 <> Exited c.
Proof.
  assert (wp (hold_poll_resolve_with_timeout conn approval max_wait) (fun _ o => o <> Exited c)) as H.
  { unfold hold_poll_resolve_with_timeout. wp_steps; [|done]. destruct (held a); [|by wp_steps].
    wp_steps. eapply wp_mono; [apply wp_poll_loop|]. intros l o (rs & _ & H) ->. done. }
  by destruct (H w) as (l & _ & ?).
Qed.

(** kyrisd answers every request within [d] milliseconds. *)
Definition prompt (d : Z) (w : world) : Prop := Forall (fun p => (p.1 <= d)%Z) (kyrisd w).

Lemma http_prompt d method url body w r w' :
  prompt d w -> (0 <= d)%Z -> http method url body w = (r, w') ->
  prompt d w' /\ (clock w' <= clock w + d)%Z.
Proof.
  unfold prompt, http. intros Hp Hd.
  destruct (kyrisd w) as [|[t a] rest]; intros [= <- <-]; simpl; [split; [done|lia]|].
  apply Forall_cons in Hp as [Ht Hp]. split; [done|]. simpl in Ht. lia.
Qed.

Lemma cancel_prompt d conn id reason w o w' :
  prompt d w -> (0 <= d)%Z ->
  (cancel conn id;; mret (Failed reason)) w = (o, w') -> (clock w' <= clock w + d)%Z.
Proof.
  intros Hp Hd. unfold cancel. destruct (http "DELETE" (cancel_url conn id) None w) as [r w1] eqn:E.
  destruct (http_prompt d _ _ _ _ _ _ Hp Hd E) as [_ Hc].
  unfold mbind, io_bind. rewrite E. by destruct r; intros [= <- <-].
Qed.

Lemma poll_loop_prompt d fuel conn id deadline w o w' :
  responsive w -> prompt d w -> (0 <= d)%Z -> (clock w <= deadline)%Z ->
  poll_loop fuel conn id deadline w = (o, w') ->
  (clock w' <= deadline + 1000 + 2 * d)%Z.
Proof.
  revert w. induction fuel as [|fuel IH]; intros w Hw Hp Hd Hc; [intros [= <- <-]; lia|].
  rewrite poll_loop_S. assert (clock (slept w) = clock w + 1000)%Z as Hs by done.
  assert (prompt d (slept w)) as Hp1 by done.
  destruct (Z.leb_spec deadline (clock (slept w))).
  { unfold timed_out. intros E%(cancel_prompt d); [lia|done..]. }
  destruct (http_finishes "GET" (status_url conn id) None (slept w) Hw) as (r & w2 & E & Hw2 & _).
  destruct (http_prompt d _ _ _ _ _ _ Hp1 Hd E) as [Hp2 Hc2].
  rewrite (bind_val _ _ _ _ _ E). unfold on_answer.
  assert (poll_loop fuel conn id deadline w2 = (o, w') -> (clock w' <= deadline + 1000 + 2 * d)%Z)
    as Hmore.
  { destruct (Z.le_gt_cases (clock w2) deadline); [by apply IH|].
    destruct fuel as [|fuel']; [intros [= <- <-]; lia|]. rewrite poll_loop_S.
    destruct (Z.leb_spec deadline (clock (slept w2))); [|simpl in *; lia].
    unfold timed_out. intros E'%(cancel_prompt d); [simpl in *; lia|done..]. }
  destruct (poll_answer r) as [state|]; [|done].
  case_bool_decide; [done|].
  case_bool_decide; [intros [= <- <-]; lia|].
  case_bool_decide; [intros [= <- <-]; lia|].
  intros E'%(cancel_prompt d); [lia|done..].
Qed.

Lemma wp_hold_poll conn approval max_wait :
  wp (hold_poll_resolve_with_timeout conn approval max_wait) (fun l o => exists r l',
    l = Http "POST" (hold_url conn) (Some (hold_body approval max_wait)) r :: l' /\
    (held r = false -> l' = [] /\ (o = Val Unreachable \/ r = HttpSilent /\ o = Unfinished)) /\
    (held r = true -> loop_spec conn (approval_id approval) l' o)).
Proof.
  unfold hold_poll_resolve_with_timeout. wp_steps.
  2:{ exists HttpSilent, []. split_and!; [done| |done]. split; [done|by right]. }
  destruct (held a) eqn:Hh.
  - wp_steps. eapply wp_mono; [apply wp_poll_loop|]. intros l o Hl. simpl.
    exists a, l. split_and!; [done|congruence|done].
  - wp_steps. exists a, []. split_and!; [done|by split; [|left]|congruence].
Qed.

(** ** Properties *)

(** The wait rests on what kyrisd said: it polls only after the hold was
    accepted, and only while every answer is [held] or no answer; it reports an
    approval or a denial exactly on a status response saying so; it gives up with
    a cancel, on any other state or at the deadline; and [Unreachable] means that
    the hold was refused and nothing else was sent.  A request that kyrisd never answers
    is the last. *)
Theorem hold_poll_resolutions conn approval max_wait :
  wp (hold_poll_resolve_with_timeout conn approval max_wait) (fun l o => exists r l',
    l = Http "POST" (hold_url conn) (Some (hold_body approval max_wait)) r :: l' /\
    (held r = false -> l' = [] /\ (o = Val Unreachable \/ r = HttpSilent /\ o = Unfinished)) /\
    (held r = true -> loop_spec conn (approval_id approval) l' o)).
Proof. apply wp_hold_poll. Qed.

(** The wait ends: in every responsive world it returns a
    resolution, and if kyrisd answers each request within [d] ms it does so
    within the window plus a second and three answers. *)
Theorem hold_poll_terminates conn approval max_wait d w :
  responsive w -> prompt d w -> (0 <= d)%Z -> (0 <= max_wait)%Z ->
  exists r w', hold_poll_resolve_with_timeout conn approval max_wait w = (Val r, w') /\
    (clock w' <= clock w + max_wait + 1000 + 3 * d)%Z.
Proof.
  intros Hw Hp Hd Hm.
  destruct (hold_poll_finishes conn approval max_wait w Hw) as (Hu & _ & _).
  pose proof (hold_poll_not_exited conn approval max_wait w) as Hx.
  destruct (hold_poll_resolve_with_timeout conn approval max_wait w) as [[r|c|] w'] eqn:E;
    simpl in *; try done; [|by destruct (Hx c)].
  exists r, w'. split; [done|]. revert E. unfold hold_poll_resolve_with_timeout.
  destruct (http_finishes "POST" (hold_url conn) (Some (hold_body approval max_wait)) w Hw)
    as (r1 & w1 & E1 & Hw1 & _).
  destruct (http_prompt d _ _ _ _ _ _ Hp Hd E1) as [Hp1 Hc1].
  rewrite (bind_val _ _ _ _ _ E1). destruct (held r1).
  - unfold mbind, io_bind, now. intros E%(poll_loop_prompt d); [lia|done..|lia].
  - intros [= <- <-]. lia.
Qed.

(** Nothing bounds the wait by its window alone: a status request that kyrisd
    leaves unanswered for [n] ms past the deadline holds the caller until then,
    and is still honoured, whatever the window was. *)
Theorem hold_poll_overruns_window conn approval max_wait n raw :
  from_slice raw = Ok (JObject [("state", JString "approved")]) ->
  (1000 < max_wait)%Z -> (0 <= n)%Z ->
  exists w w', responsive w /\ clock w = 0%Z /\
    hold_poll_resolve_with_timeout conn approval max_wait w = (Val ResApproved, w') /\
    clock w' = (max_wait + n)%Z.
Proof.
  intros Hparse Hm Hn.
  set (w := mkWorld [] [(0, HttpResponse 200 []);
    (max_wait - 1000 + n, HttpResponse 200 raw)]%Z [] (Some conn) ∅ 0 0 []).
  exists w. eexists. split_and!; [|done| |].
  - unfold responsive. simpl. split_and!; [by constructor| |by constructor].
    repeat constructor; done || (simpl; lia).
  - unfold hold_poll_resolve_with_timeout. unfold mbind at 1, io_bind at 1. simpl.
    unfold mbind at 1, io_bind at 1. simpl. unfold poll_fuel. rewrite poll_loop_S. simpl.
    destruct (Z.leb_spec (0 + 0 + max_wait) (0 + 0 + POLL_INTERVAL)); [unfold POLL_INTERVAL in *; lia|].
    unfold mbind, io_bind. simpl. unfold on_answer, poll_answer. rewrite Hparse. reflexivity.
  - simpl. unfold POLL_INTERVAL. lia.
Qed.

End hold_poll.

#[export] Hint Resolve hold_poll_finishes finishes_cancel : kyris.

Definition sample_connection : connection := mkConnection "http://127.0.0.1:4710" "key".

Definition sample_approval : PendingApproval :=
  mkPendingApproval "a1" "t1" "shell" "rm x" (Some "rm x") "shell" false None.

Definition sample_world : world :=
  mkWorld [] [(5, HttpResponse 200 []); (3, HttpResponse 200 (lit "held"));
    (3, HttpResponse 200 (lit "approved"))]%Z [] (Some sample_connection) ∅ 0 0 [].

Lemma hold_poll_terminates_witness :
  exists r w', hold_poll_resolve_with_timeout (lib := sample_libraries) sample_connection
      sample_approval 590000 sample_world = (Val r, w') /\
    (clock w' <= clock sample_world + 590000 + 1000 + 3 * 5)%Z.
Proof.
  apply hold_poll_terminates; [|by repeat constructor|done|done].
  split_and!; by repeat constructor.
Defined.

Lemma hold_poll_overruns_window_witness :
  exists w w', responsive w /\ clock w = 0%Z /\
    hold_poll_resolve_with_timeout (lib := sample_libraries) sample_connection
      sample_approval 590000 w = (Val ResApproved, w') /\
    clock w' = (590000 + 3600000)%Z.
Proof. by apply (hold_poll_overruns_window _ _ _ _ (lit "approved")). Defined.

End HoldPoll.
