(* ===== verification/McpPolicy.v ===== *)
(** * The policy check of the MCP wrapper: mcp/src/policy.rs

    One [tools/call] is put to agentpactd; an ask goes to the user at the terminal
    or, without one, to kyrisd's approval prompt.  The content of daemon.state and
    the working directory are arguments; the blocking tasks do not panic. *)

From S2P Require Import Prelude Text Json World AgentPact HoldPoll.

Module McpPolicy.
Import AgentPact HoldPoll.
Local Open Scope string_scope.

Inductive PactDecision :=
| PactAllow
| PactDeny (code : DenyCode) (reason : string) (hint : option string).

Definition daemon_unavailable_deny : PactDecision :=
  PactDeny DaemonUnreachable daemon_unavailable_message None.

Definition no_tty_deny : PactDecision :=
  PactDeny PolicyDenied "tool requires approval but no terminal is available"
    (Some ("Approve via the Kyris desktop prompt or app, adjust policy to 'auto', " ++
           "or run from a terminal")).

(** The answer typed at the prompt.  Only ASCII words are recognised, so lower
    casing the ASCII letters decides like [to_lowercase]. *)
Definition response_of_line (allow_always : bool) (line : bytes) : ApprovalResponse :=
  if negb (valid_utf8 line) then DeniedResponse
  else
    let trimmed := to_ascii_lowercase (trim line) in
    if bool_decide (trimmed = lit "y" \/ trimmed = lit "yes") then Approved
    else if bool_decide (trimmed = lit "session") then
      (if allow_always then Always else Approved)
    else DeniedResponse.

Definition prompt_text (server_name tool_name : string) (allow_always : bool) : string :=
  "[kyris] allow " ++ server_name ++ "/" ++ tool_name ++ "? " ++
  (if allow_always then "[y/n/session]" else "[y/n]") ++ " ".

Section policy.
Context {lib : Libraries} (daemon_state : option bytes) (cwd : option string).

Definition prompt_user_tty (server_name tool_name : string) (allow_always : bool)
    : io ApprovalResponse :=
  r ← ask_tty (prompt_text server_name tool_name allow_always);
  mret match r with
       | TtyLine line => response_of_line allow_always line
       | _ => DeniedResponse
       end.

Definition send_permission_request_with_socket (server_name tool_name : string)
    (mcp_operation : option string) (annotations : ToolAnnotations)
    (declared_agent : option string) : io (result (McpPermissionDecision * string) string) :=
  request_mcp_tool_permission_with_id "kyris-mcp" server_name tool_name
    (mkMcpContext (non_empty cwd) mcp_operation annotations declared_agent).

Definition send_permission_response_with_socket (approval_token : string)
    (response : ApprovalResponse) : io (result unit string) :=
  r ← send_permission_response "kyris-mcp-resp" approval_token response;
  mret (map_ok (fun _ => tt) r).

Definition fail_open_allow (server_name tool_name : string) : io PactDecision :=
  emit (FailOpen "kyris-mcp" "call" tool_name server_name (non_empty cwd));;
  mret PactAllow.

Definition resolve_ask_via_tty (server_name tool_name approval_token : string)
    (allow_always : bool) : io PactDecision :=
  user_response ← prompt_user_tty server_name tool_name allow_always;
  r ← send_permission_response_with_socket approval_token user_response;
  mret match r with
       | Ok _ => if allows_execution user_response then PactAllow
                 else PactDeny PolicyDenied "User denied" None
       | Err reason => PactDeny DaemonUnreachable reason None
       end.

Definition deny_ask_immediately (approval_token : string) : io PactDecision :=
  _ ← send_permission_response_with_socket approval_token DeniedResponse;
  mret no_tty_deny.

Definition mcp_approval (approval_id approval_token server_name tool_name : string)
    (allow_always : bool) (detail : option string) : PendingApproval :=
  mkPendingApproval approval_id approval_token server_name tool_name None "kyris-mcp"
    allow_always detail.

Definition resolve_ask_via_kyrisd (approval_id approval_token server_name tool_name : string)
    (allow_always : bool) (detail : option string) : io PactDecision :=
  conn ← load_kyrisd_connection;
  match conn with
  | None => fail_open_allow server_name tool_name
  | Some conn =>
      resolution ← hold_poll_resolve conn
        (mcp_approval approval_id approval_token server_name tool_name allow_always detail);
      match resolution with
      | ResApproved => mret PactAllow
      | ResDenied => mret no_tty_deny
      | Unreachable => fail_open_allow server_name tool_name
      | Failed _ => deny_ask_immediately approval_token
      end
  end.

Definition check_permission_with_socket (server_name tool_name : string) (has_tty : bool)
    (mcp_operation : option string) (annotations : ToolAnnotations)
    (declared_agent : option string) : io PactDecision :=
  match check_protocol_compatibility_at daemon_state with
  | Err msg =>
      mret (PactDeny PolicyError msg
        (Some "Check that kyris and agentpactd use the same protocol version"))
  | Ok _ =>
      outcome ← send_permission_request_with_socket server_name tool_name mcp_operation
        annotations declared_agent;
      match outcome with
      | Ok (Allow _, _) => mret PactAllow
      | Ok (Deny code reason hint, _) => mret (PactDeny code reason hint)
      | Ok (Ask approval_id approval_token allow_always detail, _) =>
          if has_tty then
            resolve_ask_via_tty server_name tool_name approval_token allow_always
          else
            resolve_ask_via_kyrisd approval_id approval_token server_name tool_name
              allow_always detail
      | Err _ => fail_open_allow server_name tool_name
      end
  end.

Definition check_permission := check_permission_with_socket.

(** ** The pieces, in terms of their effects *)

Lemma wp_respond token response Q :
  (forall q r (o : result unit string), delivers token response q ->
     (allows_execution response = true -> forall u, o = Ok u -> accepted r) ->
     Q [Exchange q r] (Val o)) ->
  wp (send_permission_response_with_socket token response) Q.
Proof.
  intros HQ. unfold send_permission_response_with_socket. apply wp_bind, wp_send_response.
  intros q r o Hq Hr. wp_steps. apply HQ; [done|]. intros Hallow u Hu.
  destruct o as [warning|]; [|done]. by eapply Hr.
Qed.

(** [q] asks agentpactd about this tool of this server. *)
Definition asks (server_name tool_name : string) (q : json) : Prop :=
  get "method" q = Some (JString "permission.request") /\
  get "action" q = Some (JString "call") /\
  get "detail" q = Some (JString tool_name) /\
  (get "context" q ≫= get "mcp_server") = Some (JString server_name).

Lemma asks_request id server_name tool_name ctx :
  asks server_name tool_name (mcp_permission_request id server_name tool_name ctx).
Proof.
  unfold asks, mcp_permission_request. rewrite !get_set_opt by eauto. simpl. split_and!; [done..|].
  by rewrite !get_set_opt by eauto 10 using is_object_set_opt.
Qed.

Lemma wp_request server_name tool_name op ann agent Q :
  (forall q id failed r, asks server_name tool_name q ->
     Forall failing failed -> (length failed <= 3)%nat -> (failing r -> length failed = 3) ->
     Q (app (attempts_failed q failed RETRY_BACKOFFS) [Exchange q r])
       (Val (map_ok (fun response => (parse_mcp_permission_response response, id))
         (interpret r)))) ->
  wp (send_permission_request_with_socket server_name tool_name op ann agent) Q.
Proof.
  intros HQ. unfold send_permission_request_with_socket, request_mcp_tool_permission_with_id,
    build_mcp_permission_request.
  wp_steps. apply wp_send_with_retry. intros failed r Hf Hlen Hlast. apply wp_ret.
  rewrite app_nil_r. apply HQ; [apply asks_request|done..].
Qed.

(** ** What a decision rests on *)

Section decisions.
Context (server_name tool_name : string).

(** agentpactd answered the request with this ask. *)
Definition asked (l : list effect) (id token : string) (always : bool) (detail : option string)
    : Prop :=
  exists q r v, Exchange q r ∈ l /\ asks server_name tool_name q /\ interpret r = Ok v /\
    parse_mcp_permission_response v = Ask id token always detail.

Definition by_policy (l : list effect) : Prop :=
  exists q r, Exchange q r ∈ l /\ asks server_name tool_name q /\ accepted r.

Definition by_terminal (l : list effect) : Prop :=
  exists id token always detail line q r,
    asked l id token always detail /\
    TtyAsked (prompt_text server_name tool_name always) (TtyLine line) ∈ l /\
    allows_execution (response_of_line always line) = true /\
    Exchange q r ∈ l /\ delivers token (response_of_line always line) q /\ accepted r.

Definition by_kyrisd (l : list effect) : Prop :=
  exists id token always detail conn r,
    asked l id token always detail /\
    Http "GET" (status_url conn id) None r ∈ l /\ poll_answer r = Some (Some "approved").

Definition failed_open (l : list effect) : Prop :=
  FailOpen "kyris-mcp" "call" tool_name server_name (non_empty cwd) ∈ l.

(** Nobody saw a prompt. *)
Definition unasked (l : list effect) : Prop :=
  (forall p r, TtyAsked p r ∉ l) /\ (forall m u b r, Http m u b r ∈ l -> held r = false).

Definition decision_spec (l : list effect) (o : outcome PactDecision) : Prop :=
  (o = Val PactAllow -> by_policy l \/ by_terminal l \/ by_kyrisd l \/ failed_open l) /\
  (failed_open l -> o = Val PactAllow /\ unasked l).

End decisions.

(** *** Helpers on effect lists *)

(** An effect of exchanging with agentpactd: neither a prompt nor a fail-open. *)
Definition exchange_only (e : effect) : Prop :=
  match e with Exchange _ _ | Restarted | Slept _ => True | _ => False end.

Lemma attempts_exchange_only q failed r backoffs :
  Forall exchange_only (app (attempts_failed q failed backoffs) [Exchange q r]).
Proof.
  apply Forall_app. split; [|by repeat constructor].
  revert backoffs. induction failed as [|x failed IH]; intros [|b backoffs]; simpl; try by constructor.
  repeat constructor. apply IH.
Qed.

Lemma loop_approved conn id l :
  loop_spec conn id l (Val ResApproved) ->
  exists r, Http "GET" (status_url conn id) None r ∈ l /\ poll_answer r = Some (Some "approved").
Proof. intros (rs & _ & r & ? & ->). exists r. unfold poll. set_solver. Qed.

Section ask.
Context (server_name tool_name : string).

Lemma wp_ask_via_tty token always :
  wp (resolve_ask_via_tty server_name tool_name token always) (fun l o =>
    (o = Val PactAllow -> exists line q r,
       TtyAsked (prompt_text server_name tool_name always) (TtyLine line) ∈ l /\
       allows_execution (response_of_line always line) = true /\
       Exchange q r ∈ l /\ delivers token (response_of_line always line) q /\ accepted r) /\
    ~ failed_open server_name tool_name l).
Proof.
  unfold resolve_ask_via_tty, prompt_user_tty. wp_steps; [|by split; [|unfold failed_open; set_solver]].
  rename a into answer. apply wp_respond. intros q r o Hq Hr. wp_steps.
  split; [|unfold failed_open; set_solver].
  destruct answer as [| |line|]; [by destruct o..| |by destruct o]. destruct o as [u|]; [|done].
  destruct (allows_execution (response_of_line always line)) eqn:Hallow; [|done].
  intros _. exists line, q, r. split_and!; [set_solver|done|set_solver|done|by eapply Hr].
Qed.

Lemma wait_not_failed_open l : Forall wait_only l -> ~ failed_open server_name tool_name l.
Proof. intros H Hin. rewrite Forall_forall in H. by apply H in Hin. Qed.

Lemma wp_ask_via_kyrisd id token always detail :
  wp (resolve_ask_via_kyrisd id token server_name tool_name always detail) (fun l o =>
    (o = Val PactAllow ->
       (exists conn r, Http "GET" (status_url conn id) None r ∈ l /\
          poll_answer r = Some (Some "approved")) \/ failed_open server_name tool_name l) /\
    (failed_open server_name tool_name l -> o = Val PactAllow /\ unasked l)).
Proof.
  unfold resolve_ask_via_kyrisd. wp_steps. destruct c as [conn|].
  2:{ unfold fail_open_allow. wp_steps. unfold failed_open, unasked.
      split; [intros _; right; set_solver|]. intros _. split; [done|]. split; set_solver. }
  apply wp_bind. unfold hold_poll_resolve.
  eapply wp_mono; [apply wp_hold_poll|]. intros l o (r & l' & -> & Href & Hheld).
  destruct (held r) eqn:Hr.
  - specialize (Hheld eq_refl). clear Href. pose proof (loop_wait_only _ _ _ _ Hheld) as Hw.
    assert (Forall wait_only (Http "POST" (hold_url conn) (Some (hold_body
      (mcp_approval id token server_name tool_name always detail) POLL_TIMEOUT)) r :: l')) as Hw'
      by by constructor.
    destruct o as [[| | |reason]|c|]; try (by destruct Hheld as (? & _ & ?)).
    + wp_steps. rewrite app_nil_r. split; [|by intros [?|?%wait_not_failed_open]%elem_of_cons].
      intros _. left. destruct (loop_approved _ _ _ Hheld) as (r' & Hin & Ha). exists conn, r'. set_solver.
    + wp_steps. rewrite app_nil_r. split; [done|by intros [?|?%wait_not_failed_open]%elem_of_cons].
    + unfold deny_ask_immediately. wp_steps. apply wp_respond. intros q r' o' _ _. wp_steps.
      split; [done|]. unfold failed_open. rewrite !elem_of_cons, elem_of_app.
      intros [?|[?|[H%wait_not_failed_open|H]]]; [done..|set_solver].
    + split; [done|by intros [?|?%wait_not_failed_open]%elem_of_cons].
  - destruct (Href eq_refl) as [-> [->|[-> ->]]]; [unfold fail_open_allow; wp_steps|].
    2:{ split; [done|]. unfold failed_open. set_solver. }
    unfold failed_open, unasked. split; [intros _; right; set_solver|].
    intros _. split; [done|]. split; [set_solver|].
    intros m u b r' Hin. rewrite !elem_of_cons in Hin.
    destruct Hin as [?|[[= -> -> -> ->]|[?|?%elem_of_nil]]]; done.
Qed.
End ask.

Lemma exchanges_quiet server_name tool_name l :
  Forall exchange_only l -> ~ failed_open server_name tool_name l /\ unasked l.
Proof.
  rewrite Forall_forall. intros H. unfold failed_open, unasked.
  split_and!; [intros Hin|intros p r Hin|intros m u b r Hin]; by apply H in Hin.
Qed.

Lemma unasked_app l1 l2 : unasked l1 -> unasked l2 -> unasked (app l1 l2).
Proof. unfold unasked. intros [H1 H2] [H3 H4]. set_solver. Qed.

Lemma unasked_emit s a d m c : unasked [FailOpen s a d m c].
Proof. unfold unasked. set_solver. Qed.

Lemma wp_check server_name tool_name has_tty op ann agent :
  wp (check_permission server_name tool_name has_tty op ann agent)
    (decision_spec server_name tool_name).
Proof.
  unfold check_permission, check_permission_with_socket.
  destruct (check_protocol_compatibility_at daemon_state) as [u|msg].
  2:{ apply wp_ret. split; [done|]. unfold failed_open. set_solver. }
  apply wp_bind, wp_request. intros q id failed r Hq Hf Hlen Hlast.
  pose proof (attempts_exchange_only q failed r RETRY_BACKOFFS) as Hl.
  destruct (exchanges_quiet server_name tool_name _ Hl) as [Hn Hu].
  set (l := app (attempts_failed q failed RETRY_BACKOFFS) [Exchange q r]) in *.
  assert (Exchange q r ∈ l) as Hin by (unfold l; set_solver).
  destruct (interpret r) as [v|e] eqn:Er; simpl.
  2:{ unfold fail_open_allow. wp_steps. split.
      - intros _. right; right; right. unfold failed_open. set_solver.
      - intros _. split; [done|]. apply unasked_app; [done|apply unasked_emit]. }
  destruct (parse_mcp_permission_response v) as [m|c reason h|id' token always detail] eqn:Ev.
  - apply wp_ret. rewrite app_nil_r. split; [|done]. intros _. left. exists q, r.
    split_and!; [done..|]. exists v. split; [done|]. by eapply parse_allow.
  - apply wp_ret. rewrite app_nil_r. by split.
  - assert (forall l2, asked server_name tool_name (app l l2) id' token always detail) as Hasked
      by (intros; exists q, r, v; set_solver).
    assert (forall l2, failed_open server_name tool_name (app l l2) ->
      failed_open server_name tool_name l2) as Hfo by (unfold failed_open in *; set_solver).
    destruct has_tty.
    + eapply wp_mono; [apply wp_ask_via_tty|]. intros l2 o [Ho Hnf]. split.
      * intros Hv. right; left. destruct (Ho Hv) as (line & q' & r' & ? & ? & ? & ? & ?).
        exists id', token, always, detail, line, q', r'. set_solver.
      * by intros ?%Hfo.
    + eapply wp_mono; [apply wp_ask_via_kyrisd|]. intros l2 o [Ho Hof]. split.
      * intros Hv. destruct (Ho Hv) as [(conn & r' & ? & ?)|Hx].
        -- right; right; left. exists id', token, always, detail, conn, r'. set_solver.
        -- right; right; right. unfold failed_open in *. set_solver.
      * intros Hx%Hfo. destruct (Hof Hx). split; [done|]. by apply unasked_app.
Qed.

Lemma check_finishes server_name tool_name has_tty op ann agent :
  finishes (check_permission server_name tool_name has_tty op ann agent).
Proof.
  unfold check_permission, check_permission_with_socket.
  destruct (check_protocol_compatibility_at daemon_state); [|finishes_steps].
  unfold send_permission_request_with_socket, request_mcp_tool_permission_with_id,
    build_mcp_permission_request, resolve_ask_via_tty, resolve_ask_via_kyrisd, prompt_user_tty,
    fail_open_allow, deny_ask_immediately, hold_poll_resolve, send_permission_response_with_socket.
  finishes_all.
Qed.

Lemma check_no_exit server_name tool_name has_tty op ann agent :
  wp (check_permission server_name tool_name has_tty op ann agent)
    (fun _ o => forall c, o <> Exited c).
Proof.
  unfold check_permission, check_permission_with_socket.
  destruct (check_protocol_compatibility_at daemon_state); [|by wp_steps].
  apply wp_bind, wp_request. intros q id failed r _ _ _ _.
  destruct (map_ok _ _) as [[[] id']|]; try by wp_steps.
  - destruct has_tty; unfold resolve_ask_via_tty, prompt_user_tty.
    + wp_steps; [|done]. apply wp_respond. intros. by wp_steps.
    + unfold resolve_ask_via_kyrisd, fail_open_allow. wp_steps. case_match; [|by wp_steps].
      apply wp_bind. unfold hold_poll_resolve. eapply wp_mono; [apply wp_hold_poll|].
      intros l o (r' & l' & -> & Href & Hheld). destruct (held r').
      * specialize (Hheld eq_refl). destruct o as [[]|c'|]; try by wp_steps.
        -- unfold deny_ask_immediately. wp_steps. apply wp_respond. intros. by wp_steps.
        -- by destruct Hheld as (? & _ & ?).
      * destruct (Href eq_refl) as [_ [->|[_ ->]]]; by wp_steps.
  - unfold fail_open_allow. by wp_steps.
Qed.

(** ** Properties *)

(** A tool call is allowed only because agentpactd answered [PACT_OK] for
    this tool of this server; or it asked, and the answer typed at the terminal
    allows and was acknowledged by agentpactd for that ask's token; or it asked,
    and kyrisd reported that very approval id approved; or the check failed open,
    leaving a record in the fail-open spool. *)
Theorem mcp_allow_justified server_name tool_name has_tty op ann agent :
  wp (check_permission server_name tool_name has_tty op ann agent) (fun l o =>
    o = Val PactAllow ->
    by_policy server_name tool_name l \/ by_terminal server_name tool_name l \/
    by_kyrisd server_name tool_name l \/ failed_open server_name tool_name l).
Proof. eapply wp_mono; [apply wp_check|]. by intros l o []. Qed.

(** The check never fails open once somebody was asked: a fail-open record
    goes with an allow, and then no terminal prompt was shown and no hold was
    accepted by kyrisd. *)
Theorem mcp_fail_open_only_unasked server_name tool_name has_tty op ann agent :
  wp (check_permission server_name tool_name has_tty op ann agent) (fun l o =>
    failed_open server_name tool_name l -> o = Val PactAllow /\ unasked l).
Proof. eapply wp_mono; [apply wp_check|]. by intros l o []. Qed.

(** The check always decides: in every responsive world it
    returns a decision, having neither exited nor polled for ever. *)
Theorem mcp_check_decides server_name tool_name has_tty op ann agent w :
  responsive w ->
  exists d, (check_permission server_name tool_name has_tty op ann agent w).1 = Val d.
Proof.
  intros Hw. destruct (check_finishes server_name tool_name has_tty op ann agent w Hw) as [Hu _].
  destruct (check_no_exit server_name tool_name has_tty op ann agent w) as (l & _ & Hx).
  destruct (check_permission _ _ _ _ _ _ w).1 as [d|c|]; [eauto|by destruct (Hx c)|done].
Qed.

(** With agentpactd down, every call of every tool is allowed: after four
    attempts the check records a fail-open and allows, and no setting is read. *)
Theorem mcp_unreachable_allows server_name tool_name has_tty op ann agent w :
  agentpactd w = [] -> check_protocol_compatibility_at daemon_state = Ok tt ->
  (check_permission server_name tool_name has_tty op ann agent w).1 = Val PactAllow /\
  failed_open server_name tool_name
    (log (check_permission server_name tool_name has_tty op ann agent w).2).
Proof.
  intros Hw Hc. unfold check_permission, check_permission_with_socket. rewrite Hc.
  unfold send_permission_request_with_socket, request_mcp_tool_permission_with_id,
    build_mcp_permission_request.
  set (q := mcp_permission_request (request_id "kyris-mcp" (next_uuid w))
    server_name tool_name (mkMcpContext (non_empty cwd) op ann agent)).
  destruct (retry_when_down q (fresh_uuid w).2 Hw) as (e & w2 & E & _).
  erewrite bind_val; [|erewrite bind_val; [|reflexivity]; erewrite bind_val; [reflexivity|exact E]].
  cbn [map_ok]. unfold fail_open_allow. split; [done|]. unfold failed_open.
  change (FailOpen "kyris-mcp" "call" tool_name server_name (non_empty cwd) ∈
    app (log w2) [FailOpen "kyris-mcp" "call" tool_name server_name (non_empty cwd)]).
  set_solver.
Qed.

End policy.

(** agentpactd asks, kyrisd holds, and the user approves on the second poll. *)
Definition ask_world : world :=
  mkWorld [(1%Z, Replied (lit "ask"))]
    [(5, HttpResponse 200 []); (3, HttpResponse 200 (lit "held"));
     (3, HttpResponse 200 (lit "approved"))]%Z [] (Some sample_connection) ∅ 0 0 [].

Lemma mcp_check_decides_witness :
  exists d, (check_permission (lib := sample_libraries) None None "github" "push" false
    (Some "tools/call") default_annotations None ask_world).1 = Val d.
Proof. apply mcp_check_decides. by repeat constructor. Defined.

Example ask_world_allows :
  (check_permission (lib := sample_libraries) None None "github" "push" false
    (Some "tools/call") default_annotations None ask_world).1 = Val PactAllow.
Proof. vm_compute. reflexivity. Qed.

Lemma mcp_unreachable_allows_witness :
  let w := mkWorld [] [] [] None ∅ 0 0 [] in
  let check := check_permission (lib := sample_libraries) None None "github" "push" false
    (Some "tools/call") default_annotations None w in
  check.1 = Val PactAllow /\ failed_open None "github" "push" (log check.2).
Proof. apply (mcp_unreachable_allows (lib := sample_libraries)); reflexivity. Defined.

End McpPolicy.
