(* ===== verification/Relay.v ===== *)
(** * The MCP relay: mcp/src/framing.rs and the tasks of mcp/src/relay.rs

    Four tasks run concurrently: the reader (inline in [relay_agent_to_server]),
    the policy task, the writer of the child's stdin, and [relay_server_to_agent].
    They share two bounded channels, the annotation cache and stdout.  Every await
    point that can let another task run ends a step of [exec], and steps
    interleave freely.  The decisions of [McpPolicy.check_permission] arrive as
    the event [Decides]; failed writes and closed channels are events too.

    The bytes the agent and the server will send are in the state from the start,
    in the chunks the pipes deliver; waiting for them is not a step. *)

From S2P Require Import Prelude Text Framing Json World AgentPact McpPolicy.

Module Relay.
Import Framing AgentPact McpPolicy.
Local Open Scope string_scope.

Section relay.
Context {lib : Libraries} (to_vec : json -> bytes).

(** ** framing.rs *)

Definition parse (message : bytes) : option json := ok (from_slice message).

Definition method_of (message : bytes) : option string :=
  v ← parse message; get "method" v ≫= as_str.

Definition is_tools_call (message : bytes) : bool :=
  bool_decide (method_of message = Some "tools/call").

Definition tools_of (v : json) : option (list json) :=
  result ← get "result" v; tools ← get "tools" result; as_array tools.

Definition is_tools_list_response (message : bytes) : bool :=
  match parse message with
  | Some v => bool_decide (is_Some (tools_of v))
  | None => false
  end.

Definition is_tools_list_changed (message : bytes) : bool :=
  bool_decide (method_of message = Some "notifications/tools/list_changed").

Definition tool_annotations (tool : json) : option (string * ToolAnnotations) :=
  name ← get "name" tool ≫= as_str;
  let annotations := default JNull (get "annotations" tool) in
  Some (name, mkAnnotations (get "readOnlyHint" annotations ≫= as_bool)
                (get "destructiveHint" annotations ≫= as_bool)).

Definition extract_tool_annotations (message : bytes) : list (string * ToolAnnotations) :=
  match parse message ≫= tools_of with
  | Some tools => omap tool_annotations tools
  | None => []
  end.

(** ** relay.rs: pure parts *)

Definition extract_tool_name (message : bytes) : option string :=
  v ← parse message; params ← get "params" v; name ← get "name" params; as_str name.

Definition extract_request_id (message : bytes) : option json :=
  v ← parse message; get "id" v.

(** [trim_end_matches('.')]. *)
Fixpoint drop_dots (l : bytes) : bytes :=
  match l with
  | b :: l' => if Ascii.eqb b "."%char then drop_dots l' else l
  | [] => []
  end.

Definition trim_end_dots (s : string) : string :=
  String.string_of_list_ascii (rev (drop_dots (rev (lit s)))).

Definition deny_code (code : DenyCode) : string * string :=
  match code with
  | PolicyDenied => ("PACT_DENIED", "Change policy or contact admin")
  | CapExceeded => ("PACT_CAP_EXCEEDED", "Wait until reset_at or adjust caps policy")
  | PolicyError => ("PACT_POLICY_ERROR", "Fix policy files: run agentpactd schema to validate")
  | DaemonUnreachable => ("DAEMON_UNREACHABLE", "Run agentpactd to restore governance")
  end.

Definition denied_message (code : DenyCode) (reason : string) (daemon_hint : option string)
    : string :=
  "[AgentPact " ++ (deny_code code).1 ++ "] " ++ trim_end_dots reason ++ ". " ++
  default (deny_code code).2 daemon_hint.

Definition build_denied_response (original_id : json) (code : DenyCode) (reason : string)
    (daemon_hint : option string) : bytes :=
  to_vec (JObject [("jsonrpc", JString "2.0"); ("id", original_id);
    ("error", JObject [("code", JNumber (-32001));
      ("message", JString (denied_message code reason daemon_hint))])]).

Definition normalize (msg : bytes) : bytes :=
  if decide (newline ∈ msg) then
    match from_slice msg with
    | Ok v => to_vec v
    | Err _ => msg
    end
  else msg.

(** ** The tasks *)

Definition CHILD_QUEUE : nat := 64.
Definition TOOL_QUEUE : nat := 8.

(** The reader: between messages, or suspended in a [send], or at its end (both
    senders dropped). *)
Inductive reader_state :=
| Reading
| SendTool (call : bytes * json)
| SendChild (msg : bytes)
| ReaderDone
| ReaderFailed.

Inductive policy_state :=
| Idle
| Checking (call : bytes * json) (tool_name : string) (annotations : ToolAnnotations)
| Forward (msg : bytes)
| Reply (response : bytes)
| PolicyDone
| PolicyFailed.

Inductive server_state :=
| ServerReading
| Relaying (msg : bytes)
| ServerDone
| ServerFailed.

(** A line on stdout: a denial of the policy task, or a message of the server. *)
Inductive out_line :=
| Denial (response : bytes)
| Relayed (msg : bytes).

Record relay := mkRelay {
  stdin : stream;
  in_mode : FrameMode;
  reader : reader_state;
  tool_queue : list (bytes * json);
  child_queue : list bytes;
  policy : policy_state;
  writer_alive : bool;
  child_stdin : list bytes;
  child_stdout : stream;
  out_mode : FrameMode;
  server : server_state;
  annotation_cache : gmap string ToolAnnotations;
  stdout : list out_line }.

Definition start (agent server : stream) : relay :=
  mkRelay agent Unknown Reading [] [] Idle true [] server Unknown ServerReading ∅ [].

(** The parts of a relay that a step changes. *)
Definition set_reader (r : reader_state) (s : relay) : relay :=
  mkRelay (stdin s) (in_mode s) r (tool_queue s) (child_queue s) (policy s) (writer_alive s)
    (child_stdin s) (child_stdout s) (out_mode s) (server s) (annotation_cache s) (stdout s).
Definition set_input (i : stream) (m : FrameMode) (s : relay) : relay :=
  mkRelay i m (reader s) (tool_queue s) (child_queue s) (policy s) (writer_alive s)
    (child_stdin s) (child_stdout s) (out_mode s) (server s) (annotation_cache s) (stdout s).
Definition set_tool_queue (q : list (bytes * json)) (s : relay) : relay :=
  mkRelay (stdin s) (in_mode s) (reader s) q (child_queue s) (policy s) (writer_alive s)
    (child_stdin s) (child_stdout s) (out_mode s) (server s) (annotation_cache s) (stdout s).
Definition set_child_queue (q : list bytes) (s : relay) : relay :=
  mkRelay (stdin s) (in_mode s) (reader s) (tool_queue s) q (policy s) (writer_alive s)
    (child_stdin s) (child_stdout s) (out_mode s) (server s) (annotation_cache s) (stdout s).
Definition set_policy (p : policy_state) (s : relay) : relay :=
  mkRelay (stdin s) (in_mode s) (reader s) (tool_queue s) (child_queue s) p (writer_alive s)
    (child_stdin s) (child_stdout s) (out_mode s) (server s) (annotation_cache s) (stdout s).
Definition set_writer (alive : bool) (written : list bytes) (s : relay) : relay :=
  mkRelay (stdin s) (in_mode s) (reader s) (tool_queue s) (child_queue s) (policy s) alive
    written (child_stdout s) (out_mode s) (server s) (annotation_cache s) (stdout s).
Definition set_server (o : stream) (m : FrameMode) (st : server_state)
    (c : gmap string ToolAnnotations) (s : relay) : relay :=
  mkRelay (stdin s) (in_mode s) (reader s) (tool_queue s) (child_queue s) (policy s)
    (writer_alive s) (child_stdin s) o m st c (stdout s).
Definition set_stdout (o : list out_line) (s : relay) : relay :=
  mkRelay (stdin s) (in_mode s) (reader s) (tool_queue s) (child_queue s) (policy s)
    (writer_alive s) (child_stdin s) (child_stdout s) (out_mode s) (server s)
    (annotation_cache s) o.

Inductive event :=
| Reads (compact : bytes)                 (* the reader: one message, normalised *)
| ReadEnds                                (* end of input, or a framing error *)
| ReaderSends                             (* its [send] completes, or fails *)
| Takes                                   (* the policy task receives a call *)
| Decides (d : PactDecision)
| Forwards                                (* its [send] to the child completes, or fails *)
| Replies                                 (* the denial is written *)
| ReplyFails
| PolicyEnds                              (* the channel is empty and closed *)
| Writes                                  (* the writer: one message and a newline *)
| WriteFails
| ServerReads (compact : bytes)
| ServerEnds
| ServerWrites
| ServerWriteFails.

(** The loop body of [relay_agent_to_server], up to its [send]. *)
Definition classify (compact : bytes) : reader_state :=
  if is_tools_call compact
  then SendTool (compact, default JNull (extract_request_id compact))
  else SendChild compact.

Definition read_step (compact : bytes) (s : relay) : option relay :=
  match reader s, next_message (in_mode s) (stdin s) with
  | Reading, Done (Some msg, mode, rest) =>
      if decide (normalize msg = compact)
      then Some (set_reader (classify compact) (set_input rest mode s)) else None
  | _, _ => None
  end.

Definition read_end (s : relay) : option relay :=
  match reader s, next_message (in_mode s) (stdin s) with
  | Reading, Done (None, mode, rest) => Some (set_reader ReaderDone (set_input rest mode s))
  | Reading, (InvalidData | UnexpectedEof) => Some (set_reader ReaderFailed s)
  | _, _ => None
  end.

(** [mpsc::Sender::send]: fails once the receiver is gone, waits while the
    channel is full. *)
Definition policy_receives (s : relay) : bool :=
  match policy s with PolicyDone | PolicyFailed => false | _ => true end.

Definition reader_send (s : relay) : option relay :=
  match reader s with
  | SendTool call =>
      if negb (policy_receives s) then Some (set_reader ReaderFailed s)
      else if decide (length (tool_queue s) < TOOL_QUEUE)%nat
      then Some (set_reader Reading (set_tool_queue (app (tool_queue s) [call]) s)) else None
  | SendChild msg =>
      if negb (writer_alive s) then Some (set_reader ReaderFailed s)
      else if decide (length (child_queue s) < CHILD_QUEUE)%nat
      then Some (set_reader Reading (set_child_queue (app (child_queue s) [msg]) s)) else None
  | _ => None
  end.

(** [policy_check_task]. *)
Definition policy_take (s : relay) : option relay :=
  match policy s, tool_queue s with
  | Idle, (compact, original_id) :: q =>
      let tool_name := default "unknown" (extract_tool_name compact) in
      let annotations := default default_annotations (annotation_cache s !! tool_name) in
      Some (set_policy (Checking (compact, original_id) tool_name annotations)
             (set_tool_queue q s))
  | _, _ => None
  end.

Definition policy_decide (d : PactDecision) (s : relay) : option relay :=
  match policy s with
  | Checking (compact, original_id) _ _ =>
      Some (set_policy
        match d with
        | PactAllow => Forward compact
        | PactDeny code reason hint => Reply (build_denied_response original_id code reason hint)
        end s)
  | _ => None
  end.

Definition policy_forward (s : relay) : option relay :=
  match policy s with
  | Forward msg =>
      if negb (writer_alive s) then Some (set_policy PolicyFailed s)
      else if decide (length (child_queue s) < CHILD_QUEUE)%nat
      then Some (set_policy Idle (set_child_queue (app (child_queue s) [msg]) s)) else None
  | _ => None
  end.

Definition policy_reply (s : relay) : option relay :=
  match policy s with
  | Reply response => Some (set_policy Idle (set_stdout (app (stdout s) [Denial response]) s))
  | _ => None
  end.

Definition policy_reply_fails (s : relay) : option relay :=
  match policy s with
  | Reply _ => Some (set_policy PolicyFailed s)
  | _ => None
  end.

(** The reader has dropped its senders. *)
Definition reader_gone (s : relay) : bool :=
  match reader s with ReaderDone | ReaderFailed => true | _ => false end.

Definition policy_end (s : relay) : option relay :=
  match policy s, tool_queue s with
  | Idle, [] => if reader_gone s then Some (set_policy PolicyDone s) else None
  | _, _ => None
  end.

(** [child_writer_task]. *)
Definition write_child (s : relay) : option relay :=
  match writer_alive s, child_queue s with
  | true, msg :: q => Some (set_writer true (app (child_stdin s) [msg]) (set_child_queue q s))
  | _, _ => None
  end.

Definition write_fails (s : relay) : option relay :=
  match writer_alive s, child_queue s with
  | true, msg :: q => Some (set_writer false (child_stdin s) (set_child_queue q s))
  | _, _ => None
  end.

(** [relay_server_to_agent]. *)
Definition update_cache (compact : bytes) (cache : gmap string ToolAnnotations)
    : gmap string ToolAnnotations :=
  if is_tools_list_response compact then
    foldl (fun c p => <[p.1 := p.2]> c) cache (extract_tool_annotations compact)
  else if is_tools_list_changed compact then ∅
  else cache.

Definition server_read (compact : bytes) (s : relay) : option relay :=
  match server s, next_message (out_mode s) (child_stdout s) with
  | ServerReading, Done (Some msg, mode, rest) =>
      if decide (normalize msg = compact)
      then Some (set_server rest mode (Relaying compact)
                  (update_cache compact (annotation_cache s)) s)
      else None
  | _, _ => None
  end.

Definition server_end (s : relay) : option relay :=
  match server s, next_message (out_mode s) (child_stdout s) with
  | ServerReading, Done (None, mode, rest) =>
      Some (set_server rest mode ServerDone (annotation_cache s) s)
  | ServerReading, (InvalidData | UnexpectedEof) =>
      Some (set_server (child_stdout s) (out_mode s) ServerFailed (annotation_cache s) s)
  | _, _ => None
  end.

Definition server_write (s : relay) : option relay :=
  match server s with
  | Relaying msg =>
      Some (set_stdout (app (stdout s) [Relayed msg])
        (set_server (child_stdout s) (out_mode s) ServerReading (annotation_cache s) s))
  | _ => None
  end.

Definition server_write_fails (s : relay) : option relay :=
  match server s with
  | Relaying _ =>
      Some (set_server (child_stdout s) (out_mode s) ServerFailed (annotation_cache s) s)
  | _ => None
  end.

Definition exec (s : relay) (e : event) : option relay :=
  match e with
  | Reads compact => read_step compact s
  | ReadEnds => read_end s
  | ReaderSends => reader_send s
  | Takes => policy_take s
  | Decides d => policy_decide d s
  | Forwards => policy_forward s
  | Replies => policy_reply s
  | ReplyFails => policy_reply_fails s
  | PolicyEnds => policy_end s
  | Writes => write_child s
  | WriteFails => write_fails s
  | ServerReads compact => server_read compact s
  | ServerEnds => server_end s
  | ServerWrites => server_write s
  | ServerWriteFails => server_write_fails s
  end.

Definition step (s : relay) (e : event) (s' : relay) : Prop := exec s e = Some s'.

Definition runs := trace step.

(** ** What a run has read and decided *)

Definition reads (evs : list event) : list bytes :=
  omap (fun e => match e with Reads m => Some m | _ => None end) evs.

Definition decisions (evs : list event) : list PactDecision :=
  omap (fun e => match e with Decides d => Some d | _ => None end) evs.

Definition call_of (m : bytes) : bytes * json := (m, default JNull (extract_request_id m)).

(** The calls read, in order, and the other messages. *)
Definition calls (evs : list event) : list bytes := List.filter is_tools_call (reads evs).
Definition others (evs : list event) : list bytes :=
  List.filter (fun m => negb (is_tools_call m)) (reads evs).

(** The calls decided so far, each with its decision. *)
Definition outcomes (evs : list event) : list ((bytes * json) * PactDecision) :=
  zip (call_of <$> calls evs) (decisions evs).

Definition allowed_call (p : (bytes * json) * PactDecision) : option bytes :=
  match p.2 with PactAllow => Some p.1.1 | PactDeny _ _ _ => None end.

Definition denied_reply (p : (bytes * json) * PactDecision) : option bytes :=
  match p.2 with
  | PactAllow => None
  | PactDeny code reason hint => Some (build_denied_response p.1.2 code reason hint)
  end.

Definition allowed (ps : list ((bytes * json) * PactDecision)) : list bytes := omap allowed_call ps.
Definition denied (ps : list ((bytes * json) * PactDecision)) : list bytes := omap denied_reply ps.

Definition denials (out : list out_line) : list bytes :=
  omap (fun l => match l with Denial r => Some r | Relayed _ => None end) out.

Definition checking (s : relay) : list (bytes * json) :=
  match policy s with Checking c _ _ => [c] | _ => [] end.
Definition forwarding (s : relay) : list bytes :=
  match policy s with Forward m => [m] | _ => [] end.
Definition replying (s : relay) : list bytes :=
  match policy s with Reply r => [r] | _ => [] end.
Definition sending_call (s : relay) : list (bytes * json) :=
  match reader s with SendTool c => [c] | _ => [] end.
Definition sending_other (s : relay) : list bytes :=
  match reader s with SendChild m => [m] | _ => [] end.

Definition calls_in (l : list bytes) : list bytes := List.filter is_tools_call l.
Definition others_in (l : list bytes) : list bytes :=
  List.filter (fun m => negb (is_tools_call m)) l.

(** No write or send has failed. *)
Definition healthy (s : relay) : Prop :=
  writer_alive s = true /\ reader s <> ReaderFailed /\ policy s <> PolicyFailed.

(** The messages in each place are of its kind. *)
Definition well_sorted (s : relay) : Prop :=
  Forall (fun c => is_tools_call c.1 = true) (app (checking s) (app (tool_queue s) (sending_call s))) /\
  Forall (fun m => is_tools_call m = true) (forwarding s) /\
  Forall (fun m => is_tools_call m = false) (sending_other s).

(** Where everything read has gone. *)
Record accounted (evs : list event) (s : relay) (decided : list ((bytes * json) * PactDecision))
    : Prop := {
  acc_sorted : well_sorted s;
  acc_calls : exists lost, call_of <$> calls evs =
    app decided.*1 (app (checking s) (app (tool_queue s) (app (sending_call s) lost))) /\
    (reader s <> ReaderFailed -> lost = []);
  acc_decisions : decided.*2 = decisions evs;
  acc_allowed : sublist (app (calls_in (app (child_stdin s) (child_queue s))) (forwarding s))
    (allowed decided);
  acc_denied : sublist (app (denials (stdout s)) (replying s)) (denied decided);
  acc_others : sublist (app (others_in (app (child_stdin s) (child_queue s))) (sending_other s))
    (others evs);
  acc_exact : healthy s ->
    app (calls_in (app (child_stdin s) (child_queue s))) (forwarding s) = allowed decided /\
    app (denials (stdout s)) (replying s) = denied decided /\
    app (others_in (app (child_stdin s) (child_queue s))) (sending_other s) = others evs }.

(** *** Lemmas *)

Lemma calls_in_app a b : calls_in (app a b) = app (calls_in a) (calls_in b).
Proof. apply List.filter_app. Qed.
Lemma others_in_app a b : others_in (app a b) = app (others_in a) (others_in b).
Proof. apply List.filter_app. Qed.
Lemma reads_app a b : reads (app a b) = app (reads a) (reads b).
Proof. apply omap_app. Qed.
Lemma decisions_app a b : decisions (app a b) = app (decisions a) (decisions b).
Proof. apply omap_app. Qed.
Lemma calls_app a b : calls (app a b) = app (calls a) (calls b).
Proof. unfold calls. by rewrite reads_app, List.filter_app. Qed.
Lemma others_app a b : others (app a b) = app (others a) (others b).
Proof. unfold others. by rewrite reads_app, List.filter_app. Qed.
Lemma allowed_app a b : allowed (app a b) = app (allowed a) (allowed b).
Proof. apply omap_app. Qed.
Lemma denied_app a b : denied (app a b) = app (denied a) (denied b).
Proof. apply omap_app. Qed.
Lemma denials_app a b : denials (app a b) = app (denials a) (denials b).
Proof. apply omap_app. Qed.

(** An event that neither reads nor decides leaves the history alone. *)
Definition silent (e : event) : Prop :=
  match e with Reads _ | Decides _ => False | _ => True end.

Lemma silent_history evs e :
  silent e -> calls (app evs [e]) = calls evs /\ others (app evs [e]) = others evs /\
    decisions (app evs [e]) = decisions evs.
Proof.
  intros He. rewrite calls_app, others_app, decisions_app.
  by destruct e; try done; rewrite !app_nil_r.
Qed.

Lemma reads_history evs m :
  calls (app evs [Reads m]) = app (calls evs) (if is_tools_call m then [m] else []) /\
  others (app evs [Reads m]) = app (others evs) (if is_tools_call m then [] else [m]) /\
  decisions (app evs [Reads m]) = decisions evs.
Proof.
  rewrite calls_app, others_app, decisions_app. unfold calls, others. simpl.
  destruct (is_tools_call m); simpl; by rewrite ?app_nil_r.
Qed.

Lemma decides_history evs d :
  calls (app evs [Decides d]) = calls evs /\ others (app evs [Decides d]) = others evs /\
  decisions (app evs [Decides d]) = app (decisions evs) [d].
Proof. rewrite calls_app, others_app, decisions_app. by rewrite !app_nil_r. Qed.

(** *** The accounting survives every step *)

Definition pending (s : relay) : list (bytes * json) :=
  app (checking s) (app (tool_queue s) (sending_call s)).
Definition passed (s : relay) : list bytes :=
  app (calls_in (app (child_stdin s) (child_queue s))) (forwarding s).
Definition refused (s : relay) : list bytes := app (denials (stdout s)) (replying s).
Definition relayed (s : relay) : list bytes :=
  app (others_in (app (child_stdin s) (child_queue s))) (sending_other s).

Lemma accounted_silent evs s e s' decided :
  silent e -> accounted evs s decided -> well_sorted s' ->
  (exists lost, pending s = app (pending s') lost /\ (reader s' <> ReaderFailed -> lost = [])) ->
  (reader s = ReaderFailed -> reader s' = ReaderFailed) ->
  sublist (passed s') (passed s) -> sublist (refused s') (refused s) ->
  sublist (relayed s') (relayed s) ->
  (healthy s' -> healthy s /\ passed s' = passed s /\ refused s' = refused s /\
     relayed s' = relayed s) ->
  accounted (app evs [e]) s' decided.
Proof.
  intros He [Hs (lost & Hc & Hlost) Hd Ha Hr Ho Hx] Hs' (more & Hp & Hmore) Hrf H1 H2 H3 Hh.
  destruct (silent_history evs e He) as (Ec & Eo & Ed).
  split; rewrite ?Ec, ?Eo, ?Ed; try done.
  - exists (app more lost). split.
    + rewrite Hc. f_equal. transitivity (app (pending s) lost);
        [unfold pending; by rewrite <- !app_assoc|].
      rewrite Hp. unfold pending. by rewrite <- !app_assoc.
    + intros Hn. rewrite Hmore, Hlost; [done| |done]. intros Hf. auto.
  - by etrans.
  - by etrans.
  - by etrans.
  - intros Hs2. destruct (Hh Hs2) as (Hs1 & E1 & E2 & E3). destruct (Hx Hs1) as (X1 & X2 & X3).
    unfold passed, refused, relayed in *. by rewrite E1, E2, E3.
Qed.

Lemma accounted_reads evs s m s' decided :
  accounted evs s decided -> read_step m s = Some s' -> accounted (app evs [Reads m]) s' decided.
Proof.
  unfold read_step. intros [Hs (lost & Hc & Hlost) Hd Ha Hr Ho Hx] E.
  destruct (reader s) eqn:Er; try done.
  destruct (next_message _ _) as [[[[msg|] mode] rest]| | |]; try done.
  case_decide as Hm; [|done]. injection E as <-.
  destruct (reads_history evs m) as (Ec & Eo & Ed).
  rewrite (Hlost ltac:(congruence)) in Hc.
  destruct Hs as (S1 & S2 & S3).
  unfold well_sorted, healthy, sending_call, sending_other, checking, forwarding, replying in *.
  rewrite Er in *. rewrite !app_nil_r in *.
  assert (forall X, sublist X (others evs) ->
    sublist (app X (if is_tools_call m then [] else [m]))
      (app (others evs) (if is_tools_call m then [] else [m]))) as Hsub
    by (intros; by apply sublist_app).
  split; rewrite ?Ec, ?Eo, ?Ed; simpl; unfold sending_call, sending_other, classify; simpl; try done.
  - unfold well_sorted, sending_call, sending_other, checking, forwarding, classify; simpl.
    destruct (is_tools_call m) eqn:Em; simpl; rewrite ?app_nil_r; split_and!; try done.
    + rewrite app_assoc. apply Forall_app. split; [done|by constructor].
    + by constructor.
  - exists []. rewrite fmap_app, Hc. destruct (is_tools_call m); simpl; by rewrite ?app_nil_r, <- ?app_assoc.
  - specialize (Hsub _ Ho). by destruct (is_tools_call m); simpl in *; rewrite ?app_nil_r in *.
  - intros (H1 & _ & H3). destruct Hx as (X1 & X2 & X3); [by split_and!|].
    split_and!; [done|done|]. rewrite <- X3. by destruct (is_tools_call m).
Qed.

Lemma accounted_decides evs s d s' decided :
  accounted evs s decided -> policy_decide d s = Some s' ->
  exists decided', accounted (app evs [Decides d]) s' decided'.
Proof.
  unfold policy_decide. intros [Hs (lost & Hc & Hlost) Hd Ha Hr Ho Hx] E.
  destruct (policy s) as [|[compact id] name ann| | | |] eqn:Ep; try done. injection E as <-.
  destruct (decides_history evs d) as (Ec & Eo & Ed).
  destruct Hs as (S1 & S2 & S3).
  unfold well_sorted, healthy, sending_call, sending_other, checking, forwarding, replying in *.
  rewrite Ep in *. simpl in S1. apply Forall_cons in S1 as [Hcall S1]. simpl in Hcall.
  rewrite !app_nil_r in *.
  exists (app decided [((compact, id), d)]).
  split; rewrite ?Ec, ?Eo, ?Ed; rewrite ?fmap_app, ?allowed_app, ?denied_app; simpl;
    unfold sending_call, sending_other, checking, forwarding, replying, set_policy; simpl.
  - unfold well_sorted, checking, forwarding, sending_call, sending_other; simpl.
    destruct d; split_and!; auto.
  - exists lost. split; [|done]. rewrite Hc. destruct d; by rewrite <- !app_assoc.
  - by rewrite Hd.
  - destruct d; simpl; unfold allowed; simpl; [by apply sublist_app|by rewrite !app_nil_r].
  - destruct d; simpl; unfold denied; simpl; [by rewrite !app_nil_r|by apply sublist_app].
  - done.
  - intros (H1 & H2 & _). destruct Hx as (X1 & X2 & X3); [by split_and!|].
    destruct d; unfold allowed, denied in *; simpl; rewrite ?app_nil_r; by split_and!; f_equal.
Qed.

Lemma calls_in_other m : is_tools_call m = false -> calls_in [m] = [] /\ others_in [m] = [m].
Proof. unfold calls_in, others_in. simpl. by intros ->. Qed.

Lemma calls_in_call m : is_tools_call m = true -> calls_in [m] = [m] /\ others_in [m] = [].
Proof. unfold calls_in, others_in. simpl. by intros ->. Qed.

(** Unfold the views of a state whose tasks are known. *)
Ltac views :=
  unfold well_sorted, healthy, pending, passed, refused, relayed, checking, forwarding, replying,
    sending_call, sending_other, set_reader, set_input, set_tool_queue, set_child_queue, set_policy,
    set_writer, set_server, set_stdout in *; simpl in *;
  repeat match goal with
  | H : reader _ = _ |- _ => rewrite H in *
  | H : policy _ = _ |- _ => rewrite H in *
  | H : tool_queue _ = _ |- _ => rewrite H in *
  | H : child_queue _ = _ |- _ => rewrite H in *
  | H : writer_alive _ = _ |- _ => rewrite H in *
  end; simpl in *.

(** Goals of [accounted_silent] about parts the step did not touch. *)
Ltac untouched :=
  rewrite ?app_nil_r; try done; try (by exists []; rewrite ?app_nil_r);
  try (by intros (? & ? & ?)); try (by intros (? & ? & ?); split_and!).

Lemma accounted_reader evs s e s' decided :
  accounted evs s decided ->
  (e = ReadEnds /\ read_end s = Some s' \/ e = ReaderSends /\ reader_send s = Some s') ->
  accounted (app evs [e]) s' decided.
Proof.
  intros Hacc [[-> E]|[-> E]]; pose proof (acc_sorted _ _ _ Hacc) as Hs.
  - unfold read_end in E. destruct (reader s) eqn:Er; try done.
    destruct (next_message _ _) as [[[[msg|] mode] rest]| | |]; simplify_eq;
      (eapply accounted_silent; [done|done|..]); views;
      try done; try (by exists []; rewrite ?app_nil_r); by intros (? & ? & ?).
  - unfold reader_send in E. destruct (reader s) as [|call|msg| |] eqn:Er; try done.
    + destruct (policy_receives s) eqn:Ep; simpl in E; [case_decide; [|done]|]; simplify_eq;
        (eapply accounted_silent; [done|done|..]); views; rewrite ?app_nil_r; try done;
        try (by intros (? & ? & ?)).
      * exists []. by rewrite !app_nil_r.
      * destruct Hs as (H1 & H2 & H3). rewrite app_assoc in H1. apply Forall_app in H1 as [H1 _].
        by split_and!.
      * exists [call]. split; [by rewrite <- app_assoc|done].
    + destruct (writer_alive s) eqn:Ew; simpl in E; [case_decide; [|done]|]; simplify_eq;
        (eapply accounted_silent; [done|done|..]); views; rewrite ?app_nil_r; try done.
      all: destruct Hs as (H1 & H2 & H3); apply Forall_cons in H3 as [Hm _];
        destruct (calls_in_other _ Hm) as [Ec Eo];
        rewrite ?calls_in_app, ?others_in_app, ?Ec, ?Eo, ?app_nil_r, <- ?app_assoc; try done.
      all: try (rewrite app_nil_r in H1; by split_and!); untouched.
      rewrite app_assoc. by apply sublist_inserts_r.
Qed.

Lemma accounted_policy evs s e s' decided :
  accounted evs s decided ->
  (e = Takes /\ policy_take s = Some s' \/ e = Forwards /\ policy_forward s = Some s' \/
   e = Replies /\ policy_reply s = Some s' \/ e = ReplyFails /\ policy_reply_fails s = Some s' \/
   e = PolicyEnds /\ policy_end s = Some s') ->
  accounted (app evs [e]) s' decided.
Proof.
  intros Hacc [[-> E]|[[-> E]|[[-> E]|[[-> E]|[-> E]]]]]; pose proof (acc_sorted _ _ _ Hacc) as Hs.
  - unfold policy_take in E. destruct (policy s) eqn:Ep; try done.
    destruct (tool_queue s) as [|[compact id] q] eqn:Eq; simplify_eq.
    eapply accounted_silent; [done|done|..]; views; untouched.
  - unfold policy_forward in E. destruct (policy s) as [| |msg| | |] eqn:Ep; try done.
    destruct (writer_alive s) eqn:Ew; simpl in E; [case_decide; [|done]|]; simplify_eq;
      (eapply accounted_silent; [done|done|..]); views; rewrite ?app_nil_r; try done.
    all: destruct Hs as (H1 & H2 & H3); apply Forall_cons in H2 as [Hm _];
      destruct (calls_in_call _ Hm) as [Ec Eo];
      rewrite ?calls_in_app, ?others_in_app, ?Ec, ?Eo, ?app_nil_r, <- ?app_assoc; try done.
    all: try (by split_and!); untouched.
    rewrite app_assoc. by apply sublist_inserts_r.
  - unfold policy_reply in E. destruct (policy s) as [| | |response| |] eqn:Ep; try done.
    simplify_eq. eapply accounted_silent; [done|done|..]; views; untouched.
    + by rewrite denials_app.
    + rewrite denials_app. untouched.
  - unfold policy_reply_fails in E. destruct (policy s) as [| | |response| |] eqn:Ep; try done.
    simplify_eq. eapply accounted_silent; [done|done|..]; views; untouched.
    + by apply sublist_inserts_r.
  - unfold policy_end in E. destruct (policy s) eqn:Ep; try done.
    destruct (tool_queue s) eqn:Eq; [|done]. destruct (reader_gone s); [|done].
    simplify_eq. eapply accounted_silent; [done|done|..]; views; untouched.
Qed.

Lemma accounted_io evs s e s' decided :
  accounted evs s decided ->
  (e = Writes /\ write_child s = Some s' \/ e = WriteFails /\ write_fails s = Some s' \/
   (exists m, e = ServerReads m /\ server_read m s = Some s') \/
   e = ServerEnds /\ server_end s = Some s' \/
   e = ServerWrites /\ server_write s = Some s' \/
   e = ServerWriteFails /\ server_write_fails s = Some s') ->
  accounted (app evs [e]) s' decided.
Proof.
  intros Hacc He; pose proof (acc_sorted _ _ _ Hacc) as Hs.
  destruct He as [[-> E]|[[-> E]|[(m & -> & E)|[[-> E]|[[-> E]|[-> E]]]]]].
  - unfold write_child in E. destruct (writer_alive s) eqn:Ew; [|done].
    destruct (child_queue s) as [|msg q] eqn:Eq; [done|]. simplify_eq.
    eapply accounted_silent; [done|done|..]; views; rewrite <- ?app_assoc; untouched.
  - unfold write_fails in E. destruct (writer_alive s) eqn:Ew; [|done].
    destruct (child_queue s) as [|msg q] eqn:Eq; [done|]. simplify_eq.
    eapply accounted_silent; [done|done|..]; views; untouched.
    + rewrite (calls_in_app _ (msg :: q)), (calls_in_app _ q). apply sublist_app; [|done].
      apply sublist_app; [done|]. change (msg :: q) with (app [msg] q). rewrite calls_in_app.
      by apply sublist_inserts_l.
    + rewrite (others_in_app _ (msg :: q)), (others_in_app _ q). apply sublist_app; [|done].
      apply sublist_app; [done|]. change (msg :: q) with (app [msg] q). rewrite others_in_app.
      by apply sublist_inserts_l.
  - unfold server_read in E. destruct (server s); try done.
    destruct (next_message _ _) as [[[[msg|] mode] rest]| | |]; try done.
    case_decide; simplify_eq. eapply accounted_silent; [done|done|..]; views; untouched.
  - unfold server_end in E. destruct (server s); try done.
    destruct (next_message _ _) as [[[[msg|] mode] rest]| | |]; simplify_eq;
      (eapply accounted_silent; [done|done|..]); views; untouched.
  - unfold server_write in E. destruct (server s); simplify_eq.
    eapply accounted_silent; [done|done|..]; views; rewrite ?denials_app; simpl;
      untouched.
  - unfold server_write_fails in E. destruct (server s); simplify_eq.
    eapply accounted_silent; [done|done|..]; views; untouched.
Qed.

Lemma accounted_step evs s e s' decided :
  accounted evs s decided -> step s e s' -> exists decided', accounted (app evs [e]) s' decided'.
Proof.
  unfold step. intros Hacc E. destruct e; simpl in E.
  - exists decided. by eapply accounted_reads.
  - exists decided. eapply accounted_reader; [done|]. by left.
  - exists decided. eapply accounted_reader; [done|]. by right.
  - exists decided. eapply accounted_policy; [done|]. by left.
  - by eapply accounted_decides.
  - exists decided. eapply accounted_policy; [done|]. by right; left.
  - exists decided. eapply accounted_policy; [done|]. by right; right; left.
  - exists decided. eapply accounted_policy; [done|]. by right; right; right; left.
  - exists decided. eapply accounted_policy; [done|]. by right; right; right; right.
  - exists decided. eapply accounted_io; [done|]. by left.
  - exists decided. eapply accounted_io; [done|]. by right; left.
  - exists decided. eapply accounted_io; [done|]. by right; right; left; eauto.
  - exists decided. eapply accounted_io; [done|]. by right; right; right; left.
  - exists decided. eapply accounted_io; [done|]. by right; right; right; right; left.
  - exists decided. eapply accounted_io; [done|]. by right; right; right; right; right.
Qed.

Lemma accounted_start agent server : accounted [] (start agent server) [].
Proof.
  split; try done. by exists [].
Qed.

Lemma accounted_runs agent server evs s :
  runs (start agent server) evs s -> exists decided, accounted evs s decided.
Proof.
  intros Hr. apply (trace_history_invariant step (fun evs s => exists decided, accounted evs s decided)
    (start agent server)); [|done|exists []; apply accounted_start].
  intros evs1 s1 e s2 [decided Hacc] Hstep. by eapply accounted_step.
Qed.

(** What has been decided is [outcomes]. *)
Lemma accounted_outcomes evs s decided : accounted evs s decided -> decided = outcomes evs.
Proof.
  intros [_ (lost & Hc & _) Hd _ _ _ _]. unfold outcomes. rewrite Hc, <- Hd.
  rewrite zip_with_app_l, length_fmap.
  rewrite <- (length_fmap snd decided), take_ge, drop_ge by done.
  rewrite zip_with_nil_r, app_nil_r. symmetry. apply zip_fst_snd.
Qed.

(** ** What the child reads *)

(** The bytes on the child's stdin, and the lines it reads from them. *)
Definition child_bytes (s : relay) : bytes :=
  concat ((fun m => app m [newline]) <$> child_stdin s).

Definition child_lines (s : relay) : list bytes := split_newlines (child_bytes s).

Lemma reads_normalized agent server evs s m :
  runs (start agent server) evs s -> m ∈ reads evs -> exists msg, m = normalize msg.
Proof.
  intros Hr. revert m.
  apply (trace_history_invariant step (fun evs _ => forall m, m ∈ reads evs -> exists msg, m = normalize msg)
    (start agent server) evs s); [|done|by intros m ?%elem_of_nil].
  intros evs1 s1 e s2 IH Hs m. rewrite reads_app, elem_of_app. intros [?|Hm]; [by apply IH|].
  destruct e; simpl in Hm; try by apply elem_of_nil in Hm.
  apply list_elem_of_singleton in Hm as ->. unfold step in Hs. simpl in Hs. unfold read_step in Hs.
  destruct (reader s1); try done. destruct (next_message _ _) as [[[[msg|] ?] ?]| | |]; try done.
  case_decide; [|done]. by exists msg.
Qed.

Lemma in_calls_or_others l m : m ∈ l -> m ∈ calls_in l \/ m ∈ others_in l.
Proof.
  intros Hm%list_elem_of_In. unfold calls_in, others_in. rewrite !list_elem_of_In, !filter_In.
  destruct (is_tools_call m); [left|right]; done.
Qed.

Lemma allowed_are_calls evs m : m ∈ allowed (outcomes evs) -> m ∈ calls evs.
Proof.
  unfold allowed, outcomes. intros ([[c i] d] & Hin & Hd)%list_elem_of_omap.
  apply elem_of_zip_l in Hin. apply list_elem_of_fmap in Hin as (m' & [= -> ->] & Hin).
  unfold allowed_call in Hd. simpl in Hd. by destruct d; simplify_eq.
Qed.

Lemma written_were_read evs s decided m :
  accounted evs s decided -> m ∈ child_stdin s -> m ∈ reads evs.
Proof.
  intros Hacc Hm. destruct (in_calls_or_others _ _ Hm) as [Hc|Ho].
  - assert (m ∈ allowed decided) as Hin.
    { eapply elem_of_sublist; [|apply (acc_allowed _ _ _ Hacc)].
      rewrite calls_in_app. set_solver. }
    rewrite (accounted_outcomes _ _ _ Hacc) in Hin. apply allowed_are_calls in Hin.
    unfold calls in Hin. by apply list_elem_of_In, filter_In in Hin as [?%list_elem_of_In _].
  - assert (m ∈ others evs) as Hin.
    { eapply elem_of_sublist; [|apply (acc_others _ _ _ Hacc)].
      rewrite others_in_app. set_solver. }
    unfold others in Hin. by apply list_elem_of_In, filter_In in Hin as [?%list_elem_of_In _].
Qed.

(** A message that is JSON is one line once normalised. *)
Lemma normalize_one_line msg :
  (forall v, newline ∉ to_vec v) -> is_Some (parse (normalize msg)) -> newline ∉ normalize msg.
Proof.
  unfold normalize. intros Hlaw Hp. case_decide; [|done]. destruct (from_slice msg) eqn:E; [done|].
  unfold parse in Hp. rewrite E in Hp. by destruct Hp.
Qed.

(** The policy task ends only after the reader, with nothing left to take. *)
Definition ended_empty (s : relay) : Prop :=
  policy s = PolicyDone -> tool_queue s = [] /\ reader_gone s = true.

Lemma ended_empty_step s e s' : ended_empty s -> step s e s' -> ended_empty s'.
Proof.
  unfold ended_empty, step, reader_gone. intros Hs E.
  destruct e; simpl in E;
    unfold read_step, read_end, reader_send, policy_take, policy_decide, policy_forward,
      policy_reply, policy_reply_fails, policy_end, write_child, write_fails, server_read,
      server_end, server_write, server_write_fails, policy_receives, reader_gone in E;
    repeat case_match; simplify_eq; views; try done; try naive_solver.
Qed.

(** ** Properties *)

(** No ungoverned tool call: at any moment of any run, failures included, the
    [tools/call] messages written to the child are, in order and each at most
    once, among those whose own policy decision was Allow (the k-th decision
    belongs to the k-th call the agent sent). *)
Theorem calls_need_allow agent server evs s :
  runs (start agent server) evs s ->
  sublist (calls_in (child_stdin s)) (allowed (outcomes evs)).
Proof.
  intros [decided Hacc]%accounted_runs. rewrite <- (accounted_outcomes _ _ _ Hacc).
  etrans; [|apply (acc_allowed _ _ _ Hacc)]. rewrite calls_in_app, <- app_assoc.
  by apply sublist_inserts_r.
Qed.

(** A tool call of MCP: a JSON object whose method is [tools/call].  (A batch, which is an
    array, is not one.) *)
Definition is_call (m : bytes) : bool :=
  match parse m with
  | Some v => match get "method" v with Some (JString s) => String.eqb s "tools/call" | _ => false end
  | None => false
  end.

(** The calls the agent has sent that were decided so far and allowed: the k-th decision is
    about the k-th call. *)
Definition allowed_calls (evs : list event) : list bytes :=
  omap (fun p => match p.2 with PactAllow => Some p.1 | PactDeny _ _ _ => None end)
    (zip (List.filter is_call (reads evs)) (decisions evs)).

Lemma is_tools_call_call m : is_tools_call m = is_call m.
Proof.
  unfold is_tools_call, method_of, is_call. destruct (parse m) as [v|]; [|done]. simpl.
  destruct (get "method" v) as [[]|]; simpl; try done.
  case_bool_decide as Hb; [by simplify_eq|]. symmetry. apply String.eqb_neq. congruence.
Qed.

Lemma filter_calls l : List.filter is_tools_call l = List.filter is_call l.
Proof. apply filter_ext. apply is_tools_call_call. Qed.

Lemma allowed_outcomes evs : allowed (outcomes evs) = allowed_calls evs.
Proof.
  unfold allowed, outcomes, allowed_calls, calls. rewrite filter_calls.
  generalize (decisions evs) as ds. induction (List.filter is_call (reads evs)) as [|m l IH]; intros [|d ds]; try done.
  simpl. unfold allowed_call at 1. simpl. destruct d; simpl; rewrite IH; done.
Qed.

(** C40. Of tool calls the server reads only those that were allowed.  A tool call is a JSON
    object whose method is [tools/call].  Provided every message the agent sends is JSON
    (and the serialiser never writes a newline), at any moment of any run, failures
    included, the tool calls among the lines that the server reads from its stdin are, in
    order and each at most once, those the agent sent whose own policy decision was to
    allow; an object stays one line.  (A JSON-RPC batch is an array, so not a tool call
    here, and what calls it holds are not checked: [batch_goes_unchecked].) *)
Theorem child_reads_only_allowed_calls agent server evs s :
  (forall v, newline ∉ to_vec v) ->
  runs (start agent server) evs s ->
  Forall (fun m => is_Some (parse m)) (reads evs) ->
  sublist (List.filter is_call (child_lines s)) (allowed_calls evs).
Proof.
  intros Hlaw Hr Hjson. unfold child_lines, child_bytes.
  destruct (accounted_runs _ _ _ _ Hr) as [decided Hacc].
  rewrite split_newlines_lines.
  - rewrite <- filter_calls, <- allowed_outcomes, <- (accounted_outcomes _ _ _ Hacc).
    etrans; [|apply (acc_allowed _ _ _ Hacc)].
    fold (calls_in (child_stdin s)). rewrite calls_in_app, <- app_assoc. by apply sublist_inserts_r.
  - apply Forall_forall. intros m Hm.
    pose proof (written_were_read _ _ _ _ Hacc Hm) as Hread.
    destruct (reads_normalized _ _ _ _ _ Hr Hread) as [msg ->]. apply normalize_one_line; [done|].
    rewrite Forall_forall in Hjson. by apply Hjson.
Qed.

(** A batch is sent to the child, whatever it holds. *)
Lemma batch_goes_unchecked m l : from_slice m = Ok (JArray l) -> classify m = SendChild m.
Proof.
  intros Hm. unfold classify, is_tools_call, method_of, parse. by rewrite Hm.
Qed.

(** Nothing is lost and nothing reordered: when the agent has closed its side
    and the tasks have drained without an I/O failure, every call was decided, the
    child has received exactly the allowed calls and all other messages, each kind
    in the order sent, and stdout exactly one denial for each denied call. *)
Theorem drained_run_complete agent server evs s :
  runs (start agent server) evs s ->
  reader s = ReaderDone -> policy s = PolicyDone -> writer_alive s = true -> child_queue s = [] ->
  length (decisions evs) = length (calls evs) /\
  calls_in (child_stdin s) = allowed (outcomes evs) /\
  others_in (child_stdin s) = others evs /\
  denials (stdout s) = denied (outcomes evs).
Proof.
  intros Hruns Hr Hp Hw Hq.
  assert (ended_empty s) as He
    by (by eapply (trace_invariant step ended_empty); [apply ended_empty_step|exact Hruns|]).
  destruct (He Hp) as [Ht _]. clear He. apply accounted_runs in Hruns as [decided Hacc].
  rewrite <- (accounted_outcomes _ _ _ Hacc).
  destruct Hacc as [_ (lost & Hc & Hlost) Hd _ _ _ Hx].
  destruct Hx as (X1 & X2 & X3); [by unfold healthy; rewrite Hr, Hp, Hw|].
  unfold checking, forwarding, replying, sending_call, sending_other in *.
  rewrite Hr, Hp, Hq, Ht in *. rewrite !app_nil_r in *. split_and!; try done.
  rewrite Hlost in Hc by done. apply (f_equal length) in Hc.
  simpl in Hc. rewrite app_nil_r, !length_fmap in Hc. by rewrite <- Hd, length_fmap.
Qed.

(** The two ends of what the relay reads. *)
Definition wf_relay (s : relay) : Prop := Framing.wf (stdin s) /\ Framing.wf (child_stdout s).

Lemma wf_relay_step s e s' : wf_relay s -> step s e s' -> wf_relay s'.
Proof.
  unfold wf_relay, step. intros [H1 H2] E.
  destruct e; simpl in E;
    unfold read_step, read_end, reader_send, policy_take, policy_decide, policy_forward,
      policy_reply, policy_reply_fails, policy_end, write_child, write_fails, server_read,
      server_end, server_write, server_write_fails, next_message in E;
    repeat case_match; simplify_eq; simpl; try done; split; try done;
    by eapply read_message_wf.
Qed.

(** The tasks of the agent's side still have something to do. *)
Definition unfinished (s : relay) : Prop :=
  reader_gone s = false \/ policy_receives s = true \/
  (writer_alive s = true /\ child_queue s <> []).

Definition is_failure (e : event) : Prop :=
  match e with ReplyFails | WriteFails | ServerWriteFails => True | _ => False end.

(** The policy task and the writer make room, whatever the reader waits for. *)
Lemma policy_progress s :
  policy_receives s = true -> reader_gone s = true \/ tool_queue s <> [] ->
  exists e s', step s e s' /\ ~ is_failure e.
Proof.
  unfold step. intros Hp Hq. destruct (policy s) as [|[c i] name ann|msg|response| |] eqn:Ep;
    unfold policy_receives in Hp; rewrite Ep in Hp; try done.
  - destruct (tool_queue s) as [|[c i] q] eqn:Eq.
    + exists PolicyEnds. eexists. simpl. unfold policy_end. rewrite Ep, Eq.
      destruct Hq as [->|?]; [|done]. split; [done|by intros []].
    + exists Takes. eexists. simpl. unfold policy_take. rewrite Ep, Eq. split; [done|by intros []].
  - exists (Decides PactAllow). eexists. simpl. unfold policy_decide. rewrite Ep.
    split; [done|by intros []].
  - destruct (writer_alive s) eqn:Ew.
    + destruct (decide (length (child_queue s) < CHILD_QUEUE)%nat) as [Hl|Hl].
      * exists Forwards. eexists. simpl. unfold policy_forward. rewrite Ep, Ew. simpl.
        rewrite decide_True by done. split; [done|by intros []].
      * exists Writes. destruct (child_queue s) as [|m q] eqn:Ec; [simpl in Hl; unfold CHILD_QUEUE in Hl; lia|].
        eexists. simpl. unfold write_child. rewrite Ew, Ec. split; [done|by intros []].
    + exists Forwards. eexists. simpl. unfold policy_forward. rewrite Ep, Ew.
      split; [done|by intros []].
  - exists Replies. eexists. simpl. unfold policy_reply. rewrite Ep. split; [done|by intros []].
Qed.

Lemma gone_progress s :
  reader_gone s = true -> unfinished s -> exists e s', step s e s' /\ ~ is_failure e.
Proof.
  intros Hg [Hu|[Hu|[Hw Hq]]]; [congruence|apply policy_progress; auto|].
  exists Writes. destruct (child_queue s) as [|m q] eqn:Ec; [done|].
  eexists. unfold step. simpl. unfold write_child. rewrite Hw, Ec. split; [done|by intros []].
Qed.

(** The bounded channels do not deadlock: in every reachable state in which a
    task of the agent's side has not finished, some step other than a failure is
    possible. *)
Theorem relay_progress agent server evs s :
  Framing.wf agent -> Framing.wf server -> runs (start agent server) evs s -> unfinished s ->
  exists e s', step s e s' /\ ~ is_failure e.
Proof.
  intros Ha Hs Hr Hu.
  assert (wf_relay s) as [Hwf _]
    by (by eapply (trace_invariant step wf_relay); [apply wf_relay_step|exact Hr|split]).
  destruct (reader s) as [|call|msg| |] eqn:Er.
  - pose proof (next_message_finishes (in_mode s) (stdin s) Hwf) as Hn.
    destruct (next_message (in_mode s) (stdin s)) as [[[[msg|] mode] rest]| | |] eqn:En; try done.
    1: exists (Reads (normalize msg)). 2-4: exists ReadEnds.
    all: eexists; unfold step; simpl; unfold read_step, read_end; rewrite Er, En;
      rewrite ?decide_True by done; (split; [done|by intros []]).
  - destruct (policy_receives s) eqn:Ep.
    + destruct (decide (length (tool_queue s) < TOOL_QUEUE)%nat) as [Hl|Hl].
      * exists ReaderSends. eexists. unfold step. simpl. unfold reader_send. rewrite Er, Ep. simpl.
        rewrite decide_True by done. split; [done|by intros []].
      * apply policy_progress; [done|]. right. intros E. rewrite E in Hl. simpl in Hl.
        unfold TOOL_QUEUE in Hl. lia.
    + exists ReaderSends. eexists. unfold step. simpl. unfold reader_send. rewrite Er, Ep.
      split; [done|by intros []].
  - destruct (writer_alive s) eqn:Ew.
    + destruct (decide (length (child_queue s) < CHILD_QUEUE)%nat) as [Hl|Hl].
      * exists ReaderSends. eexists. unfold step. simpl. unfold reader_send. rewrite Er, Ew. simpl.
        rewrite decide_True by done. split; [done|by intros []].
      * exists Writes. destruct (child_queue s) as [|m q] eqn:Ec; [simpl in Hl; unfold CHILD_QUEUE in Hl; lia|].
        eexists. unfold step. simpl. unfold write_child. rewrite Ew, Ec. split; [done|by intros []].
    + exists ReaderSends. eexists. unfold step. simpl. unfold reader_send. rewrite Er, Ew.
      split; [done|by intros []].
  - by apply gone_progress; unfold reader_gone; rewrite ?Er.
  - by apply gone_progress; unfold reader_gone; rewrite ?Er.
Qed.

(** *** A message that is not JSON *)

Definition quoted (s : string) : bytes := app [dquote] (app (lit s) [dquote]).

(** A call on a line of its own, inside braces that make it part of a message
    that is not JSON. *)
Definition hidden_call : bytes :=
  app (lit "{") (app (quoted "method") (app (lit ":") (app (quoted "tools/call") (lit "}")))).

Definition smuggled : bytes :=
  app (lit "{") (app [newline] (app hidden_call (app [newline] (lit "}")))).

(** A message that is not JSON is forwarded as it is, newlines included, and
    never checked: one brace-delimited message makes the child read a
    [tools/call] line in a run in which no policy decision is taken. *)
Theorem smuggled_call_reaches_child server e :
  from_slice smuggled = Err e ->
  from_slice hidden_call = Ok (JObject [("method", JString "tools/call")]) ->
  exists evs s, runs (start [smuggled] server) evs s /\ decisions evs = [] /\
    hidden_call ∈ child_lines s /\ is_tools_call hidden_call = true.
Proof.
  intros Hout Hin.
  assert (next_message Unknown [smuggled] = Done (Some smuggled, BraceDepth, [])) as Hn by reflexivity.
  assert (normalize smuggled = smuggled) as Hnorm.
  { unfold normalize. rewrite Hout. by case_decide. }
  assert (classify smuggled = SendChild smuggled) as Hclass.
  { unfold classify, is_tools_call, method_of, parse. rewrite Hout. reflexivity. }
  exists [Reads smuggled; ReaderSends; Writes]. eexists. split_and!; [|done| |].
  - apply exec_list_trace. unfold exec_list. cbn [foldl mbind option_bind exec].
    unfold read_step. cbn [start reader in_mode stdin]. rewrite Hn, decide_True by done.
    rewrite Hclass. reflexivity.
  - apply list_elem_of_In. right. by left.
  - unfold is_tools_call, method_of, parse. rewrite Hin. reflexivity.
Qed.

(** *** A reader waiting for the policy task *)

Definition ping : bytes := app (lit "{") (app (quoted "method") (app (lit ":") (app (quoted "ping") (lit "}")))).

Lemma next_hidden_call mode rest :
  mode = Unknown \/ mode = BraceDepth ->
  next_message mode (hidden_call :: rest) = Done (Some hidden_call, BraceDepth, rest).
Proof. by intros [-> | ->]. Qed.

Section blocked.
Context (Hcall : from_slice hidden_call = Ok (JObject [("method", JString "tools/call")])).

Lemma hidden_is_call : is_tools_call hidden_call = true.
Proof. unfold is_tools_call, method_of, parse. by rewrite Hcall. Qed.

Lemma hidden_normal : normalize hidden_call = hidden_call.
Proof. unfold normalize. by rewrite decide_False by (by intros ?%(bool_decide_pack _)). Qed.

(** Reading one more call. *)
Lemma reads_call s rest :
  reader s = Reading -> (in_mode s = Unknown \/ in_mode s = BraceDepth) ->
  stdin s = hidden_call :: rest ->
  step s (Reads hidden_call)
    (set_reader (SendTool (call_of hidden_call)) (set_input rest BraceDepth s)).
Proof.
  intros Hr Hm Hs. unfold step. simpl. unfold read_step. rewrite Hr, Hs, next_hidden_call by done.
  rewrite decide_True by apply hidden_normal. unfold classify. by rewrite hidden_is_call.
Qed.

(** The policy task is busy, and the reader is filling its channel. *)
Definition filling (n : nat) (s : relay) : Prop :=
  reader s = SendTool (call_of hidden_call) /\ in_mode s = BraceDepth /\
  stdin s = app (replicate n hidden_call) [ping] /\ length (tool_queue s) + n = TOOL_QUEUE /\
  child_queue s = [] /\ child_stdin s = [] /\
  (exists c name ann, policy s = Checking c name ann).

Lemma fill n s : filling n s -> exists evs s', runs s evs s' /\ filling 0 s' /\ decisions evs = [].
Proof.
  revert s. induction n as [|n IH]; intros s Hs.
  { exists [], s. split; [constructor|done]. }
  destruct Hs as (Hr & Hm & Hi & Hl & Hc & Hw & Hp). assert (policy_receives s = true) as Hrec
    by (destruct Hp as (? & ? & ? & Hp); unfold policy_receives; by rewrite Hp).
  set (s1 := set_reader Reading (set_tool_queue (app (tool_queue s) [call_of hidden_call]) s)).
  assert (step s ReaderSends s1) as H1.
  { unfold step. simpl. unfold reader_send. rewrite Hr, Hrec. simpl.
    by rewrite decide_True by lia. }
  assert (step s1 (Reads hidden_call) (set_reader (SendTool (call_of hidden_call))
    (set_input (app (replicate n hidden_call) [ping]) BraceDepth s1))) as H2
    by (apply reads_call; [done|by right|done]).
  destruct (IH (set_reader (SendTool (call_of hidden_call))
    (set_input (app (replicate n hidden_call) [ping]) BraceDepth s1))) as (evs & s' & Hr' & Hf & Hd).
  { unfold filling. simpl. rewrite length_app. simpl. split_and!; try done. lia. }
  exists (app (app [ReaderSends] [Reads hidden_call]) evs), s'. split_and!; [|done|].
  - eapply trace_app; [|exact Hr']. eapply trace_snoc; [by apply trace_one|exact H2].
  - by rewrite !decisions_app, Hd.
Qed.

(** A tool call waiting for approval can hold up messages that need none: once
    nine more calls have come in behind it, the channel of eight is full, the next
    message (a [ping]) stays unread, and on the agent's side nothing but the
    policy decision can happen. *)
Theorem ping_waits_for_decision server :
  exists evs s,
    runs (start (app (replicate 10 hidden_call) [ping]) server) evs s /\ decisions evs = [] /\
    stdin s = [ping] /\ child_stdin s = [] /\
    forall e s', step s e s' ->
      (exists d, e = Decides d) \/
      match e with ServerReads _ | ServerEnds | ServerWrites | ServerWriteFails => True | _ => False end.
Proof.
  set (s0 := start (app (replicate 10 hidden_call) [ping]) server).
  set (rest := app (replicate 9 hidden_call) [ping]).
  set (s1 := set_reader (SendTool (call_of hidden_call)) (set_input rest BraceDepth s0)).
  assert (step s0 (Reads hidden_call) s1) as H1 by (apply reads_call; [done|by left|done]).
  set (s2 := set_reader Reading (set_tool_queue [call_of hidden_call] s1)).
  assert (step s1 ReaderSends s2) as H2 by done.
  set (name := default "unknown" (extract_tool_name hidden_call)).
  set (s3 := set_policy (Checking (call_of hidden_call) name default_annotations)
    (set_tool_queue [] s2)).
  assert (step s2 Takes s3) as H3.
  { unfold step. simpl. unfold policy_take. simpl. unfold s3, name.
    by rewrite (lookup_empty (M := gmap string)). }
  set (s4 := set_reader (SendTool (call_of hidden_call))
    (set_input (app (replicate 8 hidden_call) [ping]) BraceDepth s3)).
  assert (step s3 (Reads hidden_call) s4) as H4 by (apply reads_call; [done|by right|done]).
  destruct (fill 8 s4) as (evs & s & Hr & (Er & Em & Ei & El & Ec & Ew & c & n & ann & Ep) & Hd).
  { unfold filling. split_and!; try done. unfold s4, s3. simpl. eauto. }
  exists (app (app (app (app [Reads hidden_call] [ReaderSends]) [Takes]) [Reads hidden_call]) evs), s.
  split_and!; [| |done|done|].
  - eapply trace_app; [|exact Hr]. eapply trace_snoc; [|exact H4]. eapply trace_snoc; [|exact H3].
    eapply trace_snoc; [|exact H2]. by apply trace_one.
  - by rewrite !decisions_app, Hd.
  - intros e s' Hs. unfold step in Hs. destruct e; simpl in Hs; eauto;
      unfold read_step, read_end, reader_send, policy_take, policy_forward, policy_reply,
        policy_reply_fails, policy_end, write_child, write_fails, policy_receives in Hs;
      rewrite ?Er, ?Ep, ?Ec in Hs; simpl in Hs; try done.
    + rewrite decide_False in Hs by lia. done.
    + by destruct (writer_alive s).
    + by destruct (writer_alive s).
Qed.
End blocked.

(** *** The denial the agent sees *)

Lemma drop_dots_spec l :
  exists dots, l = app dots (drop_dots l) /\ Forall (fun b => b = "."%char) dots /\
    head (drop_dots l) <> Some "."%char.
Proof.
  induction l as [|b l (dots & E & Hd & Hh)]; simpl; [by exists []|].
  destruct (Ascii.eqb_spec b "."%char) as [->|Hb].
  - exists ("."%char :: dots). split_and!; [|by constructor|done]. simpl. by f_equal.
  - exists []. split_and!; [done|done|]. simpl. congruence.
Qed.

(** A denied call is answered with a JSON-RPC error that carries the call's
    own id (null when it has none), code -32001, and the message
    [[AgentPact CODE] reason. hint], where the reason never ends in a period, so
    the separator is not doubled. *)
Theorem denied_response_contract id code reason hint :
  exists response,
    build_denied_response id code reason hint = to_vec response /\
    get "id" response = Some id /\
    (get "error" response ≫= get "code") = Some (JNumber (-32001)) /\
    (get "error" response ≫= get "message") =
      Some (JString ("[AgentPact " ++ (deny_code code).1 ++ "] " ++ trim_end_dots reason ++ ". " ++
        default (deny_code code).2 hint)) /\
    (exists dots, reason = trim_end_dots reason ++ dots /\
       Forall (fun b => b = "."%char) (lit dots)) /\
    last (lit (trim_end_dots reason)) <> Some "."%char.
Proof.
  eexists. split_and!; [done..| |].
  - destruct (drop_dots_spec (rev (lit reason))) as (dots & E & Hd & _).
    exists (String.string_of_list_ascii (rev dots)).
    rewrite lit_of_bytes. split; [|by apply Forall_rev].
    apply lit_inj. rewrite lit_app. unfold trim_end_dots. rewrite !lit_of_bytes.
    by rewrite <- rev_app_distr, <- E, rev_involutive.
  - destruct (drop_dots_spec (rev (lit reason))) as (dots & _ & _ & Hh).
    unfold trim_end_dots. rewrite lit_of_bytes.
    destruct (drop_dots (rev (lit reason))) as [|b l]; [done|]. simpl in *.
    rewrite last_snoc. congruence.
Qed.

End relay.

(** ** A concrete run *)

Definition relay_table : list (bytes * json) :=
  [(hidden_call, JObject [("method", JString "tools/call")]);
   (ping, JObject [("method", JString "ping")])].

Definition relay_libraries : Libraries := {|
  from_slice := fun l =>
    match list_find (fun p => p.1 = l) relay_table with
    | Some (_, (_, v)) => Ok v
    | None => Err "expected value"
    end;
  uuid_now_v7 := pretty;
  Mode := bool;
  Mode_Enforce := false;
  is_log := id;
  Mode_from_wire := fun _ => None;
  ask_context_from_value := fun _ => None;
  MAX_COMMAND_LENGTH_CEILING := 64 |}.

Definition sample_to_vec (v : json) : bytes := lit "{}".

(** Two calls and a ping; the first call is allowed, the second denied. *)
Definition sample_events : list event :=
  [Reads hidden_call; ReaderSends; Takes; Reads ping; ReaderSends; Writes; Decides PactAllow;
   Forwards; Writes; Reads hidden_call; ReaderSends; ReadEnds; Takes;
   Decides (PactDeny PolicyDenied "no." None); Replies; PolicyEnds].

Definition sample_start : relay := start [hidden_call; ping; hidden_call] [].

Definition sample_end : relay := Eval vm_compute in
  default sample_start (exec_list (exec (lib := relay_libraries) sample_to_vec) sample_start sample_events).

Lemma sample_runs :
  runs (lib := relay_libraries) sample_to_vec sample_start sample_events sample_end.
Proof. apply exec_list_trace. vm_compute. reflexivity. Qed.

Lemma calls_need_allow_witness :
  sublist (calls_in (lib := relay_libraries) (child_stdin sample_end))
    (allowed (outcomes (lib := relay_libraries) sample_events)).
Proof. apply (calls_need_allow (lib := relay_libraries) sample_to_vec _ [] _ _ sample_runs). Defined.

Lemma child_reads_only_allowed_calls_witness :
  length (List.filter (is_call (lib := relay_libraries)) (child_lines sample_end)) = 1%nat /\
  sublist (List.filter (is_call (lib := relay_libraries)) (child_lines sample_end))
    (allowed_calls (lib := relay_libraries) sample_events).
Proof.
  split; [vm_compute; reflexivity|].
  apply (child_reads_only_allowed_calls (lib := relay_libraries) sample_to_vec [hidden_call; ping; hidden_call] []).
  - intros v. by apply (bool_decide_eq_true_1 (newline ∉ lit "{}")).
  - apply sample_runs.
  - repeat (apply Forall_cons; split; [vm_compute; eauto|]). by apply Forall_nil.
Defined.

Lemma drained_run_complete_witness :
  length (decisions sample_events) = length (calls (lib := relay_libraries) sample_events) /\
  calls_in (lib := relay_libraries) (child_stdin sample_end) =
    allowed (outcomes (lib := relay_libraries) sample_events) /\
  others_in (lib := relay_libraries) (child_stdin sample_end) =
    others (lib := relay_libraries) sample_events /\
  denials (stdout sample_end) = denied sample_to_vec (outcomes (lib := relay_libraries) sample_events).
Proof.
  apply (drained_run_complete (lib := relay_libraries) sample_to_vec [hidden_call; ping; hidden_call] []);
    [apply sample_runs|reflexivity..].
Defined.

Lemma relay_progress_witness :
  exists e s', step (lib := relay_libraries) sample_to_vec sample_start e s' /\ ~ is_failure e.
Proof.
  apply (relay_progress (lib := relay_libraries) sample_to_vec [hidden_call; ping; hidden_call] [] []).
  - by repeat constructor.
  - by constructor.
  - apply trace_nil.
  - by left.
Defined.

Lemma smuggled_call_reaches_child_witness :
  exists evs s, runs (lib := relay_libraries) sample_to_vec (start [smuggled] []) evs s /\
    decisions evs = [] /\ hidden_call ∈ child_lines s /\
    is_tools_call (lib := relay_libraries) hidden_call = true.
Proof.
  apply (smuggled_call_reaches_child (lib := relay_libraries) sample_to_vec [] "expected value");
    reflexivity.
Defined.

Lemma ping_waits_for_decision_witness :
  exists evs s,
    runs (lib := relay_libraries) sample_to_vec (start (app (replicate 10 hidden_call) [ping]) []) evs s /\
    decisions evs = [] /\ stdin s = [ping] /\ child_stdin s = [] /\
    forall e s', step (lib := relay_libraries) sample_to_vec s e s' ->
      (exists d, e = Decides d) \/
      match e with ServerReads _ | ServerEnds | ServerWrites | ServerWriteFails => True | _ => False end.
Proof. apply (ping_waits_for_decision (lib := relay_libraries) sample_to_vec). reflexivity. Defined.

End Relay.
