(* ===== verification/Hook.v ===== *)
(** * The agent hook: its declarations, payloads, responses and audit

    From cli/src/agents/registry.rs the live-hook contract of an agent
    ([HookProtocol], [HookRuntime], MCP tool naming); from cli/src/hook_cmd/ the
    files payload.rs, response.rs and audit.rs; cli/src/recent_approvals.rs; and
    core/src/path_display.rs.  Which agent declares what (the embedded manifests)
    is an argument.  Paths are byte strings, joined lexically. *)

From S2P Require Import Prelude Text Json World AgentPact HoldPoll.

Module Hook.
Import AgentPact HoldPoll.
Local Open Scope string_scope.

(** ** registry.rs *)

Record ToolMapping := mkToolMapping {
  map_tool_name : string;
  map_action : string;
  detail_key : option string }.

Inductive HookTimeoutPosture := FailOpenPosture | FailClosedPosture.

Record HookRuntime := mkRuntime {
  agent_hook_timeout_secs : Z;
  on_timeout : HookTimeoutPosture;
  native_backstop : bool;
  allow_suppresses_agent_prompt : bool }.

Definition RESPONSE_MARGIN_SECS : Z := 10.

(** [u64::saturating_sub]. *)
Definition saturating_sub (a b : Z) : Z := Z.max 0 (a - b).

(** In milliseconds. *)
Definition poll_deadline_of (r : HookRuntime) : Z :=
  saturating_sub (agent_hook_timeout_secs r) RESPONSE_MARGIN_SECS * 1000.

Definition bridge_spawn_timeout_ms (r : HookRuntime) : Z :=
  saturating_sub (agent_hook_timeout_secs r) (RESPONSE_MARGIN_SECS / 2) * 1000.

Record McpToolNaming := mkNaming {
  server_separator : string;
  collapse_sanitize_runs : bool }.

Definition is_ascii_alphanumeric (b : ascii) : bool :=
  in_range 48 57 b || in_range 65 90 b || in_range 97 122 b.

(** The first byte of a character: continuation bytes of UTF-8 are not counted. *)
Definition is_char_start (b : ascii) : bool := negb (cont b).

Fixpoint sanitize_from (collapse last_was_replaced : bool) (l : bytes) : bytes :=
  match l with
  | [] => []
  | b :: l' =>
      if is_ascii_alphanumeric b || Ascii.eqb b "_"%char || Ascii.eqb b "-"%char
      then b :: sanitize_from collapse false l'
      else if negb (is_char_start b) then sanitize_from collapse last_was_replaced l'
      else if collapse && last_was_replaced then sanitize_from collapse last_was_replaced l'
      else "_"%char :: sanitize_from collapse true l'
  end.

Definition sanitize (n : McpToolNaming) (name : string) : string :=
  of_bytes (sanitize_from (collapse_sanitize_runs n) false (lit name)).

Definition tool_belongs_to_server (n : McpToolNaming) (tool server : string) : bool :=
  let prefix := sanitize n server ++ server_separator n in
  (String.length prefix <? String.length tool)%nat && str_starts_with prefix tool.

Definition sanitized_len (n : McpToolNaming) (server : string) : nat :=
  String.length (sanitize n server).

Inductive AllowResponse := EmptyStdout | AllowJson (body : json).

Inductive AskResponse := NativePrompt (body : json) | DeferToNativeApproval.

Inductive ApprovalMode := Native | KyrisPopup.

#[export] Instance ApprovalMode_eq_dec : EqDecision ApprovalMode.
Proof. solve_decision. Defined.

Record HookProtocol := mkProtocol {
  tool_name_field : string;
  detail_fields : list string;
  tool_mappings : list ToolMapping;
  pass_through_tools : list string;
  agent_owned_tools : list string;
  default_action : string;
  allow_response : AllowResponse;
  runtime : HookRuntime;
  permission_request_allow : option json;
  mcp_tool_naming : option McpToolNaming;
  native_ask : option AskResponse }.

(** [setting]: the agent profile's [approval_prompt]. *)
Definition resolve_approval_mode (setting : option string) (native_capable : bool) : ApprovalMode :=
  if negb native_capable then KyrisPopup
  else if bool_decide (setting = Some "native") then Native else KyrisPopup.

(** ** payload.rs *)

Definition derive_session_cwd (launch_dir : option string) (hook_input : json) : option string :=
  match launch_dir with
  | Some dir =>
      if String.eqb (str_trim dir) "" then non_empty (get_str "cwd" hook_input) else Some dir
  | None => non_empty (get_str "cwd" hook_input)
  end.

Definition is_absolute (path : string) : bool := str_starts_with "/" path.

(** [Path::join] of a relative path. *)
Definition path_join (base path : string) : string :=
  match rev (lit base) with
  | [] => path
  | b :: _ => if Ascii.eqb b "/"%char then base ++ path else base ++ "/" ++ path
  end.

Definition resolve_relative_path (action detail : string) (cwd : option string) : string :=
  if negb (String.eqb action "read") && negb (String.eqb action "write") then detail
  else if String.eqb detail "" then detail
  else if is_absolute detail then detail
  else match cwd with
       | None => detail
       | Some base => path_join base detail
       end.

Definition is_file_action (action : string) : bool :=
  bool_decide (action ∈ ["read"; "write"; "delete"]).

Record PatchPaths := mkPatchPaths {
  writes : list string;
  deletes : list string }.

Definition write_markers : list string := ["*** Add File:"; "*** Update File:"; "*** Move to:"].

(** The path behind the first of the markers that starts the line. *)
Definition marked_path (markers : list string) (line : bytes) : option string :=
  path ← head (omap (fun m => str_strip_prefix (lit m) line) markers);
  Some (of_bytes (trim path)).

Definition patch_line (paths : PatchPaths) (line : bytes) : PatchPaths :=
  let line := trim_end line in
  match marked_path write_markers line with
  | Some path => mkPatchPaths (writes paths ++ [path])%list (deletes paths)
  | None =>
      match marked_path ["*** Delete File:"] line with
      | Some path => mkPatchPaths (writes paths) (deletes paths ++ [path])%list
      | None => paths
      end
  end.

Definition parse_apply_patch_paths (patch : string) : PatchPaths :=
  foldl patch_line (mkPatchPaths [] []) (lines (lit patch)).

(** [value[key]]. *)
Definition index (key : string) (v : json) : json := default JNull (get key v).

Section payload.
Context (to_string : json -> string).

Fixpoint extract_detail (fields : list string) (mapping : option ToolMapping) (input : json)
    (tool : string) : string :=
  match fields with
  | [] => tool
  | field :: fields =>
      let value := index field input in
      match value with
      | JString s => s
      | JObject _ =>
          match (m ← mapping; key ← detail_key m; as_str (index key value)) with
          | Some s => s
          | None => to_string value
          end
      | _ => extract_detail fields mapping input tool
      end
  end.

Definition map_payload (protocol : option HookProtocol) (input : json) : string * string :=
  match protocol with
  | None =>
      (default "call" (as_str (index "method" input)), default "" (as_str (index "detail" input)))
  | Some protocol =>
      let tool := default "unknown" (as_str (index (tool_name_field protocol) input)) in
      let mapping := snd <$> list_find (fun m => map_tool_name m = tool) (tool_mappings protocol) in
      (match mapping with Some m => map_action m | None => default_action protocol end,
       extract_detail (detail_fields protocol) mapping input tool)
  end.
End payload.

(** ** path_display.rs *)

Fixpoint drop_slashes (l : bytes) : bytes :=
  match l with
  | b :: l' => if Ascii.eqb b "/"%char then drop_slashes l' else l
  | [] => []
  end.

Definition home_relative_to (home path : string) : string :=
  let home := rev (drop_slashes (rev (lit home))) in
  if bool_decide (home = []) then path
  else if bool_decide (lit path = home) then "~"
  else match str_strip_prefix home (lit path) with
       | Some rest => if starts_with (lit "/") rest then "~" ++ of_bytes rest else path
       | None => path
       end.

(** [home]: the variable HOME. *)
Definition home_relative (home : option string) (path : string) : string :=
  match home with Some home => home_relative_to home path | None => path end.

(** ** response.rs *)

Definition agent_prompt_for (r : AllowResponse) (suppresses_agent_prompt : bool) : string :=
  match r with
  | AllowJson _ => if suppresses_agent_prompt then "none" else "agent_decides"
  | EmptyStdout => "agent_decides"
  end.

Definition effective_allow_response (native : AllowResponse) (log_mode : bool) : AllowResponse :=
  if log_mode then EmptyStdout else native.

Definition non_governed_response (pass_through : bool) (native : AllowResponse) (log_mode : bool)
    : AllowResponse :=
  if pass_through then effective_allow_response native log_mode else EmptyStdout.

Definition emit_allow (to_string : json -> string) (r : AllowResponse) : io unit :=
  match r with
  | EmptyStdout => mret tt
  | AllowJson body => emit (Stdout (to_string body))
  end.

Definition emit_deny (reason : string) : io unit := emit (Denied reason).

(** ** audit.rs *)

Section audit.
Context (home : option string).

Definition display_detail (action detail : string) : string :=
  if is_file_action action then home_relative home detail else detail.

(** [conn]: the connection loaded at the start, if any; the POST itself is fire
    and forget. *)
Definition audit_log_hook (conn : option connection) (hook_id agent action detail : string)
    (segments : option (list string)) (decision source : string) (approval_id : option string)
    (agent_prompt : string) (elapsed : Z) : io unit :=
  match conn with
  | None => mret tt
  | Some _ =>
      let body := JObject [("hook_id", JString hook_id); ("agent", JString agent);
        ("action", JString action); ("detail", JString (display_detail action detail));
        ("decision", JString decision); ("source", JString source);
        ("agent_prompt", JString agent_prompt); ("elapsed_ms", JNumber elapsed)] in
      let body := set_opt "segments" ((fun l => JArray (JString <$> l)) <$> segments) body in
      emit (HookLog (set_opt "approval_id" (JString <$> approval_id) body))
  end.

Definition record_execution_live_evidence (agent : string) : io unit :=
  if String.eqb agent "shell" then mret tt else emit (LiveEvidence agent "execution").
End audit.

(** ** recent_approvals.rs *)

Section notes.
Context (digest : string -> string).

Definition TTL : Z := 30000.

Definition unit_separator : string := String "031" EmptyString.

Definition note_path (agent action : string) (cwd : option string) (detail : string) : string :=
  digest (agent ++ unit_separator ++ action ++ unit_separator ++ default "" cwd ++
          unit_separator ++ detail).

(** The age of a file in the future is an error, so not fresh. *)
Definition is_fresh (now modified : Z) : bool := (0 <=? now - modified)%Z && (now - modified <=? TTL)%Z.

Definition record_approval (agent action : string) (cwd : option string) (detail : string)
    : io unit :=
  t ← now;
  ns ← read_notes;
  write_notes (<[note_path agent action cwd detail := t]>
    (filter (fun p => is_fresh t p.2 = true) ns)).

Definition consume_approval (agent action : string) (cwd : option string) (detail : string)
    : io bool :=
  t ← now;
  ns ← read_notes;
  let path := note_path agent action cwd detail in
  let fresh := match ns !! path with Some modified => is_fresh t modified | None => false end in
  write_notes (delete path ns);;
  mret fresh.
End notes.

(** ** The properties of the parts *)

(** *** Patch envelopes *)

(** The path a line of a patch names, and whether it is a deletion. *)
Definition line_path (line : bytes) : option (bool * string) :=
  let line := trim_end line in
  match marked_path write_markers line with
  | Some path => Some (false, path)
  | None => (fun path => (true, path)) <$> marked_path ["*** Delete File:"] line
  end.

Definition paths_of (delete : bool) (ps : list (bool * string)) : list string :=
  omap (fun p => if Bool.eqb p.1 delete then Some p.2 else None) ps.

Lemma parse_patch_foldl ls paths :
  foldl patch_line paths ls =
  mkPatchPaths (writes paths ++ paths_of false (omap line_path ls))%list
    (deletes paths ++ paths_of true (omap line_path ls))%list.
Proof.
  revert paths. induction ls as [|l ls IH]; intros [ws ds]; simpl; [by rewrite !app_nil_r|].
  rewrite IH. unfold patch_line, line_path.
  destruct (marked_path write_markers (trim_end l)) as [p|]; simpl.
  { unfold paths_of. simpl. by rewrite <- app_assoc. }
  destruct (marked_path _ (trim_end l)) as [p|]; simpl; [|done].
  unfold paths_of. simpl. by rewrite <- app_assoc.
Qed.

End Hook.
