(* ===== verification/HookGate.v ===== *)
(** * The agent hook: deciding and answering

    cli/src/hook_cmd/segments.rs, request.rs and hold.rs.  [kyris hook check] maps
    the agent's payload to an action, previews it at agentpactd, drives one real
    request (and one prompt, if asked) per segment, and answers the agent by
    stdout and exit code.  A function that does not return in the code has the
    type [io never].

    Arguments of the model: the registered agents (with their launch directory and
    MCP servers as the environment gives them), the process ids, HOME, the JSON
    printer and the digest that names approval notes. *)

From S2P Require Import Prelude Text Json World AgentPact HoldPoll Hook.

Module HookGate.
Import AgentPact HoldPoll Hook.
Local Open Scope string_scope.

Definition never : Type := Empty_set.

Record agent_descriptor := mkAgent {
  canonical_id : string;
  hook_protocol : option HookProtocol;
  launch_dir : option string;
  approval_setting : option string;
  routed_mcp_servers : list string;
  mcp_servers : list string }.

(** ** Segments *)

Inductive SegClass :=
| SegAuto
| SegAsk (approval_id approval_token : string) (allow_always : bool) (detail : option string)
| SegDeny (reason : string)
| SegUnavailable (reason : string).

Inductive PopupResult :=
| PopupApproved (source : string)
| PopupBlocked (exit_code : Z) (source reason : string).

Record SegBlock := mkBlock {
  exit_code : Z;
  source : string;
  block_reason : string }.

(** The state the closures capture is threaded as [S]. *)
Section run_segments.
Context {S : Type} (classify : string -> io SegClass)
  (prompt : S -> string -> string -> string -> bool -> option string -> io (PopupResult * S)).

Fixpoint run_segments (s : S) (src : string) (segments : list string)
    : io (result string SegBlock * S) :=
  match segments with
  | [] => mret (Ok src, s)
  | seg :: segments =>
      c ← classify seg;
      match c with
      | SegAuto => run_segments s src segments
      | SegDeny reason => mret (Err (mkBlock 2 "agentpact_deny" reason), s)
      | SegUnavailable reason => mret (Err (mkBlock 2 "agentpact_unreachable" reason), s)
      | SegAsk approval_id approval_token allow_always detail =>
          p ← prompt s approval_id approval_token seg allow_always detail;
          match p with
          | (PopupApproved src', s') => run_segments s' src' segments
          | (PopupBlocked code src' reason, s') => mret (Err (mkBlock code src' reason), s')
          end
      end
  end.
End run_segments.

Definition APPROVAL_TTL_MARGIN_SECS : Z := 120.

Record PermissionCtx := mkCtx {
  audit_conn : option connection;
  hook_id : string;
  ctx_agent : string;
  ctx_action : string;
  ctx_detail : string;
  ctx_cwd : option string;
  native_allow_response : AllowResponse;
  started_at : Z;
  ctx_native_backstop : bool;
  ctx_suppresses : bool;
  poll_deadline : Z;
  log_mode_fallback : bool;
  has_permission_request : bool;
  approval_mode : ApprovalMode;
  ctx_native_ask : option AskResponse }.

Record ActionBatch := mkBatch {
  batch_action : string;
  segments : list string }.

Definition block_from_daemon_unavailable (source : string) : bool :=
  bool_decide (source ∈ ["kyrisd_unreachable"; "agentpact_unreachable"]).

Section hook.
Context {lib : Libraries}.
Context (agent_by_id : string -> option agent_descriptor).
Context (home : option string) (parent_id : N).
Context (to_string : json -> string) (digest : string -> string).

Definition declared_canonical_agent (agent : string) : option string :=
  canonical_id <$> agent_by_id agent.

Definition classify_segment (ctx : PermissionCtx) (seed_pid : option N) (action seg : string)
    (command_group : option (string * string)) : io SegClass :=
  let approval_ttl_secs :=
    Z.min (poll_deadline ctx / 1000 + APPROVAL_TTL_MARGIN_SECS) u64_max in
  r ← request_hook_permission "kyris-hook" action seg (ctx_cwd ctx) seed_pid
    (declared_canonical_agent (ctx_agent ctx)) (Some parent_id) None command_group
    (Some approval_ttl_secs);
  match r with
  | Ok (Allow _, _) => mret SegAuto
  | Ok (Ask approval_id approval_token allow_always detail, _) =>
      mret (SegAsk approval_id approval_token allow_always detail)
  | Ok (Deny _ reason _, _) => mret (SegDeny reason)
  | Err reason =>
      emit (FailOpen (ctx_agent ctx) action seg "shell" (ctx_cwd ctx));;
      mret (SegUnavailable reason)
  end.

Definition deny_ask_immediately (approval_token : string) : io unit :=
  _ ← send_permission_response "kyris-hook-deny" approval_token DeniedResponse; mret tt.

Definition kyrisd_unreachable : PopupResult :=
  PopupBlocked 2 "kyrisd_unreachable" "kyrisd unreachable — could not render approval dialog".

Definition poll_segment (agent server approval_id approval_token seg : string)
    (allow_always : bool) (detail : option string) (max_wait : Z) : io PopupResult :=
  let seg := display_detail home server seg in
  conn ← load_kyrisd_connection;
  match conn with
  | None => mret kyrisd_unreachable
  | Some conn =>
      resolution ← hold_poll_resolve_with_timeout conn
        (mkPendingApproval approval_id approval_token server seg (Some seg) agent allow_always
           detail) max_wait;
      match resolution with
      | ResApproved => mret (PopupApproved "user_approved")
      | ResDenied =>
          mret (PopupBlocked 2 "user_denied" "denied by the developer at the approval prompt")
      | Unreachable => mret kyrisd_unreachable
      | Failed reason =>
          deny_ask_immediately approval_token;;
          let source :=
            if contains (lit "timeout") (lit reason) || contains (lit "timed out") (lit reason)
            then "user_timeout" else "resolution_failed" in
          mret (PopupBlocked 2 source reason)
      end
  end.

(** ** Answering *)

(** [audit_log_hook] of a context, timed from its start. *)
Definition audit (ctx : PermissionCtx) (segs : option (list string))
    (decision source agent_prompt : string) : io unit :=
  t ← now;
  audit_log_hook home (audit_conn ctx) (hook_id ctx) (ctx_agent ctx) (ctx_action ctx)
    (ctx_detail ctx) segs decision source None agent_prompt (t - started_at ctx).

Definition defer_prompt : string := agent_prompt_for EmptyStdout false.

Definition deny_for_missing_backstop (ctx : PermissionCtx) (segs : option (list string))
    (source : string) : io never :=
  let agent := ctx_agent ctx in
  let daemon := if String.eqb source "kyrisd_unreachable"
    then "kyrisd (the approval renderer)" else "agentpactd (the policy daemon)" in
  audit ctx segs "deny" source "none";;
  emit_deny (daemon ++ " is unreachable and " ++ agent ++ " has no native permission backstop " ++
    "behind the kyris hook — running this command would be ungoverned. " ++
    "Denied. Start the daemon (`kyris status` shows what's down), or " ++
    "`kyris agent disconnect " ++ agent ++ "` to restore " ++ agent ++
    "'s own permission prompts.");;
  exit 2.

Definition emit_native_ask (ctx : PermissionCtx) (segs : list string) (log_mode : bool)
    : io never :=
  record_execution_live_evidence (ctx_agent ctx);;
  if log_mode then
    audit ctx (Some segs) "defer" "log_mode" defer_prompt;;
    emit_allow to_string EmptyStdout;;
    exit 0
  else
    audit ctx (Some segs) "ask" "native_prompt" defer_prompt;;
    match ctx_native_ask ctx with
    | Some (NativePrompt body) => emit (Stdout (to_string body))
    | Some DeferToNativeApproval | None => emit_allow to_string EmptyStdout
    end;;
    exit 0.

(** Native mode: asks are left to the agent's own prompt. *)
Definition native_mode (ctx : PermissionCtx) : bool :=
  bool_decide (approval_mode ctx = Native) &&
  match ctx_native_ask ctx with Some _ => true | None => false end.

(** The closure [prompt]; its captured flag is [native_ask_requested]. *)
Definition prompt_segment (ctx : PermissionCtx) (action : string) (native_ask_requested : bool)
    (approval_id approval_token seg : string) (allow_always : bool) (detail : option string)
    : io (PopupResult * bool) :=
  if native_mode ctx then mret (PopupApproved "native_ask", true)
  else
    t ← now;
    let remaining := saturating_sub (poll_deadline ctx) (t - started_at ctx) in
    p ← poll_segment (ctx_agent ctx) action approval_id approval_token seg allow_always detail
      remaining;
    mret (p, native_ask_requested).

(** The loop over the batches: the source of the walk, or what blocked it. *)
Fixpoint run_batches (ctx : PermissionCtx) (seed_pid : option N)
    (command_group : option (string * string)) (batches : list ActionBatch)
    (native_ask_requested : bool) (src : string)
    : io (result string SegBlock * bool) :=
  match batches with
  | [] => mret (Ok src, native_ask_requested)
  | batch :: batches =>
      r ← run_segments
        (fun seg => classify_segment ctx seed_pid (batch_action batch) seg command_group)
        (prompt_segment ctx (batch_action batch)) native_ask_requested "agentpact_auto"
        (segments batch);
      match r with
      | (Ok s, flag) =>
          run_batches ctx seed_pid command_group batches flag
            (if String.eqb s "agentpact_auto" then src else s)
      | (Err block, flag) => mret (Err block, flag)
      end
  end.

Definition allow_command (ctx : PermissionCtx) (segs : list string) (src : string)
    (log_mode : bool) : io never :=
  record_execution_live_evidence (ctx_agent ctx);;
  (if (String.eqb src "user_approved" || String.eqb src "user_always") && has_permission_request ctx
   then record_approval digest (ctx_agent ctx) (ctx_action ctx) (ctx_cwd ctx) (ctx_detail ctx)
   else mret tt);;
  let response := effective_allow_response (native_allow_response ctx) log_mode in
  audit ctx (Some segs) "allow" src (agent_prompt_for response (ctx_suppresses ctx));;
  emit_allow to_string response;;
  exit 0.

Definition defer_command (ctx : PermissionCtx) (segs : option (list string)) (src : string)
    : io never :=
  emit (FailOpen (ctx_agent ctx) (ctx_action ctx) (ctx_detail ctx) "shell" (ctx_cwd ctx));;
  audit ctx segs "defer" src defer_prompt;;
  emit_allow to_string EmptyStdout;;
  exit 0.

Definition block_command (ctx : PermissionCtx) (segs : list string) (block : SegBlock) : io never :=
  record_execution_live_evidence (ctx_agent ctx);;
  audit ctx (Some segs) "deny" (source block) "none";;
  emit_deny (block_reason block);;
  exit (exit_code block).

Definition drive_batches (ctx : PermissionCtx) (seed_pid : option N)
    (batches : list ActionBatch) (log_mode : bool) (command_group_id : option string)
    : io never :=
  let command_group := (fun group => (group, ctx_detail ctx)) <$> command_group_id in
  let segs := concat (segments <$> batches) in
  r ← run_batches ctx seed_pid command_group batches false "agentpact_auto";
  match command_group_id with
  | Some group => send_command_commit group
  | None => mret tt
  end;;
  match r with
  | (Ok src, native_ask_requested) =>
      if native_ask_requested : bool then emit_native_ask ctx segs log_mode
      else allow_command ctx segs src log_mode
  | (Err block, _) =>
      if block_from_daemon_unavailable (source block) then
        if negb (ctx_native_backstop ctx) && negb log_mode
        then deny_for_missing_backstop ctx (Some segs) (source block)
        else defer_command ctx (Some segs) (source block)
      else block_command ctx segs block
  end.

Definition drive_per_segment (ctx : PermissionCtx) (seed_pid : option N)
    (segments : option (list string)) (log_mode : bool) : io never :=
  let segs := default [ctx_detail ctx] segments in
  command_group_id ← (if (2 <=? length segs)%nat
                      then g ← new_command_group; mret (Some g) else mret None);
  drive_batches ctx seed_pid [mkBatch (ctx_action ctx) segs] log_mode command_group_id.

(** The per-file batches of a patch, paths resolved against the session cwd. *)
Definition patch_batches (ctx : PermissionCtx) (parsed : PatchPaths) : list ActionBatch :=
  let resolve paths := (fun p => resolve_relative_path "write" p (ctx_cwd ctx)) <$> paths in
  app match writes parsed with [] => [] | ws => [mkBatch "write" (resolve ws)] end
      match deletes parsed with [] => [] | ds => [mkBatch "delete" (resolve ds)] end.

Definition is_log_allow (d : McpPermissionDecision) : bool :=
  match d with Allow mode => is_log mode | _ => false end.

Definition drive_apply_patch (ctx : PermissionCtx) (seed_pid : option N) : io never :=
  let parsed := parse_apply_patch_paths (ctx_detail ctx) in
  match patch_batches ctx parsed with
  | [] =>
      if negb (ctx_native_backstop ctx) && negb (log_mode_fallback ctx)
      then deny_for_missing_backstop ctx None "unparseable_patch"
      else
        audit ctx None "defer" "unparseable_patch" defer_prompt;;
        emit_allow to_string EmptyStdout;;
        exit 0
  | batch :: batches =>
      scout ← request_hook_permission_preview "kyris-hook" (batch_action batch)
        (default "" (head (segments batch))) (ctx_cwd ctx) seed_pid
        (declared_canonical_agent (ctx_agent ctx));
      let log_mode := match scout with
        | Ok (d, _) => is_log_allow d
        | Err _ => log_mode_fallback ctx
        end in
      drive_batches ctx seed_pid (batch :: batches) log_mode None
  end.

(** ** request.rs *)

Definition dispatch_preview_outcome (ctx : PermissionCtx) (seed_pid : option N)
    (outcome : result (McpPermissionDecision * option (list string)) string) : io never :=
  match outcome with
  | Ok (Deny _ _ _, _) => drive_per_segment ctx seed_pid None false
  | Ok (decision, segments) => drive_per_segment ctx seed_pid segments (is_log_allow decision)
  | Err _ =>
      if negb (ctx_native_backstop ctx) && negb (log_mode_fallback ctx)
      then deny_for_missing_backstop ctx None "agentpact_unreachable"
      else defer_command ctx None "agentpact_unreachable"
  end.

(** [max_by_key]: the last of the largest. *)
Fixpoint max_by_len (naming : McpToolNaming) (l : list string) : option string :=
  match l with
  | [] => None
  | s :: l' =>
      match max_by_len naming l' with
      | Some t => if (sanitized_len naming s <=? sanitized_len naming t)%nat then Some t else Some s
      | None => Some s
      end
  end.

Definition is_kyris_routed_mcp_tool (proto : HookProtocol) (agent tool : string) : bool :=
  match mcp_tool_naming proto, agent_by_id agent with
  | Some naming, Some descriptor =>
      match max_by_len naming
        (filter (fun server => tool_belongs_to_server naming tool server = true)
           (mcp_servers descriptor)) with
      | Some winner => bool_decide (winner ∈ routed_mcp_servers descriptor)
      | None => false
      end
  | _, _ => false
  end.

Definition is_governable (proto : HookProtocol) (tool : string) : bool :=
  bool_decide (tool ∈ (map_tool_name <$> tool_mappings proto)).

(** The parts of a hook invocation that exist before its context does. *)
Record Invocation := mkInvocation {
  inv_agent : string;
  inv_conn : option connection;
  inv_hook_id : string;
  inv_started_at : Z;
  inv_log_mode : bool }.

Definition audit_inv (i : Invocation) (action detail decision source agent_prompt : string)
    : io unit :=
  t ← now;
  audit_log_hook home (inv_conn i) (inv_hook_id i) (inv_agent i) action detail None decision
    source None agent_prompt (t - inv_started_at i).

Definition unmapped_reason (agent tool : string) : string :=
  "tool '" ++ tool ++ "' is not governed by kyris, and " ++ agent ++ " has no native " ++
  "permission backstop behind the kyris hook — allowing it would run " ++
  "ungoverned. Denied. Update kyris's " ++ agent ++ " tool mappings (then " ++
  "`kyris agent setup " ++ agent ++ "`), or `kyris agent disconnect " ++ agent ++ "` to " ++
  "restore " ++ agent ++ "'s own permission prompts.".

Definition handle_non_governed (i : Invocation) (proto : HookProtocol) (tool action detail : string)
    : io unit :=
  if is_governable proto tool then mret tt
  else if bool_decide (tool ∈ agent_owned_tools proto) then
    audit_inv i action detail "allow" "agent_owned" defer_prompt;;
    emit_allow to_string EmptyStdout;;
    exit 0
  else
    let pass_through := bool_decide (tool ∈ pass_through_tools proto) in
    if negb pass_through && negb (native_backstop (runtime proto)) && negb (inv_log_mode i) then
      if is_kyris_routed_mcp_tool proto (inv_agent i) tool then
        audit_inv i action detail "allow" "mcp_tool_surface" "tool_surface";;
        emit_allow to_string EmptyStdout;;
        exit 0
      else
        audit_inv i action detail "deny" "unmapped_no_backstop" "none";;
        emit_deny (unmapped_reason (inv_agent i) tool);;
        exit 2
    else
      let source := if pass_through then "passthrough" else "unmapped" in
      let response := non_governed_response pass_through (allow_response proto) (inv_log_mode i) in
      audit_inv i action detail "allow" source
        (agent_prompt_for response (allow_suppresses_agent_prompt (runtime proto)));;
      emit_allow to_string response;;
      exit 0.

(** *** The native-approval consultation *)

Definition abstain {A} (i : Invocation) (action detail source : string) : io A :=
  audit_inv i action detail "defer" source "agent_decides";; exit 0.

(** The previews, in order: all allowed, or one not; or it has abstained. *)
Fixpoint previews_allow (i : Invocation) (cwd : option string) (seed_pid : option N)
    (action detail : string) (requests : list (string * string)) : io bool :=
  match requests with
  | [] => mret true
  | (req_action, req_detail) :: requests =>
      r ← request_hook_permission_preview "kyris-hook" req_action req_detail cwd seed_pid
        (declared_canonical_agent (inv_agent i));
      match r with
      | Ok (Allow mode, _) =>
          if is_log mode then abstain i action detail "log_mode"
          else previews_allow i cwd seed_pid action detail requests
      | Ok _ => mret false
      | Err _ => abstain i action detail "agentpact_unreachable"
      end
  end.

(** What the consultation previews: each file of a patch, or the command. *)
Definition consultation_requests (action detail : string) (cwd : option string)
    : list (string * string) :=
  if String.eqb action "apply_patch" then
    let parsed := parse_apply_patch_paths detail in
    let resolve p := resolve_relative_path "write" p cwd in
    app ((fun p => ("write", resolve p)) <$> writes parsed)
        ((fun p => ("delete", resolve p)) <$> deletes parsed)
  else [(action, detail)].

Definition run_permission_request (i : Invocation) (protocol : option HookProtocol)
    (hook_input : json) (seed_pid : option N) : io never :=
  match protocol with
  | None => abstain i "unknown" "" "no_protocol"
  | Some proto =>
      match permission_request_allow proto with
      | None => abstain i "unknown" "" "no_integration"
      | Some allow_body =>
          let '(action, detail) := map_payload to_string (Some proto) hook_input in
          let governable := match as_str (index (tool_name_field proto) hook_input) with
            | Some tool => is_governable proto tool
            | None => false
            end in
          if negb governable then abstain i action detail "ungoverned_tool"
          else if inv_log_mode i then abstain i action detail "log_mode"
          else
            let cwd := derive_session_cwd (agent_by_id (inv_agent i) ≫= launch_dir) hook_input in
            let detail := resolve_relative_path action detail cwd in
            match consultation_requests action detail cwd with
            | [] => abstain i action detail "unparseable_patch"
            | requests =>
                all_allow ← previews_allow i cwd seed_pid action detail requests;
                source ← (if all_allow : bool then mret "agentpact_auto"
                          else
                            noted ← consume_approval digest (inv_agent i) action cwd detail;
                            if noted : bool then mret "recent_approval"
                            else abstain i action detail "native_prompt");
                audit_inv i action detail "allow" source "none";;
                emit (Stdout (to_string allow_body));;
                exit 0
            end
      end
  end.

(** *** [kyris hook check] *)

(** The context the gate builds for a governed call. *)
Definition check_ctx (conn : option connection) (hook_id : string) (started_at : Z) (agent : string)
    (protocol : option HookProtocol) (action detail : string) (cwd : option string)
    (log_mode : bool) : PermissionCtx :=
  let native_ask := protocol ≫= Hook.native_ask in
  let setting := agent_by_id agent ≫= approval_setting in
  mkCtx conn hook_id agent action detail cwd
    (match protocol with Some p => allow_response p | None => EmptyStdout end) started_at
    (match protocol with Some p => native_backstop (runtime p) | None => true end)
    (match protocol with Some p => allow_suppresses_agent_prompt (runtime p) | None => false end)
    (match protocol with
     | Some p => poll_deadline_of (runtime p)
     | None => NATIVE_HOOK_POLL_TIMEOUT
     end)
    log_mode (bool_decide (is_Some (protocol ≫= permission_request_allow)))
    (resolve_approval_mode setting (bool_decide (is_Some native_ask))) native_ask.

(** [daemon_state]: the content of daemon.state; [payload]: stdin (empty if it
    cannot be read); [log_mode]: the user's own mode. *)
Definition run_check (agent hook_id : string) (log_mode : bool) (daemon_state : option bytes)
    (payload : bytes) (seed_pid : option N) : io never :=
  t ← now;
  conn ← load_kyrisd_connection;
  let i := mkInvocation agent conn hook_id t log_mode in
  match check_protocol_compatibility_at daemon_state with
  | Err msg =>
      audit_inv i "unknown" "" "deny" "protocol_mismatch" "none";;
      emit_deny msg;;
      exit 2
  | Ok _ =>
      let hook_input := default JNull (ok (from_slice payload)) in
      let protocol := agent_by_id agent ≫= hook_protocol in
      let tool_name := p ← protocol; as_str (index (tool_name_field p) hook_input) in
      (if bool_decide (is_Some (protocol ≫= permission_request_allow)) &&
          bool_decide (get_str "hook_event_name" hook_input = Some "PermissionRequest")
       then (_ ← run_permission_request i protocol hook_input seed_pid; mret tt)
       else mret tt);;
      let '(action, detail) := map_payload to_string protocol hook_input in
      match protocol, tool_name with
      | Some proto, Some tool => handle_non_governed i proto tool action detail
      | _, _ => mret tt
      end;;
      let cwd := derive_session_cwd (agent_by_id agent ≫= launch_dir) hook_input in
      let detail := resolve_relative_path action detail cwd in
      let ctx := check_ctx conn hook_id t agent protocol action detail cwd log_mode in
      if String.eqb action "apply_patch" then drive_apply_patch ctx seed_pid
      else
        outcome ← request_hook_permission_preview "kyris-hook" action detail cwd seed_pid
          (declared_canonical_agent agent);
        dispatch_preview_outcome ctx seed_pid outcome
  end.

(** ** hold.rs: [kyris hook hold] *)

Definition run_hold (req_id token display : string) : io never :=
  p ← poll_segment "shell" "shell" req_id token display false None NATIVE_HOOK_POLL_TIMEOUT;
  match p with
  | PopupApproved _ => exit 0
  | PopupBlocked code _ reason => emit_deny reason;; exit code
  end.

(** ** What clears a segment *)

(** [q] is a real (not a preview) request for this action on this segment. *)
Definition asks_hook (action seg : string) (q : json) : Prop :=
  get "action" q = Some (JString action) /\ get "detail" q = Some (JString seg) /\
  get "preview" q = None.

Definition cleared_by_policy (action seg : string) (l : list effect) : Prop :=
  exists q r, Exchange q r ∈ l /\ asks_hook action seg q /\ accepted r.

Definition answered_ask (action seg id token : string) (l : list effect) : Prop :=
  exists q r v always detail, Exchange q r ∈ l /\ asks_hook action seg q /\ interpret r = Ok v /\
    parse_mcp_permission_response v = Ask id token always detail.

Definition user_approved (id : string) (l : list effect) : Prop :=
  exists conn r, Http "GET" (status_url conn id) None r ∈ l /\
    poll_answer r = Some (Some "approved").

Definition cleared_by_user (action seg : string) (l : list effect) : Prop :=
  exists id token, answered_ask action seg id token l /\ user_approved id l.

Definition cleared (action seg : string) (l : list effect) : Prop :=
  cleared_by_policy action seg l \/ cleared_by_user action seg l.

(** agentpactd was asked about the segment and could not be reached: the request and each
    of its retries failed. *)
Definition gave_up (q : json) (l : list effect) : Prop :=
  exists l1 failed r l2, l = app l1 (app (app (attempts_failed q failed RETRY_BACKOFFS) [Exchange q r]) l2) /\
    Forall failing failed /\ length failed = 3%nat /\ failing r.

Definition outage (action seg : string) (l : list effect) : Prop :=
  exists q, asks_hook action seg q /\ gave_up q l.

(** The dialog of this approval could not be put up: kyrisd is not configured, or did not
    accept the hold. *)
Definition not_rendered (id : string) (l : list effect) : Prop :=
  Loaded None ∈ l \/
  exists conn a max_wait r, Http "POST" (hold_url conn) (Some (hold_body a max_wait)) r ∈ l /\
    approval_id a = id /\ held r = false.

(** Nobody could answer for the segment. *)
Definition unheard (action seg : string) (l : list effect) : Prop :=
  outage action seg l \/
  exists id token, answered_ask action seg id token l /\ not_rendered id l.

Lemma gave_up_mono q l1 l l2 : gave_up q l -> gave_up q (app l1 (app l l2)).
Proof using Type.
  clear agent_by_id home parent_id to_string digest.
  intros (k1 & failed & r & k2 & -> & H). exists (app l1 k1), failed, r, (app k2 l2).
  split; [by rewrite <- !app_assoc|done].
Qed.

Lemma answered_ask_mono action seg id token l1 l l2 :
  answered_ask action seg id token l -> answered_ask action seg id token (app l1 (app l l2)).
Proof using Type.
  clear agent_by_id home parent_id to_string digest.
  intros (q & r & v & a & d & ? & ? & ? & ?). exists q, r, v, a, d. set_solver.
Qed.

Lemma not_rendered_app id l1 l : not_rendered id l -> not_rendered id (app l1 l).
Proof using Type.
  clear agent_by_id home parent_id to_string digest.
  intros [?|(conn & a & m & r & ? & ?)]; [left|right; exists conn, a, m, r]; rewrite elem_of_app; auto.
Qed.

Lemma unheard_mono action seg l1 l l2 :
  unheard action seg l -> unheard action seg (app l1 (app l l2)).
Proof using Type.
  clear agent_by_id home parent_id to_string digest.
  intros [(q & ? & ?)|(id & token & ? & Hn)]; [left; exists q; by split; [|apply gave_up_mono]|].
  right. exists id, token. split; [by apply answered_ask_mono|].
  destruct Hn as [?|(conn & a & m & r & ? & ? & ?)]; [left|right; exists conn, a, m, r]; set_solver.
Qed.

Lemma cleared_mono action seg l1 l l2 :
  cleared action seg l -> cleared action seg (app l1 (app l l2)).
Proof using Type.
  clear agent_by_id home parent_id to_string digest.
  unfold cleared, cleared_by_policy, cleared_by_user, answered_ask, user_approved.
  intros [(q & r & ? & ? & ?)|(id & token & (q & r & v & a & d & ? & ? & ? & ?) & conn & r' & ? & ?)].
  - left. exists q, r. set_solver.
  - right. exists id, token. split; [exists q, r, v, a, d|exists conn, r']; set_solver.
Qed.

(** No answer to the agent yet. *)
Definition quiet (e : effect) : Prop :=
  match e with Stdout _ | Denied _ => False | _ => True end.

Lemma attempts_quiet q failed r backoffs :
  Forall quiet (app (attempts_failed q failed backoffs) [Exchange q r]).
Proof using Type.
  clear agent_by_id home parent_id to_string digest.
  apply Forall_app. split; [|by repeat constructor].
  revert backoffs. induction failed as [|x failed IH]; intros [|b backoffs]; simpl; try by constructor.
  repeat constructor. apply IH.
Qed.

Lemma wp_classify_segment ctx seed_pid action seg group :
  wp (classify_segment ctx seed_pid action seg group) (fun l o => Forall quiet l /\
    exists c, o = Val c /\
    match c with
    | SegAuto => cleared_by_policy action seg l
    | SegAsk id token _ _ => answered_ask action seg id token l
    | SegDeny _ => True
    | SegUnavailable _ =>
        FailOpen (ctx_agent ctx) action seg "shell" (ctx_cwd ctx) ∈ l /\ outage action seg l
    end).
Proof using Type.
  clear home to_string digest.
  unfold classify_segment. apply wp_bind, wp_request_hook_permission.
  - intros d Hd. unfold oversized_execute_deny in Hd. case_match; [|done]. simplify_eq.
    apply wp_ret. split; [constructor|]. by eexists.
  - intros id failed r _ q Hf Hlen Hlast.
    pose proof (attempts_quiet q failed r RETRY_BACKOFFS) as Hquiet.
    assert (asks_hook action seg q) as Hq.
    { pose proof (hook_request_fields id action seg (ctx_cwd ctx) seed_pid
        (declared_canonical_agent (ctx_agent ctx)) (Some parent_id) None)
        as (? & ? & ? & ? & ? & ? & ? & ? & ?).
      unfold asks_hook, q. rewrite !get_tag_request by (try apply hook_request_object; done).
      by split_and!. }
    destruct (interpret r) as [v|e] eqn:Er; simpl.
    + destruct (parse_mcp_permission_response v) as [m|c reason h|aid tok always det] eqn:Ev;
        apply wp_ret; rewrite app_nil_r; (split; [done|]); eexists; (split; [done|]).
      * exists q, r. split_and!; [set_solver|done|]. exists v. split; [done|]. by eapply parse_allow.
      * done.
      * exists q, r, v, always, det. split_and!; [set_solver|done..].
    + wp_steps. split; [apply Forall_app; split; [done|by repeat constructor]|].
      eexists. split; [done|]. split; [set_solver|]. exists q. split; [done|].
      assert (failing r) as Hr by (unfold failing; by rewrite Er).
      exists [], failed, r. eexists. split; [reflexivity|]. split_and!; [done|by apply Hlast|done].
Qed.

(** A loop of polls is quiet, and approves on kyrisd's word. *)
Lemma loop_quiet conn id l o : loop_spec conn id l o -> Forall quiet l.
Proof using Type.
  clear agent_by_id home parent_id to_string digest.
  intros H%loop_wait_only. eapply Forall_impl; [exact H|]. by intros [].
Qed.

Lemma wp_poll_segment agent server id token seg always detail max_wait :
  wp (poll_segment agent server id token seg always detail max_wait) (fun l o =>
    Forall quiet l /\ (forall c, o <> Exited c) /\
    forall p, o = Val p ->
      match p with
      | PopupApproved src => src = "user_approved" /\ user_approved id l
      | PopupBlocked code src _ =>
          code = 2%Z /\ (block_from_daemon_unavailable src = true -> not_rendered id l)
      end).
Proof using Type.
  clear agent_by_id parent_id to_string digest.
  unfold poll_segment. wp_steps. destruct c as [conn|].
  2:{ wp_steps. split_and!; [by repeat constructor|done|]. intros p [= <-]. split; [done|].
      intros _. left. by left. }
  apply wp_bind. eapply wp_mono; [apply wp_hold_poll|]. intros l o (r & l' & -> & Href & Hheld).
  assert (forall x y, quiet x -> quiet y -> Forall quiet l' -> Forall quiet (x :: y :: l')) as Hl'
    by (intros; by repeat constructor).
  destruct (held r) eqn:Hr.
  - specialize (Hheld eq_refl). pose proof (loop_quiet _ _ _ _ Hheld) as Hq.
    destruct o as [[| | |reason]|c|]; try (by destruct Hheld as (? & _ & ?)).
    + wp_steps. rewrite app_nil_r. split_and!; [by apply Hl'|done|]. intros p [= <-].
      split; [done|]. destruct Hheld as (rs & _ & r' & Ha & ->). exists conn, r'.
      unfold poll. simpl. set_solver.
    + wp_steps. rewrite app_nil_r. split_and!; [by apply Hl'|done|]. intros p [= <-].
      split; [done|]. intros Hb. by vm_compute in Hb.
    + unfold deny_ask_immediately, send_permission_response, build_permission_respond_request.
      wp_steps. apply wp_send_once. intros r'. wp_steps.
      split_and!; [|done|intros p [= <-]; split; [done|]].
      2:{ intros Hb. case_match; by vm_compute in Hb. }
      repeat (constructor; [done|]). apply Forall_app. split; [done|by repeat constructor].
    + split_and!; [by apply Hl'|done|done].
  - destruct (Href eq_refl) as [-> [->|[-> ->]]]; [wp_steps|by split_and!; [repeat constructor|..]].
    split_and!; [by repeat constructor|done|]. intros p [= <-]. split; [done|]. intros _. right.
    eexists conn, _, max_wait, r. split; [right; by left|]. by split.
Qed.

End hook.

(** *** The walk over the segments, for any closures *)

Section walk.
Context {S : Type} (classify : string -> io SegClass)
  (prompt : S -> string -> string -> string -> bool -> option string -> io (PopupResult * S)).
Context (ask : string -> string -> string -> list effect -> Prop)
  (clears fails : string -> list effect -> Prop) (excused invariant : S -> Prop).
Context
  (fails_mono : forall seg l1 l l2, fails seg l -> fails seg (app l1 (app l l2)))
  (clears_mono : forall seg l1 l l2, clears seg l -> clears seg (app l1 (app l l2)))
  (classify_spec : forall seg, wp (classify seg) (fun l o => Forall quiet l /\
     exists c, o = Val c /\
     match c with
     | SegAuto => clears seg l
     | SegAsk id token _ _ => ask seg id token l
     | SegDeny _ => True
     | SegUnavailable _ => fails seg l
     end))
  (prompt_spec : forall s id token seg always detail,
     wp (prompt s id token seg always detail) (fun l o =>
       Forall quiet l /\ (forall c, o <> Exited c) /\
       forall p s', o = Val (p, s') -> (excused s -> excused s') /\ (invariant s -> invariant s') /\
         match p with
         | PopupApproved _ => excused s' \/ forall l0, ask seg id token l0 -> clears seg (app l0 l)
         | PopupBlocked code src _ => code = 2%Z /\
             (block_from_daemon_unavailable src = true ->
              forall l0, ask seg id token l0 -> fails seg (app l0 l))
         end)).

(** Quiet, and on success every segment is cleared (or the state excuses it); where a daemon
    is said to be unavailable, a segment shows it. *)
Definition walk_spec (s : S) (segs : list string) (l : list effect)
    (o : outcome (result string SegBlock * S)) : Prop :=
  Forall quiet l /\ (forall c, o <> Exited c) /\
  forall r s', o = Val (r, s') -> (excused s -> excused s') /\ (invariant s -> invariant s') /\
    match r with
    | Ok _ => excused s' \/ forall seg, seg ∈ segs -> clears seg l
    | Err block => exit_code block = 2%Z /\
        (block_from_daemon_unavailable (source block) = true -> exists seg, seg ∈ segs /\ fails seg l)
    end.

Lemma blocked_later seg segs block l1 l :
  exit_code block = 2%Z /\
    (block_from_daemon_unavailable (source block) = true -> exists seg, seg ∈ segs /\ fails seg l) ->
  exit_code block = 2%Z /\
    (block_from_daemon_unavailable (source block) = true ->
     exists seg', seg' ∈ seg :: segs /\ fails seg' (app l1 l)).
Proof using fails_mono.
  intros [Hc Hf]. split; [done|]. intros (seg' & ? & H)%Hf. exists seg'. split; [by right|].
  apply (fails_mono _ l1 _ []) in H. by rewrite app_nil_r in H.
Qed.

Lemma wp_run_segments s src segs :
  wp (run_segments classify prompt s src segs) (walk_spec s segs).
Proof using All.
  revert s src. induction segs as [|seg segs IH]; intros s src; simpl.
  { apply wp_ret. split_and!; [constructor|done|]. intros r s' [= <- <-].
    split_and!; [done|done|]. right. by intros seg ?%elem_of_nil. }
  apply wp_bind. eapply wp_mono; [apply classify_spec|]. intros l1 o (Hq1 & c & -> & Hc).
  destruct c as [|id token always detail|reason|reason].
  - eapply wp_mono; [apply IH|]. intros l2 o (Hq2 & Hx & Hr). split_and!; [by apply Forall_app|done|].
    intros r s' ->. destruct (Hr r s' eq_refl) as (H1 & Hi & H2). split_and!; [done|done|].
    destruct r as [x|b]; [|by apply blocked_later]. destruct H2 as [?|H2]; [by left|right].
    intros seg' [->|Hin]%elem_of_cons.
    + apply (clears_mono _ [] _ l2 Hc).
    + pose proof (clears_mono _ l1 _ [] (H2 _ Hin)) as Hm. by rewrite app_nil_r in Hm.
  - apply wp_bind. eapply wp_mono; [apply prompt_spec|]. intros l2 o (Hq2 & Hx & Hp).
    destruct o as [[p s1]|c|]; [|by destruct (Hx c)|by split_and!; [apply Forall_app|..]].
    destruct (Hp p s1 eq_refl) as (H1 & Hi & H2). destruct p as [src'|code src' reason].
    + eapply wp_mono; [apply IH|]. intros l3 o (Hq3 & Hx3 & Hr).
      split_and!; [by rewrite !Forall_app|done|]. intros r s' ->.
      destruct (Hr r s' eq_refl) as (H3 & Hi3 & H4). split_and!; [auto|auto|].
      rewrite app_assoc. destruct r as [x|b]; [|by apply blocked_later].
      destruct H2 as [?|H2]; [left; auto|].
      destruct H4 as [?|H4]; [by left|right]. intros seg' [->|Hin]%elem_of_cons.
      * apply (clears_mono _ [] _ l3). by apply H2.
      * pose proof (clears_mono _ (app l1 l2) _ [] (H4 _ Hin)) as Hm. by rewrite app_nil_r in Hm.
    + apply wp_ret. rewrite app_nil_r. split_and!; [by apply Forall_app|done|].
      intros r s' [= <- <-]. split_and!; [done|done|apply H2|]. intros Hb. exists seg.
      split; [by left|]. by apply H2.
  - apply wp_ret. rewrite app_nil_r. split_and!; [done|done|]. by intros r s' [= <- <-].
  - apply wp_ret. rewrite app_nil_r. split_and!; [done|done|]. intros r s' [= <- <-].
    split_and!; [done..|]. intros _. exists seg. split; [by left|done].
Qed.
End walk.

Section drive.
Context {lib : Libraries}.
Context (agent_by_id : string -> option agent_descriptor).
Context (home : option string) (parent_id : N).
Context (to_string : json -> string) (digest : string -> string).

Definition all_cleared (batches : list ActionBatch) (l : list effect) : Prop :=
  forall b seg, b ∈ batches -> seg ∈ segments b -> cleared (batch_action b) seg l.

Lemma wp_prompt_segment ctx action flag id token seg always detail :
  wp (prompt_segment home ctx action flag id token seg always detail) (fun l o =>
    Forall quiet l /\ (forall c, o <> Exited c) /\
    forall p flag', o = Val (p, flag') -> (flag = true -> flag' = true) /\
      (flag' = true -> flag = true \/ native_mode ctx = true) /\
      match p with
      | PopupApproved _ =>
          (flag' = true /\ native_mode ctx = true) \/
          forall l0, answered_ask action seg id token l0 -> cleared action seg (app l0 l)
      | PopupBlocked code src _ => code = 2%Z /\
          (block_from_daemon_unavailable src = true ->
           forall l0, answered_ask action seg id token l0 -> unheard action seg (app l0 l))
      end).
Proof using Type.
  clear agent_by_id parent_id to_string digest.
  assert (forall l0 l, answered_ask action seg id token l0 ->
    answered_ask action seg id token (app l0 l)) as Hm by (intros l0 l; apply (answered_ask_mono _ _ _ _ [])).
  unfold prompt_segment. destruct (native_mode ctx) eqn:Hn.
  - apply wp_ret. split_and!; [constructor|done|]. intros p flag' [= <- <-].
    split_and!; [done|by right|by left].
  - wp_steps. eapply wp_mono; [apply wp_poll_segment|]. intros l o (Hq & Hx & Hp).
    destruct o as [p|c|]; [|by destruct (Hx c)|by split_and!].
    apply wp_ret. rewrite app_nil_r. split_and!; [done|done|]. intros p' flag' [= <- <-].
    specialize (Hp p eq_refl). split_and!; [done|by left|].
    destruct p as [src|code src reason]; [right|].
    + intros l0 Ha. right. exists id, token. destruct Hp as [_ (conn & r & ? & ?)].
      split; [by apply Hm|]. exists conn, r. rewrite elem_of_app. auto.
    + destruct Hp as [-> Hb]. split; [done|]. intros Hu l0 Ha. right. exists id, token.
      split; [by apply Hm|]. apply not_rendered_app. by apply Hb.
Qed.

(** Some segment of the batches could not be heard. *)
Definition some_unheard (batches : list ActionBatch) (l : list effect) : Prop :=
  exists b seg, b ∈ batches /\ seg ∈ segments b /\ unheard (batch_action b) seg l.

(** The walk, for what [clears] a segment: cleared, or also left to the agent. *)
Section batches.
Context (ctx : PermissionCtx) (clears : string -> string -> list effect -> Prop) (excused invariant : bool -> Prop).
Context
  (clears_mono : forall action seg l1 l l2, clears action seg l -> clears action seg (app l1 (app l l2)))
  (clears_policy : forall action seg l, cleared_by_policy action seg l -> clears action seg l)
  (clears_prompt : forall action flag id token seg always detail,
     wp (prompt_segment home ctx action flag id token seg always detail) (fun l o =>
       Forall quiet l /\ (forall c, o <> Exited c) /\
       forall p flag', o = Val (p, flag') -> (excused flag -> excused flag') /\
         (invariant flag -> invariant flag') /\
         match p with
         | PopupApproved _ => excused flag' \/
             forall l0, answered_ask action seg id token l0 -> clears action seg (app l0 l)
         | PopupBlocked code src _ => code = 2%Z /\
             (block_from_daemon_unavailable src = true ->
              forall l0, answered_ask action seg id token l0 -> unheard action seg (app l0 l))
         end)).

Lemma wp_walk_batches seed_pid group batches flag src :
  wp (run_batches agent_by_id home parent_id ctx seed_pid group batches flag src) (fun l o =>
    Forall quiet l /\ (forall c, o <> Exited c) /\
    forall r flag', o = Val (r, flag') ->
      (excused flag -> excused flag') /\ (invariant flag -> invariant flag') /\
      match r with
      | Ok _ => excused flag' \/ forall b seg, b ∈ batches -> seg ∈ segments b -> clears (batch_action b) seg l
      | Err block => exit_code block = 2%Z /\
          (block_from_daemon_unavailable (source block) = true -> some_unheard batches l)
      end).
Proof using clears_mono clears_policy clears_prompt.
  clear to_string digest.
  revert flag src. induction batches as [|b batches IH]; intros flag src; simpl.
  { apply wp_ret. split_and!; [constructor|done|]. intros r flag' [= <- <-]. split_and!; [done|done|].
    right. by intros b seg ?%elem_of_nil. }
  apply wp_bind. eapply wp_mono; [apply (wp_run_segments _ _
    (answered_ask (batch_action b)) (clears (batch_action b)) (unheard (batch_action b)) excused invariant)|].
  - apply unheard_mono.
  - apply clears_mono.
  - intros seg. eapply wp_mono; [apply wp_classify_segment|].
    intros l o (Hq & c & -> & Hc). split; [done|]. exists c. split; [done|].
    destruct c; [by apply clears_policy|done|done|]. left. apply Hc.
  - intros s id token seg always detail. apply clears_prompt.
  - intros l1 o (Hq1 & Hx & Hr). destruct o as [[r flag1]|c|]; [|by destruct (Hx c)|by split_and!].
    destruct (Hr r flag1 eq_refl) as (H1 & Hi1 & H2). destruct r as [s|block].
    + eapply wp_mono; [apply IH|]. intros l2 o (Hq2 & Hx2 & Hr2).
      split_and!; [by apply Forall_app|done|]. intros r flag' ->.
      destruct (Hr2 r flag' eq_refl) as (H3 & Hi3 & H4). split_and!; [auto|auto|].
      destruct r as [x|block].
      * destruct H2 as [?|H2]; [left; auto|].
        destruct H4 as [?|H4]; [by left|right]. intros b' seg [->|Hb]%elem_of_cons Hin.
        -- apply (clears_mono _ _ [] _ l2). by apply H2.
        -- pose proof (clears_mono _ _ l1 _ [] (H4 _ _ Hb Hin)) as Hm. by rewrite app_nil_r in Hm.
      * destruct H4 as [-> Hf]. split; [done|]. intros (b' & seg & ? & ? & Hu)%Hf. exists b', seg.
        split_and!; [by right|done|]. apply (unheard_mono _ _ l1 _ []) in Hu. by rewrite app_nil_r in Hu.
    + apply wp_ret. rewrite app_nil_r. split_and!; [done|done|]. intros r flag' [= <- <-].
      split_and!; [done|done|apply H2|]. intros (seg & ? & ?)%(proj2 H2).
      exists b, seg. by split_and!; [left|..].
Qed.
End batches.

(** An ask that the agent's own prompt is left to answer. *)
Definition cleared_or_left (ctx : PermissionCtx) (action seg : string) (l : list effect) : Prop :=
  cleared action seg l \/
  native_mode ctx = true /\ exists id token, answered_ask action seg id token l.

Definition all_cleared_or_left (ctx : PermissionCtx) (batches : list ActionBatch) (l : list effect) : Prop :=
  forall b seg, b ∈ batches -> seg ∈ segments b -> cleared_or_left ctx (batch_action b) seg l.

Lemma cleared_or_left_mono ctx action seg l1 l l2 :
  cleared_or_left ctx action seg l -> cleared_or_left ctx action seg (app l1 (app l l2)).
Proof using Type.
  clear agent_by_id home parent_id to_string digest.
  intros [?|(? & id & token & ?)]; [left; by apply cleared_mono|right].
  split; [done|]. exists id, token. by apply answered_ask_mono.
Qed.

Lemma wp_run_batches ctx seed_pid group batches flag src :
  wp (run_batches agent_by_id home parent_id ctx seed_pid group batches flag src) (fun l o =>
    Forall quiet l /\ (forall c, o <> Exited c) /\
    forall r flag', o = Val (r, flag') ->
      match r with
      | Ok _ => all_cleared_or_left ctx batches l /\ (flag' = true \/ all_cleared batches l) /\
          (flag' = true -> flag = true \/ native_mode ctx = true)
      | Err block => exit_code block = 2%Z /\
          (block_from_daemon_unavailable (source block) = true -> some_unheard batches l)
      end).
Proof using Type.
  clear to_string digest.
  eapply wp_mono; [apply wp_and; [apply (wp_walk_batches ctx cleared (fun f => f = true)
      (fun f => f = true -> flag = true \/ native_mode ctx = true))|
    apply (wp_walk_batches ctx (cleared_or_left ctx) (fun _ => False) (fun _ => True))]|].
  - apply cleared_mono.
  - by left.
  - intros. eapply wp_mono; [apply wp_prompt_segment|]. intros l o (Hq & Hx & Hp).
    split_and!; [done|done|]. intros p flag' ->. destruct (Hp p flag' eq_refl) as (Hf & Hi & H).
    split_and!; [done|naive_solver|]. destruct p as [|]; [|done].
    destruct H as [[-> ?]|?]; [by left|by right].
  - apply cleared_or_left_mono.
  - intros action seg l ?. left. by left.
  - intros. eapply wp_mono; [apply wp_prompt_segment|]. intros l o (Hq & Hx & Hp).
    split_and!; [done|done|]. intros p flag' ->. destruct (Hp p flag' eq_refl) as (_ & _ & H).
    split_and!; [done|done|]. destruct p as [|]; [|done]. right. intros l0 Ha.
    destruct H as [[_ ?]|H]; [right|left; by apply H]. split; [done|]. eexists _, _.
    apply (answered_ask_mono _ _ _ _ [] _ l), Ha.
  - intros l o [(Hq & Hx & H1) (_ & _ & H2)]. split_and!; [done|done|]. intros r flag' ->.
    destruct (H1 r flag' eq_refl) as (_ & Hi & Hr1), (H2 r flag' eq_refl) as (_ & _ & Hr2).
    destruct r as [x|block]; [|done]. destruct Hr2 as [[]|Hr2]. split_and!; [exact Hr2|exact Hr1|].
    apply Hi. by left.
Qed.

(** *** The steps that answer the agent *)

Lemma wp_audit ctx segs decision source prompt (Q : list effect -> outcome unit -> Prop) :
  (forall l, Forall quiet l -> Q l (Val tt)) -> wp (audit home ctx segs decision source prompt) Q.
Proof using Type.
  clear agent_by_id parent_id to_string digest.
  intros HQ. unfold audit, audit_log_hook. wp_steps.
  destruct (audit_conn ctx); wp_steps; apply HQ; by repeat constructor.
Qed.

Lemma wp_evidence agent (Q : list effect -> outcome unit -> Prop) :
  (forall l, Forall quiet l -> Q l (Val tt)) -> wp (record_execution_live_evidence agent) Q.
Proof using Type.
  clear agent_by_id home parent_id to_string digest.
  intros HQ. unfold record_execution_live_evidence.
  destruct (String.eqb agent "shell"); wp_steps; apply HQ; by repeat constructor.
Qed.

Lemma wp_commit group (Q : list effect -> outcome unit -> Prop) :
  (forall l, Forall quiet l -> Q l (Val tt)) -> wp (send_command_commit group) Q.
Proof using Type.
  clear agent_by_id home parent_id to_string digest.
  intros HQ. unfold send_command_commit. wp_steps. apply wp_send_with_retry. intros failed r _ _ _.
  wp_steps. apply HQ. rewrite app_nil_r. apply attempts_quiet.
Qed.

(** How an invocation may end, given what was cleared: [ok l] for an answer that
    lets the command run without the agent's own prompt. *)
Definition deferred (ctx : PermissionCtx) (l : list effect) : Prop :=
  FailOpen (ctx_agent ctx) (ctx_action ctx) (ctx_detail ctx) "shell" (ctx_cwd ctx) ∈ l.

Definition printed (l : list effect) : Prop := exists line, Stdout line ∈ l.

(** The agent's own prompt is to decide: nothing is said but its native ask. *)
Definition left_to_agent (ctx : PermissionCtx) (l : list effect) : Prop :=
  native_mode ctx = true /\
  forall line, Stdout line ∈ l -> exists body, ctx_native_ask ctx = Some (NativePrompt body) /\ line = to_string body.

(** [P]: all is cleared; [W]: what is not was asked about; [U]: a daemon is out. *)
Definition ends (ctx : PermissionCtx) (log_mode : bool) (P W U : list effect -> Prop)
    (l : list effect) (o : outcome never) : Prop :=
  match o with
  | Val x => False
  | Unfinished => ~ printed l
  | Exited code =>
      (code = 0%Z \/ code = 2%Z) /\
      (code = 0%Z -> P l \/ (left_to_agent ctx l /\ W l) \/
         (deferred ctx l /\ U l /\ (ctx_native_backstop ctx = true \/ log_mode = true))) /\
      (code = 2%Z -> exists reason, Denied reason ∈ l) /\
      (printed l -> code = 0%Z /\ log_mode = false /\ (P l \/ (left_to_agent ctx l /\ W l)))
  end.

Lemma quiet_not_printed l : Forall quiet l -> ~ printed l.
Proof using Type. rewrite Forall_forall. intros H [line Hin]. by apply H in Hin. Qed.

Lemma not_printed_app l1 l2 : ~ printed l1 -> ~ printed l2 -> ~ printed (app l1 l2).
Proof using Type. unfold printed. intros H1 H2 [line [?|?]%elem_of_app]; eauto. Qed.

(** Each answer: its exit code, whether it prints, and what it leaves in the log. *)
Lemma wp_allow_command ctx segs src log_mode :
  wp (allow_command home to_string digest ctx segs src log_mode)
    (fun l o => o = Exited 0 /\ (printed l -> log_mode = false)).
Proof using Type.
  clear agent_by_id parent_id. unfold allow_command. apply wp_bind, wp_evidence. intros l1 H1.
  apply wp_bind.
  assert (wp (if (String.eqb src "user_approved" || String.eqb src "user_always")
                 && has_permission_request ctx
              then record_approval digest (ctx_agent ctx) (ctx_action ctx) (ctx_cwd ctx)
                     (ctx_detail ctx)
              else mret tt) (fun l o => Forall quiet l /\ o = Val tt)) as Hn.
  { case_match; unfold record_approval; wp_steps; (split; [by repeat constructor|done]). }
  eapply wp_mono; [exact Hn|]. intros l2 o [H2 ->].
  apply wp_bind, wp_audit. intros l3 H3.
  destruct log_mode; simpl.
  - wp_steps. split; [done|]. intros Hp. destruct (quiet_not_printed (app l1 (app l2 l3))); [|].
    + by rewrite !Forall_app.
    + by rewrite !app_nil_r in Hp.
  - apply wp_bind. unfold emit_allow. destruct (native_allow_response ctx); wp_steps; by split.
Qed.

Lemma wp_emit_native_ask ctx segs log_mode :
  wp (emit_native_ask home to_string ctx segs log_mode)
    (fun l o => o = Exited 0 /\ (printed l -> log_mode = false) /\
       (native_mode ctx = true -> left_to_agent ctx l)).
Proof using Type.
  clear agent_by_id parent_id digest. unfold emit_native_ask. apply wp_bind, wp_evidence.
  intros l1 H1. destruct log_mode; apply wp_bind, wp_audit; intros l2 H2.
  - wp_steps. assert (~ printed (app l1 (app l2 []))) as Hp.
    { apply quiet_not_printed. by rewrite !Forall_app. }
    split_and!; [done|by intros ?%Hp|split; [done|]]. intros line Hin. destruct Hp. by exists line.
  - assert (Forall quiet (app l1 l2)) as Hq by (by apply Forall_app).
    assert (forall line, Stdout line ∈ app l1 l2 -> False) as Hs
      by (intros line Hin; apply (quiet_not_printed _ Hq); by exists line).
    unfold emit_allow. destruct (ctx_native_ask ctx) as [[body|]|] eqn:Ha; wp_steps;
      (split_and!; [done|done|split; [done|]]); intros line; rewrite app_assoc, ?app_nil_r;
      try by intros ?%Hs.
    intros [?%Hs|[= ->]%list_elem_of_singleton]%elem_of_app; [done|]. by exists body.
Qed.

Lemma wp_defer_command ctx segs src :
  wp (defer_command home to_string ctx segs src)
    (fun l o => o = Exited 0 /\ ~ printed l /\ deferred ctx l).
Proof using Type.
  clear agent_by_id parent_id digest. unfold defer_command. apply wp_bind, wp_emit.
  apply wp_bind, wp_audit. intros l1 H1. wp_steps. rewrite app_nil_r. split_and!; [done| |].
  - apply (quiet_not_printed (_ :: _)). by constructor.
  - apply elem_of_cons. by left.
Qed.

Lemma wp_block_command ctx segs block :
  wp (block_command home ctx segs block)
    (fun l o => o = Exited (exit_code block) /\ ~ printed l /\ exists reason, Denied reason ∈ l).
Proof using Type.
  clear agent_by_id parent_id digest to_string. unfold block_command, emit_deny.
  apply wp_bind, wp_evidence. intros l1 H1. apply wp_bind, wp_audit. intros l2 H2. wp_steps.
  split_and!; [done| |].
  - apply not_printed_app; [by apply quiet_not_printed|].
    apply not_printed_app; [by apply quiet_not_printed|].
    intros [line [?|[]%elem_of_nil]%elem_of_cons]; done.
  - exists (block_reason block). rewrite !elem_of_app. right. right. apply elem_of_cons. by left.
Qed.

Lemma wp_deny_for_missing_backstop ctx segs source :
  wp (deny_for_missing_backstop home ctx segs source)
    (fun l o => o = Exited 2 /\ ~ printed l /\ exists reason, Denied reason ∈ l).
Proof using Type.
  clear agent_by_id parent_id digest to_string. unfold deny_for_missing_backstop, emit_deny.
  apply wp_bind, wp_audit. intros l1 H1. wp_steps. split_and!; [done| |].
  - apply not_printed_app; [by apply quiet_not_printed|].
    intros [line [?|[]%elem_of_nil]%elem_of_cons]; done.
  - eexists. rewrite elem_of_app. right. apply elem_of_cons. by left.
Qed.

Lemma left_to_agent_app ctx l1 l : Forall quiet l1 -> left_to_agent ctx l -> left_to_agent ctx (app l1 l).
Proof using Type.
  clear agent_by_id home parent_id digest. intros Hq [Hn Hl]. split; [done|].
  intros line [Hin|Hin]%elem_of_app; [|by apply Hl]. destruct (quiet_not_printed _ Hq). by exists line.
Qed.

Lemma ends_app ctx log_mode (P W U : list effect -> Prop) (l1 : list effect) :
  Forall quiet l1 ->
  forall l (o : outcome never),
    ends ctx log_mode (fun l' => P (app l1 l')) (fun l' => W (app l1 l')) (fun l' => U (app l1 l')) l o ->
  ends ctx log_mode P W U (app l1 l) o.
Proof using Type.
  clear agent_by_id home parent_id digest.
  intros H1 l o. pose proof (quiet_not_printed _ H1) as Hn. unfold ends.
  pose proof (fun l => left_to_agent_app ctx l1 l H1) as Hla.
  assert (printed (app l1 l) -> printed l) as Hp.
  { intros [line [?|?]%elem_of_app]; [destruct Hn|]; by exists line. }
  destruct o as [x|code|]; [done|intros (Hc & H0 & H2 & Hpr)|intros Hnp Hpr; auto].
  split_and!; [done|intros ->|intros ->|].
  - destruct (H0 eq_refl) as [?|[[? ?]|(Hd & ? & ?)]]; [by left|right; left; auto|right; right].
    split_and!; [|done|done]. apply elem_of_app. by right.
  - destruct (H2 eq_refl) as [reason ?]. exists reason. apply elem_of_app. by right.
  - intros (? & ? & [?|[? ?]])%Hp%Hpr; auto 6.
Qed.

Lemma ends_mono ctx log_mode (P W U P' W' U' : list effect -> Prop) l o :
  (forall l, P l -> P' l) -> (forall l, W l -> W' l) -> (forall l, U l -> U' l) ->
  ends ctx log_mode P W U l o -> ends ctx log_mode P' W' U' l o.
Proof using Type.
  clear agent_by_id home parent_id digest. intros HP HW HU. unfold ends.
  destruct o as [x|code|]; [done| |done]. intros (Hc & H0 & H2 & Hp). split_and!; [done| |done|].
  - intros Hcode. destruct (H0 Hcode) as [?|[[? ?]|(? & ? & ?)]]; auto 6.
  - intros Hpr. destruct (Hp Hpr) as (? & ? & [?|[? ?]]); auto 6.
Qed.

(** The walk, the commit, and the answer. *)
Lemma wp_drive_batches ctx seed_pid batches log_mode group_id :
  wp (drive_batches agent_by_id home parent_id to_string digest ctx seed_pid batches log_mode
        group_id)
    (ends ctx log_mode (all_cleared batches) (all_cleared_or_left ctx batches) (some_unheard batches)).
Proof using Type.
  unfold drive_batches. apply wp_bind. eapply wp_mono; [apply wp_run_batches|].
  intros l1 o (Hq1 & Hx & Hr). destruct o as [[r flag]|c|]; [|by destruct (Hx c)|].
  2:{ simpl. by apply quiet_not_printed. }
  specialize (Hr r flag eq_refl). clear Hx. apply wp_bind.
  assert (wp (match group_id with Some group => send_command_commit group | None => mret tt end)
    (fun l o => Forall quiet l /\ o = Val tt)) as Hc.
  { destruct group_id; [by apply wp_commit|]. apply wp_ret. by split; [constructor|]. }
  eapply wp_mono; [exact Hc|]. intros l2 o [Hq2 ->].
  assert (Forall quiet (app l1 l2)) as Hq by (by apply Forall_app).
  destruct r as [src|block].
  - destruct Hr as (Hw & Hs & Hi).
    assert (forall l, all_cleared_or_left ctx batches (app (app l1 l2) l)) as Hwm.
    { intros l b seg Hb Hseg. rewrite <- app_assoc.
      apply (cleared_or_left_mono ctx _ _ [] l1 (app l2 l)). by apply Hw. }
    destruct flag.
    + destruct (Hi eq_refl) as [?|Hm]; [done|].
      eapply wp_mono; [by apply wp_emit_native_ask|]. intros l3 o (-> & Hp & Hl). specialize (Hl Hm).
      rewrite app_assoc.
      apply ends_app; [done|]. split_and!; [by left|by right; left|done|]. auto 6.
    + destruct Hs as [?|Hs]; [done|].
      assert (forall l, all_cleared batches (app (app l1 l2) l)) as Hmono.
      { intros l b seg Hb Hseg. rewrite <- app_assoc. apply (cleared_mono _ _ [] l1 (app l2 l)). by apply Hs. }
      eapply wp_mono; [apply wp_allow_command|]. intros l3 o [-> Hp]. rewrite app_assoc.
      apply ends_app; [done|]. split_and!; [by left|by left|done|]. auto 6.
  - destruct Hr as [Hcode Hu].
    destruct (block_from_daemon_unavailable (source block)).
    + assert (forall l, some_unheard batches (app (app l1 l2) l)) as Hmono.
      { intros l. destruct (Hu eq_refl) as (b & seg & ? & ? & H). exists b, seg. split_and!; [done|done|].
        rewrite <- app_assoc. by apply (unheard_mono _ _ [] l1 (app l2 l)). }
      destruct (negb (ctx_native_backstop ctx) && negb log_mode) eqn:Hb.
      * eapply wp_mono; [apply wp_deny_for_missing_backstop|]. intros l3 o (-> & Hp & Hd).
        rewrite app_assoc. apply ends_app; [done|]. by split_and!; [right|..].
      * eapply wp_mono; [apply wp_defer_command|]. intros l3 o (-> & Hp & Hd). rewrite app_assoc.
        apply ends_app; [done|]. split_and!; [by left| |done|done]. intros _. right. right.
        split_and!; [done|done|]. destruct (ctx_native_backstop ctx), log_mode; auto; done.
    + eapply wp_mono; [apply wp_block_command|]. intros l3 o (-> & Hp & Hd). rewrite app_assoc.
      apply ends_app; [done|]. rewrite Hcode. by split_and!; [right|..].
Qed.

(** *** From the preview to the answer *)

(** The split and the mode a preview's answer gives the walk. *)
Definition preview_segments (ctx : PermissionCtx)
    (outcome : result (McpPermissionDecision * option (list string)) string) : list string :=
  match outcome with
  | Ok (Deny _ _ _, _) | Err _ => [ctx_detail ctx]
  | Ok (_, segs) => default [ctx_detail ctx] segs
  end.

Definition preview_log (ctx : PermissionCtx)
    (outcome : result (McpPermissionDecision * option (list string)) string) : bool :=
  match outcome with Ok (d, _) => is_log_allow d | Err _ => log_mode_fallback ctx end.

Definition preview_cleared (ctx : PermissionCtx)
    (outcome : result (McpPermissionDecision * option (list string)) string)
    (l : list effect) : Prop :=
  is_Some (ok outcome) /\
  forall seg, seg ∈ preview_segments ctx outcome -> cleared (ctx_action ctx) seg l.

Definition preview_left (ctx : PermissionCtx)
    (outcome : result (McpPermissionDecision * option (list string)) string)
    (l : list effect) : Prop :=
  forall seg, seg ∈ preview_segments ctx outcome -> cleared_or_left ctx (ctx_action ctx) seg l.

Definition preview_unheard (ctx : PermissionCtx)
    (outcome : result (McpPermissionDecision * option (list string)) string)
    (l : list effect) : Prop :=
  ok outcome = None \/
  exists seg, seg ∈ preview_segments ctx outcome /\ unheard (ctx_action ctx) seg l.

Lemma wp_drive_per_segment ctx seed_pid segs log_mode :
  wp (drive_per_segment agent_by_id home parent_id to_string digest ctx seed_pid segs log_mode)
    (ends ctx log_mode
       (fun l => forall seg, seg ∈ default [ctx_detail ctx] segs -> cleared (ctx_action ctx) seg l)
       (fun l => forall seg, seg ∈ default [ctx_detail ctx] segs -> cleared_or_left ctx (ctx_action ctx) seg l)
       (fun l => exists seg, seg ∈ default [ctx_detail ctx] segs /\ unheard (ctx_action ctx) seg l)).
Proof using Type.
  unfold drive_per_segment, new_command_group.
  set (b := mkBatch (ctx_action ctx) (default [ctx_detail ctx] segs)).
  case_match; wp_steps; (eapply wp_mono; [apply wp_drive_batches|]); intros l o; apply ends_mono; clear l o;
    (intros l Hl seg Hin; apply (Hl b); [by apply list_elem_of_singleton|exact Hin]) ||
    (intros l (b' & seg & ->%list_elem_of_singleton & ? & ?); by exists seg).
Qed.

Lemma wp_dispatch_preview_outcome ctx seed_pid outcome :
  wp (dispatch_preview_outcome agent_by_id home parent_id to_string digest ctx seed_pid outcome)
    (ends ctx (preview_log ctx outcome) (preview_cleared ctx outcome) (preview_left ctx outcome)
       (preview_unheard ctx outcome)).
Proof using Type.
  unfold dispatch_preview_outcome.
  destruct outcome as [[d segs]|e].
  - assert (forall segs' log, preview_log ctx (Ok (d, segs)) = log ->
      preview_segments ctx (Ok (d, segs)) = default [ctx_detail ctx] segs' ->
      wp (drive_per_segment agent_by_id home parent_id to_string digest ctx seed_pid segs' log)
        (ends ctx (preview_log ctx (Ok (d, segs))) (preview_cleared ctx (Ok (d, segs)))
           (preview_left ctx (Ok (d, segs))) (preview_unheard ctx (Ok (d, segs))))) as H.
    { intros segs' log Hlog Hsegs. rewrite Hlog. eapply wp_mono; [apply wp_drive_per_segment|].
      intros l o. apply ends_mono; clear l o; intros l Hl.
      - split; [by eexists|]. by rewrite Hsegs.
      - unfold preview_left. by rewrite Hsegs.
      - right. by rewrite Hsegs. }
    destruct d; by apply H.
  - simpl. destruct (negb (ctx_native_backstop ctx) && negb (log_mode_fallback ctx)) eqn:Hb.
    + eapply wp_mono; [apply wp_deny_for_missing_backstop|]. intros l o (-> & Hp & Hd).
      by split_and!; [right|..].
    + eapply wp_mono; [apply wp_defer_command|]. intros l o (-> & Hp & Hd).
      split_and!; [by left| |done|done]. intros _. right. right. split_and!; [done|by left|].
      destruct (ctx_native_backstop ctx), (log_mode_fallback ctx); auto; done.
Qed.
(** What a preview's answer rests on: [log] and [segs] as agentpactd gave them. *)
Definition is_preview (action detail : string) (q : json) : Prop :=
  get "preview" q = Some (JBool true) /\ get "action" q = Some (JString action) /\
  get "detail" q = Some (JString detail).

Definition previewed_allow (action detail : string) (log : bool) (l : list effect) : Prop :=
  exists q r v mode, Exchange q r ∈ l /\ is_preview action detail q /\ interpret r = Ok v /\
    parse_mcp_permission_response v = Allow mode /\ is_log mode = log.

Definition previewed_segments (action detail : string) (segs : list string) (l : list effect)
    : Prop :=
  exists q r v, Exchange q r ∈ l /\ is_preview action detail q /\ interpret r = Ok v /\
    parse_response_segments v = Some segs.

(** agentpactd could not be reached for the preview. *)
Definition preview_outage (action detail : string) (l : list effect) : Prop :=
  exists q, is_preview action detail q /\ gave_up q l.

Definition previewed_log (l : list effect) : Prop :=
  exists action detail, previewed_allow action detail true l.

Lemma previewed_allow_mono action detail log l1 l l2 :
  previewed_allow action detail log l -> previewed_allow action detail log (app l1 (app l l2)).
Proof using Type.
  clear agent_by_id home parent_id to_string digest.
  intros (q & r & v & mode & ? & ?). exists q, r, v, mode. set_solver.
Qed.

Lemma wp_preview action detail cwd seed_pid agent :
  wp (request_hook_permission_preview "kyris-hook" action detail cwd seed_pid agent)
    (fun l o => Forall quiet l /\ exists outcome, o = Val outcome /\
       match outcome with
       | Ok (d, segs) =>
           (forall mode, d = Allow mode -> previewed_allow action detail (is_log mode) l) /\
           (segs = None \/
            exists segs', segs = Some segs' /\ previewed_segments action detail segs' l)
       | Err _ => preview_outage action detail l
       end).
Proof using Type.
  clear agent_by_id home parent_id to_string digest.
  apply wp_request_hook_permission_preview.
  - intros d Hd. split; [constructor|]. eexists. split; [done|]. split; [|by left].
    unfold oversized_execute_deny in Hd. case_match; by simplify_eq.
  - intros id failed r _ q Hf _ Hlast. split; [apply attempts_quiet|].
    assert (is_preview action detail q) as Hq.
    { unfold is_preview, q. rewrite !get_set_field by apply hook_request_object. simpl.
      pose proof (hook_request_fields id action detail cwd seed_pid agent None None)
        as (? & ? & ? & ? & ? & ? & ? & ? & ?). by split_and!. }
    assert (Exchange q r ∈ app (attempts_failed q failed RETRY_BACKOFFS) [Exchange q r]) as Hin.
    { apply elem_of_app. right. apply elem_of_cons. by left. }
    eexists. split; [done|]. destruct (interpret r) as [v|e] eqn:Er; simpl.
    2:{ assert (failing r) as Hr by (unfold failing; by rewrite Er). exists q. split; [done|].
        exists [], failed, r, []. split_and!; [by rewrite app_nil_r|done|by apply Hlast|done]. }
    split.
    + intros mode Hd. unfold preview_decision in Hd. case_bool_decide; [done|].
      by exists q, r, v, mode.
    + destruct (parse_response_segments v) as [segs|] eqn:Es; [|by left]. right. exists segs.
      split; [done|]. by exists q, r, v.
Qed.

(** The patch gate. *)
Lemma wp_drive_apply_patch ctx seed_pid :
  let batches := patch_batches ctx (parse_apply_patch_paths (ctx_detail ctx)) in
  wp (drive_apply_patch agent_by_id home parent_id to_string digest ctx seed_pid) (fun l o =>
    exists log_mode, (log_mode = true -> previewed_log l \/ log_mode_fallback ctx = true) /\
      match batches with
      | [] => ~ printed l /\
          ((o = Exited 0 /\ (ctx_native_backstop ctx = true \/ log_mode_fallback ctx = true)) \/
           (o = Exited 2 /\ exists reason, Denied reason ∈ l))
      | _ => ends ctx log_mode (all_cleared batches) (all_cleared_or_left ctx batches)
               (some_unheard batches) l o
      end).
Proof using Type.
  intros batches. unfold drive_apply_patch. fold batches. destruct batches as [|b bs].
  - destruct (negb _ && negb _) eqn:Hb.
    + eapply wp_mono; [apply wp_deny_for_missing_backstop|]. intros l o (-> & Hp & Hd).
      exists false. split; [done|]. split; [done|]. by right.
    + apply wp_bind, wp_audit. intros l Hq. unfold emit_allow. wp_steps. exists false.
      split; [done|]. rewrite app_nil_r. split; [by apply quiet_not_printed|]. left.
      split; [done|]. destruct (ctx_native_backstop ctx), (log_mode_fallback ctx); auto; done.
  - apply wp_bind. eapply wp_mono; [apply wp_preview|]. intros l1 o (Hq & outcome & -> & Ho).
    eapply wp_mono; [apply wp_drive_batches|]. intros l2 o H2.
    exists (match outcome with Ok (d, _) => is_log_allow d | Err _ => log_mode_fallback ctx end).
    split.
    + destruct outcome as [[d segs]|e]; [|by right]. intros Hlog. left.
      destruct d as [mode| |]; try done. simpl in Hlog. eexists _, _.
      apply (previewed_allow_mono _ _ _ [] _ l2). rewrite <- Hlog. by apply Ho.
    + apply ends_app; [done|]. eapply ends_mono; [| | |exact H2].
      * intros l Hall b' seg Hb Hseg.
        pose proof (cleared_mono _ _ l1 l [] (Hall _ _ Hb Hseg)) as Hm. by rewrite app_nil_r in Hm.
      * intros l Hall b' seg Hb Hseg.
        pose proof (cleared_or_left_mono ctx _ _ l1 l [] (Hall _ _ Hb Hseg)) as Hm. by rewrite app_nil_r in Hm.
      * intros l (b' & seg & ? & ? & Hu). exists b', seg. split_and!; [done|done|].
        apply (unheard_mono _ _ l1 l []) in Hu. by rewrite app_nil_r in Hu.
Qed.


(** *** [run_check] *)

(** What lets a governed call through: the segments of the patch, or of the split
    the preview gave (by default the whole detail), are all cleared. *)
Definition call_cleared (ctx : PermissionCtx) (l : list effect) : Prop :=
  if String.eqb (ctx_action ctx) "apply_patch" then
    patch_batches ctx (parse_apply_patch_paths (ctx_detail ctx)) <> [] /\
    all_cleared (patch_batches ctx (parse_apply_patch_paths (ctx_detail ctx))) l
  else exists segs, (segs = [ctx_detail ctx] \/ previewed_segments (ctx_action ctx) (ctx_detail ctx) segs l) /\
    forall seg, seg ∈ segs -> cleared (ctx_action ctx) seg l.

(** The call is left to the rest of the gate by the tool tables. *)
Definition governed (protocol : option HookProtocol) (input : json) : Prop :=
  match protocol with
  | None => True
  | Some p =>
      match as_str (index (tool_name_field p) input) with
      | Some tool => is_governable p tool = true
      | None => True
      end
  end.

Definition consultation (protocol : option HookProtocol) (input : json) : Prop :=
  is_Some (protocol ≫= permission_request_allow) /\
  get_str "hook_event_name" input = Some "PermissionRequest".

(** Where the context's own settings make the gate the only guard. *)
Definition sole_guard (ctx : PermissionCtx) : Prop :=
  ctx_native_backstop ctx = false /\ log_mode_fallback ctx = false /\ native_mode ctx = false.

Definition fails_closed (ctx : PermissionCtx) (l : list effect) (o : outcome never) : Prop :=
  match o with
  | Val _ => False
  | Unfinished => ~ printed l
  | Exited code =>
      (code = 0%Z \/ code = 2%Z) /\
      (code = 2%Z -> ~ printed l /\ exists reason, Denied reason ∈ l) /\
      (sole_guard ctx -> code = 0%Z -> previewed_log l \/ call_cleared ctx l)
  end.

Lemma fails_closed_cons ctx e l o : quiet e -> fails_closed ctx l o -> fails_closed ctx (e :: l) o.
Proof using Type.
  clear agent_by_id home parent_id to_string digest. intros He. unfold fails_closed.
  assert (printed (e :: l) -> printed l) as Hp.
  { intros [line [<-|?]%elem_of_cons]; [done|by exists line]. }
  destruct o as [|code|]; [done| |auto]. intros (Hc & H2 & H0). split_and!; [done| |].
  - intros Hcode. destruct (H2 Hcode) as [? [reason ?]]. split; [auto|]. exists reason. by right.
  - intros Hs Hcode. destruct (H0 Hs Hcode) as [(a & d & H)|H].
    + left. exists a, d. pose proof (previewed_allow_mono a d true [e] l [] H) as Hm. by rewrite app_nil_r in Hm.
    + right. assert (forall a s, cleared a s l -> cleared a s (e :: l)) as Hm.
      { intros a s H'%(cleared_mono a s [e] l []). by rewrite app_nil_r in H'. }
      revert H. unfold call_cleared. destruct (String.eqb _ _).
      * intros [? Hall]. split; [done|]. intros b seg Hb Hseg. by apply Hm, Hall.
      * intros (segs & [?|(q & r & v & ? & ?)] & Hall); exists segs; (split; [|by auto]); [by left|].
        right. exists q, r, v. split; [by right|done].
Qed.

Lemma ends_fails_closed ctx log_mode (P W U : list effect -> Prop) l o :
  (log_mode = true -> previewed_log l \/ log_mode_fallback ctx = true) ->
  (P l -> call_cleared ctx l) ->
  ends ctx log_mode P W U l o -> fails_closed ctx l o.
Proof using Type.
  clear agent_by_id home parent_id digest.
  intros Hlog HP. unfold ends, fails_closed. destruct o as [x|code|]; [done| |done].
  intros (Hc & H0 & H2 & Hp). split_and!; [done| |].
  - intros ->. split; [|auto]. intros Hpr. by destruct (Hp Hpr).
  - intros (Hb & Hf & Hn) ->. destruct (H0 eq_refl) as [?|[[[? _] _]|(_ & _ & [?|Hl])]]; [auto|congruence..|].
    destruct (Hlog Hl); [by left|congruence].
Qed.

(** The gate proper: from the context to the answer. *)
Definition gate (ctx : PermissionCtx) (seed_pid : option N) : io never :=
  if String.eqb (ctx_action ctx) "apply_patch"
  then drive_apply_patch agent_by_id home parent_id to_string digest ctx seed_pid
  else
    outcome ← request_hook_permission_preview "kyris-hook" (ctx_action ctx) (ctx_detail ctx)
      (ctx_cwd ctx) seed_pid (declared_canonical_agent agent_by_id (ctx_agent ctx));
    dispatch_preview_outcome agent_by_id home parent_id to_string digest ctx seed_pid outcome.

Lemma wp_gate ctx seed_pid : wp (gate ctx seed_pid) (fails_closed ctx).
Proof using Type.
  unfold gate. destruct (String.eqb (ctx_action ctx) "apply_patch") eqn:Ha.
  - eapply wp_mono; [apply wp_drive_apply_patch|]. intros l o (log_mode & Hlog & H).
    destruct (patch_batches _ _) as [|b bs] eqn:Hb.
    + destruct H as [Hp [[-> H]|[-> Hd]]]; (split_and!; [auto|done|]); [|done].
      intros (? & ? & ?). destruct H; congruence.
    + eapply ends_fails_closed; [exact Hlog| |exact H]. intros Hall. unfold call_cleared.
      by rewrite Ha, Hb.
  - apply wp_bind. eapply wp_mono; [apply wp_preview|]. intros l1 o (Hq & outcome & -> & Ho).
    eapply wp_mono; [apply wp_dispatch_preview_outcome|]. intros l2 o H2.
    apply (ends_fails_closed _ (preview_log ctx outcome)
      (fun l => exists l', l = app l1 l' /\ preview_cleared ctx outcome l') (fun _ => True) (fun _ => True)).
    + destruct outcome as [[d segs]|e]; [|by right]. intros Hlog. left.
      destruct d as [mode| |]; try done. simpl in Hlog. eexists _, _.
      apply (previewed_allow_mono _ _ _ [] _ l2). rewrite <- Hlog. by apply Ho.
    + intros (l' & [= <-]%app_inv_head & [_ Hall]). unfold call_cleared. rewrite Ha.
      exists (preview_segments ctx outcome). split.
      * destruct outcome as [[d segs]|e]; [|by left]. destruct Ho as [_ [->|(segs' & -> & Hs)]].
        { left. by destruct d. }
        destruct Hs as (q & r & v & ? & ?).
        destruct d; [right|by left|right]; exists q, r, v; (split; [|done]);
          apply elem_of_app; by left.
      * intros seg Hseg. pose proof (cleared_mono _ _ l1 l2 [] (Hall _ Hseg)) as Hm.
        by rewrite app_nil_r in Hm.
    + apply ends_app; [done|]. eapply ends_mono; [| | |exact H2]; [intros l Hl; by exists l|done..].
Qed.

Lemma wp_handle_governed i p tool action detail Q :
  is_governable p tool = true -> Q [] (Val tt) ->
  wp (handle_non_governed agent_by_id home to_string i p tool action detail) Q.
Proof using Type.
  clear parent_id digest. intros Hg HQ. unfold handle_non_governed. rewrite Hg. by apply wp_ret.
Qed.

Definition call_ctx (conn : option connection) (started_at : Z) (agent hook_id : string)
    (log_mode : bool) (input : json) : PermissionCtx :=
  let protocol := agent_by_id agent ≫= hook_protocol in
  let '(action, detail) := map_payload to_string protocol input in
  let cwd := derive_session_cwd (agent_by_id agent ≫= launch_dir) input in
  check_ctx agent_by_id conn hook_id started_at agent protocol action
    (resolve_relative_path action detail cwd) cwd log_mode.

Lemma wp_run_check_governed agent hook_id log_mode daemon_state payload seed_pid u (Q : _ -> _ -> Prop) :
  let input := default JNull (ok (from_slice payload)) in
  let protocol := agent_by_id agent ≫= hook_protocol in
  check_protocol_compatibility_at daemon_state = Ok u ->
  governed protocol input -> ~ consultation protocol input ->
  (forall conn t, wp (gate (call_ctx conn t agent hook_id log_mode input) seed_pid)
     (fun l o => Q (Loaded conn :: l) o)) ->
  wp (run_check agent_by_id home parent_id to_string digest agent hook_id log_mode daemon_state
        payload seed_pid) Q.
Proof using Type.
  intros input protocol Hu Hg Hc HQ. unfold run_check.
  apply wp_bind, wp_now. intros t. apply wp_bind, wp_load. intros conn. rewrite Hu.
  fold input protocol. specialize (HQ conn t). unfold call_ctx in HQ. fold protocol in HQ.
  apply wp_bind. replace (bool_decide _ && bool_decide _) with false.
  2:{ symmetry. apply andb_false_iff. unfold consultation in Hc.
      destruct (decide (is_Some (protocol ≫= permission_request_allow))) as [Hs|Hs];
        [right|left]; rewrite bool_decide_false; tauto. }
  apply wp_ret. destruct (map_payload to_string protocol input) as [action detail].
  apply wp_bind. unfold governed in Hg.
  destruct protocol as [p|]; [|by apply wp_ret].
  destruct (as_str (index (tool_name_field p) input)) as [tool|] eqn:Ht; simpl;
    rewrite Ht; [|by apply wp_ret].
  by apply wp_handle_governed.
Qed.

(** *** The native-approval consultation *)

(** Quiet, or over with exit code 0 before any answer. *)
Lemma wp_abstain {A} i action detail source (Q : list effect -> outcome A -> Prop) :
  (forall l, Forall quiet l -> Q l (Exited 0)) ->
  wp (abstain home i action detail source) Q.
Proof using Type.
  clear agent_by_id parent_id to_string digest. intros HQ.
  unfold abstain, audit_inv, audit_log_hook. wp_steps.
  destruct (inv_conn i); wp_steps; apply HQ; by repeat constructor.
Qed.

Lemma wp_previews_allow i cwd seed_pid action detail requests :
  wp (previews_allow agent_by_id home i cwd seed_pid action detail requests) (fun l o =>
    Forall quiet l /\ o <> Unfinished /\ (forall c, o = Exited c -> c = 0%Z) /\
    (o = Val true -> forall a d, (a, d) ∈ requests -> previewed_allow a d false l)).
Proof using Type.
  clear parent_id to_string digest.
  induction requests as [|[a d] requests IH]; simpl.
  { apply wp_ret. split_and!; [constructor|done|done|]. by intros _ a d ?%elem_of_nil. }
  apply wp_bind. eapply wp_mono; [apply wp_preview|]. intros l1 o (Hq & outcome & -> & Ho).
  destruct outcome as [[[mode|c reason h|id tok al dt] segs]|e].
  - destruct (is_log mode) eqn:Hlog.
    + apply wp_abstain. intros l2 Hq2. split_and!; [by apply Forall_app|done|by intros c [= <-]|done].
    + eapply wp_mono; [apply IH|]. intros l2 o (Hq2 & Hu & Hx & Ht).
      split_and!; [by apply Forall_app|done|done|]. intros Hv a' d' [[= -> ->]|Hin]%elem_of_cons.
      * apply (previewed_allow_mono _ _ _ [] _ l2). rewrite <- Hlog. by apply Ho.
      * pose proof (previewed_allow_mono _ _ _ l1 l2 [] (Ht Hv _ _ Hin)) as Hm.
        by rewrite app_nil_r in Hm.
  - apply wp_ret. rewrite app_nil_r. by split_and!.
  - apply wp_ret. rewrite app_nil_r. by split_and!.
  - apply wp_abstain. intros l2 Hq2. split_and!; [by apply Forall_app|done|by intros c [= <-]|done].
Qed.

(** A note of the approval was read, fresh at the time it was read, and was removed. *)
Definition noted (agent action : string) (cwd : option string) (detail : string) (l : list effect)
    : Prop :=
  exists ns t m, let path := note_path digest agent action cwd detail in
    NotesRead ns t ∈ l /\ ns !! path = Some m /\ is_fresh t m = true /\ NotesChanged (delete path ns) ∈ l.

Lemma wp_consume_approval agent action cwd detail :
  wp (consume_approval digest agent action cwd detail) (fun l o =>
    Forall quiet l /\ exists b, o = Val b /\ (b = true -> noted agent action cwd detail l)).
Proof using Type.
  clear agent_by_id home parent_id to_string. intros w.
  exists [NotesRead (notes w) (clock w); NotesChanged (delete (note_path digest agent action cwd detail) (notes w))].
  split; [simpl; by rewrite <- app_assoc|].
  split; [by repeat constructor|]. eexists. split; [reflexivity|]. intros H. simpl in H.
  destruct (_ !! _) as [m|] eqn:E; [|done]. exists (notes w), (clock w), m.
  split_and!; [by left|exact E|exact H|by right; left].
Qed.

(** What vouches for a consulted call. *)
Definition vouched (i : Invocation) (input : json) (body : json) (l : list effect) : Prop :=
  exists p, agent_by_id (inv_agent i) ≫= hook_protocol = Some p /\
    permission_request_allow p = Some body /\ governed (Some p) input /\ inv_log_mode i = false /\
    let '(action, detail) := map_payload to_string (Some p) input in
    let cwd := derive_session_cwd (agent_by_id (inv_agent i) ≫= launch_dir) input in
    let detail := resolve_relative_path action detail cwd in
    consultation_requests action detail cwd <> [] /\
    ((forall a d, (a, d) ∈ consultation_requests action detail cwd -> previewed_allow a d false l) \/
     noted (inv_agent i) action cwd detail l).

Lemma noted_mono agent action cwd detail l1 l l2 :
  noted agent action cwd detail l -> noted agent action cwd detail (app l1 (app l l2)).
Proof using Type.
  clear agent_by_id home parent_id to_string. intros (ns & t & m & ? & ? & ? & ?).
  exists ns, t, m. split_and!; rewrite ?elem_of_app; auto.
Qed.

Definition logged (e : effect) : Prop := match e with HookLog _ => True | _ => False end.

Lemma logged_quiet l : Forall logged l -> Forall quiet l.
Proof using Type. intros H. eapply Forall_impl; [exact H|]. by intros []. Qed.

Lemma logged_only l :
  Forall logged l -> (forall q r, Exchange q r ∉ l) /\ (forall reason, Denied reason ∉ l) /\
    (forall line, Stdout line ∉ l).
Proof using Type. rewrite Forall_forall. intros H. split_and!; by repeat intros ?%H || intros ?. Qed.

Lemma wp_audit_inv i action detail decision source prompt (Q : list effect -> outcome unit -> Prop) :
  (forall l, Forall logged l -> Q l (Val tt)) ->
  wp (audit_inv home i action detail decision source prompt) Q.
Proof using Type.
  clear agent_by_id parent_id to_string digest. intros HQ. unfold audit_inv, audit_log_hook.
  wp_steps. destruct (inv_conn i); wp_steps; apply HQ; by repeat constructor.
Qed.

(** Audited, then answered. *)
Lemma wp_audit_allow i action detail source prompt response :
  wp (audit_inv home i action detail "allow" source prompt;; emit_allow to_string response;; exit 0)
    (fun l (o : outcome unit) => o = Exited 0 /\ (forall q r, Exchange q r ∉ l) /\
      (forall reason, Denied reason ∉ l) /\
      forall line, Stdout line ∈ l ->
        exists body, response = AllowJson body /\ line = to_string body).
Proof using Type.
  clear agent_by_id parent_id digest.
  apply wp_bind, wp_audit_inv. intros l (He & Hd & Hs)%logged_only. unfold emit_allow.
  destruct response as [|body]; wp_steps; rewrite ?app_nil_r.
  - split_and!; [done..|]. by intros line ?%Hs.
  - setoid_rewrite elem_of_app. setoid_rewrite list_elem_of_singleton. naive_solver.
Qed.

Lemma wp_audit_deny i action detail source prompt reason :
  wp (audit_inv home i action detail "deny" source prompt;; emit_deny reason;; exit 2)
    (fun l (o : outcome unit) => o = Exited 2 /\ (forall q r, Exchange q r ∉ l) /\
      Denied reason ∈ l /\ (forall line, Stdout line ∉ l)).
Proof using Type.
  clear agent_by_id parent_id digest to_string.
  apply wp_bind, wp_audit_inv. intros l (He & Hd & Hs)%logged_only. unfold emit_deny. wp_steps.
  rewrite ?app_nil_r. setoid_rewrite elem_of_app. setoid_rewrite list_elem_of_singleton.
  naive_solver.
Qed.

Lemma quiet_says_nothing l :
  Forall quiet l -> (forall reason, Denied reason ∉ l) /\ (forall line, Stdout line ∉ l).
Proof using Type. rewrite Forall_forall. intros H. by split; intros ? ?%H. Qed.

Lemma quiet_then_stdout l s :
  Forall quiet l -> (forall reason, Denied reason ∉ app l [Stdout s]) /\
    (forall line, Stdout line ∈ app l [Stdout s] -> line = s).
Proof using Type.
  intros [Hd Hs]%quiet_says_nothing. split.
  - intros reason Hin. apply elem_of_app in Hin as [?|Hin]; [by eapply Hd|].
    by apply elem_of_cons in Hin as [?|?%elem_of_nil].
  - intros line Hin. apply elem_of_app in Hin as [Hin|Hin]; [by apply Hs in Hin|].
    by apply elem_of_cons in Hin as [[= ->]|?%elem_of_nil].
Qed.

Lemma wp_vouch_source i (all_allow : bool) action cwd detail :
  wp (if all_allow then mret "agentpact_auto"
      else n ← consume_approval digest (inv_agent i) action cwd detail;
           if n : bool then mret "recent_approval"
           else abstain home i action detail "native_prompt") (fun l o =>
    Forall quiet l /\ (o = Exited 0 \/
      exists s, o = Val s /\ (all_allow = true \/ noted (inv_agent i) action cwd detail l))).
Proof using Type.
  clear agent_by_id parent_id to_string.
  destruct all_allow; [by apply wp_ret; split; [constructor|]; right; eauto|].
  apply wp_bind. eapply wp_mono; [apply wp_consume_approval|]. intros l o (Hq & b & -> & Hb).
  destruct b.
  - apply wp_ret. rewrite app_nil_r. split; [done|]. right. eexists. by split; [|right; apply Hb].
  - apply wp_abstain. intros l' Hq'. split; [by apply Forall_app|]. by left.
Qed.

(** How a consultation ends: abstained, or vouched for. *)
Definition consulted (i : Invocation) (input : json) (l : list effect) (o : outcome never) : Prop :=
  o = Exited 0 /\ (forall reason, Denied reason ∉ l) /\
  forall line, Stdout line ∈ l -> exists body, line = to_string body /\ vouched i input body l.

(** *** Outages *)

(** Some request of the invocation was answered. *)
Definition answered (l : list effect) : Prop := exists q r, Exchange q r ∈ l /\ ~ failing r.

Lemma answered_app l1 l2 : answered l1 -> answered (app l1 l2).
Proof using Type.
  clear. intros (q & r & ? & ?). exists q, r. split; [|done]. apply elem_of_app. by left.
Qed.

Lemma wp_outage ctx seed_pid group action seg src :
  oversized_execute_deny action seg = None ->
  wp (run_batches agent_by_id home parent_id ctx seed_pid group [mkBatch action [seg]] false src)
    (fun l o => answered l \/ exists reason,
       o = Val (Err (mkBlock 2 "agentpact_unreachable" reason), false) /\
       FailOpen (ctx_agent ctx) action seg "shell" (ctx_cwd ctx) ∈ l).
Proof using Type.
  clear to_string digest. intros Hover. simpl. apply wp_bind, wp_bind.
  unfold classify_segment. apply wp_bind, wp_request_hook_permission; [by rewrite Hover|].
  intros id failed r _ q _ _ _. destruct (interpret r) as [v|e] eqn:Er; simpl.
  - assert (answered (app (attempts_failed q failed RETRY_BACKOFFS) [Exchange q r])) as Ha.
    { exists q, r. split; [set_solver|]. unfold failing. by rewrite Er. }
    destruct (parse_mcp_permission_response v) as [m|c reason h|aid tok always det]; wp_steps;
      try by left; repeat (exact Ha || apply answered_app).
    eapply wp_mono; [apply wp_prompt_segment|]. intros l o _.
    destruct o as [[[s|code s reason] flag]|c|]; wp_steps;
      by left; repeat (exact Ha || apply answered_app).
  - wp_steps. right. eexists. split; [done|]. set_solver.
Qed.

(** The answer after the walk only adds to the log. *)
Lemma wp_answer ctx segs log_mode (r : result string SegBlock) (flag : bool) :
  wp (match r with
      | Ok src =>
          if flag then emit_native_ask home to_string ctx segs log_mode
          else allow_command home to_string digest ctx segs src log_mode
      | Err block =>
          if block_from_daemon_unavailable (source block) then
            if negb (ctx_native_backstop ctx) && negb log_mode
            then deny_for_missing_backstop home ctx (Some segs) (source block)
            else defer_command home to_string ctx (Some segs) (source block)
          else block_command home ctx segs block
      end) (fun _ _ => True).
Proof using Type.
  clear agent_by_id parent_id.
  destruct r as [src|block].
  - destruct flag; eapply wp_mono; [by apply wp_emit_native_ask|done|by apply wp_allow_command|done].
  - destruct (block_from_daemon_unavailable _).
    + destruct (_ && _); eapply wp_mono;
        [by apply wp_deny_for_missing_backstop|done|by apply wp_defer_command|done].
    + eapply wp_mono; [by apply wp_block_command|done].
Qed.

(** *** The invocation finishes *)

Lemma audit_finishes ctx segs decision source prompt :
  finishes (audit home ctx segs decision source prompt).
Proof using Type.
  clear agent_by_id parent_id to_string digest. unfold audit, audit_log_hook. finishes_all.
Qed.

Lemma audit_inv_finishes i action detail decision source prompt :
  finishes (audit_inv home i action detail decision source prompt).
Proof using Type.
  clear agent_by_id parent_id to_string digest. unfold audit_inv, audit_log_hook. finishes_all.
Qed.

Lemma emit_allow_finishes response : finishes (emit_allow to_string response).
Proof using Type. clear agent_by_id home parent_id digest. unfold emit_allow. finishes_all. Qed.

Lemma preview_finishes action detail cwd seed_pid agent :
  finishes (request_hook_permission_preview "kyris-hook" action detail cwd seed_pid agent).
Proof using Type.
  clear agent_by_id home parent_id to_string digest.
  unfold request_hook_permission_preview, build_hook_permission_request. finishes_all.
Qed.

Lemma run_batches_finishes ctx seed_pid group batches flag src :
  finishes (run_batches agent_by_id home parent_id ctx seed_pid group batches flag src).
Proof using Type.
  clear to_string digest.
  revert flag src. induction batches as [|b bs IH]; intros flag src; simpl; [finishes_steps|].
  apply finishes_bind; [|intros [[s|block] flag']; [apply IH|finishes_steps]].
  revert flag. generalize "agentpact_auto" as s.
  induction (segments b) as [|seg segs IHs]; intros s flag; simpl; [finishes_steps|].
  apply finishes_bind.
  { unfold classify_segment, request_hook_permission, build_hook_permission_request. finishes_all. }
  intros [|id token always detail|reason|reason]; [apply IHs| |finishes_steps..].
  apply finishes_bind; [|intros [[src'|code src' reason] flag']; [apply IHs|finishes_steps]].
  unfold prompt_segment, poll_segment, deny_ask_immediately. finishes_all.
Qed.

Lemma drive_batches_finishes ctx seed_pid batches log_mode group_id :
  finishes (drive_batches agent_by_id home parent_id to_string digest ctx seed_pid batches log_mode
    group_id).
Proof using Type.
  unfold drive_batches. apply finishes_bind; [apply run_batches_finishes|]. intros r.
  pose proof (audit_finishes ctx). pose proof emit_allow_finishes.
  unfold send_command_commit, emit_native_ask, allow_command, deny_for_missing_backstop,
    defer_command, block_command, record_execution_live_evidence, record_approval, emit_deny.
  finishes_all.
Qed.

Lemma gate_finishes ctx seed_pid : finishes (gate ctx seed_pid).
Proof using Type.
  pose proof (audit_finishes ctx). pose proof emit_allow_finishes.
  pose proof preview_finishes. pose proof (drive_batches_finishes ctx seed_pid).
  unfold gate, drive_apply_patch, dispatch_preview_outcome, drive_per_segment, new_command_group,
    deny_for_missing_backstop, defer_command, emit_deny.
  finishes_all.
Qed.

Lemma permission_request_finishes i p input seed_pid :
  finishes (run_permission_request agent_by_id home to_string digest i p input seed_pid).
Proof using Type.
  clear parent_id. pose proof (audit_inv_finishes i).
  assert (forall cwd seed action detail requests,
    finishes (previews_allow agent_by_id home i cwd seed action detail requests)) as Hpre.
  { intros cwd seed action detail requests. induction requests as [|[a d] requests IH]; simpl;
      [finishes_steps|]. apply finishes_bind; [apply preview_finishes|]. intros r. unfold abstain.
    finishes_all. }
  unfold run_permission_request, abstain, consume_approval. finishes_all.
Qed.

Lemma run_check_finishes agent hook_id log_mode daemon_state payload seed_pid :
  finishes (run_check agent_by_id home parent_id to_string digest agent hook_id log_mode
    daemon_state payload seed_pid).
Proof using Type.
  pose proof audit_inv_finishes. pose proof emit_allow_finishes.
  pose proof permission_request_finishes.
  unfold run_check. finishes_steps. case_match; [|unfold emit_deny; finishes_all].
  finishes_steps.
  - case_match; finishes_all.
  - destruct (map_payload _ _ _) as [action detail]. apply finishes_bind.
    + unfold handle_non_governed, emit_deny. finishes_all.
    + intros _. apply (gate_finishes (check_ctx agent_by_id _ _ _ _ _ _ _ _ _)).
Qed.

(** ** Properties *)

(** C1. The gate fails closed where nothing stands behind it.  A governed call
    ends with exit code 0 or 2; code 2 tells the agent why and prints no
    response.  For an agent without native permission backstop, outside log mode
    and outside native-prompt mode, code 0 means that agentpactd answered the
    call's preview with a log-mode allow, or that each segment (of the split the
    preview gave, of the patch, or the whole command) was answered PACT_OK by a
    real request, or PACT_ASK and then approved at kyrisd.  A preview may give an
    empty split, which has no segment to clear. *)
Theorem hook_check_fails_closed agent hook_id log_mode daemon_state payload seed_pid :
  let input := default JNull (ok (from_slice payload)) in
  let protocol := agent_by_id agent ≫= hook_protocol in
  check_protocol_compatibility_at daemon_state = Ok tt ->
  governed protocol input -> ~ consultation protocol input ->
  wp (run_check agent_by_id home parent_id to_string digest agent hook_id log_mode daemon_state
        payload seed_pid)
    (fun l o => exists conn started_at,
       fails_closed (call_ctx conn started_at agent hook_id log_mode input) l o).
Proof using Type.
  intros input protocol Hu Hg Hc. eapply wp_run_check_governed; [exact Hu|done|done|].
  intros conn t. eapply wp_mono; [apply wp_gate|]. intros l o H. exists conn, t.
  by apply fails_closed_cons.
Qed.

(** C2. The outcome of the walk over the batches decides the answer: exit code 0
    only when every segment was cleared; or, in native mode and saying nothing but the
    agent's own ask, when every segment was cleared or asked about by agentpactd; or when
    the call is spooled as a fail-open, for a segment whose request and three retries at
    agentpactd all failed, or whose dialog kyrisd would not put up (and then the agent has a
    backstop or the mode is log).  Code 2 goes with a reason; stdout is written only outside
    log mode, with exit code 0, never on a fail-open. *)
Theorem drive_batches_answers ctx seed_pid batches log_mode group_id :
  wp (drive_batches agent_by_id home parent_id to_string digest ctx seed_pid batches log_mode
        group_id)
    (ends ctx log_mode (all_cleared batches) (all_cleared_or_left ctx batches) (some_unheard batches)).
Proof using Type. apply wp_drive_batches. Qed.

(** C3. The native-approval consultation only ever abstains or vouches: exit code
    0, no deny, and an allow body only for a governed tool, outside log mode, when
    agentpactd previewed an enforce-mode allow for every file of the patch (or for
    the command), or a fresh approval note of this very call was there and has
    been consumed. *)
Theorem consultation_vouches_or_abstains i input seed_pid :
  wp (run_permission_request agent_by_id home to_string digest i
        (agent_by_id (inv_agent i) ≫= hook_protocol) input seed_pid)
    (consulted i input).
Proof using Type.
  clear parent_id.
  assert (forall l, Forall quiet l -> consulted i input l (Exited 0)) as Habs.
  { intros l [Hd Hs]%quiet_says_nothing. split_and!; [done|done|]. by intros line ?%Hs. }
  unfold run_permission_request.
  destruct (agent_by_id (inv_agent i) ≫= hook_protocol) as [p|] eqn:Hp; [|by apply wp_abstain].
  destruct (permission_request_allow p) as [body|] eqn:Hbody; [|by apply wp_abstain].
  destruct (map_payload to_string (Some p) input) as [action detail] eqn:Hmap.
  destruct (negb _) eqn:Hgov; [by apply wp_abstain|]. apply negb_false_iff in Hgov.
  destruct (inv_log_mode i) eqn:Hlog; [by apply wp_abstain|].
  destruct (consultation_requests _ _ _) as [|rq rqs] eqn:Hreqs; [by apply wp_abstain|].
  apply wp_bind. eapply wp_mono; [apply wp_previews_allow|]. intros l1 o (Hq1 & Hu & Hx & Ht).
  destruct o as [all_allow|c|]; [|rewrite (Hx c eq_refl); by apply Habs|done].
  apply wp_bind. eapply wp_mono; [apply wp_vouch_source|].
  intros l2 o (Hq2 & [->|(s & -> & Hs)]); [apply Habs; by apply Forall_app|].
  apply wp_bind, wp_audit_inv. intros l3 Hq3%logged_quiet. wp_steps.
  assert (Forall quiet (app l1 (app l2 l3))) as Hq by (by rewrite !Forall_app).
  rewrite (app_assoc l2), (app_assoc l1). destruct (quiet_then_stdout _ (to_string body) Hq) as [Hd He].
  split_and!; [done|done|]. intros line ->%He. exists body. split; [done|]. exists p.
  split_and!; [done|done| |done|].
  - unfold governed. by destruct (as_str _).
  - rewrite Hmap. cbv beta iota zeta. rewrite Hreqs. split; [done|]. rewrite <- !app_assoc.
    destruct Hs as [->|Hs]; [left|right; by apply noted_mono].
    intros a d Hin. apply (previewed_allow_mono _ _ _ [] l1). by apply Ht.
Qed.

(** C4. The hook always answers, provided it is not left waiting: in every world in which
    each request to kyrisd comes to an end, in an answer or an error, the process exits,
    whatever the payload, the agent and the answers of the daemons.  (The proviso is needed:
    the requests to kyrisd have no timeout, and [silent_kyrisd_hangs] is a run without
    end.) *)
Theorem hook_check_answers agent hook_id log_mode daemon_state payload seed_pid w :
  responsive w ->
  exists code, (run_check agent_by_id home parent_id to_string digest agent hook_id log_mode
    daemon_state payload seed_pid w).1 = Exited code.
Proof using Type.
  intros Hw.
  destruct (run_check_finishes agent hook_id log_mode daemon_state payload seed_pid w Hw) as [Hu _].
  destruct (run_check _ _ _ _ _ _ _ _ _ _ _ w).1 as [[]|code|]; [by exists code|done].
Qed.

(** A tool outside the mapping table is never sent to agentpactd: it is denied
    exactly when it is neither agent-owned nor passed through, the agent has no
    native backstop, the user is not in log mode and no kyris-routed MCP server
    owns the tool; the agent's native allow is printed only for a pass-through
    tool outside log mode. *)
Theorem ungoverned_tool_answers i p tool action detail :
  is_governable p tool = false ->
  wp (handle_non_governed agent_by_id home to_string i p tool action detail) (fun l o =>
    let refused := tool ∉ agent_owned_tools p /\ tool ∉ pass_through_tools p /\
      native_backstop (runtime p) = false /\ inv_log_mode i = false /\
      is_kyris_routed_mcp_tool agent_by_id p (inv_agent i) tool = false in
    (forall q r, Exchange q r ∉ l) /\
    ((refused /\ o = Exited 2 /\ Denied (unmapped_reason (inv_agent i) tool) ∈ l) \/
     (~ refused /\ o = Exited 0 /\ forall reason, Denied reason ∉ l)) /\
    (forall line, Stdout line ∈ l -> tool ∈ pass_through_tools p /\ inv_log_mode i = false /\
       exists body, allow_response p = AllowJson body /\ line = to_string body)).
Proof using Type.
  clear parent_id digest. intros Hg. unfold handle_non_governed. rewrite Hg.
  case_bool_decide as Ho.
  { eapply wp_mono; [apply wp_audit_allow|]. intros l o (-> & He & Hd & Hs).
    split_and!; [done|right; naive_solver|]. by intros line (body & ? & _)%Hs. }
  case_bool_decide as Hp; cbn [negb andb].
  { eapply wp_mono; [apply wp_audit_allow|]. intros l o (-> & He & Hd & Hs).
    split_and!; [done|right; naive_solver|]. intros line (body & Hb & ->)%Hs.
    unfold non_governed_response, effective_allow_response in Hb. destruct (inv_log_mode i); eauto; done. }
  destruct (negb (native_backstop (runtime p)) && negb (inv_log_mode i)) eqn:Hb; cbn [negb andb].
  - apply andb_true_iff in Hb as [Hb%negb_true_iff Hl%negb_true_iff].
    destruct (is_kyris_routed_mcp_tool _ _ _ _) eqn:Hr.
    + eapply wp_mono; [apply wp_audit_allow|]. intros l o (-> & He & Hd & Hs).
      split_and!; [done|right; naive_solver|]. by intros line (body & ? & _)%Hs.
    + eapply wp_mono; [apply wp_audit_deny|]. intros l o (-> & He & Hd & Hs).
      split_and!; [done|by left; split_and!|]. by intros line ?%Hs.
  - eapply wp_mono; [apply wp_audit_allow|]. intros l o (-> & He & Hd & Hs).
    split_and!; [done|right|by intros line (body & ? & _)%Hs].
    split_and!; [|done|done]. intros (_ & _ & Hb1 & Hb2 & _). by rewrite Hb1, Hb2 in Hb.
Qed.

(** A preview whose split is the empty list lets the call through unasked,
    whatever its verdict was short of a deny: no real request is made, and
    outside log mode the agent's native allow is printed. *)
Theorem empty_split_allows ctx seed_pid decision :
  (forall code reason hint, decision <> Deny code reason hint) ->
  wp (dispatch_preview_outcome agent_by_id home parent_id to_string digest ctx seed_pid
        (Ok (decision, Some [])))
    (fun l o => o = Exited 0 /\ (forall q r, Exchange q r ∉ l) /\
       (is_log_allow decision = false -> forall body,
          native_allow_response ctx = AllowJson body -> Stdout (to_string body) ∈ l)).
Proof using Type.
  intros Hd. assert (dispatch_preview_outcome agent_by_id home parent_id to_string digest ctx
    seed_pid (Ok (decision, Some [])) =
    drive_per_segment agent_by_id home parent_id to_string digest ctx seed_pid (Some [])
      (is_log_allow decision)) as ->
    by (destruct decision; [done|by edestruct Hd|done]).
  unfold drive_per_segment, drive_batches. simpl. wp_steps. clear agent_by_id parent_id Hd.
  unfold allow_command, record_execution_live_evidence, audit, audit_log_hook, emit_allow.
  simpl. unfold effective_allow_response.
  destruct (String.eqb (ctx_agent ctx) "shell"), (audit_conn ctx), (is_log_allow decision),
    (native_allow_response ctx); wp_steps; set_solver.
Qed.

(** A patch without a file marker, from an agent without backstop and outside
    log mode: the call is denied, and the reason says that agentpactd is
    unreachable, though nothing was asked of agentpactd. *)
Theorem unparseable_patch_misreported ctx seed_pid :
  parse_apply_patch_paths (ctx_detail ctx) = mkPatchPaths [] [] ->
  ctx_native_backstop ctx = false -> log_mode_fallback ctx = false ->
  wp (drive_apply_patch agent_by_id home parent_id to_string digest ctx seed_pid)
    (fun l o => o = Exited 2 /\ (forall q r, Exchange q r ∉ l) /\
       exists reason, Denied reason ∈ l /\
         str_starts_with "agentpactd (the policy daemon) is unreachable" reason = true).
Proof using Type.
  intros Hp Hb Hl. unfold drive_apply_patch. rewrite Hp, Hb, Hl. cbn [patch_batches writes deletes negb andb app].
  unfold deny_for_missing_backstop, emit_deny, audit, audit_log_hook.
  clear agent_by_id parent_id digest to_string.
  destruct (audit_conn ctx); wp_steps; (split_and!; [done|set_solver|]); eexists;
    (split; [rewrite !elem_of_cons; eauto|reflexivity]).
Qed.

(** An apply_patch envelope is governed by its lines alone: the files it
    writes are those behind an Add, Update or Move marker at the start of a line,
    the files it deletes those behind a Delete marker, in order, trimmed. *)
Theorem patch_paths_by_line patch :
  parse_apply_patch_paths patch =
    mkPatchPaths (paths_of false (omap line_path (lines (lit patch))))
      (paths_of true (omap line_path (lines (lit patch)))).
Proof using Type. clear. unfold parse_apply_patch_paths. by rewrite parse_patch_foldl. Qed.

(** During an outage of agentpactd a command can be denied and yet spooled as
    run: without a backstop and outside log mode, when every request fails, the
    agent is told no (exit code 2) after the command has been put in the spool of
    fail-open events, whose records say [decision: auto]. *)
Theorem outage_denied_yet_spooled ctx seed_pid action seg :
  oversized_execute_deny action seg = None -> ctx_native_backstop ctx = false ->
  wp (drive_batches agent_by_id home parent_id to_string digest ctx seed_pid
        [mkBatch action [seg]] false None)
    (fun l o => (forall q r, Exchange q r ∈ l -> failing r) ->
       o = Exited 2 /\ (exists reason, Denied reason ∈ l) /\
       FailOpen (ctx_agent ctx) action seg "shell" (ctx_cwd ctx) ∈ l).
Proof using Type.
  intros Hover Hb. apply wp_bind. eapply wp_mono; [by apply wp_outage|].
  intros l1 o Ho. destruct o as [[r flag]|c|]; [|by destruct Ho as [(q & r & Hin & Hr)|(? & [=] & _)];
    intros Hall; destruct Hr; eapply Hall..].
  apply wp_bind, wp_ret. destruct Ho as [(q & r0 & Hin & Hr)|(reason & [= -> ->] & Hf)].
  - eapply wp_mono; [apply wp_answer|]. intros l2 o _ Hall. destruct Hr. eapply Hall.
    apply elem_of_app. by left.
  - unfold block_from_daemon_unavailable. simpl. rewrite Hb. simpl.
    eapply wp_mono; [apply wp_deny_for_missing_backstop|]. intros l2 o (-> & _ & reason' & Hd) _.
    split_and!; [done|exists reason'|]; apply elem_of_app; auto.
Qed.

End drive.

(** ** Witnesses *)

(** An agent without backstop that maps Bash to execute. *)
Definition sample_protocol : HookProtocol :=
  mkProtocol "tool_name" ["tool_input"] [mkToolMapping "Bash" "execute" (Some "command")]
    ["todo"] [] "execute" (AllowJson (JString "allow")) (mkRuntime 60 FailOpenPosture false true)
    (Some (JString "approve")) None None.

Definition sample_agents (agent : string) : option agent_descriptor :=
  if String.eqb agent "demo"
  then Some (mkAgent "demo" (Some sample_protocol) None None [] [])
  else None.

Definition sample_print (j : json) : string := match j with JString s => s | _ => "{}" end.

Definition sample_ctx (detail : string) : PermissionCtx :=
  check_ctx sample_agents None "h1" 0 "demo" (Some sample_protocol) "execute" detail (Some "/w") false.

Definition sample_check (payload : string) : io never :=
  run_check (lib := sample_libraries) sample_agents None 7 sample_print id "demo" "h1" false None
    (lit payload) None.

Definition quiet_world (answers : list (Z * socket_result)) (statuses : list (Z * http_result)) : world :=
  mkWorld answers statuses [] None ∅ 0%Z 0 [].

Definition reply (s : string) : Z * socket_result := (1%Z, Replied (lit s ++ [newline])%list).

(** Allowed twice, by the preview and for real; denied; and with no daemon. *)
Example check_example :
  (sample_check "payload" (quiet_world [reply "ok"; reply "ok"] [])).1 = Exited 0 /\
  (sample_check "payload" (quiet_world [reply "ok"; reply "denied"] [])).1 = Exited 2 /\
  (sample_check "payload" (quiet_world [reply "no-segments"] [])).1 = Exited 0 /\
  (sample_check "consultation" (quiet_world [reply "ok"] [])).1 = Exited 0 /\
  (sample_check "payload" (quiet_world [] [])).1 = Exited 2.
Proof. vm_compute. by split_and!. Qed.

Lemma hook_check_fails_closed_witness :
  let input := default JNull (ok (sample_from_slice (lit "payload"))) in
  map_payload sample_print (Some sample_protocol) input = ("execute", "ls") /\
  wp (sample_check "payload") (fun l o => exists conn started_at,
    fails_closed (lib := sample_libraries)
      (call_ctx sample_agents sample_print conn started_at "demo" "h1" false input) l o).
Proof.
  split; [reflexivity|].
  apply (hook_check_fails_closed (lib := sample_libraries) sample_agents None 7 sample_print id
    "demo" "h1" false None (lit "payload") None); [reflexivity|vm_compute; reflexivity|].
  intros [_ H]. vm_compute in H. discriminate H.
Defined.

Lemma hook_check_answers_witness :
  exists code, (sample_check "payload" (quiet_world [reply "ok"; reply "ask"] [])).1 = Exited code.
Proof.
  apply (hook_check_answers (lib := sample_libraries) sample_agents None 7 sample_print id "demo"
    "h1" false None (lit "payload") None).
  split_and!; repeat constructor; simpl; lia.
Defined.

(** kyrisd takes the hold and never answers. *)
Example silent_kyrisd_hangs :
  (sample_check "payload" (mkWorld [reply "ok"; reply "ask"] [(1%Z, HttpSilent)] []
     (Some sample_connection) ∅ 0%Z 0 [])).1 = Unfinished.
Proof. vm_compute. reflexivity. Qed.

Lemma ungoverned_tool_answers_witness :
  wp (handle_non_governed sample_agents None sample_print
        (mkInvocation "demo" None "h1" 0 false) sample_protocol "browse" "execute" "")
    (fun l o => o = Exited 2).
Proof.
  eapply wp_mono; [apply ungoverned_tool_answers; reflexivity|].
  intros l o (_ & [(_ & Ho & _)|(Hn & _)] & _); [exact Ho|]. destruct Hn.
  split_and!; [set_solver|set_solver|reflexivity..].
Defined.

Lemma empty_split_allows_witness :
  wp (dispatch_preview_outcome (lib := sample_libraries) sample_agents None 7 sample_print id
        (sample_ctx "rm x") None (Ok (Ask "a1" "" false None, Some [])))
    (fun l o => o = Exited 0 /\ Stdout "allow" ∈ l).
Proof.
  eapply wp_mono; [apply empty_split_allows; intros; discriminate|].
  intros l o (Ho & _ & Hs). split; [exact Ho|]. exact (Hs eq_refl (JString "allow") eq_refl).
Defined.

Lemma unparseable_patch_misreported_witness :
  wp (drive_apply_patch (lib := sample_libraries) sample_agents None 7 sample_print id
        (sample_ctx "no markers") None)
    (fun l o => o = Exited 2).
Proof.
  eapply wp_mono; [apply unparseable_patch_misreported; reflexivity|]. intros l o (Ho & _). exact Ho.
Defined.

Lemma outage_denied_yet_spooled_witness :
  let m := drive_batches (lib := sample_libraries) sample_agents None 7 sample_print id
    (sample_ctx "ls") None [mkBatch "execute" ["ls"]] false None in
  let w := quiet_world [(1%Z, ConnectFailed)] [] in
  (m w).1 = Exited 2 /\ wp m (fun l o => (forall q r, Exchange q r ∈ l -> failing (lib := sample_libraries) r) ->
    FailOpen "demo" "execute" "ls" "shell" (Some "/w") ∈ l).
Proof.
  split; [vm_compute; reflexivity|].
  eapply wp_mono; [apply outage_denied_yet_spooled; reflexivity|].
  intros l o H Hf. exact (proj2 (proj2 (H Hf))).
Defined.


End HookGate.
