(* ===== verification/ShellGate.v ===== *)
(** * The shell gate: [kyris hook resolve-shell]

    cli/src/hook_cmd/resolve_shell.rs: the line a shell is about to run is split
    by agentpactd, each segment put to it by a real request, and an ask answered
    on the terminal, by kyrisd's prompt, or by nobody when an agent's own hook is
    the approval surface.  The walk, the classification and the popup are those of
    [HookGate].  The environment, and whether stderr is a terminal and /dev/tty
    opens, are arguments; what is typed there is the script [tty] of the world. *)

From S2P Require Import Prelude Text Json World AgentPact HoldPoll Hook HookGate.

Module ShellGate.
Import AgentPact HoldPoll Hook HookGate.
Local Open Scope string_scope.

Definition inside_governed_agent (env : string -> option string) : bool :=
  bool_decide (is_Some (env "KYRIS_GOVERNED_SUBPROCESS")) ||
  bool_decide (is_Some (env "CLAUDECODE")) ||
  bool_decide (is_Some (env "GEMINI_CLI")) ||
  bool_decide (env "__KYRIS_GUARD_RESULT" = Some "1").

Definition open_tty (env : string -> option string) (stderr_is_terminal dev_tty : bool) : bool :=
  negb (inside_governed_agent env) && stderr_is_terminal && dev_tty.

(** The line with its newline; nothing on EOF before any input or on an error. *)
Definition read_tty_line (prompt : string) : io (option bytes) :=
  r ← ask_tty prompt;
  mret match r with
       | TtyLine [] | TtyError | TtyUnavailable | TtySilent => None
       | TtyLine line => Some line
       end.

(** Bytes that are not UTF-8 become a character that no choice contains. *)
Definition response_of_answer (allow_always : bool) (line : bytes) : ApprovalResponse * string :=
  let answer := trim line in
  if negb (valid_utf8 line) then (DeniedResponse, "user_denied")
  else if bool_decide (answer = lit "y" \/ answer = lit "Y" \/ answer = lit "yes")
  then (Approved, "user_approved")
  else if bool_decide (answer = lit "session") then
    (if allow_always then (Always, "user_always") else (Approved, "user_approved"))
  else (DeniedResponse, "user_denied").

Definition outcome_label (response : ApprovalResponse) : string :=
  match response with Approved => "approved" | Always => "always" | DeniedResponse => "denied" end.

Definition tty_choices (allow_always : bool) : string :=
  if allow_always then "[y/n/session]" else "[y/n]".

Definition escape : string := String "027" EmptyString.

Definition tty_prompt (seg : string) (allow_always : bool) : string :=
  escape ++ "[33m[kyris] allow?" ++ escape ++ "[0m " ++ seg ++ " " ++ tty_choices allow_always ++ " ".

Section shell.
Context {lib : Libraries}.
Context (agent_by_id : string -> option agent_descriptor).
Context (home : option string) (parent_id : N).
Context (env : string -> option string) (stderr_is_terminal dev_tty : bool).

Definition tty_prompt_segment (approval_id approval_token seg : string) (allow_always : bool)
    : io PopupResult :=
  emit (PromptLog approval_id "tty" "displayed" None);;
  answer ← read_tty_line (tty_prompt seg allow_always);
  match answer with
  | None =>
      emit (PromptLog approval_id "tty" "read_failed" (Some "tty_error"));;
      deny_ask_immediately approval_token;;
      mret (PopupBlocked 2 "tty_error" "could not read approval from /dev/tty")
  | Some answer =>
      let '(response, source) := response_of_answer allow_always answer in
      emit (PromptLog approval_id "tty" "decision_submitted" (Some (outcome_label response)));;
      r ← send_permission_response "kyris-hook-tty" approval_token response;
      mret match r with
           | Ok _ =>
               if decide (response = DeniedResponse)
               then PopupBlocked 2 source "denied by developer"
               else PopupApproved source
           | Err reason => PopupBlocked 2 "respond_failed" reason
           end
  end.

(** The closure [prompt]; it captures no mutable state. *)
Definition prompt (s : unit) (approval_id approval_token seg : string) (allow_always : bool)
    (detail : option string) : io (PopupResult * unit) :=
  if inside_governed_agent env then mret (PopupApproved "host_agent", tt)
  else
    p ← (if open_tty env stderr_is_terminal dev_tty
         then tty_prompt_segment approval_id approval_token seg allow_always
         else poll_segment home "shell" "shell" approval_id approval_token seg allow_always detail
                NATIVE_HOOK_POLL_TIMEOUT);
    mret (p, tt).

Definition shell_ctx (cmd : string) (cwd : option string) (started_at : Z) : PermissionCtx :=
  mkCtx None "" "shell" "execute" cmd cwd EmptyStdout started_at true false
    NATIVE_HOOK_POLL_TIMEOUT false false KyrisPopup None.

Definition run_resolve_shell (cmd : string) (cwd : option string) : io never :=
  preview ← request_hook_permission_preview "kyris-hook" "execute" cmd cwd None None;
  match preview with
  | Err _ =>
      emit (FailOpen "shell" "execute" cmd "shell" cwd);;
      exit 0
  | Ok (_, segments) =>
      let segs := default [cmd] segments in
      command_group_id ← (if (2 <=? length segs)%nat
                          then g ← new_command_group; mret (Some g) else mret None);
      let command_group := (fun group => (group, cmd)) <$> command_group_id in
      t ← now;
      let ctx := shell_ctx cmd cwd t in
      r ← run_segments
        (fun seg => classify_segment agent_by_id parent_id ctx None "execute" seg command_group)
        prompt tt "agentpact_auto" segs;
      match command_group_id with
      | Some group => send_command_commit group
      | None => mret tt
      end;;
      match r with
      | (Ok _, _) => exit 0
      | (Err block, _) =>
          if block_from_daemon_unavailable (source block) then
            emit (FailOpen "shell" "execute" cmd "shell" cwd);;
            exit 0
          else
            emit_deny (block_reason block);;
            exit (exit_code block)
      end
  end.

(** ** What lets a line run *)















(** ** Properties *)


End shell.

(** ** Witnesses *)

Definition bare_env : string -> option string := fun _ => None.
Definition agent_env : string -> option string :=
  fun name => if String.eqb name "CLAUDECODE" then Some "1" else None.

Definition sample_shell (env : string -> option string) (cmd : string) : io never :=
  run_resolve_shell (lib := sample_libraries) sample_agents None 7 env true true cmd (Some "/w").

Definition tty_world (answers : list (Z * socket_result)) (line : string) : world :=
  mkWorld answers [] [(5%Z, TtyLine (lit line ++ [newline])%list)] None ∅ 0%Z 0 [].

(** Asked at the terminal; denied there; asked in an agent; and with no daemon. *)
Example shell_example :
  (sample_shell bare_env "ls" (tty_world [reply "ask"; reply "ask"; reply "ok"] "y")).1 = Exited 0 /\
  (sample_shell bare_env "ls" (tty_world [reply "ask"; reply "ask"; reply "ok"] "n")).1 = Exited 2 /\
  (sample_shell bare_env "ls" (tty_world [reply "ask"; reply "ask"; reply "denied"] "y")).1 = Exited 2 /\
  (sample_shell agent_env "ls" (tty_world [reply "ask"; reply "ask"] "n")).1 = Exited 0 /\
  (sample_shell bare_env "ls" (tty_world [] "n")).1 = Exited 0.
Proof. vm_compute. by split_and!. Qed.


End ShellGate.
