(* ===== verification/Helper.v ===== *)
(** * The shell hook's helper

    [hooks/helper/src/main.rs] and [ppid_chain.rs]: the small binary
    [kyris-hook] a shell runs before each command.  It asks agentpactd once and
    tells the shell by its exit code what to do; it has no retry, no dialog and no
    log daemon, only the fail-open spool.

    The log file [kyris.log] is a diagnostic and not modelled; the environment, the
    file [daemon.state] and the process table are arguments. *)

From S2P Require Import Prelude Text Json World AgentPact.

Module Helper.
Import AgentPact.
Local Open Scope string_scope.

(** ** Ancestor processes *)

Definition MAX_CHAIN_LEN : nat := 32.

Section chain.
Context (direct_parent : option N) (parent_of : N -> option N).

(** The loop of [current_chain]; the fuel bounds the turns of the loop. *)
Fixpoint walk (fuel : nat) (cur : option N) (chain : list N) : option (list N) :=
  match cur with
  | None => Some chain
  | Some pid =>
      if (pid <=? 1)%N || bool_decide (MAX_CHAIN_LEN <= length chain) then Some chain
      else if bool_decide (pid ∈ chain) then Some chain
      else match fuel with
           | O => None
           | S fuel => walk fuel (parent_of pid) (chain ++ [pid])
           end
  end.

Definition current_chain : option (list N) := walk MAX_CHAIN_LEN direct_parent [].

(** [a, b, c]: each one the parent of the one before. *)
Fixpoint ancestry (cur : option N) (chain : list N) : Prop :=
  match chain with
  | [] => True
  | pid :: chain => cur = Some pid /\ ancestry (parent_of pid) chain
  end.

(** Where a chain leads. *)
Definition after (cur : option N) (chain : list N) : option N :=
  foldl (fun _ pid => parent_of pid) cur chain.

Lemma ancestry_snoc cur chain pid :
  ancestry cur (chain ++ [pid]) <-> ancestry cur chain /\ after cur chain = Some pid.
Proof using Type.
  revert cur. induction chain as [|p chain IH]; intros cur; simpl; [tauto|].
  rewrite IH. tauto.
Qed.

Lemma after_snoc cur chain pid : after cur (chain ++ [pid]) = parent_of pid.
Proof using Type. unfold after. by rewrite foldl_app. Qed.

Lemma walk_ends fuel cur chain :
  MAX_CHAIN_LEN <= length chain + fuel -> length chain <= MAX_CHAIN_LEN ->
  NoDup chain -> Forall (fun pid => (1 < pid)%N) chain -> ancestry direct_parent chain ->
  after direct_parent chain = cur ->
  exists result, walk fuel cur chain = Some result /\ length result <= MAX_CHAIN_LEN /\
    NoDup result /\ Forall (fun pid => (1 < pid)%N) result /\ ancestry direct_parent result /\
    (length result = MAX_CHAIN_LEN \/
     match after direct_parent result with
     | None => True
     | Some pid => (pid <= 1)%N \/ pid ∈ result
     end).
Proof using Type.
  revert cur chain. induction fuel as [|fuel IH]; intros cur chain Hf Hl Hnd Hp Ha Hcur;
    destruct cur as [pid|]; simpl; try (exists chain; split_and!; try done; right; by rewrite Hcur).
  - destruct (N.leb_spec pid 1); simpl;
      [exists chain; split_and!; try done; right; rewrite Hcur; by left|].
    rewrite bool_decide_eq_true_2 by lia. exists chain. split_and!; try done. left. lia.
  - destruct (N.leb_spec pid 1); simpl;
      [exists chain; split_and!; try done; right; rewrite Hcur; by left|].
    case_bool_decide; [exists chain; split_and!; try done; left; lia|].
    case_bool_decide as Hin; [exists chain; split_and!; try done; right; rewrite Hcur; by right|].
    apply IH.
    + rewrite length_app. simpl. lia.
    + rewrite length_app. simpl. lia.
    + apply NoDup_app. split_and!; [done|set_solver|apply NoDup_singleton].
    + apply Forall_app. by repeat constructor.
    + by apply ancestry_snoc.
    + apply after_snoc.
Qed.

(** C10. The walk up the ancestors ends, whatever the process table holds, loops in
    it included: the chain has at most 32 processes, all different, none of them
    init, each the parent of the one before, the first our own parent; and it
    stops early only where the table has no parent, at init or at a repetition. *)
Theorem current_chain_bounded :
  exists chain, current_chain = Some chain /\ length chain <= MAX_CHAIN_LEN /\
    NoDup chain /\ Forall (fun pid => (1 < pid)%N) chain /\ ancestry direct_parent chain /\
    (length chain = MAX_CHAIN_LEN \/
     match after direct_parent chain with
     | None => True
     | Some pid => (pid <= 1)%N \/ pid ∈ chain
     end).
Proof using Type.
  apply walk_ends; [done|by apply Nat.le_0_l|constructor|constructor|done|done].
Qed.
End chain.

(** ** The date of a log line *)

Section calendar.
Local Open Scope Z_scope.

(** On [u64]: nothing here is negative, and the sum that [format_utc_timestamp]
    passes stays far below 2^64. *)
Definition days_to_ymd (day_count : Z) : Z * Z * Z :=
  let era := day_count / 146097 in
  let doe := day_count - era * 146097 in
  let yoe := (doe - doe / 1460 + doe / 36524 - doe / 146096) / 365 in
  let y := yoe + era * 400 in
  let doy := doe - (365 * yoe + yoe / 4 - yoe / 100) in
  let mp := (5 * doy + 2) / 153 in
  let d := doy - (153 * mp + 2) / 5 + 1 in
  let m := if mp <? 10 then mp + 3 else mp - 9 in
  let y := if m <=? 2 then y + 1 else y in
  (y, m, d).

(** [{:0n}]. *)
Definition padded (n : nat) (z : Z) : string :=
  let s := pretty z in
  String.append (String.concat "" (replicate (n - String.length s) "0"%string)) s.

Definition format_utc_timestamp (epoch_secs : Z) : string :=
  let days := epoch_secs / 86400 in
  let day_secs := epoch_secs mod 86400 in
  let h := day_secs / 3600 in
  let m := (day_secs mod 3600) / 60 in
  let s := day_secs mod 60 in
  let '(year, month, day) := days_to_ymd (days + 719468) in
  (padded 4 year ++ "-" ++ padded 2 month ++ "-" ++ padded 2 day
   ++ "T" ++ padded 2 h ++ ":" ++ padded 2 m ++ ":" ++ padded 2 s ++ "Z")%string.

(** The reference: the Gregorian calendar, a day at a time from 1 January 1970. *)
Definition leap (y : Z) : bool := (y mod 4 =? 0) && negb (y mod 100 =? 0) || (y mod 400 =? 0).

Definition month_length (is_leap : bool) (m : Z) : Z :=
  if m =? 2 then (if is_leap then 29 else 28)
  else if (m =? 4) || (m =? 6) || (m =? 9) || (m =? 11) then 30 else 31.

(** The years to add, the month and the day of the next day. *)
Definition next_md (is_leap : bool) (m d : Z) : Z * Z * Z :=
  if d <? month_length is_leap m then (0, m, d + 1)
  else if m <? 12 then (0, m + 1, 1) else (1, 1, 1).

Definition next_day (date : Z * Z * Z) : Z * Z * Z :=
  let '(y, m, d) := date in
  let '(carry, m', d') := next_md (leap y) m d in (y + carry, m', d').

Definition nth_day (n : nat) : Z * Z * Z := Nat.iter n next_day (1970, 1, 1).

(** *** Years of an era and days of a year, which begins in March *)

Definition year_start (yoe : Z) : Z := 365 * yoe + yoe / 4 - yoe / 100.
Definition year_length (yoe : Z) : Z := if leap (yoe + 1) then 366 else 365.
Definition day_index (doe : Z) : Z := doe - doe / 1460 + doe / 36524 - doe / 146096.

Definition month_day (doy : Z) : Z * Z :=
  let mp := (5 * doy + 2) / 153 in
  (if mp <? 10 then mp + 3 else mp - 9, doy - (153 * mp + 2) / 5 + 1).

Definition civil (era yoe doy : Z) : Z * Z * Z :=
  let '(m, d) := month_day doy in
  ((if m <=? 2 then yoe + era * 400 + 1 else yoe + era * 400), m, d).

Definition year_check (yoe : Z) : bool :=
  (day_index (year_start yoe) / 365 =? yoe) &&
  (day_index (year_start yoe + year_length yoe - 1) / 365 =? yoe) &&
  ((if yoe <? 399 then year_start (yoe + 1) else 146097) =? year_start yoe + year_length yoe).

Lemma years_checked : forallb year_check (seqZ 0 400) = true.
Proof. vm_compute. reflexivity. Qed.

Definition day_check (doy : Z) : bool :=
  forallb (fun b : bool =>
    if doy + 1 <? (if b then 366 else 365) then
      let '(m, d) := month_day doy in
      let '(m', d') := month_day (doy + 1) in
      let '(carry, m1, d1) := next_md b m d in
      (carry =? (if m' <=? 2 then 1 else 0) - (if m <=? 2 then 1 else 0)) && (m1 =? m') && (d1 =? d')
    else true) [true; false].

Lemma days_checked : forallb day_check (seqZ 0 366) = true.
Proof. vm_compute. reflexivity. Qed.

Lemma forallb_seqZ (f : Z -> bool) n k :
  forallb f (seqZ 0 n) = true -> 0 <= k < n -> f k = true.
Proof.
  intros Hf Hk. rewrite forallb_forall in Hf. apply Hf, list_elem_of_In, elem_of_seqZ. lia.
Qed.

Lemma day_index_mono a b : 0 <= a <= b -> b < 146097 -> day_index a <= day_index b.
Proof.
  intros Ha Hb. unfold day_index.
  enough (forall n : nat, a + Z.of_nat n < 146097 ->
    a - a / 1460 + a / 36524 - a / 146096 <=
    (a + Z.of_nat n) - (a + Z.of_nat n) / 1460 + (a + Z.of_nat n) / 36524 - (a + Z.of_nat n) / 146096)
    as Hn.
  { specialize (Hn (Z.to_nat (b - a))). rewrite Z2Nat.id in Hn by lia.
    replace (a + (b - a)) with b in Hn by lia. by apply Hn. }
  induction n as [|n IH]; intros Hlt; [rewrite Z.add_0_r; lia|].
  etrans; [apply IH; lia|]. set (x := a + Z.of_nat n). replace (a + Z.of_nat (S n)) with (x + 1) by lia.
  assert (0 <= x) by lia. assert (x + 1 < 146097) by lia. clearbody x.
  Z.to_euclidean_division_equations. lia.
Qed.

Lemma year_facts yoe :
  0 <= yoe < 400 ->
  day_index (year_start yoe) / 365 = yoe /\
  day_index (year_start yoe + year_length yoe - 1) / 365 = yoe /\
  (if yoe <? 399 then year_start (yoe + 1) else 146097) = year_start yoe + year_length yoe.
Proof.
  intros Hy. pose proof (forallb_seqZ _ _ _ years_checked Hy) as Hc. unfold year_check in Hc.
  apply andb_true_iff in Hc as [Hc H3]. apply andb_true_iff in Hc as [H1 H2].
  apply Z.eqb_eq in H1, H2, H3. done.
Qed.

Lemma year_start_bounds yoe : 0 <= yoe < 400 -> 0 <= year_start yoe.
Proof. intros. unfold year_start. Z.to_euclidean_division_equations. lia. Qed.

Lemma year_end_bound yoe : 0 <= yoe < 400 -> year_start yoe + year_length yoe <= 146097.
Proof.
  intros Hy. destruct (year_facts yoe Hy) as (_ & _ & <-).
  destruct (Z.ltb_spec yoe 399); [|done]. unfold year_start. Z.to_euclidean_division_equations. lia.
Qed.

Lemma year_length_range yoe : 365 <= year_length yoe <= 366.
Proof. unfold year_length. destruct (leap _); lia. Qed.

(** The closed formula finds the era, the year and the day of the year. *)
Lemma days_to_ymd_civil era yoe doy :
  0 <= yoe < 400 -> 0 <= doy < year_length yoe ->
  days_to_ymd (146097 * era + year_start yoe + doy) = civil era yoe doy.
Proof.
  intros Hy Hd. pose proof (year_start_bounds yoe Hy). pose proof (year_end_bound yoe Hy).
  assert ((146097 * era + year_start yoe + doy) / 146097 = era) as He
    by (symmetry; apply (Z.div_unique _ _ _ (year_start yoe + doy)); lia).
  unfold days_to_ymd. rewrite He.
  replace (146097 * era + year_start yoe + doy - era * 146097) with (year_start yoe + doy) by lia.
  fold (day_index (year_start yoe + doy)).
  assert (day_index (year_start yoe + doy) / 365 = yoe) as ->.
  { destruct (year_facts yoe Hy) as (H1 & H2 & _). apply Z.le_antisymm.
    - rewrite <- H2 at 2. apply Z.div_le_mono; [done|]. apply day_index_mono; lia.
    - rewrite <- H1 at 1. apply Z.div_le_mono; [done|]. apply day_index_mono; lia. }
  fold (year_start yoe). unfold civil, month_day.
  replace (year_start yoe + doy - year_start yoe) with doy by lia. done.
Qed.

Lemma leap_shift y era : leap (y + era * 400) = leap y.
Proof.
  unfold leap. replace (y + era * 400) with (y + (era * 100) * 4) at 1 by lia.
  rewrite Z.mod_add by lia. replace (y + era * 400) with (y + (era * 4) * 100) at 1 by lia.
  rewrite Z.mod_add by lia. by rewrite Z.mod_add by lia.
Qed.

(** A year's length only matters in February. *)
Lemma next_md_leap b b' m d : m <> 2 -> next_md b m d = next_md b' m d.
Proof. intros Hm. unfold next_md, month_length. by rewrite (proj2 (Z.eqb_neq m 2) Hm). Qed.

Lemma next_day_civil era yoe doy :
  0 <= doy -> doy + 1 < year_length yoe -> next_day (civil era yoe doy) = civil era yoe (doy + 1).
Proof.
  intros Hd Hl. pose proof (year_length_range yoe).
  pose proof (forallb_seqZ _ _ doy days_checked ltac:(lia)) as Hc.
  unfold day_check in Hc. rewrite forallb_forall in Hc.
  specialize (Hc (leap (yoe + 1)) ltac:(destruct (leap _); simpl; auto)).
  fold (year_length yoe) in Hc. rewrite (proj2 (Z.ltb_lt _ _) Hl) in Hc.
  unfold civil, next_day. destruct (month_day doy) as [m d], (month_day (doy + 1)) as [m' d'].
  assert (next_md (leap (if m <=? 2 then yoe + era * 400 + 1 else yoe + era * 400)) m d =
          next_md (leap (yoe + 1)) m d) as ->.
  { destruct (Z.eq_dec m 2) as [->|Hm]; [|by apply next_md_leap]. simpl.
    by rewrite <- (leap_shift (yoe + 1) era), Z.add_shuffle0. }
  destruct (next_md (leap (yoe + 1)) m d) as [[carry m1] d1].
  apply andb_true_iff in Hc as [Hc H3]. apply andb_true_iff in Hc as [H1 H2].
  apply Z.eqb_eq in H1, H2, H3. subst m1 d1.
  f_equal. f_equal. destruct (m <=? 2), (m' <=? 2); lia.
Qed.

Lemma next_day_year_end era yoe :
  next_day (civil era yoe (year_length yoe - 1)) = civil era (yoe + 1) 0.
Proof.
  unfold civil, next_day. change (month_day 0) with (3, 1).
  assert (exists d, month_day (year_length yoe - 1) = (2, d) /\
    next_md (leap (yoe + 1)) 2 d = (0, 3, 1)) as (d & -> & Hmd)
    by (unfold year_length; destruct (leap (yoe + 1)); eexists; split; reflexivity).
  cbn [Z.leb]. change (2 <=? 2) with true. change (3 <=? 2) with false. cbv iota.
  rewrite Z.add_shuffle0, leap_shift, Hmd. by rewrite Z.add_0_r.
Qed.

Lemma civil_era era yoe : civil era (yoe + 400) 0 = civil (era + 1) yoe 0.
Proof.
  unfold civil. change (month_day 0) with (3, 1). change (3 <=? 2) with false. cbv iota.
  by replace (yoe + 400 + era * 400) with (yoe + (era + 1) * 400) by lia.
Qed.

(** Every day is some day of some year of some era. *)
Lemma nth_day_decomposed n :
  exists era yoe doy, 0 <= yoe < 400 /\ 0 <= doy < year_length yoe /\
    Z.of_nat n + 719468 = 146097 * era + year_start yoe + doy /\ nth_day n = civil era yoe doy.
Proof.
  induction n as [|n (era & yoe & doy & Hy & Hd & Hn & IH)].
  { exists 4, 369, 306. split_and!; done. }
  pose proof (year_length_range yoe). destruct (year_facts yoe Hy) as (_ & _ & Hnext).
  change (nth_day (S n)) with (next_day (nth_day n)). rewrite IH.
  destruct (Z.ltb_spec (doy + 1) (year_length yoe)) as [Hlt|Hge].
  { exists era, yoe, (doy + 1). rewrite next_day_civil by lia. split_and!; lia || done. }
  replace doy with (year_length yoe - 1) in * by lia. rewrite next_day_year_end.
  destruct (Z.ltb_spec yoe 399).
  - exists era, (yoe + 1), 0. pose proof (year_length_range (yoe + 1)). split_and!; lia || done.
  - exists (era + 1), 0, 0. replace yoe with 399 in * by lia.
    split_and!; try done; [|by rewrite <- (civil_era era 0)].
    change (year_start 0) with 0. lia.
Qed.

(** The dates in the logs are right: for every second since 1970 the printed
    date is the one the Gregorian calendar gives when it is advanced one day at a
    time, and the printed time is the second of that day. *)
Theorem timestamp_matches_calendar secs :
  0 <= secs ->
  exists y mo d h mi s,
    nth_day (Z.to_nat (secs / 86400)) = (y, mo, d) /\
    secs = 86400 * (secs / 86400) + 3600 * h + 60 * mi + s /\
    0 <= h < 24 /\ 0 <= mi < 60 /\ 0 <= s < 60 /\
    format_utc_timestamp secs =
      (padded 4 y ++ "-" ++ padded 2 mo ++ "-" ++ padded 2 d
       ++ "T" ++ padded 2 h ++ ":" ++ padded 2 mi ++ ":" ++ padded 2 s ++ "Z")%string.
Proof.
  intros Hs. pose proof (Z.div_pos secs 86400 Hs ltac:(lia)).
  destruct (nth_day_decomposed (Z.to_nat (secs / 86400))) as (era & yoe & doy & Hy & Hd & Hn & Hday).
  rewrite Z2Nat.id in Hn by done.
  destruct (civil era yoe doy) as [[y mo] d] eqn:Ec.
  exists y, mo, d, (secs mod 86400 / 3600), (secs mod 86400 mod 3600 / 60), (secs mod 86400 mod 60).
  split_and!; [done|Z.to_euclidean_division_equations; lia..|].
  unfold format_utc_timestamp. by rewrite Hn, days_to_ymd_civil, Ec by done.
Qed.

Lemma timestamp_matches_calendar_witness :
  exists y mo d h mi s,
    nth_day (Z.to_nat (1777293045 / 86400)) = (y, mo, d) /\
    1777293045 = 86400 * (1777293045 / 86400) + 3600 * h + 60 * mi + s /\
    0 <= h < 24 /\ 0 <= mi < 60 /\ 0 <= s < 60 /\
    format_utc_timestamp 1777293045 =
      (padded 4 y ++ "-" ++ padded 2 mo ++ "-" ++ padded 2 d
       ++ "T" ++ padded 2 h ++ ":" ++ padded 2 mi ++ ":" ++ padded 2 s ++ "Z")%string.
Proof. apply (timestamp_matches_calendar 1777293045). lia. Defined.

Example timestamp_example : format_utc_timestamp 1777293045 = "2026-04-27T12:30:45Z"%string.
Proof. vm_compute. reflexivity. Qed.
End calendar.

(** ** Commands *)

Inductive CheckResponse :=
| CheckAllow
| CheckDeny (reason : option string)
| CheckAsk (approval_id approval_token : string) (breaker_count : option string)
| CheckInvalid (reason : string).

(** [.and_then(as_str).filter(|v| !v.is_empty())]. *)
Definition non_empty_str (k : string) (response : json) : option string :=
  s ← get_str k response; if String.eqb s "" then None else Some s.

Definition breaker_count_of (response : json) : option string :=
  ext ← get "extensions" response;
  cb ← get "circuit_breaker" ext;
  count ← get "count" cb;
  n ← as_u64 count;
  Some (pretty n).

Definition parse_check_response (response : json) : CheckResponse :=
  match code_of response with
  | None => CheckInvalid "invalid response from agentpactd: missing code"
  | Some code =>
      if String.eqb code "PACT_OK" then CheckAllow
      else if String.eqb code "PACT_DENIED" then CheckDeny (get_str "reason" response)
      else if String.eqb code "PACT_ASK" then
        match non_empty_str "approval_id" response with
        | None => CheckInvalid "invalid PACT_ASK response from agentpactd: missing approval_id"
        | Some approval_id =>
            match non_empty_str "approval_token" response with
            | None => CheckInvalid "invalid PACT_ASK response from agentpactd: missing approval_token"
            | Some approval_token =>
                CheckAsk approval_id approval_token (breaker_count_of response)
            end
        end
      else if String.eqb code "PACT_POLICY_ERROR" || String.eqb code "PACT_PROTOCOL_ERROR"
              || String.eqb code "PACT_CAP_EXCEEDED" then
        let error := default "unknown error" (get_str "error" response) in
        CheckDeny (Some match get_str "recovery_hint" response with
                        | Some h => error ++ " (" ++ h ++ ")"
                        | None => error
                        end)
      else CheckInvalid ("unexpected response code from agentpactd: " ++ code)
  end.

(** One argument list for [check]: options, and the first other argument. *)
Fixpoint parse_check_args_from (args : list string) (command cwd socket : string)
    : string * string * string :=
  match args with
  | [] => (command, cwd, socket)
  | a :: rest =>
      match rest with
      | v :: rest' =>
          if String.eqb a "--cwd" then parse_check_args_from rest' command v socket
          else if String.eqb a "--socket" then parse_check_args_from rest' command cwd v
          else parse_check_args_from rest (if String.eqb command "" then a else command) cwd socket
      | [] => (if String.eqb command "" then a else command, cwd, socket)
      end
  end.

Definition parse_check_args (default_socket : string) (args : list string)
    : string * string * string :=
  parse_check_args_from args "" "" default_socket.

Record respond_args := mkRespond {
  r_socket : string; r_req_id : string; r_token : string; r_response : string }.

Fixpoint parse_respond_args (args : list string) (acc : respond_args) : respond_args :=
  match args with
  | a :: ((v :: rest') as rest) =>
      let '(mkRespond s i t r) := acc in
      if String.eqb a "--socket" then parse_respond_args rest' (mkRespond v i t r)
      else if String.eqb a "--req-id" then parse_respond_args rest' (mkRespond s v t r)
      else if String.eqb a "--token" then parse_respond_args rest' (mkRespond s i v r)
      else if String.eqb a "--response" then parse_respond_args rest' (mkRespond s i t v)
      else parse_respond_args rest acc
  | _ => acc
  end.

Definition HELPER_MAX_COMMAND_LENGTH : nat := 10240.

(** What the process reads of its surroundings. *)
Record helper_env := mkHelperEnv {
  default_socket : string;
  exec_token : option string;              (* AGENTPACT_EXEC_TOKEN *)
  ppid_chain : list N;                     (* [current_chain] *)
  daemon_state : string -> option bytes }. (* daemon.state beside a socket *)

Definition check_protocol_version (state : option json) : result unit string :=
  match state with
  | None => Ok tt
  | Some state =>
      match get "protocol_version" state ≫= as_u64 with
      | None => Ok tt
      | Some version =>
          if (version =? PROTOCOL_VERSION)%Z then Ok tt
          else if (PROTOCOL_VERSION <? version)%Z then
            Err ("agentpactd protocol version " ++ pretty version
                 ++ " is newer than kyris-hook expects (" ++ pretty PROTOCOL_VERSION
                 ++ "). Upgrade kyris: brew upgrade kyris")
          else
            Err ("agentpactd protocol version " ++ pretty version
                 ++ " is older than kyris-hook expects (" ++ pretty PROTOCOL_VERSION
                 ++ "). Upgrade agentpact: brew upgrade agentpact")
      end
  end.

Section commands.
Context {lib : Libraries}.
(** [generate_id]: the nanoseconds of the clock at the n-th reading. *)
Variable nanos : nat -> Z.

Definition generate_id : io string := n ← fresh_uuid; mret ("kyris-" ++ pretty (nanos n)).

(** [None]: any error of the connection, or a reply that is not JSON. *)
Definition send_request (request : json) : io (option json) :=
  r ← exchange request;
  mret match r with
       | Replied raw => ok (from_slice (trim_socket_message raw))
       | _ => None
       end.

Definition check_request (id command cwd : string) (env : helper_env) : json :=
  let request := JObject [("id", JString id); ("method", JString "permission.request");
    ("action", JString "execute"); ("detail", JString command);
    ("context", JObject [("working_dir", JString cwd)])] in
  let token := t ← exec_token env; if String.eqb t "" then None else Some t in
  let request := set_opt "exec_token" (JString <$> token) request in
  match ppid_chain env with
  | [] => request
  | chain => set_field "ppid_chain" (JArray (pid_json <$> chain)) request
  end.

Definition void_request (id approval_token : string) : json :=
  JObject [("id", JString id); ("method", JString "permission.respond");
    ("approval_token", JString approval_token); ("response", JString "voided")].

Definition void_token (approval_token : string) : io unit :=
  id ← generate_id; send_request (void_request id approval_token);; mret tt.

Definition tab : string := String "009" "".

Definition cmd_check (env : helper_env) (args : list string) : io unit :=
  let '(command, cwd, socket) := parse_check_args (default_socket env) args in
  if bool_decide (HELPER_MAX_COMMAND_LENGTH < String.length command) then exit 1
  else
    match check_protocol_version (read_daemon_state_at (daemon_state env socket)) with
    | Err _ => exit 10
    | Ok _ =>
        request_id ← generate_id;
        response ← send_request (check_request request_id command cwd env);
        match response with
        | None =>
            emit (FailOpen "unknown" "execute" command "" (Some cwd));; exit 11
        | Some response =>
            match parse_check_response response with
            | CheckAllow => exit 0
            | CheckDeny _ => exit 1
            | CheckAsk approval_id approval_token (Some count) =>
                emit (Stdout (approval_id ++ tab ++ approval_token ++ tab ++ count));; exit 3
            | CheckAsk _ approval_token None => void_token approval_token;; exit 2
            | CheckInvalid _ => exit 1
            end
        end
    end.

Definition cmd_respond (env : helper_env) (args : list string) : io unit :=
  let a := parse_respond_args args (mkRespond (default_socket env) "" "" "") in
  response ← send_request (JObject [("id", JString (r_req_id a));
    ("method", JString "permission.respond"); ("approval_token", JString (r_token a));
    ("response", JString (r_response a))]);
  match response with
  | None => exit 10
  | Some resp => if bool_decide (code_of resp = Some "PACT_OK") then exit 0 else exit 1
  end.

Definition cmd_send (to_string : json -> string) (args : list string) : io unit :=
  match args with
  | _ :: message :: _ =>
      match from_slice (lit message) with
      | Err _ => exit 1
      | Ok value =>
          response ← send_request value;
          match response with
          | Some resp => emit (Stdout (to_string resp));; exit 0
          | None => exit 10
          end
      end
  | _ => exit 1
  end.

Definition main (to_string : json -> string) (env : helper_env) (args : list string) : io unit :=
  match args with
  | _ :: command :: rest =>
      if String.eqb command "check" then cmd_check env rest
      else if String.eqb command "respond" then cmd_respond env rest
      else if String.eqb command "send" then cmd_send to_string rest
      else exit 1
  | _ => exit 1
  end.

(** ** What the shell is told *)

(** The reply, where there is one that is JSON. *)
Definition reply_of (r : socket_result) : option json :=
  match r with
  | Replied raw => ok (from_slice (trim_socket_message raw))
  | _ => None
  end.

(** The effects and the exit code of one check of [command] in [cwd]. *)
Inductive checked (env : helper_env) (command cwd : string) : list effect -> Z -> Prop :=
| checked_oversized :
    HELPER_MAX_COMMAND_LENGTH < String.length command -> checked env command cwd [] 1
| checked_version : checked env command cwd [] 10
| checked_cleared id r resp :
    reply_of r = Some resp -> code_of resp = Some "PACT_OK" ->
    checked env command cwd [Exchange (check_request id command cwd env) r] 0
| checked_refused id r resp :
    reply_of r = Some resp ->
    (forall m, parse_mcp_permission_response resp <> Allow m) ->
    checked env command cwd [Exchange (check_request id command cwd env) r] 1
| checked_breaker id r resp approval_id token count :
    reply_of r = Some resp -> code_of resp = Some "PACT_ASK" ->
    get_str "approval_token" resp = Some token ->
    checked env command cwd
      [Exchange (check_request id command cwd env) r;
       Stdout (approval_id ++ tab ++ token ++ tab ++ count)] 3
| checked_ask id r resp token id' r' :
    reply_of r = Some resp -> code_of resp = Some "PACT_ASK" ->
    get_str "approval_token" resp = Some token ->
    checked env command cwd
      [Exchange (check_request id command cwd env) r; Exchange (void_request id' token) r'] 2
| checked_fail_open id r :
    reply_of r = None -> String.length command <= HELPER_MAX_COMMAND_LENGTH ->
    checked env command cwd
      [Exchange (check_request id command cwd env) r;
       FailOpen "unknown" "execute" command "" (Some cwd)] 11.

(** The two readers of agentpactd's response. *)
Definition same_verdict (a : CheckResponse) (b : McpPermissionDecision) : Prop :=
  match a, b with
  | CheckAllow, Allow _ => True
  | CheckAsk id token _, Ask id' token' _ _ => id = id' /\ token = token'
  | CheckDeny _, Deny _ _ _ | CheckInvalid _, Deny _ _ _ => True
  | _, _ => False
  end.

Lemma code_is_eqb c s : bool_decide (Some c = Some s) = String.eqb c s.
Proof using Type.
  destruct (String.eqb_spec c s) as [->|]; [by apply bool_decide_eq_true|].
  apply bool_decide_eq_false. congruence.
Qed.

Lemma non_empty_str_default k response :
  non_empty_str k response =
    if String.eqb (default "" (get_str k response)) "" then None else get_str k response.
Proof using Type. unfold non_empty_str. by destruct (get_str k response). Qed.

Lemma same_verdict_responses response :
  same_verdict (parse_check_response response) (parse_mcp_permission_response response).
Proof using Type.
  unfold parse_check_response, parse_mcp_permission_response.
  destruct (code_of response) as [c|]; [|done]. rewrite !code_is_eqb, !non_empty_str_default.
  destruct (String.eqb c "PACT_OK"); [done|]. destruct (String.eqb c "PACT_DENIED"); [done|].
  destruct (String.eqb c "PACT_ASK").
  - destruct (get_str "approval_id" response) as [i|]; [|done].
    change (default "" (Some i)) with i. destruct (String.eqb i ""); [done|].
    destruct (get_str "approval_token" response) as [t|]; [|done].
    change (default "" (Some t)) with t. by destruct (String.eqb t "").
  - destruct (String.eqb c "PACT_POLICY_ERROR"), (String.eqb c "PACT_PROTOCOL_ERROR"),
      (String.eqb c "PACT_CAP_EXCEEDED"); done.
Qed.

Lemma parse_check_allow response :
  parse_check_response response = CheckAllow -> code_of response = Some "PACT_OK".
Proof using Type.
  unfold parse_check_response. destruct (code_of response) as [c|]; [|done].
  destruct (String.eqb_spec c "PACT_OK") as [->|]; [done|]. repeat case_match; naive_solver.
Qed.

Lemma parse_check_ask response id token count :
  parse_check_response response = CheckAsk id token count ->
  code_of response = Some "PACT_ASK" /\ get_str "approval_token" response = Some token.
Proof using Type.
  unfold parse_check_response. destruct (code_of response) as [c|]; [|done].
  destruct (String.eqb c "PACT_OK"); [done|]. destruct (String.eqb c "PACT_DENIED"); [done|].
  destruct (String.eqb_spec c "PACT_ASK") as [->|]; [|by case_match].
  rewrite !non_empty_str_default. repeat case_match; naive_solver.
Qed.

(** The shell's helper and the agent hooks read agentpactd alike: on any
    response one allows exactly where the other does, they ask with the same id and
    token, and refuse everything else. *)
Theorem helper_reads_like_client response :
  same_verdict (parse_check_response response) (parse_mcp_permission_response response).
Proof using Type. apply same_verdict_responses. Qed.

(** C9. What a line in a governed shell rests on, whatever agentpactd does: the
    shell is told to run it (exit code 0) only when agentpactd answered PACT_OK to
    this command in this directory, and to run it unasked (11) only when the
    exchange gave no JSON at all, which is spooled with the command; a code of 2 or
    3 is a genuine ask, its token voided or handed to the shell; everything else
    is 1 or 10. *)
Theorem helper_check_spec env args :
  let '(command, cwd, _) := parse_check_args (default_socket env) args in
  wp (cmd_check env args)
    (fun l o => exists code, o = Exited code /\ checked env command cwd l code).
Proof using Type.
  unfold cmd_check. destruct (parse_check_args _ args) as [[command cwd] socket].
  case_bool_decide as Hlen; [wp_steps; eexists; split; [done|by constructor]|].
  destruct (check_protocol_version _); [|wp_steps; eexists; split; [done|by constructor]].
  unfold generate_id, send_request. wp_steps.
  match goal with r0 : socket_result |- _ => rename r0 into r end. fold (reply_of r).
  destruct (reply_of r) as [resp|] eqn:Er; [|wp_steps; eexists; split; [done|]; constructor; [done|lia]].
  pose proof (same_verdict_responses resp) as Hs.
  destruct (parse_check_response resp) as [|reason|id token [count|]|reason] eqn:Ep.
  - wp_steps. eexists; split; [done|]. apply parse_check_allow in Ep. by econstructor.
  - wp_steps. eexists; split; [done|]. econstructor; [done|]. intros m Hm. by rewrite Hm in Hs.
  - wp_steps. eexists; split; [done|]. apply parse_check_ask in Ep as []. by econstructor.
  - unfold void_token, generate_id, send_request. wp_steps. eexists; split; [done|].
    apply parse_check_ask in Ep as []. by econstructor.
  - wp_steps. eexists; split; [done|]. econstructor; [done|]. intros m Hm. by rewrite Hm in Hs.
Qed.
End commands.

End Helper.
