(* ===== verification/Breaker.v ===== *)
(** * The runaway guard: daemon/src/circuit_breaker.rs

    [Module CircuitBreaker] models the session table of kyrisd's circuit
    breaker.  The [RwLock]-protected map is a [gmap]; every operation takes the
    lock for its whole body, so an operation is one atomic function on the map.
    [Instant]s are nanoseconds on the monotonic clock, passed in as [now]. *)

From S2P Require Import Prelude.

Module CircuitBreaker.
Local Open Scope Z_scope.

Record SessionState := mkSession {
  idle_output_tokens : Z;
  max_tokens : Z;
  last_activity : Z }.

Definition new : gmap string SessionState := ∅.

(** [entry.idle_output_tokens >= entry.max_tokens] *)
Definition at_cap (e : SessionState) : bool := max_tokens e <=? idle_output_tokens e.

Definition record (now : Z) (session_id : string) (output_tokens : Z)
    (had_tool_call : bool) (max : Z) (sessions : gmap string SessionState)
    : gmap string SessionState * bool :=
  let entry := default (mkSession 0 max now) (sessions !! session_id) in
  let idle := if had_tool_call then 0
              else wrap_i64 (idle_output_tokens entry + output_tokens) in
  let entry' := mkSession idle max now in
  (<[session_id := entry']> sessions, at_cap entry').

Definition record_tokens (now : Z) (session_id : string) (output_tokens max : Z)
    (sessions : gmap string SessionState) : gmap string SessionState :=
  (record now session_id output_tokens false max sessions).1.

Definition is_tripped (session_id : string) (sessions : gmap string SessionState) : bool :=
  match sessions !! session_id with
  | Some s => at_cap s
  | None => false
  end.

Definition reset (now : Z) (session_id : string) (sessions : gmap string SessionState)
    : gmap string SessionState * bool :=
  match sessions !! session_id with
  | Some st => (<[session_id := mkSession 0 (max_tokens st) now]> sessions, true)
  | None => (sessions, false)
  end.

(** The loop body of [reset_all_tripped] on one entry. *)
Definition reset_if_tripped (now : Z) (st : SessionState) : SessionState :=
  if at_cap st then mkSession 0 (max_tokens st) now else st.

(** The iteration order of a [HashMap] is unspecified; [map_to_list] is one
    order, and the theorems below do not depend on which. *)
Definition reset_all_tripped (now : Z) (sessions : gmap string SessionState)
    : gmap string SessionState * list string :=
  (reset_if_tripped now <$> sessions,
   omap (fun p : string * SessionState => if at_cap p.2 then Some p.1 else None)
     (map_to_list sessions)).

(** [Instant::elapsed] saturates at zero. *)
Definition elapsed (now since : Z) : Z := Z.max 0 (now - since).

Definition prune_idle (now idle_timeout : Z) (sessions : gmap string SessionState)
    : gmap string SessionState :=
  filter (fun p => elapsed now (last_activity p.2) < idle_timeout) sessions.

Definition get_token_count (session_id : string) (sessions : gmap string SessionState) : Z :=
  match sessions !! session_id with
  | Some s => idle_output_tokens s
  | None => 0
  end.

(** [now.checked_sub(elapsed).unwrap_or(now)]: [instant_min] is the smallest
    [Instant] the platform represents. *)
Definition checked_sub_or_now (instant_min now elapsed : Z) : Z :=
  if instant_min <=? now - elapsed then now - elapsed else now.

Definition rebuild_one (instant_min now max : Z) (sessions : gmap string SessionState)
    (row : string * Z * Z) : gmap string SessionState :=
  let '(session_id, idle, ago) := row in
  <[session_id := mkSession idle max (checked_sub_or_now instant_min now ago)]> sessions.

Definition rebuild_from (instant_min now : Z) (stored : list (string * Z * Z)) (max : Z)
    (sessions : gmap string SessionState) : gmap string SessionState :=
  foldl (rebuild_one instant_min now max) sessions stored.

Definition session_totals (sessions : gmap string SessionState) : list (string * Z) :=
  (fun p => (p.1, idle_output_tokens p.2)) <$> map_to_list sessions.

(** ** Histories

    A turn is one completed response, as the adapters report it to [record]. *)

Record turn := mkTurn {
  t_now : Z;
  t_session : string;
  t_output : Z;
  t_tool : bool;
  t_max : Z }.

Definition record_turn (sessions : gmap string SessionState) (t : turn) :=
  (record (t_now t) (t_session t) (t_output t) (t_tool t) (t_max t) sessions).1.

Definition run (ts : list turn) : gmap string SessionState := foldl record_turn new ts.

(** The contract the header comment of circuit_breaker.rs states: the tokens a
    session burned since its last tool call, whatever the other sessions did. *)

Definition turns_of (sid : string) (ts : list turn) : list turn :=
  filter (fun t => t_session t = sid) ts.

Fixpoint since_last_tool (ts : list turn) : list turn :=
  match ts with
  | [] => []
  | t :: rest =>
      if existsb t_tool (t :: rest) then since_last_tool rest else t :: rest
  end.

Definition idle_burn (sid : string) (ts : list turn) : Z :=
  sum_Z (t_output <$> since_last_tool (turns_of sid ts)).

(** What [storage::persist_session_tokens] writes and [load_session_tokens]
    hands back at the next start, [ago] being the age the store reports. *)
Definition stored_rows (ago : string -> Z) (sessions : gmap string SessionState)
    : list (string * Z * Z) :=
  (fun p => (p.1, p.2, ago p.1)) <$> session_totals sessions.

(** ** Lemmas *)

Lemma since_last_tool_snoc ts t :
  since_last_tool (ts ++ [t]) = if t_tool t then [] else since_last_tool ts ++ [t].
Proof.
  induction ts as [|u ts IH]; simpl.
  - by destruct (t_tool t).
  - rewrite IH, existsb_app. simpl.
    destruct (t_tool u), (existsb t_tool ts), (t_tool t); simpl in *; done.
Qed.

Lemma turns_of_snoc sid ts t :
  turns_of sid (ts ++ [t]) =
  if decide (t_session t = sid) then turns_of sid ts ++ [t] else turns_of sid ts.
Proof.
  unfold turns_of. rewrite filter_app, filter_cons, filter_nil.
  case_decide; [done|]. by rewrite app_nil_r.
Qed.

Lemma idle_burn_snoc sid ts t :
  idle_burn sid (ts ++ [t]) =
  if decide (t_session t = sid)
  then if t_tool t then 0 else idle_burn sid ts + t_output t
  else idle_burn sid ts.
Proof.
  unfold idle_burn. rewrite turns_of_snoc. case_decide; [|done].
  rewrite since_last_tool_snoc. destruct (t_tool t); [done|].
  rewrite fmap_app, sum_Z_app. simpl. lia.
Qed.

Lemma run_snoc ts t : run (ts ++ [t]) = record_turn (run ts) t.
Proof. unfold run. by rewrite foldl_app. Qed.

Lemma record_turn_lookup m t sid :
  record_turn m t !! sid =
  if decide (t_session t = sid)
  then Some (mkSession (if t_tool t then 0
                        else wrap_i64 (get_token_count sid m + t_output t))
               (t_max t) (t_now t))
  else m !! sid.
Proof.
  unfold record_turn, record, get_token_count; simpl. case_decide; subst.
  - rewrite lookup_insert_eq. by destruct (m !! t_session t).
  - by rewrite lookup_insert_ne.
Qed.

(** What the table holds for a session after a history: its idle burn wrapped
    to 64 bits, and the cap and clock of its latest turn. *)
Lemma run_lookup ts sid :
  run ts !! sid =
  match last (turns_of sid ts) with
  | Some t => Some (mkSession (wrap_i64 (idle_burn sid ts)) (t_max t) (t_now t))
  | None => None
  end.
Proof.
  induction ts as [|t ts IH] using rev_ind; [done|].
  rewrite run_snoc, record_turn_lookup, turns_of_snoc, idle_burn_snoc.
  case_decide; [|done]. rewrite last_snoc. do 2 f_equal.
  destruct (t_tool t); [done|].
  unfold get_token_count. rewrite IH.
  destruct (last (turns_of sid ts)) eqn:E; simpl.
  - apply wrap_i64_add_l.
  - apply last_None in E. unfold idle_burn. by rewrite E.
Qed.

Lemma elem_of_reset_all_tripped now m sid :
  sid ∈ (reset_all_tripped now m).2 <-> is_tripped sid m = true.
Proof.
  unfold reset_all_tripped, is_tripped; simpl. rewrite list_elem_of_omap. split.
  - intros ([k st] & Hin & Hcap). apply elem_of_map_to_list in Hin.
    simpl in *. split_cases.
  - destruct (m !! sid) as [st|] eqn:E; [|done]. intros Hcap.
    exists (sid, st). rewrite elem_of_map_to_list. simpl. by rewrite Hcap.
Qed.

Lemma NoDup_reset_all_tripped now m : NoDup (reset_all_tripped now m).2.
Proof.
  unfold reset_all_tripped; simpl.
  assert (forall l : list (string * SessionState), NoDup l.*1 ->
    NoDup (omap (fun p => if at_cap p.2 then Some p.1 else None) l)) as H.
  { induction l as [|[k st] l IH]; simpl; [constructor|].
    intros [Hnk Hl]%NoDup_cons. destruct (at_cap st); [|by apply IH].
    constructor; [|by apply IH]. rewrite list_elem_of_omap.
    intros ([k' st'] & Hin & Heq). simpl in Heq. split_cases.
    apply Hnk, list_elem_of_fmap. by exists (k, st'). }
  apply H, NoDup_fst_map_to_list.
Qed.

Lemma rebuild_from_lookup imin now max rows m sid :
  NoDup (rows.*1.*1) ->
  rebuild_from imin now rows max m !! sid =
  match list_find (fun r : string * Z * Z => r.1.1 = sid) rows with
  | Some (_, r) => Some (mkSession r.1.2 max (checked_sub_or_now imin now r.2))
  | None => m !! sid
  end.
Proof.
  unfold rebuild_from. revert m.
  induction rows as [|[[k idle] ago] rows IH]; intros m; [done|].
  simpl. intros [Hk Hrows]%NoDup_cons. rewrite IH by done.
  destruct (decide (k = sid)) as [->|Hne]; simpl.
  - destruct (list_find _ rows) as [[i r]|] eqn:E; simpl.
    + exfalso. apply list_find_Some in E as (Hr & Heq & _). apply Hk.
      rewrite <- Heq. apply list_elem_of_fmap. exists r.1. split; [done|].
      apply list_elem_of_fmap. exists r. split; [done|].
      by apply list_elem_of_lookup_2 in Hr.
    + by rewrite lookup_insert_eq.
  - destruct (list_find _ rows) as [[i r]|]; simpl; [done|].
    by rewrite lookup_insert_ne.
Qed.

Lemma stored_rows_keys ago m : (stored_rows ago m).*1.*1 = (map_to_list m).*1.
Proof.
  unfold stored_rows, session_totals. rewrite <- !list_fmap_compose.
  apply list_fmap_ext. by intros ? [] ?.
Qed.

Lemma elem_of_stored_rows ago m r :
  r ∈ stored_rows ago m <->
  exists st, m !! r.1.1 = Some st /\ r.1.2 = idle_output_tokens st /\ r.2 = ago r.1.1.
Proof.
  unfold stored_rows, session_totals. rewrite !list_elem_of_fmap. split.
  - intros ([sid idle] & -> & ([k st] & [= -> ->] & Hin)%list_elem_of_fmap).
    apply elem_of_map_to_list in Hin. simpl. eauto.
  - destruct r as [[sid idle] a]. simpl. intros (st & Hst & -> & ->).
    exists (sid, idle_output_tokens st). split; [done|].
    apply list_elem_of_fmap. exists (sid, st).
    by rewrite elem_of_map_to_list.
Qed.

Lemma rebuild_stored_lookup imin now max ago m sid :
  rebuild_from imin now (stored_rows ago m) max new !! sid =
  (fun st => mkSession (idle_output_tokens st) max
               (checked_sub_or_now imin now (ago sid))) <$> m !! sid.
Proof.
  rewrite rebuild_from_lookup
    by (rewrite stored_rows_keys; apply NoDup_fst_map_to_list).
  destruct (list_find _ _) as [[i r]|] eqn:E.
  - apply list_find_Some in E as (Hr & <- & _).
    apply list_elem_of_lookup_2, elem_of_stored_rows in Hr
      as (st & -> & -> & ->). done.
  - apply list_find_None in E. rewrite Forall_forall in E.
    destruct (m !! sid) as [st|] eqn:Hst; [|done]. exfalso.
    apply (E (sid, idle_output_tokens st, ago sid)); [|done].
    apply elem_of_stored_rows. simpl. eauto.
Qed.

(** ** Properties *)

(** C6. After any history of responses, interleaved over sessions in any way,
    a session's counter is exactly the tokens it burned since its last tool
    call (in 64-bit arithmetic), it is tripped exactly when that reaches the
    cap of its latest turn, and the boolean [record] returned for that turn
    said so. *)
Theorem record_counts_idle_burn (ts : list turn) (sid : string) :
  get_token_count sid (run ts) = wrap_i64 (idle_burn sid ts) /\
  is_tripped sid (run ts) =
    match last (turns_of sid ts) with
    | Some t => t_max t <=? wrap_i64 (idle_burn sid ts)
    | None => false
    end /\
  forall t, (record (t_now t) (t_session t) (t_output t) (t_tool t) (t_max t) (run ts)).2
            = is_tripped (t_session t) (run (ts ++ [t])).
Proof.
  split_and!.
  - unfold get_token_count. rewrite run_lookup.
    destruct (last (turns_of sid ts)) eqn:E; [done|].
    apply last_None in E. unfold idle_burn. by rewrite E.
  - unfold is_tripped. rewrite run_lookup.
    by destruct (last (turns_of sid ts)).
  - intros t. rewrite run_snoc. unfold is_tripped, record_turn, record; simpl.
    by rewrite lookup_insert_eq.
Qed.

(** [reset_all_tripped] returns each tripped session once and nothing
    else, leaves every other session as it was, and leaves no session tripped
    but those whose cap is not positive. *)
Theorem reset_all_tripped_clears (now : Z) (m : gmap string SessionState) :
  NoDup (reset_all_tripped now m).2 /\
  (forall sid, sid ∈ (reset_all_tripped now m).2 <-> is_tripped sid m = true) /\
  (forall sid, is_tripped sid m = false ->
     (reset_all_tripped now m).1 !! sid = m !! sid) /\
  (forall sid, is_tripped sid (reset_all_tripped now m).1 =
     match m !! sid with
     | Some st => at_cap st && (max_tokens st <=? 0)
     | None => false
     end).
Proof.
  split_and!.
  - apply NoDup_reset_all_tripped.
  - apply elem_of_reset_all_tripped.
  - intros sid. unfold is_tripped; simpl. rewrite lookup_fmap.
    destruct (m !! sid) as [st|]; simpl; [|done].
    unfold reset_if_tripped. by intros ->.
  - intros sid. unfold is_tripped; simpl. rewrite lookup_fmap.
    destruct (m !! sid) as [st|]; simpl; [|done].
    unfold reset_if_tripped. destruct (at_cap st) eqn:E; simpl; done.
Qed.

(** A restart loses no count: rebuilding the table from the rows the old
    process persisted gives every session its old counter under the configured
    cap, and a later prune drops exactly the sessions whose stored age plus
    the time since the restart reaches the idle timeout. *)
Theorem rebuild_from_round_trip (imin now later max timeout : Z) (ago : string -> Z)
    (m : gmap string SessionState)
    (Hago : forall sid, imin <= now - ago sid) (Hlater : now <= later)
    (Hpos : forall sid, 0 <= ago sid) :
  let m' := rebuild_from imin now (stored_rows ago m) max new in
  (forall sid, get_token_count sid m' = get_token_count sid m) /\
  (forall sid, is_tripped sid m' = true <->
     is_Some (m !! sid) /\ max <= get_token_count sid m) /\
  (forall sid, is_Some (prune_idle later timeout m' !! sid) <->
     is_Some (m !! sid) /\ ago sid + (later - now) < timeout).
Proof.
  intros m'.
  assert (forall sid, m' !! sid =
    (fun st => mkSession (idle_output_tokens st) max (now - ago sid)) <$> m !! sid)
    as Hm'.
  { intros sid. unfold m'. rewrite rebuild_stored_lookup.
    unfold checked_sub_or_now. specialize (Hago sid).
    destruct (Z.leb_spec imin (now - ago sid)); [done|lia]. }
  split_and!; intros sid.
  - unfold get_token_count. rewrite Hm'. by destruct (m !! sid).
  - unfold is_tripped, get_token_count, at_cap. rewrite Hm'.
    destruct (m !! sid); simpl; [rewrite Z.leb_le|]; naive_solver.
  - unfold prune_idle. rewrite map_lookup_filter, Hm'.
    specialize (Hpos sid). unfold elapsed.
    destruct (m !! sid) as [st|]; simpl.
    + case_guard as Hg; simpl in *.
      * split; [|by eauto]. intros _. split; [eauto|]. lia.
      * split; [intros [? [=]]|]. intros [_ ?]. exfalso. lia.
    + split; [intros [? [=]]|intros [[? [=]] _]].
Qed.

(** The hypotheses of [rebuild_from_round_trip] at a two-session table. *)
Lemma rebuild_from_round_trip_witness :
  let m := run [mkTurn 0 "a" 7 false 10; mkTurn 1 "b" 12 false 10] in
  is_tripped "b" (rebuild_from 0 100 (stored_rows (fun _ => 60) m) 10 new) = true <->
    is_Some (m !! "b") /\ 10 <= get_token_count "b" m.
Proof.
  intros m.
  apply (rebuild_from_round_trip 0 100 100 10 90 (fun _ => 60) m
           ltac:(intros; lia) ltac:(lia) ltac:(intros; lia)).
Defined.

End CircuitBreaker.
