(* ===== verification/Gate.v ===== *)
(** * The human continue-or-stop gate

    daemon/src/gate.rs (the registry of open prompts), the waiting loop
    [await_token_gate] of daemon/src/adapter/mod.rs and the operator endpoints
    of daemon/src/server/breaker_routes.rs, over the session table of
    [Breaker.CircuitBreaker].

    A tokio [watch] channel is a record in a store indexed by channel number:
    its current value, whether its sender still exists (the registry holds the
    only one), and which requests hold a receiver.  Requests run concurrently, so
    the protocol is a step relation over atomic operations: each lock-protected
    operation is one step, and steps of different requests interleave freely. *)

From S2P Require Import Prelude Breaker.

Module Gate.
Import CircuitBreaker.

Inductive GateDecision := Continue | Stop.

#[export] Instance GateDecision_eq_dec : EqDecision GateDecision.
Proof. solve_decision. Defined.

(** tokio::sync::watch, with initial value [None]. *)
Record watch := mkWatch {
  w_value : option GateDecision;
  w_sender : bool;
  w_receivers : gset nat }.

(** [GateRegistry]: which channel each session's prompt uses, beside the store
    of all channels ever created. *)
Record GateRegistry := mkRegistry {
  waiters : gmap string nat;
  channels : gmap nat watch;
  next_channel : nat }.

Definition empty_registry : GateRegistry := mkRegistry ∅ ∅ 0.

Definition add_receiver (rid : nat) (w : watch) : watch :=
  mkWatch (w_value w) (w_sender w) ({[rid]} ∪ w_receivers w).

(** [rid] names the receiver this call returns. *)
Definition subscribe (rid : nat) (session_id : string) (g : GateRegistry)
    : GateRegistry * nat * bool :=
  match waiters g !! session_id with
  | Some c =>
      (mkRegistry (waiters g) (alter (add_receiver rid) c (channels g)) (next_channel g),
       c, false)
  | None =>
      let c := next_channel g in
      (mkRegistry (<[session_id := c]> (waiters g))
         (<[c := mkWatch None true {[rid]}]> (channels g)) (S c), c, true)
  end.

(** [watch::Sender::send] stores the value only if a receiver exists. *)
Definition send (d : GateDecision) (w : watch) : watch :=
  if decide (w_receivers w = ∅) then w
  else mkWatch (Some d) (w_sender w) (w_receivers w).

Definition resolve (session_id : string) (d : GateDecision) (g : GateRegistry) : GateRegistry :=
  match waiters g !! session_id with
  | Some c => mkRegistry (waiters g) (alter (send d) c (channels g)) (next_channel g)
  | None => g
  end.

Definition resolve_all (d : GateDecision) (g : GateRegistry) : GateRegistry * list string :=
  (foldl (fun g sid => resolve sid d g) g (map_to_list (waiters g)).*1,
   (map_to_list (waiters g)).*1).

Definition drop_sender (w : watch) : watch := mkWatch (w_value w) false (w_receivers w).

Definition clear (session_id : string) (g : GateRegistry) : GateRegistry :=
  match waiters g !! session_id with
  | Some c =>
      mkRegistry (delete session_id (waiters g)) (alter drop_sender c (channels g))
        (next_channel g)
  | None => g
  end.

Definition is_pending (session_id : string) (g : GateRegistry) : bool :=
  bool_decide (is_Some (waiters g !! session_id)).

(** One iteration of the loop of [await_token_gate]: the value if there is one
    ([borrow]), [Stop] if the channel was dropped without one ([changed] is an
    error), and otherwise the request keeps waiting. *)
Definition poll (w : watch) : option GateDecision :=
  match w_value w with
  | Some d => Some d
  | None => if w_sender w then None else Some Stop
  end.

(** ** The protocol *)

(** Where a request stands in its handler: past the [is_tripped] check, waiting
    on its channel, and then with a decision in hand, before the breaker reset,
    between the reset and the clear, and after both. *)
Inductive phase :=
| Forwarded
| Gated
| Waiting
| Decided (d : GateDecision)
| BreakerReset (d : GateDecision)
| Returned (d : GateDecision).

Record request := mkRequest {
  r_session : string;
  r_channel : option nat;
  r_first : bool;
  r_phase : phase }.

Record state := mkState {
  gate : GateRegistry;
  breaker : gmap string SessionState;
  requests : gmap nat request }.

Definition init : state := mkState empty_registry ∅ ∅.

Inductive ApprovalOutcome := Yes | Always | No | CouldNotShow.

(** The arms of the dialog task [await_token_gate] spawns. *)
Definition dialog_decision (o : ApprovalOutcome) : option GateDecision :=
  match o with
  | Yes | Always => Some Continue
  | No => Some Stop
  | CouldNotShow => None
  end.

Inductive event :=
| Arrive (rid : nat) (sid : string)
| Subscribe (rid : nat)
| Dialog (rid : nat) (sid : string) (o : ApprovalOutcome)
| Resolve (sid : string) (d : GateDecision)
| ResolveAll (d : GateDecision)
| ResetSession (now : Z) (sid : string)
| ResetAll (now : Z)
| RecordTurn (t : turn)
| Observe (rid : nat)
| Timeout (rid : nat)
| AfterReset (now : Z) (rid : nat)
| AfterClear (rid : nat).

Definition set_phase (rid : nat) (p : phase) (s : state) : state :=
  mkState (gate s) (breaker s)
    (alter (fun r => mkRequest (r_session r) (r_channel r) (r_first r) p) rid (requests s)).

Definition with_gate (g : GateRegistry) (s : state) : state :=
  mkState g (breaker s) (requests s).

Definition with_breaker (b : gmap string SessionState) (s : state) : state :=
  mkState (gate s) b (requests s).

(** A receiver is dropped when [await_token_gate] returns. *)
Definition del_receiver (rid : nat) (w : watch) : watch :=
  mkWatch (w_value w) (w_sender w) (w_receivers w ∖ {[rid]}).

Definition drop_receiver (rid c : nat) (g : GateRegistry) : GateRegistry :=
  mkRegistry (waiters g) (alter (del_receiver rid) c (channels g)) (next_channel g).

(** The channel a request waits on, while it waits. *)
Definition waiting_on (s : state) (rid : nat) : option (request * watch) :=
  r ← requests s !! rid;
  match r_phase r with
  | Waiting => c ← r_channel r; w ← channels (gate s) !! c; Some (r, w)
  | _ => None
  end.

Definition exec (s : state) (e : event) : option state :=
  match e with
  | Arrive rid sid =>
      match requests s !! rid with
      | Some _ => None
      | None =>
          let p := if is_tripped sid (breaker s) then Gated else Forwarded in
          Some (mkState (gate s) (breaker s)
                  (<[rid := mkRequest sid None false p]> (requests s)))
      end
  | Subscribe rid =>
      match requests s !! rid with
      | Some (mkRequest sid _ _ Gated) =>
          let '(g, c, first) := subscribe rid sid (gate s) in
          Some (mkState g (breaker s)
                  (<[rid := mkRequest sid (Some c) first Waiting]> (requests s)))
      | _ => None
      end
  | Dialog rid sid o =>
      match requests s !! rid with
      | Some (mkRequest sid' _ true _) =>
          if decide (sid = sid') then
            match dialog_decision o with
            | Some d => Some (with_gate (resolve sid d (gate s)) s)
            | None => Some s
            end
          else None
      | _ => None
      end
  | Resolve sid d => Some (with_gate (resolve sid d (gate s)) s)
  | ResolveAll d => Some (with_gate (resolve_all d (gate s)).1 s)
  | ResetSession now sid => Some (with_breaker (reset now sid (breaker s)).1 s)
  | ResetAll now => Some (with_breaker (reset_all_tripped now (breaker s)).1 s)
  | RecordTurn t => Some (with_breaker (record_turn (breaker s) t) s)
  | Observe rid =>
      '(_, w) ← waiting_on s rid;
      d ← poll w;
      Some (set_phase rid (Decided d) s)
  | Timeout rid =>
      '(_, w) ← waiting_on s rid;
      match poll w with
      | Some _ => None
      | None => Some (set_phase rid (Decided Stop) s)
      end
  | AfterReset now rid =>
      match requests s !! rid with
      | Some (mkRequest sid _ _ (Decided d)) =>
          Some (set_phase rid (BreakerReset d)
                  (with_breaker (reset now sid (breaker s)).1 s))
      | _ => None
      end
  | AfterClear rid =>
      match requests s !! rid with
      | Some (mkRequest sid (Some c) _ (BreakerReset d)) =>
          Some (set_phase rid (Returned d)
                  (with_gate (drop_receiver rid c (clear sid (gate s))) s))
      | _ => None
      end
  end.

Definition step (s : state) (e : event) (s' : state) : Prop := exec s e = Some s'.

(** Whether an event is a human's decision [d] for session [sid]. *)
Definition answers (e : event) (sid : string) (d : GateDecision) : bool :=
  match e with
  | Dialog _ sid' o => bool_decide (sid = sid') && bool_decide (dialog_decision o = Some d)
  | Resolve sid' d' => bool_decide (sid = sid') && bool_decide (d = d')
  | ResolveAll d' => bool_decide (d = d')
  | _ => false
  end.

(** ** The operator endpoints of breaker_routes.rs *)

Inductive StatusCode := OK | NOT_FOUND.

Definition circuit_breaker_reset (now : Z) (session_id : string) (s : state)
    : state * StatusCode :=
  let s1 := with_gate (resolve session_id Continue (gate s)) s in
  let '(b, known) := reset now session_id (breaker s1) in
  (with_breaker b s1, if known then OK else NOT_FOUND).

Definition circuit_breaker_reset_all (now : Z) (s : state) : state * list string :=
  let s1 := with_gate (resolve_all Continue (gate s)).1 s in
  let '(b, cleared) := reset_all_tripped now (breaker s1) in
  (with_breaker b s1, cleared).

Definition circuit_breaker_stop (session_id : option string) (s : state)
    : state * list string :=
  match session_id with
  | Some sid => (with_gate (resolve sid Stop (gate s)) s, [sid])
  | None =>
      let '(g, stopped) := resolve_all Stop (gate s) in
      (with_gate g s, stopped)
  end.

(** The whole of [await_token_gate] for one request, as the events it performs
    when its session's answer is already there. *)
Definition await_events (now : Z) (rid : nat) : list event :=
  [Observe rid; AfterReset now rid; AfterClear rid].

(** Run a list of events. *)
Definition exec_all (s : state) (es : list event) : option state := exec_list exec s es.

(** Reachability, executably: the state a list of events leads to. *)
Definition final_phase (evs : list event) (rid : nat) : option phase :=
  s ← exec_all init evs; r_phase <$> requests s !! rid.

(** ** Invariant *)

Definition returned (r : request) : bool :=
  match r_phase r with Returned _ => true | _ => false end.

Definition phase_decision (p : phase) : option GateDecision :=
  match p with
  | Decided d | BreakerReset d | Returned d => Some d
  | _ => None
  end.

Definition no_channel (p : phase) : bool :=
  match p with Forwarded | Gated => true | _ => false end.

Section invariant.
(** [A sid d]: a human has answered [d] for session [sid]. *)
Context (A : string -> GateDecision -> Prop).

(** What holds of a request [r] numbered [rid] subscribed to channel [c]. *)
Definition channel_ok (g : GateRegistry) (rid : nat) (r : request) (c : nat) : Prop :=
  exists w, channels g !! c = Some w /\
    (w_sender w = true -> waiters g !! r_session r = Some c) /\
    (rid ∈ w_receivers w <-> returned r = false) /\
    (forall d, w_value w = Some d -> A (r_session r) d).

Record inv (s : state) : Prop := {
  inv_registered sid c : waiters (gate s) !! sid = Some c ->
    exists w, channels (gate s) !! c = Some w /\ w_sender w = true;
  inv_injective sid1 sid2 c : waiters (gate s) !! sid1 = Some c ->
    waiters (gate s) !! sid2 = Some c -> sid1 = sid2;
  inv_fresh c w : channels (gate s) !! c = Some w -> c < next_channel (gate s);
  inv_request rid r c : requests s !! rid = Some r -> r_channel r = Some c ->
    channel_ok (gate s) rid r c;
  inv_live sid c : waiters (gate s) !! sid = Some c -> exists rid r,
    requests s !! rid = Some r /\ r_channel r = Some c /\ r_session r = sid /\
    returned r = false;
  inv_phase rid r : requests s !! rid = Some r ->
    (r_channel r = None <-> no_channel (r_phase r) = true);
  inv_decided rid r : requests s !! rid = Some r ->
    phase_decision (r_phase r) = Some Continue -> A (r_session r) Continue;
  inv_first_channel rid r : requests s !! rid = Some r -> r_first r = true ->
    is_Some (r_channel r);
  inv_first_unique rid1 r1 rid2 r2 c :
    requests s !! rid1 = Some r1 -> requests s !! rid2 = Some r2 ->
    r_channel r1 = Some c -> r_channel r2 = Some c ->
    r_first r1 = true -> r_first r2 = true -> rid1 = rid2;
  inv_first_exists rid r c : requests s !! rid = Some r -> r_channel r = Some c ->
    exists rid' r', requests s !! rid' = Some r' /\ r_channel r' = Some c /\
      r_first r' = true }.
End invariant.

(** ** Preservation *)

Lemma inv_mono (A A' : string -> GateDecision -> Prop) s :
  (forall sid d, A sid d -> A' sid d) -> inv A s -> inv A' s.
Proof.
  intros HA []. constructor; try assumption.
  - intros rid r c Hr Hc. destruct (inv_request0 rid r c Hr Hc) as (w & ? & ? & ? & ?).
    exists w. repeat apply conj; eauto; naive_solver.
  - eauto.
Qed.

Lemma gate_inv_init A : inv A init.
Proof. constructor; intros *; rewrite ?lookup_empty; done. Qed.

Lemma inv_with_breaker A b s : inv A s -> inv A (with_breaker b s).
Proof. intros []. by constructor. Qed.

Lemma resolve_waiters sid d g : waiters (resolve sid d g) = waiters g.
Proof. unfold resolve. by case_match. Qed.

Lemma resolve_next sid d g : next_channel (resolve sid d g) = next_channel g.
Proof. unfold resolve. by case_match. Qed.

Lemma resolve_channels sid d g c :
  channels (resolve sid d g) !! c =
  if decide (waiters g !! sid = Some c) then send d <$> channels g !! c else channels g !! c.
Proof.
  unfold resolve. case_decide as Hw.
  - rewrite Hw. simpl. by rewrite lookup_alter_eq.
  - case_match; simpl; [|done]. rewrite lookup_alter_ne; congruence.
Qed.

Lemma send_fields d w :
  w_sender (send d w) = w_sender w /\ w_receivers (send d w) = w_receivers w.
Proof. unfold send. by case_decide. Qed.

Lemma send_value d w d' : w_value (send d w) = Some d' -> w_value w = Some d' \/ d' = d.
Proof. unfold send. case_decide; naive_solver. Qed.

Lemma inv_resolve A sid d s : inv A s -> A sid d -> inv A (with_gate (resolve sid d (gate s)) s).
Proof.
  intros [] HA.
  constructor; simpl; intros *; rewrite ?resolve_waiters, ?resolve_next, ?resolve_channels;
    eauto.
  - intros Hw. destruct (inv_registered0 _ _ Hw) as (w & Hc & Hs).
    rewrite Hc. case_decide; simpl; [|eauto].
    exists (send d w). by rewrite (proj1 (send_fields d w)).
  - intros Hc. destruct (channels (gate s) !! c) as [w'|] eqn:E; [eauto|].
    exfalso. by case_decide.
  - intros Hr Hc. destruct (inv_request0 _ _ _ Hr Hc) as (w & Hw & Hsend & Hrec & Hval).
    unfold channel_ok. rewrite resolve_waiters, resolve_channels, Hw.
    case_decide as Hd; simpl; [|eauto].
    exists (send d w). destruct (send_fields d w) as [-> ->]. split_and!; [done..|].
    intros d' [?| ->]%send_value; [eauto|].
    assert (r_session r = sid) as ->; [|done].
    destruct (inv_registered0 _ _ Hd) as (w' & ? & ?). simplify_eq. eauto.
Qed.

Lemma inv_resolve_all A d s :
  (forall sid, A sid d) -> inv A s -> inv A (with_gate (resolve_all d (gate s)).1 s).
Proof.
  intros HA. unfold resolve_all; simpl. generalize (map_to_list (waiters (gate s))).*1.
  intros l. revert s. induction l as [|sid l IH]; intros s Hinv; simpl.
  - by destruct s.
  - apply (IH (with_gate (resolve sid d (gate s)) s)). by apply inv_resolve.
Qed.

(** Which request a number names after [set_phase]. *)
Lemma set_phase_lookup rid p s rid' :
  requests (set_phase rid p s) !! rid' =
  if decide (rid = rid')
  then (fun r => mkRequest (r_session r) (r_channel r) (r_first r) p) <$> requests s !! rid'
  else requests s !! rid'.
Proof.
  simpl. case_decide; subst; [by rewrite lookup_alter_eq|by rewrite lookup_alter_ne].
Qed.

(** A request that moves on while it keeps its channel and receiver. *)
Lemma inv_set_phase A rid p s r :
  inv A s -> requests s !! rid = Some r -> is_Some (r_channel r) -> returned r = false ->
  no_channel p = false -> (forall d, p <> Returned d) ->
  (phase_decision p = Some Continue -> A (r_session r) Continue) ->
  inv A (set_phase rid p s).
Proof.
  intros [] Hr [c0 Hc0] Hret Hno Hp Hdec.
  assert (forall rid' r', requests (set_phase rid p s) !! rid' = Some r' ->
    exists r0, requests s !! rid' = Some r0 /\ r_session r' = r_session r0 /\
      r_channel r' = r_channel r0 /\ r_first r' = r_first r0 /\
      returned r' = returned r0 /\ (r_phase r' = r_phase r0 \/ r0 = r /\ r_phase r' = p))
    as Hback.
  { intros rid' r'. rewrite set_phase_lookup. case_decide; subst; [|naive_solver].
    rewrite Hr. intros [= <-]. exists r. simpl. split_and!; auto.
    rewrite Hret. unfold returned; simpl. destruct p; naive_solver. }
  assert (forall rid' r0, requests s !! rid' = Some r0 -> exists r',
    requests (set_phase rid p s) !! rid' = Some r' /\ r_session r' = r_session r0 /\
      r_channel r' = r_channel r0 /\ r_first r' = r_first r0 /\
      returned r' = returned r0) as Hfwd.
  { intros rid' r0 Hr0. rewrite set_phase_lookup. case_decide; subst; [|naive_solver].
    rewrite Hr0. simplify_eq. simpl. eexists; split_and!; [done..|].
    rewrite Hret. unfold returned; simpl. destruct p; naive_solver. }
  constructor; try done.
  - intros rid' r' c (r0 & H0 & Hs & Hc & _ & Hret' & _)%Hback Hc'.
    rewrite Hc in Hc'. unfold channel_ok. rewrite Hs, Hret'. exact (inv_request0 _ _ _ H0 Hc').
  - intros sid c (rid' & r0 & H0 & ? & ? & ?)%inv_live0.
    destruct (Hfwd _ _ H0) as (r' & ? & ? & ? & ? & ?). exists rid', r'. by split_and!; congruence.
  - intros rid' r' (r0 & H0 & _ & Hc & _ & _ & [Hph|[-> Hph]])%Hback; rewrite Hc, Hph.
    + eauto.
    + rewrite Hno, Hc0. done.
  - intros rid' r' (r0 & H0 & Hs & _ & _ & _ & [Hph|[-> Hph]])%Hback; rewrite Hs, Hph; eauto.
  - intros rid' r' (r0 & H0 & _ & Hc & Hf & _)%Hback. rewrite Hc, Hf. eauto.
  - intros rid1 r1 rid2 r2 c (?&?&_&Hc1&Hf1&_)%Hback (?&?&_&Hc2&Hf2&_)%Hback.
    rewrite Hc1, Hc2, Hf1, Hf2. eauto.
  - intros rid' r' c (r0 & H0 & _ & Hc & _)%Hback. rewrite Hc. intros Hc'.
    destruct (inv_first_exists0 _ _ _ H0 Hc') as (rid1 & r1 & H1 & ? & ?).
    destruct (Hfwd _ _ H1) as (r2 & ? & ? & ? & ? & ?). exists rid1, r2. by split_and!; congruence.
Qed.

(** Case analysis on whether a request number is the one just written. *)
Ltac by_request :=
  repeat match goal with
  | H : context [<[?i := _]> _ !! ?j] |- _ =>
      rewrite lookup_insert in H; case_decide; simplify_eq/=
  end.

Lemma inv_arrive A rid sid p s :
  inv A s -> requests s !! rid = None -> no_channel p = true ->
  inv A (mkState (gate s) (breaker s)
           (<[rid := mkRequest sid None false p]> (requests s))).
Proof.
  intros [] Hnone Hp. constructor; simpl; try assumption.
  - intros rid' r c Hr Hc. by_request. eauto.
  - intros sid' c (rid' & r & ? & ?)%inv_live0. exists rid', r.
    rewrite lookup_insert_ne by congruence. done.
  - intros rid' r Hr. by_request; [by split|exact (inv_phase0 _ _ Hr)].
  - intros rid' r Hr. by_request; [|eauto]. by destruct p.
  - intros rid' r Hr Hf. by_request. eauto.
  - intros rid1 r1 rid2 r2 c H1 H2 Hc1 Hc2. by_request. eauto.
  - intros rid' r c Hr Hc. by_request.
    destruct (inv_first_exists0 _ _ _ Hr Hc) as (rid1 & r1 & ? & ?).
    exists rid1, r1. rewrite lookup_insert_ne by congruence. done.
Qed.

(** Subscribing to the prompt that is already open for the session. *)
Lemma inv_subscribe_open A rid sid c s :
  inv A s -> requests s !! rid = Some (mkRequest sid None false Gated) ->
  waiters (gate s) !! sid = Some c ->
  inv A (mkState (mkRegistry (waiters (gate s))
                    (alter (add_receiver rid) c (channels (gate s))) (next_channel (gate s)))
           (breaker s) (<[rid := mkRequest sid (Some c) false Waiting]> (requests s))).
Proof.
  intros [] Hrid Hw.
  destruct (inv_live0 _ _ Hw) as (rid0 & r0 & Hr0 & Hc0 & Hs0 & Hret0).
  assert (rid <> rid0) as Hne by (intros <-; rewrite Hrid in Hr0; injection Hr0 as <-; discriminate).
  constructor; simpl; try assumption.
  - intros sid' c' (w & Hc' & ?)%inv_registered0. rewrite lookup_alter.
    case_decide; subst; [|eauto]. rewrite Hc'. simpl. eauto.
  - intros c' w. rewrite lookup_alter. case_decide; subst; [|eauto].
    destruct (channels (gate s) !! c') eqn:E; [eauto|done].
  - intros rid' r c' Hr Hc'. unfold channel_ok; simpl. rewrite lookup_alter. by_request.
    + destruct (inv_request0 _ _ _ Hr0 Hc0) as (w & -> & ? & ? & ?).
      rewrite decide_True by done. simpl. eexists. split_and!; [done|done| |done].
      simpl. set_solver.
    + destruct (inv_request0 _ _ _ Hr Hc') as (w & Hcw & ? & ? & ?).
      case_decide; subst; rewrite Hcw; simpl; [|by exists w].
      eexists. split_and!; [done|done| |done]. simpl. set_solver.
  - intros sid' c' (rid' & r & ? & ?)%inv_live0.
    destruct (decide (rid = rid')) as [->|]; [naive_solver|].
    exists rid', r. by rewrite lookup_insert_ne.
  - intros rid' r Hr. by_request; [by split|exact (inv_phase0 _ _ Hr)].
  - intros rid' r Hr. by_request; [done|eauto].
  - intros rid' r Hr Hf. by_request. eauto.
  - intros rid1 r1 rid2 r2 c' H1 H2 Hc1 Hc2 Hf1 Hf2. by_request. eauto.
  - intros rid' r c' Hr Hc'.
    assert (exists rid1 r1, requests s !! rid1 = Some r1 /\ r_channel r1 = Some c' /\
      r_first r1 = true) as (rid1 & r1 & ? & ? & ?) by (by_request; eauto).
    exists rid1, r1. rewrite lookup_insert_ne by naive_solver. done.
Qed.

(** Subscribing when no prompt is open creates the channel. *)
Lemma inv_subscribe_new A rid sid s :
  inv A s -> requests s !! rid = Some (mkRequest sid None false Gated) ->
  waiters (gate s) !! sid = None ->
  let c := next_channel (gate s) in
  inv A (mkState (mkRegistry (<[sid := c]> (waiters (gate s)))
                    (<[c := mkWatch None true {[rid]}]> (channels (gate s))) (S c))
           (breaker s) (<[rid := mkRequest sid (Some c) true Waiting]> (requests s))).
Proof.
  intros [] Hrid Hw c.
  assert (forall rid' r c', requests s !! rid' = Some r -> r_channel r = Some c' -> c <> c')
    as Hfresh.
  { intros rid' r c' Hr Hc' <-. destruct (inv_request0 _ _ _ Hr Hc') as (w & Hc & _).
    apply inv_fresh0 in Hc. unfold c in Hc. lia. }
  assert (forall sid' c', waiters (gate s) !! sid' = Some c' -> c <> c') as Hfresh'.
  { intros sid' c' (w & Hc & _)%inv_registered0 <-. apply inv_fresh0 in Hc.
    unfold c in Hc. lia. }
  constructor; simpl.
  - intros sid' c'. rewrite lookup_insert. case_decide; subst.
    + intros [= <-]. rewrite lookup_insert_eq. eauto.
    + intros Hs. rewrite lookup_insert_ne by eauto. eauto.
  - intros sid1 sid2 c'. rewrite !lookup_insert. repeat case_decide; naive_solver.
  - intros c' w. rewrite lookup_insert. case_decide; subst; [lia|].
    intros ?%inv_fresh0. unfold c. lia.
  - intros rid' r c' Hr Hc'. unfold channel_ok; simpl. by_request.
    + rewrite !lookup_insert_eq. eexists. split_and!; [done|done|set_solver|done].
    + rewrite (lookup_insert_ne (channels _)) by eauto.
      destruct (inv_request0 _ _ _ Hr Hc') as (w & -> & Hs & ?). exists w.
      split_and!; try done; [|naive_solver..].
      intros Hsend. rewrite lookup_insert_ne; [by auto|].
      intros ->. rewrite Hs in Hw; done.
  - intros sid' c'. rewrite lookup_insert. case_decide; subst.
    + intros [= <-]. eexists rid, _. rewrite lookup_insert_eq. done.
    + intros (rid' & r & Hr & Hc & ?)%inv_live0. exists rid', r.
      rewrite lookup_insert_ne by naive_solver. done.
  - intros rid' r Hr. by_request; [by split|exact (inv_phase0 _ _ Hr)].
  - intros rid' r Hr. by_request; [done|eauto].
  - intros rid' r Hr Hf. by_request; eauto.
  - intros rid1 r1 rid2 r2 c' H1 H2 Hc1 Hc2. by_request; try done;
      try (exfalso; eapply Hfresh; done). eauto.
  - intros rid' r c' Hr Hc'. by_request.
    + eexists rid', _. by rewrite lookup_insert_eq.
    + destruct (inv_first_exists0 _ _ _ Hr Hc') as (rid1 & r1 & ? & ? & ?).
      exists rid1, r1. rewrite lookup_insert_ne by naive_solver. done.
Qed.

Lemma clear_waiters sid g : waiters (clear sid g) = delete sid (waiters g).
Proof. unfold clear. case_match; simpl; [done|]. by rewrite delete_id. Qed.

Lemma clear_channels sid g c :
  channels (clear sid g) !! c =
  (if decide (waiters g !! sid = Some c) then fmap drop_sender else id) (channels g !! c).
Proof.
  unfold clear. case_decide as Hw.
  - rewrite Hw. simpl. by rewrite lookup_alter_eq.
  - case_match; simpl; [|done]. rewrite lookup_alter_ne; congruence.
Qed.

Lemma clear_next sid g : next_channel (clear sid g) = next_channel g.
Proof. unfold clear. by case_match. Qed.

(** What finishing request [rid] (clear, then drop the receiver) does to a channel:
    the value stays, the sender goes if the channel was its session's. *)
Lemma finish_channels rid c sid g c' w :
  channels g !! c' = Some w ->
  exists w', channels (drop_receiver rid c (clear sid g)) !! c' = Some w' /\
    w_value w' = w_value w /\
    w_sender w' = (if decide (waiters g !! sid = Some c') then false else w_sender w) /\
    w_receivers w' = (if decide (c = c') then w_receivers w ∖ {[rid]} else w_receivers w).
Proof.
  intros Hw. simpl. rewrite lookup_alter, !clear_channels.
  repeat case_decide; subst; simpl; rewrite Hw; simpl; eexists; split_and!; done.
Qed.

Lemma finish_channels_inv rid c sid g c' w' :
  channels (drop_receiver rid c (clear sid g)) !! c' = Some w' ->
  is_Some (channels g !! c').
Proof.
  simpl. rewrite lookup_alter, !clear_channels.
  repeat case_decide; subst; simpl; destruct (channels g !! c'); simpl; done.
Qed.

Lemma inv_finish A rid sid c f d s :
  inv A s -> requests s !! rid = Some (mkRequest sid (Some c) f (BreakerReset d)) ->
  inv A (set_phase rid (Returned d) (with_gate (drop_receiver rid c (clear sid (gate s))) s)).
Proof.
  intros [] Hrid.
  set (s' := with_gate _ s).
  assert (requests s' = requests s) as Hreq by done.
  assert (waiters (gate (set_phase rid (Returned d) s')) = delete sid (waiters (gate s)))
    as Hwait by apply clear_waiters.
  assert (forall rid' r', requests (set_phase rid (Returned d) s') !! rid' = Some r' ->
    exists r0, requests s !! rid' = Some r0 /\ r_session r' = r_session r0 /\
      r_channel r' = r_channel r0 /\ r_first r' = r_first r0 /\
      ((r' = r0 /\ rid <> rid') \/ (rid = rid' /\ r_phase r' = Returned d))) as Hback.
  { intros rid' r'. rewrite set_phase_lookup, Hreq. case_decide; subst; [|naive_solver].
    rewrite Hrid. intros [= <-]. eexists; split_and!; eauto. }
  constructor; try rewrite Hwait.
  - intros sid' c' [Hne Hsid']%lookup_delete_Some.
    destruct (inv_registered0 _ _ Hsid') as (w & Hc & Hs).
    destruct (finish_channels rid c sid _ _ _ Hc) as (w' & ? & _ & Hsend & _).
    exists w'. split; [done|]. rewrite Hsend. rewrite decide_False; [done|].
    intros Hw. apply Hne. eauto.
  - intros sid1 sid2 c' [_ H1]%lookup_delete_Some [_ H2]%lookup_delete_Some. eauto.
  - intros c' w' [w Hw]%finish_channels_inv.
    change (c' < next_channel (clear sid (gate s))). rewrite clear_next. eauto.
  - intros rid' r' c' (r0 & H0 & Hs & Hc & _ & Hcase)%Hback Hc'. rewrite Hc in Hc'.
    destruct (inv_request0 _ _ _ H0 Hc') as (w & Hw & Hsend & Hrec & Hval).
    destruct (finish_channels rid c sid _ _ _ Hw) as (w' & Hw' & Hv & Hs' & Hr').
    exists w'. rewrite Hs, Hv, Hs', Hr', Hwait. clear Hs' Hr'. split_and!; [done| | |done].
    + case_decide as Hd; [done|]. intros Halive. rewrite lookup_delete_Some. split; [|auto].
      intros Heq. apply Hd. rewrite Heq. auto.
    + destruct Hcase as [[-> Hne]|[<- Hp]].
      * rewrite <- Hrec. case_decide; set_solver.
      * assert (c' = c) as -> by (rewrite Hrid in H0; by simplify_eq/=).
        rewrite decide_True by done. unfold returned. rewrite Hp. set_solver.
  - intros sid' c' [Hne Hw]%lookup_delete_Some.
    destruct (inv_live0 _ _ Hw) as (rid' & r & Hr & Hc & Hs & Hret).
    destruct (decide (rid = rid')) as [<-|Hrr]; [naive_solver|].
    exists rid', r. rewrite set_phase_lookup, decide_False by done. done.
  - intros rid' r' (r0 & H0 & _ & Hc & _ & [[-> _]|[<- Hp]])%Hback; [exact (inv_phase0 _ _ H0)|].
    rewrite Hrid in H0. simplify_eq. rewrite Hp, Hc. done.
  - intros rid' r' (r0 & H0 & Hs & _ & _ & [[-> _]|[<- Hp]])%Hback; [eauto|].
    rewrite Hrid in H0. simplify_eq. rewrite Hp, Hs. simpl. intros [= ->].
    by apply (inv_decided0 _ _ Hrid).
  - intros rid' r' (r0 & H0 & _ & Hc & Hf & _)%Hback. rewrite Hc, Hf. eauto.
  - intros rid1 r1 rid2 r2 c' (?&?&_&Hc1&Hf1&_)%Hback (?&?&_&Hc2&Hf2&_)%Hback.
    rewrite Hc1, Hc2, Hf1, Hf2. eauto.
  - intros rid' r' c' (r0 & H0 & _ & Hc & _)%Hback. rewrite Hc. intros Hc'.
    destruct (inv_first_exists0 _ _ _ H0 Hc') as (rid1 & r1 & H1 & ? & ?).
    destruct (decide (rid = rid1)) as [<-|].
    + rewrite Hrid in H1. injection H1 as <-. eexists rid, _.
      rewrite set_phase_lookup, decide_True, Hreq, Hrid by done. simpl. eauto.
    + exists rid1, r1. rewrite set_phase_lookup, decide_False by done. done.
Qed.

(** Every step keeps the invariant, counting the answer it may carry. *)
Lemma gate_inv_step A A' s e s' :
  inv A s -> exec s e = Some s' ->
  (forall sid d, A sid d -> A' sid d) ->
  (forall sid d, answers e sid d = true -> A' sid d) ->
  inv A' s'.
Proof.
  intros Hinv Hexec HA Hans. apply (inv_mono A A') in Hinv; [|done]. clear A HA.
  pose proof Hinv as [_ _ _ _ _ Hphase _ _ _ _].
  destruct e as [rid sid|rid|rid sid o|sid d|d|now sid|now|t|rid|rid|now rid|rid];
    simpl in Hexec.
  - case_match eqn:E; simplify_eq. apply inv_arrive; [done..|]. by case_match.
  - case_match eqn:E; simplify_eq. destruct r as [sid oc f []]; simplify_eq.
    assert (oc = None) as -> by (by apply (Hphase _ _ E)).
    assert (f = false) as ->.
    { destruct f; [|done]. by destruct (inv_first_channel _ _ Hinv _ _ E). }
    unfold subscribe in Hexec.
    destruct (waiters (gate s) !! sid) as [c|] eqn:Ew; simplify_eq.
    + by apply inv_subscribe_open.
    + by apply inv_subscribe_new.
  - case_match eqn:E; simplify_eq. destruct r as [sid' oc [] p]; simplify_eq.
    case_decide; subst; simplify_eq. destruct (dialog_decision o) as [d|] eqn:Ed; simplify_eq.
    + apply inv_resolve; [done|]. apply Hans. simpl. by rewrite Ed, !bool_decide_true.
    + done.
  - simplify_eq. apply inv_resolve; [done|]. apply Hans. simpl. by rewrite !bool_decide_true.
  - simplify_eq. apply inv_resolve_all; [|done]. intros sid. apply Hans. simpl.
    by rewrite bool_decide_true.
  - simplify_eq. by apply inv_with_breaker.
  - simplify_eq. by apply inv_with_breaker.
  - simplify_eq. by apply inv_with_breaker.
  - apply bind_Some in Hexec as ([r w] & Hw & (d & Hd & [= <-])%bind_Some).
    unfold waiting_on in Hw. apply bind_Some in Hw as (r' & Hr & Hw).
    destruct r' as [sid oc f []]; simplify_eq/=. destruct oc as [c|]; simplify_eq/=.
    apply bind_Some in Hw as (w' & Hw' & [= <- <-]).
    eapply inv_set_phase; [done|exact Hr|done..|]. simpl. intros [= ->].
    destruct (inv_request _ _ Hinv _ _ _ Hr eq_refl) as (w0 & ? & _ & _ & Hv). simplify_eq.
    apply Hv. unfold poll in Hd. case_match; simplify_eq; [done|]. by case_match.
  - apply bind_Some in Hexec as ([r w] & Hw & Hd).
    unfold waiting_on in Hw. apply bind_Some in Hw as (r' & Hr & Hw).
    destruct r' as [sid oc f []]; simplify_eq/=. destruct oc as [c|]; simplify_eq/=.
    destruct (poll w); simplify_eq. eapply inv_set_phase; [done|exact Hr|done..].
  - case_match eqn:E; simplify_eq. destruct r as [sid oc f []]; simplify_eq.
    apply (inv_set_phase _ _ _ _ (mkRequest sid oc f (Decided d))); try done.
    + by apply inv_with_breaker.
    + simpl. destruct oc; [done|]. destruct (Hphase _ _ E) as [H _]. by specialize (H eq_refl).
    + apply (inv_decided _ _ Hinv _ _ E).
  - case_match eqn:E; simplify_eq. destruct r as [sid [c|] f []]; simplify_eq.
    by eapply inv_finish.
Qed.

(** A human's answer somewhere in a history. *)
Definition answered (evs : list event) (sid : string) (d : GateDecision) : Prop :=
  exists e, e ∈ evs /\ answers e sid d = true.

Lemma gate_inv_trace evs s : trace step init evs s -> inv (answered evs) s.
Proof.
  intros Htr. apply (trace_history_invariant step (fun evs s => inv (answered evs) s) init);
    [|done|apply gate_inv_init].
  intros evs1 s1 e s2 Hinv Hstep. eapply gate_inv_step; [done|done|..].
  - intros sid d (e' & ? & ?). exists e'. split; [|done]. apply elem_of_app. auto.
  - intros sid d He. exists e. split; [|done]. apply elem_of_app. right. by constructor.
Qed.

Lemma exec_all_trace s evs s' : exec_all s evs = Some s' -> trace step s evs s'.
Proof. apply exec_list_trace. Qed.

(** A waiting request whose channel has something to read runs to its return. *)
Lemma await_completes now rid s r c w d :
  requests s !! rid = Some r -> r_phase r = Waiting -> r_channel r = Some c ->
  channels (gate s) !! c = Some w -> poll w = Some d ->
  exists s', exec_all s (await_events now rid) = Some s' /\
    r_phase <$> requests s' !! rid = Some (Returned d).
Proof.
  intros Hr Hp Hc Hw Hd. destruct r as [sid oc f p]; simpl in *; subst.
  unfold exec_all, exec_list, await_events. simpl. unfold waiting_on. rewrite Hr. simpl.
  rewrite Hw. simpl. rewrite Hd. simpl. rewrite lookup_alter_eq, Hr. simpl.
  rewrite !lookup_alter_eq, Hr. simpl. eexists. split; [done|]. simpl.
  by rewrite !lookup_alter_eq, Hr.
Qed.

(** What a waiting request finds on its channel right after an answer. *)
Lemma poll_after_resolve A s rid r d :
  inv A s -> requests s !! rid = Some r -> r_phase r = Waiting ->
  exists c w d', r_channel r = Some c /\
    channels (resolve (r_session r) d (gate s)) !! c = Some w /\ poll w = Some d' /\
    (waiters (gate s) !! r_session r = Some c -> d' = d).
Proof.
  intros Hinv Hr Hp. destruct (r_channel r) as [c|] eqn:Hc.
  2:{ apply (inv_phase _ _ Hinv _ _ Hr) in Hc. by rewrite Hp in Hc. }
  destruct (inv_request _ _ Hinv _ _ _ Hr Hc) as (w & Hw & Hsend & Hrec & _).
  assert (w_receivers w <> ∅) as Hne.
  { intros He. rewrite He in Hrec. unfold returned in Hrec. rewrite Hp in Hrec. set_solver. }
  exists c. setoid_rewrite resolve_channels. case_decide as Hreg.
  - rewrite Hw. exists (send d w), d. simpl. unfold send. by rewrite decide_False.
  - exists w. unfold poll. destruct (w_value w) as [d0|]; [by exists d0|].
    destruct (w_sender w); [naive_solver|]. by exists Stop.
Qed.

(** ** Properties *)

(** C36. No request is forwarded past the gate without a human: if it returned
    [Continue], somebody answered [Continue] for its session (in a dialog, or
    through the reset or reset-all endpoint) earlier in the run. *)
Theorem continue_needs_human (evs : list event) (s : state) (rid : nat) (r : request)
    (Hrun : trace step init evs s) (Hr : requests s !! rid = Some r)
    (Hret : r_phase r = Returned Continue) :
  answered evs (r_session r) Continue.
Proof.
  apply (inv_decided _ _ (gate_inv_trace _ _ Hrun) _ _ Hr). by rewrite Hret.
Qed.

(** A run in which a tripped session's request is held, answered and returned. *)
Definition continue_run : list event :=
  [RecordTurn (mkTurn 0 "s" 10 false 10); Arrive 0 "s"; Subscribe 0;
   Dialog 0 "s" Yes; Observe 0; AfterReset 1 0; AfterClear 0].

Lemma continue_needs_human_witness : answered continue_run "s" Continue.
Proof.
  destruct (exec_all init continue_run) as [s|] eqn:E; [|vm_compute in E; discriminate].
  destruct (requests s !! 0) as [r|] eqn:Hr.
  - assert (Some r = Some (mkRequest "s" (Some 0) true (Returned Continue))) as [= ->].
    { rewrite <- Hr. vm_compute in E. injection E as <-. reflexivity. }
    exact (continue_needs_human continue_run s 0 _ (exec_all_trace _ _ _ E) Hr eq_refl).
  - exfalso. vm_compute in E. injection E as <-. discriminate.
Defined.

(** The prompt of a channel is surfaced exactly once: of all requests that
    ever subscribed to a channel, one and only one was told it is the first
    (the one that fires the dialog and the toast). *)
Theorem one_prompt_per_channel (evs : list event) (s : state) (rid : nat) (r : request)
    (c : nat) (Hrun : trace step init evs s) (Hr : requests s !! rid = Some r)
    (Hc : r_channel r = Some c) :
  exists! rid', exists r', requests s !! rid' = Some r' /\ r_channel r' = Some c /\
    r_first r' = true.
Proof.
  apply gate_inv_trace in Hrun as Hinv.
  destruct (inv_first_exists _ _ Hinv _ _ _ Hr Hc) as (rid1 & r1 & ? & ? & ?).
  exists rid1. split; [eauto|]. intros rid2 (r2 & ? & ? & ?).
  by eapply (inv_first_unique _ _ Hinv).
Qed.

(** Two requests of one session held on the same prompt. *)
Definition shared_run : list event :=
  [RecordTurn (mkTurn 0 "s" 10 false 10); Arrive 0 "s"; Arrive 1 "s"; Subscribe 0; Subscribe 1].

Lemma one_prompt_per_channel_witness :
  exists s, exec_all init shared_run = Some s /\
  exists! rid', exists r', requests s !! rid' = Some r' /\ r_channel r' = Some 0 /\
    r_first r' = true.
Proof.
  destruct (exec_all init shared_run) as [s|] eqn:E; [|vm_compute in E; discriminate].
  exists s. split; [done|].
  apply (one_prompt_per_channel shared_run s 1 (mkRequest "s" (Some 0) false Waiting) 0
           (exec_all_trace _ _ _ E)); [|done].
  vm_compute in E. injection E as <-. reflexivity.
Defined.

(** C37. An answer reaches everyone: in any reachable state, after a decision is
    resolved for its session a waiting request can run to its return, and it
    returns that decision if its channel is still the one registered. *)
Theorem answer_reaches_waiters (evs : list event) (s : state) (rid : nat) (r : request)
    (d : GateDecision) (now : Z)
    (Hrun : trace step init evs s) (Hr : requests s !! rid = Some r)
    (Hwait : r_phase r = Waiting) :
  exists d' s',
    exec_all (with_gate (resolve (r_session r) d (gate s)) s) (await_events now rid) = Some s' /\
    r_phase <$> requests s' !! rid = Some (Returned d') /\
    (waiters (gate s) !! r_session r = r_channel r -> d' = d).
Proof.
  apply gate_inv_trace in Hrun as Hinv.
  destruct (poll_after_resolve _ _ _ _ d Hinv Hr Hwait) as (c & w & d' & Hc & Hw & Hd & Heq).
  destruct (await_completes now rid (with_gate (resolve (r_session r) d (gate s)) s) r c w d')
    as (s' & ? & ?); try done.
  exists d', s'. split_and!; [done..|]. rewrite Hc. auto.
Qed.

Lemma answer_reaches_waiters_witness :
  exists s d' s', exec_all init shared_run = Some s /\
    exec_all (with_gate (resolve "s" Continue (gate s)) s) (await_events 5 1) = Some s' /\
    r_phase <$> requests s' !! 1 = Some (Returned d').
Proof.
  destruct (exec_all init shared_run) as [s|] eqn:E; [|vm_compute in E; discriminate].
  destruct (answer_reaches_waiters shared_run s 1 (mkRequest "s" (Some 0) false Waiting)
              Continue 5 (exec_all_trace _ _ _ E)) as (d' & s' & ? & ? & _).
  - vm_compute in E. injection E as <-. reflexivity.
  - reflexivity.
  - exists s, d', s'. split_and!; done.
Defined.

(** The run of the next theorem. *)
Definition late_clear_run : list event :=
  [RecordTurn (mkTurn 0 "s" 10 false 10); Arrive 0 "s"; Arrive 1 "s"; Arrive 2 "s";
   Subscribe 0; Subscribe 1; Dialog 0 "s" Yes;
   Observe 0; AfterReset 1 0; AfterClear 0;
   Subscribe 2;
   Observe 1; AfterReset 2 1; AfterClear 1;
   Observe 2; AfterReset 3 2; AfterClear 2].

Definition is_timeout (e : event) : bool := match e with Timeout _ => true | _ => false end.

(** A second waiter's late [clear] takes down the next prompt: there is a
    run with no timeout and in which the only human answer is one [Continue],
    and a request still returns [Stop] (its freshly created channel is removed
    by another request of the same session finishing the earlier prompt). *)
Theorem late_clear_stops_fresh_prompt :
  (exists s, exec_all init late_clear_run = Some s) /\
  final_phase late_clear_run 0 = Some (Returned Continue) /\
  final_phase late_clear_run 1 = Some (Returned Continue) /\
  final_phase late_clear_run 2 = Some (Returned Stop) /\
  forallb (fun e => negb (is_timeout e) && negb (answers e "s" Stop)) late_clear_run = true.
Proof.
  split_and!; [|vm_compute; reflexivity..].
  destruct (exec_all init late_clear_run) eqn:E; [eauto|vm_compute in E; discriminate].
Qed.

(** The operator endpoints are exactly the atomic steps of the protocol:
    reset is a [Continue] answer then the breaker reset (404 only for a session
    the breaker does not know), reset-all the same for every session, and stop
    a [Stop] answer for one session or for all, with no breaker reset. *)
Theorem breaker_endpoints_refine_steps (now : Z) (sid : string) (s : state) :
  exec_all s [Resolve sid Continue; ResetSession now sid]
    = Some (circuit_breaker_reset now sid s).1 /\
  ((circuit_breaker_reset now sid s).2 = OK <-> is_Some (breaker s !! sid)) /\
  exec_all s [ResolveAll Continue; ResetAll now] = Some (circuit_breaker_reset_all now s).1 /\
  exec_all s [Resolve sid Stop] = Some (circuit_breaker_stop (Some sid) s).1 /\
  exec_all s [ResolveAll Stop] = Some (circuit_breaker_stop None s).1 /\
  (forall sid', sid' ∈ (circuit_breaker_stop None s).2 <-> is_pending sid' (gate s) = true).
Proof.
  unfold circuit_breaker_reset, exec_all, exec_list; simpl.
  destruct (reset now sid (breaker s)) as [b known] eqn:E.
  split_and!; try done.
  - unfold reset in E. destruct (breaker s !! sid); simplify_eq/=; naive_solver.
  - intros sid'. unfold is_pending. rewrite bool_decide_eq_true, list_elem_of_fmap. split.
    + intros ([k c] & -> & Hin%elem_of_map_to_list). simpl. eauto.
    + intros [c Hc]. exists (sid', c). by rewrite elem_of_map_to_list.
Qed.

End Gate.
