(* ===== verification/Pending.v ===== *)
(** * Held approvals: daemon/src/pending.rs and daemon/src/server/pending_routes.rs

    [Module Pending] models the [PendingStore] (a locked map of entries), the
    oneshot channel through which each holder is answered, the timers that time
    entries out, and the [Claim] guard that takes an entry's resolver while
    agentpactd is being told.  Ownership of a channel's sender is explicit: an
    entry or a claim holds its number, and dropping the owner drops the sender.

    Handlers run concurrently: [exec] is one atomic (lock-protected) operation,
    and the steps of a resolve handler before and after its call to agentpactd
    are separate events. *)

From S2P Require Import Prelude.

Module Pending.

Inductive PendingState := Held | Approved | Denied | TimedOut | Cancelled.

#[export] Instance PendingState_eq_dec : EqDecision PendingState.
Proof. solve_decision. Defined.

(** tokio::sync::oneshot as its receiver sees it: no answer yet, an answer
    ([Resolution.approved]), or a sender dropped without one. *)
Inductive oneshot := Open | Sent (approved : bool) | Dropped.

#[export] Instance oneshot_eq_dec : EqDecision oneshot.
Proof. solve_decision. Defined.

Record PendingEntry := mkEntry {
  approval_token : string;
  server : string;
  tool : option string;
  code : option string;
  agent : string;
  pstate : PendingState;
  created : Z;
  allow_always : bool;
  detail : option string;
  resolver : option nat;
  timeout_handle : option nat }.

(** A spawned timeout task: which entry it will time out, and whether it is
    still going to run. *)
Record timer := mkTimer { timer_id : string; timer_live : bool }.

Record store := mkStore {
  entries : gmap string PendingEntry;
  channels : gmap nat oneshot;
  next_channel : nat;
  timers : gmap nat timer;
  next_timer : nat }.

Definition new : store := mkStore ∅ ∅ 0 ∅ 0.

Record Claim := mkClaim {
  c_id : string;
  c_token : string;
  c_resolver : option nat;
  c_completed : bool }.

Inductive ResolveError :=
| NotFound
| AlreadyResolved (s : PendingState)
| NoLongerResolvable (s : PendingState).

(** ** Primitive effects *)

Definition with_entries (es : gmap string PendingEntry) (st : store) : store :=
  mkStore es (channels st) (next_channel st) (timers st) (next_timer st).

Definition send_to (c : nat) (b : bool) (st : store) : store :=
  mkStore (entries st)
    (alter (fun o => match o with Open => Sent b | o => o end) c (channels st))
    (next_channel st) (timers st) (next_timer st).

Definition send_opt (oc : option nat) (b : bool) (st : store) : store :=
  match oc with Some c => send_to c b st | None => st end.

Definition drop_sender (c : nat) (st : store) : store :=
  mkStore (entries st)
    (alter (fun o => match o with Open => Dropped | o => o end) c (channels st))
    (next_channel st) (timers st) (next_timer st).

Definition drop_opt (oc : option nat) (st : store) : store :=
  match oc with Some c => drop_sender c st | None => st end.

(** [JoinHandle::abort]; dropping a handle without it leaves the task running. *)
Definition abort (ot : option nat) (st : store) : store :=
  match ot with
  | Some t => mkStore (entries st) (channels st) (next_channel st)
                (alter (fun tm => mkTimer (timer_id tm) false) t (timers st)) (next_timer st)
  | None => st
  end.

Definition set_entry (id : string) (f : PendingEntry -> PendingEntry) (st : store) : store :=
  with_entries (alter f id (entries st)) st.

Definition with_state (s : PendingState) (e : PendingEntry) : PendingEntry :=
  mkEntry (approval_token e) (server e) (tool e) (code e) (agent e) s (created e)
    (allow_always e) (detail e) (resolver e) (timeout_handle e).

Definition with_resolver (r : option nat) (e : PendingEntry) : PendingEntry :=
  mkEntry (approval_token e) (server e) (tool e) (code e) (agent e) (pstate e) (created e)
    (allow_always e) (detail e) r (timeout_handle e).

Definition with_handle (h : option nat) (e : PendingEntry) : PendingEntry :=
  mkEntry (approval_token e) (server e) (tool e) (code e) (agent e) (pstate e) (created e)
    (allow_always e) (detail e) (resolver e) h.

(** ** The store's operations *)

(** What a caller of [hold] supplies. *)
Record hold_args := mkHold {
  h_id : string;
  h_token : string;
  h_server : string;
  h_tool : option string;
  h_code : option string;
  h_agent : string;
  h_allow_always : bool;
  h_detail : option string }.

(** Returns the channel whose receiver the caller gets. *)
Definition hold (now : Z) (a : hold_args) (st : store) : store * nat :=
  let c := next_channel st in
  let st1 := mkStore (entries st) (<[c := Open]> (channels st)) (S c) (timers st)
               (next_timer st) in
  let st2 := match entries st1 !! h_id a with
             | Some old => abort (timeout_handle old) (drop_opt (resolver old) st1)
             | None => st1
             end in
  let entry := mkEntry (h_token a) (h_server a) (h_tool a) (h_code a) (h_agent a) Held now
                 (h_allow_always a) (h_detail a) (Some c) None in
  (with_entries (<[h_id a := entry]> (entries st2)) st2, c).

(** Assigning the handle drops (and so detaches) an earlier one. *)
Definition set_timeout_handle (id : string) (t : nat) (st : store) : store :=
  set_entry id (with_handle (Some t)) st.

Definition claim (id : string) (st : store) : store * (ResolveError + Claim) :=
  match entries st !! id with
  | None => (st, inl NotFound)
  | Some entry =>
      match pstate entry with
      | Held =>
          match resolver entry with
          | None => (st, inl (AlreadyResolved Held))
          | Some c =>
              (set_entry id (with_resolver None ∘ with_handle None)
                 (abort (timeout_handle entry) st),
               inr (mkClaim id (approval_token entry) (Some c) false))
          end
      | (TimedOut | Cancelled) as s => (st, inl (NoLongerResolvable s))
      | s => (st, inl (AlreadyResolved s))
      end
  end.

Definition complete_claim (cl : Claim) (approved : bool) (st : store) : store :=
  let st1 := send_opt (c_resolver cl) approved st in
  match entries st1 !! c_id cl with
  | Some entry =>
      match pstate entry with
      | Held => set_entry (c_id cl)
                  (with_handle None ∘ with_state (if approved then Approved else Denied))
                  (abort (timeout_handle entry) st1)
      | _ => st1
      end
  | None => st1
  end.

(** Assigning [entry.resolver] drops the entry's current sender, if any; with
    no entry left, the claim's own sender is dropped with the claim. *)
Definition abandon_claim (cl : Claim) (st : store) : store :=
  match entries st !! c_id cl with
  | Some entry =>
      set_entry (c_id cl) (with_resolver (c_resolver cl)) (drop_opt (resolver entry) st)
  | None => drop_opt (c_resolver cl) st
  end.

(** [Drop for Claim]: an unfinished claim answers "not approved". *)
Definition drop_claim (cl : Claim) (st : store) : store :=
  if c_completed cl then st else send_opt (c_resolver cl) false st.

Definition timeout (id : string) (st : store) : store :=
  match entries st !! id with
  | Some entry =>
      match pstate entry with
      | Held => set_entry id (with_handle None ∘ with_resolver None ∘ with_state TimedOut)
                  (drop_opt (resolver entry) st)
      | _ => st
      end
  | None => st
  end.

Definition cancel (id : string) (st : store) : store * option string :=
  match entries st !! id with
  | Some entry =>
      match pstate entry with
      | Held =>
          (set_entry id (with_handle None ∘ with_resolver None ∘ with_state Cancelled)
             (abort (timeout_handle entry) (drop_opt (resolver entry) st)),
           Some (approval_token entry))
      | _ => (st, None)
      end
  | None => (st, None)
  end.

Record PendingInfo := mkInfo {
  i_id : string;
  i_server : string;
  i_tool : option string;
  i_code : option string;
  i_agent : string;
  i_state : PendingState;
  i_held_since_ms : Z;
  i_allow_always : bool;
  i_detail : option string }.

(** [elapsed().as_millis() as u64]: a saturating difference of nanoseconds. *)
Definition held_since_ms (now created : Z) : Z :=
  ((Z.max 0 (now - created) / 1000000) mod 18446744073709551616)%Z.

Definition list_entries (now : Z) (st : store) : list PendingInfo :=
  (fun p : string * PendingEntry =>
     mkInfo p.1 (server p.2) (tool p.2) (code p.2) (agent p.2) (pstate p.2)
       (held_since_ms now (created p.2)) (allow_always p.2) (detail p.2))
  <$> map_to_list (entries st).

Definition get_state (id : string) (st : store) : option PendingState :=
  pstate <$> entries st !! id.

Definition list_held (now : Z) (st : store) : list PendingInfo :=
  filter (fun p => i_state p = Held) (list_entries now st).

(** The entries [retain] throws away lose their senders. *)
Definition dropped_resolvers (st : store) : list nat :=
  omap (fun p : string * PendingEntry =>
          if decide (pstate p.2 = Held) then None else resolver p.2)
    (map_to_list (entries st)).

Definition prune_resolved (st : store) : store :=
  let st1 := foldl (fun st c => drop_sender c st) st (dropped_resolvers st) in
  with_entries (filter (fun p => pstate p.2 = Held) (entries st1)) st1.

(** ** The HTTP routes of pending_routes.rs *)

Inductive ResolveDecision := RApproved | RDenied | RAlways.

#[export] Instance ResolveDecision_eq_dec : EqDecision ResolveDecision.
Proof. solve_decision. Defined.

Definition allows_execution (d : ResolveDecision) : bool :=
  match d with RApproved | RAlways => true | RDenied => false end.

Inductive ApprovalOutcome := Yes | Always | No | CouldNotShow.

Definition decision_for_approval_outcome (o : ApprovalOutcome) : option ResolveDecision :=
  match o with
  | Yes => Some RApproved
  | Always => Some RAlways
  | No => Some RDenied
  | CouldNotShow => None
  end.

Definition parse_resolve_decision (value : string) : option ResolveDecision :=
  if String.eqb value "approved" then Some RApproved
  else if String.eqb value "denied" then Some RDenied
  else if String.eqb value "always" then Some RAlways
  else None.

Inductive StatusCode := OK | BAD_REQUEST | NOT_FOUND | CONFLICT | GONE | BAD_GATEWAY.

#[export] Instance StatusCode_eq_dec : EqDecision StatusCode.
Proof. solve_decision. Defined.

(** [resolve_pending] up to the call to agentpactd. *)
Definition resolve_begin (id decision : string) (st : store)
    : store * (StatusCode + (Claim * ResolveDecision)) :=
  match parse_resolve_decision decision with
  | None => (st, inl BAD_REQUEST)
  | Some d =>
      match claim id st with
      | (st', inr cl) => (st', inr (cl, d))
      | (st', inl (NotFound | NoLongerResolvable _)) => (st', inl GONE)
      | (st', inl (AlreadyResolved _)) => (st', inl CONFLICT)
      end
  end.

(** And after it: [ok] is whether agentpactd accepted the response. *)
Definition resolve_finish (ok : bool) (cl : Claim) (d : ResolveDecision) (st : store)
    : store * StatusCode :=
  if ok then (complete_claim cl (allows_execution d) st, OK)
  else (abandon_claim cl st, BAD_GATEWAY).


Definition spawn_timer (id : string) (st : store) : store * nat :=
  (mkStore (entries st) (channels st) (next_channel st)
     (<[next_timer st := mkTimer id true]> (timers st)) (S (next_timer st)),
   next_timer st).

(** [hold_pending]: hold, start the timer, then record its handle. *)
Definition hold_pending (now : Z) (a : hold_args) (st : store) : store * StatusCode :=
  let '(st1, _) := hold now a st in
  let '(st2, t) := spawn_timer (h_id a) st1 in
  (set_timeout_handle (h_id a) t st2, OK).

(** [cancel_pending]; the second component is the denial sent to agentpactd. *)
Definition cancel_pending (id : string) (st : store)
    : store * option (string * ResolveDecision) * StatusCode :=
  let '(st', token) := cancel id st in
  (st', (fun t => (t, RDenied)) <$> token, OK).

Definition pending_status (id : string) (st : store) : StatusCode * option PendingState :=
  match get_state id st with
  | Some s => (OK, Some s)
  | None => (NOT_FOUND, None)
  end.

(** ** Concurrent runs

    [claims] are the resolve tasks between [resolve_begin] and
    [resolve_finish]; [tokens] is a ghost record of which approval token each
    channel was held under. *)

Record sys := mkSys {
  sstore : store;
  claims : gmap nat (Claim * ResolveDecision);
  tokens : gmap nat string }.

Definition init : sys := mkSys new ∅ ∅.

Inductive event :=
| Hold (now : Z) (a : hold_args)
| StartTimer (id : string)
| Begin (task : nat) (id decision : string)
| Finish (task : nat) (token : string) (d : ResolveDecision) (ok : bool)
| Disconnect (task : nat)
| TimerFires (t : nat)
| Cancel (id : string)
| Prune.

Definition with_store (st : store) (s : sys) : sys := mkSys st (claims s) (tokens s).

Definition exec (s : sys) (e : event) : option sys :=
  match e with
  | Hold now a =>
      let '(st, c) := hold now a (sstore s) in
      Some (mkSys st (claims s) (<[c := h_token a]> (tokens s)))
  | StartTimer id =>
      let '(st, t) := spawn_timer id (sstore s) in
      Some (with_store (set_timeout_handle id t st) s)
  | Begin task id decision =>
      match claims s !! task with
      | Some _ => None
      | None =>
          match resolve_begin id decision (sstore s) with
          | (st, inr p) => Some (mkSys st (<[task := p]> (claims s)) (tokens s))
          | (st, inl _) => Some (with_store st s)
          end
      end
  | Finish task token d ok =>
      match claims s !! task with
      | Some (cl, d') =>
          if decide (c_token cl = token /\ d' = d) then
            Some (mkSys (resolve_finish ok cl d (sstore s)).1 (delete task (claims s))
                    (tokens s))
          else None
      | None => None
      end
  | Disconnect task =>
      match claims s !! task with
      | Some (cl, _) =>
          Some (mkSys (drop_claim cl (sstore s)) (delete task (claims s)) (tokens s))
      | None => None
      end
  | TimerFires t =>
      match timers (sstore s) !! t with
      | Some (mkTimer id true) =>
          Some (with_store (timeout id
            (mkStore (entries (sstore s)) (channels (sstore s)) (next_channel (sstore s))
               (<[t := mkTimer id false]> (timers (sstore s))) (next_timer (sstore s)))) s)
      | _ => None
      end
  | Cancel id => Some (with_store (cancel id (sstore s)).1 s)
  | Prune => Some (with_store (prune_resolved (sstore s)) s)
  end.

Definition step (s : sys) (e : event) (s' : sys) : Prop := exec s e = Some s'.

Definition exec_all (s : sys) (es : list event) : option sys := exec_list exec s es.

(** ** Ownership of senders *)

Inductive owner := ByEntry (id : string) | ByClaim (task : nat).

#[export] Instance owner_eq_dec : EqDecision owner.
Proof. solve_decision. Defined.

(** The sender an entry's [resolver] or a claim's [resolver] holds. *)
Definition owns (s : sys) (o : owner) : option nat :=
  match o with
  | ByEntry id => e ← entries (sstore s) !! id; resolver e
  | ByClaim t => p ← claims s !! t; c_resolver p.1
  end.

(** Every owned channel is open, no channel has two owners, and no open channel
    is without one. *)
Definition linear (own : owner -> option nat) (ch : gmap nat oneshot) : Prop :=
  (forall o c, own o = Some c -> ch !! c = Some Open) /\
  (forall o1 o2 c, own o1 = Some c -> own o2 = Some c -> o1 = o2) /\
  (forall c, ch !! c = Some Open -> exists o, own o = Some c).

(** Whether agentpactd accepted, in a history, an allowing response to a token. *)
Definition accepted (evs : list event) (token : string) : Prop :=
  exists task d, Finish task token d true ∈ evs /\ allows_execution d = true.

(** The ids held in a history, oldest first. *)
Definition held_ids (evs : list event) : list string :=
  omap (fun e => match e with Hold _ a => Some (h_id a) | _ => None end) evs.

Lemma linear_owned own ch o c : linear own ch -> own o = Some c -> ch !! c = Some Open.
Proof. intros (HA & _). apply HA. Qed.

Section linear.
Context (own own' : owner -> option nat) (ch ch' : gmap nat oneshot).

Lemma linear_ext :
  linear own ch -> (forall o, own' o = own o) -> (forall c, ch' !! c = ch !! c) ->
  linear own' ch'.
Proof.
  intros (HA & HB & HC) Hown Hch. split_and!.
  - intros o c. rewrite Hown, Hch. apply HA.
  - intros o1 o2 c. rewrite !Hown. apply HB.
  - intros c. rewrite Hch. intros [o Ho]%HC. exists o. by rewrite Hown.
Qed.

(** An owner lets go of its sender, answering or dropping it. *)
Lemma linear_release o c x :
  linear own ch -> own o = Some c -> x <> Open ->
  (forall o', own' o' = if decide (o' = o) then None else own o') ->
  (forall c', ch' !! c' = if decide (c' = c) then Some x else ch !! c') ->
  linear own' ch'.
Proof.
  intros (HA & HB & HC) Ho Hx Hown Hch. split_and!.
  - intros o' c'. rewrite Hown, Hch. repeat case_decide; subst; try done; [|eauto].
    intros Ho'. exfalso. eauto.
  - intros o1 o2 c'. rewrite !Hown. repeat case_decide; try done. eauto.
  - intros c'. rewrite Hch. case_decide; subst; [naive_solver|].
    intros [o' Ho']%HC. exists o'. rewrite Hown. case_decide; subst; naive_solver.
Qed.

(** A sender moves from one owner to another that has none. *)
Lemma linear_transfer o1 o2 :
  linear own ch -> own o2 = None ->
  (forall o, own' o = if decide (o = o2) then own o1
                      else if decide (o = o1) then None else own o) ->
  (forall c, ch' !! c = ch !! c) ->
  linear own' ch'.
Proof.
  intros (HA & HB & HC) Ho2 Hown Hch. split_and!.
  - intros o c. rewrite Hown, Hch. repeat case_decide; naive_solver.
  - intros oa ob c. rewrite !Hown. repeat case_decide; subst; naive_solver.
  - intros c. rewrite Hch. intros [o Ho]%HC.
    destruct (decide (o = o1)) as [->|].
    + exists o2. rewrite Hown. by rewrite decide_True.
    + exists o. rewrite Hown. rewrite !decide_False; [done..|]. intros ->. naive_solver.
Qed.

(** An owner with none gets the sender of a new channel. *)
Lemma linear_fresh o c :
  linear own ch -> own o = None -> ch !! c = None ->
  (forall o', own' o' = if decide (o' = o) then Some c else own o') ->
  (forall c', ch' !! c' = if decide (c' = c) then Some Open else ch !! c') ->
  linear own' ch'.
Proof.
  intros (HA & HB & HC) Ho Hc Hown Hch.
  assert (forall o', own o' <> Some c) as Hno by (intros o' H%HA; congruence).
  split_and!.
  - intros o' c'. rewrite Hown, Hch. repeat case_decide; naive_solver.
  - intros o1 o2 c'. rewrite !Hown. repeat case_decide; naive_solver.
  - intros c'. rewrite Hch. case_decide; subst.
    + intros _. exists o. by rewrite Hown, decide_True.
    + intros [o' Ho']%HC. exists o'. rewrite Hown. case_decide; naive_solver.
Qed.
End linear.

(** ** What the primitive effects touch *)

Lemma entries_abort ot st : entries (abort ot st) = entries st.
Proof. by destruct ot. Qed.
Lemma channels_abort ot st : channels (abort ot st) = channels st.
Proof. by destruct ot. Qed.
Lemma next_abort ot st : next_channel (abort ot st) = next_channel st.
Proof. by destruct ot. Qed.
Lemma entries_drop_opt oc st : entries (drop_opt oc st) = entries st.
Proof. by destruct oc. Qed.
Lemma next_drop_opt oc st : next_channel (drop_opt oc st) = next_channel st.
Proof. by destruct oc. Qed.
Lemma entries_send_opt oc b st : entries (send_opt oc b st) = entries st.
Proof. by destruct oc. Qed.
Lemma next_send_opt oc b st : next_channel (send_opt oc b st) = next_channel st.
Proof. by destruct oc. Qed.

#[local] Hint Rewrite entries_abort channels_abort next_abort entries_drop_opt next_drop_opt
  entries_send_opt next_send_opt : kyris.

(** A channel after its sender, if any, has answered or gone. *)
Definition close_with (x : oneshot) (oc : option nat) (ch : gmap nat oneshot) (c : nat)
    : option oneshot :=
  if decide (oc = Some c)
  then (fun o => match o with Open => x | o => o end) <$> ch !! c
  else ch !! c.

Lemma channels_drop_opt oc st c :
  channels (drop_opt oc st) !! c = close_with Dropped oc (channels st) c.
Proof.
  unfold close_with. destruct oc as [c0|]; [|done]. simpl. rewrite lookup_alter.
  repeat case_decide; naive_solver.
Qed.

Lemma channels_send_opt oc b st c :
  channels (send_opt oc b st) !! c = close_with (Sent b) oc (channels st) c.
Proof.
  unfold close_with. destruct oc as [c0|]; [|done]. simpl. rewrite lookup_alter.
  repeat case_decide; naive_solver.
Qed.

(** When the sender is owned, closing is exactly the release of that owner. *)
Lemma close_with_open x c ch c' :
  ch !! c = Some Open ->
  close_with x (Some c) ch c' = if decide (c' = c) then Some x else ch !! c'.
Proof.
  unfold close_with. intros Hc. repeat case_decide; simplify_eq; [|done].
  by rewrite Hc.
Qed.

Lemma close_with_inv x oc ch c o :
  close_with x oc ch c = Some o -> ch !! c = Some o \/ (oc = Some c /\ ch !! c = Some Open /\ o = x).
Proof.
  unfold close_with. case_decide; [|by left].
  destruct (ch !! c) as [[]|]; simpl; naive_solver.
Qed.

Lemma close_with_is_Some x oc ch c o :
  close_with x oc ch c = Some o -> is_Some (ch !! c).
Proof. intros [->|(_ & -> & _)]%close_with_inv; eauto. Qed.

(** Channels after pruning: those of the thrown-away entries lose their sender. *)
Lemma channels_drop_list l st c :
  channels (foldl (fun st c => drop_sender c st) st l) !! c =
  if decide (c ∈ l)
  then (fun o => match o with Open => Dropped | o => o end) <$> channels st !! c
  else channels st !! c.
Proof.
  revert st. induction l as [|c0 l IH]; intros st.
  - by rewrite decide_False by set_solver.
  - simpl. rewrite IH. simpl. rewrite lookup_alter.
    destruct (decide (c0 = c)) as [->|].
    + rewrite (decide_True (P := c ∈ c :: l)) by set_solver.
      case_decide; [|done]. by destruct (channels st !! c) as [[]|].
    + by rewrite (decide_ext (c ∈ c0 :: l) (c ∈ l)) by set_solver.
Qed.

Lemma entries_drop_list l st :
  entries (foldl (fun st c => drop_sender c st) st l) = entries st /\
  next_channel (foldl (fun st c => drop_sender c st) st l) = next_channel st.
Proof. revert st. induction l as [|c l IH]; intros st; [done|].
  exact (IH (drop_sender c st)).
Qed.

Lemma elem_of_dropped_resolvers st c :
  c ∈ dropped_resolvers st <->
  exists id e, entries st !! id = Some e /\ pstate e <> Held /\ resolver e = Some c.
Proof.
  unfold dropped_resolvers. rewrite list_elem_of_omap. split.
  - intros ([id e] & Hin%elem_of_map_to_list & Hc). simpl in Hc. case_decide; naive_solver.
  - intros (id & e & He & Hp & Hc). exists (id, e). rewrite elem_of_map_to_list. simpl.
    by rewrite decide_False.
Qed.

(** ** The ownership invariant *)

Record inv (s : sys) : Prop := {
  inv_linear : linear (owns s) (channels (sstore s));
  inv_fresh c o : channels (sstore s) !! c = Some o -> c < next_channel (sstore s);
  inv_claims t p : claims s !! t = Some p ->
    is_Some (c_resolver p.1) /\ c_completed p.1 = false }.

Lemma store_inv_init : inv init.
Proof.
  split; [split_and!|done|done].
  - intros [] c; done.
  - intros [] ? c; done.
  - done.
Qed.

(** Normalise projections of stores built by the operations. *)
Ltac norm_store :=
  repeat (simpl in *; autorewrite with kyris in *).

(** Case analysis of a goal about [owns] by owner. *)
Ltac by_owner o :=
  destruct o as [?id|?t]; simpl; norm_store; rewrite ?lookup_alter, ?lookup_insert,
    ?lookup_delete; repeat case_decide; simplify_eq/=; try done;
  try (match goal with |- context [entries ?st !! ?i] => by destruct (entries st !! i) end).

(** The store with one entry taken out and its sender dropped. *)
Definition evict (id : string) (st : store) : store :=
  with_entries (delete id (entries st)) (drop_opt (entries st !! id ≫= resolver) st).

Lemma linear_evict id st cls tks :
  linear (owns (mkSys st cls tks)) (channels st) ->
  linear (owns (mkSys (evict id st) cls tks)) (channels (evict id st)).
Proof.
  intros Hlin. destruct (entries st !! id ≫= resolver) as [c|] eqn:E.
  - assert (channels st !! c = Some Open) as Hc by (by apply (linear_owned _ _ (ByEntry id) _ Hlin)).
    apply (linear_release _ _ _ _ (ByEntry id) c Dropped Hlin); try done.
    + intros o. unfold evict. rewrite E. by_owner o.
    + intros c'. unfold evict. rewrite E. simpl. rewrite lookup_alter.
      repeat case_decide; simplify_eq; [by rewrite Hc|done].
  - apply (linear_ext _ _ _ _ Hlin); unfold evict; rewrite E; [|done].
    intros o. by_owner o.
Qed.

Lemma inv_hold now a st cls tks :
  inv (mkSys st cls tks) ->
  inv (mkSys (hold now a st).1 cls (<[(hold now a st).2 := h_token a]> tks)).
Proof.
  intros [Hlin Hfresh Hcl]. cbn [sstore claims tokens] in *. set (c := next_channel st).
  assert (forall c', is_Some (channels st !! c') -> c' <> c) as Hne.
  { intros c' [o Ho%Hfresh] ->. unfold c in Ho. lia. }
  assert (forall c', channels (hold now a st).1 !! c' =
    if decide (c' = c) then Some Open else channels (evict (h_id a) st) !! c') as Hch.
  { intros c'. unfold hold, evict. simpl.
    destruct (entries st !! h_id a) as [old|] eqn:E; simpl.
    - rewrite channels_abort, !channels_drop_opt. unfold close_with. simpl.
      destruct (decide (c' = c)) as [->|].
      + fold c. rewrite lookup_insert_eq. rewrite decide_False; [done|]. intros Hr.
        apply (Hne c); [|done]. exists Open.
        apply (linear_owned _ _ (ByEntry (h_id a)) _ Hlin). simpl. by rewrite E.
      + by rewrite lookup_insert_ne.
    - rewrite lookup_insert. repeat case_decide; naive_solver. }
  split; cbn [sstore claims tokens].
  - apply (linear_evict (h_id a)) in Hlin as Hmid.
    refine (linear_fresh _ _ _ _ (ByEntry (h_id a)) c Hmid _ _ _ Hch).
    + simpl. by rewrite lookup_delete_eq.
    + unfold evict. simpl. destruct (channels (drop_opt _ st) !! c) eqn:E; [|done].
      rewrite channels_drop_opt in E. apply close_with_is_Some, Hne in E. done.
    + intros o. unfold hold, evict. destruct (entries _ !! h_id a) eqn:E; by_owner o.
  - intros c' o Hc'. rewrite Hch in Hc'.
    assert (next_channel (hold now a st).1 = S c) as ->.
    { unfold hold. simpl. destruct (entries st !! h_id a); norm_store; done. }
    case_decide; subst; [lia|]. unfold evict in Hc'. simpl in Hc'.
    rewrite channels_drop_opt in Hc'. apply close_with_is_Some in Hc' as [o' Ho'%Hfresh].
    unfold c. lia.
  - done.
Qed.

(** No operation but [hold] makes channels. *)
Definition no_new_channels (st st' : store) : Prop :=
  next_channel st' = next_channel st /\
  forall c o, channels st' !! c = Some o -> is_Some (channels st !! c).

(** The ways [inv] is kept when no channel is created. *)
Lemma inv_intro s st' cls' tks' :
  inv s -> no_new_channels (sstore s) st' ->
  linear (owns (mkSys st' cls' tks')) (channels st') ->
  (forall t p, cls' !! t = Some p -> is_Some (c_resolver p.1) /\ c_completed p.1 = false) ->
  inv (mkSys st' cls' tks').
Proof.
  intros [_ Hfresh _] [Hnext Hch] Hlin Hcl. split; [done| |done]. simpl.
  intros c o [o' Ho']%Hch. rewrite Hnext. eauto.
Qed.

Lemma no_new_close st st' x oc :
  next_channel st' = next_channel st ->
  (forall c, channels st' !! c = close_with x oc (channels st) c) ->
  no_new_channels st st'.
Proof. intros ? Hch. split; [done|]. intros c o. rewrite Hch. apply close_with_is_Some. Qed.

Lemma no_new_same st st' :
  next_channel st' = next_channel st -> channels st' = channels st -> no_new_channels st st'.
Proof. intros ? Heq. split; [done|]. rewrite Heq. eauto. Qed.

(** An owner's sender, if it has one, answered or dropped. *)
Lemma linear_close own own' ch ch' o x :
  linear own ch -> x <> Open ->
  (forall o', own' o' = if decide (o' = o) then None else own o') ->
  (forall c', ch' !! c' = close_with x (own o) ch c') ->
  linear own' ch'.
Proof.
  intros Hlin Hx Hown Hch. destruct (own o) as [c|] eqn:E.
  - eapply linear_release; try done. intros c'. rewrite Hch. apply close_with_open.
    by eapply linear_owned.
  - apply (linear_ext _ _ _ _ Hlin).
    + intros o'. rewrite Hown. by case_decide; subst.
    + intros c'. rewrite Hch. unfold close_with. by rewrite decide_False.
Qed.

Lemma inv_start_timer id s :
  inv s -> inv (with_store (set_timeout_handle id (spawn_timer id (sstore s)).2
                              (spawn_timer id (sstore s)).1) s).
Proof.
  intros Hinv. apply (inv_intro s); [done|by apply no_new_same| |apply Hinv].
  apply (linear_ext _ _ _ _ (inv_linear _ Hinv)); [|done].
  intros o. by_owner o.
Qed.

Lemma inv_claim id t cl d st cls tks :
  inv (mkSys st cls tks) -> cls !! t = None -> (claim id st).2 = inr cl ->
  inv (mkSys (claim id st).1 (<[t := (cl, d)]> cls) tks).
Proof.
  intros Hinv Ht. unfold claim.
  destruct (entries st !! id) as [e|] eqn:E; [|done].
  destruct (pstate e), (resolver e) as [c|] eqn:Er; try done. intros [= <-].
  apply (inv_intro _ _ _ _ Hinv).
  - apply no_new_same; simpl; by norm_store.
  - refine (linear_transfer _ _ _ _ (ByEntry id) (ByClaim t) (inv_linear _ Hinv) _ _ _).
    + simpl. by rewrite Ht.
    + intros o. by_owner o; by rewrite E.
    + intros c'. simpl. by norm_store.
  - intros t' p. rewrite lookup_insert. case_decide; [intros [= <-]; simpl; eauto|].
    apply Hinv.
Qed.

Lemma inv_complete t cl d ok s :
  inv s -> claims s !! t = Some (cl, d) ->
  inv (mkSys (complete_claim cl ok (sstore s)) (delete t (claims s)) (tokens s)).
Proof.
  intros Hinv Ht.
  assert (next_channel (complete_claim cl ok (sstore s)) = next_channel (sstore s) /\
    (forall c, channels (complete_claim cl ok (sstore s)) !! c =
       close_with (Sent ok) (c_resolver cl) (channels (sstore s)) c) /\
    (forall id, (e ← entries (complete_claim cl ok (sstore s)) !! id; resolver e) =
       e ← entries (sstore s) !! id; resolver e)) as (Hn & Hch & Hen).
  { unfold complete_claim. norm_store.
    destruct (entries (sstore s) !! c_id cl) as [e|] eqn:E;
      [destruct (pstate e)|]; simpl; norm_store; split_and!; try done;
      intros; try apply channels_send_opt.
    rewrite lookup_alter. case_decide; subst; [by rewrite E|done]. }
  apply (inv_intro _ _ _ _ Hinv).
  - by eapply no_new_close.
  - refine (linear_close _ _ _ _ (ByClaim t) (Sent ok) (inv_linear _ Hinv) _ _ _); [done| |].
    + intros o. by_owner o; apply Hen.
    + intros c'. simpl. rewrite Ht. apply Hch.
  - intros t' p [_ Hp]%lookup_delete_Some. by apply (inv_claims _ Hinv t').
Qed.

Lemma inv_abandon t cl d s :
  inv s -> claims s !! t = Some (cl, d) ->
  inv (mkSys (abandon_claim cl (sstore s)) (delete t (claims s)) (tokens s)).
Proof.
  intros Hinv Ht. unfold abandon_claim.
  destruct (entries (sstore s) !! c_id cl) as [e|] eqn:E.
  - set (mid := mkSys (set_entry (c_id cl) (with_resolver None)
                  (drop_opt (resolver e) (sstore s))) (claims s) (tokens s)).
    assert (linear (owns mid) (channels (sstore mid))) as Hmid.
    { refine (linear_close _ _ _ _ (ByEntry (c_id cl)) Dropped (inv_linear _ Hinv) _ _ _);
        [done| |].
      - intros o. by_owner o.
      - intros c'. simpl. rewrite E. simpl. apply channels_drop_opt. }
    apply (inv_intro _ _ _ _ Hinv).
    + eapply (no_new_close _ _ Dropped); simpl; norm_store; [done|].
      intros c'. apply channels_drop_opt.
    + refine (linear_transfer _ _ _ _ (ByClaim t) (ByEntry (c_id cl)) Hmid _ _ _); [| |done].
      * simpl. norm_store. by rewrite lookup_alter_eq, E.
      * intros o. by_owner o; by rewrite ?E, ?Ht.
    + intros t' p [_ Hp]%lookup_delete_Some. by apply (inv_claims _ Hinv t').
  - apply (inv_intro _ _ _ _ Hinv).
    + eapply (no_new_close _ _ Dropped); norm_store; [done|].
      intros c'. apply channels_drop_opt.
    + refine (linear_close _ _ _ _ (ByClaim t) Dropped (inv_linear _ Hinv) _ _ _); [done| |].
      * intros o. by_owner o.
      * intros c'. simpl. rewrite Ht. apply channels_drop_opt.
    + intros t' p [_ Hp]%lookup_delete_Some. by apply (inv_claims _ Hinv t').
Qed.

Lemma inv_disconnect t cl d s :
  inv s -> claims s !! t = Some (cl, d) ->
  inv (mkSys (drop_claim cl (sstore s)) (delete t (claims s)) (tokens s)).
Proof.
  intros Hinv Ht. destruct (inv_claims _ Hinv _ _ Ht) as [_ Hc]. simpl in Hc.
  unfold drop_claim. rewrite Hc. apply (inv_intro _ _ _ _ Hinv).
  - eapply (no_new_close _ _ (Sent false)); norm_store; [done|].
    intros c. apply channels_send_opt.
  - refine (linear_close _ _ _ _ (ByClaim t) (Sent false) (inv_linear _ Hinv) _ _ _);
      [done| |].
    + intros o. by_owner o.
    + intros c'. simpl. rewrite Ht. apply channels_send_opt.
  - intros t' p [_ Hp]%lookup_delete_Some. by apply (inv_claims _ Hinv t').
Qed.

(** [timeout] and [cancel] both close a held entry: its sender goes. *)
Definition closes (id : string) (st st' : store) : Prop :=
  st' = st \/
  exists e e', entries st !! id = Some e /\ pstate e = Held /\
    resolver e' = None /\ approval_token e' = approval_token e /\
    (pstate e' = TimedOut \/ pstate e' = Cancelled) /\
    entries st' = <[id := e']> (entries st) /\
    next_channel st' = next_channel st /\
    forall c, channels st' !! c = close_with Dropped (resolver e) (channels st) c.

Lemma alter_insert_Some (m : gmap string PendingEntry) i x f :
  m !! i = Some x -> alter f i m = <[i := f x]> m.
Proof.
  intros Hx. apply map_eq. intros j. rewrite lookup_alter, lookup_insert.
  case_decide; subst; [by rewrite Hx|done].
Qed.

Lemma timeout_closes id st : closes id st (timeout id st).
Proof.
  unfold timeout. destruct (entries st !! id) as [e|] eqn:E; [|by left].
  destruct (pstate e) eqn:Es; try by left. right.
  eexists e, _. split_and!; [done|done| | | | | |]; last first.
  - intros c. simpl. apply channels_drop_opt.
  - simpl. by norm_store.
  - simpl. norm_store. by apply alter_insert_Some.
  - by left.
  - done.
  - done.
Qed.

Lemma cancel_closes id st : closes id st (cancel id st).1.
Proof.
  unfold cancel. destruct (entries st !! id) as [e|] eqn:E; [|by left].
  destruct (pstate e) eqn:Es; try by left. right.
  eexists e, _. split_and!; [done|done| | | | | |]; last first.
  - intros c. simpl. norm_store. apply channels_drop_opt.
  - simpl. by norm_store.
  - simpl. norm_store. by apply alter_insert_Some.
  - by right.
  - done.
  - done.
Qed.

Lemma inv_closes id s st' : inv s -> closes id (sstore s) st' -> inv (with_store st' s).
Proof.
  intros Hinv [->|(e & e' & E & Hs & Hr & _ & _ & Hen & Hn & Hch)]; [by destruct s|].
  apply (inv_intro _ _ _ _ Hinv); [by eapply no_new_close| |apply Hinv].
  refine (linear_close _ _ _ _ (ByEntry id) Dropped (inv_linear _ Hinv) _ _ _); [done| |].
  - intros o. destruct o as [id'|t]; simpl; [|done]. rewrite Hen, lookup_insert.
    repeat case_decide; simplify_eq; done.
  - intros c. simpl. rewrite E. apply Hch.
Qed.

Lemma inv_prune s : inv s -> inv (with_store (prune_resolved (sstore s)) s).
Proof.
  intros Hinv. pose proof (inv_linear _ Hinv) as (HA & HB & HC).
  assert (forall c, channels (prune_resolved (sstore s)) !! c =
    if decide (c ∈ dropped_resolvers (sstore s))
    then (fun o => match o with Open => Dropped | o => o end) <$> channels (sstore s) !! c
    else channels (sstore s) !! c) as Hch by (intros c; apply channels_drop_list).
  assert (forall id, (e ← entries (prune_resolved (sstore s)) !! id; resolver e) =
    e ← entries (sstore s) !! id; if decide (pstate e = Held) then resolver e else None)
    as Hown.
  { intros id. unfold prune_resolved. simpl. rewrite map_lookup_filter.
    rewrite (proj1 (entries_drop_list _ _)).
    destruct (entries (sstore s) !! id) as [e|]; simpl; [|done].
    case_decide as Hp; [by rewrite option_guard_True|].
    by rewrite option_guard_False. }
  apply (inv_intro _ _ _ _ Hinv); [split| |apply Hinv].
  - apply entries_drop_list.
  - intros c o. rewrite Hch. case_decide; [|eauto].
    destruct (channels (sstore s) !! c); simpl; [eauto|done].
  - assert (forall o c, owns (with_store (prune_resolved (sstore s)) s) o = Some c ->
      owns s o = Some c /\ c ∉ dropped_resolvers (sstore s)) as Hback.
    { intros o c Ho. assert (owns s o = Some c) as Ho'.
      { destruct o as [id|t]; simpl in *; [|done]. rewrite Hown in Ho.
        destruct (entries (sstore s) !! id); simpl in *; [|done]. by case_decide. }
      split; [done|]. intros (id & e & He & Hp & Hr)%elem_of_dropped_resolvers.
      assert (o = ByEntry id) as ->.
      { apply (HB _ _ c); [done|]. simpl. by rewrite He. }
      simpl in Ho. rewrite Hown, He in Ho. simpl in Ho. by rewrite decide_False in Ho. }
    split_and!.
    + intros o c [Ho Hnin]%Hback. rewrite Hch, decide_False by done. eauto.
    + intros o1 o2 c [? _]%Hback [? _]%Hback. eauto.
    + intros c. rewrite Hch. case_decide as Hin.
      * destruct (channels (sstore s) !! c) as [[]|]; simpl; done.
      * intros [o Ho]%HC. exists o. destruct o as [id|t]; simpl in *; [|done].
        rewrite Hown. destruct (entries (sstore s) !! id) as [e|] eqn:E; simpl in *; [|done].
        case_decide; [done|]. exfalso. apply Hin, elem_of_dropped_resolvers. eauto.
Qed.

(** [claim] leaves the store alone when it fails. *)
Lemma claim_fails id st err : (claim id st).2 = inl err -> (claim id st).1 = st.
Proof.
  unfold claim. destruct (entries st !! id) as [e|]; [|done].
  by destruct (pstate e), (resolver e).
Qed.

Lemma resolve_begin_cases id decision st :
  (exists code, resolve_begin id decision st = (st, inl code)) \/
  (exists cl d, resolve_begin id decision st = ((claim id st).1, inr (cl, d)) /\
     (claim id st).2 = inr cl).
Proof.
  unfold resolve_begin. destruct (parse_resolve_decision decision); [|eauto].
  destruct (claim id st) as [st' [err|cl]] eqn:E; simpl.
  - assert (st' = st) as ->.
    { change st' with (st', inl err : ResolveError + Claim).1.
      rewrite <- E. eapply claim_fails. by rewrite E. }
    left. destruct err; eauto.
  - right. eauto.
Qed.

Lemma store_inv_step s e s' : inv s -> exec s e = Some s' -> inv s'.
Proof.
  intros Hinv. destruct e as [now a|id|t id dec|t tok d ok|t|t|id|]; simpl.
  - intros [= <-]. destruct s. exact (inv_hold now a _ _ _ Hinv).
  - intros [= <-]. apply (inv_start_timer id s Hinv).
  - destruct (claims s !! t) eqn:Ht; [done|].
    destruct (resolve_begin_cases id dec (sstore s)) as [[code ->]|(cl & d & -> & Hcl)];
      intros [= <-].
    + by destruct s.
    + destruct s. by apply inv_claim.
  - destruct (claims s !! t) as [[cl d']|] eqn:Ht; [|done].
    case_decide as Hd; [|done]. destruct Hd as [_ ->]. intros [= <-].
    destruct ok; simpl.
    + by eapply inv_complete.
    + by eapply inv_abandon.
  - destruct (claims s !! t) as [[cl d]|] eqn:Ht; [|done]. intros [= <-].
    by eapply inv_disconnect.
  - destruct (timers (sstore s) !! t) as [[id []]|]; [|done..]. intros [= <-].
    set (st1 := mkStore _ _ _ _ _).
    assert (inv (with_store st1 s)) as H1.
    { apply (inv_intro _ _ _ _ Hinv); [by apply no_new_same| |apply Hinv].
      apply (linear_ext _ _ _ _ (inv_linear _ Hinv)); [|done]. by intros []. }
    apply (inv_closes id _ _ H1), timeout_closes.
  - intros [= <-]. apply (inv_closes id _ _ Hinv), cancel_closes.
  - intros [= <-]. by apply inv_prune.
Qed.

(** ** Who is told "approved" *)

Record auth (evs : list event) (s : sys) : Prop := {
  auth_entry id e : entries (sstore s) !! id = Some e ->
    id ∈ held_ids evs /\
    (forall c, resolver e = Some c -> tokens s !! c = Some (approval_token e)) /\
    (pstate e = Approved -> accepted evs (approval_token e));
  auth_claim t cl d : claims s !! t = Some (cl, d) ->
    c_id cl ∈ held_ids evs /\
    (forall c, c_resolver cl = Some c -> tokens s !! c = Some (c_token cl)) /\
    (forall e, entries (sstore s) !! c_id cl = Some e -> approval_token e = c_token cl);
  auth_sent c : channels (sstore s) !! c = Some (Sent true) ->
    exists tok, tokens s !! c = Some tok /\ accepted evs tok;
  auth_fresh c tok : tokens s !! c = Some tok -> c < next_channel (sstore s) }.

Lemma accepted_mono evs e tok : accepted evs tok -> accepted (evs ++ [e]) tok.
Proof. intros (t & d & ? & ?). exists t, d. split; [|done]. apply elem_of_app. auto. Qed.

Lemma held_ids_snoc evs e :
  held_ids (evs ++ [e]) =
  held_ids evs ++ match e with Hold _ a => [h_id a] | _ => [] end.
Proof. unfold held_ids. rewrite omap_app. by destruct e. Qed.

Lemma held_ids_mono evs e id : id ∈ held_ids evs -> id ∈ held_ids (evs ++ [e]).
Proof. rewrite held_ids_snoc. set_solver. Qed.

#[local] Hint Resolve accepted_mono held_ids_mono : kyris.

(** An entry that is what another was, but for its handle, or for having lost its
    sender or left [Held] for a state other than [Approved]. *)
Definition tamer (e e' : PendingEntry) : Prop :=
  approval_token e' = approval_token e /\
  (forall c, resolver e' = Some c -> resolver e = Some c) /\
  (pstate e' = Approved -> pstate e = Approved).

Definition quiet (st st' : store) : Prop :=
  next_channel st' = next_channel st /\
  (forall id e', entries st' !! id = Some e' ->
     exists e, entries st !! id = Some e /\ tamer e e') /\
  (forall c, channels st' !! c = Some (Sent true) -> channels st !! c = Some (Sent true)).

Lemma tamer_refl e : tamer e e.
Proof. by split_and!. Qed.

Lemma quiet_refl st : quiet st st.
Proof. split_and!; eauto using tamer_refl. Qed.

(** Steps that answer nobody keep [auth]. *)
Lemma auth_quiet evs ev s st' cls' :
  auth evs s -> quiet (sstore s) st' -> cls' ⊆ claims s ->
  auth (evs ++ [ev]) (mkSys st' cls' (tokens s)).
Proof.
  intros [He Hc Hs Hf] (Hn & Hq & Hch) Hsub. split; simpl.
  - intros id e' (e & Hid & -> & Hr & Hp)%Hq. destruct (He _ _ Hid) as (? & ? & ?).
    split_and!; eauto with kyris.
  - intros t cl d Ht. assert (claims s !! t = Some (cl, d)) as Ht'
      by (by eapply lookup_weaken).
    destruct (Hc _ _ _ Ht') as (? & ? & Hen). split_and!; eauto with kyris.
    intros e' (e & Hid & -> & _)%Hq. eauto.
  - intros c (tok & ? & ?)%Hch%Hs. eauto with kyris.
  - intros c tok. rewrite Hn. apply Hf.
Qed.

Lemma quiet_closes id st st' : closes id st st' -> quiet st st'.
Proof.
  intros [->|(e & e' & E & Hs & Hr & Ht & Hp & Hen & Hn & Hch)]; [apply quiet_refl|].
  split_and!; [done| |].
  - intros id' e0. rewrite Hen, lookup_insert. case_decide; subst; [|eauto using tamer_refl].
    intros [= <-]. exists e. split; [done|]. split_and!; [done|by rewrite Hr|].
    intros Ha. rewrite Ha in Hp. naive_solver.
  - intros c. rewrite Hch. intros [?|(_ & _ & ?)]%close_with_inv; done.
Qed.

Lemma quiet_prune st : quiet st (prune_resolved st).
Proof.
  unfold prune_resolved. split_and!; simpl.
  - apply entries_drop_list.
  - intros id e [Hid _]%map_lookup_filter_Some.
    rewrite (proj1 (entries_drop_list _ _)) in Hid. eauto using tamer_refl.
  - intros c. rewrite channels_drop_list. case_decide; [|done].
    destruct (channels st !! c) as [[]|]; simpl; congruence.
Qed.

Lemma quiet_set_handle id st st' :
  entries st' = alter (with_handle (Some (next_timer st))) id (entries st) ->
  channels st' = channels st -> next_channel st' = next_channel st -> quiet st st'.
Proof.
  intros He Hc Hn. split_and!; [done| |by rewrite Hc].
  intros id' e'. rewrite He, lookup_alter. case_decide; subst; [|eauto using tamer_refl].
  destruct (entries st !! id') as [e|] eqn:E; simpl; [|done].
  intros [= <-]. exists e. split; [done|]. by split_and!.
Qed.

Lemma quiet_drop_claim cl st : quiet st (drop_claim cl st).
Proof.
  unfold drop_claim. destruct (c_completed cl); [apply quiet_refl|].
  split_and!; norm_store; [done|eauto using tamer_refl|].
  intros c. rewrite channels_send_opt. intros [?|(_ & _ & ?)]%close_with_inv; done.
Qed.

Lemma quiet_claim id st : quiet st (claim id st).1.
Proof.
  unfold claim. destruct (entries st !! id) as [e|] eqn:E; [|apply quiet_refl].
  destruct (pstate e) eqn:Es, (resolver e) eqn:Er; try apply quiet_refl.
  split_and!; simpl; norm_store; [done| |done].
  intros id' e'. rewrite lookup_alter. case_decide; subst; [|eauto using tamer_refl].
  rewrite E. simpl. intros [= <-]. exists e. split; [done|]. split_and!; [done..|].
  simpl. congruence.
Qed.

Lemma claim_token id st cl :
  (claim id st).2 = inr cl -> c_id cl = id /\ exists e, entries st !! id = Some e /\
    approval_token e = c_token cl /\ resolver e = c_resolver cl /\ pstate e = Held.
Proof.
  unfold claim. destruct (entries st !! id) as [e|] eqn:E; [|done].
  destruct (pstate e) eqn:Es, (resolver e) eqn:Er; try done.
  intros [= <-]. simpl. split; [done|]. exists e. by split_and!.
Qed.

Lemma auth_claim_step evs ev id t cl d s :
  auth evs s -> claims s !! t = None -> (claim id (sstore s)).2 = inr cl ->
  auth (evs ++ [ev]) (mkSys (claim id (sstore s)).1 (<[t := (cl, d)]> (claims s)) (tokens s)).
Proof.
  intros Ha Ht Hcl.
  destruct (auth_quiet evs ev s (claim id (sstore s)).1 (claims s) Ha) as [He Hc Hs Hf];
    [apply quiet_claim|done|]. simpl in *.
  split; simpl; [done| |done|done].
  intros t' cl' d'. rewrite lookup_insert. case_decide; [|apply Hc]. intros [= <- <-].
  destruct (claim_token _ _ _ Hcl) as (-> & e & Hid & Htok & Hres & _).
  destruct (auth_entry _ _ Ha _ _ Hid) as (? & Hr & _). split_and!; [eauto with kyris|..].
  - intros c Hc'. rewrite <- Htok. apply Hr. congruence.
  - intros e' He'. destruct (quiet_claim id (sstore s)) as (_ & Hq & _).
    destruct (Hq _ _ He') as (e0 & ? & -> & _). congruence.
Qed.

Lemma auth_complete evs t cl d s :
  auth evs s -> claims s !! t = Some (cl, d) ->
  auth (evs ++ [Finish t (c_token cl) d true])
    (mkSys (complete_claim cl (allows_execution d) (sstore s)) (delete t (claims s)) (tokens s)).
Proof.
  intros [He Hc Hs Hf] Ht. destruct (Hc _ _ _ Ht) as (Hid & Hct & Hce).
  set (evs' := evs ++ _).
  assert (allows_execution d = true -> accepted evs' (c_token cl)) as Hacc.
  { intros Hd. exists t, d. split; [|done]. unfold evs'. set_solver. }
  assert (forall id e', entries (complete_claim cl (allows_execution d) (sstore s)) !! id
      = Some e' -> exists e, entries (sstore s) !! id = Some e /\
      approval_token e' = approval_token e /\ resolver e' = resolver e /\
      (pstate e' = pstate e \/ id = c_id cl /\
       pstate e' = if allows_execution d then Approved else Denied)) as Hen.
  { intros id e'. unfold complete_claim. norm_store.
    destruct (entries (sstore s) !! c_id cl) as [e|] eqn:E;
      [destruct (pstate e)|]; simpl; norm_store; eauto 8.
    rewrite lookup_alter. case_decide; subst; [|eauto 8]. rewrite E. simpl.
    intros [= <-]. exists e. split_and!; auto. }
  assert (channels (complete_claim cl (allows_execution d) (sstore s)) =
    channels (send_opt (c_resolver cl) (allows_execution d) (sstore s)) /\
    next_channel (complete_claim cl (allows_execution d) (sstore s)) =
    next_channel (sstore s)) as [Hch Hn].
  { unfold complete_claim. norm_store.
    destruct (entries (sstore s) !! c_id cl) as [e|];
      [destruct (pstate e)|]; simpl; norm_store; done. }
  split; cbn [sstore claims tokens].
  - intros id e' (e & Hide & -> & -> & Hp)%Hen. destruct (He _ _ Hide) as (? & ? & Happ).
    split_and!; [unfold evs'; eauto with kyris|done|]. intros Ha.
    destruct Hp as [Hp|[-> Hp]]; [unfold evs'; rewrite Hp in Ha; eauto with kyris|].
    rewrite (Hce _ Hide). apply Hacc. destruct (allows_execution d); congruence.
  - intros t' cl' d' [_ Ht']%lookup_delete_Some. destruct (Hc _ _ _ Ht') as (? & ? & Htk).
    split_and!; [unfold evs'; eauto with kyris|done|].
    intros e' (e & ? & -> & _)%Hen. eauto.
  - intros c. rewrite Hch, channels_send_opt.
    intros [(tok & ? & ?)%Hs|(Hr & _ & Hsent)]%close_with_inv.
    + exists tok. unfold evs'; eauto with kyris.
    + injection Hsent as Hd. exists (c_token cl). split; [auto|by apply Hacc].
  - intros c tok. rewrite Hn. apply Hf.
Qed.

Lemma auth_abandon evs ev t cl d s :
  auth evs s -> claims s !! t = Some (cl, d) ->
  auth (evs ++ [ev]) (mkSys (abandon_claim cl (sstore s)) (delete t (claims s)) (tokens s)).
Proof.
  intros [He Hc Hs Hf] Ht. destruct (Hc _ _ _ Ht) as (Hid & Hct & Hce).
  assert (forall id e', entries (abandon_claim cl (sstore s)) !! id = Some e' ->
    exists e, entries (sstore s) !! id = Some e /\ approval_token e' = approval_token e /\
      pstate e' = pstate e /\
      (resolver e' = resolver e \/ id = c_id cl /\ resolver e' = c_resolver cl)) as Hen.
  { intros id e'. unfold abandon_claim.
    destruct (entries (sstore s) !! c_id cl) as [e|] eqn:E; simpl; norm_store; [|eauto 8].
    rewrite lookup_alter. case_decide; subst; [|eauto 8]. rewrite E. simpl.
    intros [= <-]. exists e. split_and!; auto. }
  assert (next_channel (abandon_claim cl (sstore s)) = next_channel (sstore s) /\
    exists oc, forall c, channels (abandon_claim cl (sstore s)) !! c =
      close_with Dropped oc (channels (sstore s)) c) as (Hn & oc & Hch).
  { unfold abandon_claim.
    destruct (entries (sstore s) !! c_id cl); simpl; norm_store; split; try done;
      eexists; intros c; apply channels_drop_opt. }
  split; cbn [sstore claims tokens].
  - intros id e' (e & Hide & -> & -> & Hr)%Hen. destruct (He _ _ Hide) as (? & Htok & ?).
    split_and!; [eauto with kyris| |eauto with kyris]. intros c Hc'.
    destruct Hr as [Hr|[-> Hr]]; rewrite Hr in Hc'; [auto|].
    rewrite (Hce _ Hide). auto.
  - intros t' cl' d' [_ Ht']%lookup_delete_Some. destruct (Hc _ _ _ Ht') as (? & ? & Htk).
    split_and!; [eauto with kyris|done|]. intros e' (e & ? & -> & _)%Hen. eauto.
  - intros c. rewrite Hch. intros [(tok & ? & ?)%Hs|(_ & _ & ?)]%close_with_inv; [|done].
    eauto with kyris.
  - intros c tok. rewrite Hn. apply Hf.
Qed.

Lemma auth_hold evs now a s :
  auth evs s -> (forall c o, channels (sstore s) !! c = Some o -> c < next_channel (sstore s)) ->
  h_id a ∉ held_ids evs ->
  auth (evs ++ [Hold now a])
    (mkSys (hold now a (sstore s)).1 (claims s)
       (<[(hold now a (sstore s)).2 := h_token a]> (tokens s))).
Proof.
  intros [He Hc Hs Hf] Hfresh Hnew. set (c0 := next_channel (sstore s)).
  assert (entries (sstore s) !! h_id a = None) as Hnone.
  { destruct (entries (sstore s) !! h_id a) as [e|] eqn:E; [|done].
    by destruct (He _ _ E) as [? _]. }
  assert (hold now a (sstore s) =
    (mkStore (<[h_id a := mkEntry (h_token a) (h_server a) (h_tool a) (h_code a) (h_agent a)
                 Held now (h_allow_always a) (h_detail a) (Some c0) None]>
                (entries (sstore s)))
       (<[c0 := Open]> (channels (sstore s))) (S c0) (timers (sstore s))
       (next_timer (sstore s)), c0)) as ->
    by (unfold hold; simpl; by rewrite Hnone).
  assert (forall c tok, tokens s !! c = Some tok ->
    <[c0 := h_token a]> (tokens s) !! c = Some tok) as Hkeep.
  { intros c tok Hc'. rewrite lookup_insert_ne; [done|].
    apply Hf in Hc'. unfold c0. lia. }
  split; simpl.
  - intros id e. rewrite lookup_insert. case_decide; subst.
    + intros [= <-]. split_and!; [rewrite held_ids_snoc; set_solver| |done].
      intros c [= <-]. by rewrite lookup_insert_eq.
    + intros Hid. destruct (He _ _ Hid) as (? & ? & ?).
      split_and!; eauto with kyris.
  - intros t cl d Ht. destruct (Hc _ _ _ Ht) as (? & ? & ?).
    split_and!; [eauto with kyris|eauto|]. intros e.
    rewrite lookup_insert_ne by (intros Heq; by rewrite <- Heq in *). eauto.
  - intros c. rewrite lookup_insert. case_decide; [done|].
    intros (tok & ? & ?)%Hs. eauto with kyris.
  - intros c tok. rewrite lookup_insert. case_decide; subst; [lia|].
    intros ?%Hf. unfold c0. lia.
Qed.

(** Under distinct hold ids, every step keeps [auth]. *)
Lemma auth_step evs s e s' :
  inv s -> auth evs s -> exec s e = Some s' -> NoDup (held_ids (evs ++ [e])) ->
  auth (evs ++ [e]) s'.
Proof.
  intros Hinv Ha Hexec Hnd. destruct e as [now a|id|t id dec|t tok d ok|t|t|id|]; simpl in Hexec.
  - injection Hexec as <-. apply auth_hold; [done|apply (inv_fresh _ Hinv)|].
    rewrite held_ids_snoc in Hnd. apply NoDup_app in Hnd as (_ & Hd & _).
    intros Hin. apply (Hd _ Hin). by constructor.
  - injection Hexec as <-. apply auth_quiet; [done| |done].
    by eapply quiet_set_handle.
  - destruct (claims s !! t) eqn:Ht; [done|].
    destruct (resolve_begin_cases id dec (sstore s)) as [[code Hb]|(cl & d & Hb & Hcl)];
      rewrite Hb in Hexec; injection Hexec as <-.
    + apply auth_quiet; [done|apply quiet_refl|done].
    + by apply auth_claim_step.
  - destruct (claims s !! t) as [[cl d']|] eqn:Ht; [|done].
    case_decide as Hd; [|done]. destruct Hd as [<- ->]. injection Hexec as <-.
    destruct ok; simpl; [by apply auth_complete|by eapply auth_abandon].
  - destruct (claims s !! t) as [[cl d]|] eqn:Ht; [|done]. injection Hexec as <-.
    apply auth_quiet; [done|apply quiet_drop_claim|apply delete_subseteq].
  - destruct (timers (sstore s) !! t) as [[id []]|]; [|done..]. injection Hexec as <-.
    set (st1 := mkStore _ _ _ _ _).
    apply auth_quiet; [done| |done].
    apply (quiet_closes id st1 _ (timeout_closes id st1)).
  - injection Hexec as <-. apply auth_quiet; [done| |done].
    apply (quiet_closes id), cancel_closes.
  - injection Hexec as <-. apply auth_quiet; [done|apply quiet_prune|done].
Qed.

Lemma store_inv_trace evs s : trace step init evs s -> inv s.
Proof.
  intros Htr. apply (trace_invariant step inv init evs); [|done|apply store_inv_init].
  intros s1 e s2 Hinv Hstep. by eapply store_inv_step.
Qed.

Lemma auth_trace evs s : trace step init evs s -> NoDup (held_ids evs) -> auth evs s.
Proof.
  intros Htr.
  enough (inv s /\ (NoDup (held_ids evs) -> auth evs s)) as [_ H] by exact H.
  apply (trace_history_invariant step
           (fun evs s => inv s /\ (NoDup (held_ids evs) -> auth evs s)) init); [|done|].
  - intros evs1 s1 e s2 [Hinv Ha] Hstep. split; [by eapply store_inv_step|]. intros Hnd.
    eapply auth_step; try done. apply Ha.
    rewrite held_ids_snoc in Hnd. by apply NoDup_app in Hnd as [? _].
  - split; [apply store_inv_init|]. by intros _; split.
Qed.

(** ** Properties *)

(** One owner per holder: in every reachable state a holder's channel is
    still open exactly when one entry or one resolve task, and only one, holds
    its sender.  So a holder is answered at most once, and as long as it has no
    answer somebody can still give it one or drop it. *)
Theorem open_iff_one_owner (evs : list event) (s : sys) (c : nat)
    (Hrun : trace step init evs s) :
  channels (sstore s) !! c = Some Open <-> exists! o, owns s o = Some c.
Proof.
  destruct (inv_linear _ (store_inv_trace _ _ Hrun)) as (HA & HB & HC). split.
  - intros [o Ho]%HC. exists o. split; [done|]. intros o' Ho'. eauto.
  - intros (o & Ho & _). eauto.
Qed.

Definition args (id token : string) : hold_args :=
  mkHold id token "shell" None (Some "git push --force") "codex-cli" true None.

(** One hold, approved over HTTP and accepted by agentpactd. *)
Definition approve_run : list event :=
  [Hold 0 (args "r1" "t1"); StartTimer "r1"; Begin 7 "r1" "approved";
   Finish 7 "t1" RApproved true].

Lemma open_iff_one_owner_witness :
  exists s, exec_all init [Hold 0 (args "r1" "t1")] = Some s /\
  (channels (sstore s) !! 0 = Some Open <-> exists! o, owns s o = Some 0).
Proof.
  destruct (exec_all init [Hold 0 (args "r1" "t1")]) as [s|] eqn:E;
    [|vm_compute in E; discriminate].
  exists s. split; [done|].
  exact (open_iff_one_owner _ s 0 (exec_list_trace _ _ _ _ E)).
Defined.

(** C38. Approval needs agentpactd: when hold ids are not reused, a holder is
    told "approved", and an entry shows the state [Approved], only if agentpactd
    accepted an allowing response for that very hold's approval token. *)
Theorem approved_only_if_accepted (evs : list event) (s : sys)
    (Hrun : trace step init evs s) (Hids : NoDup (held_ids evs)) :
  (forall c, channels (sstore s) !! c = Some (Sent true) ->
     exists tok, tokens s !! c = Some tok /\ accepted evs tok) /\
  (forall id e, entries (sstore s) !! id = Some e -> pstate e = Approved ->
     accepted evs (approval_token e)).
Proof.
  pose proof (auth_trace _ _ Hrun Hids) as [He _ Hs _]. split; [done|].
  intros id e Hid. by apply (He id).
Qed.

Lemma approved_only_if_accepted_witness :
  exists s, exec_all init approve_run = Some s /\
    channels (sstore s) !! 0 = Some (Sent true) /\
    exists tok, tokens s !! 0 = Some tok /\ accepted approve_run tok.
Proof.
  destruct (exec_all init approve_run) as [s|] eqn:E; [|vm_compute in E; discriminate].
  assert (channels (sstore s) !! 0 = Some (Sent true)) as Hc
    by (vm_compute in E; injection E as <-; reflexivity).
  exists s. split; [done|]. split; [done|].
  apply (approved_only_if_accepted approve_run s (exec_list_trace _ _ _ _ E)); [|done].
  vm_compute. repeat constructor. set_solver.
Defined.

(** The run of the theorem below. *)
Definition reuse_run : list event :=
  [Hold 0 (args "r1" "t1"); Begin 7 "r1" "approved"; Hold 1 (args "r1" "t2");
   Finish 7 "t1" RApproved true].

(** With a reused id the guarantee is lost: a resolve task that claimed the
    replaced hold marks the new entry [Approved] though agentpactd never heard
    of the new hold's token, and the new holder is left unanswered. *)
Theorem reused_id_approves_wrong_hold :
  exists s, exec_all init reuse_run = Some s /\
    (approval_token <$> entries (sstore s) !! "r1") = Some "t2" /\
    pending_status "r1" (sstore s) = (OK, Some Approved) /\
    ~ accepted reuse_run "t2" /\
    channels (sstore s) !! 1 = Some Open.
Proof.
  destruct (exec_all init reuse_run) as [s|] eqn:E; [|vm_compute in E; discriminate].
  exists s. vm_compute in E. injection E as <-. split_and!; try reflexivity.
  intros (t & d & Hin & _). unfold reuse_run in Hin.
  repeat (apply elem_of_cons in Hin as [[=]|Hin]). by apply elem_of_nil in Hin.
Qed.

(** A resolve task that dies between claiming and finishing (its client
    disconnected) strands the entry: the holder is told "not approved", but the
    entry stays listed as [Held], has no timeout any more, survives pruning, and
    every further resolve is a 409. *)
Theorem disconnect_strands_entry (id decision : string) (st : store) (e : PendingEntry)
    (c : nat) (d : ResolveDecision)
    (He : entries st !! id = Some e) (Hheld : pstate e = Held) (Hc : resolver e = Some c)
    (Hd : parse_resolve_decision decision = Some d) :
  exists cl st', resolve_begin id decision st = (st', inr (cl, d)) /\
    let st'' := drop_claim cl st' in
    (channels st !! c = Some Open -> channels st'' !! c = Some (Sent false)) /\
    get_state id st'' = Some Held /\
    (forall t tm, timeout_handle e = Some t -> timers st'' !! t = Some tm ->
       timer_live tm = false) /\
    get_state id (prune_resolved st'') = Some Held /\
    forall dec d', parse_resolve_decision dec = Some d' ->
      (resolve_begin id dec st'').2 = inl CONFLICT.
Proof.
  unfold resolve_begin at 1, claim. rewrite Hd, He, Hheld, Hc.
  eexists _, _. split; [done|].
  set (st'' := drop_claim _ _). cbv zeta.
  assert (entries st'' !! id = Some (with_resolver None (with_handle None e))) as He''.
  { unfold st''. simpl. norm_store. by rewrite lookup_alter_eq, He. }
  split_and!.
  - intros Ho. unfold st'', drop_claim. cbn [c_completed c_resolver].
    rewrite channels_send_opt. unfold set_entry. simpl. norm_store.
    by rewrite close_with_open, decide_True by done.
  - unfold get_state. rewrite He''. simpl. by rewrite Hheld.
  - intros t tm Ht. unfold st'', drop_claim, set_entry. simpl. rewrite Ht. simpl.
    rewrite lookup_alter_eq. destruct (timers st !! t); simpl; [|done]. by intros [= <-].
  - unfold get_state, prune_resolved. simpl.
    rewrite (proj1 (entries_drop_list _ _)), map_lookup_filter, He''. simpl.
    rewrite option_guard_True by done. simpl. by rewrite Hheld.
  - intros dec d' Hdec. unfold resolve_begin, claim. rewrite Hdec, He''. simpl.
    by rewrite Hheld.
Qed.

Lemma disconnect_strands_entry_witness :
  let st := (hold 0 (args "r1" "t1") new).1 in
  exists cl st', resolve_begin "r1" "approved" st = (st', inr (cl, RApproved)) /\
    get_state "r1" (drop_claim cl st') = Some Held.
Proof.
  intros st.
  destruct (disconnect_strands_entry "r1" "approved" st
              (mkEntry "t1" "shell" None (Some "git push --force") "codex-cli" Held 0 true
                 None (Some 0) None) 0 RApproved)
    as (cl & st' & H1 & H); try reflexivity.
  destruct H as (_ & H2 & _).
  exists cl, st'. split; [exact H1|exact H2].
Defined.

(** The entry under [id] is, in [st], in the state and under the token of [e]. *)
Definition keeps (id : string) (e : PendingEntry) (st : store) : Prop :=
  exists e', entries st !! id = Some e' /\ pstate e' = pstate e /\
    approval_token e' = approval_token e.

Lemma keeps_same id e st st' :
  entries st !! id = Some e -> entries st' = entries st -> keeps id e st'.
Proof. intros He Heq. exists e. by rewrite Heq. Qed.

Lemma keeps_alter id id' e f st st' :
  entries st !! id = Some e -> entries st' = alter f id' (entries st) ->
  (id' = id -> pstate (f e) = pstate e /\ approval_token (f e) = approval_token e) ->
  keeps id e st'.
Proof.
  intros He Heq Hf. unfold keeps. rewrite Heq.
  destruct (decide (id' = id)) as [->|]; [|rewrite lookup_alter_ne; eauto].
  rewrite lookup_alter_eq, He. exists (f e). destruct Hf; [done|]. by split_and!.
Qed.

Lemma keeps_closes id id' e st st' :
  entries st !! id = Some e -> pstate e <> Held -> closes id' st st' -> keeps id e st'.
Proof.
  intros He Hs [->|(e0 & e1 & E & ? & _ & _ & _ & Hen & _)]; [by eapply keeps_same|].
  unfold keeps. rewrite Hen. destruct (decide (id' = id)) as [->|]; [congruence|].
  rewrite lookup_insert_ne by done. eauto.
Qed.

Lemma keeps_finish id e ok cl d st :
  entries st !! id = Some e -> pstate e <> Held -> keeps id e (resolve_finish ok cl d st).1.
Proof.
  intros He Hs. destruct ok; simpl.
  - unfold complete_claim. norm_store.
    destruct (entries st !! c_id cl) as [e0|] eqn:E; [destruct (pstate e0) eqn:Es|];
      try (by eapply keeps_same; [done|]; norm_store).
    eapply keeps_alter; [done|simpl; norm_store; done|]. intros Heq. subst. congruence.
  - unfold abandon_claim. destruct (entries st !! c_id cl) as [e0|] eqn:E.
    + eapply keeps_alter; [done|simpl; norm_store; done|]. done.
    + eapply keeps_same; [done|]. by norm_store.
Qed.

(** Terminal states are final: no event changes the state or the token of
    an entry that left [Held]; it can only be pruned away, or replaced by a new
    hold that reuses its id. *)
Theorem terminal_states_final (s s' : sys) (ev : event) (id : string) (e : PendingEntry)
    (Hstep : exec s ev = Some s') (He : entries (sstore s) !! id = Some e)
    (Hterm : pstate e <> Held) :
  (exists e', entries (sstore s') !! id = Some e' /\ pstate e' = pstate e /\
     approval_token e' = approval_token e) \/
  (ev = Prune /\ entries (sstore s') !! id = None) \/
  (exists now a, ev = Hold now a /\ h_id a = id).
Proof.
  fold (keeps id e (sstore s')).
  destruct ev as [now a|id'|t id' dec|t tok d ok|t|t|id'|]; simpl in Hstep.
  - injection Hstep as <-. destruct (decide (h_id a = id)) as [Heq|Hne]; [eauto 6|].
    left. exists e. unfold hold. simpl.
    destruct (entries (sstore s) !! h_id a); simpl; norm_store;
      by rewrite lookup_insert_ne.
  - injection Hstep as <-. left. by eapply keeps_alter.
  - destruct (claims s !! t); [done|].
    destruct (resolve_begin_cases id' dec (sstore s)) as [[code Hb]|(cl & d & Hb & Hcl)];
      rewrite Hb in Hstep; injection Hstep as <-; left.
    + by eapply keeps_same.
    + simpl. destruct (claim_token _ _ _ Hcl) as (_ & e0 & He0 & _ & _ & Hs0).
      unfold claim in *. rewrite He0, Hs0 in *. destruct (resolver e0); [|done].
      eapply keeps_alter; [done|simpl; norm_store; done|done].
  - destruct (claims s !! t) as [[cl d']|]; [|done]. case_decide; [|done].
    injection Hstep as <-. left. by apply keeps_finish.
  - destruct (claims s !! t) as [[cl d]|]; [|done]. injection Hstep as <-. left.
    eapply keeps_same; [done|]. simpl. unfold drop_claim.
    destruct (c_completed cl); by norm_store.
  - destruct (timers (sstore s) !! t) as [[id' []]|]; [|done..]. injection Hstep as <-.
    left. eapply (keeps_closes id id'); [|done|apply timeout_closes]. done.
  - injection Hstep as <-. left. by eapply keeps_closes; [..|apply cancel_closes].
  - injection Hstep as <-. right. left. split; [done|]. simpl. unfold prune_resolved. simpl.
    rewrite (proj1 (entries_drop_list _ _)), map_lookup_filter, He. simpl.
    by rewrite option_guard_False.
Qed.

Lemma terminal_states_final_witness :
  exists s s' e, exec_all init approve_run = Some s /\ exec s (Cancel "r1") = Some s' /\
    entries (sstore s) !! "r1" = Some e /\ pstate e = Approved /\
    ((exists e', entries (sstore s') !! "r1" = Some e' /\ pstate e' = pstate e /\
       approval_token e' = approval_token e) \/
     (Cancel "r1" = Prune /\ entries (sstore s') !! "r1" = None) \/
     (exists now a, Cancel "r1" = Hold now a /\ h_id a = "r1")).
Proof.
  destruct (exec_all init approve_run) as [s|] eqn:E; [|vm_compute in E; discriminate].
  destruct (entries (sstore s) !! "r1") as [e|] eqn:He;
    [|vm_compute in E; injection E as <-; vm_compute in He; discriminate].
  assert (pstate e = Approved) as Hp.
  { vm_compute in E. injection E as <-. vm_compute in He. by injection He as <-. }
  exists s, (with_store (cancel "r1" (sstore s)).1 s), e. split_and!; try done.
  apply (terminal_states_final s _ (Cancel "r1") "r1" e); [done|done|]. by rewrite Hp.
Defined.



End Pending.
