(* ===== verification/Scope.v ===== *)
(** * What leaves the machine: [daemon/src/sync/scope.rs]

    [SyncScope] decides from the working directory alone whether an event or a
    record is sent to the relay.  A path is the list of its components, as
    [std::path] reads it; the permission bits of a file are an argument.  Not
    modelled: [canonicalize_scope_path], which resolves the symbolic links of the
    configured patterns once, when the configuration is loaded. *)

From S2P Require Import Prelude Text.

Module Scope.

(** ** [std::path] *)

Definition slash : ascii := "/"%char.
Definition dot : ascii := "."%char.

Inductive component :=
| RootDir
| CurDir
| ParentDir
| Normal (name : bytes).

#[export] Instance component_eq_dec : EqDecision component.
Proof. solve_decision. Defined.

(** The pieces between slashes; the first one may be empty. *)
Fixpoint pieces_from (current l : bytes) : list bytes :=
  match l with
  | [] => [rev current]
  | b :: l => if bool_decide (b = slash) then rev current :: pieces_from [] l
              else pieces_from (b :: current) l
  end.

Definition pieces (l : bytes) : list bytes := pieces_from [] l.

(** Repeated separators and a [.] that is not the first piece are skipped. *)
Definition piece_component (piece : bytes) : option component :=
  if bool_decide (piece = []) || bool_decide (piece = [dot]) then None
  else if bool_decide (piece = [dot; dot]) then Some ParentDir
  else Some (Normal piece).

(** [Path::components]. *)
Definition components (path : bytes) : list component :=
  let first := if starts_with [slash] path then [RootDir]
               else if bool_decide (head (pieces path) = Some [dot]) then [CurDir] else [] in
  first ++ omap piece_component (pieces path).

(** [Path::starts_with], between paths already read. *)
Definition path_starts_with (path base : list component) : bool := bool_decide (base `prefix_of` path).

(** ** [SyncScope] *)

Definition PERSONAL_DIRS : list bytes :=
  lit <$> ["Documents"; "Downloads"; "Desktop"; "Pictures"; "Music"; "Movies"; "Public";
           "Library"; "Applications"]%string.

Record SyncScope := mkScope {
  patterns : list bytes;
  home : option bytes }.

(** [new]: [HOME] as the environment has it, an empty one ignored. *)
Definition new (patterns : list bytes) (env_home : option bytes) : SyncScope :=
  mkScope patterns (h ← env_home; if bool_decide (h = []) then None else Some h).

Section scope.
(** [std::fs::metadata(path)]: the mode of the file, where there is one. *)
Context (mode_of : list component -> option Z).

(** [mode & 0o077 == 0]. *)
Definition is_owner_only (path : list component) : bool :=
  match mode_of path with
  | Some mode => (Z.land mode 63 =? 0)%Z
  | None => false
  end.

(** The loop of [owner_only_below_home]; the current path is kept reversed, so that
    its [parent()] is its tail. *)
Fixpoint owner_only_loop (home current : list component) : bool :=
  if bool_decide (rev current = home) then false
  else if is_owner_only (rev current) then true
  else if negb (path_starts_with (rev current) home) then false
  else match current with
       | [] | RootDir :: _ => false
       | _ :: parent => owner_only_loop home parent
       end.

Definition owner_only_below_home (path home : list component) : bool :=
  owner_only_loop home (rev path).

Definition is_hidden (c : component) : bool :=
  match c with Normal name => starts_with [dot] name | _ => false end.

(** [path == d || path.starts_with(d + "/")]. *)
Definition beneath (d path : bytes) : bool :=
  bool_decide (path = d) || starts_with (d ++ [slash]) path.

Definition is_private (s : SyncScope) (dir : bytes) : bool :=
  if existsb is_hidden (components dir) then true
  else match home s with
       | None => is_owner_only (components dir)
       | Some home =>
           if existsb (fun name => beneath (home ++ [slash] ++ name) dir) PERSONAL_DIRS then true
           else owner_only_below_home (components dir) (components home)
       end.

Definition tilde : ascii := "~"%char.
Definition asterisk : ascii := "*"%char.

Definition matches_scope (s : SyncScope) (pattern path : bytes) : bool :=
  let expanded := match str_strip_prefix [tilde] pattern, home s with
                  | Some rest, Some home => home ++ rest
                  | _, _ => pattern
                  end in
  match last expanded with
  | Some c => if bool_decide (c = asterisk) then starts_with (removelast expanded) path
              else beneath expanded path
  | None => beneath expanded path
  end.

Definition is_in_scope (s : SyncScope) (working_dir : option bytes) : bool :=
  match working_dir with
  | None => false
  | Some dir =>
      if is_private s dir then false
      else if bool_decide (patterns s = []) then true
      else existsb (fun pattern => matches_scope s pattern dir) (patterns s)
  end.

(** ** What the walk up finds *)

(** [q] is [path] or one of its ancestors, strictly below [home]. *)
Definition between (home q path : list component) : Prop :=
  home `prefix_of` q /\ home <> q /\ q `prefix_of` path.

(** The walk up as a statement: below the home directory one owner-only ancestor is
    enough; elsewhere only the directory itself counts. *)
Definition owner_only_spec (path home : list component) : Prop :=
  if bool_decide (home `prefix_of` path)
  then exists q, between home q path /\ is_owner_only q = true
  else is_owner_only path = true.

Lemma prefix_snoc_inv {A} (l k : list A) x :
  l `prefix_of` k ++ [x] <-> l = k ++ [x] \/ l `prefix_of` k.
Proof.
  split; [|intros [->|H]; [done|by apply prefix_app_r]].
  intros [r Hr]. destruct r as [|y r _] using rev_ind.
  - left. by rewrite app_nil_r in Hr.
  - right. rewrite app_assoc in Hr. apply app_inj_tail in Hr as [-> _]. by exists r.
Qed.

(** Only the first component can be the root. *)
Definition rooted (path : list component) : Prop := RootDir ∉ tail path.

Lemma rooted_snoc path c : rooted (path ++ [c]) -> rooted path /\ (c = RootDir -> path = []).
Proof.
  unfold rooted. destruct path as [|d path]; simpl; [by split; [inversion 1|]|].
  rewrite elem_of_app, list_elem_of_singleton. naive_solver.
Qed.

Lemma owner_only_loop_spec home current :
  home <> [] -> rooted (rev current) ->
  owner_only_loop home current = true <-> owner_only_spec (rev current) home.
Proof using Type.
  intros Hne. induction current as [|c up IH]; intros Hroot; simpl.
  - rewrite bool_decide_false by done. unfold owner_only_spec, path_starts_with.
    rewrite bool_decide_false by (by intros ?%prefix_nil_inv). simpl.
    destruct (is_owner_only []); naive_solver.
  - simpl in Hroot. apply rooted_snoc in Hroot as [Hup Hc].
    remember (rev up ++ [c]) as p eqn:Ep. unfold owner_only_spec at 1.
    destruct (decide (p = home)) as [Heq|Heq].
    { subst home. rewrite !bool_decide_true by done. split; [done|].
      intros (q & (Hq & Hne' & Hq') & _). by destruct Hne'; apply (anti_symm prefix). }
    rewrite bool_decide_false by done. destruct (is_owner_only p) eqn:Eo; [split; [intros _|done]; case_bool_decide; [|done];
      exists p; split_and!; [split_and!; [done|naive_solver|done]|done]|].
    unfold path_starts_with. case_bool_decide as Hpre; simpl; [|done].
    assert (home `prefix_of` rev up) as Hpre'.
    { rewrite Ep in Hpre, Heq. apply prefix_snoc_inv in Hpre as [->|]; [by destruct Heq|done]. }
    specialize (IH Hup). unfold owner_only_spec in IH. rewrite bool_decide_true in IH by done.
    transitivity (exists q, between home q (rev up) /\ is_owner_only q = true).
    + destruct c; try exact IH. rewrite (Hc eq_refl) in Hpre'. by apply prefix_nil_inv in Hpre'.
    + split; intros (q & (Hq1 & Hq2 & Hq3) & Hq4); exists q; (split; [|done]); split_and!; try done.
      * rewrite Ep. by apply prefix_app_r.
      * rewrite Ep in Hq3. apply prefix_snoc_inv in Hq3 as [->|]; [congruence|done].
Qed.

Lemma elem_of_tail {A} (x : A) (l : list A) : x ∈ tail l -> x ∈ l.
Proof. destruct l; [done|]. by right. Qed.

Lemma components_rooted path : rooted (components path).
Proof.
  assert (Hno : RootDir ∉ omap piece_component (pieces path)).
  { rewrite list_elem_of_omap. intros (q & _ & Hq). revert Hq.
    unfold piece_component. repeat case_match; naive_solver. }
  unfold components, rooted. repeat case_match; simpl; [done|done|].
  by intros ?%elem_of_tail.
Qed.

(** ** Paths below a path *)

Lemma pieces_from_app current d l :
  pieces_from current (d ++ slash :: l) = pieces_from current d ++ pieces l.
Proof.
  revert current. induction d as [|b d IH]; intros current; simpl; [done|].
  case_bool_decide; simpl; by rewrite IH.
Qed.

Lemma pieces_from_cons current l :
  exists first rest, pieces_from current l = first :: rest /\ rev current `prefix_of` first.
Proof.
  revert current. induction l as [|b l IH]; intros current; simpl; [by eexists _, _|].
  case_bool_decide; [by eexists _, _|].
  destruct (IH (b :: current)) as (f & r & -> & Hf). eexists _, _; split; [done|].
  simpl in Hf. etransitivity; [by apply prefix_app_r|done].
Qed.

Lemma components_below d l :
  d <> [] -> components (d ++ slash :: l) = components d ++ omap piece_component (pieces l).
Proof.
  intros Hd. unfold components.
  assert (pieces (d ++ slash :: l) = pieces d ++ pieces l) as -> by apply pieces_from_app.
  rewrite omap_app, app_assoc. f_equal. f_equal. destruct d as [|b d]; [done|].
  unfold pieces. by destruct (pieces_from_cons [] (b :: d)) as (f & r & -> & _).
Qed.

Lemma components_nonempty d : d <> [] -> components d <> [].
Proof.
  destruct d as [|b d]; [done|]. intros _. unfold components.
  destruct (starts_with [slash] (b :: d)) eqn:Es; [done|].
  assert (b <> slash) as Hb by (intros ->; assert (starts_with [slash] (slash :: d) = true)
    by (apply starts_with_true; by exists d); congruence).
  unfold pieces. cbn [pieces_from]. rewrite (bool_decide_false (b = slash)) by done.
  destruct (pieces_from_cons [b] d) as (f & r & -> & [k ->]). cbn [rev app head].
  case_bool_decide as Hdot; [done|].
  assert (exists c, piece_component (b :: k) = Some c) as [c Hc].
  { unfold piece_component. rewrite (bool_decide_false (b :: k = [])) by done.
    rewrite (bool_decide_false (b :: k = [dot])) by congruence. case_bool_decide; eauto. }
  intros Hnil. assert (c ∈ omap piece_component ((b :: k) :: r)) as Hin.
  { apply list_elem_of_omap. exists (b :: k). split; [left|done]. }
  change ([] ++ omap piece_component ((b :: k) :: r) = []) in Hnil.
  rewrite app_nil_l in Hnil. rewrite Hnil in Hin. by apply elem_of_nil in Hin.
Qed.

Lemma beneath_true d path : beneath d path = true <-> path = d \/ exists l, path = d ++ slash :: l.
Proof.
  unfold beneath. rewrite orb_true_iff, bool_decide_eq_true, starts_with_true.
  by setoid_rewrite <- app_assoc.
Qed.

(** ** The theorems *)

Lemma existsb_Forall_false {A} (f : A -> bool) l :
  existsb f l = false <-> Forall (fun x => f x = false) l.
Proof.
  rewrite <- not_true_iff_false, existsb_exists, Forall_forall. split.
  - intros H x Hx. apply not_true_iff_false. intros Hf. apply H. exists x. by rewrite <- list_elem_of_In.
  - intros H (x & Hx & Hf). rewrite H in Hf; [done|]. by apply list_elem_of_In.
Qed.

Lemma existsb_Exists {A} (f : A -> bool) l : existsb f l = true <-> Exists (fun x => f x = true) l.
Proof. rewrite existsb_exists, Exists_exists. by setoid_rewrite list_elem_of_In. Qed.

(** What is sent: a directory is in scope exactly when none of its components
    is hidden, it is not in one of the personal folders, no ancestor strictly below
    the home directory (it included) is readable by its owner only, and a pattern
    matches it where patterns are configured: no pattern overrides the privacy
    rules. *)
Theorem in_scope_spec configured env_home dir :
  let s := new configured env_home in
  is_in_scope s (Some dir) = true <->
  Forall (fun c => is_hidden c = false) (components dir) /\
  match home s with
  | Some home =>
      Forall (fun name => ~ (dir = home ++ slash :: name \/
                             exists l, dir = home ++ slash :: name ++ slash :: l)) PERSONAL_DIRS /\
      ~ owner_only_spec (components dir) (components home)
  | None => is_owner_only (components dir) = false
  end /\
  (patterns s = [] \/ Exists (fun p => matches_scope s p dir = true) (patterns s)).
Proof using Type.
  intros s. assert (home s <> Some []) as Hhome by (subst s; unfold new; simpl;
    destruct env_home as [h|]; simpl; [|done]; case_bool_decide; congruence).
  clearbody s. unfold is_in_scope, is_private.
  destruct (existsb is_hidden (components dir)) eqn:Eh.
  { split; [done|]. intros [Hf _]. apply existsb_exists in Eh as (c & Hc & Hh).
    rewrite Forall_forall in Hf. rewrite Hf in Hh; [done|]. by apply list_elem_of_In. }
  apply existsb_Forall_false in Eh. destruct (home s) as [h|] eqn:Eho.
  - destruct (existsb _ PERSONAL_DIRS) eqn:Ep.
    { split; [done|]. intros (_ & [Hf _] & _). apply existsb_Exists, Exists_exists in Ep as (n & Hn & Hb).
      rewrite Forall_forall in Hf. destruct (Hf n Hn). apply beneath_true in Hb.
      by setoid_rewrite <- app_assoc in Hb. }
    assert (Forall (fun name => ~ (dir = h ++ slash :: name \/
              exists l, dir = h ++ slash :: name ++ slash :: l)) PERSONAL_DIRS).
    { apply existsb_Forall_false in Ep. eapply Forall_impl; [done|]. intros n Hn Hb.
      apply not_true_iff_false in Hn. apply Hn, beneath_true. by setoid_rewrite <- app_assoc. }
    pose proof (owner_only_loop_spec (components h) (rev (components dir))) as Ho.
    rewrite rev_involutive in Ho. unfold owner_only_below_home.
    assert (owner_only_loop (components h) (rev (components dir)) = true <->
            owner_only_spec (components dir) (components h)) as Ho'.
    { apply Ho; [apply components_nonempty; congruence|apply components_rooted]. }
    rewrite <- Ho'. destruct (owner_only_loop _ _); [naive_solver|].
    case_bool_decide; [naive_solver|]. rewrite existsb_Exists. naive_solver.
  - destruct (is_owner_only _); [naive_solver|]. case_bool_decide; [naive_solver|].
    rewrite existsb_Exists. naive_solver.
Qed.

(** Privacy is inherited: below a directory that is private and that is the
    home directory or below it, every directory is private. *)
Theorem privacy_inherited s h dir sub :
  home s = Some h -> h <> [] -> components h `prefix_of` components dir -> is_private s dir = true ->
  is_private s (dir ++ slash :: sub) = true.
Proof using Type.
  intros Hs Hh Hpre. assert (dir <> []) as Hd.
  { intros ->. apply prefix_nil_inv in Hpre. by apply components_nonempty in Hpre. }
  unfold is_private. rewrite Hs, (components_below dir) by done.
  set (below := omap _ _). rewrite existsb_app.
  destruct (existsb is_hidden (components dir)); [done|]. rewrite orb_false_l.
  destruct (existsb is_hidden below); [done|].
  destruct (existsb (fun name => beneath (h ++ [slash] ++ name) dir) PERSONAL_DIRS) eqn:Ep.
  { intros _. apply existsb_Exists, Exists_exists in Ep as (n & Hn & Hb).
    assert (existsb (fun name => beneath (h ++ [slash] ++ name) (dir ++ slash :: sub)) PERSONAL_DIRS
            = true) as ->; [|done].
    apply existsb_Exists, Exists_exists. exists n. split; [done|].
    apply beneath_true in Hb. apply beneath_true. right.
    destruct Hb as [->|[l ->]]; [by exists sub|]. exists (l ++ slash :: sub).
    by rewrite <- app_assoc. }
  case_match; [done|]. unfold owner_only_below_home.
  pose proof (components_rooted (dir ++ slash :: sub)) as Hr. rewrite components_below in Hr by done.
  rewrite (owner_only_loop_spec _ (rev (components dir))), (owner_only_loop_spec _ (rev (_ ++ _)))
    by (rewrite ?rev_involutive; auto using components_rooted, components_nonempty).
  rewrite !rev_involutive. unfold owner_only_spec.
  rewrite !bool_decide_true by auto using prefix_app_r.
  intros (q & (Hq1 & Hq2 & Hq3) & Hq). exists q. split; [|done]. split_and!; auto using prefix_app_r.
Qed.
End scope.

Lemma privacy_inherited_witness :
  let mode_of (p : list component) :=
    Some (if bool_decide (p = components (lit "/home/me/work")) then 448%Z else 493%Z) in
  is_private mode_of (mkScope [] (Some (lit "/home/me"))) (lit "/home/me/work/src") = true.
Proof.
  intros mode_of.
  apply (privacy_inherited mode_of (mkScope [] (Some (lit "/home/me"))) (lit "/home/me")
           (lit "/home/me/work") (lit "src")).
  - done.
  - done.
  - exists [Normal (lit "work")]. reflexivity.
  - vm_compute. reflexivity.
Defined.

(** The home directory is compared as the environment spells it: with a trailing
    slash (or through a symbolic link) none of the personal folders is recognised. *)
Lemma trailing_slash_home :
  let sent h := is_in_scope (fun _ => Some 493%Z) (new [] (Some (lit h)))
                  (Some (lit "/home/me/Documents/taxes")) in
  sent "/home/me" = false /\ sent "/home/me/" = true.
Proof. by vm_compute. Qed.

(** A pattern without an asterisk names a directory and what is below it; one with
    an asterisk names a prefix of the text. *)
Lemma matches_scope_directory s d path :
  str_strip_prefix [tilde] d = None -> last d <> Some asterisk ->
  matches_scope s d path = true <-> path = d \/ exists l, path = d ++ slash :: l.
Proof.
  intros Hd Hl. unfold matches_scope. rewrite Hd.
  destruct (last d) as [c|]; [rewrite bool_decide_false by congruence|]; apply beneath_true.
Qed.
End Scope.
