(* ===== verification/Event.v ===== *)
(** * Events and records: [types/src/event.rs], [record.rs], [timeline.rs], [sync.rs],
      [core/src/coverage.rs]

    The two streams kyrisd joins, agentpactd's governance events and its own records
    of model calls, the row the join makes of them, and the coverage of an event.
    [Action], [AttributionMethod] and [PlanStatus] are types of the agentpact_types
    crate; the variants of the first two are those that [derive] matches
    exhaustively, the names they are printed with and the third type are fields of
    [AgentpactTypes].  An [f64] is abstract, with the operations the code uses. *)

From S2P Require Import Prelude.

(** The variants of agentpact_types that the code matches on. *)
Inductive Action := Think | Execute | CallAction | Read | Write | UnknownAction.
Inductive AttributionMethod := Boundary | Lineage | Declared | UnknownAttribution.

Class AgentpactTypes := {
  action_to_string : Action -> string;
  attribution_to_string : AttributionMethod -> string;
  PlanStatus : Type;
  plan_status_to_string : PlanStatus -> string }.

Class Float64 := {
  f64 : Type;
  f64_zero : f64;
  f64_add : f64 -> f64 -> f64;
  f64_total_le : f64 -> f64 -> bool }.

#[export] Instance action_eq_dec : EqDecision Action.
Proof. solve_decision. Defined.

Module Event.

Inductive Decision := Auto | Ask | Deny | UnknownDecision.

Definition decision_to_string (d : Decision) : string :=
  match d with Auto => "auto" | Ask => "ask" | Deny => "deny" | UnknownDecision => "unknown" end.

Inductive SyncState := SyncedToEnterprise | PendingSync | LocalOnly.

Inductive CoverageState := Enforced | Observed | VendorReported | UnknownCoverage.

Definition coverage_to_string (c : CoverageState) : string :=
  match c with
  | Enforced => "enforced"
  | Observed => "observed"
  | VendorReported => "vendor_reported"
  | UnknownCoverage => "unknown"
  end.

Record Segment := mkSegment {
  command : string;
  s_decision : Decision;
  s_rule_kind : option string;
  s_rule_id : option string }.

Record Event := mkEvent {
  id : string;
  timestamp : string;
  agent : string;
  action : Action;
  detail : string;
  decision : Decision;
  rule_kind : option string;
  rule_id : option string;
  reason : option string;
  working_dir : option string;
  trace_id : option string;
  git_remote_origin : option string;
  mcp_server : option string;
  mcp_operation : option string;
  approval_id : option string;
  tier : option string;
  plan_status : option string;
  response : option string;
  success : option bool;
  exit_code : option Z;
  result_summary : option string;
  session : option string;
  binary : string;
  attribution_method : AttributionMethod;
  sync_state : SyncState;
  coverage_state : CoverageState;
  mode : string;
  event_kind : string;
  sandbox_applied : bool;
  sandbox_backend : option string;
  effect_classes : list string;
  resource_class : option string;
  grantable : option bool;
  segments : list Segment }.

(** ** Coverage *)

Definition derive (action : Action) (attribution_method : AttributionMethod) (mode : string)
  : CoverageState :=
  match action with
  | Think => Observed
  | Execute | CallAction | Read | Write =>
      match attribution_method with
      | Boundary | Lineage | Declared => if String.eqb mode "enforce" then Enforced else Observed
      | UnknownAttribution => UnknownCoverage
      end
  | UnknownAction => UnknownCoverage
  end.

Definition derive_for_event (e : Event) : Event :=
  mkEvent (id e) (timestamp e) (agent e) (action e) (detail e) (decision e) (rule_kind e)
    (rule_id e) (reason e) (working_dir e) (trace_id e) (git_remote_origin e) (mcp_server e)
    (mcp_operation e) (approval_id e) (tier e) (plan_status e) (response e) (success e)
    (exit_code e) (result_summary e) (session e) (binary e) (attribution_method e) (sync_state e)
    (derive (action e) (attribution_method e) (mode e)) (mode e) (event_kind e)
    (sandbox_applied e) (sandbox_backend e) (effect_classes e) (resource_class e) (grantable e)
    (segments e).

(** The [CASE] expression of [sql_expr], over columns that may be NULL: a comparison
    with NULL does not hold. *)
Definition sql_expr (action attribution_method mode : option string) : string :=
  let equals col v := bool_decide (col = Some v) in
  let attributed := equals attribution_method "boundary" || equals attribution_method "lineage"
                    || equals attribution_method "declared" in
  (if equals action "think" then "observed"
   else if attributed && equals mode "enforce" then "enforced"
   else if attributed then "observed"
   else "unknown")%string.
End Event.

Module Record.

Inductive RecordStatus := Success | Error | CircuitBreaker | CacheHit | UnknownStatus.

#[global] Instance record_status_eq_dec : EqDecision RecordStatus.
Proof. solve_decision. Defined.

Definition status_to_string (s : RecordStatus) : string :=
  match s with
  | Success => "success"
  | Error => "error"
  | CircuitBreaker => "circuit_breaker"
  | CacheHit => "cache_hit"
  | UnknownStatus => "unknown"
  end.

(** [RecordStatus::from_str], which never fails. *)
Definition status_from_str (s : string) : RecordStatus :=
  if String.eqb s "success" then Success
  else if String.eqb s "error" then Error
  else if String.eqb s "circuit_breaker" then CircuitBreaker
  else if String.eqb s "cache_hit" then CacheHit
  else UnknownStatus.

Inductive Metering := Available | Unavailable.

Definition metering_to_string (m : Metering) : string :=
  match m with Available => "available" | Unavailable => "unavailable" end.

Section record.
Context `{AgentpactTypes} `{Float64}.

Record GatewayRecord := mkRecord {
  id : string;
  trace_id : string;
  timestamp : string;
  provider : string;
  model : string;
  tokens_in : option Z;
  tokens_out : option Z;
  tokens_cache_create : option Z;
  tokens_cache_read : option Z;
  cost_usd : option f64;
  latency_ms : Z;
  status : RecordStatus;
  session_id : option string;
  synced : bool;
  mcp_server : option string;
  mcp_tool : option string;
  metering : Metering;
  plan_status : PlanStatus;
  working_dir : option string;
  agent : option string }.
End record.
End Record.

(** ** The coverage of a row, twice *)

Module CoverageFacts.
Import Event.

(** The columns DuckDB reads for an event written by agentpactd: the printed names,
    the mode left out when empty. *)
Definition mode_column (m : string) : option string := if String.eqb m "" then None else Some m.

Section coverage.
Context `{AgentpactTypes}.

(** The names agentpact_types prints: snake case, as the tests of [event.rs] read
    them back. *)
Definition snake_case_names : Prop :=
  Forall (fun a => action_to_string a = "think"%string <-> a = Think)
    [Think; Execute; CallAction; Read; Write; UnknownAction] /\
  attribution_to_string <$> [Boundary; Lineage; Declared; UnknownAttribution]
  = ["boundary"; "lineage"; "declared"; "unknown"]%string.

(** The two implementations of coverage agree: for an event of any known action
    the expression the timeline query evaluates in SQL gives the name of the state
    [derive] gives on the sync path. *)
Theorem coverage_implementations_agree action attribution_method mode :
  snake_case_names -> action <> UnknownAction ->
  sql_expr (Some (action_to_string action)) (Some (attribution_to_string attribution_method))
    (mode_column mode)
  = coverage_to_string (derive action attribution_method mode).
Proof.
  intros [Hact Hattr] Hknown. unfold sql_expr. rewrite Forall_forall in Hact.
  assert (bool_decide (Some (action_to_string action) = Some "think"%string)
          = bool_decide (action = Think)) as ->.
  { apply bool_decide_ext. assert (action_to_string action = "think"%string <-> action = Think) as Ha
      by (apply Hact; destruct action; rewrite list_elem_of_In; simpl; auto 8).
    split; [intros [= Hs]; by apply Ha|]. intros Hs. f_equal. by apply Ha. }
  injection Hattr as Hb Hl Hd Hu.
  assert (bool_decide (mode_column mode = Some "enforce"%string) = String.eqb mode "enforce") as ->.
  { unfold mode_column. destruct (String.eqb_spec mode "") as [->|]; [done|].
    destruct (String.eqb_spec mode "enforce") as [->|]; [done|].
    apply bool_decide_eq_false. congruence. }
  destruct action; [done|..|done];
    (destruct attribution_method; rewrite ?Hb, ?Hl, ?Hd, ?Hu; [..|done]);
    simpl; by destruct (String.eqb mode "enforce").
Qed.

(** An action this version does not know: unknown on the sync path, but enforced in
    the local timeline, where only its attribution is looked at. *)
Lemma unknown_action_coverage :
  action_to_string UnknownAction <> "think"%string ->
  coverage_to_string (derive UnknownAction Boundary "enforce") = "unknown"%string /\
  sql_expr (Some (action_to_string UnknownAction)) (Some "boundary"%string) (mode_column "enforce")
  = "enforced"%string.
Proof.
  intros Hne. split; [done|]. unfold sql_expr.
  rewrite (bool_decide_false (Some (action_to_string UnknownAction) = _)) by congruence. done.
Qed.
End coverage.

(** The names as serde's snake case gives them. *)
#[local] Instance sample_names : AgentpactTypes := {
  action_to_string a := (match a with
    | Think => "think" | Execute => "execute" | CallAction => "call" | Read => "read"
    | Write => "write" | UnknownAction => "unknown" end)%string;
  attribution_to_string m := (match m with
    | Boundary => "boundary" | Lineage => "lineage" | Declared => "declared"
    | UnknownAttribution => "unknown" end)%string;
  PlanStatus := unit;
  plan_status_to_string _ := "unknown"%string }.

Lemma coverage_implementations_agree_witness :
  sql_expr (Some "execute"%string) (Some "lineage"%string) (mode_column "enforce") = "enforced"%string.
Proof.
  refine (@coverage_implementations_agree sample_names Execute Lineage "enforce" _ _); [|done].
  split; [|reflexivity]. repeat constructor; done.
Defined.
End CoverageFacts.
