(* ===== verification/Timeline.v ===== *)
(** * The unified timeline: [daemon/src/timeline.rs]

    The join of the event log and the records of model calls, the statistics over the
    joined rows, and the query of the operator API.  DuckDB is modelled by the
    queries the code writes: the rows that satisfy the WHERE clause, sorted and cut;
    how it reads a timestamp is an argument.  Rows with equal keys keep the order of
    the table, where DuckDB may choose any. *)

From S2P Require Import Prelude Text Scope Event.
From stdpp Require Import gmap.

Module Timeline.

Section timeline.
Context `{AgentpactTypes} `{Float64}.
Local Open Scope string_scope.

(** ** Rows *)

Record TimelineFilter := mkFilter {
  f_agent : option string;
  f_action : option string;
  f_decision : option string;
  f_session : option string;
  f_trace_id : option string;
  f_dir : option string;
  f_since : option string;
  f_until : option string;
  f_limit : N }.

Record TimelineEventRow := mkRow {
  e_id : string;
  e_timestamp : string;
  e_agent : option string;
  e_action : string;
  e_detail : option string;
  e_decision : option string;
  e_coverage_state : string;
  e_working_dir : option string;
  e_git_remote_origin : option string;
  e_session : option string;
  e_mode : option string;
  e_rule_kind : option string;
  e_rule_id : option string;
  e_resource_class : option string;
  e_grantable : option bool;
  e_trace_id : option string;
  e_segments : list Event.Segment }.

(** [!s.is_empty()).then(..)]. *)
Definition opt (s : string) : option string := if String.eqb s "" then None else Some s.

(** [impl From<&Event> for TimelineEventRow]. *)
Definition row_of_event (e : Event.Event) : TimelineEventRow :=
  mkRow (Event.id e) (Event.timestamp e) (opt (Event.agent e)) (action_to_string (Event.action e))
    (opt (Event.detail e)) (Some (Event.decision_to_string (Event.decision e)))
    (Event.coverage_to_string
       (Event.derive (Event.action e) (Event.attribution_method e) (Event.mode e)))
    (Event.working_dir e) (Event.git_remote_origin e) (Event.session e) (opt (Event.mode e))
    (Event.rule_kind e) (Event.rule_id e) (Event.resource_class e) (Event.grantable e)
    (Event.trace_id e) (Event.segments e).

Record TimelineEntry := mkEntry {
  id : string;
  timestamp : string;
  trace_id : option string;
  agent : option string;
  action : string;
  detail : option string;
  decision : option string;
  coverage_state : string;
  source : string;
  working_dir : option string;
  git_remote_origin : option string;
  session : option string;
  mode : option string;
  rule_kind : option string;
  rule_id : option string;
  resource_class : option string;
  grantable : option bool;
  sync_state : option string;
  hostname : option string;
  provider : option string;
  model : option string;
  tokens_in : option Z;
  tokens_out : option Z;
  tokens_cache_create : option Z;
  tokens_cache_read : option Z;
  cost_usd : option f64;
  latency_ms : option Z;
  status : option string;
  metering : option string;
  plan_status : option string;
  mcp_server : option string;
  mcp_tool : option string;
  segments : list Event.Segment }.

(** ** Sync state *)

Record SyncScope := mkScope {
  patterns : list string;
  last_synced_at : option string }.

Definition no_scope : SyncScope := mkScope [] None.

(** The closure of [event_state]; an unset [HOME] is the empty text. *)
Definition pattern_matches (env_home wd p : string) : bool :=
  let expanded := match str_strip_prefix (lit "~") (lit p) with
                  | Some rest => (lit env_home ++ rest)%list
                  | None => lit p
                  end in
  match last expanded with
  | Some c => if bool_decide (c = "*"%char) then starts_with (removelast expanded) (lit wd)
              else Scope.beneath expanded (lit wd)
  | None => Scope.beneath expanded (lit wd)
  end.

(** [SyncScope::event_state], with [HOME] of the environment. *)
Definition event_state (env_home : string) (s : SyncScope) (working_dir : option string)
  : option string :=
  if bool_decide (patterns s = []) then None
  else
    wd ← working_dir;
    Some (if existsb (pattern_matches env_home wd) (patterns s) then "pending" else "local").

Definition coverage_with_burn (rec : option Record.GatewayRecord) (fallback : string) : string :=
  match rec with
  | Some r => if bool_decide (Record.status r = Record.CircuitBreaker) then "enforced" else fallback
  | None => fallback
  end.

Definition record_sync_state (rec : Record.GatewayRecord) : string :=
  if Record.synced rec then "synced"
  else if bool_decide (is_Some (Record.working_dir rec)) then "pending" else "local".

(** ** The two mappers and the join *)

Definition entry_from_event (env_home : string) (row : TimelineEventRow)
    (rec : option Record.GatewayRecord) (scope : SyncScope) : TimelineEntry :=
  let sync_state :=
    match rec with
    | Some r => Some (record_sync_state r)
    | None =>
        (fun s =>
           if String.eqb s "pending"
              && match last_synced_at scope with
                 | Some ts => String.leb (e_timestamp row) ts
                 | None => false
                 end
           then "synced" else s)
        <$> event_state env_home scope (e_working_dir row)
    end in
  mkEntry (e_id row) (e_timestamp row) (e_trace_id row) (e_agent row) (e_action row) (e_detail row)
    (e_decision row) (coverage_with_burn rec (e_coverage_state row)) "agent" (e_working_dir row)
    (e_git_remote_origin row) (e_session row) (e_mode row) (e_rule_kind row) (e_rule_id row)
    (e_resource_class row) (e_grantable row) sync_state None
    (Record.provider <$> rec) (Record.model <$> rec)
    (rec ≫= Record.tokens_in) (rec ≫= Record.tokens_out)
    (rec ≫= Record.tokens_cache_create) (rec ≫= Record.tokens_cache_read)
    (rec ≫= Record.cost_usd) (Record.latency_ms <$> rec)
    ((fun r => Record.status_to_string (Record.status r)) <$> rec)
    ((fun r => Record.metering_to_string (Record.metering r)) <$> rec)
    ((fun r => plan_status_to_string (Record.plan_status r)) <$> rec)
    (rec ≫= Record.mcp_server) (rec ≫= Record.mcp_tool) (e_segments row).

Definition entry_from_orphan_record (rec : Record.GatewayRecord) : TimelineEntry :=
  mkEntry (Record.id rec) (Record.timestamp rec) (Some (Record.trace_id rec)) (Record.agent rec)
    "think" (Some (Record.model rec)) None (coverage_with_burn (Some rec) "observed") "synthetic"
    (Record.working_dir rec) None (Record.session_id rec) None None None None None
    (Some (record_sync_state rec)) None (Some (Record.provider rec)) (Some (Record.model rec))
    (Record.tokens_in rec) (Record.tokens_out rec) (Record.tokens_cache_create rec)
    (Record.tokens_cache_read rec) (Record.cost_usd rec) (Some (Record.latency_ms rec))
    (Some (Record.status_to_string (Record.status rec)))
    (Some (Record.metering_to_string (Record.metering rec)))
    (Some (plan_status_to_string (Record.plan_status rec)))
    (Record.mcp_server rec) (Record.mcp_tool rec) [].

(** [b.timestamp.cmp(&a.timestamp).then(b.id.cmp(&a.id))] is not [Greater]. *)
Definition newest_first (a b : TimelineEntry) : bool :=
  match String.compare (timestamp b) (timestamp a) with
  | Lt => true
  | Gt => false
  | Eq => match String.compare (id b) (id a) with Gt => false | _ => true end
  end.

(** [records.iter().map(|r| (trace, r)).collect()]: of two with one key the later. *)
Definition by_trace (records : list Record.GatewayRecord) : gmap string Record.GatewayRecord :=
  foldl (fun m r => <[Record.trace_id r := r]> m) ∅ records.

Definition event_traces (events : list TimelineEventRow) : gset string :=
  list_to_set (omap e_trace_id events).

Definition record_of (records : list Record.GatewayRecord) (row : TimelineEventRow)
  : option Record.GatewayRecord :=
  t ← e_trace_id row; by_trace records !! t.

Definition orphan (events : list TimelineEventRow) (rec : Record.GatewayRecord) : Prop :=
  Record.trace_id rec ∉ event_traces events.

Definition join (env_home : string) (events : list TimelineEventRow)
    (records : list Record.GatewayRecord) (scope : SyncScope) : list TimelineEntry :=
  sort_by newest_first
    (((fun row => entry_from_event env_home row (record_of records row) scope) <$> events)
     ++ (entry_from_orphan_record <$> filter (orphan events) records))%list.

(** ** Statistics *)

Record AgentActivity := mkAgent {
  a_agent : string; a_total : N; a_auto : N; a_ask : N; a_denied : N }.

Record TokenTotals := mkTokens {
  input : Z; output : Z; cache_create : Z; cache_read : Z }.

Record ModelStat := mkModel { m_model : string; m_calls : N; m_cost : f64 }.

Record PromptBucket := mkPrompt { p_resource_class : string; p_count : N; p_grantable : N }.

Record TimelineStats := mkStats {
  actions_by_decision : list (string * N);
  agents : list AgentActivity;
  coverage : list (string * N);
  tokens : TokenTotals;
  total_cost_usd : f64;
  spend_by_provider : list (string * f64);
  models : list ModelStat;
  metering_available : N;
  metering_unavailable : N;
  prompts_by_resource : list PromptBucket }.

(** The local variables of [compute_stats]. *)
Record totals := mkTotals {
  t_decisions : gmap string N;
  t_agents : gmap string AgentActivity;
  t_coverage : gmap string N;
  t_tokens : TokenTotals;
  t_cost : f64;
  t_provider_spend : gmap string f64;
  t_models : gmap string ModelStat;
  t_metering_available : N;
  t_metering_unavailable : N;
  t_prompts : gmap string (N * N) }.

Definition no_totals : totals :=
  mkTotals ∅ ∅ ∅ (mkTokens 0 0 0 0) f64_zero ∅ ∅ 0 0 ∅.

(** [*map.entry(k).or_default() += 1]. *)
Definition bump (k : string) (m : gmap string N) : gmap string N :=
  <[k := (default 0 (m !! k) + 1)%N]> m.

Definition add_agent (name d : string) (m : gmap string AgentActivity) : gmap string AgentActivity :=
  let a := default (mkAgent name 0 0 0 0) (m !! name) in
  <[name := mkAgent (a_agent a) (a_total a + 1)
              (if String.eqb d "auto" then a_auto a + 1 else a_auto a)
              (if String.eqb d "ask" then a_ask a + 1 else a_ask a)
              (if String.eqb d "deny" then a_denied a + 1 else a_denied a)]>%N m.

Definition add_prompt (e : TimelineEntry) (m : gmap string (N * N)) : gmap string (N * N) :=
  let rc := default "unclassified" (resource_class e) in
  let b := default (0, 0)%N (m !! rc) in
  <[rc := (b.1 + 1, if bool_decide (grantable e = Some true) then b.2 + 1 else b.2)%N]> m.

Definition add_decision (e : TimelineEntry) (t : totals) : totals :=
  match decision e with
  | None => t
  | Some d =>
      let name := default "unknown" (agent e) in
      mkTotals (bump d (t_decisions t)) (add_agent name d (t_agents t)) (t_coverage t) (t_tokens t)
        (t_cost t) (t_provider_spend t) (t_models t) (t_metering_available t)
        (t_metering_unavailable t)
        (if String.eqb d "ask" then add_prompt e (t_prompts t) else t_prompts t)
  end.

(** [i64] additions, which wrap around in release builds. *)
Definition add_tokens (e : TimelineEntry) (t : TokenTotals) : TokenTotals :=
  mkTokens (wrap_i64 (input t + default 0 (tokens_in e))%Z)
    (wrap_i64 (output t + default 0 (tokens_out e))%Z)
    (wrap_i64 (cache_create t + default 0 (tokens_cache_create e))%Z)
    (wrap_i64 (cache_read t + default 0 (tokens_cache_read e))%Z).

Definition errored (e : TimelineEntry) : bool :=
  bool_decide (status e = Some "error") || bool_decide (status e = Some "circuit_breaker").

Definition add_spend (p : string) (cost : f64) (m : gmap string f64) : gmap string f64 :=
  <[p := f64_add (default f64_zero (m !! p)) cost]> m.

Definition add_model (e : TimelineEntry) (name : string) (m : gmap string ModelStat)
  : gmap string ModelStat :=
  let s := default (mkModel name 0 f64_zero) (m !! name) in
  <[name := mkModel (m_model s) (m_calls s + 1)%N
              (if errored e then m_cost s
               else f64_add (m_cost s) (default f64_zero (cost_usd e)))]> m.

Definition billed (e : TimelineEntry) : option f64 := if errored e then None else cost_usd e.

(** The body of the loop. *)
Definition add_entry (t : totals) (e : TimelineEntry) : totals :=
  let t := add_decision e t in
  mkTotals (t_decisions t) (t_agents t) (bump (coverage_state e) (t_coverage t))
    (add_tokens e (t_tokens t))
    (match billed e with Some cost => f64_add (t_cost t) cost | None => t_cost t end)
    (match billed e, provider e with
     | Some cost, Some p => add_spend p cost (t_provider_spend t)
     | _, _ => t_provider_spend t
     end)
    (match model e with Some m => add_model e m (t_models t) | None => t_models t end)
    (if bool_decide (metering e = Some "available") then t_metering_available t + 1
     else t_metering_available t)%N
    (if bool_decide (metering e = Some "unavailable") then t_metering_unavailable t + 1
     else t_metering_unavailable t)%N
    (t_prompts t).

(** [sort_by_key(|x| Reverse(count))]; of equal counts the order is that of the
    map, which the code leaves open as well. *)
Definition by_count {A} (count : A -> N) (l : list A) : list A :=
  sort_by (fun a b => (count b <=? count a)%N) l.

Definition compute_stats (entries : list TimelineEntry) : TimelineStats :=
  let t := foldl add_entry no_totals entries in
  mkStats (by_count snd (map_to_list (t_decisions t)))
    (by_count a_total (snd <$> map_to_list (t_agents t)))
    (by_count snd (map_to_list (t_coverage t)))
    (t_tokens t) (t_cost t)
    (sort_by (fun a b => f64_total_le b.2 a.2) (map_to_list (t_provider_spend t)))
    (by_count m_calls (snd <$> map_to_list (t_models t)))
    (t_metering_available t) (t_metering_unavailable t)
    (by_count p_count ((fun p => mkPrompt p.1 p.2.1 p.2.2) <$> map_to_list (t_prompts t))).

(** ** The query of the operator API *)

(** A line of the event log as [read_json] gives it: every column may be NULL. *)
Record LogRow := mkLogRow {
  l_id : option string;
  l_timestamp : option string;
  l_agent : option string;
  l_action : option string;
  l_detail : option string;
  l_decision : option string;
  l_working_dir : option string;
  l_trace_id : option string;
  l_git_remote_origin : option string;
  l_session : option string;
  l_mode : option string;
  l_rule_kind : option string;
  l_rule_id : option string;
  l_attribution_method : option string;
  l_resource_class : option string;
  l_grantable : option bool;
  l_segments : option string }.

(** SQL's [LIKE]: in the pattern a percent sign stands for any text and an
    underscore for one character. *)
Fixpoint sql_like (pattern text : bytes) {struct pattern} : bool :=
  match pattern with
  | [] => bool_decide (text = [])
  | p :: pattern =>
      if bool_decide (p = "%"%char)
      then (fix any text := sql_like pattern text
                            || match text with [] => false | _ :: text => any text end) text
      else match text with
           | [] => false
           | c :: text => (bool_decide (p = "_"%char) || bool_decide (p = c)) && sql_like pattern text
           end
  end.

(** [col = ?], added where the filter has a value. *)
Definition column_is (filter : option string) (col : option string) : bool :=
  match filter with None => true | Some v => bool_decide (col = Some v) end.

Section queries.
(** [TRY_CAST(_ AS TIMESTAMP)], in microseconds, and [serde_json::from_str] on the
    segments column. *)
Context (try_cast : string -> option Z) (parse_segments : string -> option (list Event.Segment)).

Definition cast_le (a b : option string) : bool :=
  match a ≫= try_cast, b ≫= try_cast with Some a, Some b => (a <=? b)%Z | _, _ => false end.

(** The WHERE clause of [read_event_rows]. *)
Definition event_selected (f : TimelineFilter) (r : LogRow) : bool :=
  column_is (f_agent f) (l_agent r) && column_is (f_action f) (l_action r)
  && column_is (f_decision f) (l_decision r) && column_is (f_session f) (l_session r)
  && column_is (f_trace_id f) (l_trace_id r)
  && match f_since f with None => true | Some s => cast_le (Some s) (l_timestamp r) end
  && match f_until f with None => true | Some u => cast_le (l_timestamp r) (Some u) end
  && match f_dir f with
     | None => true
     | Some d => bool_decide (l_working_dir r = Some d)
                 || match l_working_dir r with
                    | Some wd => sql_like (lit d ++ lit "/%") (lit wd)
                    | None => false
                    end
     end.

(** [ORDER BY timestamp DESC], NULL last. *)
Definition log_newest_first (a b : LogRow) : bool :=
  match l_timestamp a, l_timestamp b with
  | Some s, Some t => String.leb t s
  | None, Some _ => false
  | _, None => true
  end.

(** One row: an id and a time stamp are required. *)
Definition read_row (r : LogRow) : option TimelineEventRow :=
  i ← l_id r; ts ← l_timestamp r;
  Some (mkRow i ts (l_agent r) (default "" (l_action r)) (l_detail r) (l_decision r)
    (Event.sql_expr (l_action r) (l_attribution_method r) (l_mode r)) (l_working_dir r)
    (l_git_remote_origin r) (l_session r) (l_mode r) (l_rule_kind r) (l_rule_id r)
    (l_resource_class r) (l_grantable r) (l_trace_id r)
    (default [] (l_segments r ≫= parse_segments))).

(** [read_event_rows]: one row that cannot be read fails the query. *)
Definition read_event_rows (log : list LogRow) (f : TimelineFilter) (limit : nat)
  : option (list TimelineEventRow) :=
  mapM read_row (take limit (sort_by log_newest_first (filter (event_selected f) log))).

Record GatewayRecordFilter := mkRecordFilter {
  rf_provider : option string; rf_model : option string; rf_status : option string;
  rf_session_id : option string; rf_trace_id : option string;
  rf_mcp_server : option string; rf_mcp_tool : option string;
  rf_since : option string; rf_limit : option N }.

(** A row of [gateway_records]: its time, and the record with the time printed. *)
Definition stored_record : Type := Z * Record.GatewayRecord.

Definition record_selected (f : GatewayRecordFilter) (since : option Z) (r : stored_record) : bool :=
  column_is (rf_provider f) (Some (Record.provider r.2))
  && column_is (rf_model f) (Some (Record.model r.2))
  && column_is (rf_status f) (Some (Record.status_to_string (Record.status r.2)))
  && column_is (rf_session_id f) (Record.session_id r.2)
  && column_is (rf_trace_id f) (Some (Record.trace_id r.2))
  && column_is (rf_mcp_server f) (Record.mcp_server r.2)
  && column_is (rf_mcp_tool f) (Record.mcp_tool r.2)
  && match since with None => true | Some s => (s <=? r.1)%Z end.

(** [query_gateway_records]; a bound that is no time stamp fails the query. *)
Definition query_gateway_records (table : list stored_record) (f : GatewayRecordFilter)
  : option (list Record.GatewayRecord) :=
  since ← (match rf_since f with
           | None => Some None
           | Some s => Some <$> try_cast s
           end : option (option Z));
  let limit := N.min (default 1000%N (rf_limit f)) 10000 in
  Some (snd <$> take (N.to_nat limit)
          (sort_by (fun a b => (b.1 <=? a.1)%Z) (filter (record_selected f since) table))).

(** [limit.saturating_mul(2).clamp(limit, 10_000)] on [u32]. *)
Definition records_limit (limit : N) : N :=
  N.max limit (N.min (N.min (limit * 2) 4294967295) 10000).

(** [read_records_for]: of the filter only the session, the trace and the lower
    bound are passed on. *)
Definition read_records_for (table : list stored_record) (f : TimelineFilter) (limit : N)
  : list Record.GatewayRecord :=
  default [] (query_gateway_records table
    (mkRecordFilter None None None (f_session f) (f_trace_id f) None None (f_since f)
       (Some (records_limit limit)))).

(** [query_timeline]; a failed read of either stream is an empty one. *)
Definition query_timeline (env_home : string) (scope : SyncScope) (log : list LogRow)
    (table : list stored_record) (f : TimelineFilter) : list TimelineEntry :=
  let limit := N.max 1 (N.min (f_limit f) 10000) in
  let events := default [] (read_event_rows log f (N.to_nat limit)) in
  let records := read_records_for table f limit in
  take (N.to_nat limit) (join env_home events records scope).
End queries.
End timeline.

(** ** Facts *)

Section facts.
Context `{AgentpactTypes} `{Float64}.

Lemma newest_first_spec a b :
  newest_first a b = true <->
  String.le (timestamp b) (timestamp a) /\
  (timestamp a = timestamp b -> String.le (id b) (id a)).
Proof using Type.
  assert (forall s t, String.compare s t <> Gt <-> String.le s t) as Hle.
  { intros s t. unfold String.le, String.leb. destruct (String.compare s t); naive_solver. }
  unfold newest_first. rewrite <- (Hle (id b)).
  destruct (String.compare (timestamp b) (timestamp a)) eqn:E.
  - apply String.compare_eq_iff in E as ->. split.
    + intros Hid. split; [done|]. intros _. by destruct (String.compare (id b) (id a)).
    + intros [_ Hid]. specialize (Hid eq_refl). by destruct (String.compare (id b) (id a)).
  - split; [intros _|done]. split; [apply Hle; congruence|]. intros Heq. exfalso.
    rewrite Heq in E. assert (String.le (timestamp b) (timestamp b)) as Hr by done.
    unfold String.le, String.leb in Hr. pose proof (String.compare_antisym (timestamp b) (timestamp b)).
    rewrite E in *. done.
  - split; [done|]. intros [Hts _]. apply Hle in Hts. congruence.
Qed.

Lemma newest_first_total a b : newest_first a b = true \/ newest_first b a = true.
Proof using Type.
  rewrite !newest_first_spec.
  destruct (decide (timestamp a = timestamp b)) as [->|Hne].
  - destruct (total String.le (id a) (id b)); naive_solver.
  - destruct (total String.le (timestamp a) (timestamp b)); naive_solver.
Qed.

Lemma newest_first_trans a b c :
  newest_first a b = true -> newest_first b c = true -> newest_first a c = true.
Proof using Type.
  rewrite !newest_first_spec. intros [Hab Hab'] [Hbc Hbc']. split; [by etrans|].
  intros Hac. rewrite Hac in Hab, Hab'.
  assert (timestamp b = timestamp c) as Heq by (by apply (anti_symm String.le)).
  etrans; [by apply Hbc'|by apply Hab'].
Qed.

(** *** The records by trace *)

Lemma by_trace_snoc records r :
  by_trace (records ++ [r]) = <[Record.trace_id r := r]> (by_trace records).
Proof using Type. unfold by_trace. by rewrite foldl_app. Qed.

Lemma by_trace_lookup records t r :
  by_trace records !! t = Some r -> r ∈ records /\ Record.trace_id r = t.
Proof using Type.
  induction records as [|r' records IH] using rev_ind; [unfold by_trace; simpl; by rewrite lookup_empty|].
  rewrite by_trace_snoc. intros [[<- <-]|[_ Hr]]%lookup_insert_Some.
  - split; [|done]. apply elem_of_app. right. by apply list_elem_of_singleton.
  - destruct (IH Hr). split; [|done]. apply elem_of_app. by left.
Qed.

Lemma by_trace_unique records r :
  NoDup (Record.trace_id <$> records) -> r ∈ records ->
  by_trace records !! Record.trace_id r = Some r.
Proof using Type.
  induction records as [|r' records IH] using rev_ind; [by intros _ ?%elem_of_nil|].
  rewrite fmap_app, by_trace_snoc. intros (Hnd & Hnew & _)%NoDup_app.
  intros [Hr| ->%list_elem_of_singleton]%elem_of_app; [|by rewrite lookup_insert_eq].
  rewrite lookup_insert_ne; [by apply IH|]. intros Heq.
  apply (Hnew (Record.trace_id r)); [by apply list_elem_of_fmap_2|].
  rewrite <- Heq. by left.
Qed.

Lemma record_of_spec records row r :
  NoDup (Record.trace_id <$> records) ->
  record_of records row = Some r <-> r ∈ records /\ e_trace_id row = Some (Record.trace_id r).
Proof using Type.
  intros Hnd. unfold record_of. rewrite bind_Some. split.
  - intros (t & Ht & [Hr <-]%by_trace_lookup). done.
  - intros [Hr Ht]. eexists. split; [done|]. by apply by_trace_unique.
Qed.

Lemma event_traces_spec events t : t ∈ event_traces events <-> Some t ∈ e_trace_id <$> events.
Proof using Type.
  unfold event_traces. rewrite elem_of_list_to_set, list_elem_of_omap, list_elem_of_fmap.
  naive_solver.
Qed.

Lemma trace_injective records r r' :
  NoDup (Record.trace_id <$> records) -> r ∈ records -> r' ∈ records ->
  Record.trace_id r = Record.trace_id r' -> r = r'.
Proof using Type.
  intros Hnd Hr Hr' Heq. apply (by_trace_unique records) in Hr, Hr'; [|done..]. congruence.
Qed.

(** Where traces are not repeated, the records the events found and the orphans are
    all the records, each once. *)
Lemma matched_and_orphans events records :
  NoDup (Record.trace_id <$> records) -> NoDup (omap e_trace_id events) ->
  omap (record_of records) events ++ filter (orphan events) records ≡ₚ records.
Proof using Type.
  intros Hnd Hev. pose proof (NoDup_fmap_1 _ _ Hnd) as Hnd'.
  apply NoDup_Permutation; [apply NoDup_app; split_and!|done|].
  - clear Hnd'. induction events as [|row events IH]; [constructor|].
    cbn [omap list_omap] in *. destruct (record_of records row) as [r|] eqn:Er.
    + apply record_of_spec in Er as [Hr Ht]; [|done]. rewrite Ht in Hev.
      apply NoDup_cons in Hev as [Hnew Hev]. constructor; [|by apply IH].
      intros (row' & Hrow' & [_ Ht']%record_of_spec)%list_elem_of_omap; [|done].
      apply Hnew, list_elem_of_omap. eauto.
    + apply IH. destruct (e_trace_id row); [by apply NoDup_cons in Hev as []|done].
  - intros r (row & Hrow & [Hr Ht]%record_of_spec)%list_elem_of_omap; [|done].
    intros [Ho _]%list_elem_of_filter. apply Ho, event_traces_spec.
    rewrite <- Ht. by apply list_elem_of_fmap_2.
  - by apply NoDup_filter.
  - intros r. rewrite elem_of_app, list_elem_of_omap, list_elem_of_filter. split.
    + intros [(row & _ & [Hr _]%record_of_spec)|[_ Hr]]; done.
    + intros Hr. destruct (decide (orphan events r)) as [Ho|Ho]; [by right|]. left.
      unfold orphan in Ho. apply dec_stable, event_traces_spec, list_elem_of_fmap in Ho as (row & Ht & Hrow).
      exists row. split; [done|]. by apply record_of_spec.
Qed.

(** *** Nothing is lost and nothing counted twice *)

(** The model call of a record, and the one shown in a row. *)
Definition model_call : Type :=
  string * string * (option Z * option Z * option Z * option Z) * option f64 * Z
  * (string * string * string) * (option string * option string).

Definition call_of_record (r : Record.GatewayRecord) : model_call :=
  (Record.provider r, Record.model r,
   (Record.tokens_in r, Record.tokens_out r, Record.tokens_cache_create r,
    Record.tokens_cache_read r), Record.cost_usd r, Record.latency_ms r,
   (Record.status_to_string (Record.status r), Record.metering_to_string (Record.metering r),
    plan_status_to_string (Record.plan_status r)), (Record.mcp_server r, Record.mcp_tool r)).

Definition call_of_entry (e : TimelineEntry) : option model_call :=
  p ← provider e; m ← model e; l ← latency_ms e; s ← status e; mt ← metering e; ps ← plan_status e;
  Some (p, m, (tokens_in e, tokens_out e, tokens_cache_create e, tokens_cache_read e), cost_usd e,
        l, (s, mt, ps), (mcp_server e, mcp_tool e)).

(** The event of a row, but for its coverage, and the one shown in a row. *)
Definition event_of_row (r : TimelineEventRow) : TimelineEventRow :=
  mkRow (e_id r) (e_timestamp r) (e_agent r) (e_action r) (e_detail r) (e_decision r) ""
    (e_working_dir r) (e_git_remote_origin r) (e_session r) (e_mode r) (e_rule_kind r)
    (e_rule_id r) (e_resource_class r) (e_grantable r) (e_trace_id r) (e_segments r).

Definition event_of_entry (e : TimelineEntry) : option TimelineEventRow :=
  if String.eqb (source e) "agent"
  then Some (mkRow (id e) (timestamp e) (agent e) (action e) (detail e) (decision e) ""
               (working_dir e) (git_remote_origin e) (session e) (mode e) (rule_kind e)
               (rule_id e) (resource_class e) (grantable e) (trace_id e) (segments e))
  else None.

Lemma join_Permutation env_home events records scope :
  join env_home events records scope ≡ₚ
  ((fun row => entry_from_event env_home row (record_of records row) scope) <$> events)
  ++ (entry_from_orphan_record <$> filter (orphan events) records).
Proof using Type. apply sort_by_Permutation. Qed.

Lemma call_of_event_entry env_home row rec scope :
  call_of_entry (entry_from_event env_home row rec scope) = call_of_record <$> rec.
Proof using Type. by destruct rec. Qed.

Lemma omap_fmap_Some {A B C} (f : B -> option C) (g : A -> B) (h : A -> C) (l : list A) :
  (forall x, f (g x) = Some (h x)) -> omap f (g <$> l) = h <$> l.
Proof using Type. intros Hf. induction l as [|x l IH]; csimpl; [done|]. by rewrite Hf, IH. Qed.

Lemma omap_fmap_option {A B C D} (f : B -> option C) (g : A -> B) (k : A -> option D) (h : D -> C) (l : list A) :
  (forall x, f (g x) = h <$> k x) -> omap f (g <$> l) = h <$> omap k l.
Proof using Type.
  intros Hf. induction l as [|x l IH]; csimpl; [done|]. rewrite Hf, IH. by destruct (k x).
Qed.

Lemma join_calls env_home events records scope :
  NoDup (Record.trace_id <$> records) -> NoDup (omap e_trace_id events) ->
  omap call_of_entry (join env_home events records scope) ≡ₚ call_of_record <$> records.
Proof using Type.
  intros Hr He. rewrite join_Permutation, omap_app.
  rewrite (omap_fmap_option _ _ (record_of records) call_of_record)
    by (intros; apply call_of_event_entry).
  rewrite (omap_fmap_Some _ _ call_of_record) by done.
  by rewrite <- fmap_app, matched_and_orphans.
Qed.

Lemma join_events env_home events records scope :
  omap event_of_entry (join env_home events records scope) ≡ₚ event_of_row <$> events.
Proof using Type.
  rewrite join_Permutation, omap_app.
  rewrite (omap_fmap_Some _ _ event_of_row) by done.
  assert (forall l, omap event_of_entry (entry_from_orphan_record <$> l) = []) as ->
    by (by induction l).
  by rewrite app_nil_r.
Qed.

(** The join loses nothing and counts nothing twice: when no two records and no
    two events carry one trace, the timeline is sorted newest first and shows each
    governance event exactly once and each model call, with its tokens, cost and
    status, exactly once. *)
Theorem join_complete env_home events records scope :
  NoDup (Record.trace_id <$> records) -> NoDup (omap e_trace_id events) ->
  let entries := join env_home events records scope in
  StronglySorted (fun a b => newest_first a b = true) entries /\
  omap event_of_entry entries ≡ₚ event_of_row <$> events /\
  omap call_of_entry entries ≡ₚ call_of_record <$> records.
Proof using Type.
  intros Hr He entries. split_and!; [|apply join_events|by apply join_calls].
  apply sort_by_sorted; [apply newest_first_total|apply newest_first_trans].
Qed.

(** *** What the statistics count *)

(** A sum over the rows of the join is a sum over the records, where a row counts by
    its record only. *)
Lemma join_sum (f : TimelineEntry -> Z) (g : Record.GatewayRecord -> Z) env_home events records scope :
  (forall row rec, f (entry_from_event env_home row rec scope)
                   = match rec with Some r => g r | None => 0%Z end) ->
  (forall r, f (entry_from_orphan_record r) = g r) ->
  NoDup (Record.trace_id <$> records) -> NoDup (omap e_trace_id events) ->
  sum_Z (f <$> join env_home events records scope) = sum_Z (g <$> records).
Proof using Type.
  intros Hf Hg Hr He. rewrite join_Permutation, fmap_app, sum_Z_app, <- !list_fmap_compose.
  transitivity (sum_Z (g <$> (omap (record_of records) events ++ filter (orphan events) records)));
    [|by rewrite matched_and_orphans].
  rewrite fmap_app, sum_Z_app. f_equal.
  - clear He. induction events as [|row events IH]; csimpl; [done|]. rewrite Hf, IH.
    by destruct (record_of records row).
  - f_equal. apply list_fmap_ext. intros _ r _. apply Hg.
Qed.

(** The same for sums that look at the events only. *)
Lemma join_event_sum (f : TimelineEntry -> Z) (g : TimelineEventRow -> Z) env_home events records scope :
  (forall row rec, f (entry_from_event env_home row rec scope) = g row) ->
  (forall r, f (entry_from_orphan_record r) = 0%Z) ->
  sum_Z (f <$> join env_home events records scope) = sum_Z (g <$> events).
Proof using Type.
  intros Hf Hg. rewrite join_Permutation, fmap_app, sum_Z_app, <- !list_fmap_compose.
  assert (forall l, sum_Z ((f ∘ entry_from_orphan_record) <$> l) = 0%Z) as ->.
  { induction l as [|r l IH]; csimpl; [done|]. by rewrite Hg, IH. }
  rewrite Z.add_0_r. f_equal. apply list_fmap_ext. intros _ row _. apply Hf.
Qed.

(** One for each element of which [p] holds. *)
Definition one (p : bool) : Z := if p then 1%Z else 0%Z.

Lemma stats_tokens es :
  let total f := wrap_i64 (sum_Z ((fun e => default 0%Z (f e)) <$> es)) in
  t_tokens (foldl add_entry no_totals es) =
  mkTokens (total tokens_in) (total tokens_out) (total tokens_cache_create)
    (total tokens_cache_read).
Proof using Type.
  induction es as [|e es IH] using rev_ind; [done|]. rewrite foldl_app. cbn [foldl].
  set (t := foldl add_entry no_totals es) in *.
  assert (t_tokens (add_entry t e) = add_tokens e (t_tokens t)) as ->.
  { unfold add_entry, add_decision. by destruct (decision e). }
  rewrite IH. unfold add_tokens. cbn [input output cache_create cache_read].
  rewrite !wrap_i64_add_l, !fmap_app, !sum_Z_app. simpl. by rewrite !Z.add_0_r.
Qed.

Lemma stats_metering es :
  Z.of_N (t_metering_available (foldl add_entry no_totals es)) =
    sum_Z ((fun e => one (bool_decide (metering e = Some "available"))) <$> es) /\
  Z.of_N (t_metering_unavailable (foldl add_entry no_totals es)) =
    sum_Z ((fun e => one (bool_decide (metering e = Some "unavailable"))) <$> es).
Proof using Type.
  induction es as [|e es [IH1 IH2]] using rev_ind; [done|].
  rewrite foldl_app, !fmap_app, !sum_Z_app. cbn [foldl].
  set (t := foldl add_entry no_totals es) in *.
  assert (t_metering_available (add_decision e t) = t_metering_available t /\
          t_metering_unavailable (add_decision e t) = t_metering_unavailable t) as [E1 E2]
    by (unfold add_decision; by destruct (decision e)).
  unfold add_entry. cbn [t_metering_available t_metering_unavailable]. rewrite E1, E2, <- IH1, <- IH2.
  cbn [fmap list_fmap sum_Z foldr]. unfold one. repeat case_bool_decide; lia.
Qed.

(** A counter: the entry of every key is the number of rows with that key, and keys
    of no row have none. *)
Definition counts {V} (m : gmap string V) (n : V -> N) (key : TimelineEntry -> option string)
    (es : list TimelineEntry) : Prop :=
  forall k, Z.of_N (from_option n 0%N (m !! k))
            = sum_Z ((fun e => one (bool_decide (key e = Some k))) <$> es) /\
            (forall v, m !! k = Some v -> (0 < n v)%N).

Lemma counts_insert {V} (m : gmap string V) n key es e k v :
  counts m n key es -> key e = Some k -> n v = (from_option n 0 (m !! k) + 1)%N ->
  counts (<[k := v]> m) n key (es ++ [e]).
Proof using Type.
  intros Hm Hk Hv k'. specialize (Hm k') as [Hc Hpos].
  rewrite fmap_app, sum_Z_app, <- Hc. cbn [fmap list_fmap sum_Z foldr]. rewrite Hk. unfold one.
  destruct (decide (k = k')) as [->|Hne].
  - rewrite lookup_insert_eq, bool_decide_true by done. simpl. split; [lia|].
    intros v' [= <-]. lia.
  - rewrite lookup_insert_ne, bool_decide_false by congruence. split; [lia|done].
Qed.

Lemma counts_skip {V} (m : gmap string V) n key es e :
  counts m n key es -> key e = None -> counts m n key (es ++ [e]).
Proof using Type.
  intros Hm Hk k. specialize (Hm k) as [Hc Hpos].
  rewrite fmap_app, sum_Z_app, <- Hc. cbn [fmap list_fmap sum_Z foldr]. rewrite Hk.
  split; [|done]. simpl. lia.
Qed.

Lemma counts_empty {V} (n : V -> N) key : counts ∅ n key [].
Proof using Type. intros k. by rewrite lookup_empty. Qed.

Lemma stats_counts es :
  let t := foldl add_entry no_totals es in
  counts (t_decisions t) (fun n => n) decision es /\ counts (t_models t) m_calls model es /\
  (forall k s, t_models t !! k = Some s -> m_model s = k).
Proof using Type.
  induction es as [|e es (IHd & IHm & IHn)] using rev_ind.
  { split_and!; [apply counts_empty..|done]. }
  rewrite foldl_app. cbn [foldl]. set (t := foldl add_entry no_totals es) in *. cbv zeta.
  assert (t_models (add_decision e t) = t_models t) as Em
    by (unfold add_decision; by destruct (decision e)).
  unfold add_entry. cbn [t_decisions t_models]. rewrite Em. split_and!.
  - unfold add_decision. destruct (decision e) as [d|] eqn:Ed; [|by apply counts_skip].
    cbn [t_decisions]. unfold bump. eapply counts_insert; [done..|]. by destruct (t_decisions t !! d).
  - destruct (model e) as [m|] eqn:Emo; [|by apply counts_skip].
    eapply counts_insert; [done..|]. simpl. by destruct (t_models t !! m).
  - destruct (model e) as [m|] eqn:Emo; [|done]. unfold add_model. intros k s.
    intros [[<- <-]|[_ Hs]]%lookup_insert_Some; [|by apply IHn].
    simpl. destruct (t_models t !! m) as [s|] eqn:Es; [by apply IHn|done].
Qed.

Lemma elem_of_by_count {A} (count : A -> N) l x : x ∈ by_count count l <-> x ∈ l.
Proof using Type. unfold by_count. by rewrite sort_by_Permutation. Qed.

(** The number of elements of which [p] holds. *)
Definition number {A} (p : A -> bool) (l : list A) : Z := sum_Z ((fun x => one (p x)) <$> l).

Lemma number_nonneg {A} (p : A -> bool) l : (0 <= number p l)%Z.
Proof using Type.
  unfold number. induction l as [|x l IH]; csimpl; [lia|]. unfold one at 1. case_match; lia.
Qed.

Lemma number_pos {A} (p : A -> bool) l x : x ∈ l -> p x = true -> (0 < number p l)%Z.
Proof using Type.
  intros Hin Hp. unfold number. induction Hin as [x l|x y l _ IH]; csimpl.
  - rewrite Hp. simpl. pose proof (number_nonneg p l). unfold number in *. lia.
  - specialize (IH Hp). unfold one at 1. case_match; lia.
Qed.

Lemma number_app {A} (p q : A -> bool) l :
  (forall x, one (p x) + one (q x) = 1)%Z -> (number p l + number q l)%Z = Z.of_nat (length l).
Proof using Type.
  intros Hpq. unfold number. induction l as [|x l IH]; csimpl; [done|].
  specialize (Hpq x). simpl in *. lia.
Qed.

(** The statistics over the joined rows account for the two streams: each token
    total is the sum over the model calls (in 64 bits), each model's calls are its
    records and no model is missing, every call is metered or not, and each
    decision is counted as often as the events have it. *)
Theorem stats_account_for_streams env_home events records scope :
  NoDup (Record.trace_id <$> records) -> NoDup (omap e_trace_id events) ->
  let stats := compute_stats (join env_home events records scope) in
  let total f := wrap_i64 (sum_Z ((fun r => default 0%Z (f r)) <$> records)) in
  tokens stats = mkTokens (total Record.tokens_in) (total Record.tokens_out)
                   (total Record.tokens_cache_create) (total Record.tokens_cache_read) /\
  (forall s, s ∈ models stats ->
     Z.of_N (m_calls s) = number (fun r => bool_decide (Record.model r = m_model s)) records) /\
  (forall r, r ∈ records -> Record.model r ∈ m_model <$> models stats) /\
  (metering_available stats + metering_unavailable stats)%N = N.of_nat (length records) /\
  (forall d n, (d, n) ∈ actions_by_decision stats <->
     (0 < n)%N /\ Z.of_N n = number (fun e => bool_decide (e_decision e = Some d)) events).
Proof using Type.
  intros Hr He. set (es := join env_home events records scope).
  destruct (stats_counts es) as (Hd & Hm & Hn). cbv zeta in Hd, Hm, Hn.
  assert (forall m, sum_Z ((fun e => one (bool_decide (model e = Some m))) <$> es)
            = number (fun r => bool_decide (Record.model r = m)) records) as Hmodel.
  { intros m. apply join_sum; [..|done|done]; [intros row [r|]|intros r]; simpl; [|done|];
      f_equal; apply bool_decide_ext; naive_solver. }
  split_and!.
  - unfold compute_stats. cbn [tokens]. rewrite stats_tokens.
    f_equal; f_equal; (apply join_sum; [by intros row [r|]|done..]).
  - unfold compute_stats. cbn [models].
    intros s [[k s'] [Heq Hin]]%elem_of_by_count%list_elem_of_fmap. simpl in Heq. subst s'.
    apply elem_of_map_to_list in Hin. rewrite (Hn _ _ Hin), <- Hmodel.
    destruct (Hm k) as [<- _]. by rewrite Hin.
  - intros r Hin. unfold compute_stats. cbn [models].
    destruct (t_models (foldl add_entry no_totals es) !! Record.model r) as [s|] eqn:Es.
    + apply list_elem_of_fmap. exists s. split; [by rewrite (Hn _ _ Es)|].
      apply elem_of_by_count, list_elem_of_fmap. eexists (_, s). split; [done|].
      by apply elem_of_map_to_list.
    + exfalso. destruct (Hm (Record.model r)) as [Hz _]. rewrite Es, Hmodel in Hz. simpl in Hz.
      apply (number_pos (fun r' => bool_decide (Record.model r' = Record.model r))) in Hin;
        [lia|by apply bool_decide_eq_true].
  - unfold compute_stats. cbn [metering_available metering_unavailable].
    destruct (stats_metering es) as [Ha Hu].
    set (metered := fun r : Record.GatewayRecord =>
      match Record.metering r with Record.Available => true | Record.Unavailable => false end).
    assert (sum_Z ((fun e => one (bool_decide (metering e = Some "available"))) <$> es)
            = number metered records) as Ea
      by (apply join_sum; [intros row [r|]|intros r|done|done]; unfold metered; simpl;
          [destruct (Record.metering r)|..|destruct (Record.metering r)]; done).
    assert (sum_Z ((fun e => one (bool_decide (metering e = Some "unavailable"))) <$> es)
            = number (negb ∘ metered) records) as Eu
      by (apply join_sum; [intros row [r|]|intros r|done|done]; unfold metered; simpl;
          [destruct (Record.metering r)|..|destruct (Record.metering r)]; done).
    assert (number metered records + number (negb ∘ metered) records
            = Z.of_nat (length records))%Z
      by (apply number_app; intros r; simpl; by destruct (metered r)).
    lia.
  - intros d n. unfold compute_stats. cbn [actions_by_decision].
    rewrite elem_of_by_count, elem_of_map_to_list. destruct (Hd d) as [Hc Hpos].
    assert (sum_Z ((fun e => one (bool_decide (decision e = Some d))) <$> es)
            = number (fun e => bool_decide (e_decision e = Some d)) events) as <-
      by (apply join_event_sum; intros; done).
    rewrite <- Hc.
    destruct (t_decisions _ !! d) as [n'|]; simpl; [|split; [done|lia]].
    specialize (Hpos n' eq_refl). split; [intros [= ->]; lia|intros [_ Hn']; f_equal; lia].
Qed.

(** *** Where the query shows more, and claims more, than it should *)

Section query_facts.
Context (try_cast : string -> option Z) (parse_segments : string -> option (list Event.Segment)).

(** The limit a query works with. *)
Definition query_limit (f : TimelineFilter) : nat := N.to_nat (N.max 1 (N.min (f_limit f) 10000)).

(** The events a query selects. *)
Definition query_events (log : list LogRow) (f : TimelineFilter) : list TimelineEventRow :=
  default [] (read_event_rows try_cast parse_segments log f (query_limit f)).

Lemma mapM_length {A B} (f : A -> option B) l k : mapM f l = Some k -> length k = length l.
Proof using Type. intros Hk. by apply mapM_Some, Forall2_length in Hk. Qed.

Lemma query_events_length log f : length (query_events log f) <= length log.
Proof using Type.
  unfold query_events, read_event_rows.
  destruct (mapM _ _) as [rows|] eqn:Em; simpl; [|lia].
  apply mapM_length in Em. rewrite Em, length_take, sort_by_Permutation.
  pose proof (length_filter (event_selected try_cast f) log). lia.
Qed.

Lemma read_all_records table f limit :
  f_session f = None -> f_trace_id f = None -> f_since f = None ->
  (N.of_nat (length table) <= limit <= 10000)%N ->
  read_records_for try_cast table f limit ≡ₚ snd <$> table.
Proof using Type.
  intros Hs Ht Hsi Hlen. unfold read_records_for, query_gateway_records.
  cbn [rf_since]. rewrite Hsi. simpl. rewrite take_ge.
  - rewrite sort_by_Permutation. apply fmap_Permutation.
    assert (filter (record_selected (mkRecordFilter None None None (f_session f) (f_trace_id f)
              None None None (Some (records_limit limit))) None) table = table) as ->; [|done].
    clear Hlen. induction table as [|x table IH]; [done|].
    rewrite filter_cons_True; [by f_equal|].
    unfold record_selected. cbn. by rewrite Hs, Ht.
  - rewrite sort_by_Permutation. etrans; [apply length_filter|]. unfold records_limit, stored_record in *. lia.
Qed.

(** A filter on the agent, the action, the decision, the directory or the upper
    bound does not bound the model calls: each call of the table that no selected
    event carries is in the answer, whoever made it and wherever, as a row without
    a decision. *)
Theorem filter_misses_model_calls env_home scope log table f r :
  f_session f = None -> f_trace_id f = None -> f_since f = None ->
  length log + length table <= query_limit f ->
  r ∈ snd <$> table -> orphan (query_events log f) r ->
  entry_from_orphan_record r
    ∈ query_timeline try_cast parse_segments env_home scope log table f.
Proof using Type.
  intros Hs Ht Hsi Hlen Hr Ho. unfold query_timeline. fold (query_limit f) (query_events log f).
  set (records := read_records_for _ _ _ _).
  assert (records ≡ₚ snd <$> table) as Hrec.
  { apply read_all_records; [done..|]. unfold query_limit in Hlen. lia. }
  rewrite take_ge.
  - rewrite join_Permutation. apply elem_of_app. right. apply list_elem_of_fmap_2, list_elem_of_filter.
    split; [done|]. by rewrite Hrec.
  - rewrite join_Permutation, length_app, !length_fmap.
    etrans; [|exact Hlen]. apply Nat.add_le_mono; [apply query_events_length|].
    etrans; [apply length_filter|]. by rewrite Hrec, length_fmap.
Qed.
End query_facts.

(** The patterns of [event_state] match what those of the sync path match. *)
Lemma pattern_matches_scope ps env_home wd p :
  env_home <> "" ->
  pattern_matches env_home wd p
  = Scope.matches_scope (Scope.new ps (Some (lit env_home))) (lit p) (lit wd).
Proof using Type.
  intros Hne. unfold pattern_matches, Scope.matches_scope, Scope.new. cbn [Scope.home].
  destruct (decide (lit env_home = [])) as [He|He].
  { destruct env_home; [done|]. by simpl in He. }
  assert ((h ← Some (lit env_home); if bool_decide (h = []) then None else Some h)
          = Some (lit env_home)) as -> by (simpl; by rewrite bool_decide_false).
  done.
Qed.

(** The timeline decides about sync by the patterns alone: an event of a
    directory that is never sent, because it is private, is shown as synced once a
    configured pattern matches it and something was synced later. *)
Theorem private_event_shown_as_synced mode_of env_home ps watermark row wd :
  env_home <> "" -> e_working_dir row = Some wd ->
  Exists (fun p => pattern_matches env_home wd p = true) ps ->
  String.leb (e_timestamp row) watermark = true ->
  let s := Scope.new (lit <$> ps) (Some (lit env_home)) in
  Scope.is_private mode_of s (lit wd) = true ->
  Scope.is_in_scope mode_of s (Some (lit wd)) = false /\
  sync_state (entry_from_event env_home row None (mkScope ps (Some watermark))) = Some "synced".
Proof using Type.
  intros Hhome Hwd Hps Hts s Hpriv. split; [unfold Scope.is_in_scope; by rewrite Hpriv|].
  unfold entry_from_event, event_state. cbn [sync_state patterns last_synced_at].
  rewrite Hwd, bool_decide_false by (intros ->; by inversion Hps). simpl.
  assert (existsb (pattern_matches env_home wd) ps = true) as ->.
  { apply existsb_exists. apply Exists_exists in Hps as (p & Hp & Hm).
    exists p. by rewrite <- list_elem_of_In. }
  by rewrite Hts.
Qed.
End facts.

(** *** Samples *)

#[local] Existing Instance CoverageFacts.sample_names.
#[local] Instance sample_floats : Float64 := {
  f64 := Z; f64_zero := 0%Z; f64_add := Z.add; f64_total_le := Z.leb }.

Definition sample_record (t : string) : Record.GatewayRecord :=
  Record.mkRecord (String.append "rec-" t) t "2026-04-12T00:00:01Z" "anthropic" "claude" (Some 100%Z)
    (Some 50%Z) None None (Some 2%Z) 250 Record.Success None false None None Record.Available tt
    (Some "/work/repo") (Some "claude-code").

Definition sample_row (i : string) (t : option string) : TimelineEventRow :=
  mkRow i "2026-04-12T00:00:00Z" (Some "claude-code") "think" None (Some "auto") "observed"
    (Some "/work/repo") None None None None None None None t [].

Lemma join_complete_witness :
  let events := [sample_row "e1" None; sample_row "e2" (Some "t1")] in
  let records := [sample_record "t1"; sample_record "t2"] in
  omap call_of_entry (join "/home/me" events records no_scope) ≡ₚ call_of_record <$> records.
Proof.
  intros events records. apply (join_complete "/home/me" events records no_scope);
    apply (bool_decide_unpack _); vm_compute; exact I.
Defined.

Lemma stats_account_for_streams_witness :
  let events := [sample_row "e1" None; sample_row "e2" (Some "t1")] in
  let records := [sample_record "t1"; sample_record "t2"] in
  tokens (compute_stats (join "/home/me" events records no_scope)) = mkTokens 200 100 0 0.
Proof.
  intros events records. apply (stats_account_for_streams "/home/me" events records no_scope);
    apply (bool_decide_unpack _); vm_compute; exact I.
Defined.

Definition codex_only : TimelineFilter :=
  mkFilter (Some "codex") None None None None None None None 100.

Lemma filter_misses_model_calls_witness :
  entry_from_orphan_record (sample_record "t1")
    ∈ query_timeline (fun _ => None) (fun _ => None) "/home/me" no_scope
        [] [(0%Z, sample_record "t1")] codex_only.
Proof.
  apply (filter_misses_model_calls (fun _ => None) (fun _ => None) "/home/me" no_scope []
           [(0%Z, sample_record "t1")] codex_only); [done..|vm_compute; lia|left|].
  intros Hin. vm_compute in Hin. discriminate.
Defined.

Lemma private_event_shown_as_synced_witness :
  sync_state (entry_from_event "/home/me" 
    (mkRow "e" "2026-04-12T00:00:00Z" None "execute" None None "" (Some "/home/me/work/.ssh") None None
       None None None None None None []) None (mkScope ["~/work"] (Some "2026-05-01T00:00:00Z")))
  = Some "synced".
Proof.
  apply (private_event_shown_as_synced (fun _ => None) "/home/me" ["~/work"] "2026-05-01T00:00:00Z"
    (mkRow "e" "2026-04-12T00:00:00Z" None "execute" None None "" (Some "/home/me/work/.ssh") None None
       None None None None None None []) "/home/me/work/.ssh"); [done|done|by constructor|done|].
  by vm_compute.
Defined.

(** The directory filter is a pattern: an underscore in the name of a directory
    stands for any character, so a sibling's events are selected. *)
Lemma dir_filter_wildcard :
  sql_like (lit "/work/my_app" ++ lit "/%") (lit "/work/my-app/src") = true /\
  starts_with (lit "/work/my_app/") (lit "/work/my-app/src") = false.
Proof. by vm_compute. Qed.

(** Two records of one trace with an event: one of them is in no row. *)
Lemma shared_trace_drops_record :
  omap call_of_entry (join "/home/me" [sample_row "e" (Some "t1")]
                        [sample_record "t1"; sample_record "t1"] no_scope)
  = [call_of_record (sample_record "t1")].
Proof. by vm_compute. Qed.
End Timeline.
