(* ===== verification/Sync.v ===== *)
(** * Event sync: [daemon/src/sync/event_sync.rs], [daemon_sync.rs],
      [daemon/src/fail_open_log.rs]

    [EventSyncer] reads agentpactd's event log by a cursor, a file name and an offset;
    the loop of [run_sync_loop] joins what it read to the unsynced records and sends
    batches to the relay, and moves the cursor when one was accepted.  The log
    directory, the table of records and the spool of fail-open events are explicit
    states; between two ticks the other processes may change them in any way.
    Serde's readers, the clock and the relay's answers are arguments.  The database is
    taken to do what it is told; the tray, the toast and the traces on stderr are
    left out. *)

From S2P Require Import Prelude Text Json Scope Event Timeline.
From stdpp Require Import gmap.

Module Sync.

(** ** The log directory *)

Record file := mkFile { ino : N; contents : bytes }.

(** [read_dir], in the order of the listing. *)
Definition dir : Type := list (string * file).

Definition find_file (d : dir) (name : string) : option file :=
  snd <$> head (filter (fun p => p.1 = name) d).

Definition EVENTS : string := "events.jsonl".

Definition file_inode (d : dir) (name : string) : option N := ino <$> find_file d name.

(** [Path::extension] of a file name: what follows its last dot, unless that dot
    comes first. *)
Fixpoint after_last_dot (l : bytes) (found : option bytes) : option bytes :=
  match l with
  | [] => found
  | c :: l => after_last_dot l (if bool_decide (c = "."%char) then Some l else found)
  end.

Definition extension (name : bytes) : option bytes :=
  match name with
  | [] => None
  | _ :: rest => after_last_dot rest None
  end.

Definition is_log_file (name : string) : bool :=
  match extension (lit name) with
  | Some ext => bool_decide (to_ascii_lowercase ext = lit "jsonl")
  | None => false
  end || ends_with (lit ".jsonl.gz") (lit name).

Definition is_dated (name : string) : bool := is_log_file name && negb (String.eqb name EVENTS).

(** [find_file_by_inode]: the first one of the listing. *)
Definition find_file_by_inode (d : dir) (target : N) : option string :=
  fst <$> head (filter (fun p => is_dated p.1 /\ ino p.2 = target) d).

(** [find_newest_dated_log_file]: the last name in alphabetical order. *)
Definition find_newest_dated_log_file (d : dir) : option string :=
  last (sort_by String.leb (filter is_dated (fst <$> d))).

(** ** [EventSyncer] *)

Record SyncCursor := mkCursor { filename : string; byte_offset : nat }.

Record EventSyncer := mkSyncer {
  cursor : SyncCursor;
  scope : Scope.SyncScope;
  active_file_inode : option N }.

Definition new (c : SyncCursor) (s : Scope.SyncScope) (d : dir) : EventSyncer :=
  mkSyncer c s (if String.eqb (filename c) EVENTS then file_inode d EVENTS else None).

Definition commit_read (s : EventSyncer) (offset : nat) : EventSyncer :=
  mkSyncer (mkCursor (filename (cursor s)) offset) (scope s) (active_file_inode s).

(** A cursor moved to a dated file keeps its offset. *)
Definition to_dated (s : EventSyncer) (name : string) : EventSyncer :=
  mkSyncer (mkCursor name (byte_offset (cursor s))) (scope s) None.

Definition with_inode (s : EventSyncer) (inode : option N) : EventSyncer :=
  mkSyncer (cursor s) (scope s) inode.

Definition from_start (s : EventSyncer) (inode : option N) : EventSyncer :=
  mkSyncer (mkCursor EVENTS 0) (scope s) inode.

Definition or_else {A} (a b : option A) : option A := match a with Some _ => a | None => b end.

Definition check_rotation (d : dir) (s : EventSyncer) : EventSyncer * bool :=
  if String.eqb (filename (cursor s)) EVENTS then
    match find_file d EVENTS with
    | Some active =>
        match active_file_inode s with
        | Some known =>
            if N.eqb known (ino active) then (s, false)
            else match or_else (find_file_by_inode d known) (find_newest_dated_log_file d) with
                 | Some rotated => (to_dated s rotated, true)
                 | None => (from_start s (Some (ino active)), true)
                 end
        | None =>
            if length (contents active) <? byte_offset (cursor s) then
              match find_newest_dated_log_file d with
              | Some rotated => (to_dated s rotated, true)
              | None => (from_start s (Some (ino active)), true)
              end
            else (with_inode s (Some (ino active)), false)
        end
    | None =>
        match or_else (active_file_inode s ≫= find_file_by_inode d) (find_newest_dated_log_file d) with
        | Some rotated => (to_dated s rotated, true)
        | None => (s, false)
        end
    end
  else match find_file d EVENTS with
       | Some active => (from_start s (Some (ino active)), true)
       | None => (s, false)
       end.

(** [read_line] repeated: each line keeps its line feed, the last may have none. *)
Fixpoint raw_lines_from (current l : bytes) : list bytes :=
  match l with
  | [] => if bool_decide (current = []) then [] else [rev current]
  | b :: l => if bool_decide (b = newline) then rev (b :: current) :: raw_lines_from [] l
              else raw_lines_from (b :: current) l
  end.

Definition raw_lines (l : bytes) : list bytes := raw_lines_from [] l.

Section sync.
Context `{AgentpactTypes} `{Float64}.
(** [serde_json::from_str] of a value and of an [Event], [to_string] of a value, the
    mode of a file, [parse_from_rfc3339] in milliseconds. *)
Context {E : Type} (from_slice : bytes -> result json E) (to_string : json -> bytes)
  (parse_event : bytes -> option Event.Event) (mode_of : list Scope.component -> option Z)
  (parse_time : string -> option Z).

Definition in_scope (s : EventSyncer) (working_dir : option string) : bool :=
  Scope.is_in_scope mode_of (scope s) (lit <$> working_dir).

Definition patch_coverage_state (raw_line : bytes) (coverage : Event.CoverageState) : bytes :=
  let map := match from_slice raw_line with
             | Ok (JObject m) => m
             | _ => []
             end in
  to_string (JObject (obj_insert "coverage_state" (JString (Event.coverage_to_string coverage)) map)).

(** One line: the event it holds, where it does and is in scope. *)
Definition read_event (s : EventSyncer) (line : bytes) : option bytes :=
  let trimmed := trim line in
  if bool_decide (trimmed = []) then None
  else
    e ← parse_event trimmed;
    if in_scope s (Event.working_dir e)
    then Some (patch_coverage_state trimmed (Event.coverage_state (Event.derive_for_event e)))
    else None.

(** The loop of [read_new_events] and the bytes it consumed: a line that is no UTF-8
    is consumed and ends it. *)
Fixpoint read_lines (s : EventSyncer) (ls : list bytes) : list bytes * nat :=
  match ls with
  | [] => ([], 0)
  | line :: ls =>
      if negb (valid_utf8 line) then ([], length line)
      else
        let '(events, n) := read_lines s ls in
        (match read_event s line with Some raw => raw :: events | None => events end,
         length line + n)
  end.

Definition read_new_events (d : dir) (s : EventSyncer) : list bytes * nat :=
  let offset := byte_offset (cursor s) in
  match find_file d (filename (cursor s)) with
  | None => ([], offset)
  | Some f =>
      let '(events, n) := read_lines s (raw_lines (drop offset (contents f))) in
      (events, offset + n)
  end.

(** ** The spool of fail-open events *)

Definition spool_lines (content : bytes) : list bytes :=
  filter (fun l => trim l <> []) (lines content).

Definition is_json (line : bytes) : bool :=
  match from_slice line with Ok _ => true | Err _ => false end.

(** [fail_open_log::read]; [None] where there is no readable file. *)
Definition spool_read (spool : option bytes) : list bytes * nat :=
  match spool with
  | None => ([], 0)
  | Some content => let ls := spool_lines content in (filter is_json ls, length ls)
  end.

(** [drain]: the file without its first [n] lines. *)
Definition spool_drain (n : nat) (spool : option bytes) : option bytes :=
  (fun content => flat_map (fun l => l ++ [newline]) (drop n (spool_lines content))) <$> spool.

(** ** One tick *)

Inductive SendError := Transport (message : string) | Status (code : N).

Inductive SyncVerdict := Sent | EnrollmentError | RelayUnavailable | Retrying.

Definition MAX_UNKNOWN_SYNC_FAILURES : N := 3.
Definition RECORD_SETTLE_GRACE : Z := 10000.
Definition ORPHAN_GRACE : Z := 60000.

Definition classify_send_outcome (result : result unit SendError) (consecutive_failures : N)
  : SyncVerdict * N :=
  match result with
  | Ok _ => (Sent, 0%N)
  | Err (Status code) =>
      if N.eqb code 401 then (EnrollmentError, consecutive_failures)
      else if (500 <=? code)%N && (code <? 600)%N then (RelayUnavailable, consecutive_failures)
      else
        let failures := (consecutive_failures + 1)%N in
        (if (MAX_UNKNOWN_SYNC_FAILURES <=? failures)%N then EnrollmentError else Retrying, failures)
  | Err (Transport _) => (RelayUnavailable, consecutive_failures)
  end.

(** [event_age(now, ts).is_none_or(|age| p(age))]. *)
Definition age_is (p : Z -> bool) (now : Z) (timestamp : string) : bool :=
  match parse_time timestamp with Some ts => p (now - ts)%Z | None => true end.

Definition is_think (e : Event.Event) : bool := bool_decide (Event.action e = Think).

Definition pending_join (records : list Record.GatewayRecord) (now : Z) (e : Event.Event) : bool :=
  is_think e
  && match Event.trace_id e with
     | Some t => bool_decide (t ∉ Record.trace_id <$> records)
     | None => false
     end
  && age_is (fun age => age <? RECORD_SETTLE_GRACE)%Z now (Event.timestamp e).

Definition has_pending_join (events : list Event.Event) (records : list Record.GatewayRecord)
    (now : Z) : bool := existsb (pending_join records now) events.

(** The records that no event of this tick carries and that have waited long enough. *)
Definition aged_orphan (rows : list Timeline.TimelineEventRow) (now orphan_grace : Z)
    (r : Record.GatewayRecord) : Prop :=
  Timeline.orphan rows r /\ age_is (fun age => orphan_grace <=? age)%Z now (Record.timestamp r) = true.

#[local] Instance aged_orphan_dec rows now grace r : Decision (aged_orphan rows now grace r).
Proof. unfold aged_orphan, Timeline.orphan. apply _. Defined.

(** [build_entries]; the empty scope makes [HOME] irrelevant. *)
Definition build_entries (events : list Event.Event) (records : list Record.GatewayRecord)
    (now orphan_grace : Z) : list Timeline.TimelineEntry * list string :=
  let rows := Timeline.row_of_event <$> events in
  let orphans := filter (aged_orphan rows now orphan_grace) records in
  (((fun row => Timeline.entry_from_event "" row (Timeline.record_of records row) Timeline.no_scope)
      <$> rows) ++ (Timeline.entry_from_orphan_record <$> orphans),
   (Record.id <$> omap (Timeline.record_of records) rows) ++ (Record.id <$> orphans)).

(** [query_unsynced_records]: the oldest five hundred. *)
Definition query_unsynced_records (table : list Timeline.stored_record) : list Record.GatewayRecord :=
  snd <$> take 500 (sort_by (fun a b : Timeline.stored_record => (a.1 <=? b.1)%Z)
    (filter (fun r : Timeline.stored_record =>
       Record.synced r.2 = false /\ is_Some (Record.working_dir r.2)) table)).

Definition set_synced (r : Record.GatewayRecord) : Record.GatewayRecord :=
  Record.mkRecord (Record.id r) (Record.trace_id r) (Record.timestamp r) (Record.provider r)
    (Record.model r) (Record.tokens_in r) (Record.tokens_out r) (Record.tokens_cache_create r)
    (Record.tokens_cache_read r) (Record.cost_usd r) (Record.latency_ms r) (Record.status r)
    (Record.session_id r) true (Record.mcp_server r) (Record.mcp_tool r) (Record.metering r)
    (Record.plan_status r) (Record.working_dir r) (Record.agent r).

Definition mark_records_synced (ids : list string) (table : list Timeline.stored_record)
  : list Timeline.stored_record :=
  (fun r => if bool_decide (Record.id r.2 ∈ ids) then (r.1, set_synced r.2) else r) <$> table.

Record TimelineBatch := mkBatch {
  machine_id : string;
  entries : list Timeline.TimelineEntry;
  batch_cursor : SyncCursor }.

(** The local variables of [run_sync_loop], and what it keeps on disk. *)
Record state := mkState {
  syncer : EventSyncer;
  consecutive_failures : N;
  enrollment_error_machine : option string;
  saved_cursor : option SyncCursor;
  table : list Timeline.stored_record;
  spool : option bytes }.

Definition fail_open_in_scope (s : EventSyncer) (raw : bytes) : bool :=
  match parse_event raw with
  | Some e => in_scope s (Event.working_dir e)
  | None => false
  end.

Definition filter_fail_open_in_scope (s : EventSyncer) (lines : list bytes) : list bytes :=
  filter (fail_open_in_scope s) lines.

(** What a tick finds: the credential, the log directory, the clock, and the answer
    of the relay should a batch be sent. *)
Record input := mkInput {
  credentials : option string;
  log : dir;
  now : Z;
  orphan_grace : Z;
  answer : result unit SendError }.

(** [commit_read]; the cursor on disk stays as it is. *)
Definition commit (st : state) (s : EventSyncer) (offset : nat) : state :=
  mkState (commit_read s offset) (consecutive_failures st) (enrollment_error_machine st)
    (saved_cursor st) (table st) (spool st).

(** The rest of the tick once the enrollment gates are passed; the batch is that
    which was sent, with its verdict. *)
Definition sync_tick (st : state) (machine : string) (i : input)
  : state * option (TimelineBatch * SyncVerdict) :=
  let s := (check_rotation (log i) (syncer st)).1 in
  let st := mkState s (consecutive_failures st) (enrollment_error_machine st) (saved_cursor st)
              (table st) (spool st) in
  let '(raw_events, new_offset) := read_new_events (log i) s in
  let '(raw_fail_open, fail_open_line_count) := spool_read (spool st) in
  let fail_open_events := filter_fail_open_in_scope s raw_fail_open in
  let events := omap parse_event (raw_events ++ fail_open_events) in
  let records := filter (fun r => in_scope s (Record.working_dir r) = true)
                   (query_unsynced_records (table st)) in
  if (length events =? 0) && (length records =? 0) then (commit st s new_offset, None)
  else if has_pending_join events records (now i) then (st, None)
  else
    let '(es, synced_record_ids) := build_entries events records (now i) (orphan_grace i) in
    if length es =? 0 then (commit st s new_offset, None)
    else
      let batch := mkBatch machine es (cursor s) in
      let '(verdict, failures) := classify_send_outcome (answer i) (consecutive_failures st) in
      (match verdict with
       | Sent =>
           let s := commit_read s new_offset in
           mkState s failures (enrollment_error_machine st) (Some (cursor s))
             (mark_records_synced synced_record_ids (table st))
             (if length fail_open_events =? 0 then spool st
              else spool_drain fail_open_line_count (spool st))
       | EnrollmentError =>
           mkState s failures (Some machine) (saved_cursor st) (table st) (spool st)
       | RelayUnavailable | Retrying =>
           mkState s failures (enrollment_error_machine st) (saved_cursor st) (table st) (spool st)
       end, Some (batch, verdict)).

(** One turn of the loop of [run_sync_loop]. *)
Definition tick (st : state) (i : input) : state * option (TimelineBatch * SyncVerdict) :=
  match credentials i with
  | None =>
      (mkState (syncer st) 0 None (saved_cursor st) (table st) (spool st), None)
  | Some machine =>
      if bool_decide (enrollment_error_machine st = Some machine) then (st, None)
      else
        let st := match enrollment_error_machine st with
                  | Some _ => mkState (syncer st) 0 None (saved_cursor st) (table st) (spool st)
                  | None => st
                  end in
        sync_tick st machine i
  end.

(** The state the loop starts in. *)
Definition start (configured : list bytes) (env_home : option bytes) (saved : option SyncCursor)
    (d : dir) (table : list Timeline.stored_record) (spool : option bytes) : state :=
  mkState (new (default (mkCursor EVENTS 0) saved) (Scope.new configured env_home) d) 0 None saved
    table spool.
End sync.

(** ** Lines *)

Lemma raw_lines_from_concat current l : concat (raw_lines_from current l) = rev current ++ l.
Proof.
  revert current. induction l as [|b l IH]; intros current; simpl.
  - case_bool_decide as Hc; [by rewrite Hc|]. simpl. by rewrite !app_nil_r.
  - case_bool_decide as Hb; rewrite ?IH; simpl; rewrite ?IH; simpl; by rewrite <- app_assoc.
Qed.

Lemma raw_lines_concat l : concat (raw_lines l) = l.
Proof. apply raw_lines_from_concat. Qed.

Lemma raw_lines_from_app current a b :
  raw_lines_from current (a ++ newline :: b) = raw_lines_from current (a ++ [newline]) ++ raw_lines b.
Proof.
  revert current. induction a as [|c a IH]; intros current; simpl; [done|].
  case_bool_decide; simpl; by rewrite IH.
Qed.

Lemma raw_lines_app a b : whole a -> raw_lines (a ++ b) = raw_lines a ++ raw_lines b.
Proof.
  intros [->|Ha]; [done|]. apply last_Some in Ha as [a' ->].
  rewrite <- app_assoc. apply raw_lines_from_app.
Qed.

(** Every line is UTF-8. *)
Definition text (l : bytes) : Prop := Forall (fun line => valid_utf8 line = true) (raw_lines l).

Section sync_facts.
Context `{AgentpactTypes} `{Float64}.
Context {E : Type} (from_slice : bytes -> result json E) (to_string : json -> bytes)
  (parse_event : bytes -> option Event.Event) (mode_of : list Scope.component -> option Z)
  (parse_time : string -> option Z).

#[local] Abbreviation read_lines := (read_lines from_slice to_string parse_event mode_of).
#[local] Abbreviation read_event := (read_event from_slice to_string parse_event mode_of).
#[local] Abbreviation in_scope := (in_scope mode_of).
#[local] Abbreviation tick := (tick from_slice to_string parse_event mode_of parse_time).
#[local] Abbreviation sync_tick := (sync_tick from_slice to_string parse_event mode_of parse_time).

Lemma read_lines_text s ls :
  Forall (fun line => valid_utf8 line = true) ls ->
  read_lines s ls = (omap (read_event s) ls, length (concat ls)).
Proof using Type.
  induction 1 as [|line ls Hl _ IH]; [done|]. cbn [Sync.read_lines]. rewrite Hl, IH. simpl.
  by rewrite length_app.
Qed.

(** [read_lines] sees the scope of the syncer only. *)
Lemma read_lines_scope s s' ls : scope s = scope s' -> read_lines s ls = read_lines s' ls.
Proof using Type.
  intros Hs. induction ls as [|line ls IH]; [done|]. cbn [Sync.read_lines]. rewrite IH.
  assert (read_event s line = read_event s' line) as ->; [|done].
  unfold Sync.read_event, Sync.in_scope. by rewrite Hs.
Qed.

(** Serde reads back the member that was set, and nothing else has changed. *)
Definition set_coverage (c : Event.CoverageState) (e : Event.Event) : Event.Event :=
  Event.mkEvent (Event.id e) (Event.timestamp e) (Event.agent e) (Event.action e) (Event.detail e)
    (Event.decision e) (Event.rule_kind e) (Event.rule_id e) (Event.reason e) (Event.working_dir e)
    (Event.trace_id e) (Event.git_remote_origin e) (Event.mcp_server e) (Event.mcp_operation e)
    (Event.approval_id e) (Event.tier e) (Event.plan_status e) (Event.response e)
    (Event.success e) (Event.exit_code e) (Event.result_summary e) (Event.session e)
    (Event.binary e) (Event.attribution_method e) (Event.sync_state e) c (Event.mode e)
    (Event.event_kind e) (Event.sandbox_applied e) (Event.sandbox_backend e)
    (Event.effect_classes e) (Event.resource_class e) (Event.grantable e) (Event.segments e).

Definition patched_parses : Prop :=
  forall raw e c, parse_event raw = Some e ->
    parse_event (patch_coverage_state from_slice to_string raw c) = Some (set_coverage c e).

Hypothesis patched : patched_parses.

(** What the relay is owed for a line of the log. *)
Definition line_row (sc : Scope.SyncScope) (line : bytes) : option Timeline.TimelineEventRow :=
  if bool_decide (trim line = []) then None
  else
    e ← parse_event (trim line);
    if Scope.is_in_scope mode_of sc (lit <$> Event.working_dir e)
    then Some (Timeline.event_of_row (Timeline.row_of_event e)) else None.

Definition log_rows (sc : Scope.SyncScope) (l : bytes) : list Timeline.TimelineEventRow :=
  omap (line_row sc) (raw_lines l).

Lemma log_rows_app sc a b : whole a -> log_rows sc (a ++ b) = log_rows sc a ++ log_rows sc b.
Proof using Type. intros Ha. unfold log_rows. by rewrite raw_lines_app, omap_app. Qed.

Lemma read_event_row s line :
  line_row (scope s) line =
  (raw ← read_event s line; e ← parse_event raw; Some (Timeline.event_of_row (Timeline.row_of_event e))).
Proof using patched.
  unfold line_row, Sync.read_event, Sync.in_scope. case_bool_decide; [done|].
  destruct (parse_event (trim line)) as [e|] eqn:Ep; [|done]. simpl.
  destruct (Scope.is_in_scope _ _ _); [|done]. simpl. by erewrite patched.
Qed.

Lemma read_events_rows s (ls : list bytes) :
  (fun e => Timeline.event_of_row (Timeline.row_of_event e))
    <$> omap parse_event (omap (read_event s) ls)
  = omap (line_row (scope s)) ls.
Proof using patched.
  induction ls as [|line ls IH]; [done|]. cbn [omap list_omap]. rewrite read_event_row.
  destruct (read_event s line) as [raw|]; simpl; [|apply IH].
  destruct (parse_event raw); simpl; [f_equal|]; apply IH.
Qed.

(** The events of a batch, in their order. *)
Lemma build_entries_events events records now grace :
  omap Timeline.event_of_entry (build_entries parse_time events records now grace).1
  = (fun e => Timeline.event_of_row (Timeline.row_of_event e)) <$> events.
Proof using Type.
  unfold build_entries. cbn [fst]. rewrite omap_app.
  rewrite (Timeline.omap_fmap_Some _ _ Timeline.event_of_row) by done.
  assert (forall l, omap Timeline.event_of_entry (Timeline.entry_from_orphan_record <$> l) = []) as ->
    by (by induction l).
  by rewrite app_nil_r, <- list_fmap_compose.
Qed.

(** *** One tick of a log that was not rotated *)

(** The events of an accepted batch. *)
Definition accepted (out : option (TimelineBatch * SyncVerdict)) : list Timeline.TimelineEventRow :=
  match out with
  | Some (b, Sent) => omap Timeline.event_of_entry (entries b)
  | _ => []
  end.

(** What a tick does to the cursor: nothing, or a move that is owed no row, or a move
    past rows that were accepted, saved on disk. *)
Inductive moves (st st' : state) (n : nat) (rows : list Timeline.TimelineEventRow)
  : option (TimelineBatch * SyncVerdict) -> Prop :=
| moves_not out :
    syncer st' = syncer st -> saved_cursor st' = saved_cursor st -> accepted out = [] ->
    moves st st' n rows out
| moves_empty :
    syncer st' = commit_read (syncer st) n -> saved_cursor st' = saved_cursor st -> rows = [] ->
    moves st st' n rows None
| moves_sent b :
    syncer st' = commit_read (syncer st) n ->
    saved_cursor st' = Some (cursor (commit_read (syncer st) n)) ->
    accepted (Some (b, Sent)) = rows -> moves st st' n rows (Some (b, Sent)).

Lemma sync_tick_moves st machine i st' out raw n :
  check_rotation (log i) (syncer st) = (syncer st, false) -> spool st = None ->
  read_new_events from_slice to_string parse_event mode_of (log i) (syncer st) = (raw, n) ->
  sync_tick st machine i = (st', out) ->
  spool st' = None /\
  moves st st' n ((fun e => Timeline.event_of_row (Timeline.row_of_event e)) <$> omap parse_event raw) out.
Proof using Type.
  intros Hrot Hspool Hread. unfold Sync.sync_tick. rewrite Hrot. cbn [fst spool syncer table consecutive_failures].
  rewrite Hread, Hspool. cbn [spool_read filter_fail_open_in_scope]. 
  change (filter_fail_open_in_scope parse_event mode_of (syncer st) []) with (@nil bytes).
  rewrite app_nil_r. set (events := omap parse_event raw).
  set (records := filter _ (query_unsynced_records _)).
  destruct (_ && _) eqn:Enone.
  { intros [= <- <-]. split; [done|]. apply moves_empty; [done..|].
    apply andb_true_iff in Enone as [He _]. apply Nat.eqb_eq, nil_length_inv in He. by rewrite He. }
  destruct (has_pending_join _ _ _ _); [intros [= <- <-]; split; [done|by apply moves_not]|].
  pose proof (build_entries_events events records (now i) (orphan_grace i)) as Hev.
  destruct (build_entries _ _ _ _ _) as [es ids]. cbn [fst] in Hev.
  destruct (length es =? 0) eqn:Ees.
  { intros [= <- <-]. split; [done|]. apply moves_empty; [done..|].
    apply Nat.eqb_eq, nil_length_inv in Ees. by rewrite <- Hev, Ees. }
  destruct (classify_send_outcome _ _) as [[] failures]; intros [= <- <-]; (split; [done|]).
  - by apply moves_sent.
  - by apply moves_not.
  - by apply moves_not.
  - by apply moves_not.
Qed.

Lemma tick_moves st i st' out raw n :
  check_rotation (log i) (syncer st) = (syncer st, false) -> spool st = None ->
  read_new_events from_slice to_string parse_event mode_of (log i) (syncer st) = (raw, n) ->
  tick st i = (st', out) ->
  spool st' = None /\
  moves st st' n ((fun e => Timeline.event_of_row (Timeline.row_of_event e)) <$> omap parse_event raw) out.
Proof using Type.
  intros Hrot Hspool Hread. unfold Sync.tick. destruct (credentials i) as [machine|].
  2: { intros [= <- <-]. split; [done|by apply moves_not]. }
  case_bool_decide; [intros [= <- <-]; split; [done|by apply moves_not]|].
  intros Ht. destruct (enrollment_error_machine st).
  - apply (sync_tick_moves _ _ _ _ _ raw n) in Ht as [Hs Hm]; [|done..]. split; [done|].
    inversion Hm; [by apply moves_not|by apply moves_empty|by apply moves_sent].
  - by eapply sync_tick_moves.
Qed.

(** *** Runs *)

(** A tick, before which the records may have changed in any way, or a restart. *)
Inductive event :=
| Ticked (i : input) (t : list Timeline.stored_record) (out : option (TimelineBatch * SyncVerdict))
| Restarted (d : dir).

Context (configured : list bytes) (env_home : option bytes) (inode : N).
#[local] Abbreviation sc := (Scope.new configured env_home).

Definition with_table (t : list Timeline.stored_record) (st : state) : state :=
  mkState (syncer st) (consecutive_failures st) (enrollment_error_machine st) (saved_cursor st) t
    (spool st).

Definition acts (st : state) (e : event) (st' : state) : Prop :=
  match e with
  | Ticked i t out => tick (with_table t st) i = (st', out)
  | Restarted d => st' = start configured env_home (saved_cursor st) d (table st) (spool st)
  end.

Definition sees (e : event) : dir := match e with Ticked i _ _ => log i | Restarted d => d end.

(** A step of kyrisd beside a log that agentpactd only appends whole lines to. *)
Definition step (s : state * bytes) (e : event) (s' : state * bytes) : Prop :=
  acts s.1 e s'.1 /\ s.2 `prefix_of` s'.2 /\ whole s'.2 /\ text s'.2 /\
  find_file (sees e) EVENTS = Some (mkFile inode s'.2).

Definition delivered (evs : list event) : list Timeline.TimelineEventRow :=
  flat_map (fun e => match e with Ticked _ _ out => accepted out | Restarted _ => [] end) evs.

(** A cursor of the log: at the end of a line, all rows before it delivered. *)
Definition cursor_at (evs : list event) (c : bytes) (k : SyncCursor) : Prop :=
  filename k = EVENTS /\ byte_offset k <= length c /\ whole (take (byte_offset k) c) /\
  delivered evs = log_rows sc (take (byte_offset k) c).

Definition saved_at (st : state) : SyncCursor := default (mkCursor EVENTS 0) (saved_cursor st).

Definition inv (evs : list event) (s : state * bytes) : Prop :=
  spool s.1 = None /\ scope (syncer s.1) = sc /\ active_file_inode (syncer s.1) = Some inode /\
  cursor_at evs s.2 (cursor (syncer s.1)) /\ cursor_at evs s.2 (saved_at s.1).

Lemma cursor_at_grows evs c c' k : c `prefix_of` c' -> cursor_at evs c k -> cursor_at evs c' k.
Proof using Type.
  intros [r ->] (Hf & Hl & Hw & Hd). unfold cursor_at. rewrite length_app, take_app_le by done.
  split_and!; [done|lia|done|done].
Qed.

Lemma read_at evs c st n :
  cursor_at evs c (cursor (syncer st)) -> scope (syncer st) = sc -> text c ->
  find_file n EVENTS = Some (mkFile inode c) ->
  read_new_events from_slice to_string parse_event mode_of n (syncer st)
  = (omap (read_event (syncer st)) (raw_lines (drop (byte_offset (cursor (syncer st))) c)), length c).
Proof using Type.
  intros (Hf & Hl & Hw & _) Hs Htext Hfile. unfold read_new_events. rewrite Hf, Hfile.
  cbn [contents]. rewrite read_lines_text.
  - rewrite raw_lines_concat, length_drop. f_equal. lia.
  - unfold text in Htext. rewrite <- (take_drop (byte_offset (cursor (syncer st))) c) in Htext.
    rewrite raw_lines_app in Htext by done. by apply Forall_app in Htext as [_ ?].
Qed.

Lemma moved_at evs c c' k rows e :
  c `prefix_of` c' -> whole c' -> cursor_at evs c k ->
  rows = log_rows sc (drop (byte_offset k) c') ->
  (match e with Ticked _ _ out => accepted out | Restarted _ => [] end) = rows ->
  cursor_at (evs ++ [e]) c' (mkCursor EVENTS (length c')).
Proof using Type.
  intros Hc Hw Hk Hrows He. apply (cursor_at_grows _ _ _ _ Hc) in Hk as (Hf & Hl & Hwk & Hd).
  unfold cursor_at. cbn [filename byte_offset]. rewrite firstn_all.
  split_and!; [done|done|done|]. unfold delivered. rewrite flat_map_app. cbn [flat_map].
  rewrite He, app_nil_r, Hrows. fold (delivered evs). rewrite Hd.
  rewrite <- log_rows_app by done. by rewrite take_drop.
Qed.

Lemma stays_at evs c c' k e :
  c `prefix_of` c' -> cursor_at evs c k ->
  (match e with Ticked _ _ out => accepted out | Restarted _ => [] end) = [] ->
  cursor_at (evs ++ [e]) c' k.
Proof using Type.
  intros Hc Hk He. apply (cursor_at_grows _ _ _ _ Hc) in Hk as (Hf & Hl & Hwk & Hd).
  split_and!; [done..|]. unfold delivered. rewrite flat_map_app. cbn [flat_map].
  by rewrite He, !app_nil_r.
Qed.

Lemma inv_step evs s e s' : inv evs s -> step s e s' -> inv (evs ++ [e]) s'.
Proof using patched.
  destruct s as [st c], s' as [st' c']. intros (Hsp & Hsc & Hin & Hcur & Hsav).
  intros (Hact & Hpre & Hwhole & Htext & Hfile). cbn [fst snd] in *. destruct e as [i t out|d].
  - cbn [acts sees] in *.
    assert (check_rotation (log i) (syncer st) = (syncer st, false)) as Hrot.
    { unfold check_rotation. destruct Hcur as (-> & _). rewrite Hfile, Hin. simpl.
      by rewrite N.eqb_refl. }
    pose proof (cursor_at_grows _ _ _ _ Hpre Hcur) as Hcur'.
    pose proof (read_at _ _ _ _ Hcur' Hsc Htext Hfile) as Hread.
    apply (tick_moves (with_table t st) i st' out _ _ Hrot Hsp Hread) in Hact as [Hsp' Hm].
    rewrite read_events_rows, Hsc in Hm. fold (log_rows sc (drop (byte_offset (cursor (syncer st))) c')) in Hm.
    unfold inv. cbn [fst snd]. unfold saved_at in *.
    inversion Hm as [out' Hs Hsv Hacc|Hs Hsv Hrows|b Hs Hsv Hrows]; subst out; rewrite Hs, Hsv.
    + split_and!; [done..| |]; eapply stays_at; done.
    + split_and!; [done..| |].
      * simpl. rewrite (proj1 Hcur). by apply (moved_at evs c c' (cursor (syncer st)) []).
      * eapply stays_at; done.
    + split_and!; [done..| |]; simpl; rewrite (proj1 Hcur);
        by apply (moved_at evs c c' (cursor (syncer st))
                    (log_rows sc (drop (byte_offset (cursor (syncer st))) c'))).
  - simpl in Hact. subst st'. unfold inv. cbn [fst snd].
    assert (cursor_at (evs ++ [Restarted d]) c' (saved_at st)) as Hsav' by (eapply stays_at; done).
    unfold start, new, saved_at in *. cbn [sees] in Hfile. simpl.
    rewrite (proj1 Hsav). simpl. unfold file_inode. rewrite Hfile. simpl.
    split_and!; done.
Qed.

(** C11. Exactly once.  kyrisd starts without a cursor on disk beside a log that is there,
    keeps its inode and only grows by whole lines of UTF-8, and no fail-open event is ever
    in the spool.  Whatever the relay answers, whatever
    happens to the records and whenever kyrisd is restarted, between two ticks, the events
    in the batches the relay accepted are those of the lines in scope up to the cursor, each
    once and in order, and the cursor on disk owes the same.  (A line that is patched with a
    state of coverage is taken to be read as the same event with that state:
    [patched_parses].) *)
Theorem sync_exactly_once d c evs st' c' table :
  find_file d EVENTS = Some (mkFile inode c) ->
  trace step (start configured env_home None d table None, c) evs (st', c') -> 
  delivered evs = log_rows sc (take (byte_offset (cursor (syncer st'))) c') /\
  delivered evs = log_rows sc (take (byte_offset (saved_at st')) c').
Proof using patched.
  intros Hfile Htr.
  assert (inv evs (st', c')) as (_ & _ & _ & (_ & _ & _ & Hcur) & (_ & _ & _ & Hsav)); [|done].
  apply (trace_history_invariant _ inv _ _ _ inv_step) in Htr; [done|].
  unfold inv, start, new, file_inode. simpl. rewrite Hfile. simpl.
  split_and!; try done; (split_and!; [done|simpl; lia|by left|done]).
Qed.

(** ** Records *)

(** A batch ships a record and marks it together: the model calls in the entries
    are exactly those of the records whose ids are returned to be marked, each once;
    and a record left out is one that no event of the tick carries and that has not
    waited for the orphan grace yet. *)
Theorem build_entries_consumes events records now grace :
  NoDup (Record.trace_id <$> records) -> NoDup (omap Event.trace_id events) ->
  let '(es, ids) := build_entries parse_time events records now grace in
  exists consumed, consumed ⊆+ records /\
    omap Timeline.call_of_entry es ≡ₚ Timeline.call_of_record <$> consumed /\
    ids = Record.id <$> consumed /\
    (forall r, r ∈ records -> r ∈ consumed \/
       Record.trace_id r ∉ omap Event.trace_id events /\
       exists ts, parse_time (Record.timestamp r) = Some ts /\ (now - ts < grace)%Z).
Proof using Type.
  intros Hr He. unfold build_entries. set (rows := Timeline.row_of_event <$> events).
  assert (omap Timeline.e_trace_id rows = omap Event.trace_id events) as Htr.
  { unfold rows. induction events as [|e events IH]; [done|]. csimpl.
    assert (NoDup (omap Event.trace_id events)) by (csimpl in He; destruct (Event.trace_id e);
      [by apply NoDup_cons in He as []|done]).
    rewrite IH by done. done. }
  rewrite <- Htr in *.
  exists (omap (Timeline.record_of records) rows
          ++ filter (aged_orphan parse_time rows now grace) records).
  split_and!.
  - etransitivity; [|by rewrite <- (Timeline.matched_and_orphans rows records)].
    apply submseteq_skips_l.
    apply NoDup_submseteq; [apply NoDup_filter; by eapply NoDup_fmap_1|].
    intros r [[Ho _] Hin]%list_elem_of_filter. by apply list_elem_of_filter.
  - rewrite omap_app, fmap_app.
    rewrite (Timeline.omap_fmap_option _ _ (Timeline.record_of records) Timeline.call_of_record)
      by (intros; apply Timeline.call_of_event_entry).
    by rewrite (Timeline.omap_fmap_Some _ _ Timeline.call_of_record) by done.
  - by rewrite fmap_app.
  - intros r Hin. rewrite elem_of_app, list_elem_of_filter, list_elem_of_omap.
    destruct (decide (Timeline.orphan rows r)) as [Ho|Ho].
    + destruct (age_is parse_time (fun age => grace <=? age)%Z now (Record.timestamp r)) eqn:Ea.
      { left. right. by repeat split. }
      right. split.
      * intros Ht. apply Ho, Timeline.event_traces_spec. apply list_elem_of_omap in Ht as (row & ? & <-).
        by apply list_elem_of_fmap_2.
      * unfold age_is in Ea. destruct (parse_time (Record.timestamp r)) as [ts|]; [|done].
        exists ts. split; [done|]. by apply Z.leb_gt.
    + left. left. unfold Timeline.orphan in Ho.
      apply dec_stable, Timeline.event_traces_spec, list_elem_of_fmap in Ho as (row & Ht & Hrow).
      exists row. split; [done|]. by apply Timeline.record_of_spec.
Qed.

(** Where [n] elements come before all others, the first [n] of the sorted list are
    of their kind. *)
Lemma take_sort_first {A} (le : A -> A -> bool) (early : A -> bool) (l : list A) n :
  (forall x y, le x y = true \/ le y x = true) ->
  (forall x y z, le x y = true -> le y z = true -> le x z = true) ->
  (forall x y, x ∈ l -> y ∈ l -> early x = false -> early y = true -> le x y = false) ->
  n <= length (filter early l) ->
  Forall (fun x => early x = true) (take n (sort_by le l)).
Proof using Type.
  intros Htot Htrans Hlow Hn. pose proof (sort_by_sorted le Htot Htrans l) as Hs.
  assert (forall x y, x ∈ sort_by le l -> y ∈ sort_by le l -> early x = false -> early y = true ->
          le x y = false) as Hlow' by (intros x y; rewrite !sort_by_Permutation; apply Hlow).
  assert (n <= length (filter early (sort_by le l))) as Hn' by (by rewrite sort_by_Permutation).
  clear Hlow Hn. revert n Hlow' Hn'.
  induction Hs as [|x s Hs IH Hx]; intros n Hlow Hn; [by rewrite take_nil|].
  destruct (early x) eqn:Ex.
  - destruct n as [|n]; [constructor|]. simpl. constructor; [done|]. apply IH.
    + intros y z Hy Hz. apply Hlow; by right.
    + rewrite filter_cons_True in Hn by (by rewrite Ex). simpl in Hn. lia.
  - assert (filter early (x :: s) = []) as Hnil.
    { apply nil_length_inv. destruct (filter early (x :: s)) as [|y r] eqn:Ef; [done|]. exfalso.
      assert (y ∈ filter early (x :: s)) as [Hy Hin]%list_elem_of_filter by (rewrite Ef; left).
      apply Is_true_true in Hy. assert (le x y = false) as Hle by (apply Hlow; [left|done..]).
      apply elem_of_cons in Hin as [->|Hin]; [congruence|].
      rewrite Forall_forall in Hx. rewrite Hx in Hle; done. }
    rewrite Hnil in Hn. simpl in Hn. destruct n; [constructor|lia].
Qed.

(** An unsynced record of a directory that is never in scope. *)
Definition stuck (s : EventSyncer) (r : Timeline.stored_record) : bool :=
  negb (Record.synced r.2) && bool_decide (is_Some (Record.working_dir r.2))
  && negb (in_scope s (Record.working_dir r.2)).

(** The table starves sync: five hundred stuck records are older than the rest. *)
Definition starved (s : EventSyncer) (table : list Timeline.stored_record) : Prop :=
  500 <= length (filter (stuck s) table) /\
  (forall x y, x ∈ table -> y ∈ table -> stuck s x = false -> stuck s y = true -> (y.1 < x.1)%Z).

Lemma starved_fetches_nothing s table :
  starved s table ->
  filter (fun r => in_scope s (Record.working_dir r) = true) (query_unsynced_records table) = [].
Proof using Type.
  intros [Hmany Hold]. set (unsynced := filter (fun r : Timeline.stored_record =>
    Record.synced r.2 = false /\ is_Some (Record.working_dir r.2)) table).
  assert (Forall (fun r => stuck s r = true)
            (take 500 (sort_by (fun a b : Timeline.stored_record => (a.1 <=? b.1)%Z) unsynced))) as Hall.
  { apply take_sort_first.
    - intros x y. rewrite !Z.leb_le. lia.
    - intros x y z. rewrite !Z.leb_le. lia.
    - intros x y [_ Hx]%list_elem_of_filter [_ Hy]%list_elem_of_filter Hsx Hsy.
      apply Z.leb_gt. by apply Hold.
    - etransitivity; [exact Hmany|]. unfold unsynced. rewrite list_filter_filter. 
      apply Nat.eq_le_incl. f_equal. apply list_filter_iff. intros r. unfold stuck.
      rewrite !andb_True. destruct (Record.synced r.2); simpl; [naive_solver|].
      rewrite bool_decide_spec. naive_solver. }
  unfold query_unsynced_records. fold unsynced.
  induction Hall as [|r rs Hr _ IH]; [done|]. csimpl.
  rewrite filter_cons_False; [apply IH|]. unfold stuck in Hr.
  destruct (in_scope s (Record.working_dir r.2)); [by rewrite andb_false_r in Hr|done].
Qed.

Lemma check_rotation_scope d s : scope (check_rotation d s).1 = scope s.
Proof using Type.
  unfold check_rotation. repeat case_match; done.
Qed.

Lemma starved_scope s s' table : scope s = scope s' -> starved s table -> starved s' table.
Proof using Type.
  intros Hs. unfold starved, stuck, Sync.in_scope. by rewrite Hs.
Qed.

Lemma mark_nothing table : mark_records_synced [] table = table.
Proof using Type.
  unfold mark_records_synced. rewrite <- (list_fmap_id table) at 2. apply list_fmap_ext.
  intros _ r _. by rewrite bool_decide_false by (by intros ?%elem_of_nil).
Qed.

Lemma build_without_records events now grace :
  omap Timeline.call_of_entry (build_entries parse_time events [] now grace).1 = [] /\
  (build_entries parse_time events [] now grace).2 = [].
Proof using Type.
  assert (forall row, Timeline.record_of [] row = None) as Hnone.
  { intros row. unfold Timeline.record_of, Timeline.by_trace. simpl.
    destruct (Timeline.e_trace_id row); [|done]. simpl. by rewrite lookup_empty. }
  unfold build_entries. cbn [fst snd]. rewrite !filter_nil, !fmap_nil, !app_nil_r. split.
  - induction events as [|e events IH]; [done|]. csimpl.
    by rewrite Timeline.call_of_event_entry, Hnone.
  - induction events as [|e events IH]; [done|]. csimpl. by rewrite Hnone.
Qed.

(** Out of scope means stuck, and stuck records block the others: records of
    directories that are not in scope are never marked, yet they are fetched, oldest
    first and at most five hundred; once so many are older than the rest, no tick
    ships any model call again and none is ever marked. *)
Theorem stuck_records_starve_sync st i st' out :
  starved (syncer st) (table st) -> tick st i = (st', out) ->
  (forall b v, out = Some (b, v) -> omap Timeline.call_of_entry (entries b) = []) /\
  table st' = table st /\ starved (syncer st') (table st').
Proof using Type.
  intros Hst. unfold Sync.tick. destruct (credentials i) as [machine|]; [|by intros [= <- <-]].
  case_bool_decide; [by intros [= <- <-]|]. 
  set (st0 := match enrollment_error_machine st with Some _ => _ | None => _ end).
  assert (syncer st0 = syncer st /\ table st0 = table st) as [Hs0 Ht0]
    by (subst st0; by destruct (enrollment_error_machine st)).
  clearbody st0. rewrite <- Hs0, <- Ht0 in Hst. rewrite <- Ht0. clear Hs0 Ht0.
  unfold Sync.sync_tick. set (s := (check_rotation _ _).1).
  assert (scope s = scope (syncer st0)) as Hscope by apply check_rotation_scope.
  assert (starved s (table st0)) as Hst' by (by eapply starved_scope).
  cbn [table spool syncer consecutive_failures].
  destruct (read_new_events _ _ _ _ _ _) as [raw n]. destruct (spool_read _ _) as [fo k].
  rewrite (starved_fetches_nothing s) by done.
  set (events := omap parse_event _).
  assert (forall off, starved (commit_read s off) (table st0)) as Hcommit
    by (intros off; by apply (starved_scope s)).
  destruct (_ && _); [by intros [= <- <-]|].
  destruct (has_pending_join _ _ _ _); [by intros [= <- <-]|].
  destruct (build_without_records events (now i) (orphan_grace i)) as [Hc Hids].
  destruct (build_entries _ _ _ _ _) as [es ids]. cbn [fst snd] in Hc, Hids. subst ids.
  destruct (length es =? 0); [by intros [= <- <-]|].
  destruct (classify_send_outcome _ _) as [[] failures]; intros [= <- <-];
    (split_and!; [by intros ? ? [= <- <-]| |]); rewrite ?mark_nothing; done.
Qed.

(** ** The spool *)

Lemma spool_lines_app a b : whole a -> spool_lines (a ++ b) = spool_lines a ++ spool_lines b.
Proof using Type.
  intros Ha. unfold spool_lines. by rewrite lines_app, filter_app.
Qed.

(** Draining takes what was read and nothing else: the lines that other processes
    appended to the spool between the read and the drain are kept, in order. *)
Theorem drain_keeps_new_lines content fresh :
  whole content ->
  spool_drain (spool_read from_slice (Some content)).2 (Some (content ++ fresh))
  = Some (flat_map (fun l => l ++ [newline]) (spool_lines fresh)).
Proof using Type.
  intros Hw. unfold spool_drain, spool_read. simpl. rewrite spool_lines_app by done.
  by rewrite drop_app_length.
Qed.

End sync_facts.

(** ** When sync pauses *)

Definition unexpected (r : result unit SendError) : bool :=
  match r with
  | Err (Status code) => negb (N.eqb code 401) && negb ((500 <=? code) && (code <? 600))%N
  | _ => false
  end.

(** The counter after a series of answers. *)
Definition failures_after (rs : list (result unit SendError)) : N :=
  foldl (fun n r => (classify_send_outcome r n).2) 0%N rs.

(** Sync is declared broken by a rejected credential, or by the third answer that
    is neither a success, a rejection, a server error nor a transport error since the
    last success; an unreachable relay or a server error never does it. *)
Theorem escalation before since r :
  Forall (fun r => ok r = None) since ->
  (before = [] \/ exists rs, before = rs ++ [Ok tt]) ->
  let '(verdict, _) := classify_send_outcome r (failures_after (before ++ since)) in
  (verdict = EnrollmentError <->
     r = Err (Status 401) \/ unexpected r = true /\ 2 <= length (filter unexpected since)) /\
  (verdict = Sent <-> ok r = Some tt) /\
  (verdict = RelayUnavailable <->
     (exists m, r = Err (Transport m)) \/
     exists code, r = Err (Status code) /\ (500 <= code < 600)%N).
Proof.
  intros Hsince Hbefore.
  assert (failures_after (before ++ since) = N.of_nat (length (filter unexpected since))) as ->.
  { unfold failures_after. rewrite foldl_app.
    assert (foldl (fun n r => (classify_send_outcome r n).2) 0%N before = 0%N) as ->
      by (destruct Hbefore as [->|[rs ->]]; [done|by rewrite foldl_app]).
    induction since as [|x since IH] using rev_ind; [done|].
    apply Forall_app in Hsince as [Hsince Hx]. rewrite Forall_singleton in Hx.
    rewrite foldl_app, filter_app, length_app, Nat2N.inj_add, <- IH by done. cbn [foldl].
    set (n := foldl _ _ _). destruct x as [|[m|code]]; [done|simpl; lia|].
    unfold filter, list_filter. simpl. destruct (N.eqb code 401); simpl; [lia|].
    destruct ((500 <=? code) && (code <? 600))%N; simpl; lia. }
  unfold classify_send_outcome, unexpected. destruct r as [[]|[m|code]]; simpl.
  - split_and!; naive_solver.
  - split_and!; naive_solver.
  - destruct (N.eqb_spec code 401) as [->|H401]; simpl; [split_and!; naive_solver lia|].
    destruct ((500 <=? code) && (code <? 600))%N eqn:E5; simpl.
    + apply andb_true_iff in E5 as [?%N.leb_le ?%N.ltb_lt].
      split_and!; [split; [done|intros [[= ->]|[? _]]; [lia|done]]|done|].
      split; [intros _; right; eauto|done].
    + assert (~ (500 <= code < 600)%N) as Hno.
      { intros [Hlo%N.leb_le Hhi%N.ltb_lt]. by rewrite Hlo, Hhi in E5. }
      unfold MAX_UNKNOWN_SYNC_FAILURES.
      destruct (3 <=? _)%N eqn:E3; [apply N.leb_le in E3|apply N.leb_gt in E3].
      * split_and!; [split; [intros _; right; split; [done|lia]|done]|done|].
        split; [done|]. intros [[? ?]|(? & [= ->] & ?)]; done.
      * split_and!; [split; [done|intros [[= ->]|[_ ?]]; [done|lia]]|done|].
        split; [done|]. intros [[? ?]|(? & [= ->] & ?)]; done.
Qed.

(** ** Samples

    A toy format for the runs below: an event is a text in braces, its id; what
    follows a bar is its coverage. *)

#[local] Existing Instance CoverageFacts.sample_names.
#[local] Existing Instance Timeline.sample_floats.

Fixpoint before_bar (l : bytes) : bytes :=
  match l with
  | [] => []
  | c :: l => if bool_decide (c = "|"%char) then [] else c :: before_bar l
  end.

Fixpoint after_bar (l : bytes) : bytes :=
  match l with
  | [] => []
  | c :: l => if bool_decide (c = "|"%char) then l else after_bar l
  end.

Definition sample_coverage (l : bytes) : Event.CoverageState :=
  if bool_decide (l = lit "enforced") then Event.Enforced
  else if bool_decide (l = lit "observed") then Event.Observed
  else if bool_decide (l = lit "vendor_reported") then Event.VendorReported
  else Event.UnknownCoverage.

Definition sample_event (l : bytes) : Event.Event :=
  Event.mkEvent (of_bytes (before_bar l)) "2026-04-12T00:00:00Z" "claude-code" Execute "" Event.Auto
    None None None (Some "/work/repo"%string) None None None None None None None None None None None
    None "" Boundary Event.LocalOnly (sample_coverage (after_bar l)) "enforce" "" false None [] None
    None [].

Definition sample_parse_event (l : bytes) : option Event.Event :=
  if starts_with (lit "{") l && ends_with (lit "}") (before_bar l) then Some (sample_event l) else None.

Definition sample_from_slice (l : bytes) : result json unit :=
  Ok (JObject [("id"%string, JString (of_bytes (before_bar l)))]).

Definition sample_to_string (v : json) : bytes :=
  match v with
  | JObject [(_, JString i); (_, JString c)] => lit i ++ lit "|" ++ lit c
  | _ => []
  end.

Lemma before_bar_app l x : before_bar (before_bar l ++ "|"%char :: x) = before_bar l.
Proof.
  induction l as [|c l IH]; simpl; [done|]. destruct (decide (c = "|"%char)) as [->|Hc]; [done|].
  rewrite bool_decide_false by done. simpl. by rewrite bool_decide_false, IH.
Qed.

Lemma after_bar_app l x : after_bar (before_bar l ++ "|"%char :: x) = x.
Proof.
  induction l as [|c l IH]; simpl; [done|]. destruct (decide (c = "|"%char)) as [->|Hc]; [done|].
  rewrite bool_decide_false by done. simpl. by rewrite bool_decide_false.
Qed.

Lemma sample_patched : patched_parses sample_from_slice sample_to_string sample_parse_event.
Proof.
  intros raw e c. unfold sample_parse_event, patch_coverage_state, sample_from_slice.
  set (text := sample_to_string _).
  assert (text = before_bar raw ++ "|"%char :: lit (Event.coverage_to_string c)) as ->.
  { unfold text. simpl. by rewrite lit_of_bytes. }
  rewrite before_bar_app. destruct (starts_with _ raw) eqn:Es; [|done].
  destruct (ends_with _ _); [|done]. simpl. intros [= <-].
  apply starts_with_true in Es as [r ->]. simpl. f_equal.
  unfold sample_event, set_coverage. simpl.
  change ("{"%char :: before_bar r ++ "|"%char :: lit (Event.coverage_to_string c))
    with (before_bar ("{"%char :: r) ++ "|"%char :: lit (Event.coverage_to_string c)).
  rewrite ?before_bar_app, ?after_bar_app. by destruct c.
Qed.

Definition line (s : string) : bytes := lit s ++ [newline].

Definition sample_tick : state -> input -> state * option (TimelineBatch * SyncVerdict) :=
  tick sample_from_slice sample_to_string sample_parse_event (fun _ => Some 493%Z) (fun _ => Some 0%Z).

Definition sample_input (d : dir) (answer : result unit SendError) : input :=
  mkInput (Some "machine-1"%string) d 0 ORPHAN_GRACE answer.

Definition fresh_start (saved : option SyncCursor) (d : dir) : state := start [] None saved d [] None.

(** Ticks in a row, with the ids of the events the relay accepted. *)
Fixpoint ticks (st : state) (inputs : list input) : state * list string :=
  match inputs with
  | [] => (st, [])
  | i :: inputs =>
      let '(st, out) := sample_tick st i in
      let '(st', ids) := ticks st inputs in (st', (Timeline.e_id <$> accepted out) ++ ids)
  end.

Lemma sync_exactly_once_witness :
  let d c := [(EVENTS, mkFile 1 c)] in
  let st := fresh_start None (d (line "{a}")) in
  let i := sample_input (d (line "{a}" ++ line "{b}")) (Ok tt) in
  let '(st', out) := sample_tick st i in
  length (delivered [Ticked i [] out]) = 2.
Proof.
  set (d := fun c => [(EVENTS, mkFile 1 c)]).
  assert (let st := fresh_start None (d (line "{a}")) in
          let i := sample_input (d (line "{a}" ++ line "{b}")) (Ok tt) in
          let '(st', out) := sample_tick st i in
          delivered [Ticked i [] out]
          = log_rows sample_parse_event (fun _ => Some 493%Z) (Scope.new [] None)
              (take (byte_offset (cursor (syncer st'))) (line "{a}" ++ line "{b}"))) as Hrun.
  { apply (sync_exactly_once sample_from_slice sample_to_string sample_parse_event
             (fun _ => Some 493%Z) (fun _ => Some 0%Z) sample_patched [] None 1%N
             (d (line "{a}")) (line "{a}") _ _ (line "{a}" ++ line "{b}") []); [done|].
    apply trace_one. split_and!; [reflexivity| | | |done].
    - by eexists.
    - by right.
    - apply (bool_decide_unpack _). by vm_compute. }
  cbv zeta in *. destruct (sample_tick _ _) as [st' out] eqn:Et. rewrite Hrun.
  vm_compute in Et. injection Et as <- <-. by vm_compute.
Defined.

Lemma build_entries_consumes_witness :
  let r := Timeline.sample_record "t1" in
  let '(es, ids) := build_entries (fun _ => Some 0%Z) [] [r] 60000 ORPHAN_GRACE in
  exists consumed, consumed ⊆+ [r] /\
    omap Timeline.call_of_entry es ≡ₚ Timeline.call_of_record <$> consumed /\
    ids = Record.id <$> consumed /\
    (forall r', r' ∈ [r] -> r' ∈ consumed \/
       Record.trace_id r' ∉ omap Event.trace_id ([] : list Event.Event) /\
       exists ts, Some 0%Z = Some ts /\ (60000 - ts < ORPHAN_GRACE)%Z).
Proof.
  apply (build_entries_consumes (fun _ => Some 0%Z) [] [Timeline.sample_record "t1"] 60000 ORPHAN_GRACE);
    apply (bool_decide_unpack _); vm_compute; exact I.
Defined.

(** A record of a hidden directory, which is never in scope. *)
Definition hidden_record : Timeline.stored_record :=
  (0%Z, Record.mkRecord "rec" "t" "2026-04-12T00:00:01Z" "anthropic" "claude" None None None None None
     250 Record.Success None false None None Record.Available tt (Some "/home/me/.config"%string) None).

Definition starved_state : state :=
  mkState (mkSyncer (mkCursor EVENTS 0) (Scope.new [] None) None) 0 None None
    (replicate 500 hidden_record) None.

Lemma stuck_records_starve_sync_witness :
  let i := sample_input [] (Ok tt) in
  starved (fun _ => Some 493%Z) (syncer starved_state) (table starved_state) /\
  table (sample_tick starved_state i).1 = table starved_state.
Proof.
  assert (starved (fun _ => Some 493%Z) (syncer starved_state) (table starved_state)) as Hst.
  { split; [apply Nat.leb_le; by vm_compute|].
    intros x y Hx _ Hsx _. apply elem_of_replicate in Hx as [-> _]. vm_compute in Hsx. discriminate. }
  split; [exact Hst|].
  apply (stuck_records_starve_sync sample_from_slice sample_to_string sample_parse_event
           (fun _ => Some 493%Z) (fun _ => Some 0%Z) starved_state (sample_input [] (Ok tt)) _
           (sample_tick starved_state (sample_input [] (Ok tt))).2 Hst).
  by destruct (sample_tick starved_state (sample_input [] (Ok tt))) eqn:E; unfold sample_tick in E; rewrite E.
Defined.

Lemma drain_keeps_new_lines_witness :
  spool_drain (spool_read sample_from_slice (Some (line "{a}"))).2 (Some (line "{a}" ++ line "{b}"))
  = Some (line "{b}").
Proof.
  etransitivity; [apply (drain_keeps_new_lines sample_from_slice (line "{a}") (line "{b}")); by right|].
  by vm_compute.
Defined.

Lemma escalation_witness :
  let since := [Err (Status 400); Err (Transport "refused"%string); Err (Status 422)] in
  (classify_send_outcome (Err (Status 404)) (failures_after since)).1 = EnrollmentError.
Proof.
  intros since. apply (escalation [] since (Err (Status 404))); [by repeat constructor|by left|].
  right. split; [done|]. apply Nat.leb_le. by vm_compute.
Defined.

(** ** Where events are lost *)

Definition refused : result unit SendError := Err (Status 503).
Definition dated : string := "events-2026-04-12.jsonl".

(** Not every event arrives.  The relay is unavailable in the one tick that finds
    the log rotated: the next tick is at the new file, and the tail of the old one,
    which was to be retried, is never sent.  The log is rotated while kyrisd is down:
    the old offset is applied to the new file, whose beginning and the old file's tail
    are never sent.  A line is read while it is being written: its event is never
    sent. *)
Theorem events_can_be_lost :
  (let rotated := [(dated, mkFile 1 (line "{a}" ++ line "{b}")); (EVENTS, mkFile 2 (line "{c}"))] in
   let '(st, ids) := ticks (fresh_start None [(EVENTS, mkFile 1 (line "{a}"))])
      [sample_input [(EVENTS, mkFile 1 (line "{a}"))] (Ok tt);
       sample_input rotated refused; sample_input rotated (Ok tt)] in
   ids = ["{a}"; "{c}"]%string /\ sample_tick st (sample_input rotated (Ok tt)) = (st, None)) /\
  (let saved := mkCursor EVENTS 8 in
   let rotated := [(dated, mkFile 1 (line "{a}" ++ line "{b}" ++ line "{c}"));
                   (EVENTS, mkFile 2 (line "{d}" ++ line "{e}" ++ line "{f}"))] in
   let '(st, ids) := ticks (fresh_start (Some saved) rotated) [sample_input rotated (Ok tt)] in
   ids = ["{f}"]%string /\ sample_tick st (sample_input rotated (Ok tt)) = (st, None)) /\
  (let before := [(EVENTS, mkFile 1 (line "{a}" ++ lit "{b"))] in
   let after := [(EVENTS, mkFile 1 (line "{a}" ++ line "{b}" ++ line "{c}"))] in
   (ticks (fresh_start None before) [sample_input before (Ok tt); sample_input after (Ok tt)]).2
   = ["{a}"; "{c}"]%string).
Proof. by vm_compute. Qed.

(** A fail-open event without a directory is written with an empty one; where no
    scope is configured, it is sent. *)
Lemma missing_dir_is_in_scope :
  Scope.is_in_scope (fun _ => None) (Scope.new [] (Some (lit "/home/me"))) (Some []) = true /\
  Scope.is_in_scope (fun _ => None) (Scope.new [] (Some (lit "/home/me"))) None = false.
Proof. by vm_compute. Qed.
End Sync.
