(* ===== verification/Pricing.v ===== *)
(** * Prices: [types/src/pricing.rs], [daemon/src/cost.rs]

    The price of a model call and the table it is looked up in.  Floating point is
    abstract ([Float64] and the operations below).  The iteration order of a [HashMap]
    is left open by Rust: the entries of one are a list in some order, without
    repeated keys, and the theorems say what does not depend on it. *)

From S2P Require Import Prelude Text Json Scope Event.
From stdpp Require Import gmap.

(** What pricing does with [f64]: [tokens as f64], products and quotients. *)
Class F64Arith `{Float64} := {
  f64_of_i64 : Z -> f64;
  f64_mul : f64 -> f64 -> f64;
  f64_div : f64 -> f64 -> f64;
  as_f64 : json -> option f64 }.

Module Pricing.

Section pricing.
Context `{F64Arith}.
Local Open Scope string_scope.

Record ModelPricing := mkPricing {
  provider : string;
  input_per_million : f64;
  output_per_million : f64;
  cache_create_per_million : option f64;
  cache_read_per_million : option f64 }.

Record PricingTable := mkTable {
  version : string;
  models : gmap string ModelPricing }.

(** ** Names *)

(** [rsplit('/').next()]: the last piece. *)
Definition no_prefix (id : bytes) : bytes := List.last (Scope.pieces id) id.

(** [rsplit_once('-')]: what is before and after the last hyphen. *)
Fixpoint rsplit_hyphen (l : bytes) : option (bytes * bytes) :=
  match l with
  | [] => None
  | c :: l =>
      match rsplit_hyphen l with
      | Some (base, tail) => Some (c :: base, tail)
      | None => if bool_decide (c = "-"%char) then Some ([], l) else None
      end
  end.

Definition is_ascii_digit (b : ascii) : bool := in_range 48 57 b.

Definition canonical_model_id (id : bytes) : bytes :=
  let no_prefix := no_prefix id in
  match rsplit_hyphen no_prefix with
  | Some (base, tail) =>
      if (length tail =? 8)%nat && forallb is_ascii_digit tail then base else no_prefix
  | None => no_prefix
  end.

Definition same_model (a b : string) : bool :=
  bool_decide (canonical_model_id (lit a) = canonical_model_id (lit b)).

(** ** Lookup *)

(** [entries] are the entries of the table in the order of the iteration. *)
Definition lookup (entries : list (string * ModelPricing)) (t : PricingTable) (model : string)
  : option ModelPricing :=
  match models t !! model with
  | Some pricing => Some pricing
  | None => snd <$> head (filter (fun e => same_model e.1 model) entries)
  end.

Definition per_million (tokens : Z) (rate : f64) : f64 :=
  f64_mul (f64_div (f64_of_i64 tokens) (f64_of_i64 1000000)) rate.

Definition add_cached (tokens : option Z) (rate : option f64) (total : f64) : f64 :=
  match tokens, rate with
  | Some n, Some r => f64_add total (per_million n r)
  | _, _ => total
  end.

Definition cost (entries : list (string * ModelPricing)) (t : PricingTable) (model : string)
    (tokens_in tokens_out : Z) (cache_create cache_read : option Z) : option f64 :=
  pricing ← lookup entries t model;
  Some (add_cached cache_read (cache_read_per_million pricing)
         (add_cached cache_create (cache_create_per_million pricing)
            (f64_add (per_million tokens_in (input_per_million pricing))
                     (per_million tokens_out (output_per_million pricing))))).

(** ** The LiteLLM table *)

(** [v * 1_000_000.0]. *)
Definition to_million (v : f64) : f64 := f64_mul v (f64_of_i64 1000000).

(** The price of one entry of the feed, where it has one. *)
Definition price_of (key : string) (value : json) : option ModelPricing :=
  if str_starts_with "sample_spec" key || negb (bool_decide (is_Some (as_object value))) then None
  else
    input ← get "input_cost_per_token" value ≫= as_f64;
    output ← get "output_cost_per_token" value ≫= as_f64;
    Some (mkPricing (default "unknown" (get "litellm_provider" value ≫= as_str))
      (to_million input) (to_million output)
      (to_million <$> (get "cache_creation_input_token_cost" value ≫= as_f64))
      (to_million <$> (get "cache_read_input_token_cost" value ≫= as_f64))).

(** [key.split('/').nth(1)]. *)
Definition unprefixed (key : string) : option string := of_bytes <$> Scope.pieces (lit key) !! 1.

(** The body of the loop. *)
Definition add_entry (models : gmap string ModelPricing) (e : string * json)
  : gmap string ModelPricing :=
  match price_of e.1 e.2 with
  | None => models
  | Some pricing =>
      let models := <[e.1 := pricing]> models in
      match unprefixed e.1 with
      | Some alias =>
          match models !! alias with
          | Some _ => models
          | None => <[alias := pricing]> models
          end
      | None => models
      end
  end.

(** [parsed]: the entries of the feed in the order of the iteration, or the error of
    the parser. *)
Definition transform_litellm (now : string) (parsed : result (list (string * json)) string)
  : result PricingTable string :=
  match parsed with
  | Err e => Err ("pricing JSON parse failed: " ++ e)
  | Ok raw =>
      let models := foldl add_entry ∅ raw in
      if decide (map_to_list models = []) then Err "no models with pricing found in source"
      else Ok (mkTable now models)
  end.

(** ** Facts *)

Lemma add_entry_keeps models e k p :
  k <> e.1 -> models !! k = Some p -> add_entry models e !! k = Some p.
Proof using Type.
  intros Hk Hp. unfold add_entry. destruct (price_of e.1 e.2); [|done].
  destruct (unprefixed e.1) as [alias|]; [|by rewrite lookup_insert_ne].
  destruct (<[e.1:=_]> models !! alias) eqn:Ea; [by rewrite lookup_insert_ne|].
  rewrite lookup_insert_ne; [by rewrite lookup_insert_ne|]. intros ->.
  rewrite lookup_insert_ne in Ea by done. congruence.
Qed.

Lemma add_entry_own models e p : price_of e.1 e.2 = Some p -> add_entry models e !! e.1 = Some p.
Proof using Type.
  intros Hp. unfold add_entry. rewrite Hp. destruct (unprefixed e.1) as [alias|].
  - destruct (<[e.1:=p]> models !! alias) eqn:Ea; [by rewrite lookup_insert_eq|].
    rewrite lookup_insert_ne; [by rewrite lookup_insert_eq|]. intros ->.
    by rewrite lookup_insert_eq in Ea.
  - by rewrite lookup_insert_eq.
Qed.

Lemma transform_own raw e p :
  NoDup raw.*1 -> e ∈ raw -> price_of e.1 e.2 = Some p -> foldl add_entry ∅ raw !! e.1 = Some p.
Proof using Type.
  intros Hnd He Hp. induction raw as [|e' raw IH] using rev_ind; [by apply elem_of_nil in He|].
  rewrite fmap_app in Hnd. apply NoDup_app in Hnd as (Hnd & Hnew & _).
  rewrite foldl_app. simpl. apply elem_of_app in He as [He| ->%list_elem_of_singleton].
  - apply add_entry_keeps; [|by apply IH]. intros Heq. apply (Hnew e.1).
    + by apply list_elem_of_fmap_2.
    + rewrite Heq. left.
  - by apply add_entry_own.
Qed.

(** Where the price of a name comes from: the entry of that name, or one whose name
    it is without the provider. *)
Definition priced_by (raw : list (string * json)) (name : string) (p : ModelPricing) : Prop :=
  exists e, e ∈ raw /\ price_of e.1 e.2 = Some p /\ (e.1 = name \/ unprefixed e.1 = Some name).

Lemma priced_by_snoc raw e name p : priced_by raw name p -> priced_by (raw ++ [e]) name p.
Proof using Type. intros (e' & He & Hp). exists e'. rewrite elem_of_app. naive_solver. Qed.

Lemma transform_source raw name p : foldl add_entry ∅ raw !! name = Some p -> priced_by raw name p.
Proof using Type.
  revert p. induction raw as [|e raw IH] using rev_ind; intros p; [simpl; by rewrite lookup_empty|].
  rewrite foldl_app. simpl. unfold add_entry at 1.
  destruct (price_of e.1 e.2) as [q|] eqn:Ep; [|by intros ?%IH%(priced_by_snoc _ e)].
  set (m := foldl add_entry ∅ raw) in *.
  assert (forall q', <[e.1:=q]> m !! name = Some q' -> priced_by (raw ++ [e]) name q') as Hins.
  { intros q' [[<- <-]|[_ Hm]]%lookup_insert_Some; [|by apply priced_by_snoc, IH].
    exists e. rewrite elem_of_app, list_elem_of_singleton. auto. }
  destruct (unprefixed e.1) as [alias|] eqn:Eu; [|apply Hins].
  destruct (<[e.1:=q]> m !! alias); [apply Hins|].
  intros [[<- <-]|[_ Hm]]%lookup_insert_Some; [|by apply Hins].
  exists e. rewrite elem_of_app, list_elem_of_singleton. auto.
Qed.

Lemma transform_alias raw e p alias :
  e ∈ raw -> price_of e.1 e.2 = Some p -> unprefixed e.1 = Some alias ->
  is_Some (foldl add_entry ∅ raw !! alias).
Proof using Type.
  intros He Hp Hu. induction raw as [|e' raw IH] using rev_ind; [by apply elem_of_nil in He|].
  rewrite foldl_app. simpl.
  assert (forall m, is_Some (m !! alias) -> is_Some (add_entry m e' !! alias)) as Hkeep.
  { intros m [q Hq]. destruct (decide (alias = e'.1)) as [->|Hne];
      [|exists q; by apply add_entry_keeps].
    destruct (price_of e'.1 e'.2) as [q'|] eqn:Ep; [exists q'; by apply add_entry_own|].
    exists q. unfold add_entry. by rewrite Ep. }
  apply elem_of_app in He as [He| ->%list_elem_of_singleton]; [by apply Hkeep, IH|].
  unfold add_entry. rewrite Hp, Hu.
  destruct (<[e'.1:=p]> _ !! alias) eqn:Ea; [by rewrite Ea|]. by rewrite lookup_insert_eq.
Qed.

(** Where the price of a call comes from, whatever the order of the hash tables:
    a model with an entry of its own is charged by that entry; every other price
    found is that of an entry whose name, provider and date aside, is the model's;
    and a model that has such an entry is priced. *)
Theorem lookup_spec now raw t entries model :
  NoDup raw.*1 -> transform_litellm now (Ok raw) = Ok t -> entries ≡ₚ map_to_list (models t) ->
  (forall e p, e ∈ raw -> e.1 = model -> price_of e.1 e.2 = Some p ->
     lookup entries t model = Some p) /\
  (forall p, lookup entries t model = Some p ->
     exists name, priced_by raw name p /\ (name = model \/ same_model name model = true)) /\
  (forall name p, priced_by raw name p -> same_model name model = true ->
     is_Some (lookup entries t model)).
Proof using Type.
  intros Hnd Ht Hperm. unfold transform_litellm in Ht. case_decide; [done|]. injection Ht as <-.
  simpl in Hperm. set (m := foldl add_entry ∅ raw) in *.
  assert (forall name p, (name, p) ∈ entries <-> m !! name = Some p) as Hentries.
  { intros name p. rewrite Hperm. apply elem_of_map_to_list. }
  unfold lookup. cbn [models]. split_and!.
  - intros e p He <- Hp. pose proof (transform_own raw e p Hnd He Hp) as Hown.
    fold m in Hown. by rewrite Hown.
  - intros p. destruct (m !! model) as [q|] eqn:Em.
    { intros [= <-]. exists model. split; [by apply transform_source|by left]. }
    destruct (filter _ entries) as [|[name q] r] eqn:Ef; [done|]. intros [= <-].
    assert ((name, q) ∈ (name, q) :: r) as Hin by left. rewrite <- Ef in Hin.
    apply list_elem_of_filter in Hin as [Hs Hin]. exists name.
    split; [by apply transform_source, Hentries|]. right. by apply Is_true_true.
  - intros name p (e & He & Hp & Hname) Hs.
    destruct (m !! model) as [q|] eqn:Em; [done|].
    assert (is_Some (m !! name)) as [q Hq].
    { destruct Hname as [<-|Hu]; [exists p; by apply transform_own|by eapply transform_alias]. }
    apply Hentries in Hq.
    destruct (filter _ entries) as [|x r] eqn:Ef; [|done].
    exfalso. assert ((name, q) ∈ filter (fun e => same_model e.1 model) entries) as Hin.
    { apply list_elem_of_filter. split; [by apply Is_true_true|done]. }
    rewrite Ef in Hin. by apply elem_of_nil in Hin.
Qed.
End pricing.

(** *** Samples *)

#[local] Instance sample_float : Float64 := {
  f64 := Z; f64_zero := 0%Z; f64_add := Z.add; f64_total_le := Z.leb }.
#[local] Instance sample_arith : F64Arith := {
  f64_of_i64 := id; f64_mul := Z.mul; f64_div := Z.div;
  as_f64 := fun v => match v with JNumber n => Some n | _ => None end }.

Definition sample_price (n : Z) : json :=
  JObject [("input_cost_per_token"%string, JNumber n); ("output_cost_per_token"%string, JNumber n)].

(** Two providers sell one model under one bare name: what a call of that name costs
    depends on which entry the hash table gives first. *)
Lemma bare_name_price_depends_on_order :
  let price raw := match transform_litellm "" (Ok raw) with
                   | Ok t => cost (map_to_list (models t)) t "gpt" 1000000 0 None None
                   | Err _ => None
                   end in
  let a := ("azure/gpt"%string, sample_price 1) in
  let b := ("resold/gpt"%string, sample_price 2) in
  price [a; b] = Some 1000000%Z /\ price [b; a] = Some 2000000%Z.
Proof. by vm_compute. Qed.

Definition sample_raw : list (string * json) :=
  [("anthropic/claude-opus-20260416"%string, sample_price 3)].

Definition sample_table : PricingTable :=
  match transform_litellm "" (Ok sample_raw) with Ok t => t | Err _ => mkTable "" ∅ end.

Lemma sample_transform : transform_litellm "" (Ok sample_raw) = Ok sample_table.
Proof. vm_compute. reflexivity. Qed.

Definition sample_pricing : ModelPricing :=
  @mkPricing sample_float "unknown" 3000000%Z 3000000%Z None None.

Lemma lookup_spec_witness :
  is_Some (lookup (map_to_list (models sample_table)) sample_table "claude-opus").
Proof.
  refine (proj2 (proj2 (lookup_spec "" sample_raw sample_table _ "claude-opus" _ sample_transform
    (Permutation_refl _))) "anthropic/claude-opus-20260416"%string sample_pricing _ _).
  - apply NoDup_singleton.
  - exists ("anthropic/claude-opus-20260416"%string, sample_price 3).
    split; [left|]. split; [by vm_compute|by left].
  - by vm_compute.
Defined.
End Pricing.
