(* ===== verification/Stream.v ===== *)
(** * Metering of model calls: [daemon/src/streaming.rs], [metering.rs] and
      [daemon/src/adapter/*/usage.rs], [breaker.rs], [stream.rs], [StreamRecordGuard]

    What kyrisd reads out of a provider's answer while it relays it: token usage and
    whether a tool was called, for each of the four formats, from a whole body or from
    a stream that arrives in pieces; and the record it makes of it, once, however the
    stream ends.  A piece is what one poll of the upstream body gives.  serde_json's
    parser is an argument; the stats channel is the list of events handed to it. *)

From S2P Require Import Prelude Text Json Event Breaker Pricing.

Module Stream.

(** ** Tokens *)

(** [StreamTokenCounts]; the formats without cached tokens leave the last two at 0,
    where they have [TokenCounts]. *)
Record StreamTokenCounts := mkCounts {
  input : Z;
  output : Z;
  cache_creation_input : Z;
  cache_read_input : Z }.

Definition no_tokens : StreamTokenCounts := mkCounts 0 0 0 0.

(** [accumulate]; [i64] additions, which wrap around in release builds. *)
Definition accumulate (a b : StreamTokenCounts) : StreamTokenCounts :=
  mkCounts (wrap_i64 (input a + input b)) (wrap_i64 (output a + output b))
    (wrap_i64 (cache_creation_input a + cache_creation_input b))
    (wrap_i64 (cache_read_input a + cache_read_input b)).

(** The Google relay keeps the larger counts. *)
Definition keep_larger (a b : StreamTokenCounts) : StreamTokenCounts :=
  mkCounts (if (input a <? input b)%Z then input b else input a)
    (if (output a <? output b)%Z then output b else output a)
    (cache_creation_input a) (cache_read_input a).

(** ** Lines of a stream *)

Definition is_line_end (b : ascii) : bool := bool_decide (b = "013"%char) || bool_decide (b = newline).

(** [trim_end_matches(['\r', '\n'])]. *)
Fixpoint drop_line_ends (l : bytes) : bytes :=
  match l with
  | [] => []
  | b :: l' => if is_line_end b then drop_line_ends l' else l
  end.

Definition parse_sse_line (line : bytes) : option bytes :=
  data ← str_strip_prefix (lit "data: ") (rev (drop_line_ends (rev line)));
  if bool_decide (data = lit "[DONE]") || bool_decide (data = []) then None else Some data.

(** [buf.rfind('\n')]: the text up to the last line feed, and what follows. *)
Fixpoint split_last_newline (l : bytes) : option (bytes * bytes) :=
  match l with
  | [] => None
  | b :: l =>
      match split_last_newline l with
      | Some (complete, remainder) => Some (b :: complete, remainder)
      | None => if bool_decide (b = newline) then Some ([b], l) else None
      end
  end.

Definition split_sse_lines (buf : bytes) : list bytes * bytes :=
  match split_last_newline buf with
  | Some (complete, remainder) => (lines complete, remainder)
  | None => ([], buf)
  end.

Definition split_ndjson_lines (buf : bytes) : list bytes * bytes :=
  match split_last_newline buf with
  | Some (complete, remainder) => (filter (fun l => trim l <> []) (lines complete), remainder)
  | None => ([], buf)
  end.

(** ** What one JSON value says *)

(** [v[key]]: [Null] where there is no such member. *)
Definition idx (k : string) (v : json) : json := default JNull (get k v).

Definition count (k : string) (usage : json) : Z := default 0%Z (as_i64 (idx k usage)).

Definition is_null (v : json) : bool := match v with JNull => true | _ => false end.

(** A [usage] member that is there and not null. *)
Definition usage_member (k : string) (v : json) : option json :=
  usage ← get k v; if is_null usage then None else Some usage.

Definition member_is (k s : string) (v : json) : bool := bool_decide ((get k v ≫= as_str) = Some s).

(** [v.get(k).and_then(|v| v.get(k'))]. *)
Definition get2 (k k' : string) (v : json) : option json := inner ← get k v; get k' inner.

Definition some_element (p : json -> bool) (v : option json) : bool :=
  match v ≫= as_array with Some l => existsb p l | None => false end.

Section stream.
(** [serde_json::from_slice] and [from_str]. *)
Context (from_json : bytes -> option json).

(** *** Anthropic *)

Definition anthropic_usage (usage : json) : StreamTokenCounts :=
  mkCounts (count "input_tokens" usage) (count "output_tokens" usage)
    (count "cache_creation_input_tokens" usage) (count "cache_read_input_tokens" usage).

(** [extract_usage_from_body]. *)
Definition anthropic_body_usage (body : bytes) : option StreamTokenCounts :=
  v ← from_json body; anthropic_usage <$> usage_member "usage" v.

(** [extract_tokens_from_sse_json] of anthropic/usage.rs. *)
Definition anthropic_sse_usage (data : bytes) : option StreamTokenCounts :=
  v ← from_json data;
  event_type ← get "type" v ≫= as_str;
  if String.eqb event_type "message_start" then
    let usage := idx "usage" (idx "message" v) in
    Some (mkCounts (count "input_tokens" usage) 0
            (count "cache_creation_input_tokens" usage) (count "cache_read_input_tokens" usage))
  else if String.eqb event_type "message_delta" then
    Some (mkCounts 0 (count "output_tokens" (idx "usage" v)) 0 0)
  else None.

Definition anthropic_body_has_tool_call (body : bytes) : bool :=
  match from_json body with
  | None => false
  | Some v => member_is "stop_reason" "tool_use" v
              || some_element (member_is "type" "tool_use") (get "content" v)
  end.

Definition anthropic_sse_has_tool_call (data : bytes) : bool :=
  match from_json data with
  | None => false
  | Some v =>
      bool_decide ((get2 "content_block" "type" v ≫= as_str) = Some "tool_use"%string)
      || bool_decide ((get2 "delta" "stop_reason" v ≫= as_str) = Some "tool_use"%string)
  end.

(** *** OpenAI chat completions *)

Definition usage_counts (in_key out_key : string) (usage : json) : StreamTokenCounts :=
  mkCounts (count in_key usage) (count out_key usage) 0 0.

(** [extract_tokens_from_body] and [extract_tokens_from_sse_json] of openai/usage.rs. *)
Definition chat_usage (data : bytes) : option StreamTokenCounts :=
  v ← from_json data;
  usage_counts "prompt_tokens" "completion_tokens" <$> usage_member "usage" v.

Definition choice_has_tool_call (choice : json) : bool :=
  member_is "finish_reason" "tool_calls" choice || member_is "finish_reason" "function_call" choice
  || match (match get "message" choice with Some m => Some m | None => get "delta" choice end) with
     | None => false
     | Some m =>
         match get "tool_calls" m ≫= as_array with Some (_ :: _) => true | _ => false end
         || match get "function_call" m with Some f => negb (is_null f) | None => false end
     end.

Definition chat_value_has_tool_call (v : json) : bool :=
  some_element choice_has_tool_call (get "choices" v).

Definition chat_has_tool_call (data : bytes) : bool :=
  match from_json data with Some v => chat_value_has_tool_call v | None => false end.

(** *** OpenAI responses *)

Definition responses_body_usage (body : bytes) : option StreamTokenCounts :=
  v ← from_json body; usage_counts "input_tokens" "output_tokens" <$> usage_member "usage" v.

Definition responses_sse_usage (data : bytes) : option StreamTokenCounts :=
  v ← from_json data;
  usage ← match get2 "response" "usage" v with Some u => Some u | None => get "usage" v end;
  if is_null usage then None else Some (usage_counts "input_tokens" "output_tokens" usage).

Definition is_responses_call_type (t : string) : bool :=
  String.eqb t "function_call" || ends_with (lit "_call") (lit t).

Definition item_is_call (item : json) : bool :=
  match get "type" item ≫= as_str with Some t => is_responses_call_type t | None => false end.

Definition responses_output_has_tool_call (output : json) : bool :=
  some_element item_is_call (Some output).

Definition responses_body_has_tool_call (body : bytes) : bool :=
  match from_json body ≫= get "output" with
  | Some output => responses_output_has_tool_call output
  | None => false
  end.

Definition responses_sse_has_tool_call (data : bytes) : bool :=
  match from_json data with
  | None => false
  | Some v =>
      match get2 "response" "output" v with
      | Some output => responses_output_has_tool_call output
      | None => false
      end
      || match get "item" v with Some item => item_is_call item | None => false end
      || match get "type" v ≫= as_str with
         | Some t => contains (lit "function_call") (lit t)
         | None => false
         end
  end.

(** *** Google *)

(** [extract_tokens_from_body] and [extract_tokens_from_ndjson_line]. *)
Definition google_usage (data : bytes) : option StreamTokenCounts :=
  v ← from_json data;
  usage_counts "promptTokenCount" "candidatesTokenCount" <$> usage_member "usageMetadata" v.

Definition part_is_call (p : json) : bool :=
  match get "functionCall" p with Some f => negb (is_null f) | None => false end.

Definition google_value_has_tool_call (v : json) : bool :=
  some_element (fun c => some_element part_is_call (get2 "content" "parts" c)) (get "candidates" v).

Definition google_has_tool_call (data : bytes) : bool :=
  match from_json data with Some v => google_value_has_tool_call v | None => false end.

(** ** The relays *)

(** What the four relays differ in: how the buffer is split, and what one line adds
    to the counts and whether it shows a tool call. *)
Record relay_format := mkFormat {
  split : bytes -> list bytes * bytes;
  line_usage : bytes -> option StreamTokenCounts;
  line_tool : bytes -> bool;
  add_usage : StreamTokenCounts -> StreamTokenCounts -> StreamTokenCounts }.

(** [if let Some(json) = parse_sse_line(line)]. *)
Definition sse_format (usage : bytes -> option StreamTokenCounts) (tool : bytes -> bool) : relay_format :=
  mkFormat split_sse_lines (fun line => parse_sse_line line ≫= usage)
    (fun line => match parse_sse_line line with Some data => tool data | None => false end) accumulate.

(** [line.strip_prefix("data: ").unwrap_or(line)]. *)
Definition ndjson_data (line : bytes) : bytes := default line (str_strip_prefix (lit "data: ") line).

Definition anthropic_format : relay_format := sse_format anthropic_sse_usage anthropic_sse_has_tool_call.
Definition chat_format : relay_format := sse_format chat_usage chat_has_tool_call.
Definition responses_format : relay_format := sse_format responses_sse_usage responses_sse_has_tool_call.
Definition google_format : relay_format :=
  mkFormat split_ndjson_lines (fun line => google_usage (ndjson_data line))
    (fun line => google_has_tool_call (ndjson_data line)) keep_larger.

Record relay := mkRelay {
  accumulated : StreamTokenCounts;
  line_buf : bytes;
  had_tool_call : bool;
  done : bool }.

Definition fresh : relay := mkRelay no_tokens [] false false.

Definition add_line (f : relay_format) (acc : StreamTokenCounts * bool) (line : bytes)
  : StreamTokenCounts * bool :=
  (match line_usage f line with Some delta => add_usage f acc.1 delta | None => acc.1 end,
   acc.2 || line_tool f line).

(** The closure over [bytes_stream()]: a piece that is no UTF-8 is relayed, not read. *)
Definition on_chunk (f : relay_format) (r : relay) (chunk : bytes) : relay :=
  if valid_utf8 chunk then
    let '(ls, remainder) := split f (line_buf r ++ chunk) in
    let '(acc, tool) := foldl (add_line f) (accumulated r, had_tool_call r) ls in
    mkRelay acc remainder tool (done r)
  else r.

Section record.
Context `{F64Arith} `{AgentpactTypes}.

(** [StatsEvent] of metering.rs. *)
Record StatsEvent := mkStats {
  trace_id : string;
  provider : string;
  model : string;
  tokens : Z * Z;
  cache_create : Z;
  cache_read : Z;
  cost : option f64;
  latency_ms : Z;
  status : string;
  session_id : option string;
  mcp_server : option string;
  mcp_tool : option string;
  metering : Record.Metering;
  plan_status : PlanStatus;
  working_dir : option string;
  agent : option string }.

(** What the closure of a relay has captured. *)
Record call := mkCall {
  c_trace_id : string;
  c_provider : string;
  c_model : string;
  c_session : string;
  c_plan_status : PlanStatus;
  c_working_dir : option string;
  c_agent : option string }.

(** What is read of [CircuitBreakerConfig]; the cap is a [u64], used [as i64]. *)
Record CircuitBreakerConfig := mkBreakerConfig {
  enabled : bool;
  max_tokens : Z }.

Abbreviation sessions := (gmap string CircuitBreaker.SessionState).
Context (calculate : string -> Z -> Z -> option Z -> option Z -> option f64).

Definition if_positive (n : Z) : option Z := if (0 <? n)%Z then Some n else None.

(** [circuit_breaker.record], where the breaker is enabled. *)
Definition record_turn (cfg : CircuitBreakerConfig) (c : call) (now : Z) (output : Z) (tool : bool)
    (s : sessions) : sessions * bool :=
  if enabled cfg then
    CircuitBreaker.record now (c_session c) output tool (wrap_i64 (max_tokens cfg)) s
  else (s, false).

Definition stats_event (c : call) (counts : StreamTokenCounts) (latency : Z) (status : string)
    (metering : Record.Metering) : StatsEvent :=
  mkStats (c_trace_id c) (c_provider c) (c_model c) (input counts, output counts)
    (cache_creation_input counts) (cache_read_input counts)
    (calculate (c_model c) (input counts) (output counts)
       (if_positive (cache_creation_input counts)) (if_positive (cache_read_input counts)))
    latency status (Some (c_session c)) None None metering (c_plan_status c) (c_working_dir c)
    (c_agent c).

(** The configuration the closure loads when the stream ends. *)
Context (cfg : CircuitBreakerConfig).

(** The end of [finalize_stream]: the breaker and the event, from what was read. *)
Definition stream_event (c : call) (now latency : Z) (counts : StreamTokenCounts) (tool : bool)
    (s : sessions) : sessions * StatsEvent :=
  let '(s, crossed) := record_turn cfg c now (output counts) tool s in
  (s, stats_event c counts latency (if crossed then "circuit_breaker" else "success")%string
        (if (input counts =? 0)%Z && (output counts =? 0)%Z then Record.Unavailable
         else Record.Available)).

(** The closure [finalize_stream]: the rest of the buffer is read first. *)
Definition finalize_stream (f : relay_format) (c : call) (now latency : Z) (r : relay) (s : sessions)
  : relay * sessions * StatsEvent :=
  let '(counts, tool) := foldl (add_line f) (accumulated r, had_tool_call r) (lines (line_buf r)) in
  let '(s, ev) := stream_event c now latency counts tool s in
  (mkRelay counts [] tool (done r), s, ev).

(** [StreamRecordGuard::finalize], which [drop] calls too. *)
Definition guard_finalize (f : relay_format) (c : call) (now latency : Z) (r : relay) (s : sessions)
  : relay * sessions * list StatsEvent :=
  if done r then (r, s, [])
  else
    let r := mkRelay (accumulated r) (line_buf r) (had_tool_call r) true in
    let '(r, s, ev) := finalize_stream f c now latency r s in (r, s, [ev]).

(** What a poll of the upstream body gives. *)
Inductive poll_result :=
| Chunk (b : bytes)
| ChunkError
| NotReady
| EndOfStream.

(** The [poll_fn] of [full_stream]. *)
Definition poll (f : relay_format) (c : call) (now latency : Z) (r : relay) (s : sessions)
    (p : poll_result) : relay * sessions * list StatsEvent :=
  if done r then (r, s, [])
  else match p with
       | Chunk b => (on_chunk f r b, s, [])
       | ChunkError | NotReady => (r, s, [])
       | EndOfStream => guard_finalize f c now latency r s
       end.

(** A stream from its first poll until it is dropped, at the end or before. *)
Fixpoint serve (f : relay_format) (c : call) (now latency : Z) (r : relay) (s : sessions)
    (polls : list poll_result) : sessions * list StatsEvent :=
  match polls with
  | [] => let '(_, s, evs) := guard_finalize f c now latency r s in (s, evs)
  | p :: polls =>
      let '(r, s, evs) := poll f c now latency r s p in
      let '(s, evs') := serve f c now latency r s polls in (s, evs ++ evs')
  end.

End record.

(** ** What a stream is accounted for *)

(** The text that arrived before the stream ended. *)
Fixpoint seen (polls : list poll_result) : bytes :=
  match polls with
  | [] | EndOfStream :: _ => []
  | Chunk b :: polls => b ++ seen polls
  | (ChunkError | NotReady) :: polls => seen polls
  end.

(** The usage and the tool calls of a text, its lines read in order. *)
Definition reads (f : relay_format) (text : bytes) : StreamTokenCounts * bool :=
  foldl (add_line f) (no_tokens, false) (lines text).

Definition text_piece (p : poll_result) : Prop :=
  match p with Chunk b => valid_utf8 b = true | _ => True end.

Lemma split_last_newline_spec l c r :
  split_last_newline l = Some (c, r) -> l = c ++ r /\ last c = Some newline.
Proof using Type.
  revert c r. induction l as [|b l IH]; intros c r; simpl; [done|].
  destruct (split_last_newline l) as [[c' r']|].
  - intros [= <- <-]. destruct (IH c' r' eq_refl) as [-> Hc]. split; [done|].
    by rewrite last_cons, Hc.
  - case_bool_decide as Hb; [|done]. by intros [= <- <-]; subst.
Qed.

(** Both ways to split a buffer leave its last line, and read the same in the others. *)
Definition splits_lines (f : relay_format) : Prop :=
  forall buf, exists complete,
    buf = complete ++ (split f buf).2 /\ whole complete /\
    forall acc, foldl (add_line f) acc (split f buf).1 = foldl (add_line f) acc (lines complete).

Lemma sse_splits usage tool : splits_lines (sse_format usage tool).
Proof using Type.
  intros buf. simpl. unfold split_sse_lines.
  destruct (split_last_newline buf) as [[c r]|] eqn:Hs.
  - apply split_last_newline_spec in Hs as [-> Hc]. exists c. split_and!; [done|by right|done].
  - exists []. split_and!; try done. by left.
Qed.

Lemma blank_line_reads_nothing line :
  (forall l, trim l = [] -> from_json l = None) -> trim line = [] -> from_json (ndjson_data line) = None.
Proof using Type.
  intros Hj Hl. apply Hj. unfold ndjson_data, str_strip_prefix.
  destruct (starts_with (lit "data: ") line) eqn:Hp; [|done].
  apply starts_with_true in Hp as [r ->]. exfalso.
  by apply (trim_not_blank "d" (lit "ata: " ++ r)).
Qed.

Lemma google_splits :
  (forall l, trim l = [] -> from_json l = None) -> splits_lines google_format.
Proof using Type.
  intros Hj buf. simpl. unfold split_ndjson_lines.
  destruct (split_last_newline buf) as [[c r]|] eqn:Hs.
  - apply split_last_newline_spec in Hs as [-> Hc]. exists c. split_and!; [done|by right|].
    cbn [fst]. generalize (lines c). intros ls. induction ls as [|l ls IH]; intros acc; [done|].
    destruct (decide (trim l <> [])) as [Hl|Hl].
    + rewrite filter_cons_True by done. cbn [foldl]. apply IH.
    + rewrite filter_cons_False by done. cbn [foldl]. rewrite IH. f_equal.
      apply dec_stable in Hl. destruct acc as [counts tool]. unfold add_line. cbn -[trim lit].
      unfold google_usage, google_has_tool_call. rewrite (blank_line_reads_nothing l Hj Hl). simpl.
      by rewrite orb_false_r.
  - exists []. split_and!; try done. by left.
Qed.

(** *** The invariant of a relay: what it has read is a whole beginning of the text *)

Definition relay_read (f : relay_format) (text : bytes) (r : relay) : Prop :=
  done r = false /\
  exists complete, text = complete ++ line_buf r /\ whole complete /\
    (accumulated r, had_tool_call r) = reads f complete.

Lemma relay_read_fresh f : relay_read f [] fresh.
Proof using Type. split; [done|]. exists []. split_and!; try done. by left. Qed.

Lemma relay_read_chunk f text r b :
  splits_lines f -> valid_utf8 b = true -> relay_read f text r -> relay_read f (text ++ b) (on_chunk f r b).
Proof using Type.
  intros Hf Hb (Hd & c & -> & Hc & Hr). unfold on_chunk. rewrite Hb.
  destruct (Hf (line_buf r ++ b)) as (c' & Hbuf & Hc' & Hfold).
  destruct (split f (line_buf r ++ b)) as [ls rest] eqn:Hs. cbn [fst snd] in *.
  rewrite Hr, Hfold. destruct (foldl _ _ (lines c')) as [counts tool] eqn:Hl.
  split; [done|]. exists (c ++ c'). cbn [line_buf accumulated had_tool_call]. split_and!.
  - by rewrite <- !app_assoc, <- Hbuf, app_assoc.
  - by apply whole_app.
  - unfold reads in *. by rewrite lines_app, foldl_app, Hl.
Qed.

Section accounting.
Context `{F64Arith} `{AgentpactTypes}.
Context (calculate : string -> Z -> Z -> option Z -> option Z -> option f64).
Context (cfg : CircuitBreakerConfig).

Lemma finalize_reads f c now latency text r s :
  relay_read f text r ->
  guard_finalize calculate cfg f c now latency r s =
    let '(counts, tool) := reads f text in
    let '(s, ev) := stream_event calculate cfg c now latency counts tool s in
    (mkRelay counts [] tool true, s, [ev]).
Proof using Type.
  intros (Hd & cm & -> & Hc & Hr). unfold guard_finalize, finalize_stream. rewrite Hd.
  cbn [accumulated line_buf had_tool_call]. rewrite Hr. unfold reads.
  rewrite lines_app by done. rewrite foldl_app.
  destruct (foldl _ _ (lines (line_buf r))) as [counts tool].
  by destruct (stream_event _ _ _ _ _ _ _) as [s' ev].
Qed.

Lemma serve_done f c now latency r s polls :
  done r = true -> serve calculate cfg f c now latency r s polls = (s, []).
Proof using Type.
  intros Hd. revert r s Hd. induction polls as [|p polls IH]; intros r s Hd; cbn [serve].
  - unfold guard_finalize. by rewrite Hd.
  - unfold poll. rewrite Hd. by rewrite (IH r s Hd).
Qed.

Lemma serve_reads f c now latency polls text r s :
  splits_lines f -> Forall text_piece polls -> relay_read f text r ->
  serve calculate cfg f c now latency r s polls =
    let '(counts, tool) := reads f (text ++ seen polls) in
    let '(s, ev) := stream_event calculate cfg c now latency counts tool s in (s, [ev]).
Proof using Type.
  intros Hf Hp. revert text r. induction Hp as [|p polls Hp _ IH]; intros text r Hr; cbn [serve seen].
  - rewrite app_nil_r, (finalize_reads f c now latency text r s Hr).
    destruct (reads f text) as [counts tool]. by destruct (stream_event _ _ _ _ _ _ _) as [s' ev].
  - unfold poll. destruct Hr as [Hd Hr']. rewrite Hd. pose proof (conj Hd Hr' : relay_read f text r) as Hr.
    destruct p as [b| | |]; cbn [seen].
    + rewrite (IH (text ++ b)) by by apply relay_read_chunk. rewrite <- app_assoc.
      destruct (reads f _) as [counts tool]. by destruct (stream_event _ _ _ _ _ _ _) as [s' ev].
    + rewrite (IH text r Hr). destruct (reads f _) as [counts tool].
      by destruct (stream_event _ _ _ _ _ _ _) as [s' ev].
    + rewrite (IH text r Hr). destruct (reads f _) as [counts tool].
      by destruct (stream_event _ _ _ _ _ _ _) as [s' ev].
    + rewrite app_nil_r, (finalize_reads f c now latency text r s Hr).
      destruct (reads f text) as [counts tool]. destruct (stream_event _ _ _ _ _ _ _) as [s' ev].
      by rewrite serve_done.
Qed.

Lemma format_splits f :
  (forall l, trim l = [] -> from_json l = None) ->
  f ∈ [anthropic_format; chat_format; responses_format; google_format] -> splits_lines f.
Proof using Type.
  intros Hj Hf.
  repeat (apply elem_of_cons in Hf as [->|Hf]; [try apply sse_splits; by apply google_splits|]).
  by apply elem_of_nil in Hf.
Qed.

Lemma serve_formats f c now latency s polls :
  (forall l, trim l = [] -> from_json l = None) ->
  f ∈ [anthropic_format; chat_format; responses_format; google_format] ->
  Forall text_piece polls ->
  serve calculate cfg f c now latency fresh s polls =
    let '(counts, tool) := reads f (seen polls) in
    let '(s', ev) := stream_event calculate cfg c now latency counts tool s in (s', [ev]).
Proof using Type.
  intros Hj Hf Hp. apply (serve_reads f c now latency polls [] fresh s); [|done|apply relay_read_fresh].
  by apply format_splits.
Qed.

(** C12. Every stream kyrisd relays is accounted for exactly once and correctly, in each
    of the four formats, however the network cuts it and however it ends: from its first
    poll to its drop, one event is handed to the stats channel and one turn to the
    circuit breaker, and both are what reading the whole text that arrived, line by line,
    gives - provided no piece ends inside a character.  A piece boundary inside a line,
    errors and empty polls between pieces, an end of stream polled again, and a client
    that leaves early (the guard's drop) change nothing. *)
Theorem stream_recorded_once f c now latency s polls :
  (forall l, trim l = [] -> from_json l = None) ->
  f ∈ [anthropic_format; chat_format; responses_format; google_format] ->
  Forall text_piece polls ->
  serve calculate cfg f c now latency fresh s polls =
    let '(counts, tool) := reads f (seen polls) in
    let '(s', ev) := stream_event calculate cfg c now latency counts tool s in (s', [ev]).
Proof using Type.
  apply serve_formats.
Qed.
End accounting.
End stream.

(** *** Samples *)

#[local] Instance sample_float : Float64 := {
  f64 := Z; f64_zero := 0%Z; f64_add := Z.add; f64_total_le := Z.leb }.
#[local] Instance sample_arith : F64Arith := {
  f64_of_i64 := id; f64_mul := Z.mul; f64_div := Z.div;
  as_f64 := fun v => match v with JNumber n => Some n | _ => None end }.
#[local] Existing Instance CoverageFacts.sample_names.

Definition sample_line : bytes := lit "{usage: 5 in, 7 out, for " ++ [ascii_of_N 195; ascii_of_N 169] ++ lit "}".

(** A parser that knows one document. *)
Definition sample_json (b : bytes) : option json :=
  if bytes_eqb b sample_line then
    Some (JObject [("usage"%string, JObject [("prompt_tokens"%string, JNumber 5);
                                             ("completion_tokens"%string, JNumber 7)])])
  else None.

Definition sample_call : call :=
  @mkCall CoverageFacts.sample_names "t" "openai" "m" "s" tt None None.

Definition sample_config : CircuitBreakerConfig := mkBreakerConfig true 6.

Definition sample_price : string -> Z -> Z -> option Z -> option Z -> option (@f64 sample_float) :=
  fun _ i o _ _ => Some (i + o)%Z.

Definition sample_text : bytes := lit "data: " ++ sample_line ++ [newline].

Definition sample_serve (polls : list poll_result) :=
  serve sample_price sample_config (chat_format sample_json) sample_call 0 0 fresh ∅ polls.

Lemma stream_recorded_once_witness :
  (forall l, trim l = [] -> sample_json l = None) /\
  let polls := [NotReady; Chunk (take 3 sample_text); ChunkError; Chunk (drop 3 sample_text)] in
  (sample_serve polls).2 =
    [stats_event sample_price sample_call (mkCounts 5 7 0 0) 0 "circuit_breaker" Record.Available].
Proof.
  assert (forall l, trim l = [] -> sample_json l = None) as Hj.
  { intros l Hl. unfold sample_json, bytes_eqb. case_bool_decide as Hb; [|done].
    subst l. by vm_compute in Hl. }
  split; [exact Hj|].
  intros polls. unfold sample_serve.
  rewrite (stream_recorded_once sample_json sample_price sample_config (chat_format sample_json) sample_call 0 0 ∅ polls
             Hj); [by vm_compute|right; left|repeat constructor].
Defined.

(** kyrisd's reading of a stream is broken by a network piece that ends inside a
    character: the same answer, which burns more than its session may, is metered with its
    tokens and stops the session when it arrives in one piece, and is metered as
    unavailable, with no tokens, and counts for nothing toward the runaway cap when it is
    cut within the two bytes of a letter - the piece is no UTF-8 text, so [on_chunk] relays
    it without reading it. *)
Theorem cut_character_unmetered :
  exists a b : bytes,
    a ++ b = sample_text /\
    (sample_serve [Chunk sample_text; EndOfStream]).2 =
      [stats_event sample_price sample_call (mkCounts 5 7 0 0) 0 "circuit_breaker" Record.Available] /\
    CircuitBreaker.is_tripped "s" (sample_serve [Chunk sample_text; EndOfStream]).1 = true /\
    (sample_serve [Chunk a; Chunk b; EndOfStream]).2 =
      [stats_event sample_price sample_call no_tokens 0 "success" Record.Unavailable] /\
    CircuitBreaker.is_tripped "s" (sample_serve [Chunk a; Chunk b; EndOfStream]).1 = false.
Proof.
  exists (take 32 sample_text), (drop 32 sample_text). by vm_compute.
Qed.
End Stream.
