(* ===== verification/Prog.v ===== *)
(** * Handlers: programs that ask their surroundings

    An asynchronous handler of kyrisd interleaves with every other task at each thing it
    asks of the outside, of a clock, or of state that tasks share.  It is modelled by the
    questions it asks, in order, and by what it does with every answer: a tree ([prog])
    over a type of questions indexed by the type of their answers.  A run ([runs]) picks
    the answers; nothing is assumed about them.  [wlp] is the way to prove something of
    all runs. *)

From S2P Require Import Prelude.

Inductive prog (E : Type -> Type) (A : Type) : Type :=
| Ret (a : A)
| Vis (X : Type) (e : E X) (k : X -> prog E A)
| Panic.
Arguments Ret {E A} a.
Arguments Vis {E A X} e k.
Arguments Panic {E A}.

Fixpoint prog_bind {E A B} (p : prog E A) (f : A -> prog E B) : prog E B :=
  match p with
  | Ret a => f a
  | Vis e k => Vis e (fun x => prog_bind (k x) f)
  | Panic => Panic
  end.

Declare Scope prog_scope.
Notation "x ← y ; z" := (prog_bind y (fun x => z))
  (at level 20, y at level 100, z at level 200, only parsing) : prog_scope.
Notation "' x ← y ; z" := (prog_bind y (fun x => z))
  (at level 20, x pattern, y at level 100, z at level 200, only parsing) : prog_scope.

Definition ask {E X} (e : E X) : prog E X := Vis e Ret.

(** A task that panics is answered by whoever waits for it. *)
Fixpoint catch {E A} (p : prog E A) (a : A) : prog E A :=
  match p with
  | Ret a => Ret a
  | Vis e k => Vis e (fun x => catch (k x) a)
  | Panic => Ret a
  end.

(** A question with its answer. *)
Inductive obs (E : Type -> Type) : Type :=
| Obs (X : Type) (e : E X) (x : X).
Arguments Obs {E X} e x.

(** A run: the questions and answers, and the result, [None] where it panics. *)
Fixpoint runs {E A} (p : prog E A) (tr : list (obs E)) (o : option A) : Prop :=
  match p with
  | Ret a => tr = [] /\ o = Some a
  | Panic => tr = [] /\ o = None
  | Vis e k => exists x tr', tr = Obs e x :: tr' /\ runs (k x) tr' o
  end.

(** With [pre] said so far: every question, with its answer, meets [P] after what was
    said before it, and everything said meets [Q] with the result. *)
Fixpoint wlp {E A} (P : list (obs E) -> obs E -> Prop) (p : prog E A)
    (Q : list (obs E) -> option A -> Prop) (pre : list (obs E)) : Prop :=
  match p with
  | Ret a => Q pre (Some a)
  | Panic => Q pre None
  | Vis e k => forall x, P pre (Obs e x) /\ wlp P (k x) Q (pre ++ [Obs e x])
  end.

(** Ends that cannot be, or must be, a panic. *)
Fixpoint no_panic {E A} (p : prog E A) : Prop :=
  match p with Ret _ => True | Panic => False | Vis e k => forall x, no_panic (k x) end.

Fixpoint panics {E A} (p : prog E A) : Prop :=
  match p with Ret _ => False | Panic => True | Vis e k => forall x, panics (k x) end.

Section panics.
Context {E : Type -> Type}.

Lemma no_panic_bind {A B} (p : prog E A) (f : A -> prog E B) :
  no_panic p -> (forall a, no_panic (f a)) -> no_panic (prog_bind p f).
Proof. induction p as [a|X e k IH|]; simpl; auto. Qed.

Lemma panics_bind {A B} (p : prog E A) (f : A -> prog E B) :
  (forall a, panics (f a)) -> panics (prog_bind p f).
Proof. induction p as [a|X e k IH|]; simpl; auto. Qed.

Lemma no_panic_runs {A} (p : prog E A) tr : no_panic p -> ~ runs p tr None.
Proof.
  revert tr. induction p as [a|X e k IH|]; intros tr; simpl; [by intros _ [_ ?]| |done].
  intros Hk (x & tr' & -> & Hr). by apply (IH x tr').
Qed.

Lemma panics_runs {A} (p : prog E A) tr o : panics p -> runs p tr o -> o = None.
Proof.
  revert tr. induction p as [a|X e k IH|]; intros tr; simpl; [done| |by intros _ [_ ?]].
  intros Hk (x & tr' & -> & Hr). by apply (IH x tr').
Qed.
End panics.

Section wlp.
Context {E : Type -> Type}.
Implicit Types (P : list (obs E) -> obs E -> Prop) (pre : list (obs E)).

Lemma wlp_bind {A B} P (p : prog E A) (f : A -> prog E B) Q pre :
  wlp P p (fun tr o => match o with Some a => wlp P (f a) Q tr | None => Q tr None end) pre ->
  wlp P (prog_bind p f) Q pre.
Proof.
  revert pre. induction p as [a|X e k IH|]; intros pre; simpl; [done| |done].
  intros Hk x. destruct (Hk x) as [HP Hr]. split; [done|]. by apply IH.
Qed.

Lemma wlp_catch {A} P (p : prog E A) a Q pre :
  wlp P p (fun tr o => Q tr (Some (default a o))) pre -> wlp P (catch p a) Q pre.
Proof.
  revert pre. induction p as [b|X e k IH|]; intros pre; simpl; [done| |done].
  intros Hk x. destruct (Hk x) as [HP Hr]. split; [done|]. by apply IH.
Qed.

Lemma wlp_mono {A} P (p : prog E A) Q R pre :
  wlp P p Q pre -> (forall tr o, Q tr o -> R tr o) -> wlp P p R pre.
Proof.
  intros Hp HQ. revert pre Hp. induction p as [a|X e k IH|]; intros pre; simpl; [apply HQ| |apply HQ].
  intros Hk x. destruct (Hk x) as [HP Hr]. split; [done|]. by apply IH.
Qed.

Lemma wlp_runs {A} P (p : prog E A) Q pre tr o :
  wlp P p Q pre -> runs p tr o ->
  Q (pre ++ tr) o /\
  forall tr1 ob tr2, tr = tr1 ++ ob :: tr2 -> P (pre ++ tr1) ob.
Proof.
  revert tr pre. induction p as [a|X e k IH|]; intros tr pre; simpl.
  - intros HQ [-> ->]. rewrite app_nil_r. split; [done|]. by intros [].
  - intros Hk (x & tr' & -> & Hr). destruct (Hk x) as [HP Hw].
    destruct (IH x _ _ Hw Hr) as [HQ Hall]. rewrite <- app_assoc in HQ. split; [done|].
    intros [|ob' tr1] ob tr2; simpl; intros [= <- Htr]; [by rewrite app_nil_r|].
    specialize (Hall tr1 ob tr2 Htr). by rewrite <- app_assoc in Hall.
  - intros HQ [-> ->]. rewrite app_nil_r. split; [done|]. by intros [].
Qed.

(** The run with given answers.  No program runs for ever: whatever it is answered, it
    ends. *)
Fixpoint play {A} (answer : forall X, E X -> X) (p : prog E A) : list (obs E) * option A :=
  match p with
  | Ret a => ([], Some a)
  | Panic => ([], None)
  | Vis e k =>
      let '(tr, o) := play answer (k (answer _ e)) in (Obs e (answer _ e) :: tr, o)
  end.

Lemma play_runs {A} answer (p : prog E A) : runs p (play answer p).1 (play answer p).2.
Proof.
  induction p as [a|X e k IH|]; simpl; [done| |done].
  specialize (IH (answer X e)). destruct (play answer (k (answer X e))) as [tr o].
  by eexists _, _.
Qed.

Lemma runs_catch {A} (p : prog E A) a tr o :
  runs (catch p a) tr o <-> exists o', runs p tr o' /\ o = Some (default a o').
Proof.
  revert tr. induction p as [b|X e k IH|]; intros tr; simpl.
  - split; [intros [-> ->]; by exists (Some b)|by intros (o' & [-> ->] & ->)].
  - split.
    + intros (x & tr' & -> & (o' & Hr & ->)%IH). exists o'. split; [by exists x, tr'|done].
    + intros (o' & (x & tr' & -> & Hr) & ->). exists x, tr'. split; [done|]. apply IH. by exists o'.
  - split; [intros [-> ->]; by exists None|by intros (o' & [-> ->] & ->)].
Qed.
End wlp.

(** Every question is one of [S]'s, and the result is one of [R]'s. *)
Fixpoint asks {E A} (S : forall X, E X -> Prop) (p : prog E A) (R : option A -> Prop) : Prop :=
  match p with
  | Ret a => R (Some a)
  | Panic => R None
  | Vis e k => S _ e /\ forall x, asks S (k x) R
  end.

Section asks.
Context {E : Type -> Type} (S : forall X, E X -> Prop).

Lemma asks_bind {A B} (p : prog E A) (f : A -> prog E B) R :
  asks S p (fun o => match o with Some a => asks S (f a) R | None => R None end) ->
  asks S (prog_bind p f) R.
Proof.
  induction p as [a|X e k IH|]; simpl; [done| |done].
  intros [HS Hk]. split; [done|]. intros x. by apply IH.
Qed.

Lemma asks_ask {X} (e : E X) R : S X e -> (forall x, R (Some x)) -> asks S (ask e) R.
Proof. intros HS HR. by split. Qed.

Lemma asks_mono {A} (p : prog E A) (R R' : option A -> Prop) :
  asks S p R -> (forall o, R o -> R' o) -> asks S p R'.
Proof.
  intros Hp HR. induction p as [a|X e k IH|]; simpl in *; [by apply HR| |by apply HR].
  destruct Hp as [HS Hk]. split; [done|]. intros x. by apply IH.
Qed.

Lemma asks_runs {A} (p : prog E A) R tr o :
  asks S p R -> runs p tr o -> R o /\ Forall (fun ob => match ob with Obs e _ => S _ e end) tr.
Proof.
  revert tr. induction p as [a|X e k IH|]; intros tr; simpl.
  - intros HR [-> ->]. by split.
  - intros [HS Hk] (x & tr' & -> & Hr). destruct (IH x tr' (Hk x) Hr). split; [done|by constructor].
  - intros HR [-> ->]. by split.
Qed.
End asks.

(** A run of a composition is a run of the first part and then one of the second. *)
Lemma runs_bind {E A B} (p : prog E A) (f : A -> prog E B) tr o :
  runs (prog_bind p f) tr o <->
  (runs p tr None /\ o = None) \/
  exists tr1 a tr2, tr = tr1 ++ tr2 /\ runs p tr1 (Some a) /\ runs (f a) tr2 o.
Proof.
  revert tr. induction p as [a|X e k IH|]; intros tr; simpl.
  - split.
    + intros Hr. right. by exists [], a, tr.
    + intros [[[_ ?] _]|(tr1 & a' & tr2 & -> & [-> [= <-]] & Hr)]; done.
  - split.
    + intros (x & tr' & -> & [[Hr ->]|(tr1 & a & tr2 & -> & H1 & H2)]%IH).
      * left. split; [by exists x, tr'|done].
      * right. exists (Obs e x :: tr1), a, tr2. split_and!; [done|by exists x, tr1|done].
    + intros [[(x & tr' & -> & Hr) ->]|(tr1 & a & tr2 & -> & (x & tr' & -> & Hr) & H2)];
        exists x; eexists; (split; [reflexivity|apply IH]); [by left|].
      right. by exists tr', a, tr2.
  - split; [intros [-> ->]; by left|].
    intros [[[-> _] ->]|(tr1 & a & tr2 & -> & [_ [=]] & _)]. done.
Qed.

(** The first thing of a kind said in a run. *)
Fixpoint first_of {E B} (f : obs E -> option B) (tr : list (obs E)) : option B :=
  match tr with [] => None | ob :: tr => match f ob with Some b => Some b | None => first_of f tr end end.

Lemma first_of_app {E B} (f : obs E -> option B) tr1 tr2 :
  first_of f (tr1 ++ tr2) = match first_of f tr1 with Some b => Some b | None => first_of f tr2 end.
Proof. induction tr1 as [|ob tr1 IH]; simpl; [done|]. by destruct (f ob). Qed.

Lemma first_of_none {E B} (f : obs E -> option B) tr :
  Forall (fun ob => f ob = None) tr -> first_of f tr = None.
Proof. induction 1 as [|ob tr Hob Htr IH]; simpl; [done|]. by rewrite Hob. Qed.
