(* ===== verification/Adapter.v ===== *)
(** * Relaying model calls: [daemon/src/adapter/mod.rs], [anthropic.rs], [openai.rs],
      [google.rs] and their [breaker.rs]

    kyrisd stands between an agent and its model provider: a handler per route takes the
    agent's request, attributes it, holds it where its session burned too many tokens
    without a tool call, forwards it with the caller's own credential, and records what
    it cost.  A handler is a [prog]: what it reads of shared state and of the outside is
    asked, so that theorems hold for every interleaving with other requests.

    A [HeaderMap] is the list of its entries in the order it iterates, names in lower
    case; [get] gives the first entry of a name.  The JSON parser and printer, the
    reading of a header value as text and the price list are arguments. *)

From S2P Require Import Prelude Text Json AgentPact Scope Event Breaker Gate Pricing Stream Prog.

Module Adapter.

(** ** HTTP *)

Definition header_map := list (string * bytes).

Definition header (name : string) (h : header_map) : option bytes :=
  snd <$> head (filter (fun e => e.1 = name) h).

Definition contains_key (name : string) (h : header_map) : bool :=
  match header name h with Some _ => true | None => false end.

Definition to_lowercase (s : string) : string := of_bytes (to_ascii_lowercase (lit s)).

Definition OK : Z := 200.
Definition BAD_REQUEST : Z := 400.
Definition UNAUTHORIZED : Z := 401.
Definition NOT_FOUND : Z := 404.
Definition TOO_MANY_REQUESTS : Z := 429.
Definition INTERNAL_SERVER_ERROR : Z := 500.
Definition BAD_GATEWAY : Z := 502.

Definition is_success (status : Z) : bool := (200 <=? status)%Z && (status <? 300)%Z.

(** [l.split(c)]. *)
Fixpoint split_on_from (c : ascii) (current l : bytes) : list bytes :=
  match l with
  | [] => [rev current]
  | b :: l => if bool_decide (b = c) then rev current :: split_on_from c [] l
              else split_on_from c (b :: current) l
  end.

Definition split_on (c : ascii) (l : bytes) : list bytes := split_on_from c [] l.

Definition NON_RELAYABLE_HEADERS : list string :=
  ["content-length"; "transfer-encoding"; "connection"; "keep-alive"; "te"; "trailer"; "upgrade";
   "proxy-authenticate"; "proxy-authorization"]%string.

(** ** Configuration *)

Inductive ProviderFormat := Anthropic | OpenAI | Google.

#[export] Instance provider_format_eq_dec : EqDecision ProviderFormat.
Proof. solve_decision. Defined.

Record ProviderConfig := mkProvider {
  name : string;
  format : ProviderFormat;
  upstream : string;
  models : list string;
  timeout_seconds : Z;
  streaming_timeout_seconds : Z }.

Definition default_for (format : ProviderFormat) : ProviderConfig :=
  let '(name, upstream) :=
    match format with
    | Anthropic => ("anthropic", "https://api.anthropic.com")
    | OpenAI => ("openai", "https://api.openai.com")
    | Google => ("google", "https://generativelanguage.googleapis.com")
    end%string in
  mkProvider name format upstream [] 30 300.

Record KyrisdConfig := mkConfig {
  providers : list ProviderConfig;
  circuit_breaker : Stream.CircuitBreakerConfig }.

Definition provider_for (f : ProviderFormat) (config : KyrisdConfig) : ProviderConfig :=
  default (default_for f) (head (filter (fun p => format p = f) (providers config))).

(** ** What a handler asks *)

Record upstream_request := mkRequest {
  client : string;
  url : string;
  timeout : Z;
  req_headers : header_map;
  req_body : bytes }.

Record upstream_response := mkResponse {
  resp_status : Z;
  resp_headers : header_map }.

Section adapter.
Context `{F64Arith} `{AgentpactTypes}.
Context (Included Overage : PlanStatus).
Context (from_json : bytes -> option json) (to_vec : json -> option bytes) (display : json -> string).
Context (to_str : bytes -> option string).
Context (calculate : string -> Z -> Z -> option Z -> option Z -> option f64).

Inductive question : Type -> Type :=
| LoadConfig : question KyrisdConfig
| NewTraceId : question string
| RecordEvidence (agent_id surface : string) : question unit
| BreadcrumbExists (bare_id : string) : question bool
| WriteBreadcrumb (bare_id : string) : question unit
| AgentpactSocket : question (option string)
| SendTraceAttach (socket token trace_id : string) : question (result (option string) string)
| ResolveWithPid (peer_addr : string) : question (option (Z * option string))
| ResolveAgent (socket : string) (pid : Z) : question (option string)
| IsTripped (session_id : string) : question bool
| GetTokenCount (session_id : string) : question Z
| AwaitTokenGate (session_id : string) (agent : option string) (token_count : Z)
  : question (nat * Gate.GateDecision)
| Send (r : upstream_request) : question (option upstream_response)
| ReadBody : question (option bytes)
| Elapsed : question Z
| BreakerRecord (session_id : string) (output : Z) (tool : bool) (max : Z) : question bool
| TrySend (ev : Stream.StatsEvent) : question bool
| RecordDropped (n : Z) : question unit
| TxSend (frame : bytes) : question bool.

Abbreviation M := (prog question).
Abbreviation ask := (@Prog.ask question _).

Local Open Scope string_scope.
Local Open Scope list_scope.
Local Open Scope prog_scope.

(** ** adapter/mod.rs *)

Definition nonempty (s : string) : option string := if String.eqb s "" then None else Some s.

(** A header of the request, where it is text and not empty. *)
Definition text_header (name : string) (h : header_map) : option string :=
  (header name h ≫= to_str) ≫= nonempty.

Definition extract_session_id (h : header_map) : string :=
  default "__default" (text_header "x-kyris-session-id" h).
Definition extract_trace_token (h : header_map) : option string := text_header "x-kyris-trace-token" h.
Definition extract_agent_id (h : header_map) : option string := text_header "x-kyris-agent-id" h.

Definition connection_listed (up : header_map) : list string :=
  match header "connection" up ≫= to_str with
  | Some v => (fun piece => of_bytes (to_ascii_lowercase (trim piece))) <$> split_on ","%char (lit v)
  | None => []
  end.

Definition relayable (up : header_map) (entry : string * bytes) : bool :=
  let name := to_lowercase entry.1 in
  negb (bool_decide (name ∈ NON_RELAYABLE_HEADERS) || bool_decide (name ∈ connection_listed up)).

Definition relay_upstream_headers (builder up : header_map) : header_map :=
  builder ++ List.filter (relayable up) up.

Definition relay_trace_attach (trace_token trace_id : string) : M (option string) :=
  socket ← ask AgentpactSocket;
  match socket with
  | None => Ret None
  | Some socket =>
      r ← ask (SendTraceAttach socket trace_token trace_id);
      Ret (match r with Ok working_dir => working_dir | Err _ => None end)
  end.

(** [rsplit('/').next()]. *)
Definition bare_agent_id (agent_id : string) : string := of_bytes (Pricing.no_prefix (lit agent_id)).

Definition write_native_seen_breadcrumb (agent_id : string) : M unit :=
  let bare := bare_agent_id agent_id in
  there ← ask (BreadcrumbExists bare);
  if there then Ret tt else ask (WriteBreadcrumb bare).

Definition SURFACE_BURN_CONTROL : string := "burn_control".

Definition record_agent_traffic (agent_id trace_token : option string) : M unit :=
  match agent_id with
  | None => Ret tt
  | Some aid =>
      _ ← ask (RecordEvidence aid SURFACE_BURN_CONTROL);
      match trace_token with
      | Some _ => write_native_seen_breadcrumb aid
      | None => Ret tt
      end
  end.

(** [resolve_peer_attribution], its blocking part included: the working directory and
    the agent. *)
Definition resolve_peer_attribution (peer_addr : string) (need_agent : bool)
  : M (option string * option string) :=
  socket ← ask AgentpactSocket;
  found ← ask (ResolveWithPid peer_addr);
  match found with
  | None => Ret (None, None)
  | Some (pid, working_dir) =>
      agent ← (if need_agent then
                 match socket with
                 | Some socket => if (0 <=? pid)%Z then ask (ResolveAgent socket pid) else Ret None
                 | None => Ret None
                 end
               else Ret None);
      Ret (working_dir, agent)
  end.

(** The attribution every handler starts with: the working directory and the agent. *)
Definition attribute (h : header_map) (peer_addr trace_id : string)
  : M (option string * option string) :=
  let trace_token := extract_trace_token h in
  let agent_id := extract_agent_id h in
  _ ← record_agent_traffic agent_id trace_token;
  '(working_dir, peer_agent) ←
    match trace_token with
    | Some token => working_dir ← relay_trace_attach token trace_id; Ret (working_dir, None)
    | None =>
        resolve_peer_attribution peer_addr (match agent_id with None => true | Some _ => false end)
    end;
  Ret (working_dir, match agent_id with Some a => Some a | None => peer_agent end).

Definition trace_id_of (trace_id_ext : option string) : M string :=
  match trace_id_ext with Some t => Ret t | None => ask NewTraceId end.

(** [HashMap::get], else the default client: named by the provider. *)
Definition post (client url : string) (timeout : Z) (h : header_map) (body : bytes)
  : upstream_request := mkRequest client url timeout h body.

(** *** What a handler answers *)

(** A request held with an open stream: what its task needs. *)
Record gated := mkGated {
  g_agent : option string;
  g_count : Z;
  stop_chunk : bytes;
  g_request : upstream_request;
  g_format : Stream.relay_format;
  g_call : Stream.call }.

Inductive reply :=
| Answer (status : Z) (h : header_map) (body : bytes)
| Streamed (status : Z) (h : header_map) (f : Stream.relay_format) (c : Stream.call)
| Held (status : Z) (h : header_map) (g : gated).

(** The response of [relay_sse_stream], [relay_responses_sse_stream] and
    [relay_ndjson_stream]; what its body does is [Stream.serve]. *)
Definition relay_stream (f : Stream.relay_format) (c : Stream.call) (r : upstream_response) : reply :=
  Streamed (resp_status r)
    (relay_upstream_headers [] (resp_headers r) ++ [("x-kyris-trace-id", lit (Stream.c_trace_id c))])
    f c.

Definition gated_streaming_response (g : gated) : reply :=
  Held OK
    [("content-type", lit "text/event-stream");
     ("x-kyris-trace-id", lit (Stream.c_trace_id (g_call g)))] g.

Definition nl : string := of_bytes [newline].
Definition awaiting : bytes := lit (": kyris awaiting approval" ++ nl ++ nl)%string.

(** The keep-alive comments of the ticks before the decision; [false] where the client
    hung up. *)
Fixpoint keep_alive (ticks : nat) : M bool :=
  match ticks with
  | O => Ret true
  | S ticks => sent ← ask (TxSend awaiting); if sent then keep_alive ticks else Ret false
  end.

Definition upstream_error_frame (code : Z) : bytes :=
  lit "data: {" ++ [dquote] ++ lit "error" ++ [dquote] ++ lit ":{" ++ [dquote] ++ lit "message" ++ [dquote]
  ++ lit ":" ++ [dquote] ++ lit ("kyrisd upstream error after continue: " ++ pretty code)%string ++ [dquote]
  ++ lit "," ++ [dquote] ++ lit "type" ++ [dquote] ++ lit ":" ++ [dquote] ++ lit "upstream_error"
  ++ [dquote] ++ lit ("}}" ++ nl ++ nl)%string.

(** The task [gated_streaming_response] spawns, up to the relay of the answer, whose
    pieces go to the same channel. *)
Definition gated_task (g : gated) : M (option reply) :=
  '(ticks, decision) ←
    ask (AwaitTokenGate (Stream.c_session (g_call g)) (g_agent g) (g_count g));
  _ ← keep_alive ticks;
  match decision with
  | Gate.Stop => _ ← ask (TxSend (stop_chunk g)); Ret None
  | Gate.Continue =>
      response ← ask (Send (g_request g));
      match response with
      | Some r => Ret (Some (relay_stream (g_format g) (g_call g) r))
      | None => _ ← ask (TxSend (upstream_error_frame BAD_GATEWAY)); Ret None
      end
  end.

(** The runaway check of every handler: the session's count, where it is tripped. *)
Definition runaway (session_id : string) : M (option Z) :=
  config ← ask LoadConfig;
  if Stream.enabled (circuit_breaker config) then
    tripped ← ask (IsTripped session_id);
    if tripped then count ← ask (GetTokenCount session_id); Ret (Some count) else Ret None
  else Ret None.

(** [circuit_breaker.record], where the breaker is enabled. *)
Definition record_turn (session_id : string) (output : Z) (tool : bool) : M bool :=
  config ← ask LoadConfig;
  if Stream.enabled (circuit_breaker config) then
    ask (BreakerRecord session_id output tool (wrap_i64 (Stream.max_tokens (circuit_breaker config))))
  else Ret false.

(** How a whole answer is read and recorded, the same in the four handlers. *)
Definition record_body (usage : bytes -> option Stream.StreamTokenCounts) (tool : bytes -> bool)
    (c : Stream.call) (status : Z) (body : bytes) : M unit :=
  let metering := match usage body with Some _ => Record.Available | None => Record.Unavailable end in
  let counts := default Stream.no_tokens (usage body) in
  latency ← ask Elapsed;
  crossed ← record_turn (Stream.c_session c) (Stream.output counts) (tool body);
  sent ← ask (TrySend (Stream.stats_event calculate c counts latency
    (if negb (is_success status) then "error" else if crossed then "circuit_breaker" else "success")
    metering));
  if sent then Ret tt else ask (RecordDropped 1).

(** A buffered answer, relayed with [headers]. *)
Definition relay_body (usage : bytes -> option Stream.StreamTokenCounts) (tool : bytes -> bool)
    (c : Stream.call) (h : header_map) (r : upstream_response) : M (result reply Z) :=
  body ← ask ReadBody;
  match body with
  | None => Ret (Err BAD_GATEWAY)
  | Some body =>
      _ ← record_body usage tool c (resp_status r) body;
      Ret (Ok (Answer (resp_status r) h body))
  end.

Definition relayed_headers (trace_id : string) (r : upstream_response) : header_map :=
  relay_upstream_headers [] (resp_headers r) ++ [("x-kyris-trace-id", lit trace_id)].

(** *** Answers of kyrisd's own *)

Definition own_answer (status : Z) (trace_id : string) (payload : json) : reply :=
  Answer status [("content-type", lit "application/json"); ("x-kyris-trace-id", lit trace_id)]
    (lit (display payload)).

Definition no_credential (trace_id : string) : reply :=
  own_answer UNAUTHORIZED trace_id (JObject [("error", JString
    "no provider credential supplied; kyrisd forwards your agent's credential and stores none")]).

Definition circuit_breaker_message (token_count : Z) : string :=
  ("Circuit breaker: " ++ pretty token_count ++
   " tokens generated without a tool call. The run was stopped — resume from the Kyris dialog, tray, or app.")%string.

Definition sse_frame (event : string) (payload : json) : bytes :=
  lit (event ++ "data: " ++ display payload ++ nl ++ nl)%string.

Definition anthropic_breaker_payload (count : Z) : json :=
  JObject [("type", JString "error");
           ("error", JObject [("type", JString "circuit_breaker");
                              ("message", JString (circuit_breaker_message count))])].
Definition anthropic_stop_chunk (count : Z) : bytes :=
  sse_frame ("event: error" ++ nl)%string (anthropic_breaker_payload count).
Definition circuit_breaker_response (trace_id : string) (count : Z) : reply :=
  own_answer TOO_MANY_REQUESTS trace_id (anthropic_breaker_payload count).

Definition openai_breaker_payload (count : Z) : json :=
  JObject [("error", JObject [("message", JString (circuit_breaker_message count));
                              ("type", JString "circuit_breaker"); ("code", JString "circuit_breaker")])].
Definition openai_stop_chunk (count : Z) : bytes := sse_frame "" (openai_breaker_payload count).
Definition openai_circuit_breaker_error (trace_id : string) (count : Z) : reply :=
  own_answer TOO_MANY_REQUESTS trace_id (openai_breaker_payload count).

Definition google_breaker_payload (count : Z) : json :=
  JObject [("error", JObject [("code", JNumber 429); ("message", JString (circuit_breaker_message count));
                              ("status", JString "RESOURCE_EXHAUSTED")])].
Definition google_stop_chunk (count : Z) : bytes := sse_frame "" (google_breaker_payload count).
Definition google_circuit_breaker_error (trace_id : string) (count : Z) : reply :=
  own_answer TOO_MANY_REQUESTS trace_id (google_breaker_payload count).

(** ** anthropic.rs *)

Definition text_or_empty (name : string) (h : header_map) : string :=
  default "" (header name h ≫= to_str).

Definition str_contains (p s : string) : bool := contains (lit p) (lit s).

Definition anthropic_plan_status (h : header_map) : PlanStatus :=
  if str_contains "oauth" (text_or_empty "anthropic-beta" h)
     || str_contains "sk-ant-oat" (text_or_empty "authorization" h)
  then Included else Overage.

Definition has_anthropic_credential (h : header_map) : bool :=
  contains_key "authorization" h || contains_key "x-api-key" h.

Definition copied (name : string) (h : header_map) : header_map :=
  match header name h with Some v => [(name, v)] | None => [] end.

(** What [handle_messages] and [handle_count_tokens] copy of the caller's headers. *)
Definition anthropic_copies (entry : string * bytes) : bool :=
  let name := to_lowercase entry.1 in
  (str_starts_with "anthropic-" name && negb (String.eqb name "anthropic-version"))
  || String.eqb name "user-agent".

Definition anthropic_headers (h : header_map) : header_map :=
  [("content-type", lit "application/json"); ("anthropic-version", lit "2023-06-01")]
  ++ copied "authorization" h ++ copied "x-api-key" h ++ List.filter anthropic_copies h.

Definition model_of (v : json) : string := default "unknown" (get "model" v ≫= as_str).
Definition is_stream (v : json) : bool := default false (get "stream" v ≫= as_bool).

Definition timeout_of (stream : bool) (p : ProviderConfig) : Z :=
  if stream then streaming_timeout_seconds p else timeout_seconds p.

(** The end of a handler whose request is built: the gate, the call, the relay.
    [stopped] is the answer to a request the human stopped. *)
Definition gate_and_send (stream : bool) (agent : option string) (c : Stream.call)
    (stop : Z -> bytes) (stopped : Z -> reply) (f : Stream.relay_format) (req : upstream_request)
    (buffered : upstream_response -> M (result reply Z)) : M (result reply Z) :=
  let send : M (result reply Z) :=
    response ← ask (Send req);
    match response with
    | None => Ret (Err BAD_GATEWAY)
    | Some r => if stream then Ret (Ok (relay_stream f c r)) else buffered r
    end in
  tripped ← runaway (Stream.c_session c);
  match tripped with
  | None => send
  | Some count =>
      if stream then
        Ret (Ok (gated_streaming_response (mkGated agent count (stop count) req f c)))
      else
        '(_, decision) ← ask (AwaitTokenGate (Stream.c_session c) agent count);
        match decision with
        | Gate.Stop => Ret (Ok (stopped count))
        | Gate.Continue => send
        end
  end.

Definition messages_url (upstream : string) (raw_query : option string) : string :=
  match raw_query with
  | Some q => if String.eqb q "" then (upstream ++ "/v1/messages")%string
              else (upstream ++ "/v1/messages?" ++ q)%string
  | None => (upstream ++ "/v1/messages")%string
  end.

Definition handle_messages (peer_addr : string) (trace_id_ext : option string) (h : header_map)
    (raw_query : option string) (body : bytes) : M (result reply Z) :=
  match from_json body with
  | None => Ret (Err BAD_REQUEST)
  | Some v =>
      trace_id ← trace_id_of trace_id_ext;
      '(working_dir, agent) ← attribute h peer_addr trace_id;
      config ← ask LoadConfig;
      let provider := provider_for Anthropic config in
      if negb (has_anthropic_credential h) then Ret (Ok (no_credential trace_id))
      else
        let c := Stream.mkCall trace_id (name provider) (model_of v) (extract_session_id h)
                   (anthropic_plan_status h) working_dir agent in
        let req := post (name provider) (messages_url (upstream provider) raw_query)
                     (timeout_of (is_stream v) provider) (anthropic_headers h) body in
        gate_and_send (is_stream v) agent c anthropic_stop_chunk (circuit_breaker_response trace_id)
          (Stream.anthropic_format from_json) req
          (fun r => relay_body (Stream.anthropic_body_usage from_json)
                      (Stream.anthropic_body_has_tool_call from_json) c (relayed_headers trace_id r) r)
  end.

Definition handle_count_tokens (h : header_map) (body : bytes) : M (result reply Z) :=
  config ← ask LoadConfig;
  let provider := provider_for Anthropic config in
  if negb (has_anthropic_credential h) then
    trace_id ← ask NewTraceId; Ret (Ok (no_credential trace_id))
  else
    response ← ask (Send (post (name provider)
      (upstream provider ++ "/v1/messages/count_tokens")%string (timeout_seconds provider)
      (anthropic_headers h) body));
    match response with
    | None => Ret (Err BAD_GATEWAY)
    | Some r =>
        body ← ask ReadBody;
        match body with
        | None => Ret (Err BAD_GATEWAY)
        | Some body =>
            Ret (Ok (Answer (resp_status r) [("content-type", lit "application/json")] body))
        end
    end.

(** ** openai.rs *)

Definition openai_plan_status (h : header_map) : PlanStatus :=
  if contains_key "chatgpt-account-id" h then Included else Overage.

Definition CHATGPT_CODEX_UPSTREAM : string := "https://chatgpt.com/backend-api/codex".

Definition responses_upstream_url (provider : ProviderConfig) (h : header_map) : string :=
  if contains_key "chatgpt-account-id" h then (CHATGPT_CODEX_UPSTREAM ++ "/responses")%string
  else (upstream provider ++ "/v1/responses")%string.

Definition is_forwardable_request_header (name : string) : bool :=
  negb (str_starts_with "x-kyris-" name)
  && negb (bool_decide (name ∈
       ["host"; "content-length"; "accept-encoding"; "connection"; "keep-alive"; "transfer-encoding";
        "te"; "trailer"; "upgrade"; "proxy-authorization"; "proxy-authenticate"])).

(** [body["stream_options"]["include_usage"] = true] on an object: what is no object and
    not null cannot be indexed by a key, which panics. *)
Definition inject_stream_usage (body : json) : option json :=
  let explicitly_false :=
    bool_decide ((Stream.get2 "stream_options" "include_usage" body ≫= as_bool) = Some false) in
  if explicitly_false then Some body
  else
    let set m := obj_insert "include_usage" (JBool true) m in
    match body with
    | JObject members =>
        match default JNull (obj_get "stream_options" members) with
        | JObject options => Some (JObject (obj_insert "stream_options" (JObject (set options)) members))
        | JNull => Some (JObject (obj_insert "stream_options" (JObject (set [])) members))
        | _ => None
        end
    | JNull => Some (JObject [("stream_options", JObject (set []))])
    | _ => None
    end.

Definition handle_completions (peer_addr : string) (trace_id_ext : option string) (h : header_map)
    (body : bytes) : M (result reply Z) :=
  match from_json body with
  | None => Ret (Err BAD_REQUEST)
  | Some v =>
      trace_id ← trace_id_of trace_id_ext;
      '(working_dir, agent) ← attribute h peer_addr trace_id;
      match (if is_stream v then inject_stream_usage v else Some v) with
      | None => Panic
      | Some v' =>
          config ← ask LoadConfig;
          let provider := provider_for OpenAI config in
          match header "authorization" h with
          | None => Ret (Ok (no_credential trace_id))
          | Some authorization =>
              match to_vec v' with
              | None => Ret (Err BAD_REQUEST)
              | Some outbound =>
                  let c := Stream.mkCall trace_id (name provider) (model_of v) (extract_session_id h)
                             (openai_plan_status h) working_dir agent in
                  let req := post (name provider) (upstream provider ++ "/v1/chat/completions")%string
                               (timeout_of (is_stream v) provider)
                               [("authorization", authorization); ("content-type", lit "application/json")]
                               outbound in
                  gate_and_send (is_stream v) agent c openai_stop_chunk
                    (openai_circuit_breaker_error trace_id) (Stream.chat_format from_json) req
                    (fun r => relay_body (Stream.chat_usage from_json)
                                (Stream.chat_has_tool_call from_json) c (relayed_headers trace_id r) r)
              end
          end
      end
  end.

Definition handle_responses (peer_addr : string) (trace_id_ext : option string) (h : header_map)
    (body : bytes) : M (result reply Z) :=
  match from_json body with
  | None => Ret (Err BAD_REQUEST)
  | Some v =>
      trace_id ← trace_id_of trace_id_ext;
      '(working_dir, agent) ← attribute h peer_addr trace_id;
      config ← ask LoadConfig;
      let provider := provider_for OpenAI config in
      if negb (contains_key "authorization" h) then Ret (Ok (no_credential trace_id))
      else
        match to_vec v with
        | None => Ret (Err BAD_REQUEST)
        | Some outbound =>
            let c := Stream.mkCall trace_id (name provider) (model_of v) (extract_session_id h)
                       (openai_plan_status h) working_dir agent in
            let req := post (name provider) (responses_upstream_url provider h)
                         (timeout_of (is_stream v) provider)
                         (List.filter (fun e => is_forwardable_request_header e.1) h) outbound in
            gate_and_send (is_stream v) agent c openai_stop_chunk
              (openai_circuit_breaker_error trace_id) (Stream.responses_format from_json) req
              (fun r => relay_body (Stream.responses_body_usage from_json)
                          (Stream.responses_body_has_tool_call from_json) c (relayed_headers trace_id r) r)
        end
  end.

(** ** google.rs *)

Inductive GoogleAction := GenerateContent | StreamGenerateContent.

Definition strip_suffix (p s : string) : option string :=
  (fun rest => of_bytes (rev rest)) <$> str_strip_prefix (rev (lit p)) (rev (lit s)).

Definition parse_model_action (model_action : string) : option (string * GoogleAction) :=
  match strip_suffix ":generateContent" model_action with
  | Some model => Some (model, GenerateContent)
  | None => match strip_suffix ":streamGenerateContent" model_action with
            | Some model => Some (model, StreamGenerateContent)
            | None => None
            end
  end.

(** The first [key=] of the query that has a value. *)
Definition query_key (query : string) : option string :=
  head (omap (fun pair => str_strip_prefix (lit "key=") pair ≫= fun value => nonempty (of_bytes value))
          (split_on "&"%char (lit query))).

Definition caller_api_key (h : header_map) (raw_query : option string) : option string :=
  match (header "x-goog-api-key" h ≫= to_str) ≫= (fun v => nonempty (str_trim v)) with
  | Some v => Some v
  | None => raw_query ≫= query_key
  end.

Definition google_call (h : header_map) (model trace_id : string) (p : ProviderConfig)
    (working_dir agent : option string) : Stream.call :=
  Stream.mkCall trace_id (name p) model (extract_session_id h) Overage working_dir agent.

Definition handle_generate_content (h : header_map) (model peer_addr : string) (body : bytes)
    (trace_id : string) (caller_key : option string) : M (result reply Z) :=
  '(working_dir, agent) ← attribute h peer_addr trace_id;
  config ← ask LoadConfig;
  let provider := provider_for Google config in
  match caller_key with
  | None => Ret (Ok (no_credential trace_id))
  | Some key =>
      let c := google_call h model trace_id provider working_dir agent in
      let req := post (name provider)
        (upstream provider ++ "/v1beta/models/" ++ model ++ ":generateContent?key=" ++ key)%string
        (timeout_seconds provider) [("content-type", lit "application/json")] body in
      gate_and_send false agent c google_stop_chunk (google_circuit_breaker_error trace_id)
        (Stream.google_format from_json) req
        (fun r => relay_body (Stream.google_usage from_json) (Stream.google_has_tool_call from_json) c
                    [("content-type", lit "application/json"); ("x-kyris-trace-id", lit trace_id)] r)
  end.

Definition handle_stream_generate_content (h : header_map) (model peer_addr : string) (body : bytes)
    (trace_id : string) (caller_key : option string) : M (result reply Z) :=
  '(working_dir, agent) ← attribute h peer_addr trace_id;
  config ← ask LoadConfig;
  let provider := provider_for Google config in
  match caller_key with
  | None => Ret (Ok (no_credential trace_id))
  | Some key =>
      let c := google_call h model trace_id provider working_dir agent in
      let req := post (name provider)
        (upstream provider ++ "/v1beta/models/" ++ model ++ ":streamGenerateContent?alt=sse&key=" ++ key)%string
        (streaming_timeout_seconds provider) [("content-type", lit "application/json")] body in
      gate_and_send true agent c google_stop_chunk (google_circuit_breaker_error trace_id)
        (Stream.google_format from_json) req (fun _ => Ret (Err INTERNAL_SERVER_ERROR))
  end.

Definition handle_model_action (peer_addr : string) (trace_id_ext : option string) (h : header_map)
    (model_action : string) (raw_query : option string) (body : bytes) : M (result reply Z) :=
  match parse_model_action model_action with
  | None => Ret (Err NOT_FOUND)
  | Some (model, action) =>
      trace_id ← trace_id_of trace_id_ext;
      let caller_key := caller_api_key h raw_query in
      match action with
      | GenerateContent => handle_generate_content h model peer_addr body trace_id caller_key
      | StreamGenerateContent =>
          handle_stream_generate_content h model peer_addr body trace_id caller_key
      end
  end.

(** ** The routes *)

Definition list_models : M json :=
  config ← ask LoadConfig;
  Ret (JObject [("object", JString "list");
    ("data", JArray (flat_map (fun p => (fun m => JObject [("id", JString m);
       ("object", JString "model"); ("owned_by", JString (name p))]) <$> models p) (providers config)))]).

(** The routes that call a model. *)
Inductive route :=
| Messages (raw_query : option string)
| Completions
| Responses
| ModelAction (model_action : string) (raw_query : option string).

Record request := mkRouted {
  to : route;
  peer : string;
  trace_ext : option string;
  from_headers : header_map;
  from_body : bytes }.

Definition handler (r : request) : M (result reply Z) :=
  match to r with
  | Messages q => handle_messages (peer r) (trace_ext r) (from_headers r) q (from_body r)
  | Completions => handle_completions (peer r) (trace_ext r) (from_headers r) (from_body r)
  | Responses => handle_responses (peer r) (trace_ext r) (from_headers r) (from_body r)
  | ModelAction m q => handle_model_action (peer r) (trace_ext r) (from_headers r) m q (from_body r)
  end.

(** [RunToCompletion]: the handler is a task of its own; where it panics, and where it
    returns an error status, the answer has no body. *)
Definition run_to_completion (p : M (result reply Z)) : M reply :=
  r ← catch p (Err INTERNAL_SERVER_ERROR);
  Ret (match r with Ok reply => reply | Err status => Answer status [] [] end).

(** A request with all that it sets off: its handler, and the task of a held stream. *)
Definition serve (r : request) : M reply :=
  reply ← run_to_completion (handler r);
  match reply with
  | Held _ _ g => final ← gated_task g; Ret (default reply final)
  | _ => Ret reply
  end.

(** ** What a run has done so far *)

(** What it forwarded, read, counted and recorded. *)
Inductive fact :=
| Sent (r : upstream_request) (answer : option upstream_response)
| Body (b : option bytes)
| Turn (session_id : string) (output : Z) (tool : bool)
| Recorded (ev : Stream.StatsEvent)               (* the queue of statistics took it *)
| Refused (ev : Stream.StatsEvent)                (* the queue is full or closed *)
| Dropped (n : Z).                                (* counted by [record_dropped] *)

Definition fact_of (o : obs question) : option fact :=
  match o with
  | Obs e x =>
      match e in question X return X -> option fact with
      | Send r => fun answer => Some (Sent r answer)
      | ReadBody => fun b => Some (Body b)
      | BreakerRecord sid output tool _ => fun _ => Some (Turn sid output tool)
      | TrySend ev => fun sent => Some (if sent then Recorded ev else Refused ev)
      | RecordDropped n => fun _ => Some (Dropped n)
      | _ => fun _ => None
      end x
  end.

Definition facts (tr : list (obs question)) : list fact := omap fact_of tr.

(** What the runaway guard last said of a session: the breaker is off, the session is not
    tripped, or the human lets it continue. *)
Definition verdict_of (session : string) (o : obs question) : option bool :=
  match o with
  | Obs e x =>
      match e in question X return X -> option bool with
      | LoadConfig => fun config => Some (negb (Stream.enabled (circuit_breaker config)))
      | IsTripped sid =>
          fun tripped => if String.eqb sid session then Some (negb tripped) else None
      | AwaitTokenGate sid _ _ =>
          fun a => if String.eqb sid session
                   then Some (match a.2 with Gate.Continue => true | Gate.Stop => false end) else None
      | _ => fun _ => None
      end x
  end.

Definition verdict (session : string) (tr : list (obs question)) : option bool :=
  last (omap (verdict_of session) tr).

(** A request goes upstream only once, past the guard, and as [C] says. *)
Definition send_ok (session : string) (C : upstream_request -> Prop) (pre : list (obs question)) (o : obs question) : Prop :=
  match fact_of o with
  | Some (Sent req _) => facts pre = [] /\ verdict session pre = Some true /\ C req
  | _ => True
  end.

Definition formats : list Stream.relay_format :=
  [Stream.anthropic_format from_json; Stream.chat_format from_json;
   Stream.responses_format from_json; Stream.google_format from_json].

(** The accounting of a whole body that came with the answer [r]: at most one turn of the
    session, and one event for it, with the tokens of that turn, an error exactly where the
    upstream's status is one; the queue takes it, or it is counted as dropped. *)
Definition booked (sid : string) (r : upstream_response) (l : list fact) : Prop :=
  exists turns ev,
    (turns = [] \/ exists tool, turns = [Turn sid (Stream.tokens ev).2 tool]) /\
    Stream.session_id ev = Some sid /\
    (Stream.status ev = "error" <-> is_success (resp_status r) = false) /\
    (l = turns ++ [Recorded ev] \/ l = turns ++ [Refused ev; Dropped 1]).

Lemma booked_event sid r turns ev (sent : bool) l :
  l = turns ++ (if sent then [Recorded ev] else [Refused ev; Dropped 1]) ->
  turns = [] \/ (exists tool, turns = [Turn sid (Stream.tokens ev).2 tool]) ->
  Stream.session_id ev = Some sid ->
  (Stream.status ev = "error" <-> is_success (resp_status r) = false) -> booked sid r l.
Proof using Type. intros -> Ht Hs He. exists turns, ev. split_and!; [done..|]. destruct sent; auto. Qed.

(** What a run has done when its handler ends, and with what. *)
Inductive handled (sid : string) (C : upstream_request -> Prop) : list fact -> result reply Z -> Prop :=
| handled_refused code : handled sid C [] (Err code)
| handled_own status h body :
    status = UNAUTHORIZED \/ status = TOO_MANY_REQUESTS -> handled sid C [] (Ok (Answer status h body))
| handled_held status h g :
    C (g_request g) -> Stream.c_session (g_call g) = sid -> g_format g ∈ formats ->
    handled sid C [] (Ok (Held status h g))
| handled_unreachable req : handled sid C [Sent req None] (Err BAD_GATEWAY)
| handled_streamed req r f c :
    f ∈ formats -> handled sid C [Sent req (Some r)] (Ok (relay_stream f c r))
| handled_cut req r : handled sid C [Sent req (Some r); Body None] (Err BAD_GATEWAY)
| handled_recorded req r body h l :
    booked sid r l ->
    handled sid C ([Sent req (Some r); Body (Some body)] ++ l)
      (Ok (Answer (resp_status r) h body)).

Definition ends_handled (sid : string) (C : upstream_request -> Prop) (tr : list (obs question))
    (o : option (result reply Z)) : Prop :=
  match o with Some r => handled sid C (facts tr) r | None => facts tr = [] end.

(** *** Programs that do none of it *)

Lemma facts_app tr tr' : facts (tr ++ tr') = facts tr ++ facts tr'.
Proof using Type. apply omap_app. Qed.

Lemma verdict_snoc sid tr o :
  verdict sid (tr ++ [o]) =
    match verdict_of sid o with Some b => Some b | None => verdict sid tr end.
Proof using Type.
  unfold verdict. rewrite omap_app. simpl. destruct (verdict_of sid o); simpl; [apply last_snoc|].
  by rewrite app_nil_r.
Qed.

Definition quiet {A} (p : M A) : Prop :=
  forall sid C Q pre,
    (forall a pre', facts pre' = facts pre -> Q pre' (Some a)) -> wlp (send_ok sid C) p Q pre.

Lemma quiet_ret {A} (a : A) : quiet (Ret a).
Proof using Type. intros sid C Q pre HQ. simpl. by apply HQ. Qed.

Lemma quiet_ask {X} (e : question X) : (forall x, fact_of (Obs e x) = None) -> quiet (ask e).
Proof using Type.
  intros He sid C Q pre HQ. cbn [wlp Prog.ask]. intros x. split; [unfold send_ok; by rewrite He|].
  apply HQ. rewrite facts_app. unfold facts at 2. cbn [omap list_omap]. rewrite He. apply app_nil_r.
Qed.

Lemma quiet_bind {A B} (p : M A) (f : A -> M B) :
  quiet p -> (forall a, quiet (f a)) -> quiet (prog_bind p f).
Proof using Type.
  intros Hp Hf sid C Q pre HQ. apply wlp_bind, Hp. intros a pre' Hpre.
  apply Hf. intros b pre'' Hpre'. apply HQ. congruence.
Qed.

Ltac quiet :=
  repeat first
    [ apply quiet_ret | apply quiet_ask; by intros | apply quiet_bind
    | progress intros | case_match ].

Lemma quiet_attribute h peer_addr trace_id : quiet (attribute h peer_addr trace_id).
Proof using Type.
  unfold attribute, record_agent_traffic, write_native_seen_breadcrumb, relay_trace_attach,
    resolve_peer_attribution. quiet.
Qed.

Lemma quiet_trace_id t : quiet (trace_id_of t).
Proof using Type. unfold trace_id_of. quiet. Qed.

Lemma quiet_config : quiet (ask LoadConfig).
Proof using Type. quiet. Qed.

(** *** The parts that send *)

Ltac said :=
  unfold facts in *; repeat rewrite omap_app in *; cbn [omap list_omap fact_of] in *;
  rewrite ?app_nil_r in *.

Lemma relay_body_handled sid C usage tool c h req r pre :
  facts pre = [Sent req (Some r)] -> Stream.c_session c = sid ->
  wlp (send_ok sid C) (relay_body usage tool c h r) (ends_handled sid C) pre.
Proof using Type.
  intros Hpre Hsid. unfold relay_body. cbn [wlp prog_bind Prog.ask]. intros [body|]; (split; [done|]).
  2:{ simpl. said. rewrite Hpre. constructor. }
  apply wlp_bind. unfold record_body, record_turn. cbn [wlp prog_bind Prog.ask].
  intros latency. split; [done|]. intros cfg. split; [done|].
  assert (forall counts latency metering (crossed : bool),
    Stream.status (Stream.stats_event calculate c counts latency
      (if negb (is_success (resp_status r)) then "error"
       else if crossed then "circuit_breaker" else "success") metering) = "error" <->
    is_success (resp_status r) = false) as Hev.
  { intros. simpl. by destruct (is_success (resp_status r)), crossed. }
  destruct (Stream.enabled (circuit_breaker cfg)); cbn [wlp prog_bind Prog.ask].
  - intros crossed. split; [done|]. intros sent. split; [by destruct sent|].
    destruct sent; cbn [wlp Prog.ask]; [|intros ?; split; [done|]]; simpl; said; rewrite Hpre, Hsid;
      apply (handled_recorded sid C req r body h (Turn _ _ _ :: _)); 
      (eapply (booked_event _ _ [_] _ true); [reflexivity|..]) ||
      (eapply (booked_event _ _ [_] _ false); [reflexivity|..]);
      (right; by eexists) || (simpl; by rewrite Hsid) || apply Hev.
  - intros sent. split; [by destruct sent|].
    destruct sent; cbn [wlp Prog.ask]; [|intros ?; split; [done|]]; simpl; said; rewrite Hpre;
      eapply (handled_recorded sid C req r body h _); 
      (eapply (booked_event _ _ [] _ true); [reflexivity|..]) ||
      (eapply (booked_event _ _ [] _ false); [reflexivity|..]);
      (by left) || (simpl; by rewrite Hsid) || apply (Hev _ _ _ false).
Qed.

Lemma gate_and_send_handled sid C stream agent c stop stopped f req buffered pre :
  facts pre = [] -> C req -> Stream.c_session c = sid -> f ∈ formats ->
  (forall count, exists h b, stopped count = Answer TOO_MANY_REQUESTS h b) ->
  (stream = false -> forall r pre', facts pre' = [Sent req (Some r)] ->
     wlp (send_ok sid C) (buffered r) (ends_handled sid C) pre') ->
  wlp (send_ok sid C) (gate_and_send stream agent c stop stopped f req buffered) (ends_handled sid C) pre.
Proof using Type.
  intros Hpre HC Hsid Hformat Hstop Hbuf. unfold gate_and_send.
  set (send := prog_bind (ask (Send req)) _).
  assert (forall pre', facts pre' = [] -> verdict sid pre' = Some true ->
    wlp (send_ok sid C) send (ends_handled sid C) pre') as Hsend.
  { intros pre' Hf Hv. unfold send. cbn [wlp prog_bind Prog.ask]. intros [r|]; (split; [done|]).
    - destruct stream; [|apply Hbuf; [done|]; said; by rewrite Hf].
      simpl. said. rewrite Hf. by constructor.
    - simpl. said. rewrite Hf. constructor. }
  clearbody send. unfold runaway. cbn [wlp prog_bind Prog.ask]. intros cfg. split; [done|].
  destruct (Stream.enabled (circuit_breaker cfg)) eqn:He; cbn [wlp prog_bind Prog.ask].
  2:{ apply Hsend; [by said|]. rewrite verdict_snoc. simpl. by rewrite He. }
  intros tripped. split; [done|]. destruct tripped; cbn [wlp prog_bind Prog.ask].
  2:{ apply Hsend; [by said|]. rewrite verdict_snoc. simpl. by rewrite Hsid, String.eqb_refl. }
  intros count. split; [done|]. destruct stream.
  - simpl. said. rewrite Hpre. by constructor.
  - cbn [wlp prog_bind Prog.ask]. intros [n [|]]; (split; [done|]).
    + apply Hsend; [by said|]. rewrite verdict_snoc. simpl. by rewrite Hsid, String.eqb_refl.
    + destruct (Hstop count) as (h & b & ->). simpl. said. rewrite Hpre. constructor. by right.
Qed.

(** *** Every handler *)

(** The caller's credential goes with the request, where the route looks for one. *)
Definition carries_credential (r : request) (req : upstream_request) : Prop :=
  match to r with
  | Messages _ =>
      exists k v, (k = "authorization" \/ k = "x-api-key") /\ header k (from_headers r) = Some v /\
        (k, v) ∈ req_headers req
  | Completions | Responses =>
      exists v, header "authorization" (from_headers r) = Some v /\ ("authorization", v) ∈ req_headers req
  | ModelAction _ q =>
      exists key start, caller_api_key (from_headers r) q = Some key /\
        url req = (start ++ key)%string
  end.

(** Of the caller's headers and those kyrisd writes itself; never one of kyrisd's own
    protocol with the agents. *)
Definition headers_stay (r : request) (req : upstream_request) : Prop :=
  forall k v, (k, v) ∈ req_headers req ->
    str_starts_with "x-kyris-" k = false /\
    ((k, v) ∈ from_headers r \/ (k, v) = ("content-type", lit "application/json") \/
     (k, v) = ("anthropic-version", lit "2023-06-01")).

Lemma header_elem k h v : header k h = Some v -> (k, v) ∈ h.
Proof using Type.
  unfold header. destruct (filter _ h) as [|e l] eqn:Hf; [done|]. simpl. intros [= <-].
  assert (e ∈ filter (fun e => e.1 = k) h) as He by (rewrite Hf; left).
  apply list_elem_of_filter in He as [<- He]. by destruct e.
Qed.

Lemma copied_elem k h e : e ∈ copied k h -> e.1 = k /\ e ∈ h.
Proof using Type.
  unfold copied. destruct (header k h) as [v|] eqn:Hh; [|by intros ?%elem_of_nil].
  intros ->%list_elem_of_singleton. split; [done|]. by apply header_elem.
Qed.

Definition session_of (r : request) : string := extract_session_id (from_headers r).

Definition proper_call (r : request) (req : upstream_request) : Prop :=
  carries_credential r req /\ headers_stay r req.

Lemma starts_with_lower p k :
  starts_with p (lit k) = true -> starts_with (to_ascii_lowercase p) (lit (to_lowercase k)) = true.
Proof using Type.
  unfold to_lowercase, of_bytes. rewrite lit_of_bytes. generalize (lit k). clear k.
  induction p as [|b p IH]; intros [|c l]; simpl; try done.
  intros [->%Ascii.eqb_eq Hp]%andb_true_iff. rewrite Ascii.eqb_refl. by apply IH.
Qed.

Lemma not_kyris k : str_starts_with "anthropic-" (to_lowercase k) = true \/ to_lowercase k = "user-agent" ->
  str_starts_with "x-kyris-" k = false.
Proof using Type.
  intros Hk. destruct (str_starts_with "x-kyris-" k) eqn:Hx; [|done]. exfalso.
  apply starts_with_lower in Hx. unfold str_starts_with in Hk.
  destruct Hk as [Hk|Hk]; [|by rewrite Hk in Hx].
  apply starts_with_true in Hk as [l Hk]. by rewrite Hk in Hx.
Qed.

Lemma anthropic_headers_stay r req :
  req_headers req = anthropic_headers (from_headers r) -> headers_stay r req.
Proof using Type.
  intros Hr k v. rewrite Hr. unfold anthropic_headers. rewrite !elem_of_app.
  intros [Hin|[[Hk Hin]%copied_elem|[[Hk Hin]%copied_elem|Hin]]].
  - apply elem_of_cons in Hin as [[= -> ->]|Hin]; [eauto|].
    apply list_elem_of_singleton in Hin as [= -> ->]. eauto.
  - simpl in Hk. subst k. eauto.
  - simpl in Hk. subst k. eauto.
  - apply list_elem_of_In, filter_In in Hin as [Hin Hc]. split; [|left; by apply list_elem_of_In].
    apply not_kyris. unfold anthropic_copies in Hc. simpl in Hc.
    apply orb_true_iff in Hc as [[Hc _]%andb_true_iff|Hc%String.eqb_eq]; auto.
Qed.

Lemma anthropic_credential h :
  has_anthropic_credential h = true ->
  exists k v, (k = "authorization" \/ k = "x-api-key") /\ header k h = Some v /\
    (k, v) ∈ anthropic_headers h.
Proof using Type.
  unfold has_anthropic_credential, contains_key, anthropic_headers, copied.
  destruct (header "authorization" h) as [v|] eqn:Ha.
  - intros _. exists "authorization", v. split_and!; [by left|done|].
    rewrite !elem_of_app. right. left. left.
  - destruct (header "x-api-key" h) as [v|] eqn:Hx; [|done].
    intros _. exists "x-api-key", v. split_and!; [by right|done|].
    rewrite !elem_of_app. right. right. left. left.
Qed.

Lemma one_header_stays r req :
  req_headers req = [("content-type", lit "application/json")] -> headers_stay r req.
Proof using Type. intros Hr k v. rewrite Hr. intros [= -> ->]%list_elem_of_singleton. eauto. Qed.

(** The next part asks quietly. *)
Ltac quietly lem :=
  apply wlp_bind; apply lem;
  let Hf := fresh "Hf" in
  intros ? ? Hf; cbn beta iota;
  match goal with Hpre : facts ?pre = [], H : facts _ = facts ?pre |- _ => rewrite Hpre in H; clear dependent pre end.

Ltac format := unfold formats; repeat (first [by left|right]).

Ltac own := match goal with H : facts _ = [] |- _ => simpl; rewrite H; constructor; by (left + right) end.

Lemma messages_handled r raw_query pre :
  to r = Messages raw_query -> facts pre = [] ->
  wlp (send_ok (session_of r) (proper_call r)) (handler r) (ends_handled (session_of r) (proper_call r)) pre.
Proof using Type.
  intros Hto Hpre. unfold handler. rewrite Hto. unfold handle_messages.
  destruct (from_json (from_body r)) as [v|]; [|simpl; rewrite Hpre; constructor].
  quietly quiet_trace_id. quietly quiet_attribute. case_match. quietly quiet_config.
  destruct (has_anthropic_credential (from_headers r)) eqn:Hc; cbn [negb]; [|own].
  apply gate_and_send_handled; [done| |done|by format|by eauto|intros; by eapply relay_body_handled].
  split; [|by apply anthropic_headers_stay].
  unfold carries_credential. rewrite Hto. by apply anthropic_credential.
Qed.

Lemma completions_handled r pre :
  to r = Completions -> facts pre = [] ->
  wlp (send_ok (session_of r) (proper_call r)) (handler r) (ends_handled (session_of r) (proper_call r)) pre.
Proof using Type.
  intros Hto Hpre. unfold handler. rewrite Hto. unfold handle_completions.
  destruct (from_json (from_body r)) as [v|]; [|simpl; rewrite Hpre; constructor].
  quietly quiet_trace_id. quietly quiet_attribute. case_match.
  destruct (if is_stream v then inject_stream_usage v else Some v) as [v'|]; [|done].
  quietly quiet_config.
  destruct (header "authorization" (from_headers r)) as [auth|] eqn:Hc; [|own].
  destruct (to_vec v') as [outbound|]; [|simpl; rewrite Hf; constructor].
  apply gate_and_send_handled; [done| |done|by format|by eauto|intros; by eapply relay_body_handled].
  split.
  - unfold carries_credential. rewrite Hto. exists auth. split; [done|left].
  - intros k w [[= -> ->]|Hin]%elem_of_cons; [split; [done|left; by apply header_elem]|].
    apply list_elem_of_singleton in Hin as [= -> ->]. eauto.
Qed.

Lemma responses_handled r pre :
  to r = Responses -> facts pre = [] ->
  wlp (send_ok (session_of r) (proper_call r)) (handler r) (ends_handled (session_of r) (proper_call r)) pre.
Proof using Type.
  intros Hto Hpre. unfold handler. rewrite Hto. unfold handle_responses.
  destruct (from_json (from_body r)) as [v|]; [|simpl; rewrite Hpre; constructor].
  quietly quiet_trace_id. quietly quiet_attribute. case_match. quietly quiet_config.
  unfold contains_key at 1.
  destruct (header "authorization" (from_headers r)) as [auth|] eqn:Hc; cbn [negb]; [|own].
  destruct (to_vec v) as [outbound|]; [|simpl; rewrite Hf; constructor].
  apply gate_and_send_handled; [done| |done|by format|by eauto|intros; by eapply relay_body_handled].
  split.
  - unfold carries_credential. rewrite Hto. exists auth. split; [done|].
    apply list_elem_of_In, filter_In. split; [by apply list_elem_of_In, header_elem|done].
  - intros k w Hin. simpl in Hin. apply list_elem_of_In, filter_In in Hin as [Hin Hk].
    unfold is_forwardable_request_header in Hk. apply andb_true_iff in Hk as [Hk _].
    split; [by apply negb_true_iff|left; by apply list_elem_of_In].
Qed.

Lemma google_credential r model_action q key start req :
  to r = ModelAction model_action q -> caller_api_key (from_headers r) q = Some key ->
  url req = (start ++ key)%string -> req_headers req = [("content-type", lit "application/json")] ->
  proper_call r req.
Proof using Type.
  intros Hto Hk Hurl Hh. split; [|by apply one_header_stays].
  unfold carries_credential. rewrite Hto. by exists key, start.
Qed.

Lemma str_app_assoc (a b c : string) : (a ++ (b ++ c))%string = ((a ++ b) ++ c)%string.
Proof using Type. apply lit_inj. by rewrite !lit_app, app_assoc. Qed.

Lemma model_action_handled r model_action q pre :
  to r = ModelAction model_action q -> facts pre = [] ->
  wlp (send_ok (session_of r) (proper_call r)) (handler r) (ends_handled (session_of r) (proper_call r)) pre.
Proof using Type.
  intros Hto Hpre. unfold handler. rewrite Hto. unfold handle_model_action.
  destruct (parse_model_action model_action) as [[model action]|];
    [|simpl; rewrite Hpre; constructor].
  quietly quiet_trace_id.
  destruct action; unfold handle_generate_content, handle_stream_generate_content;
    quietly quiet_attribute; case_match; quietly quiet_config;
    (destruct (caller_api_key (from_headers r) q) as [key|] eqn:Hk; [|own]);
    (apply gate_and_send_handled; [done| |done|by format|by eauto|]).
  - eapply google_credential; [done|done| |done]. cbn [url post]. by rewrite !str_app_assoc.
  - intros. by eapply relay_body_handled.
  - eapply google_credential; [done|done| |done]. cbn [url post]. by rewrite !str_app_assoc.
  - done.
Qed.

Lemma handler_handled r :
  wlp (send_ok (session_of r) (proper_call r)) (handler r) (ends_handled (session_of r) (proper_call r)) [].
Proof using Type.
  destruct (to r) eqn:Hto.
  - by eapply messages_handled.
  - by apply completions_handled.
  - by apply responses_handled.
  - by eapply model_action_handled.
Qed.

(** *** The whole of a request *)

(** What a request has done when it is answered, and with what. *)
Inductive accounted (sid : string) : list fact -> reply -> Prop :=
| not_forwarded status h body : accounted sid [] (Answer status h body)
| stopped_or_unsent status h g : accounted sid [] (Held status h g)
| unreachable req reply :
    reply = Answer BAD_GATEWAY [] [] \/ (exists status h g, reply = Held status h g) ->
    accounted sid [Sent req None] reply
| streamed req r f c : f ∈ formats -> accounted sid [Sent req (Some r)] (relay_stream f c r)
| cut_off req r : accounted sid [Sent req (Some r); Body None] (Answer BAD_GATEWAY [] [])
| recorded req r body h l :
    booked sid r l ->
    accounted sid ([Sent req (Some r); Body (Some body)] ++ l)
      (Answer (resp_status r) h body).

Definition ends_accounted (sid : string) (tr : list (obs question)) (o : option reply) : Prop :=
  match o with Some reply => accounted sid (facts tr) reply | None => False end.

Lemma keep_alive_quiet sid C n Q pre :
  (forall b pre', facts pre' = facts pre -> verdict sid pre' = verdict sid pre -> Q pre' (Some b)) ->
  wlp (send_ok sid C) (keep_alive n) Q pre.
Proof using Type.
  revert pre. induction n as [|n IH]; intros pre HQ; [by apply HQ|].
  cbn [keep_alive wlp prog_bind Prog.ask]. intros x. split; [done|].
  assert (facts (pre ++ [Obs (TxSend awaiting) x]) = facts pre) as Hf by by said.
  assert (verdict sid (pre ++ [Obs (TxSend awaiting) x]) = verdict sid pre) as Hv by by rewrite verdict_snoc.
  destruct x; [|by apply HQ].
  apply IH. intros b pre' Hf' Hv'. apply HQ; congruence.
Qed.

Lemma gated_task_accounted sid C g status h pre :
  facts pre = [] -> C (g_request g) -> Stream.c_session (g_call g) = sid -> g_format g ∈ formats ->
  wlp (send_ok sid C) (prog_bind (gated_task g) (fun final => Ret (default (Held status h g) final)))
    (ends_accounted sid) pre.
Proof using Type.
  intros Hpre HC Hsid Hformat. unfold gated_task. cbn [wlp prog_bind Prog.ask]. intros [n d]. split; [done|].
  apply wlp_bind, wlp_bind, keep_alive_quiet. intros _ pre' Hf Hv. cbn beta iota.
  rewrite verdict_snoc in Hv. simpl in Hv. rewrite Hsid, String.eqb_refl in Hv.
  assert (facts pre' = []) as Hpre' by (rewrite Hf; by said).
  destruct d; cbn [wlp prog_bind Prog.ask].
  - intros [r|]; (split; [done|]).
    + simpl. said. rewrite Hpre'. by constructor.
    + cbn [wlp prog_bind Prog.ask]. intros sent. split; [by destruct sent|]. simpl. said. rewrite Hpre'.
      constructor. right. by eexists _, _, _.
  - intros sent. split; [by destruct sent|]. simpl. said. rewrite Hpre'. constructor.
Qed.

Lemma serve_accounted r : wlp (send_ok (session_of r) (proper_call r)) (serve r) (ends_accounted (session_of r)) [].
Proof using Type.
  unfold serve, run_to_completion. apply wlp_bind, wlp_bind, wlp_catch.
  eapply wlp_mono; [apply handler_handled|]. intros tr o Ho. cbn beta iota.
  destruct o as [res|]; simpl in *; [|rewrite Ho; constructor].
  inversion Ho as [code Hf|status h body _ Hf|status h g Hg Hs Hm Hf|req Hf|req r' f c Hm Hf
    |req r' Hf|req r' body h l Hl Hf]; subst; cbn beta iota zeta.
  - simpl. rewrite <- Hf. constructor.
  - simpl. rewrite <- Hf. constructor.
  - by apply gated_task_accounted.
  - simpl. rewrite <- Hf. constructor. by left.
  - simpl. rewrite <- Hf. by constructor.
  - simpl. rewrite <- Hf. constructor.
  - simpl. rewrite <- Hf. by apply recorded.
Qed.

(** ** What the routes promise *)

(** C13. kyrisd never forwards a model call past its runaway guard, nor without the caller's
    credential, nor twice: in every run of a request on any of the model routes - with its
    held stream's task, and with every interleaving the answers to its questions allow -
    what is sent upstream is sent once, at a moment when the last thing the guard said of
    the request's session was "go" (the breaker is off, the session is not tripped, or the
    human answered Continue), carries the very credential the caller gave, and has no
    header but the caller's and two fixed ones, none of kyrisd's [x-kyris-] headers. *)
Theorem model_calls_guarded r tr o tr1 req answer tr2 :
  runs (serve r) tr o -> tr = tr1 ++ Obs (Send req) answer :: tr2 ->
  facts tr1 = [] /\ verdict (session_of r) tr1 = Some true /\
  carries_credential r req /\ headers_stay r req.
Proof using Type.
  intros Hr Htr. destruct (wlp_runs _ _ _ [] tr o (serve_accounted r) Hr) as [_ Hall].
  destruct (Hall tr1 _ tr2 Htr) as (Hf & Hv & Hc & Hh). done.
Qed.

(** C14. What is made of a model call: a request on a model route is always answered, also
    where its handler panics, and what it has done by then is one of [accounted]'s cases.
    Nothing was forwarded and nothing recorded.  Or one call was sent that the upstream
    never answered: the caller is told of a bad gateway (or its held stream ends), and
    nothing is recorded.  Or one call whose answer is relayed as a stream, with kyrisd's
    accounting of the stream still to come.  Or one call whose body breaks off, of which
    nothing is recorded.  Or one call whose whole body is relayed, with at most one turn
    counted against the request's own session and one event of that session made, with the
    tokens of the turn and an error exactly where the upstream said so; the queue of
    statistics takes the event, or refuses it, and then it is counted as dropped, once. *)
Theorem model_calls_accounted r tr o :
  runs (serve r) tr o -> exists reply, o = Some reply /\ accounted (session_of r) (facts tr) reply.
Proof using Type.
  intros Hr. destruct (wlp_runs _ _ _ [] tr o (serve_accounted r) Hr) as [Ho _].
  destruct o as [reply|]; [by exists reply|done].
Qed.

(** The same upstream failure is recorded as an error or as a success, depending on
    whether its answer was relayed as a stream: a call answered with a failing status,
    relayed so, leaves one record, whatever the text of the failure, and its status is
    never error - it is success, or the breaker's. *)
Theorem streamed_error_recorded_as_success r tr req resp status h f c cfg now latency s polls :
  runs (serve r) tr (Some (Streamed status h f c)) -> facts tr = [Sent req (Some resp)] ->
  is_success (resp_status resp) = false ->
  (forall l, trim l = [] -> from_json l = None) -> Forall Stream.text_piece polls ->
  status = resp_status resp /\
  exists s' ev, Stream.serve calculate cfg f c now latency Stream.fresh s polls = (s', [ev]) /\
    Stream.status ev <> "error" /\
    (Stream.enabled cfg = false -> Stream.status ev = "success").
Proof using Type.
  intros Hr Hf He Hj Hp.
  destruct (wlp_runs _ _ _ [] tr _ (serve_accounted r) Hr) as [Ho _]. simpl in Ho. rewrite Hf in Ho.
  inversion Ho as [| |req' reply [?|(? & ? & ? & ?)]|req' r' f' c' Hin| |]; [done..|]; subst.
  split; [done|]. rewrite (Stream.serve_formats from_json) by done.
  destruct (Stream.reads f (Stream.seen polls)) as [counts tool].
  unfold Stream.stream_event. destruct (Stream.record_turn _ _ _ _ _ _) as [s' crossed] eqn:Ht.
  eexists _, _. split; [done|]. simpl. split; [by destruct crossed|].
  intros Hcfg. unfold Stream.record_turn in Ht. rewrite Hcfg in Ht. by injection Ht as _ <-.
Qed.

Ltac goes_on :=
  repeat first
    [ exact I | progress intros | apply no_panic_bind | case_match | progress (cbn [no_panic Prog.ask prog_bind]) ].

Lemma attribute_goes_on h peer_addr trace_id : no_panic (attribute h peer_addr trace_id).
Proof using Type.
  unfold attribute, record_agent_traffic, write_native_seen_breadcrumb, relay_trace_attach,
    resolve_peer_attribution. goes_on.
Qed.

Lemma relay_body_goes_on usage tool c h r : no_panic (relay_body usage tool c h r).
Proof using Type. unfold relay_body, record_body, record_turn. goes_on. Qed.

Lemma gate_and_send_goes_on stream agent c stop stopped f req buffered :
  (forall r, no_panic (buffered r)) ->
  no_panic (gate_and_send stream agent c stop stopped f req buffered).
Proof using Type. intros Hb. unfold gate_and_send, runaway. goes_on; apply Hb. Qed.

Lemma google_goes_on h model peer_addr body trace_id key :
  no_panic (handle_generate_content h model peer_addr body trace_id key) /\
  no_panic (handle_stream_generate_content h model peer_addr body trace_id key).
Proof using Type.
  unfold handle_generate_content, handle_stream_generate_content.
  split; (apply no_panic_bind; [apply attribute_goes_on|]; intros [wd agent]; intros config;
    destruct key; [|exact I]; apply gate_and_send_goes_on; intros r; [apply relay_body_goes_on || exact I]).
Qed.

Lemma messages_goes_on peer t h q body : no_panic (handle_messages peer t h q body).
Proof using Type.
  unfold handle_messages, trace_id_of. destruct (from_json body); [|exact I].
  apply no_panic_bind; [by destruct t|]. intros id. apply no_panic_bind; [apply attribute_goes_on|].
  intros [wd agent] config. cbn zeta. case_match; [exact I|].
  apply gate_and_send_goes_on. intros. apply relay_body_goes_on.
Qed.

Lemma responses_goes_on peer t h body : no_panic (handle_responses peer t h body).
Proof using Type.
  unfold handle_responses, trace_id_of. destruct (from_json body); [|exact I].
  apply no_panic_bind; [by destruct t|]. intros id. apply no_panic_bind; [apply attribute_goes_on|].
  intros [wd agent] config. cbn zeta. case_match; [exact I|]. case_match; [|exact I].
  apply gate_and_send_goes_on. intros. apply relay_body_goes_on.
Qed.

Lemma model_action_goes_on peer t h m q body : no_panic (handle_model_action peer t h m q body).
Proof using Type.
  unfold handle_model_action, trace_id_of. destruct (parse_model_action m) as [[model action]|]; [|exact I].
  apply no_panic_bind; [by destruct t|]. intros id. destruct action; apply google_goes_on.
Qed.

(** A streamed request whose [stream_options] cannot hold the flag. *)
Definition bad_stream_options (body : bytes) : bool :=
  match from_json body with
  | Some v => is_stream v && match inject_stream_usage v with None => true | Some _ => false end
  | None => false
  end.

Lemma completions_panic peer t h body :
  if bad_stream_options body then panics (handle_completions peer t h body)
  else no_panic (handle_completions peer t h body).
Proof using Type.
  unfold bad_stream_options, handle_completions, trace_id_of.
  destruct (from_json body) as [v|]; [|exact I].
  destruct (is_stream v) eqn:Hs; [destruct (inject_stream_usage v) as [v'|] eqn:Hi|]; cbn [andb].
  - apply no_panic_bind; [by destruct t|]. intros id.
    apply no_panic_bind; [apply attribute_goes_on|]. intros [wd agent] config. cbn zeta. repeat (case_match; [|exact I]).
    apply gate_and_send_goes_on. intros. apply relay_body_goes_on.
  - apply panics_bind. intros id. apply panics_bind. by intros [wd agent].
  - apply no_panic_bind; [by destruct t|]. intros id.
    apply no_panic_bind; [apply attribute_goes_on|]. intros [wd agent] config.
    cbn zeta. repeat (case_match; [|exact I]).
    apply gate_and_send_goes_on. intros. apply relay_body_goes_on.
Qed.

(** The one way to make a model route panic is a streamed chat completion whose
    [stream_options] is neither an object nor null nor absent, and it always does: the
    caller is answered 500 without an upstream call, where the provider would have said
    what is wrong with its request. *)
Theorem only_bad_stream_options_panic r tr o :
  runs (handler r) tr o ->
  (o = None <-> to r = Completions /\ bad_stream_options (from_body r) = true) /\
  (o = None -> facts tr = []).
Proof using Type.
  intros Hr. split.
  - assert (no_panic (handler r) -> o <> None) as Hgo.
    { intros Hg ->. by apply (no_panic_runs _ _ Hg Hr). }
    unfold handler in *. destruct (to r) as [q| | |m q].
    + split; [|by intros [? _]]. intros Ho. by destruct (Hgo (messages_goes_on _ _ _ _ _)).
    + pose proof (completions_panic (peer r) (trace_ext r) (from_headers r) (from_body r)) as Hp.
      destruct (bad_stream_options (from_body r)).
      * split; [done|]. intros _. by eapply panics_runs.
      * split; [|by intros [_ ?]]. intros Ho. by destruct (Hgo Hp).
    + split; [|by intros [? _]]. intros Ho. by destruct (Hgo (responses_goes_on _ _ _ _)).
    + split; [|by intros [? _]]. intros Ho. by destruct (Hgo (model_action_goes_on _ _ _ _ _ _)).
  - intros ->. destruct (wlp_runs _ _ _ [] tr _ (handler_handled r) Hr) as [Ho _]. exact Ho.
Qed.

(** The comment in [gated_streaming_response] says that a request whose client hung up
    resolves its prompt and then stops relaying; on Continue it is still sent upstream. *)
Lemma departed_client_still_billed g resp :
  runs (gated_task g)
    [Obs (AwaitTokenGate (Stream.c_session (g_call g)) (g_agent g) (g_count g)) (1%nat, Gate.Continue);
     Obs (TxSend awaiting) false; Obs (Send (g_request g)) (Some resp)]
    (Some (Some (relay_stream (g_format g) (g_call g) resp))).
Proof using Type.
  unfold gated_task. cbn [runs prog_bind Prog.ask].
  eexists _, _. split; [done|]. cbn [keep_alive runs prog_bind Prog.ask].
  eexists _, _. split; [done|]. eexists _, _. by split.
Qed.
End adapter.

(** *** Samples *)

#[local] Existing Instance Stream.sample_float.
#[local] Existing Instance Stream.sample_arith.
#[local] Existing Instance CoverageFacts.sample_names.

Definition sample_parse (b : bytes) : option json :=
  if bytes_eqb b (lit "stream") then Some (JObject [("stream", JBool true)])
  else if bytes_eqb b (lit "bad") then
    Some (JObject [("stream", JBool true); ("stream_options", JNumber 5)])
  else None.

Definition sample_text (b : bytes) : option string := Some (of_bytes b).

(** The breaker is on, the session tripped, the human says Continue, the upstream fails. *)
Definition sample_answer (X : Type) (q : question X) : X :=
  match q in question X return X with
  | LoadConfig => mkConfig [] (Stream.mkBreakerConfig true 6)
  | NewTraceId => "t"
  | RecordEvidence _ _ | WriteBreadcrumb _ | RecordDropped _ => tt
  | BreadcrumbExists _ => true
  | AgentpactSocket => None
  | SendTraceAttach _ _ _ => Err ""
  | ResolveWithPid _ => None
  | ResolveAgent _ _ => None
  | IsTripped _ => true
  | GetTokenCount _ => 7%Z
  | AwaitTokenGate _ _ _ => (1%nat, Gate.Continue)
  | Send _ => Some (mkResponse 529 [])
  | ReadBody => Some []
  | Elapsed => 0%Z
  | BreakerRecord _ _ _ _ => true
  | TrySend _ => true
  | TxSend _ => true
  end%string.

Definition sample_request (r : route) (body : bytes) : request :=
  mkRouted r "peer" (Some "t"%string) [("authorization"%string, lit "Bearer k")] body.

Definition sample_serve (r : request) : prog question reply :=
  serve tt tt sample_parse (fun _ => Some []) (fun _ => ""%string) sample_text Stream.sample_price r.

Definition sample_handler (r : request) : prog question (result reply Z) :=
  handler tt tt sample_parse (fun _ => Some []) (fun _ => ""%string) sample_text Stream.sample_price r.

Definition sample_run (r : request) : list (obs question) * option reply :=
  play sample_answer (sample_serve r).

Definition sample_messages : request := sample_request (Messages None) (lit "stream").

Definition sample_sent : upstream_request :=
  post "anthropic" "https://api.anthropic.com/v1/messages" 300
    [("content-type", lit "application/json"); ("anthropic-version", lit "2023-06-01");
     ("authorization", lit "Bearer k")]%string (lit "stream").

Definition sample_failure : option upstream_response := Some (mkResponse 529 []).

Definition sample_before : list (obs question) := removelast (sample_run sample_messages).1.

Lemma sample_splits :
  (sample_run sample_messages).1 = sample_before ++ Obs (Send sample_sent) sample_failure :: [].
Proof. vm_compute. reflexivity. Qed.

Lemma sample_serve_runs r : runs (sample_serve r) (sample_run r).1 (sample_run r).2.
Proof. unfold sample_run. apply play_runs. Qed.

Lemma model_calls_guarded_witness :
  verdict (session_of sample_text sample_messages) sample_before = Some true /\
  carries_credential sample_text sample_messages sample_sent.
Proof.
  destruct (@model_calls_guarded Stream.sample_float CoverageFacts.sample_names tt tt sample_parse (fun _ => Some [])
    (fun _ => ""%string) sample_text
    Stream.sample_price sample_messages _ _ _ _ _ _
    (sample_serve_runs sample_messages) sample_splits) as (_ & Hv & Hc & _).
  by split.
Defined.

Lemma model_calls_accounted_witness :
  exists reply, (sample_run sample_messages).2 = Some reply /\
    accounted sample_parse sample_text (session_of sample_text sample_messages) (facts (sample_run sample_messages).1) reply.
Proof.
  exact (@model_calls_accounted Stream.sample_float CoverageFacts.sample_names tt tt sample_parse
    (fun _ => Some []) (fun _ => ""%string) sample_text Stream.sample_price sample_messages _ _
    (sample_serve_runs sample_messages)).
Defined.

Definition sample_call : Stream.call :=
  @Stream.mkCall CoverageFacts.sample_names "t" "anthropic" "unknown" "__default" tt None None.

Lemma sample_streamed :
  (sample_run sample_messages).2 =
    Some (Streamed 529 [("x-kyris-trace-id"%string, lit "t")] (Stream.anthropic_format sample_parse)
            sample_call) /\
  facts (sample_run sample_messages).1 = [Sent sample_sent sample_failure].
Proof. split; [reflexivity|vm_compute; reflexivity]. Qed.

Lemma sample_blank l : trim l = [] -> sample_parse l = None.
Proof.
  intros Hl. unfold sample_parse, bytes_eqb. repeat (case_bool_decide; [by subst|]). done.
Qed.

Lemma streamed_error_recorded_as_success_witness :
  exists s' ev,
    Stream.serve Stream.sample_price Stream.sample_config (Stream.anthropic_format sample_parse)
      sample_call 0 0 Stream.fresh ∅ [Stream.Chunk (lit "overloaded")] = (s', [ev]) /\
    Stream.status ev <> "error"%string.
Proof.
  destruct sample_streamed as [Ho Hf].
  pose proof (sample_serve_runs sample_messages) as Hr. rewrite Ho in Hr.
  destruct (@streamed_error_recorded_as_success Stream.sample_float CoverageFacts.sample_names tt tt sample_parse (fun _ => Some [])
    (fun _ => ""%string) sample_text Stream.sample_price sample_messages _ _ _ _ _ _ _ Stream.sample_config 0%Z 0%Z ∅
    [Stream.Chunk (lit "overloaded")] Hr Hf eq_refl sample_blank) as (_ & s' & ev & Hs & He & _);
    [repeat constructor|].
  by exists s', ev.
Defined.

Definition sample_bad : request := sample_request Completions (lit "bad").

Definition sample_bad_run : list (obs question) * option (result reply Z) :=
  play sample_answer (sample_handler sample_bad).

Lemma sample_bad_runs : runs (sample_handler sample_bad) sample_bad_run.1 sample_bad_run.2.
Proof. unfold sample_bad_run. apply play_runs. Qed.

Lemma only_bad_stream_options_panic_witness : sample_bad_run.2 = None.
Proof.
  pose proof (@only_bad_stream_options_panic Stream.sample_float CoverageFacts.sample_names tt tt
    sample_parse (fun _ => Some []) (fun _ => ""%string) sample_text Stream.sample_price sample_bad _ _
    sample_bad_runs) as [[_ Hp] _].
  apply Hp. split; reflexivity.
Defined.
End Adapter.
