(* ===== verification/McpRouting.v ===== *)
(** * The HTTP twin of the MCP wrapper: [daemon/src/mcp_routing/mod.rs], [policy.rs]

    kyrisd proxies the Streamable HTTP transport of MCP to configured servers.  A POST
    that is a [tools/call] is put to agentpactd first, and held for the user where it
    asks; everything else is forwarded as it is.  Handlers are [prog]s, as in [Adapter];
    requests to agentpactd are [AgentPact]'s, here a question, and the hold is [Pending]'s
    ([AwaitResolution] answers what the receiver of the hold gets: the resolution, or
    nothing where the timer or a cancellation drops the sender). *)

From stdpp Require Import gmap.
From S2P Require Import Prelude Text Json AgentPact Framing McpPolicy Relay Prog Adapter.

Module McpRouting.
Import AgentPact.
Local Open Scope string_scope.
Local Open Scope list_scope.
Local Open Scope prog_scope.

(** ** The annotation cache *)

Abbreviation cache := (gmap (string * string) ToolAnnotations).

Definition cache_lookup (server tool : string) (c : cache) : ToolAnnotations :=
  default default_annotations (c !! (server, tool)).

Definition clear_server (server : string) (c : cache) : cache :=
  filter (fun e => e.1.1 <> server) c.

(** ** Headers *)

Definition HOP_BY_HOP_HEADERS : list string :=
  ["connection"; "keep-alive"; "proxy-authenticate"; "proxy-authorization"; "te"; "trailer";
   "transfer-encoding"; "upgrade"].

Definition eq_ignore_ascii_case (a b : string) : bool :=
  String.eqb (Adapter.to_lowercase a) (Adapter.to_lowercase b).

Definition is_hop_by_hop (name : string) : bool :=
  existsb (eq_ignore_ascii_case name) HOP_BY_HOP_HEADERS.

Definition forwarded_header (name : string) : bool :=
  negb (is_hop_by_hop name || eq_ignore_ascii_case name "host"
        || eq_ignore_ascii_case name "x-working-dir"
        || eq_ignore_ascii_case name "x-kyris-agent-id").

Definition forward_request_headers (h : Adapter.header_map) : Adapter.header_map :=
  List.filter (fun e => forwarded_header e.1) h.

Definition returned_header (name : string) : bool :=
  negb (is_hop_by_hop name || eq_ignore_ascii_case name "content-length"
        || eq_ignore_ascii_case name "transfer-encoding").

(** [build_upstream_response]. *)
Definition upstream_response_headers (h : Adapter.header_map) : Adapter.header_map :=
  List.filter (fun e => returned_header e.1) h.

(** ** Configuration *)

Record McpServerConfig := mkServer {
  server_name : string;
  upstream : string;
  config_dir : option string }.

Record McpConfig := mkMcp {
  enabled : bool;
  pending_timeout_seconds : Z;
  servers : list McpServerConfig }.

Definition resolve_server (config : McpConfig) (name : string) : result McpServerConfig Z :=
  if negb (enabled config) then Err Adapter.NOT_FOUND
  else match head (filter (fun s => server_name s = name) (servers config)) with
       | Some s => Ok s
       | None => Err Adapter.NOT_FOUND
       end.

Fixpoint drop_slashes (l : bytes) : bytes :=
  match l with
  | b :: l' => if bool_decide (b = "/"%char) then drop_slashes l' else l
  | [] => []
  end.

(** [trim_end_matches('/')] of the base, [trim_start_matches('/')] of the path. *)
Definition upstream_url (upstream path : string) : string :=
  let base := of_bytes (rev (drop_slashes (rev (lit upstream)))) in
  let path := of_bytes (drop_slashes (lit path)) in
  if String.eqb path "" then base else (base ++ "/" ++ path)%string.

Section routing.
Context {lib : Libraries}.
Context (display : json -> string) (to_str : bytes -> option string).

(** [serde_json::from_slice(..).ok()]. *)
Definition parse (body : bytes) : option json := ok (from_slice body).

Definition cached_annotations (tool : json) : option (string * ToolAnnotations) :=
  match get "name" tool ≫= as_str with
  | None => None
  | Some name =>
      let annotations := default JNull (get "annotations" tool) in
      Some (name, mkAnnotations (get "readOnlyHint" annotations ≫= as_bool)
                    (get "destructiveHint" annotations ≫= as_bool))
  end.

Definition update_from_response (server : string) (body : bytes) (c : cache) : cache :=
  match ((parse body ≫= get "result") ≫= get "tools") ≫= as_array with
  | None => c
  | Some tools =>
      foldl (fun c p => <[(server, p.1) := p.2]> c) c (omap cached_annotations tools)
  end.

Definition extract_json_rpc_method (body : bytes) : option string :=
  (parse body ≫= get "method") ≫= as_str.

Definition path_contains (p path : string) : bool := contains (lit p) (lit path).

Definition is_tools_list_request (path : string) (body : bytes) : bool :=
  path_contains "tools/list" path || bool_decide (extract_json_rpc_method body = Some "tools/list").

(** *** policy.rs *)

Definition is_tools_call_request (path : string) (body : bytes) : bool :=
  path_contains "tools/call" path || bool_decide (extract_json_rpc_method body = Some "tools/call").

Definition extract_tool_name (path : string) (body : bytes) : option string :=
  match parse body with
  | None => None
  | Some v =>
      if negb (path_contains "tools/call" path)
         && negb (bool_decide ((get "method" v ≫= as_str) = Some "tools/call")) then None
      else (get "params" v ≫= get "name") ≫= as_str
  end.

Inductive PolicyDecision :=
| PolicyAllow
| PolicyDeny (reason : string)
| PolicyAsk (approval_id approval_token : string) (allow_always : bool) (detail : option string).

Definition map_permission_decision (d : McpPermissionDecision) : PolicyDecision :=
  match d with
  | Allow _ => PolicyAllow
  | Deny _ reason _ => PolicyDeny reason
  | Ask id token always detail => PolicyAsk id token always detail
  end.

(** What is asked, in order: the configuration, agentpactd, the store of held approvals,
    the upstream server. *)
Inductive question : Type -> Type :=
| LoadConfig : question McpConfig
| RecordEvidence (agent surface : string) : question unit
| CacheLookup (server tool : string) : question ToolAnnotations
| CacheUpdate (server : string) (body : bytes) : question unit
| CheckProtocol : question (result unit string)
| RequestPermission (prefix server tool : string) (ctx : McpContext)
  : question (result McpPermissionDecision string)
| RecordFailOpen (tool server : string) (working_dir : option string) : question unit
| PendingToast (tool : string) : question unit
| Hold (id token server : string) (tool : option string) (agent : string) (always : bool)
    (detail : option string) : question unit
| AwaitResolution (id : string) (timeout : Z) : question (option bool)
| SendUpstream (method : string) (r : Adapter.upstream_request) : question (option Adapter.upstream_response)
| ReadUpstream : question (option bytes).

Abbreviation M := (prog question).
Abbreviation ask := (@Prog.ask question _).

Definition check_permission (server path : string) (body : bytes) (working_dir : option string)
    (mcp_operation : option string) (annotations : ToolAnnotations) (declared_agent : option string)
  : M PolicyDecision :=
  if negb (is_tools_call_request path body) then Ret PolicyAllow
  else
    compatible ← ask CheckProtocol;
    match compatible with
    | Err msg => Ret (PolicyDeny msg)
    | Ok _ =>
        let tool := default "unknown" (extract_tool_name path body) in
        r ← ask (RequestPermission "kyris" server tool
                   (mkMcpContext working_dir mcp_operation annotations declared_agent));
        match r with
        | Ok decision => Ret (map_permission_decision decision)
        | Err _ => _ ← ask (RecordFailOpen tool server working_dir); Ret PolicyAllow
        end
    end.

(** ** Handlers *)

Inductive reply :=
| Whole (status : Z) (h : Adapter.header_map) (body : bytes)
| Relayed (status : Z) (h : Adapter.header_map).

Definition FORBIDDEN : Z := 403.
Definition REQUEST_TIMEOUT : Z := 408.
Definition SERVICE_UNAVAILABLE : Z := 503.

Definition json_answer (status : Z) (payload : json) : reply :=
  Whole status [("content-type", lit "application/json")] (lit (display payload)).

Definition error_answer (status : Z) (error : string) : reply :=
  json_answer status (JObject [("error", JString error)]).

Definition is_sse_response (h : Adapter.header_map) : bool :=
  match Adapter.header "content-type" h ≫= to_str with
  | Some ct => str_starts_with "text/event-stream" ct
  | None => false
  end.

Definition not_blank (s : string) : option string :=
  if bool_decide (trim (lit s) = []) then None else Some s.

(** A header as text, where it is not blank. *)
Definition text_header (name : string) (h : Adapter.header_map) : option string :=
  (Adapter.header name h ≫= to_str) ≫= not_blank.

Definition working_dir_of (server : McpServerConfig) (h : Adapter.header_map) : option string :=
  match text_header "x-working-dir" h with
  | Some dir => Some dir
  | None => config_dir server ≫= not_blank
  end.

Definition SURFACE_TOOL : string := "tool".

Definition deny_answer (reason : string) : reply :=
  if String.eqb reason "agentpact_unavailable" then
    json_answer SERVICE_UNAVAILABLE
      (JObject [("error", JString "agentpact_unavailable");
                ("detail", JString "AgentPact daemon is unreachable. MCP governance cannot be evaluated.")])
  else error_answer FORBIDDEN reason.

Definition working_dir_required (server : string) : reply :=
  json_answer Adapter.BAD_REQUEST
    (JObject [("error", JString "mcp_working_dir_required");
              ("detail", JString ("MCP server '" ++ server ++ "' requires either the X-Working-Dir request header or mcp.servers[].working_dir in kyrisd.yaml for tools/call policy evaluation.")%string)]).

(** The end of the three handlers: the answer of the upstream. *)
Definition relay_upstream (method : string) (server : McpServerConfig) (path : string)
    (h : Adapter.header_map) (body : bytes) (sse : bool) (on_body : bytes -> M unit)
  : M (result reply Z) :=
  let req := Adapter.post ("mcp_" ++ server_name server)%string (upstream_url (upstream server) path) 0
               (forward_request_headers h) body in
  response ← ask (SendUpstream method req);
  match response with
  | None => Ret (Err Adapter.BAD_GATEWAY)
  | Some r =>
      let headers := upstream_response_headers (Adapter.resp_headers r) in
      if sse && is_sse_response (Adapter.resp_headers r) then
        Ret (Ok (Relayed (Adapter.resp_status r) headers))
      else
        answer ← ask ReadUpstream;
        match answer with
        | None => Ret (Err Adapter.BAD_GATEWAY)
        | Some answer =>
            _ ← on_body answer;
            Ret (Ok (Whole (Adapter.resp_status r) headers answer))
        end
  end.

(** Where an ask ends: held until it is resolved. *)
Definition hold_for_user (config : McpConfig) (server : string) (tool_name : option string)
    (id token : string) (always : bool) (detail : option string) : M (option reply) :=
  _ ← ask (PendingToast (default "unknown tool" tool_name));
  _ ← ask (Hold id token server tool_name "kyris-mcp" always detail);
  resolution ← ask (AwaitResolution id (pending_timeout_seconds config));
  Ret (match resolution with
       | Some true => None
       | Some false => Some (error_answer FORBIDDEN "denied by user")
       | None => Some (error_answer REQUEST_TIMEOUT "request timed out")
       end).

Definition forward_mcp_post (name path : string) (h : Adapter.header_map) (body : bytes)
  : M (result reply Z) :=
  config ← ask LoadConfig;
  match resolve_server config name with
  | Err code => Ret (Err code)
  | Ok server =>
      let working_dir := working_dir_of server h in
      if is_tools_call_request path body && match working_dir with None => true | Some _ => false end
      then Ret (Ok (working_dir_required name))
      else
        _ ← (match (if is_tools_call_request path body
                    then Adapter.header "x-kyris-agent-id" h ≫= to_str else None) with
             | Some agent => ask (RecordEvidence agent SURFACE_TOOL)
             | None => Ret tt
             end);
        let tool_name := extract_tool_name path body in
        annotations ← (match tool_name with
                       | Some t => ask (CacheLookup name t)
                       | None => Ret default_annotations
                       end);
        decision ← check_permission name path body working_dir (extract_json_rpc_method body)
                     annotations (text_header "x-kyris-agent-id" h);
        let forward : M (result reply Z) :=
          relay_upstream "POST" server path h body true
            (fun answer => if is_tools_list_request path body then ask (CacheUpdate name answer)
                           else Ret tt) in
        match decision with
        | PolicyDeny reason => Ret (Ok (deny_answer reason))
        | PolicyAsk id token always detail =>
            refusal ← hold_for_user config name tool_name id token always detail;
            match refusal with
            | Some reply => Ret (Ok reply)
            | None => forward
            end
        | PolicyAllow => forward
        end
  end.

Definition forward_mcp_get (name path : string) (h : Adapter.header_map) : M (result reply Z) :=
  config ← ask LoadConfig;
  match resolve_server config name with
  | Err code => Ret (Err code)
  | Ok server => relay_upstream "GET" server path h [] true (fun _ => Ret tt)
  end.

Definition forward_mcp_delete (name path : string) (h : Adapter.header_map) : M (result reply Z) :=
  config ← ask LoadConfig;
  match resolve_server config name with
  | Err code => Ret (Err code)
  | Ok server => relay_upstream "DELETE" server path h [] false (fun _ => Ret tt)
  end.

(** ** What a run has done *)

Definition sent_of (o : obs question) : option (Adapter.upstream_request * option Adapter.upstream_response) :=
  match o with
  | Obs e x =>
      match e in question X return X -> option (Adapter.upstream_request * option Adapter.upstream_response) with
      | SendUpstream _ r => fun answer => Some (r, answer)
      | _ => fun _ => None
      end x
  end.

Definition sends (tr : list (obs question)) : list (Adapter.upstream_request * option Adapter.upstream_response) :=
  omap sent_of tr.

(** *** One POST *)

Section post.
Context (name path : string) (h : Adapter.header_map) (body : bytes).

Definition tool_called : string := default "unknown" (extract_tool_name path body).

(** A [tools/call] that may go: agentpactd was asked about this tool of this server, for
    a working directory, and allowed it; or asked, and the approval it asked for was held
    and the user approved it; or could not be reached, which was noted. *)
Definition call_cleared (tr : list (obs question)) : Prop :=
  exists ctx answer dir,
    Obs (RequestPermission "kyris" name tool_called ctx) answer ∈ tr /\
    AgentPact.working_dir ctx = Some dir /\ trim (lit dir) <> [] /\
    match answer with
    | Ok (Allow _) => True
    | Ok (Deny _ _ _) => False
    | Ok (Ask id token always detail) =>
        Obs (Hold id token name (extract_tool_name path body) "kyris-mcp" always detail) tt ∈ tr /\
        exists timeout, Obs (AwaitResolution id timeout) (Some true) ∈ tr
    | Err _ => Obs (RecordFailOpen tool_called name (Some dir)) tt ∈ tr
    end.

(** What goes upstream: the body as it came, and the caller's headers but kyris's own
    and those of the connection. *)
Definition faithful (req : Adapter.upstream_request) : Prop :=
  Adapter.req_body req = body /\ Adapter.req_headers req = forward_request_headers h.

(** The headers that stay behind, in lower case: those of the connection, the host, the
    working directory and the name of the agent.  The rest goes on, kyris's own
    [x-kyris-inbound], [x-kyris-session-id] and [x-kyris-trace-token] among it. *)
Definition kept_back : list string :=
  ["connection"; "keep-alive"; "proxy-authenticate"; "proxy-authorization"; "te"; "trailer";
   "transfer-encoding"; "upgrade"; "host"; "x-working-dir"; "x-kyris-agent-id"].

Definition goes_on (sent : Adapter.header_map) : Prop :=
  sublist sent h /\ forall e, e ∈ sent <-> e ∈ h /\ Adapter.to_lowercase e.1 ∉ kept_back.

(** The caller calls a tool: the path says so, or the body is an object whose method is
    [tools/call]. *)
Definition calls_tool : Prop :=
  contains (lit "tools/call") (lit path) = true \/
  exists v, parse body = Some v /\ get "method" v = Some (JString "tools/call").

(** The tool is the [name] of its [params]; without one it is asked about as [unknown]. *)
Definition names_tool (tool : string) : Prop :=
  match (parse body ≫= get "params") ≫= get "name" with
  | Some (JString s) => tool = s
  | _ => tool = "unknown"
  end.

Definition send_ok (pre : list (obs question)) (o : obs question) : Prop :=
  match sent_of o with
  | Some (req, _) =>
      sends pre = [] /\ faithful req /\ (is_tools_call_request path body = true -> call_cleared pre)
  | None => True
  end.

Definition asked_about (ctx : McpContext) (answer : result McpPermissionDecision string) : obs question :=
  Obs (RequestPermission "kyris" name tool_called ctx) answer.

Lemma forwarded_goes_on : goes_on (forward_request_headers h).
Proof using Type.
  clear to_str body. unfold goes_on, forward_request_headers. split.
  { clear. induction h as [|e l IH]; simpl; [constructor|]. destruct (forwarded_header e.1); by constructor. }
  intros e. assert (e ∈ List.filter (fun e => forwarded_header e.1) h <-> e ∈ h /\ forwarded_header e.1 = true) as ->
    by (rewrite !list_elem_of_In; apply filter_In).
  assert (forwarded_header e.1 = true <-> Adapter.to_lowercase e.1 ∉ kept_back) as ->; [|done].
  unfold forwarded_header, is_hop_by_hop, eq_ignore_ascii_case, kept_back, HOP_BY_HOP_HEADERS.
  cbn [existsb]. rewrite negb_true_iff, !orb_false_iff, !String.eqb_neq, !not_elem_of_cons.
  change (Adapter.to_lowercase "connection") with "connection". set_solver.
Qed.

Lemma calls_tool_recognised : calls_tool -> is_tools_call_request path body = true.
Proof using Type.
  unfold calls_tool, is_tools_call_request, path_contains, extract_json_rpc_method.
  intros [->|(v & -> & Hv)]; [done|]. apply orb_true_iff. right. apply bool_decide_eq_true.
  simpl. by rewrite Hv.
Qed.

Lemma tool_called_named : is_tools_call_request path body = true -> names_tool tool_called.
Proof using Type.
  unfold is_tools_call_request, extract_json_rpc_method, names_tool, tool_called, extract_tool_name.
  destruct (parse body) as [v|]; [|done]. simpl. intros Hc.
  assert (negb (path_contains "tools/call" path) &&
    negb (bool_decide ((get "method" v ≫= as_str) = Some "tools/call")) = false) as ->.
  { apply orb_true_iff in Hc as [->| ->]; [done|apply andb_false_r]. }
  destruct (get "params" v) as [p|]; [|done]. simpl. by destruct (get "name" p) as [[]|].
Qed.

(** How a POST ends. *)
Inductive post_ends (tr : list (obs question)) : result reply Z -> Prop :=
| ends_unknown : sends tr = [] -> post_ends tr (Err Adapter.NOT_FOUND)
| ends_no_dir :
    sends tr = [] -> is_tools_call_request path body = true ->
    post_ends tr (Ok (working_dir_required name))
| ends_incompatible msg :
    sends tr = [] -> Obs CheckProtocol (Err msg) ∈ tr -> post_ends tr (Ok (deny_answer msg))
| ends_denied ctx code reason hint :
    sends tr = [] -> asked_about ctx (Ok (Deny code reason hint)) ∈ tr ->
    post_ends tr (Ok (deny_answer reason))
| ends_refused id timeout :
    sends tr = [] -> Obs (AwaitResolution id timeout) (Some false) ∈ tr ->
    post_ends tr (Ok (error_answer FORBIDDEN "denied by user"))
| ends_expired id timeout :
    sends tr = [] -> Obs (AwaitResolution id timeout) None ∈ tr ->
    post_ends tr (Ok (error_answer REQUEST_TIMEOUT "request timed out"))
| ends_unreachable req : sends tr = [(req, None)] -> post_ends tr (Err Adapter.BAD_GATEWAY)
| ends_streamed req r :
    sends tr = [(req, Some r)] -> is_sse_response (Adapter.resp_headers r) = true ->
    post_ends tr (Ok (Relayed (Adapter.resp_status r) (upstream_response_headers (Adapter.resp_headers r))))
| ends_cut req r :
    sends tr = [(req, Some r)] -> Obs ReadUpstream None ∈ tr -> post_ends tr (Err Adapter.BAD_GATEWAY)
| ends_relayed req r answer :
    sends tr = [(req, Some r)] -> Obs ReadUpstream (Some answer) ∈ tr ->
    post_ends tr (Ok (Whole (Adapter.resp_status r) (upstream_response_headers (Adapter.resp_headers r)) answer)).

Definition ends (tr : list (obs question)) (o : option (result reply Z)) : Prop :=
  match o with Some r => post_ends tr r | None => False end.

Lemma sends_snoc tr o : sends (tr ++ [o]) = sends tr ++ option_list (sent_of o).
Proof using Type. unfold sends. rewrite omap_app. simpl. by destruct (sent_of o). Qed.

Lemma sends_quiet tr o : sent_of o = None -> sends (tr ++ [o]) = sends tr.
Proof using Type. intros Ho. rewrite sends_snoc, Ho. apply app_nil_r. Qed.

Ltac here := repeat (first [rewrite elem_of_app; right; left | rewrite elem_of_app; left]).
Ltac said :=
  repeat first [ rewrite sends_quiet by done | rewrite sends_snoc ]; cbn [option_list sent_of].

Lemma relay_upstream_ends method server sse on_body pre :
  sends pre = [] -> (is_tools_call_request path body = true -> call_cleared pre) ->
  (forall answer, exists e : option (question unit), on_body answer = match e with Some e => ask e | None => Ret tt end /\
     forall e', e = Some e' -> sent_of (Obs e' tt) = None) ->
  wlp send_ok (relay_upstream method server path h body sse on_body) ends pre.
Proof using Type.
  intros Hs Hc Hb. unfold relay_upstream. cbn [wlp prog_bind Prog.ask].
  intros [r|]; (split; [by repeat split|]).
  2:{ simpl. eapply ends_unreachable. said. by rewrite Hs. }
  destruct (sse && is_sse_response (Adapter.resp_headers r)) eqn:Hsse.
  { simpl. apply andb_true_iff in Hsse as [_ Hsse]. eapply ends_streamed; [|done]. said. by rewrite Hs. }
  cbn [wlp prog_bind Prog.ask]. intros [answer|]; (split; [done|]).
  2:{ simpl. eapply ends_cut; [said; by rewrite Hs|]. here. }
  destruct (Hb answer) as ([e|] & -> & He); cbn [wlp prog_bind Prog.ask].
  - intros []. pose proof (He e eq_refl) as Hq. split; [unfold send_ok; by rewrite Hq|].
    simpl. eapply (ends_relayed _ _ r answer); [rewrite (sends_quiet _ _ Hq); said; by rewrite Hs|].
    here.
  - simpl. eapply ends_relayed; [said; by rewrite Hs|]. here.
Qed.

Lemma relay_post_ends server pre :
  sends pre = [] -> (is_tools_call_request path body = true -> call_cleared pre) ->
  wlp send_ok (relay_upstream "POST" server path h body true
    (fun answer => if is_tools_list_request path body then ask (CacheUpdate name answer) else Ret tt))
    ends pre.
Proof using Type.
  intros Hs Hc. apply relay_upstream_ends; [done|done|]. intros answer.
  destruct (is_tools_list_request path body).
  - exists (Some (CacheUpdate name answer)). split; [done|]. by intros e' [= <-].
  - by exists None.
Qed.

Lemma working_dir_spec server dir :
  working_dir_of server h = Some dir -> trim (lit dir) <> [].
Proof using Type.
  unfold working_dir_of, text_header. intros Hd.
  assert (forall o : option string, (o ≫= not_blank) = Some dir -> trim (lit dir) <> []) as Hb.
  { intros [s|]; simpl; [|done]. unfold not_blank. case_bool_decide; [done|]. by intros [= <-]. }
  destruct ((Adapter.header "x-working-dir" h ≫= to_str) ≫= not_blank) as [d|] eqn:Ht.
  - by apply (Hb _ (eq_trans Ht Hd)).
  - by apply (Hb _ Hd).
Qed.

(** The decision, and what goes on with it; [pre] is what was said before. *)
Lemma decided_post_ends config server dir annotations operation agent pre :
  sends pre = [] -> working_dir_of server h = Some dir -> is_tools_call_request path body = true ->
  wlp send_ok
    (decision ← check_permission name path body (Some dir) operation annotations agent;
     let forward : M (result reply Z) :=
       relay_upstream "POST" server path h body true
         (fun answer => if is_tools_list_request path body then ask (CacheUpdate name answer)
                        else Ret tt) in
     match decision with
     | PolicyDeny reason => Ret (Ok (deny_answer reason))
     | PolicyAsk id token always detail =>
         refusal ← hold_for_user config name (extract_tool_name path body) id token always detail;
         match refusal with
         | Some reply => Ret (Ok reply)
         | None => forward
         end
     | PolicyAllow => forward
     end) ends pre.
Proof using Type.
  intros Hs Hdir Hcall. pose proof (working_dir_spec _ _ Hdir) as Hblank.
  unfold check_permission. rewrite Hcall. cbn [negb wlp prog_bind Prog.ask].
  intros [[]|msg]; (split; [done|]); cbn [wlp prog_bind Prog.ask].
  2:{ simpl. eapply ends_incompatible; [by said|here]. }
  set (ctx := mkMcpContext _ _ _ _). intros answer. split; [done|].
  set (said_so := Obs (RequestPermission _ _ _ _) answer).
  destruct answer as [[mode|code reason hint|id token always detail]|e];
    cbn [map_permission_decision wlp prog_bind Prog.ask].
  - apply relay_post_ends; [by said|]. intros _. exists ctx, (Ok (Allow mode)), dir.
    split_and!; [here|done|done|done].
  - simpl. eapply (ends_denied _ ctx code reason hint); [by said|here].
  - unfold hold_for_user. cbn [wlp prog_bind Prog.ask].
    intros []. split; [done|]. intros []. split; [done|]. intros resolution. split; [done|].
    destruct resolution as [[|]|]; cbn [wlp prog_bind Prog.ask].
    + apply relay_post_ends; [by said|]. intros _. exists ctx, (Ok (Ask id token always detail)), dir.
      split_and!; [|done|done| |eexists]; here.
    + simpl. eapply ends_refused; [by said|here].
    + simpl. eapply ends_expired; [by said|here].
  - intros []. split; [done|]. apply relay_post_ends; [by said|]. intros _.
    exists ctx, (Err e), dir. split_and!; [here|done|done|here].
Qed.

Lemma quiet_step {A B} (p : M A) (f : A -> M B) Q pre :
  (exists a, p = Ret a) \/ (exists e : question A, p = ask e /\ forall x, sent_of (Obs e x) = None) ->
  sends pre = [] ->
  (forall a pre', sends pre' = [] -> wlp send_ok (f a) Q pre') ->
  wlp send_ok (prog_bind p f) Q pre.
Proof using Type.
  intros [[a ->]|(e & -> & He)] Hs Hf; [by apply Hf|].
  cbn [wlp prog_bind Prog.ask]. intros x. split; [unfold send_ok; by rewrite He|].
  apply Hf. by rewrite sends_quiet.
Qed.

Lemma forward_mcp_post_ends :
  wlp send_ok (forward_mcp_post name path h body) ends [].
Proof using Type.
  unfold forward_mcp_post. cbn [wlp prog_bind Prog.ask]. intros config. split; [done|].
  assert (sends ([] ++ [Obs LoadConfig config]) = []) as Hs by done. revert Hs.
  generalize ([] ++ [Obs LoadConfig config]). intros pre Hs.
  unfold resolve_server. destruct (negb (enabled config)); [by apply ends_unknown|].
  destruct (head _) as [server|]; [|by apply ends_unknown]. cbn zeta.
  destruct (is_tools_call_request path body) eqn:Hcall;
    [destruct (working_dir_of server h) as [dir|] eqn:Hdir|]; cbn [andb].
  - apply quiet_step; [|done|].
    { destruct (Adapter.header _ h ≫= to_str); [right|left]; eauto. }
    clear pre Hs. intros _ pre Hs. apply quiet_step; [|done|].
    { destruct (extract_tool_name path body); [right|left]; eauto. }
    clear pre Hs. intros annotations pre Hs. by apply decided_post_ends.
  - simpl. by apply ends_no_dir.
  - apply quiet_step; [left; eauto|done|]. clear pre Hs. intros _ pre Hs.
    apply quiet_step; [|done|].
    { destruct (extract_tool_name path body); [right|left]; eauto. }
    clear pre Hs. intros annotations pre Hs. unfold check_permission. rewrite Hcall.
    cbn [negb prog_bind]. apply relay_post_ends; [done|by rewrite Hcall].
Qed.

(** C15. A tool call that kyrisd routes over HTTP never reaches its server unless agentpactd
    was asked about that tool of that server, for a working directory that is not blank,
    and allowed it, or asked and the user approved the approval it asked for, or could not
    be reached, which is then on record: so in every run of a POST, whatever the answers.  A
    tool call is a POST whose path contains [tools/call] or whose body is a JSON object with
    that method (a batch of calls is not one, and goes unasked: [batched_calls_unchecked]);
    its tool is the [name] in its [params], or [unknown].  What is sent goes once, with the
    body as it came and the caller's headers, in their order, but [kept_back]: those of the
    connection, the host, [x-working-dir] and [x-kyris-agent-id].  *)
Theorem routed_calls_cleared tr o tr1 method req answer tr2 :
  runs (forward_mcp_post name path h body) tr o ->
  tr = tr1 ++ Obs (SendUpstream method req) answer :: tr2 ->
  sends tr1 = [] /\ Adapter.req_body req = body /\ goes_on (Adapter.req_headers req) /\
  (calls_tool -> call_cleared tr1 /\ names_tool tool_called).
Proof using Type.
  intros Hr Htr. destruct (wlp_runs _ _ _ [] tr o forward_mcp_post_ends Hr) as [_ Hall].
  destruct (Hall tr1 _ tr2 Htr) as (Hs & [Hb ->] & Hc).
  split_and!; [done|done|apply forwarded_goes_on|]. intros Ht%calls_tool_recognised.
  split; [by apply Hc|by apply tool_called_named].
Qed.

(** How a routed POST is answered, in every run: 404 for a server that is not
    configured, 400 for a tool call without a working directory, agentpactd's reason (403,
    or 503) when it denies or its version does not fit, 403 when the user refuses, 408
    when the approval expires or is cancelled - in all of these nothing was sent; 502 when
    the server cannot be reached or its answer breaks off, and else the server's own
    status and body.  It never panics. *)
Theorem routed_post_answers tr o :
  runs (forward_mcp_post name path h body) tr o -> exists r, o = Some r /\ post_ends tr r.
Proof using Type.
  intros Hr. destruct (wlp_runs _ _ _ [] tr o forward_mcp_post_ends Hr) as [Ho _].
  destruct o as [r|]; [by exists r|done].
Qed.
End post.

(** ** The wrapper's twin *)

(** The tools of a cache that belong to one server: what the wrapper of that server keeps. *)
Definition of_server (server : string) (c : cache) (own : gmap string ToolAnnotations) : Prop :=
  forall tool, c !! (server, tool) = own !! tool.

Lemma method_agrees body : extract_json_rpc_method body = Relay.method_of body.
Proof using Type.
  unfold extract_json_rpc_method, Relay.method_of, parse, Relay.parse.
  by destruct (ok (from_slice body)).
Qed.

Lemma tools_agree body :
  ((parse body ≫= get "result") ≫= get "tools") ≫= as_array = Relay.parse body ≫= Relay.tools_of.
Proof using Type.
  unfold parse, Relay.parse. destruct (ok (from_slice body)) as [v|]; simpl; [|done].
  unfold Relay.tools_of. destruct (get "result" v) as [r|]; simpl; [|done].
  by destruct (get "tools" r).
Qed.

Lemma annotations_agree tool : cached_annotations tool = Relay.tool_annotations tool.
Proof using Type.
  unfold cached_annotations, Relay.tool_annotations. by destruct (get "name" tool ≫= as_str).
Qed.

Lemma insert_tools (server : string) (ps : list (string * ToolAnnotations)) (c : cache) (own : gmap string ToolAnnotations) :
  of_server server c own ->
  of_server server (foldl (fun c p => <[(server, p.1) := p.2]> c) c ps)
    (foldl (fun c p => <[p.1 := p.2]> c) own ps) /\
  forall other tool, other <> server ->
    foldl (fun c p => <[(server, p.1) := p.2]> c) c ps !! (other, tool) = c !! (other, tool).
Proof using Type.
  revert c own. induction ps as [|p ps IH]; intros c own Hc; simpl; [done|].
  destruct (IH (<[(server, p.1):=p.2]> c) (<[p.1:=p.2]> own)) as [Hown Hother].
  { intros tool. destruct (decide (tool = p.1)) as [->|Ht]; [by rewrite !lookup_insert_eq|].
    rewrite !lookup_insert_ne by congruence. apply Hc. }
  split; [done|]. intros other tool Ho. rewrite Hother by done.
  rewrite lookup_insert_ne by congruence. done.
Qed.

(** The wrapper and the routes read the same things in a message: where the path says
    nothing, they take the same messages for tool calls and the same tool names from them,
    and after a [tools/list] answer that the routes read, what they remember of the
    server's tools is what the wrapper remembers, and nothing of another server's changes.
    (A notice that the tools changed, which empties the wrapper's memory, the routes do
    not look for.) *)
Theorem routes_read_like_wrapper body :
  is_tools_call_request "" body = Relay.is_tools_call body /\
  (Relay.is_tools_call body = true -> extract_tool_name "" body = Relay.extract_tool_name body) /\
  forall server c own,
    of_server server c own -> Relay.is_tools_list_changed body = false ->
    of_server server (update_from_response server body c) (Relay.update_cache body own) /\
    forall other tool, other <> server ->
      update_from_response server body c !! (other, tool) = c !! (other, tool).
Proof using Type.
  split_and!.
  - unfold is_tools_call_request. by rewrite method_agrees.
  - unfold Relay.is_tools_call, Relay.method_of, Relay.extract_tool_name, extract_tool_name, parse, Relay.parse.
    intros Hm%bool_decide_eq_true. destruct (ok (from_slice body)) as [v|]; simpl in *; [|done].
    rewrite Hm. simpl. by destruct (get "params" v).
  - intros server c own Hc Hn. unfold update_from_response, Relay.update_cache.
    rewrite Hn, tools_agree. unfold Relay.is_tools_list_response, Relay.extract_tool_annotations.
    destruct (Relay.parse body) as [v|]; simpl; [|done].
    destruct (Relay.tools_of v) as [tools|]; simpl; [|done].
    replace (omap cached_annotations tools) with (omap Relay.tool_annotations tools).
    + by apply insert_tools.
    + clear. induction tools as [|t tools IH]; [done|]. cbn [omap list_omap].
      by rewrite <- annotations_agree, IH.
Qed.

Definition unasked (body : bytes) (o : obs question) : Prop :=
  match o with
  | Obs e x =>
      match e with
      | RequestPermission _ _ _ _ => False
      | SendUpstream _ req => Adapter.req_body req = body
      | _ => True
      end
  end.

Lemma batch_no_call body calls :
  parse body = Some (JArray calls) ->
  is_tools_call_request "" body = false /\ extract_tool_name "" body = None /\
  is_tools_list_request "" body = false.
Proof using Type.
  intros Hb. unfold is_tools_call_request, is_tools_list_request, extract_tool_name,
    extract_json_rpc_method. by rewrite Hb.
Qed.

Definition config_loaded (o : obs question) : option McpConfig :=
  match o with
  | Obs e x => match e in question X return X -> option McpConfig with
               | LoadConfig => Some
               | _ => fun _ => None
               end x
  end.

(** A batch goes round agentpactd: a POST whose body is a JSON-RPC batch - an array,
    whatever calls it holds - is sent to a configured server as it came, and in no run is
    a question about it put to agentpactd. *)
Theorem batched_calls_unchecked name h body calls config server tr o :
  parse body = Some (JArray calls) -> resolve_server config name = Ok server ->
  runs (forward_mcp_post name "" h body) (Obs LoadConfig config :: tr) o ->
  Forall (unasked body) tr /\
  exists req answer, Obs (SendUpstream "POST" req) answer ∈ tr /\ Adapter.req_body req = body.
Proof using Type.
  intros Hb Hserver (config' & tr' & Htr & Hr).
  assert (config' = config) as ->.
  { assert (config_loaded (Obs LoadConfig config) = config_loaded (Obs LoadConfig config')) as Hc
      by congruence. by injection Hc. }
  injection Htr as <-. destruct (batch_no_call body calls Hb) as (Hcall & Htool & Hlist).
  cbn [prog_bind Prog.ask] in Hr. rewrite Hserver in Hr. cbn zeta in Hr.
  rewrite Hcall, Htool, Hlist in Hr. unfold check_permission in Hr. rewrite Hcall in Hr.
  cbn [andb negb prog_bind] in Hr. split.
  - apply Forall_forall. intros ob (tr1 & tr2 & ->)%list_elem_of_split.
    refine (proj2 (wlp_runs (fun _ => unasked body) _ (fun _ _ => True) [] _ o _ Hr) tr1 ob tr2 eq_refl).
    unfold relay_upstream. cbn [wlp prog_bind Prog.ask].
    intros [r|]; (split; [done|]); [|exact I].
    destruct (true && is_sse_response (Adapter.resp_headers r)); [exact I|].
    cbn [wlp prog_bind Prog.ask]. intros [answer|]; by split.
  - unfold relay_upstream in Hr. destruct Hr as (answer & tr' & -> & _).
    eexists _, answer. split; [left|done].
Qed.
End routing.

(** *** Samples *)

Definition sample_call : json :=
  JObject [("method", JString "tools/call"); ("params", JObject [("name", JString "rm")])].

Definition sample_parse (l : bytes) : result json string :=
  if bytes_eqb l (lit "call") then Ok sample_call
  else if bytes_eqb l (lit "batch") then Ok (JArray [sample_call])
  else Err "expected value".

#[local] Instance routing_libraries : Libraries := {|
  from_slice := sample_parse;
  uuid_now_v7 := pretty;
  Mode := bool;
  Mode_Enforce := false;
  is_log := id;
  Mode_from_wire := fun _ => None;
  ask_context_from_value := fun _ => None;
  MAX_COMMAND_LENGTH_CEILING := 64 |}.

Definition sample_server : McpServerConfig := mkServer "srv" "https://mcp/" (Some "/work").
Definition sample_config : McpConfig := mkMcp true 60 [sample_server].

(** agentpactd asks, the user approves, the server answers. *)
Definition sample_answer (X : Type) (q : question X) : X :=
  match q in question X return X with
  | LoadConfig => sample_config
  | RecordEvidence _ _ | CacheUpdate _ _ | RecordFailOpen _ _ _ | PendingToast _
  | Hold _ _ _ _ _ _ _ => tt
  | CacheLookup _ _ => default_annotations
  | CheckProtocol => Ok tt
  | RequestPermission _ _ _ _ => Ok (Ask "a1" "k1" false None)
  | AwaitResolution _ _ => Some true
  | SendUpstream _ _ => Some (Adapter.mkResponse 200 [])
  | ReadUpstream => Some (lit "done")
  end.

Definition sample_post (body : bytes) : prog question (result reply Z) :=
  forward_mcp_post (fun _ => "{}") (fun b => Some (of_bytes b)) "srv" "" [] body.

Definition sample_posted (body : bytes) : list (obs question) * option (result reply Z) :=
  play sample_answer (sample_post body).

Lemma sample_posted_runs body : runs (sample_post body) (sample_posted body).1 (sample_posted body).2.
Proof. unfold sample_posted. apply play_runs. Qed.

Definition sample_request : Adapter.upstream_request := Adapter.post "mcp_srv" "https://mcp" 0 [] (lit "call").

Lemma sample_posted_call :
  (sample_posted (lit "call")).1 =
    take 7 (sample_posted (lit "call")).1 ++
    Obs (SendUpstream "POST" sample_request) (Some (Adapter.mkResponse 200 [])) ::
    drop 8 (sample_posted (lit "call")).1.
Proof. vm_compute. reflexivity. Qed.

Lemma routed_calls_cleared_witness :
  call_cleared "srv" "" (lit "call") (take 7 (sample_posted (lit "call")).1).
Proof.
  destruct (routed_calls_cleared (fun _ => "{}") (fun b => Some (of_bytes b)) "srv" "" []
    (lit "call") _ _ _ _ _ _ _ (sample_posted_runs (lit "call")) sample_posted_call) as (_ & _ & _ & Hc).
  apply Hc. right. exists sample_call. split; reflexivity.
Defined.

(** The key that opens kyrisd goes on to the server. *)
Example inbound_key_goes_upstream :
  forward_request_headers [("x-kyris-inbound", lit "sk-kyris-1"); ("X-Kyris-Agent-Id", lit "codex-cli")]
  = [("x-kyris-inbound", lit "sk-kyris-1")].
Proof. vm_compute. reflexivity. Qed.

Lemma routed_post_answers_witness :
  exists r, (sample_posted (lit "call")).2 = Some r /\
    post_ends (fun _ => "{}") (fun b => Some (of_bytes b)) "srv" "" (lit "call")
      (sample_posted (lit "call")).1 r.
Proof.
  exact (routed_post_answers (fun _ => "{}") (fun b => Some (of_bytes b)) "srv" "" []
    (lit "call") _ _ (sample_posted_runs (lit "call"))).
Defined.

Lemma routes_read_like_wrapper_witness :
  extract_tool_name "" (lit "call") = Some "rm" /\ extract_tool_name "" (lit "call") = Relay.extract_tool_name (lit "call").
Proof.
  split; [reflexivity|]. apply (routes_read_like_wrapper (lit "call")). reflexivity.
Defined.

Lemma sample_batch_run :
  runs (sample_post (lit "batch"))
    (Obs LoadConfig sample_config :: tail (sample_posted (lit "batch")).1) (sample_posted (lit "batch")).2.
Proof. exact (sample_posted_runs (lit "batch")). Qed.

Lemma batched_calls_unchecked_witness :
  Forall (unasked (lit "batch")) (tail (sample_posted (lit "batch")).1).
Proof.
  refine (proj1 (batched_calls_unchecked (fun _ => "{}") (fun b => Some (of_bytes b)) "srv" [] (lit "batch")
    [sample_call] sample_config sample_server _ _ eq_refl _ sample_batch_run)).
  reflexivity.
Defined.
End McpRouting.
