(* ===== verification/McpConfigure.v ===== *)
(** * Routing the MCP servers of an agent through kyris

    [cli/src/agents/configure/mcp.rs] and [mcp_filters.rs]: the rewrite of an agent's MCP
    configuration, the registry of upstreams in [kyrisd.yaml], and the detectors that
    read the configuration back; with the command line of [kyris-mcp], which the rewrite
    writes, and the configuration [kyrisd] routes by.

    Files are those of [Manifest]. *)

From S2P Require Import Prelude Text Json JsonPatch JsonEdit Toml TomlPatch Manifest Configure CompilePolicy Adapter McpRouting.

Module McpConfigure.
Import JsonEdit Manifest.
Local Open Scope string_scope.
Local Open Scope list_scope.

(** ** The command line of [kyris-mcp] *)

Record Wrap := mkWrap {
  wrap_server : string;
  wrap_agent : option string;
  wrap_cmd : string;
  wrap_args : list string }.

(** The loop over the leading flags; [None] is the usage error. *)
Fixpoint parse_flags (server agent : option string) (args : list string) : option Wrap :=
  match args with
  | [] => None
  | a :: rest =>
      match rest with
      | v :: rest' =>
          if String.eqb a "--server" then parse_flags (Some v) agent rest'
          else if String.eqb a "--agent" then parse_flags server (Some v) rest'
          else Some (mkWrap (default "unknown" server) agent a rest)
      | [] => Some (mkWrap (default "unknown" server) agent a [])
      end
  end.

(** The arguments after the name of the program; fewer than three are refused. *)
Definition parse_wrap (args : list string) : option Wrap :=
  match args with
  | a :: ((_ :: _ :: _) as rest) =>
      if String.eqb a "wrap" then parse_flags None None rest else None
  | _ => None
  end.

(** ** The agent flag of a wrap *)

Section flag.
Context {V : Type} (to_str : V -> option string) (from_str : string -> V).

(** [as_str(&args[i]) == Some(s)]. *)
Definition says (s : string) (v : V) : bool := bool_decide (to_str v = Some s).

(** The arguments before the place of insertion, and those after it; nothing if there is
    an agent flag. *)
Fixpoint split_flags (args : list V) : option (list V * list V) :=
  match args with
  | [] => Some ([], [])
  | a :: rest =>
      if says "--agent" a then None
      else if says "--server" a then
        match rest with
        | [] => Some ([a], [])
        | v :: rest' => '(flags, tail) ← split_flags rest'; Some (a :: v :: flags, tail)
        end
      else Some ([], args)
  end.

Definition ensure_wrap_agent_flag (args : list V) (agent_id : string) : list V * bool :=
  let '(wrap, rest) :=
    match args with
    | a :: rest => if says "wrap" a then ([a], rest) else ([], args)
    | [] => ([], [])
    end in
  match split_flags rest with
  | None => (args, false)
  | Some (flags, tail) =>
      (wrap ++ flags ++ [from_str "--agent"; from_str agent_id] ++ tail, true)
  end.
End flag.

(** ** The rewrite of JSON servers *)

Record McpRewriteResult := mkRewrite {
  changed : bool;
  http_rewrites : list (string * string) }.

Definition unchanged : McpRewriteResult := mkRewrite false [].

Definition with_rewrite (changed_here : bool) (rewrites : list (string * string))
    (r : McpRewriteResult) : McpRewriteResult :=
  mkRewrite (changed_here || changed r) (rewrites ++ http_rewrites r).

Definition routed_url (base_url name : string) : string := (base_url ++ "/mcp/" ++ name ++ "/")%string.

(** Attribution for kyrisd, and the key it asks for. *)
Definition kyris_headers (inbound_key agent_id : string) : list (string * string) :=
  [("Authorization", ("Bearer " ++ inbound_key)%string); ("x-kyris-agent-id", agent_id)].

Definition object := list (string * json).

Definition set_header (s : object * bool) (h : string * string) : object * bool :=
  if bool_decide (obj_get h.1 s.1 ≫= as_str = Some h.2) then s
  else (obj_insert h.1 (JString h.2) s.1, true).

(** The fields of one server, and the address it had if it is routed now. *)
Definition rewrite_json_server (base_url inbound_key agent_id name : string) (server : object)
    : object * bool * list (string * string) :=
  match obj_get "command" server ≫= as_str with
  | Some command =>
      if String.eqb command "kyris-mcp" then
        match obj_get "args" server ≫= as_array with
        | Some args =>
            let '(args, flagged) := ensure_wrap_agent_flag as_str JString args agent_id in
            (obj_insert "args" (JArray args) server, flagged, [])
        | None => (server, false, [])
        end
      else
        let original_args := default [] (obj_get "args" server ≫= as_array) in
        let wrapped_args :=
          JString <$> ["wrap"; "--server"; name; "--agent"; agent_id; command] in
        (obj_insert "args" (JArray (wrapped_args ++ original_args))
           (obj_insert "command" (JString "kyris-mcp") server), true, [])
  | None =>
      match obj_get "command" server ≫= as_array with
      | Some cmd_array =>
          if String.eqb (default "" (head cmd_array ≫= as_str)) "kyris-mcp" then
            let '(tail, flagged) :=
              ensure_wrap_agent_flag as_str JString (tail cmd_array) agent_id in
            (obj_insert "command" (JArray (take 1 cmd_array ++ tail)) server, flagged, [])
          else
            let wrapped :=
              JString <$> ["kyris-mcp"; "wrap"; "--server"; name; "--agent"; agent_id] in
            (obj_insert "command" (JArray (wrapped ++ cmd_array)) server, true, [])
      | None =>
          match obj_get "url" server ≫= as_str with
          | None => (server, false, [])
          | Some url =>
              let routed := routed_url base_url name in
              let moved := negb (String.eqb url routed) in
              let server := if moved then obj_insert "url" (JString routed) server else server in
              let '(headers, set) :=
                foldl set_header (as_json_object (entry_or "headers" (JObject []) server), false)
                  (kyris_headers inbound_key agent_id) in
              (obj_insert "headers" (JObject headers) server, moved || set,
               if moved then [(name, url)] else [])
          end
      end
  end.

(** The fields of Cline's nested shape are those of its [transport]. *)
Definition rewrite_json_entry (base_url inbound_key agent_id name : string) (server : json)
    : json * bool * list (string * string) :=
  let rewrite := rewrite_json_server base_url inbound_key agent_id name in
  match server with
  | JObject m =>
      match obj_get "transport" m ≫= as_object with
      | Some t =>
          let '(t, c, rewrites) := rewrite t in
          (JObject (obj_insert "transport" (JObject t) m), c, rewrites)
      | None => let '(m, c, rewrites) := rewrite m in (JObject m, c, rewrites)
      end
  | _ => (server, false, [])
  end.

(** The loop over the servers, each rewritten in place. *)
Fixpoint rewrite_servers {V} (rewrite : string -> V -> V * bool * list (string * string))
    (servers : list (string * V)) : list (string * V) * McpRewriteResult :=
  match servers with
  | [] => ([], unchanged)
  | (name, server) :: rest =>
      let '(server, c, rewrites) := rewrite name server in
      let '(rest, r) := rewrite_servers rewrite rest in
      ((name, server) :: rest, with_rewrite c rewrites r)
  end.

Definition rewrite_json_mcp_servers (config : json) (servers_path : list string)
    (base_url inbound_key agent_id : string) : json * McpRewriteResult :=
  default (config, unchanged)
    (JsonPatch.object_at_path_mut config servers_path
       (rewrite_servers (rewrite_json_entry base_url inbound_key agent_id))).

(** ** The rewrite of TOML servers *)

Section toml.
Context `{TomlFloat}.

Definition set_toml_header (s : toml_table * bool) (h : string * string) : toml_table * bool :=
  if bool_decide (tbl_get h.1 s.1 ≫= tas_str = Some h.2) then s
  else (tbl_insert h.1 (TString h.2) s.1, true).

Definition rewrite_codex_entry (base_url inbound_key agent_id name : string) (server : toml)
    : toml * bool * list (string * string) :=
  match server with
  | TTable server =>
      match tbl_get "command" server ≫= tas_str with
      | Some command =>
          if String.eqb command "kyris-mcp" then
            match tbl_get "args" server ≫= tas_array with
            | Some args =>
                let '(args, flagged) := ensure_wrap_agent_flag tas_str TString args agent_id in
                (TTable (tbl_insert "args" (TArray args) server), flagged, [])
            | None => (TTable server, false, [])
            end
          else
            let original_args := default [] (tbl_get "args" server ≫= tas_array) in
            let wrapped_args :=
              TString <$> ["wrap"; "--server"; name; "--agent"; agent_id; command] in
            (TTable (tbl_insert "args" (TArray (wrapped_args ++ original_args))
               (tbl_insert "command" (TString "kyris-mcp") server)), true, [])
      | None =>
          match tbl_get "url" server ≫= tas_str with
          | None => (TTable server, false, [])
          | Some url =>
              let routed := routed_url base_url name in
              let moved := negb (String.eqb url routed) in
              let server := if moved then tbl_insert "url" (TString routed) server else server in
              let '(headers, set) :=
                foldl set_toml_header
                  (TomlPatch.as_toml_table (default (TTable []) (tbl_get "http_headers" server)), false)
                  (kyris_headers inbound_key agent_id) in
              (TTable (tbl_insert "http_headers" (TTable headers) server), moved || set,
               if moved then [(name, url)] else [])
          end
      end
  | _ => (server, false, [])
  end.

Definition rewrite_codex_mcp_servers (config : toml) (base_url inbound_key agent_id : string)
    : toml * McpRewriteResult :=
  default (config, unchanged)
    (TomlPatch.table_at_path_mut config ["mcp_servers"]
       (rewrite_servers (rewrite_codex_entry base_url inbound_key agent_id))).
End toml.

(** ** The configuration of kyrisd *)

Record KyrisdConfig := mkConfig {
  listen : string;
  tls_enabled : bool;
  inbound_key : string;
  operator_key : string;
  mcp : McpRouting.McpConfig;
  (** Every other section, as YAML. *)
  sections : bytes }.

Definition base_url (config : KyrisdConfig) : string :=
  ((if tls_enabled config then "https" else "http") ++ "://" ++ listen config)%string.

Definition with_mcp (mcp : McpRouting.McpConfig) (config : KyrisdConfig) : KyrisdConfig :=
  mkConfig (listen config) (tls_enabled config) (inbound_key config) (operator_key config) mcp
    (sections config).

Definition with_keys (inbound operator : string) (config : KyrisdConfig) : KyrisdConfig :=
  mkConfig (listen config) (tls_enabled config) inbound operator (mcp config) (sections config).

Definition with_servers (enabled : bool) (servers : list McpRouting.McpServerConfig)
    (mcp : McpRouting.McpConfig) : McpRouting.McpConfig :=
  McpRouting.mkMcp enabled (McpRouting.pending_timeout_seconds mcp) servers.

(** The YAML crate, which leaves the keys out; the template of a first configuration;
    the secret store. *)
Class ConfigStore := {
  config_path : result string string;
  yaml_from_str : bytes -> result KyrisdConfig string;
  yaml_to_string : KyrisdConfig -> result bytes string;
  yaml_well_formed : bytes -> result unit string;
  DEFAULT_CONFIG : bytes;
  secret_get_or_create : string -> string -> result string string;
}.

(** [registry.rs]: where an agent keeps its servers. *)
Inductive McpConfigFormat :=
| JsonServers (servers_path : list string)
| TomlServers (servers_key : string).

Record McpConfigLocation := mkLocation {
  location_path : string;
  location_format : McpConfigFormat }.

Section store.
Context {T : TomlFloat} {serde : SerdeText} `{FloatEq} `{ConfigStore}.

Definition load_config : cmd KyrisdConfig :=
  p ← lift "" config_path;
  existing ← read_if_exists p;
  match existing with
  | None => throw ("Cannot read " ++ p)%string
  | Some contents => lift ("Cannot parse " ++ p ++ ": ") (yaml_from_str contents)
  end.

Definition save_config (config : KyrisdConfig) : cmd unit :=
  p ← lift "" config_path;
  contents ← lift "Cannot serialize config: " (yaml_to_string config);
  write_managed_file p contents "config" yaml_well_formed;;
  mret tt.

Definition load_or_init_config : cmd KyrisdConfig :=
  p ← lift "" config_path;
  existing ← read_if_exists p;
  config ← match existing with
           | Some _ => load_config
           | None =>
               config ← lift "Cannot create default config: " (yaml_from_str DEFAULT_CONFIG);
               save_config config;;
               mret config
           end;
  inbound ← lift "" (secret_get_or_create "inbound_key" "sk-kyris");
  operator ← lift "" (secret_get_or_create "operator_key" "sk-kyris-ops");
  mret (with_keys inbound operator config).

(** [.ok()] of what only reads. *)
Definition attempt {A} (m : cmd A) : cmd (option A) := fun d => (Ok (ok (m d).1), d).

(** ** Upstreams in [kyrisd.yaml] *)

Definition set_upstream (upstream : string) (s : McpRouting.McpServerConfig)
    : McpRouting.McpServerConfig :=
  McpRouting.mkServer (McpRouting.server_name s) upstream (McpRouting.config_dir s).

(** One round of the loop: the first entry of the name is changed, or one is added. *)
Definition upsert_one (s : list McpRouting.McpServerConfig * bool) (rewrite : string * string)
    : list McpRouting.McpServerConfig * bool :=
  match list_find (fun e => McpRouting.server_name e = rewrite.1) s.1 with
  | Some (i, entry) =>
      if String.eqb (McpRouting.upstream entry) rewrite.2 then s
      else (<[i := set_upstream rewrite.2 entry]> s.1, true)
  | None => (s.1 ++ [McpRouting.mkServer rewrite.1 rewrite.2 None], true)
  end.

Definition upsert_mcp_upstreams (rewrites : list (string * string)) : cmd bool :=
  match rewrites with
  | [] => mret false
  | _ =>
      config ← load_or_init_config;
      let '(servers, changed) := foldl upsert_one (McpRouting.servers (mcp config), false) rewrites in
      (if changed : bool
       then save_config (with_mcp (with_servers true servers (mcp config)) config) else mret tt);;
      mret changed
  end.

Definition remove_mcp_upstreams (names : list string) : cmd unit :=
  match names with
  | [] => mret tt
  | _ =>
      loaded ← attempt load_config;
      match loaded with
      | None => mret tt
      | Some config =>
          let before := McpRouting.servers (mcp config) in
          let servers :=
            List.filter (fun s => negb (bool_decide (McpRouting.server_name s ∈ names))) before in
          if Nat.eqb (length servers) (length before) then mret tt
          else
            let enabled := negb (bool_decide (servers = [])) && McpRouting.enabled (mcp config) in
            save_config (with_mcp (with_servers enabled servers (mcp config)) config)
      end
  end.

(** ** Reading the servers of an agent *)

(** The fields of a server: those of its [transport] if it is an object. *)
Definition json_mcp_fields (server : json) : json :=
  match get "transport" server with Some (JObject t) => JObject t | _ => server end.

Definition json_mcp_server_unwrapped (server : json) : bool :=
  match get "command" (json_mcp_fields server) with
  | Some (JString command) => negb (String.eqb command "kyris-mcp")
  | Some (JArray command) => negb (bool_decide ((head command ≫= as_str) = Some "kyris-mcp"))
  | _ => false
  end.

Definition toml_mcp_server_unwrapped (server : toml) : bool :=
  match tget "command" server ≫= tas_str with
  | Some command => negb (String.eqb command "kyris-mcp")
  | None => false
  end.

Definition mcp_server_names_at (json_keep : json -> bool) (toml_keep : toml -> bool)
    (location : McpConfigLocation) : cmd (list string) :=
  match location_format location with
  | JsonServers servers_path =>
      read ← attempt (read_json_value (location_path location));
      mret (default [] (val ← read; cur ← JsonPatch.value_at val servers_path; m ← as_object cur;
              Some (List.filter (fun p => json_keep p.2) m).*1))
  | TomlServers servers_key =>
      read ← attempt (read_toml_value (location_path location));
      mret (default [] (val ← read; servers ← tget servers_key val; t ← as_table servers;
              Some (List.filter (fun p => toml_keep p.2) t).*1))
  end.

Fixpoint names_of (json_keep : json -> bool) (toml_keep : toml -> bool)
    (locations : list McpConfigLocation) : cmd (list string) :=
  match locations with
  | [] => mret []
  | location :: locations =>
      names ← mcp_server_names_at json_keep toml_keep location;
      rest ← names_of json_keep toml_keep locations;
      mret (names ++ rest)
  end.

Definition mcp_server_names_matching (locations : list McpConfigLocation)
    (json_keep : json -> bool) (toml_keep : toml -> bool) : cmd (list string) :=
  names ← names_of json_keep toml_keep locations;
  mret (dedup (sort_by String.leb names)).

Definition mcp_server_names_from_agent (locations : list McpConfigLocation) : cmd (list string) :=
  mcp_server_names_matching locations (fun _ => true) (fun _ => true).

Definition unwrapped_mcp_server_names (locations : list McpConfigLocation) : cmd (list string) :=
  mcp_server_names_matching locations json_mcp_server_unwrapped toml_mcp_server_unwrapped.

Definition url_is_routed (kyrisd_mcp_prefix url : option string) : bool :=
  match url, kyrisd_mcp_prefix with
  | Some u, Some prefix => str_starts_with prefix u
  | _, _ => false
  end.

Definition json_kyris_routed (prefix : option string) (server : json) : bool :=
  let fields := json_mcp_fields server in
  negb (json_mcp_server_unwrapped server)
  && (bool_decide (is_Some (get "command" fields))
      || url_is_routed prefix (get "url" fields ≫= as_str)).

Definition toml_kyris_routed (prefix : option string) (server : toml) : bool :=
  negb (toml_mcp_server_unwrapped server)
  && (bool_decide (is_Some (tget "command" server))
      || url_is_routed prefix (tget "url" server ≫= tas_str)).

Definition kyris_routed_mcp_server_names (locations : list McpConfigLocation) : cmd (list string) :=
  config ← attempt load_config;
  let prefix := (fun c => (base_url c ++ "/mcp/")%string) <$> config in
  mcp_server_names_matching locations (json_kyris_routed prefix) (toml_kyris_routed prefix).

(** ** Tool filters: [mcp_filters.rs] *)

Section filters.
Context `{CompilePolicy.PolicyLoader} (env : CompilePolicy.Env) (o : CompilePolicy.HashOrder).
(** One traversal of a [HashMap] of filters. *)
Context (in_order : gmap string (list string) -> list (string * list string)).

Definition filters : result (gmap string (list string)) string :=
  CompilePolicy.compile_mcp_tool_filters env o None.

(** The value of [key] in the fields of one server. *)
Definition filter_json_server (servers : object * bool) (filter : string * list string)
    : object * bool :=
  match obj_get filter.1 servers.1 ≫= as_object with
  | None => servers
  | Some server =>
      let new_val := JArray (JString <$> filter.2) in
      if match obj_get "excludeTools" server with Some v => json_eqb v new_val | None => false end
      then servers
      else (obj_insert filter.1 (JObject (obj_insert "excludeTools" new_val server)) servers.1, true)
  end.

Definition apply_json_tool_filters (config : json) (servers_path : list string) : json * bool :=
  match filters with
  | Err _ => (config, false)
  | Ok filters =>
      if bool_decide (filters = ∅) then (config, false)
      else default (config, false)
             (JsonPatch.object_at_path_mut config servers_path
                (fun servers => foldl filter_json_server (servers, false) (in_order filters)))
  end.

Definition filter_toml_server (servers : toml_table * bool) (filter : string * list string)
    : toml_table * bool :=
  match tbl_get filter.1 servers.1 ≫= as_table with
  | None => servers
  | Some server =>
      let new_val := TArray (TString <$> filter.2) in
      if match tbl_get "disabled_tools" server with
         | Some v => TomlPatch.toml_eqb v new_val
         | None => false
         end
      then servers
      else (tbl_insert filter.1 (TTable (tbl_insert "disabled_tools" new_val server)) servers.1, true)
  end.

Definition apply_toml_tool_filters (config : toml) : toml * bool :=
  match filters with
  | Err _ => (config, false)
  | Ok filters =>
      if bool_decide (filters = ∅) then (config, false)
      else default (config, false)
             (TomlPatch.table_at_path_mut config ["mcp_servers"]
                (fun servers => foldl filter_toml_server (servers, false) (in_order filters)))
  end.

Definition wanted_denies (filters : list (string * list string)) (present_servers : list string)
    : list string :=
  flat_map (fun f =>
    if bool_decide (f.1 ∈ present_servers)
    then (fun tool => ("mcp__" ++ f.1 ++ "__" ++ tool)%string) <$> f.2 else []) filters.

Definition add_mcp_tool_denies (settings : json) (filters : list (string * list string))
    (present_servers : list string) : json * bool :=
  match wanted_denies filters present_servers, settings with
  | [], _ => (settings, false)
  | wanted, JObject root =>
      match entry_or "permissions" (JObject []) root with
      | JObject permissions =>
          match entry_or "deny" (JArray []) permissions with
          | JArray deny =>
              let existing := omap as_str deny in
              let new := List.filter (fun entry => negb (bool_decide (entry ∈ existing))) wanted in
              (JObject (obj_insert "permissions"
                 (JObject (obj_insert "deny" (JArray (deny ++ (JString <$> new))) permissions)) root),
               negb (bool_decide (new = [])))
          | other => (settings, false)
          end
      | other => (settings, false)
      end
  | _, _ => (settings, false)
  end.

Definition apply_claude_mcp_tool_denies (settings : json) (present_servers : list string)
    : json * bool :=
  match filters with
  | Err _ => (settings, false)
  | Ok filters => add_mcp_tool_denies settings (in_order filters) present_servers
  end.

(** ** An agent described by a document: [agents/generic.rs] *)

Record McpSource := mkSource {
  source_config : string;
  source_servers_key : list string;
  nested_scope : bool }.

Record Agent := mkAgent {
  agent_id : string;
  canonical_id : string;
  mcp_sources : option (list McpSource);
  exclude_tools : option (list string);
  agent_config_path : string -> result string string;
  config_format : string -> Configure.FileFormat }.

(** A key [*] stands for every child that has servers. *)
Definition expand_nested_mcp (p : string) (servers_key : list string) : cmd (list McpConfigLocation) :=
  match list_find (fun s => s = "*"%string) servers_key with
  | None => mret []
  | Some (star, _) =>
      let prefix := take star servers_key in
      let suffix := drop (S star) servers_key in
      read ← attempt (read_json_value p);
      mret (default []
        (config ← read; parent ← JsonPatch.value_at config prefix ≫= as_object;
         Some (omap (fun e : string * json =>
           match JsonPatch.value_at e.2 suffix ≫= as_object with
           | Some (_ :: _) => Some (mkLocation p (JsonServers (prefix ++ e.1 :: suffix)))
           | _ => None
           end) (parent : list (string * json)))))
  end.

Fixpoint source_locations (agent : Agent) (sources : list McpSource) : cmd (list McpConfigLocation) :=
  match sources with
  | [] => mret []
  | source :: sources =>
      here ← match agent_config_path agent (source_config source) with
             | Err _ => mret []
             | Ok p =>
                 if nested_scope source then expand_nested_mcp p (source_servers_key source)
                 else mret [mkLocation p
                        (match config_format agent (source_config source) with
                         | Configure.Toml => TomlServers (String.concat "." (source_servers_key source))
                         | _ => JsonServers (source_servers_key source)
                         end)]
             end;
      rest ← source_locations agent sources;
      mret (here ++ rest)
  end.

Definition location_key (l : McpConfigLocation) : string * list string :=
  (location_path l,
   match location_format l with JsonServers path => path | TomlServers key => [key] end).

Fixpoint dedup_locations (seen : list (string * list string)) (locations : list McpConfigLocation)
    : list McpConfigLocation :=
  match locations with
  | [] => []
  | l :: locations =>
      if bool_decide (location_key l ∈ seen) then dedup_locations seen locations
      else l :: dedup_locations (seen ++ [location_key l]) locations
  end.

Definition mcp_configs (agent : Agent) : cmd (list McpConfigLocation) :=
  match mcp_sources agent with
  | None => mret []
  | Some sources => locations ← source_locations agent sources; mret (dedup_locations [] locations)
  end.

Definition apply_extra_tool_filters (agent : Agent) (settings : json) : json * bool :=
  match exclude_tools agent with
  | Some key => apply_json_tool_filters settings key
  | None => (settings, false)
  end.

(** ** Setting a tool surface up *)

(** The JSON locations by file, in the order of declaration. *)
Fixpoint add_location (p : string) (servers_path : list string)
    (files : list (string * list (list string))) : list (string * list (list string)) :=
  match files with
  | [] => [(p, [servers_path])]
  | (q, paths) :: files =>
      if String.eqb q p then (q, paths ++ [servers_path]) :: files
      else (q, paths) :: add_location p servers_path files
  end.

Definition json_files (locations : list McpConfigLocation) : list (string * list (list string)) :=
  foldl (fun files l =>
    match location_format l with
    | JsonServers servers_path => add_location (location_path l) servers_path files
    | TomlServers _ => files
    end) [] locations.

(** A server's address, unless it is one of kyrisd's. *)
Definition unrouted_url (routed_prefix : string) (server : json) : option string :=
  url ← get "url" (json_mcp_fields server) ≫= as_str;
  if str_starts_with routed_prefix url then None else Some url.

Definition conflict (agent name existing url : string) : string :=
  "MCP server '" ++ name ++ "' appears in multiple " ++ agent
  ++ " config scopes with different upstream URLs (" ++ existing ++ " vs " ++ url
  ++ "); kyrisd routes by server name, so one scope would silently reach the other's upstream."
  ++ " Rename one of the servers, then re-run `kyris agent setup " ++ agent ++ "`.".

Definition check_server (agent routed_prefix : string) (upstreams : gmap string string)
    (e : string * json) : result (gmap string string) string :=
  match unrouted_url routed_prefix e.2 with
  | None => Ok upstreams
  | Some url =>
      match upstreams !! e.1 with
      | Some existing =>
          if String.eqb existing url then Ok upstreams else Err (conflict agent e.1 existing url)
      | None => Ok (<[e.1 := url]> upstreams)
      end
  end.

Fixpoint check_servers (agent routed_prefix : string) (upstreams : gmap string string)
    (servers : object) : result (gmap string string) string :=
  match servers with
  | [] => Ok upstreams
  | e :: servers =>
      match check_server agent routed_prefix upstreams e with
      | Ok upstreams => check_servers agent routed_prefix upstreams servers
      | Err w => Err w
      end
  end.

Definition servers_at (value : json) (servers_path : list string) : object :=
  default [] (JsonPatch.value_at value servers_path ≫= as_object).

Fixpoint check_files (agent routed_prefix : string) (upstreams : gmap string string)
    (files : list (string * list (list string))) : cmd unit :=
  match files with
  | [] => mret tt
  | (p, server_paths) :: files =>
      read ← attempt (read_json_value p);
      upstreams ← match read with
                  | None => mret upstreams
                  | Some value =>
                      lift "" (check_servers agent routed_prefix upstreams
                                 (flat_map (servers_at value) server_paths))
                  end;
      check_files agent routed_prefix upstreams files
  end.

Definition reject_conflicting_http_upstreams (agent : string)
    (files : list (string * list (list string))) (base_url : string) : cmd unit :=
  check_files agent (base_url ++ "/mcp/")%string ∅ files.

(** The rewrites of one file, one location after the other. *)
Definition rewrite_scopes (base_url inbound_key agent_id : string) (settings : json)
    (server_paths : list (list string)) : json * McpRewriteResult :=
  foldl (fun s servers_path =>
    let '(settings, r) := rewrite_json_mcp_servers s.1 servers_path base_url inbound_key agent_id in
    (settings, mkRewrite (changed s.2 || changed r) (http_rewrites s.2 ++ http_rewrites r)))
    (settings, unchanged) server_paths.

Definition rewrite_file (agent : Agent) (base_url inbound_key component p : string)
    (server_paths : list (list string)) : cmd (list string * list (string * string)) :=
  settings ← read_json_value p;
  let '(settings, r) :=
    rewrite_scopes base_url inbound_key (canonical_id agent) settings server_paths in
  let '(settings, extra_changed) := apply_extra_tool_filters agent settings in
  (if changed r || extra_changed
   then write_json_value p settings component;; mret tt else mret tt);;
  mret ((if changed r then [("rewrote MCP servers in " ++ p)%string] else [])
        ++ (if extra_changed : bool then [("applied MCP tool policy in " ++ p)%string] else []),
        http_rewrites r).

Fixpoint rewrite_files (agent : Agent) (base_url inbound_key component : string)
    (files : list (string * list (list string))) : cmd (list string * list (string * string)) :=
  match files with
  | [] => mret ([], [])
  | (p, server_paths) :: files =>
      '(changes, rewrites) ← rewrite_file agent base_url inbound_key component p server_paths;
      '(changes', rewrites') ← rewrite_files agent base_url inbound_key component files;
      mret (changes ++ changes', rewrites ++ rewrites')
  end.

Definition configure_json_mcp_tool_surface (agent : Agent) (base_url inbound_key : string)
    : cmd (list string) :=
  locations ← mcp_configs agent;
  let files := json_files locations in
  reject_conflicting_http_upstreams (agent_id agent) files base_url;;
  '(changes, rewrites) ←
    rewrite_files agent base_url inbound_key (agent_id agent ++ ":tool")%string files;
  match rewrites with
  | [] => mret changes
  | _ =>
      upsert_mcp_upstreams rewrites;;
      mret (changes ++ ["registered MCP upstream(s) in kyrisd.yaml"%string])
  end.

(** What it prints. *)
Definition undo_json_mcp_tool_surface (agent : Agent) : cmd (list string) :=
  locations ← mcp_configs agent;
  mcp_names ← mcp_server_names_from_agent locations;
  remove_mcp_upstreams mcp_names;;
  restored ← restore_manifest_component (agent_id agent ++ ":tool")%string;
  mret ((fun p => ("Reverted " ++ p)%string) <$> restored).
End filters.
End store.

(** ** What a wrapped server runs *)

Definition strings (l : list json) : option (list string) := mapM as_str l.

(** The command line an agent starts a server with. *)
Definition launch (fields : object) : option (list string) :=
  match obj_get "command" fields with
  | Some (JString command) =>
      args ← strings (default [] (obj_get "args" fields ≫= as_array)); Some (command :: args)
  | Some (JArray command) => strings command
  | _ => None
  end.

Definition json_launch (server : json) : option (list string) :=
  as_object (json_mcp_fields server) ≫= launch.

(** The program behind [kyris-mcp]. *)
Definition behind_wrap (argv : list string) : list string :=
  match argv with
  | program :: args =>
      if String.eqb program "kyris-mcp" then
        match parse_wrap args with Some w => wrap_cmd w :: wrap_args w | None => [] end
      else argv
  | [] => []
  end.

(** The server and the agent that [kyris-mcp] is told of: the ones of the entry, except that
    an earlier wrap keeps its server, and its agent if it names one. *)
Definition stamped (name id : string) (argv : list string) : string * string :=
  match argv with
  | program :: args =>
      if String.eqb program "kyris-mcp" then
        match parse_wrap args with
        | Some w => (wrap_server w, default id (wrap_agent w))
        | None => (name, id)
        end
      else (name, id)
  | [] => (name, id)
  end.

(** A server that is started through [kyris-mcp], which reads [w] off its command line. *)
Definition started_as {V} (launch : V -> option (list string)) (server : V) (w : Wrap) : Prop :=
  exists wrap, launch server = Some ("kyris-mcp" :: wrap) /\ parse_wrap wrap = Some w.

Definition no_flag (command : string) : Prop := command <> "--server" /\ command <> "--agent".

Lemma strings_fmap l : strings (JString <$> l) = Some l.
Proof.
  unfold strings. induction l as [|s l IH]; [done|]. cbn [fmap list_fmap mapM as_str]. simpl.
  by rewrite IH.
Qed.

Lemma strings_fmap_inv l args : strings l = Some args -> l = JString <$> args.
Proof.
  unfold strings. intros Hl%mapM_Some. induction Hl as [|v s l args Hv _ IH]; [done|].
  destruct v; simplify_eq/=. by f_equal.
Qed.

Lemma parse_flags_command server agent command args :
  no_flag command ->
  parse_flags server agent (command :: args) = Some (mkWrap (default "unknown" server) agent command args).
Proof.
  intros [Hs Ha]. destruct args as [|v args]; [done|]. cbn [parse_flags].
  apply String.eqb_neq in Hs, Ha. by rewrite Hs, Ha.
Qed.

Lemma parse_wrap_new name agent command args :
  no_flag command ->
  parse_wrap ("wrap" :: "--server" :: name :: "--agent" :: agent :: command :: args) =
    Some (mkWrap name (Some agent) command args).
Proof.
  intros Hc. change (parse_flags (Some name) (Some agent) (command :: args)
    = Some (mkWrap name (Some agent) command args)).
  by rewrite parse_flags_command.
Qed.

Lemma parse_wrap_inv args w :
  parse_wrap args = Some w -> exists rest, args = "wrap" :: rest /\ parse_flags None None rest = Some w.
Proof.
  unfold parse_wrap. intros Hp. destruct args as [|a [|x [|y rest]]]; try done.
  destruct (String.eqb_spec a "wrap") as [->|]; [eauto|done].
Qed.

Lemma parse_flags_agent server id args w :
  parse_flags server (Some id) args = Some w -> is_Some (wrap_agent w).
Proof.
  revert server id. induction args as [args IH] using (induction_ltof1 _ length).
  intros server id Hp. destruct args as [|a [|v rest]]; simplify_eq/=; [by eexists|].
  unfold ltof in IH. cbn [length] in IH.
  repeat case_match; simplify_eq/=; [eapply (IH rest); [lia|done]..|by eexists].
Qed.

(** The flag is put where the loop of [kyris-mcp] still reads flags. *)
Lemma split_flags_parse id args flags tail server agent w :
  split_flags Some args = Some (flags, tail) -> parse_flags server agent args = Some w ->
  wrap_cmd w <> "--server" ->
  parse_flags server agent (flags ++ ["--agent"; id] ++ tail) =
    Some (mkWrap (wrap_server w) (Some id) (wrap_cmd w) (wrap_args w)).
Proof.
  revert flags tail server. induction args as [args IH] using (induction_ltof1 _ length).
  intros flags tail server Hs Hp Hw. destruct args as [|a rest]; [done|].
  cbn [split_flags] in Hs. unfold says in Hs.
  destruct (bool_decide_reflect (Some a = Some "--agent")) as [|Ha]; [done|].
  destruct (bool_decide_reflect (Some a = Some "--server")) as [[= ->]|Hsrv].
  - destruct rest as [|v rest]; [simplify_eq/=; done|].
    destruct (split_flags Some rest) as [[flags' tail']|] eqn:E; simplify_eq/=.
    apply (IH rest); [unfold ltof; simpl; lia|done..].
  - assert (no_flag a) as Hf by (split; congruence). simplify_eq.
    rewrite parse_flags_command in Hp by done. simplify_eq. cbn [app].
    change (parse_flags server (Some id) (a :: rest) = Some (mkWrap (default "unknown" server) (Some id) a rest)).
    by rewrite parse_flags_command.
Qed.

Lemma split_flags_agent args server agent w :
  split_flags Some args = None -> parse_flags server agent args = Some w ->
  wrap_cmd w <> "--agent" -> is_Some (wrap_agent w).
Proof.
  revert server. induction args as [args IH] using (induction_ltof1 _ length).
  intros server Hs Hp Hw. destruct args as [|a rest]; [done|]. cbn [split_flags] in Hs. unfold says in Hs.
  destruct (bool_decide_reflect (Some a = Some "--agent")) as [[= ->]|Ha].
  - destruct rest as [|v rest]; [simplify_eq/=; done|]. eapply parse_flags_agent, Hp.
  - destruct (bool_decide_reflect (Some a = Some "--server")) as [[= ->]|]; [|done].
    destruct rest as [|v rest]; [done|].
    destruct (split_flags Some rest) as [[]|] eqn:E; [done|].
    eapply (IH rest); [unfold ltof; simpl; lia|done|exact Hp|done].
Qed.

(** Argument lists of any value type behave as lists of strings. *)
Section values.
Context {V : Type} (to_str : V -> option string) (from_str : string -> V).
Context (to_from : forall s, to_str (from_str s) = Some s).

Lemma says_from s t : says to_str s (from_str t) = says Some s t.
Proof using to_from. unfold says. by rewrite to_from. Qed.

Lemma split_flags_from (args : list string) :
  split_flags to_str (from_str <$> args) =
    (fun p : list string * list string => (from_str <$> p.1, from_str <$> p.2)) <$> split_flags Some args.
Proof using to_from.
  induction args as [args IH] using (induction_ltof1 _ length). destruct args as [|a rest]; [done|].
  rewrite fmap_cons. cbn [split_flags]. rewrite !says_from. case_match; [done|]. case_match; [|done].
  destruct rest as [|v rest]; [done|]. rewrite fmap_cons, (IH rest) by (unfold ltof; simpl; lia).
  by destruct (split_flags Some rest) as [[]|].
Qed.

Lemma ensure_flag_from (args : list string) id :
  ensure_wrap_agent_flag to_str from_str (from_str <$> args) id =
    (from_str <$> (ensure_wrap_agent_flag Some (fun s => s) args id).1,
     (ensure_wrap_agent_flag Some (fun s => s) args id).2).
Proof using to_from.
  unfold ensure_wrap_agent_flag. destruct args as [|a rest].
  { simpl. done. }
  change (from_str <$> a :: rest) with (from_str a :: (from_str <$> rest)).
  cbv beta iota. rewrite says_from. destruct (says Some "wrap" a).
  - rewrite split_flags_from. destruct (split_flags Some rest) as [[f t]|]; [|done].
    cbn. by rewrite !fmap_app.
  - change (from_str a :: (from_str <$> rest)) with (from_str <$> a :: rest).
    rewrite split_flags_from. destruct (split_flags Some (a :: rest)) as [[f t]|]; [|done].
    cbn. by rewrite !fmap_app.
Qed.
End values.

Lemma split_flags_length args flags tail :
  split_flags Some args = Some (flags, tail) -> length args <= length (flags ++ tail).
Proof.
  revert flags. induction args as [args IH] using (induction_ltof1 _ length).
  intros flags Hs. destruct args as [|a rest]; [simplify_eq/=; lia|].
  cbn [split_flags] in Hs. case_match; [done|]. case_match; [|by simplify_eq].
  destruct rest as [|v rest]; [by simplify_eq/=|].
  destruct (split_flags Some rest) as [[flags' tail']|] eqn:E; simplify_eq/=.
  apply IH in E; [lia|unfold ltof; simpl; lia].
Qed.

Lemma split_flags_no_agent args flags tail server w :
  split_flags Some args = Some (flags, tail) -> parse_flags server None args = Some w ->
  wrap_cmd w <> "--server" -> wrap_agent w = None.
Proof.
  revert flags tail server. induction args as [args IH] using (induction_ltof1 _ length).
  intros flags tail server Hs Hp Hw. destruct args as [|a rest]; [done|].
  cbn [split_flags] in Hs. unfold says in Hs.
  destruct (bool_decide_reflect (Some a = Some "--agent")) as [|Ha]; [done|].
  destruct (bool_decide_reflect (Some a = Some "--server")) as [[= ->]|Hsrv].
  - destruct rest as [|v rest]; [by simplify_eq/=|].
    destruct (split_flags Some rest) as [[flags' tail']|] eqn:E; simplify_eq/=.
    eapply (IH rest); [unfold ltof; simpl; lia|done|exact Hp|done].
  - rewrite parse_flags_command in Hp by (split; congruence). by simplify_eq.
Qed.

(** Stamping a wrap with the agent keeps what it runs, and the agent it has. *)
Lemma ensure_flag_parse args id w :
  parse_wrap args = Some w -> no_flag (wrap_cmd w) ->
  parse_wrap (ensure_wrap_agent_flag Some (fun s => s) args id).1 =
    Some (mkWrap (wrap_server w) (Some (default id (wrap_agent w))) (wrap_cmd w) (wrap_args w)).
Proof.
  intros Hp [Hs Ha]. destruct (parse_wrap_inv _ _ Hp) as (rest & -> & Hf).
  unfold ensure_wrap_agent_flag. change (says Some "wrap" "wrap") with true. cbv iota beta.
  destruct (split_flags Some rest) as [[flags tail]|] eqn:E.
  - rewrite (split_flags_no_agent _ _ _ _ _ E Hf Hs). cbn [fst default].
    pose proof (split_flags_length _ _ _ E) as Hl.
    pose proof (split_flags_parse id _ _ _ _ _ _ E Hf Hs) as Hr.
    rewrite length_app in Hl.
    destruct (flags ++ ["--agent"; id] ++ tail) as [|x [|y l]] eqn:El;
      apply (f_equal length) in El; rewrite !length_app in El; simpl in El; [lia..|].
    change ((["wrap"] : list string) ++ x :: y :: l) with ("wrap" :: x :: y :: l).
    exact Hr.
  - destruct (split_flags_agent _ _ _ _ E Hf Ha) as [agent Hagent]. rewrite Hagent. cbn [fst].
    rewrite Hp. destruct w. by simplify_eq/=.
Qed.

(** ** One server at a time *)

(** The fields an entry is rewritten in. *)
Definition entry_fields (server : json) : option object := as_object (json_mcp_fields server).

Lemma json_mcp_fields_object server :
  json_mcp_fields server = match entry_fields server with Some m => JObject m | None => server end.
Proof.
  unfold entry_fields, json_mcp_fields.
  destruct (get "transport" server) as [[]|]; by destruct server.
Qed.

Lemma set_header_foldl_get hs s k :
  k ∉ hs.*1 -> obj_get k (foldl set_header s hs).1 = obj_get k s.1.
Proof.
  revert s. induction hs as [|[h v] hs IH]; intros s Hk; simpl; [done|].
  cbn [fmap list_fmap fst] in Hk. apply not_elem_of_cons in Hk as [Hne Hk]. rewrite IH by done.
  unfold set_header. case_bool_decide; [done|]. cbn [fst snd].
  rewrite obj_get_insert. by destruct (String.eqb_spec k h).
Qed.

(** Only these fields of a server change. *)
Lemma rewrite_json_server_other base key id name m k :
  k ∉ ["args"; "command"; "url"; "headers"] ->
  obj_get k (rewrite_json_server base key id name m).1.1 = obj_get k m.
Proof.
  intros Hk. assert (String.eqb k "args" = false /\ String.eqb k "command" = false /\
    String.eqb k "url" = false /\ String.eqb k "headers" = false) as (Ha & Hc & Hu & Hh)
    by (rewrite !String.eqb_neq; set_solver).
  unfold rewrite_json_server. repeat (case_match; simplify_eq/=); rewrite ?obj_get_insert, ?Ha, ?Hc, ?Hu, ?Hh; done.
Qed.

Lemma rewrite_json_entry_fields base key id name server m :
  entry_fields server = Some m ->
  let r := rewrite_json_server base key id name m in
  (rewrite_json_entry base key id name server).1.2 = r.1.2 /\
  (rewrite_json_entry base key id name server).2 = r.2 /\
  entry_fields (rewrite_json_entry base key id name server).1.1 = Some r.1.1.
Proof.
  intros Hm. pose proof (rewrite_json_server_other base key id name m "transport") as Ht.
  destruct server as [| | | | | |top]; try done. unfold entry_fields, json_mcp_fields in Hm.
  unfold rewrite_json_entry. cbn [get] in Hm.
  destruct (obj_get "transport" top) as [[| | | | | |t]|] eqn:E; simplify_eq/=;
    destruct (rewrite_json_server base key id name m) as [[m' c] rs]; split_and!; try done;
    unfold entry_fields, json_mcp_fields; cbn [get fst];
    try (rewrite obj_get_insert; done); cbn [fst] in Ht; rewrite Ht, E by set_solver; done.
Qed.

Lemma launch_command m c l args :
  obj_get "command" m = Some (JString c) -> obj_get "args" m = Some (JArray l) ->
  strings l = Some args -> launch m = Some (c :: args).
Proof. unfold launch. intros -> -> Hl. simpl. by rewrite Hl. Qed.

Lemma launch_list m l : obj_get "command" m = Some (JArray l) -> launch m = strings l.
Proof. unfold launch. by intros ->. Qed.

Lemma strings_app l l' a b :
  strings l = Some a -> strings l' = Some b -> strings (l ++ l') = Some (a ++ b).
Proof.
  intros ->%strings_fmap_inv ->%strings_fmap_inv. by rewrite <- fmap_app, strings_fmap.
Qed.

Lemma json_server_runs_original base key id name server argv command args :
  json_launch server = Some argv -> behind_wrap argv = command :: args -> no_flag command ->
  started_as json_launch (rewrite_json_entry base key id name server).1.1
    (mkWrap (stamped name id argv).1 (Some (stamped name id argv).2) command args).
Proof.
  intros Hl Hb Hc. apply bind_Some in Hl as (m & Hm & Hl).
  destruct (rewrite_json_entry_fields base key id name server m Hm) as (_ & _ & Hm').
  unfold started_as, json_launch. unfold entry_fields in Hm'. rewrite Hm'. cbn [mbind option_bind].
  unfold rewrite_json_server. unfold launch in Hl.
  destruct (obj_get "command" m) as [[| | | |c|l|]|] eqn:Ec; try done; cbn [mbind option_bind as_str].
  - apply bind_Some in Hl as (a & Ha & [= <-]). cbn [behind_wrap] in Hb; cbn [stamped].
    destruct (String.eqb_spec c "kyris-mcp") as [->|Hne].
    + destruct (obj_get "args" m ≫= as_array) as [l|] eqn:El; simpl in Ha;
        [|change (Some ([] : list string) = Some a) in Ha; by simplify_eq].
      apply strings_fmap_inv in Ha as ->. rewrite (ensure_flag_from as_str JString) by done.
      destruct (parse_wrap a) as [w|] eqn:Ew; [|done]. injection Hb as <- <-.
      eexists. split; [|exact (ensure_flag_parse a id w Ew Hc)].
      eapply launch_command; [| |apply strings_fmap]; cbn [fst]; rewrite obj_get_insert; done.
    + injection Hb as -> ->. eexists. split; [|by apply parse_wrap_new].
      eapply launch_command; cbn [fst]; [by rewrite !obj_get_insert..|].
      apply (strings_app (JString <$> ["wrap"; "--server"; name; "--agent"; id; command])
        _ ["wrap"; "--server"; name; "--agent"; id; command] args); [apply strings_fmap|done].
  - apply strings_fmap_inv in Hl as ->. destruct argv as [|c a]; [done|].
    cbn [fmap list_fmap head tail mbind option_bind as_array as_str default].
    cbn [behind_wrap] in Hb; cbn [stamped]. change (Datatypes.id c) with c.
    destruct (String.eqb_spec c "kyris-mcp") as [->|Hne].
    + change (list_fmap string json JString a) with (JString <$> a).
      rewrite (ensure_flag_from as_str JString) by done.
      destruct (parse_wrap a) as [w|] eqn:Ew; [|done]. injection Hb as <- <-.
      eexists. split; [|exact (ensure_flag_parse a id w Ew Hc)].
      erewrite launch_list by (cbn [fst]; by rewrite obj_get_insert).
      apply (strings_app [JString "kyris-mcp"] _ ["kyris-mcp"%string]); [done|apply strings_fmap].
    + injection Hb as -> ->. eexists.
      split; [|by apply (parse_wrap_new name id)].
      erewrite launch_list by (cbn [fst]; by rewrite obj_get_insert).
      exact (strings_fmap
        ("kyris-mcp" :: "wrap" :: "--server" :: name :: "--agent" :: id :: command :: args)%string).
Qed.

(** ** All the servers *)

Lemma rewrite_servers_spec {V} (f : string -> V -> V * bool * list (string * string)) l :
  rewrite_servers f l =
    ((fun e => (e.1, (f e.1 e.2).1.1)) <$> l,
     mkRewrite (existsb (fun e => (f e.1 e.2).1.2) l) (flat_map (fun e => (f e.1 e.2).2) l)).
Proof.
  induction l as [|[name v] l IH]; [done|]. cbn [rewrite_servers fmap list_fmap fst snd].
  rewrite IH. cbn [existsb flat_map fst snd]. by destruct (f name v) as [[v' c] rs].
Qed.

Lemma object_at_path_mut_spec {A} root path (f : object -> object * A) m :
  JsonPatch.value_at root path = Some (JObject m) ->
  exists root', JsonPatch.object_at_path_mut root path f = Some (root', (f m).2) /\
    JsonPatch.value_at root' path = Some (JObject (f m).1) /\
    forall p, JsonPatch.incomparable path p -> JsonPatch.value_at root' p = JsonPatch.value_at root p.
Proof.
  revert root. induction path as [|seg path IH]; intros root Hv.
  - cbn [JsonPatch.value_at] in Hv. simplify_eq. cbn [JsonPatch.object_at_path_mut as_object mbind option_bind].
    destruct (f m) as [m' a]. eexists. split_and!; [done..|].
    intros p [Hp _]. destruct Hp. by apply prefix_nil.
  - cbn [JsonPatch.value_at] in Hv. destruct root as [| | | | | |top]; try done.
    cbn [as_object mbind option_bind] in Hv. apply bind_Some in Hv as (child & Hc & Hv).
    destruct (IH _ Hv) as (child' & Hm & Hv' & Hframe).
    cbn [JsonPatch.object_at_path_mut as_object mbind option_bind]. rewrite Hc. simpl. rewrite Hm. simpl.
    eexists. split_and!; [done| |].
    + cbn [as_object mbind option_bind]. by rewrite obj_get_insert, String.eqb_refl.
    + intros [|key p] Hp; [by destruct Hp as [_ []]; apply prefix_nil|].
      cbn [JsonPatch.value_at as_object mbind option_bind]. rewrite obj_get_insert.
      destruct (String.eqb_spec key seg) as [->|]; [|done]. rewrite Hc. simpl. apply Hframe.
      destruct Hp as [H1 H2]. split; [contradict H1|contradict H2]; by apply prefix_cons.
Qed.

(** The address of a server that is reached by HTTP. *)
Definition fields_url (m : object) : option string :=
  match obj_get "command" m with
  | Some (JString _) | Some (JArray _) => None
  | _ => obj_get "url" m ≫= as_str
  end.

Definition http_url (server : json) : option string := entry_fields server ≫= fields_url.

(** Started or reached at all. *)
Definition has_transport (server : json) : bool :=
  match entry_fields server with
  | Some m =>
      match obj_get "command" m with
      | Some (JString _) | Some (JArray _) => true
      | _ => bool_decide (is_Some (fields_url m))
      end
  | None => false
  end.

Lemma set_header_foldl hs s h v :
  NoDup hs.*1 -> (h, v) ∈ hs -> obj_get h (foldl set_header s hs).1 ≫= as_str = Some v.
Proof.
  revert s. induction hs as [|[h0 v0] hs IH]; intros s Hnd Hin; [by apply not_elem_of_nil in Hin|].
  cbn [fmap list_fmap fst] in Hnd. apply NoDup_cons in Hnd as [Hh Hnd]. cbn [foldl].
  apply elem_of_cons in Hin as [[= -> ->]|Hin]; [|by apply IH].
  rewrite set_header_foldl_get by done. unfold set_header. case_bool_decide as Hb; [done|].
  cbn [fst snd]. by rewrite obj_get_insert, String.eqb_refl.
Qed.

Lemma kyris_headers_NoDup key id : NoDup (kyris_headers key id).*1.
Proof. apply (bool_decide_unpack _). vm_compute. exact I. Qed.

(** The headers of a server. *)
Definition server_headers (m : object) : object := as_json_object (entry_or "headers" (JObject []) m).

Lemma rewrite_json_server_http base key id name m url :
  fields_url m = Some url ->
  let m' := (rewrite_json_server base key id name m).1.1 in
  obj_get "command" m' = obj_get "command" m /\
  obj_get "url" m' = Some (JString (routed_url base name)) /\
  (forall h v, (h, v) ∈ kyris_headers key id -> obj_get h (server_headers m') ≫= as_str = Some v) /\
  (rewrite_json_server base key id name m).2 =
    if String.eqb url (routed_url base name) then [] else [(name, url)].
Proof.
  intros Hu. unfold fields_url in Hu. unfold rewrite_json_server.
  assert (obj_get "command" m ≫= as_str = None /\ obj_get "command" m ≫= as_array = None /\
    obj_get "url" m ≫= as_str = Some url) as (-> & -> & Hurl)
    by (destruct (obj_get "command" m) as [[]|]; simpl in *; naive_solver).
  rewrite Hurl. cbv zeta.
  set (m1 := if negb _ then _ else _).
  pose proof (fun h v => set_header_foldl (kyris_headers key id) (server_headers m1, false) h v
    (kyris_headers_NoDup key id)) as Hh. unfold server_headers at 1 in Hh.
  destruct (foldl set_header _ _) as [headers set]. cbn [fst snd] in Hh |- *.
  assert (forall k, k <> "url"%string -> obj_get k m1 = obj_get k m) as Hm1.
  { intros k Hk. unfold m1. destruct (negb _); [|done]. rewrite obj_get_insert.
    by destruct (String.eqb_spec k "url"). }
  split_and!.
  - rewrite obj_get_insert. cbn [String.eqb Ascii.eqb Bool.eqb]. by apply Hm1.
  - rewrite obj_get_insert. cbn [String.eqb Ascii.eqb Bool.eqb]. unfold m1.
    destruct (String.eqb_spec url (routed_url base name)) as [->|]; cbn [negb].
    + destruct (obj_get "url" m) as [[]|]; by simplify_eq/=.
    + by rewrite obj_get_insert.
  - intros h v Hin. unfold server_headers, entry_or. rewrite obj_get_insert.
    cbn [String.eqb Ascii.eqb Bool.eqb]. by apply Hh.
  - by destruct (String.eqb url _).
Qed.

(** A server that is started is wrapped afterwards. *)
Lemma rewrite_json_server_started base key id name m :
  match obj_get "command" m with Some (JString _) | Some (JArray _) => true | _ => false end = true ->
  (rewrite_json_server base key id name m).2 = [] /\
  match obj_get "command" (rewrite_json_server base key id name m).1.1 with
  | Some (JString c) => c = "kyris-mcp"%string
  | Some (JArray l) => head l ≫= as_str = Some "kyris-mcp"%string
  | _ => False
  end.
Proof.
  unfold rewrite_json_server.
  destruct (obj_get "command" m) as [[| | | |c|l|]|] eqn:Ec; try done; intros _;
    cbn [mbind option_bind as_str as_array]; unfold default, from_option, Datatypes.id.
  - destruct (String.eqb_spec c "kyris-mcp") as [->|].
    + destruct (obj_get "args" m ≫= as_array) as [args|];
        [destruct (ensure_wrap_agent_flag _ _ _ _) as [args' b]|]; cbn [fst snd];
        rewrite ?obj_get_insert; cbn [String.eqb Ascii.eqb Bool.eqb]; by rewrite Ec.
    + cbn [fst snd]. by rewrite !obj_get_insert.
  - destruct l as [|[| | | |c| |] l]; cbn [head tail mbind option_bind as_str];
      try (cbn [String.eqb fst snd]; rewrite obj_get_insert; done).
    destruct (String.eqb_spec c "kyris-mcp") as [->|];
      [destruct (ensure_wrap_agent_flag _ _ _ _) as [args' b]|]; cbn [fst snd];
      by rewrite obj_get_insert.
Qed.

Lemma has_transport_cases server m :
  entry_fields server = Some m -> has_transport server = true ->
  match obj_get "command" m with Some (JString _) | Some (JArray _) => true | _ => false end = true \/
  (match obj_get "command" m with Some (JString _) | Some (JArray _) => true | _ => false end = false /\
   exists url, fields_url m = Some url).
Proof.
  unfold has_transport. intros ->. unfold fields_url.
  destruct (obj_get "command" m) as [[]|]; eauto; intros [url Hu]%bool_decide_eq_true; eauto.
Qed.

Lemma json_get_fields k server m :
  entry_fields server = Some m -> get k (json_mcp_fields server) = obj_get k m.
Proof. intros Hm. by rewrite json_mcp_fields_object, Hm. Qed.

Lemma routed_url_prefix base name : str_starts_with (base ++ "/mcp/") (routed_url base name) = true.
Proof.
  unfold routed_url, str_starts_with. rewrite !lit_app, app_assoc. apply starts_with_app.
Qed.

(** What setup makes of one entry. *)
Definition governed (base key id name : string) (before after : json) : Prop :=
  json_mcp_server_unwrapped after = false /\
  (has_transport before = true ->
   has_transport after = true /\ json_kyris_routed (Some (base ++ "/mcp/")%string) after = true) /\
  (forall url, http_url before = Some url ->
   http_url after = Some (routed_url base name) /\
   exists m, entry_fields after = Some m /\
     forall h v, (h, v) ∈ kyris_headers key id -> obj_get h (server_headers m) ≫= as_str = Some v).

Lemma entry_fields_None server :
  entry_fields server = None -> forall k, get k server = None /\ get k (json_mcp_fields server) = None.
Proof.
  unfold entry_fields, json_mcp_fields. destruct server as [| | | | | |m]; try done. cbn [get].
  by destruct (obj_get "transport" m) as [[]|].
Qed.

Lemma rewrite_json_entry_governed base key id name server :
  governed base key id name server (rewrite_json_entry base key id name server).1.1.
Proof.
  unfold governed, json_kyris_routed, json_mcp_server_unwrapped, http_url.
  destruct (entry_fields server) as [m|] eqn:Em.
  2:{ assert ((rewrite_json_entry base key id name server).1.1 = server) as ->
        by (by destruct server; try done; unfold entry_fields, json_mcp_fields in Em;
            cbn [get] in Em; destruct (obj_get "transport" m) as [[]|]).
      destruct (entry_fields_None _ Em "command") as [_ ->]. unfold has_transport. by rewrite Em. }
  destruct (rewrite_json_entry_fields base key id name server m Em) as (_ & _ & Em').
  set (after := (rewrite_json_entry base key id name server).1.1) in *.
  set (m' := (rewrite_json_server base key id name m).1.1) in *.
  rewrite !(json_get_fields _ after m' Em').
  assert (has_transport after = match obj_get "command" m' with
      | Some (JString _) | Some (JArray _) => true | _ => bool_decide (is_Some (fields_url m')) end) as Ht'
    by (unfold has_transport; by rewrite Em').
  destruct (match obj_get "command" m with Some (JString _) | Some (JArray _) => true | _ => false end)
    eqn:Hstarted.
  - destruct (rewrite_json_server_started base key id name m Hstarted) as [_ Hw]. fold m' in Hw.
    assert (fields_url m = None) as Hu
      by (unfold fields_url; by destruct (obj_get "command" m) as [[]|]).
    cbn [mbind option_bind]. rewrite Hu, Ht'.
    destruct (obj_get "command" m') as [[| | | |c|l|]|]; try done.
    + subst c. done.
    + rewrite Hw. done.
  - destruct (fields_url m) as [url|] eqn:Hu.
    + destruct (rewrite_json_server_http base key id name m url Hu) as (Hc & Hurl & Hh & _).
      fold m' in Hc, Hurl, Hh.
      assert (fields_url m' = Some (routed_url base name)) as Hu'.
      { unfold fields_url. rewrite Hc, Hurl. by destruct (obj_get "command" m) as [[]|]. }
      rewrite Ht', Hc, Hurl, Em'. cbn [mbind option_bind as_str url_is_routed]. rewrite Hu', Hu.
      rewrite routed_url_prefix, orb_true_r, andb_true_r.
      assert (match obj_get "command" m with
        | Some (JString command) => negb (command =? "kyris-mcp")
        | Some (JArray command) => negb (bool_decide (head command ≫= as_str = Some "kyris-mcp"))
        | _ => false end = false) as ->
        by (by destruct (obj_get "command" m) as [[]|]).
      split; [done|]. split.
      * intros _. split; [|done]. destruct (obj_get "command" m) as [[]|]; try done; by apply bool_decide_eq_true_2.
      * intros u [= <-]. split; [done|]. exists m'. split; [done|]. exact Hh.
    + assert (m' = m) as ->.
      { unfold m', rewrite_json_server. unfold fields_url in Hu.
        destruct (obj_get "command" m) as [[]|]; try done; cbn [mbind option_bind as_str as_array]; by rewrite Hu. }
      cbn [mbind option_bind]. rewrite Hu. unfold has_transport. rewrite Em, Hu.
      by destruct (obj_get "command" m) as [[]|].
Qed.

Lemma rewrite_json_entry_rewrites base key id name server :
  (rewrite_json_entry base key id name server).2 =
    match http_url server with
    | Some url => if String.eqb url (routed_url base name) then [] else [(name, url)]
    | None => []
    end.
Proof.
  unfold http_url. destruct (entry_fields server) as [m|] eqn:Em; cbn [mbind option_bind].
  2:{ destruct server as [| | | | | |top]; try done. unfold entry_fields, json_mcp_fields in Em.
      cbn [get] in Em. by destruct (obj_get "transport" top) as [[]|]. }
  destruct (rewrite_json_entry_fields base key id name server m Em) as (_ & -> & _).
  destruct (fields_url m) as [url|] eqn:Hu; [by apply rewrite_json_server_http|].
  unfold fields_url in Hu. unfold rewrite_json_server.
  destruct (obj_get "command" m) as [[]|] eqn:Ec;
    try (by apply rewrite_json_server_started; rewrite Ec);
    cbn [mbind option_bind as_str as_array]; try (by rewrite Hu).
  - destruct (rewrite_json_server_started base key id name m) as [Hr _]; [by rewrite Ec|].
    unfold rewrite_json_server in Hr. by rewrite Ec in Hr.
  - destruct (rewrite_json_server_started base key id name m) as [Hr _]; [by rewrite Ec|].
    unfold rewrite_json_server in Hr. by rewrite Ec in Hr.
Qed.

(** C21. Setup governs every server of the configuration and touches nothing else: no server
    is started unwrapped any more, every server that can be started or reached is recognised
    as routed, one reached by HTTP now has kyrisd's address and carries the inbound key and
    the agent, and the addresses it had are reported; the values at all other paths stay. *)
Theorem setup_governs_servers base key id config path servers :
  JsonPatch.value_at config path = Some (JObject servers) ->
  let r := rewrite_json_mcp_servers config path base key id in
  (exists servers', JsonPatch.value_at r.1 path = Some (JObject servers') /\
    Forall2 (fun e e' => e'.1 = e.1 /\ governed base key id e.1 e.2 e'.2) servers servers') /\
  http_rewrites r.2 = flat_map (fun e =>
    match http_url e.2 with
    | Some url => if String.eqb url (routed_url base e.1) then [] else [(e.1, url)]
    | None => []
    end) servers /\
  forall p, JsonPatch.incomparable path p -> JsonPatch.value_at r.1 p = JsonPatch.value_at config p.
Proof.
  intros Hv. cbv zeta. unfold rewrite_json_mcp_servers.
  destruct (object_at_path_mut_spec config path
    (rewrite_servers (rewrite_json_entry base key id)) servers Hv) as (config' & Hm & Hv' & Hframe).
  rewrite Hm. change (default ?d (Some ?x)) with x. cbn [fst snd]. rewrite rewrite_servers_spec in *.
  split_and!; [| |exact Hframe].
  - eexists. split; [exact Hv'|]. cbn [fst]. apply Forall2_fmap_r, Forall_Forall2_diag, Forall_forall.
    intros [name server] _. split; [done|]. apply rewrite_json_entry_governed.
  - cbn [snd http_rewrites]. apply flat_map_ext. intros [name server]. cbn [fst snd].
    apply rewrite_json_entry_rewrites.
Qed.

(** ** The registry of upstreams *)

Lemma filter_all_length {A} (test : A -> bool) l :
  length (List.filter test l) = length l -> l = List.filter test l.
Proof.
  induction l as [|x l IH]; [done|]. cbn [List.filter]. destruct (test x); cbn [length].
  - intros [= Hl]. f_equal. by apply IH.
  - intros Hl. pose proof (List.filter_length_le test l). lia.
Qed.

Section registry.
Context {T : TomlFloat} {store : ConfigStore}.

(** What [kyrisd] looks a name up as. *)
Definition first (name : string) (servers : list McpRouting.McpServerConfig)
    : option McpRouting.McpServerConfig :=
  head (filter (fun s => McpRouting.server_name s = name) servers).

Lemma first_cons name s l :
  first name (s :: l) = if decide (McpRouting.server_name s = name) then Some s else first name l.
Proof using Type. unfold first. rewrite filter_cons. by case_decide. Qed.

Lemma first_snoc name l s :
  first name (l ++ [s]) = match first name l with
    | Some e => Some e
    | None => if decide (McpRouting.server_name s = name) then Some s else None
    end.
Proof using Type.
  induction l as [|e l IH]; cbn [app]; rewrite !first_cons; [done|].
  destruct (decide (McpRouting.server_name e = name)); [done|apply IH].
Qed.

Lemma first_update name u l i e :
  list_find (fun e => McpRouting.server_name e = name) l = Some (i, e) ->
  first name l = Some e /\
  forall n, first n (<[i := set_upstream u e]> l) = if decide (n = name) then Some (set_upstream u e) else first n l.
Proof using Type.
  revert i. induction l as [|e0 l IH]; intros i Hf; [done|]. cbn [list_find] in Hf. rewrite first_cons.
  case_decide as Hd; simplify_eq/=.
  - split; [done|]. intros n. rewrite !first_cons. cbn [McpRouting.server_name set_upstream].
    repeat case_decide; congruence.
  - apply fmap_Some in Hf as ([j e1] & Hf & [= -> ->]). cbn [prod_map fst snd] in *.
    destruct (IH _ Hf) as [Hfirst Hn]. split; [done|]. intros n.
    change (<[S j := set_upstream u e1]> (e0 :: l)) with (e0 :: <[j := set_upstream u e1]> l).
    rewrite !first_cons, Hn. repeat case_decide; congruence.
Qed.

Lemma first_none name l :
  list_find (fun e => McpRouting.server_name e = name) l = None -> first name l = None.
Proof using Type.
  rewrite list_find_None. induction 1 as [|e l He _ IH]; [done|]. rewrite first_cons. by case_decide.
Qed.

(** One registration: the name leads to the address, other names where they led before. *)
Lemma upsert_one_first s name u n :
  McpRouting.upstream <$> first n (upsert_one s (name, u)).1 =
    if decide (n = name) then Some u else McpRouting.upstream <$> first n s.1.
Proof using Type.
  unfold upsert_one. cbn [fst snd].
  destruct (list_find _ s.1) as [[i e]|] eqn:E.
  - destruct (first_update name u _ _ _ E) as [Hf Hn].
    destruct (String.eqb_spec (McpRouting.upstream e) u) as [<-|].
    + case_decide as Hd; [|done]. subst n. by rewrite Hf.
    + cbn [fst]. rewrite Hn. by case_decide.
  - cbn [fst]. rewrite first_snoc. cbn [McpRouting.server_name].
    destruct (decide (n = name)) as [->|Hd].
    + rewrite (first_none _ _ E). by rewrite decide_True.
    + destruct (first n s.1); [done|]. by rewrite decide_False.
Qed.

(** The last registration of a name counts. *)
Lemma upsert_first rewrites s name :
  McpRouting.upstream <$> first name (foldl upsert_one s rewrites).1 =
    match last (filter (fun r => r.1 = name) rewrites) with
    | Some r => Some r.2
    | None => McpRouting.upstream <$> first name s.1
    end.
Proof using Type.
  revert s. induction rewrites as [|[n u] rewrites IH] using rev_ind; intros s; [done|].
  rewrite foldl_snoc, filter_app, upsert_one_first, IH. rewrite filter_cons. cbn [fst snd].
  destruct (decide (name = n)) as [->|Hd].
  - rewrite decide_True by done. change (filter _ []) with ([] : list (string * string)).
    by rewrite last_snoc.
  - rewrite decide_False by done. change (filter _ []) with ([] : list (string * string)).
    by rewrite app_nil_r.
Qed.

Context (yaml_round_trip : forall c t,
  yaml_to_string c = Ok t -> yaml_from_str t = Ok (with_keys "" "" c)).

Lemma write_managed_file_contents p contents c validate d b d' :
  write_managed_file p contents c validate d = (Ok b, d') -> files d' !! p = Some contents.
Proof using Type.
  assert (forall a x y d1 d2, record_manifest_if_absent p a x y d1 = (Ok tt, d2) -> files d2 = files d1) as Hrec.
  { intros a x y d1 d2. unfold record_manifest_if_absent, load_manifest, now_rfc3339, save_manifest.
    unfold mbind, cmd_bind. destruct (existsb _ _); intros [= <-]; done. }
  unfold write_managed_file, read_if_exists. unfold mbind, cmd_bind.
  destruct (bool_decide_reflect (files d !! p = Some contents)) as [Hf|Hf].
  - destruct (record_manifest_if_absent _ _ _ _ d) as [[[]|] d1] eqn:Hr; intros [= _ <-].
    by rewrite (Hrec _ _ _ _ _ Hr).
  - destruct (validate contents) as [[]|]; [|done]. cbn [lift mret cmd_ret]. unfold write_file.
    destruct (record_manifest_if_absent _ _ _ _ _) as [[[]|] d1] eqn:Hr; intros [= _ <-].
    rewrite (Hrec _ _ _ _ _ Hr). cbn [files]. apply lookup_insert_eq.
Qed.

Lemma save_config_load c d d' :
  save_config c d = (Ok tt, d') -> load_config d' = (Ok (with_keys "" "" c), d').
Proof using yaml_round_trip.
  unfold save_config, load_config, read_if_exists. unfold mbind, cmd_bind.
  destruct config_path as [p|]; [|done]. cbn [lift mret cmd_ret].
  destruct (yaml_to_string c) as [t|] eqn:Ht; [|done]. cbn [lift mret cmd_ret].
  destruct (write_managed_file p t "config" yaml_well_formed d) as [[b|] d1] eqn:Hw; [|done].
  intros [= <-]. rewrite (write_managed_file_contents _ _ _ _ _ _ _ Hw).
  by rewrite (yaml_round_trip _ _ Ht).
Qed.

Lemma load_or_init_load d c d' :
  load_or_init_config d = (Ok c, d') -> exists c0, load_config d' = (Ok c0, d') /\ mcp c0 = mcp c.
Proof using yaml_round_trip.
  unfold load_or_init_config. unfold mbind, cmd_bind.
  destruct config_path as [p|] eqn:Hp; [|done]. cbn [lift mret cmd_ret]. unfold read_if_exists at 1.
  destruct (files d !! p) as [t|] eqn:Hf.
  - assert (load_config d = (lift ("Cannot parse " ++ p ++ ": ") (yaml_from_str t) d)) as Hl
      by (unfold load_config, read_if_exists; unfold mbind, cmd_bind; rewrite Hp; cbn [lift mret cmd_ret]; by rewrite Hf).
    rewrite Hl. destruct (yaml_from_str t) as [c0|]; [|done]. cbn [lift mret cmd_ret].
    destruct (secret_get_or_create _ _) as [inbound|]; [|done]. cbn [lift mret cmd_ret].
    destruct (secret_get_or_create _ _) as [operator|]; [|done]. cbn [lift mret cmd_ret].
    intros [= <- <-]. exists c0. split; [by rewrite Hl|done].
  - destruct (yaml_from_str DEFAULT_CONFIG) as [c0|]; [|done]. cbn [lift mret cmd_ret].
    destruct (save_config c0 d) as [[[]|] d1] eqn:Hs; [|done].
    destruct (secret_get_or_create _ _) as [inbound|]; [|done]. cbn [lift mret cmd_ret].
    destruct (secret_get_or_create _ _) as [operator|]; [|done]. cbn [lift mret cmd_ret].
    intros [= <- <-]. exists (with_keys "" "" c0). split; [|done]. eapply save_config_load, Hs.
Qed.

Lemma upsert_one_unchanged s r : (upsert_one s r).2 = false -> upsert_one s r = s.
Proof using Type.
  unfold upsert_one. destruct (list_find _ _) as [[i e]|]; [|done].
  by destruct (String.eqb _ _).
Qed.

Lemma upsert_unchanged rewrites s : (foldl upsert_one s rewrites).2 = false -> foldl upsert_one s rewrites = s.
Proof using Type.
  induction rewrites as [|r rewrites IH] using rev_ind; [done|]. rewrite foldl_snoc.
  intros Hu. pose proof (upsert_one_unchanged _ _ Hu) as E. rewrite E in Hu |- *. by apply IH.
Qed.

(** Registering addresses: each name leads to the last one given for it, any other name
    where it led before, and the routing is on if something was written. *)
Lemma upsert_spec rewrites d b d' :
  upsert_mcp_upstreams rewrites d = (Ok b, d') -> rewrites <> [] ->
  exists c c0 d0, load_or_init_config d = (Ok c0, d0) /\ load_config d' = (Ok c, d') /\
    (b = true -> McpRouting.enabled (mcp c) = true) /\
    forall name, McpRouting.upstream <$> first name (McpRouting.servers (mcp c)) =
      match last (filter (fun r => r.1 = name) rewrites) with
      | Some r => Some r.2
      | None => McpRouting.upstream <$> first name (McpRouting.servers (mcp c0))
      end.
Proof using yaml_round_trip.
  unfold upsert_mcp_upstreams. intros Hu Hne. destruct rewrites as [|r0 rs] eqn:Er; [done|].
  rewrite <- Er in *. unfold mbind, cmd_bind in Hu.
  destruct (load_or_init_config d) as [[c0|] d0] eqn:Hl; [|done].
  pose proof (fun name => upsert_first rewrites (McpRouting.servers (mcp c0), false) name) as Hfirst.
  pose proof (upsert_unchanged rewrites (McpRouting.servers (mcp c0), false)) as Hsame.
  destruct (foldl upsert_one _ rewrites) as [servers changed]. cbn [fst snd] in Hfirst, Hsame.
  destruct changed.
  - destruct (save_config _ d0) as [[[]|] d1] eqn:Hs; [|done].
    injection Hu as <- <-. eexists _, c0, d0. split; [done|].
    split; [eapply save_config_load, Hs|]. split; [done|]. exact Hfirst.
  - injection Hu as <- <-. destruct (load_or_init_load _ _ _ Hl) as (c & Hc & Hm).
    exists c, c0, d0. split_and!; try done. rewrite Hm.
    specialize (Hsame eq_refl). injection Hsame as ->. exact Hfirst.
Qed.
End registry.

(** ** Setup and routing together *)

Section together.
Context {T : TomlFloat} {store : ConfigStore}.
Context (yaml_round_trip : forall c t,
  yaml_to_string c = Ok t -> yaml_from_str t = Ok (with_keys "" "" c)).

Definition rewrites_of (base : string) (servers : object) : list (string * string) :=
  flat_map (fun e =>
    match http_url e.2 with
    | Some url => if String.eqb url (routed_url base e.1) then [] else [(e.1, url)]
    | None => []
    end) servers.

Lemma rewrites_of_servers base key id config path servers :
  JsonPatch.value_at config path = Some (JObject servers) ->
  http_rewrites (rewrite_json_mcp_servers config path base key id).2 = rewrites_of base servers /\
  JsonPatch.value_at (rewrite_json_mcp_servers config path base key id).1 path =
    Some (JObject ((fun e => (e.1, (rewrite_json_entry base key id e.1 e.2).1.1)) <$> servers)).
Proof using Type.
  intros Hv. unfold rewrite_json_mcp_servers.
  destruct (object_at_path_mut_spec config path
    (rewrite_servers (rewrite_json_entry base key id)) servers Hv) as (config' & -> & Hv' & _).
  change (default ?d (Some ?x)) with x. rewrite rewrite_servers_spec in *.
  split; [|exact Hv']. cbn [snd http_rewrites]. apply flat_map_ext. intros [n s].
  apply rewrite_json_entry_rewrites.
Qed.

Lemma rewrites_of_name base servers name server url :
  NoDup servers.*1 -> (name, server) ∈ servers -> http_url server = Some url ->
  url <> routed_url base name ->
  filter (fun r => r.1 = name) (rewrites_of base servers) = [(name, url)].
Proof using Type.
  intros Hnd Hin Hu Hne. unfold rewrites_of. induction servers as [|[n s] servers IH]; [by apply not_elem_of_nil in Hin|].
  cbn [flat_map fst snd]. rewrite filter_app. cbn [fmap list_fmap fst] in Hnd.
  apply NoDup_cons in Hnd as [Hn Hnd]. apply elem_of_cons in Hin as [[= <- <-]|Hin].
  - rewrite Hu. apply String.eqb_neq in Hne as ->. rewrite filter_cons, decide_True by done.
    change (filter _ []) with ([] : list (string * string)). cbn [app]. f_equal.
    clear IH. induction servers as [|[n' s'] servers IH]; [done|]. cbn [flat_map fst snd].
    cbn [fmap list_fmap fst] in Hn, Hnd. apply not_elem_of_cons in Hn as [Hnn Hn].
    apply NoDup_cons in Hnd as [_ Hnd].
    rewrite filter_app, IH, app_nil_r by done.
    destruct (http_url s') as [u|]; [|done]. destruct (String.eqb u _); [done|].
    rewrite filter_cons, decide_False by (simpl; congruence). done.
  - assert (n <> name) as Hnn by (intros ->; apply Hn, list_elem_of_fmap; by exists (name, server)).
    rewrite IH by done.
    destruct (http_url s) as [u|]; [|done]. destruct (String.eqb u _); [done|].
    rewrite filter_cons, decide_False by (simpl; congruence). done.
Qed.

(** One setup: what the registry says of the name afterwards. *)
Lemma setup_registers base key id config path servers name server url d b d' :
  JsonPatch.value_at config path = Some (JObject servers) -> NoDup servers.*1 ->
  (name, server) ∈ servers -> http_url server = Some url -> url <> routed_url base name ->
  upsert_mcp_upstreams (http_rewrites (rewrite_json_mcp_servers config path base key id).2) d
    = (Ok b, d') ->
  exists c entry, load_config d' = (Ok c, d') /\
    first name (McpRouting.servers (mcp c)) = Some entry /\ McpRouting.upstream entry = url /\
    (b = true -> McpRouting.resolve_server (mcp c) name = Ok entry).
Proof using yaml_round_trip.
  intros Hv Hnd Hin Hu Hne Hup.
  destruct (rewrites_of_servers base key id config path servers Hv) as [Hr _]. rewrite Hr in Hup.
  pose proof (rewrites_of_name base servers name server url Hnd Hin Hu Hne) as Hf.
  destruct (upsert_spec yaml_round_trip _ _ _ _ Hup) as (c & c0 & d0 & _ & Hl & Hen & Hfirst).
  { intros Hnil. by rewrite Hnil in Hf. }
  specialize (Hfirst name). rewrite Hf in Hfirst. cbn [last fst snd] in Hfirst.
  apply fmap_Some in Hfirst as (entry & He & Hurl).
  exists c, entry. split_and!; [done..|]. intros Hb. unfold McpRouting.resolve_server.
  rewrite (Hen Hb). cbn [negb]. unfold first in He. by rewrite He.
Qed.

Lemma rewrite_json_entry_http base key id name server url :
  http_url server = Some url ->
  exists m, entry_fields (rewrite_json_entry base key id name server).1.1 = Some m /\
    fields_url m = Some (routed_url base name) /\
    forall h v, (h, v) ∈ kyris_headers key id -> obj_get h (server_headers m) ≫= as_str = Some v.
Proof using Type.
  unfold http_url. intros (m & Hm & Hu)%bind_Some.
  destruct (rewrite_json_entry_fields base key id name server m Hm) as (_ & _ & Hm').
  destruct (rewrite_json_server_http base key id name m url Hu) as (Hc & Hurl & Hh & _).
  eexists. split; [exact Hm'|]. split; [|exact Hh].
  unfold fields_url in *. rewrite Hc, Hurl. by destruct (obj_get "command" m) as [[]|].
Qed.

Lemma routed_url_inj base base' name : routed_url base name = routed_url base' name -> base = base'.
Proof using Type.
  intros Hr. apply (f_equal lit) in Hr. unfold routed_url in Hr. rewrite !lit_app in Hr.
  apply app_inv_tail in Hr. by apply lit_inj.
Qed.

(** A server reached by HTTP is still reached: once setup has rewritten an agent's
    configuration and registered what it replaced, the name in the address the agent now
    uses leads kyrisd to the address the server had; it does so whatever was registered
    under that name before, and the routing is on if the registry changed. *)
Theorem routed_server_reaches_upstream base key id config path servers name server url d b d' :
  JsonPatch.value_at config path = Some (JObject servers) -> NoDup servers.*1 ->
  (name, server) ∈ servers -> http_url server = Some url -> url <> routed_url base name ->
  upsert_mcp_upstreams (http_rewrites (rewrite_json_mcp_servers config path base key id).2) d
    = (Ok b, d') ->
  http_url (rewrite_json_entry base key id name server).1.1 = Some (routed_url base name) /\
  exists c entry, load_config d' = (Ok c, d') /\
    first name (McpRouting.servers (mcp c)) = Some entry /\ McpRouting.upstream entry = url /\
    (b = true -> McpRouting.resolve_server (mcp c) name = Ok entry).
Proof using yaml_round_trip.
  intros Hv Hnd Hin Hu Hne Hup. split; [|by eapply setup_registers].
  destruct (rewrite_json_entry_http base key id name server url Hu) as (m & Hm & Hurl & _).
  unfold http_url. by rewrite Hm.
Qed.

(** Setup under another address of kyrisd takes the address it gave the servers before for
    theirs: the registry then leads kyrisd to its own former address, and the server's own
    address is in neither file. *)
Theorem moved_address_loses_upstream base base' key id config path servers name server url
    d b d1 b' d2 :
  JsonPatch.value_at config path = Some (JObject servers) -> NoDup servers.*1 ->
  (name, server) ∈ servers -> http_url server = Some url -> base <> base' ->
  let config1 := (rewrite_json_mcp_servers config path base key id).1 in
  upsert_mcp_upstreams (http_rewrites (rewrite_json_mcp_servers config path base key id).2) d
    = (Ok b, d1) ->
  upsert_mcp_upstreams (http_rewrites (rewrite_json_mcp_servers config1 path base' key id).2) d1
    = (Ok b', d2) ->
  exists c entry, load_config d2 = (Ok c, d2) /\
    first name (McpRouting.servers (mcp c)) = Some entry /\
    McpRouting.upstream entry = routed_url base name.
Proof using yaml_round_trip.
  intros Hv Hnd Hin Hu Hne config1 _ Hup.
  destruct (rewrites_of_servers base key id config path servers Hv) as [_ Hv1].
  destruct (rewrite_json_entry_http base key id name server url Hu) as (m & Hm & Hurl & _).
  destruct (setup_registers base' key id config1 path _ name
    (rewrite_json_entry base key id name server).1.1 (routed_url base name) d1 b' d2 Hv1)
    as (c & entry & Hc & He & Hup' & _).
  - rewrite <- list_fmap_compose. by rewrite (list_fmap_ext _ fst).
  - apply list_elem_of_fmap. by exists (name, server).
  - unfold http_url. by rewrite Hm.
  - intros Heq. by apply Hne, (routed_url_inj _ _ name).
  - exact Hup.
  - eauto.
Qed.

(** The headers of a server as HTTP has them. *)
Definition sent_headers (m : object) : Adapter.header_map :=
  omap (fun e : string * json => v ← as_str e.2; Some (Adapter.to_lowercase e.1, lit v))
    (server_headers m).

(** kyrisd's own key leaves the machine: for every server reached by HTTP, setup
    replaces the [Authorization] the user had set by the inbound key, and kyrisd forwards it
    to the server's address as it comes. *)
Theorem setup_leaks_inbound_key base key id name server url :
  http_url server = Some url ->
  exists m, entry_fields (rewrite_json_entry base key id name server).1.1 = Some m /\
    obj_get "Authorization" (server_headers m) = Some (JString ("Bearer " ++ key)) /\
    ("authorization", lit ("Bearer " ++ key))%string ∈
      McpRouting.forward_request_headers (sent_headers m).
Proof using Type.
  intros Hu. destruct (rewrite_json_entry_http base key id name server url Hu) as (m & Hm & _ & Hh).
  exists m. split; [exact Hm|].
  assert (obj_get "Authorization" (server_headers m) = Some (JString ("Bearer " ++ key))) as Ha.
  { specialize (Hh "Authorization"%string ("Bearer " ++ key)%string (list_elem_of_here _ _)).
    destruct (obj_get "Authorization" (server_headers m)) as [[]|]; by simplify_eq/=. }
  split; [exact Ha|]. unfold McpRouting.forward_request_headers.
  apply elem_of_List_filter. split; [|vm_compute; reflexivity].
  apply list_elem_of_omap. exists ("Authorization"%string, JString ("Bearer " ++ key)).
  split; [by apply obj_get_elem|done].
Qed.

Lemma first_filter name (names : list string) servers :
  first name (List.filter (fun s => negb (bool_decide (McpRouting.server_name s ∈ names))) servers) =
    if bool_decide (name ∈ names) then None else first name servers.
Proof using Type.
  induction servers as [|s servers IH]; [by case_bool_decide|].
  cbn [List.filter]. rewrite first_cons.
  destruct (bool_decide_reflect (McpRouting.server_name s ∈ names)) as [Hs|Hs]; cbn [negb].
  - rewrite IH. case_bool_decide; [done|]. by rewrite decide_False by congruence.
  - rewrite first_cons, IH. destruct (decide (McpRouting.server_name s = name)) as [<-|]; [|done].
    by rewrite bool_decide_eq_false_2.
Qed.

(** Disconnecting an agent unregisters names, not servers: every name the agent's
    configuration holds leads nowhere afterwards, also when another agent's configuration
    has an address of kyrisd with that name; other names are kept. *)
Theorem disconnect_unregisters_names names d d' c :
  names <> [] -> load_config d = (Ok c, d) -> remove_mcp_upstreams names d = (Ok tt, d') ->
  exists c', load_config d' = (Ok c', d') /\
    (forall name, name ∈ names -> McpRouting.resolve_server (mcp c') name = Err Adapter.NOT_FOUND) /\
    forall name, name ∉ names ->
      first name (McpRouting.servers (mcp c')) = first name (McpRouting.servers (mcp c)).
Proof using yaml_round_trip.
  intros Hne Hl Hr. unfold remove_mcp_upstreams in Hr. destruct names as [|n0 ns] eqn:En; [done|].
  rewrite <- En in *. unfold attempt in Hr. unfold mbind, cmd_bind in Hr. rewrite Hl in Hr.
  cbn [fst ok] in Hr.
  set (kept := List.filter _ _) in Hr.
  assert (forall name, first name kept = if bool_decide (name ∈ names) then None
    else first name (McpRouting.servers (mcp c))) as Hkept by (intros; apply first_filter).
  assert (forall c', McpRouting.servers (mcp c') = kept ->
    (forall name, name ∈ names -> McpRouting.resolve_server (mcp c') name = Err Adapter.NOT_FOUND) /\
    forall name, name ∉ names ->
      first name (McpRouting.servers (mcp c')) = first name (McpRouting.servers (mcp c))) as Hend.
  { intros c' Hc'. split; intros name Hin; specialize (Hkept name).
    - rewrite bool_decide_eq_true_2 in Hkept by done. unfold McpRouting.resolve_server.
      rewrite Hc'. unfold first in Hkept. rewrite Hkept. by destruct (negb (McpRouting.enabled _)).
    - by rewrite Hc', Hkept, bool_decide_eq_false_2. }
  destruct (Nat.eqb_spec (length kept) (length (McpRouting.servers (mcp c)))) as [Hlen|Hlen].
  - injection Hr as <-. exists c. split; [exact Hl|]. by apply Hend, filter_all_length.
  - pose proof (save_config_load yaml_round_trip _ _ _ Hr) as Hl'. eexists. split; [exact Hl'|].
    by apply Hend.
Qed.

End together.

(** ** Conflicts *)

Definition unrouted (routed_prefix : string) (servers : object) : list (string * string) :=
  omap (fun e : string * json => url ← unrouted_url routed_prefix e.2; Some (e.1, url)) servers.

Definition one_address (urls : list (string * string)) : Prop :=
  forall name u v, (name, u) ∈ urls -> (name, v) ∈ urls -> u = v.

Lemma one_address_Permutation urls urls' : urls ≡ₚ urls' -> one_address urls <-> one_address urls'.
Proof. intros Hp. unfold one_address. by setoid_rewrite Hp. Qed.

Lemma check_servers_spec agent prefix upstreams servers :
  (exists m, check_servers agent prefix upstreams servers = Ok m) <->
  one_address (map_to_list upstreams ++ unrouted prefix servers).
Proof.
  revert upstreams. induction servers as [|[n s] servers IH]; intros upstreams.
  { unfold unrouted. cbn [omap list_omap]. rewrite app_nil_r. split; [|intros _; by exists upstreams].
    intros _ name u v Hu%elem_of_map_to_list Hv%elem_of_map_to_list. congruence. }
  cbn [check_servers]. unfold check_server. cbn [fst snd].
  unfold unrouted. cbn [omap list_omap fst snd]. fold (unrouted prefix servers).
  destruct (unrouted_url prefix s) as [url|]; cbn [mbind option_bind]; [|apply IH].
  destruct (upstreams !! n) as [existing|] eqn:Eu.
  - destruct (String.eqb_spec existing url) as [<-|Hne].
    + rewrite IH. apply elem_of_map_to_list in Eu. unfold one_address. split; intros H name u v Hu Hv.
      * apply (H name); set_solver.
      * apply (H name); set_solver.
    + split; [by intros [? ?]|]. intros H. destruct Hne. apply (H n).
      * apply elem_of_app. left. by apply elem_of_map_to_list.
      * set_solver.
  - rewrite IH. apply one_address_Permutation. rewrite map_to_list_insert by done.
    apply Permutation_middle.
Qed.

(** ** Setting up again *)

Section paired.
Context {V : Type} (to_str : V -> option string) (from_str : string -> V).
Context (to_from : forall s, to_str (from_str s) = Some s).

(** Each [--server] in front of the command has its value. *)
Fixpoint paired (args : list V) : bool :=
  match args with
  | [] => true
  | a :: rest =>
      if says to_str "--agent" a then true
      else if says to_str "--server" a then match rest with [] => false | _ :: rest' => paired rest' end
      else true
  end.

Definition wrap_paired (args : list V) : bool :=
  match args with a :: rest => if says to_str "wrap" a then paired rest else paired args | [] => true end.

Lemma split_flags_again args flags tail id :
  split_flags to_str args = Some (flags, tail) -> paired args = true ->
  split_flags to_str (flags ++ [from_str "--agent"; from_str id] ++ tail) = None.
Proof using to_from.
  revert flags. induction args as [args IH] using (induction_ltof1 _ length).
  intros flags Hs Hp. destruct args as [|a rest]; simplify_eq/=.
  - unfold says. by rewrite to_from.
  - destruct (says to_str "--agent" a) eqn:Ea; [done|].
    destruct (says to_str "--server" a) eqn:Es; simplify_eq/=.
    + destruct rest as [|v rest]; [done|].
      destruct (split_flags to_str rest) as [[flags' tail']|] eqn:E; simplify_eq/=. rewrite Ea, Es.
      change (from_str "--agent" :: from_str id :: tail) with ([from_str "--agent"; from_str id] ++ tail).
      rewrite (IH rest); [done|unfold ltof; simpl; lia|done..].
    + unfold says at 1. by rewrite to_from.
Qed.

Lemma ensure_flag_again args id :
  wrap_paired args = true ->
  let args' := (ensure_wrap_agent_flag to_str from_str args id).1 in
  ensure_wrap_agent_flag to_str from_str args' id = (args', false).
Proof using to_from.
  unfold wrap_paired, ensure_wrap_agent_flag. intros Hp. destruct args as [|a rest].
  - cbn [split_flags fst app]. assert (says to_str "wrap" (from_str "--agent") = false) as ->
      by (unfold says; by rewrite to_from).
    cbn [split_flags]. unfold says. by rewrite to_from.
  - destruct (says to_str "wrap" a) eqn:Ew.
    + destruct (split_flags to_str rest) as [[flags tail]|] eqn:E; cbn [fst app]; rewrite Ew; [|by rewrite E].
      pose proof (split_flags_again _ _ _ id E Hp) as Hn. cbn [app] in Hn. by rewrite Hn.
    + destruct (split_flags to_str (a :: rest)) as [[flags tail]|] eqn:E; cbn [fst app]; [|by rewrite Ew, E].
      pose proof (split_flags_again _ _ _ id E Hp) as Hn. cbn [app] in Hn.
      assert (forall x l, flags ++ from_str "--agent" :: from_str id :: tail = x :: l ->
        says to_str "wrap" x = false) as Hw.
      { intros x l. cbn [split_flags] in E.
        destruct (says to_str "--agent" a), (says to_str "--server" a) eqn:Es; try done.
        - destruct rest as [|v rest]; [|destruct (split_flags to_str rest) as [[]|]];
            simplify_eq/=; intros [= <- _]; done.
        - simplify_eq/=. intros [= <- _]. unfold says. by rewrite to_from. }
      destruct (flags ++ from_str "--agent" :: from_str id :: tail) as [|x l] eqn:El;
        [by apply (f_equal length) in El; rewrite length_app in El; simpl in El; lia|].
      by rewrite (Hw x l), Hn.
Qed.
End paired.

Lemma set_header_settled hs m :
  (forall h v, (h, v) ∈ hs -> obj_get h m ≫= as_str = Some v) -> foldl set_header (m, false) hs = (m, false).
Proof.
  induction hs as [|[h v] hs IH]; intros Hm; [done|]. cbn [foldl].
  assert (set_header (m, false) (h, v) = (m, false)) as ->.
  { unfold set_header. cbn [fst snd]. rewrite bool_decide_eq_true_2; [done|]. apply Hm. left. }
  apply IH. intros h' v' Hin. apply Hm. by right.
Qed.

(** A wrap that is there is complete. *)
Definition server_paired (m : object) : bool :=
  match obj_get "command" m with
  | Some (JString c) =>
      if String.eqb c "kyris-mcp"
      then match obj_get "args" m with Some (JArray l) => wrap_paired as_str l | _ => true end
      else true
  | Some (JArray (c :: l)) =>
      if bool_decide (as_str c = Some "kyris-mcp"%string) then wrap_paired as_str l else true
  | _ => true
  end.

Lemma new_wrap_settled name id args :
  let wrapped := (JString <$> ["wrap"; "--server"; name; "--agent"; id]) ++ args in
  ensure_wrap_agent_flag as_str JString wrapped id = (wrapped, false).
Proof. done. Qed.

Lemma obj_insert_same k v m : obj_insert k v (obj_insert k v m) = obj_insert k v m.
Proof. apply obj_insert_id. by rewrite obj_get_insert, String.eqb_refl. Qed.

(** A wrap with its flag is left alone. *)
Lemma settled_command base key id name m l :
  obj_get "command" m = Some (JString "kyris-mcp") -> obj_get "args" m = Some (JArray l) ->
  ensure_wrap_agent_flag as_str JString l id = (l, false) ->
  rewrite_json_server base key id name m = (m, false, []).
Proof.
  unfold rewrite_json_server. intros -> Ha Hl. rewrite Ha.
  cbn [mbind option_bind as_str as_array String.eqb Ascii.eqb Bool.eqb]. rewrite Hl.
  by rewrite obj_insert_id.
Qed.

Lemma settled_list base key id name m l :
  obj_get "command" m = Some (JArray (JString "kyris-mcp" :: l)) ->
  ensure_wrap_agent_flag as_str JString l id = (l, false) ->
  rewrite_json_server base key id name m = (m, false, []).
Proof.
  unfold rewrite_json_server. intros Hc Hl. rewrite Hc. cbn [mbind option_bind as_str as_array head tail].
  change (default "" (Some ?c)) with c. cbn [String.eqb Ascii.eqb Bool.eqb]. rewrite Hl.
  cbn [take app]. by rewrite obj_insert_id.
Qed.

Lemma settled_other base key id name m :
  match obj_get "command" m with Some (JString _) | Some (JArray _) => false | _ => true end = true ->
  fields_url m = None -> rewrite_json_server base key id name m = (m, false, []).
Proof.
  unfold rewrite_json_server, fields_url.
  destruct (obj_get "command" m) as [[]|]; try done; intros _ Hu;
    cbn [mbind option_bind as_str as_array]; by rewrite Hu.
Qed.

Lemma rewrite_json_server_settled base key id name m :
  server_paired m = true ->
  let m' := (rewrite_json_server base key id name m).1.1 in
  rewrite_json_server base key id name m' = (m', false, []).
Proof.
  intros Hp. cbv zeta. destruct (fields_url m) as [url|] eqn:Hu.
  - destruct (rewrite_json_server_http base key id name m url Hu) as (Hc & Hurl & Hh & _).
    set (m' := (rewrite_json_server base key id name m).1.1) in *.
    assert (exists hs, obj_get "headers" m' = Some (JObject hs)) as [hs Hhs].
    { assert (is_Some (obj_get "Authorization" (server_headers m'))) as [v Hv].
      { specialize (Hh "Authorization"%string _ (list_elem_of_here _ _)).
        destruct (obj_get "Authorization" (server_headers m')); [by eexists|done]. }
      unfold server_headers, entry_or in Hv. destruct (obj_get "headers" m') as [[]|]; try done. by eexists. }
    unfold rewrite_json_server. rewrite Hc, Hurl. unfold fields_url in Hu.
    assert (obj_get "command" m ≫= as_str = None /\ obj_get "command" m ≫= as_array = None) as [-> ->]
      by (destruct (obj_get "command" m) as [[]|]; simpl in *; naive_solver).
    cbn [mbind option_bind as_str]. rewrite String.eqb_refl. cbn [negb].
    unfold entry_or. rewrite Hhs. change (default _ (Some ?x)) with x. change (as_json_object (JObject hs)) with hs.
    rewrite set_header_settled.
    + by rewrite obj_insert_id.
    + intros h v Hin. specialize (Hh h v Hin). unfold server_headers, entry_or in Hh. by rewrite Hhs in Hh.
  - unfold server_paired in Hp. unfold fields_url in Hu.
    destruct (obj_get "command" m) as [[| | | |c|l|]|] eqn:Ec;
      try (assert (rewrite_json_server base key id name m = (m, false, [])) as E
             by (apply settled_other; [by rewrite Ec|unfold fields_url; by rewrite Ec]);
           rewrite E; exact E).
    + destruct (String.eqb_spec c "kyris-mcp") as [->|Hne].
      * destruct (obj_get "args" m) as [[| | | | |l|]|] eqn:Ea;
          try (unfold rewrite_json_server; rewrite Ec;
               cbn [mbind option_bind as_str String.eqb Ascii.eqb Bool.eqb]; rewrite Ea;
               cbn [mbind option_bind as_array fst]; by rewrite Ec, Ea).
        unfold rewrite_json_server at 2 3. rewrite Ec, Ea.
        cbn [mbind option_bind as_str as_array String.eqb Ascii.eqb Bool.eqb].
        pose proof (ensure_flag_again as_str JString (fun s => eq_refl) _ id Hp) as Hag.
        destruct (ensure_wrap_agent_flag as_str JString l id) as [l' b]. cbn [fst] in *.
        by apply (settled_command _ _ _ _ _ l'); rewrite ?obj_get_insert.
      * unfold rewrite_json_server at 2 3. rewrite Ec. cbn [mbind option_bind as_str].
        apply String.eqb_neq in Hne as ->. cbn [fst].
        eapply settled_command; [by rewrite !obj_get_insert..|]. done.
    + destruct l as [|c l].
      * unfold rewrite_json_server at 2 3. rewrite Ec. cbn [mbind option_bind as_str as_array head tail fst].
        change (default "" None) with ""%string. cbn [String.eqb fst].
        eapply settled_list; [by rewrite obj_get_insert|]. done.
      * destruct (bool_decide_reflect (as_str c = Some "kyris-mcp"%string)) as [Hc|Hc].
        -- destruct c; simplify_eq/=. unfold rewrite_json_server at 2 3. rewrite Ec.
           cbn [mbind option_bind as_str as_array head tail]. change (default "" (Some ?c)) with c.
           cbn [String.eqb Ascii.eqb Bool.eqb].
           pose proof (ensure_flag_again as_str JString (fun s => eq_refl) _ id Hp) as Hag.
           destruct (ensure_wrap_agent_flag as_str JString l id) as [l' b]. cbn [fst take app] in *.
           by apply (settled_list _ _ _ _ _ l'); rewrite ?obj_get_insert.
        -- unfold rewrite_json_server at 2 3. rewrite Ec.
           cbn [mbind option_bind as_str as_array head tail].
           assert (String.eqb (default "" (as_str c)) "kyris-mcp" = false) as ->.
           { apply String.eqb_neq. destruct (as_str c); [|done]. change (default "" (Some ?c)) with c. congruence. }
           cbn [fst]. eapply settled_list; [by rewrite obj_get_insert|]. done.
Qed.

Lemma rewrite_json_entry_settled base key id name server :
  (forall m, entry_fields server = Some m -> server_paired m = true) ->
  let after := (rewrite_json_entry base key id name server).1.1 in
  rewrite_json_entry base key id name after = (after, false, []).
Proof.
  intros Hp. cbv zeta. destruct server as [| | | | | |top]; try done.
  unfold entry_fields, json_mcp_fields in Hp. cbn [get] in Hp.
  pose proof (fun m => rewrite_json_server_settled base key id name m) as Hs.
  pose proof (fun m => rewrite_json_server_other base key id name m "transport" ltac:(set_solver)) as Ht.
  unfold rewrite_json_entry at 2 3. unfold object in *.
  destruct (obj_get "transport" top ≫= as_object) as [t|] eqn:E.
  - assert (server_paired t = true) as Hpt.
    { apply Hp. by destruct (obj_get "transport" top) as [[]|]; simplify_eq/=. }
    specialize (Hs t Hpt). cbv zeta in Hs.
    destruct (rewrite_json_server base key id name t) as [[t' c] rs]. cbn [fst] in *.
    unfold rewrite_json_entry. rewrite obj_get_insert. cbn [String.eqb Ascii.eqb Bool.eqb mbind option_bind as_object].
    by rewrite Hs, obj_insert_same.
  - assert (server_paired top = true) as Hpt.
    { apply Hp. by destruct (obj_get "transport" top) as [[]|]; simplify_eq/=. }
    specialize (Hs top Hpt). specialize (Ht top). cbv zeta in Hs.
    destruct (rewrite_json_server base key id name top) as [[m' c] rs]. cbn [fst] in *.
    unfold rewrite_json_entry. unfold object. by rewrite Ht, E, Hs.
Qed.

Lemma object_at_path_mut_id {A} root path (f : object -> object * A) m a :
  JsonPatch.value_at root path = Some (JObject m) -> f m = (m, a) ->
  JsonPatch.object_at_path_mut root path f = Some (root, a).
Proof.
  revert root. induction path as [|seg path IH]; intros root Hv Hf.
  - cbn [JsonPatch.value_at] in Hv. simplify_eq.
    cbn [JsonPatch.object_at_path_mut as_object mbind option_bind]. by rewrite Hf.
  - cbn [JsonPatch.value_at] in Hv. destruct root as [| | | | | |top]; try done.
    cbn [as_object mbind option_bind] in Hv. apply bind_Some in Hv as (child & Hc & Hv).
    cbn [JsonPatch.object_at_path_mut as_object mbind option_bind]. rewrite Hc. simpl.
    rewrite (IH _ Hv Hf). simpl. by rewrite obj_insert_id.
Qed.

(** Setup settles: run again on what it wrote, with the same address, key and agent, it
    changes nothing and registers nothing. *)
Theorem setup_settles base key id config path servers :
  JsonPatch.value_at config path = Some (JObject servers) ->
  (forall e m, e ∈ servers -> entry_fields e.2 = Some m -> server_paired m = true) ->
  let r := rewrite_json_mcp_servers config path base key id in
  rewrite_json_mcp_servers r.1 path base key id = (r.1, unchanged).
Proof.
  intros Hv Hp. cbv zeta. destruct (rewrites_of_servers base key id config path servers Hv) as [_ Hv'].
  unfold rewrite_json_mcp_servers at 1. erewrite object_at_path_mut_id; [|exact Hv'|]; [done|].
  rewrite rewrite_servers_spec. clear Hv Hv'. unfold unchanged.
  induction servers as [|[n s] servers IH]; [done|].
  specialize (IH ltac:(intros e m He; apply Hp; by right)). injection IH as IH1 IH2 IH3.
  pose proof (rewrite_json_entry_settled base key id n s) as Hs.
  cbn [fmap list_fmap existsb flat_map fst snd].
  rewrite Hs; [|intros m; apply (Hp (n, s)); by left]. cbn [fst snd orb app].
  by f_equal; [f_equal|f_equal].
Qed.

(** ** Codex *)

Section codex.
Context {T : TomlFloat}.

Definition toml_strings (l : list toml) : option (list string) := mapM tas_str l.

Lemma toml_strings_inv l args : toml_strings l = Some args -> l = TString <$> args.
Proof using Type.
  unfold toml_strings. intros Hl%mapM_Some. induction Hl as [|v s l args Hv _ IH]; [done|].
  destruct v; simplify_eq/=. by f_equal.
Qed.

Lemma toml_strings_fmap l : toml_strings (TString <$> l) = Some l.
Proof using Type.
  unfold toml_strings. induction l as [|s l IH]; [done|]. cbn [fmap list_fmap mapM tas_str]. simpl.
  by rewrite IH.
Qed.

Definition toml_launch (server : toml) : option (list string) :=
  command ← tget "command" server ≫= tas_str;
  args ← toml_strings (default [] (tget "args" server ≫= tas_array));
  Some (command :: args).

Lemma tget_insert k v m : tget k (TTable (tbl_insert k v m)) = Some v.
Proof using Type. unfold tget. cbn [as_table mbind option_bind]. by rewrite tbl_get_insert, String.eqb_refl. Qed.

Lemma tget_insert_ne k k' v m : k <> k' -> tget k (TTable (tbl_insert k' v m)) = tget k (TTable m).
Proof using Type.
  intros Hk. unfold tget. cbn [as_table mbind option_bind]. rewrite tbl_get_insert.
  by apply String.eqb_neq in Hk as ->.
Qed.

Lemma toml_launch_command m c l args :
  tget "command" m = Some (TString c) -> tget "args" m = Some (TArray l) ->
  toml_strings l = Some args -> toml_launch m = Some (c :: args).
Proof using Type. unfold toml_launch. intros -> -> Hl. simpl. by rewrite Hl. Qed.

(** Codex's configuration is rewritten as the JSON ones are: a server keeps the program
    and arguments it runs, now behind [kyris-mcp], and none is left unwrapped. *)
Lemma codex_server_runs_original base key id name server :
  let after := (rewrite_codex_entry base key id name server).1.1 in
  toml_mcp_server_unwrapped after = false /\
  forall argv command args,
    toml_launch server = Some argv -> behind_wrap argv = command :: args -> no_flag command ->
    started_as toml_launch after
      (mkWrap (stamped name id argv).1 (Some (stamped name id argv).2) command args).
Proof using Type.
  cbv zeta. destruct server as [| | | | | |m]; try done. unfold rewrite_codex_entry, toml_mcp_server_unwrapped.
  destruct (tbl_get "command" m ≫= tas_str) as [c|] eqn:Ec.
  - assert (tget "command" (TTable m) = Some (TString c)) as Hc.
    { unfold tget. cbn [as_table mbind option_bind]. destruct (tbl_get "command" m) as [[]|]; simplify_eq/=; done. }
    destruct (String.eqb_spec c "kyris-mcp") as [->|Hne].
    + destruct (tbl_get "args" m ≫= tas_array) as [l|] eqn:El.
      * destruct (ensure_wrap_agent_flag tas_str TString l id) as [l' b] eqn:Ew. cbn [fst].
        rewrite tget_insert_ne, Hc by done. split; [done|]. intros argv command args Hl Hb Hnf.
        unfold toml_launch in Hl. rewrite Hc in Hl. cbn [mbind option_bind tas_str tget as_table] in Hl.
        unfold tget in Hl. cbn [as_table mbind option_bind] in Hl. rewrite El in Hl.
        apply bind_Some in Hl as (a & Ha & [= <-]).
        change (default [] (Some l)) with l in Ha. apply toml_strings_inv in Ha as ->.
        rewrite (ensure_flag_from tas_str TString) in Ew by done. injection Ew as <- <-.
        cbn [behind_wrap String.eqb Ascii.eqb Bool.eqb] in Hb.
        cbn [stamped String.eqb Ascii.eqb Bool.eqb].
        destruct (parse_wrap a) as [w|] eqn:Ew; [|done]. injection Hb as <- <-.
        eexists. split; [|exact (ensure_flag_parse a id w Ew Hnf)].
        eapply toml_launch_command; [by rewrite tget_insert_ne|by rewrite tget_insert|apply toml_strings_fmap].
      * cbn [fst]. rewrite Hc. split; [done|]. intros argv command args Hl Hb Hnf.
        unfold toml_launch, tget in Hl. cbn [as_table mbind option_bind] in Hl.
        destruct (tbl_get "command" m) as [v|]; [|done]. cbn [mbind option_bind] in Hl, Ec.
        rewrite Ec, El in Hl. cbn in Hl. by simplify_eq.
    + cbn [fst]. rewrite tget_insert_ne, tget_insert by done. split; [done|].
      intros argv command args Hl Hb Hnf. unfold toml_launch in Hl. rewrite Hc in Hl.
      cbn [mbind option_bind tas_str] in Hl.
      change (tget "args" (TTable m)) with (tbl_get "args" m) in Hl.
      apply bind_Some in Hl as (a & Ha & [= <-]). apply toml_strings_inv in Ha as Ha'.
      cbn [behind_wrap] in Hb; cbn [stamped]. apply String.eqb_neq in Hne. rewrite Hne in Hb |- *.
      injection Hb as -> ->. eexists. split; [|by apply (parse_wrap_new name id)].
      eapply toml_launch_command; [by rewrite tget_insert_ne, tget_insert|by rewrite tget_insert|].
      rewrite Ha'. apply (toml_strings_fmap ("wrap" :: "--server" :: name :: "--agent" :: id :: command :: args)%string).
  - assert (tget "command" (TTable m) ≫= tas_str = None) as Hc by exact Ec.
    assert (toml_launch (TTable m) = None) as Hl by (unfold toml_launch; by rewrite Hc).
    rewrite Hl. split; [|by intros].
    destruct (tbl_get "url" m ≫= tas_str) as [u|]; [|cbn [fst]; by rewrite Hc]. cbv zeta.
    destruct (foldl _ _ _) as [hs set]. cbn [fst]. rewrite tget_insert_ne by done.
    destruct (negb _); [rewrite tget_insert_ne by done|]; by rewrite Hc.
Qed.

(** C20. Routing a server through [kyris-mcp] does not change what it runs, and says whose it
    is.  Whether the entry is one of the JSON configurations or of Codex's TOML, and however
    the server was started, by a command with arguments, by a list, or through an earlier
    wrap, it is started through [kyris-mcp] afterwards, which reads off its command line the
    same program with the same arguments, the name of the entry and the agent that was set
    up; where the server was behind [kyris-mcp] already, the server that wrap named, and its
    agent if it named one.  (A program that is called [--server] or [--agent] is left out.) *)
Theorem wrapped_server_runs_original base key id name argv command args :
  behind_wrap argv = command :: args -> no_flag command ->
  let w := mkWrap (stamped name id argv).1 (Some (stamped name id argv).2) command args in
  (forall server, json_launch server = Some argv ->
    started_as json_launch (rewrite_json_entry base key id name server).1.1 w) /\
  (forall server, toml_launch server = Some argv ->
    started_as toml_launch (rewrite_codex_entry base key id name server).1.1 w).
Proof using Type.
  intros Hb Hc w. split; intros server Hl; [by apply json_server_runs_original|].
  by apply (codex_server_runs_original base key id name server).
Qed.
End codex.

(** ** Claude's denials *)

(** The user's entries stay where they are, every denied tool of a server that is there is
    denied, and nothing else is. *)
Theorem denies_only_added settings filters present deny :
  JsonPatch.value_at settings ["permissions"; "deny"] = Some (JArray deny) ->
  let wanted := wanted_denies filters present in
  exists new, JsonPatch.value_at (add_mcp_tool_denies settings filters present).1
      ["permissions"; "deny"] = Some (JArray (deny ++ (JString <$> new))) /\
    (forall entry, entry ∈ wanted -> JString entry ∈ deny ++ (JString <$> new)) /\
    (forall entry, entry ∈ new -> entry ∈ wanted) /\
    ((add_mcp_tool_denies settings filters present).2 = true <-> new <> []).
Proof.
  cbn [JsonPatch.value_at]. destruct settings as [| | | | | |root]; try done.
  cbn [as_object mbind option_bind]. intros (perms & Hp & Hd)%bind_Some.
  destruct perms as [| | | | | |permissions]; try done. cbn [as_object mbind option_bind] in Hd.
  apply bind_Some in Hd as (d & Hd & [= ->]). cbv zeta. unfold add_mcp_tool_denies.
  destruct (wanted_denies filters present) as [|e0 ws] eqn:Ew.
  - exists []. cbn [fst snd]. rewrite app_nil_r. cbn [as_object mbind option_bind]. rewrite Hp. simpl. rewrite Hd.
    split_and!; [done|set_solver|set_solver|by split].
  - rewrite <- Ew. unfold entry_or. rewrite Hp. change (default _ (Some ?x)) with x. cbv iota.
    rewrite Hd. change (default _ (Some ?x)) with x. cbv iota zeta. cbn [fst snd].
    set (new := List.filter _ _). exists new. cbn [as_object mbind option_bind].
    rewrite obj_get_insert. cbn [String.eqb Ascii.eqb Bool.eqb mbind option_bind as_object].
    rewrite obj_get_insert. cbn [String.eqb Ascii.eqb Bool.eqb mbind option_bind].
    split_and!; [done| | |].
    + intros entry He. destruct (decide (entry ∈ omap as_str deny)) as [Hin|Hin].
      * apply list_elem_of_omap in Hin as (v & Hv & Hs). apply elem_of_app. left.
        destruct v; by simplify_eq/=.
      * apply elem_of_app. right. apply list_elem_of_fmap. exists entry. split; [done|].
        apply elem_of_List_filter. split; [done|]. by rewrite bool_decide_eq_false_2.
    + intros entry [He _]%elem_of_List_filter. done.
    + destruct (bool_decide_reflect (new = [])); naive_solver.
Qed.

(** ** Examples *)

Module Sample.

#[local] Existing Instance one_float.

#[local] Instance server_eq : EqDecision McpRouting.McpServerConfig.
Proof. solve_decision. Defined.
#[local] Instance mcp_eq : EqDecision McpRouting.McpConfig.
Proof. solve_decision. Defined.
#[local] Instance config_eq : EqDecision KyrisdConfig.
Proof. solve_decision. Defined.

#[local] Instance server_countable : Countable McpRouting.McpServerConfig.
Proof.
  refine (inj_countable'
    (fun s => (McpRouting.server_name s, McpRouting.upstream s, McpRouting.config_dir s))
    (fun x => McpRouting.mkServer x.1.1 x.1.2 x.2) _). by intros [].
Defined.

#[local] Instance config_countable : Countable KyrisdConfig.
Proof.
  refine (inj_countable'
    (fun c => (listen c, tls_enabled c, (inbound_key c, operator_key c),
       (McpRouting.enabled (mcp c), McpRouting.pending_timeout_seconds (mcp c),
        McpRouting.servers (mcp c)), sections c))
    (fun x => mkConfig x.1.1.1.1 x.1.1.1.2 x.1.1.2.1 x.1.1.2.2
       (McpRouting.mkMcp x.1.2.1.1 x.1.2.1.2 x.1.2.2) x.2) _). by intros [? ? ? ? [] ?].
Defined.

(** A printed form of positive numbers. *)
Fixpoint digits (p : positive) : bytes :=
  match p with xH => [] | xO p => "0"%char :: digits p | xI p => "1"%char :: digits p end.

Fixpoint undigits (l : bytes) : positive :=
  match l with
  | [] => xH
  | b :: l => if Ascii.eqb b "0" then xO (undigits l) else xI (undigits l)
  end.

Lemma undigits_digits p : undigits (digits p) = p.
Proof. induction p as [p IH|p IH|]; cbn; by rewrite ?IH. Qed.

#[local] Instance store : ConfigStore := {|
  config_path := Ok "kyrisd.yaml"%string;
  yaml_from_str t := match decode (undigits t) with Some c => Ok c | None => Err "not a configuration"%string end;
  yaml_to_string c := Ok (digits (encode (with_keys "" "" c)));
  yaml_well_formed _ := Ok tt;
  DEFAULT_CONFIG := digits (encode (mkConfig "127.0.0.1:4100" false "" "" (McpRouting.mkMcp false 0 []) []));
  secret_get_or_create account prefix := Ok (prefix ++ "-0")%string |}.

Lemma yaml_round_trip c t : yaml_to_string c = Ok t -> yaml_from_str t = Ok (with_keys "" "" c).
Proof. cbn [yaml_to_string yaml_from_str store]. intros [= <-]. by rewrite undigits_digits, decode_encode. Qed.

Definition base : string := "http://127.0.0.1:4100".

Definition github : json :=
  JObject [("url", JString "https://mcp.example/"); ("headers", JObject [("Authorization", JString "Bearer mine")])].

Definition files_server : json :=
  JObject [("command", JString "npx"); ("args", JArray [JString "-y"; JString "files"])].

Definition servers : object := [("files", files_server); ("github", github)].

Definition settings : json := JObject [("theme", JString "dark"); ("mcpServers", JObject servers)].

Definition empty_disk : disk := mkDisk ∅ None "now".

Definition path : list string := ["mcpServers"%string].

Lemma wrapped_server_runs_original_witness :
  started_as json_launch (rewrite_json_entry base "key" "claude" "files" files_server).1.1
    (mkWrap "files" (Some "claude"%string) "npx" ["-y"; "files"]) /\
  started_as toml_launch
    (rewrite_codex_entry base "key" "codex" "docs"
       (TTable [("args"%string, TArray (TString <$> ["wrap"; "--server"; "files"; "npx"; "-y"; "files"]));
                ("command"%string, TString "kyris-mcp")])).1.1
    (mkWrap "files" (Some "codex"%string) "npx" ["-y"; "files"]).
Proof.
  split.
  - apply (wrapped_server_runs_original base "key" "claude" "files" ["npx"; "-y"; "files"]%string "npx" ["-y"; "files"]%string);
      [done|by split|done].
  - apply (wrapped_server_runs_original base "key" "codex" "docs"
      ["kyris-mcp"; "wrap"; "--server"; "files"; "npx"; "-y"; "files"]%string "npx" ["-y"; "files"]%string);
      [done|by split|done].
Defined.

Lemma setup_governs_servers_witness :
  let r := rewrite_json_mcp_servers settings path base "key" "claude" in
  JsonPatch.value_at r.1 ["theme"%string] = Some (JString "dark") /\
  http_rewrites r.2 = [("github", "https://mcp.example/")]%string.
Proof.
  destruct (setup_governs_servers base "key" "claude" settings path servers) as (_ & Hr & Hframe);
    [reflexivity|].
  split; [|exact Hr]. cbv zeta in Hframe |- *. rewrite (Hframe ["theme"%string]); [reflexivity|].
  split; intros [k Hk]; discriminate.
Defined.

Lemma setup_settles_witness :
  let r := rewrite_json_mcp_servers settings path base "key" "claude" in
  rewrite_json_mcp_servers r.1 path base "key" "claude" = (r.1, unchanged).
Proof.
  apply (setup_settles base "key" "claude" settings path servers); [reflexivity|].
  intros e m [->|[->|[]%not_elem_of_nil]%elem_of_cons]%elem_of_cons Hm; vm_compute in Hm; injection Hm as <-; reflexivity.
Defined.

(** One setup on an empty disk. *)
Definition registered : result bool string * disk :=
  upsert_mcp_upstreams (http_rewrites (rewrite_json_mcp_servers settings path base "key" "claude").2)
    empty_disk.

Lemma registered_ok : registered = (Ok true, registered.2).
Proof. vm_compute. reflexivity. Qed.

Lemma servers_NoDup : NoDup servers.*1.
Proof. vm_decided. Qed.

Lemma github_in : ("github"%string, github) ∈ servers.
Proof. right. left. Qed.

Lemma routed_server_reaches_upstream_witness :
  exists c entry, load_config registered.2 = (Ok c, registered.2) /\
    McpRouting.resolve_server (mcp c) "github" = Ok entry /\
    McpRouting.upstream entry = "https://mcp.example/"%string.
Proof.
  destruct (routed_server_reaches_upstream yaml_round_trip base "key" "claude" settings path servers
    "github" github "https://mcp.example/" empty_disk true registered.2) as (_ & c & entry & Hl & _ & Hu & Hr).
  - reflexivity.
  - exact servers_NoDup.
  - exact github_in.
  - reflexivity.
  - discriminate.
  - exact registered_ok.
  - exists c, entry. auto.
Defined.

Lemma setup_leaks_inbound_key_witness :
  exists m, entry_fields (rewrite_json_entry base "key" "claude" "github" github).1.1 = Some m /\
    obj_get "Authorization" (server_headers m) = Some (JString "Bearer key") /\
    ("authorization"%string, lit "Bearer key") ∈ McpRouting.forward_request_headers (sent_headers m).
Proof. by apply (setup_leaks_inbound_key base "key" "claude" "github" github "https://mcp.example/"). Defined.

(** kyrisd moves to another port. *)
Definition moved : result bool string * disk :=
  upsert_mcp_upstreams
    (http_rewrites (rewrite_json_mcp_servers
      (rewrite_json_mcp_servers settings path base "key" "claude").1 path
      "http://127.0.0.1:4200" "key" "claude").2) registered.2.

Lemma moved_address_loses_upstream_witness :
  exists c entry, load_config moved.2 = (Ok c, moved.2) /\
    first "github" (McpRouting.servers (mcp c)) = Some entry /\
    McpRouting.upstream entry = "http://127.0.0.1:4100/mcp/github/"%string.
Proof.
  apply (moved_address_loses_upstream yaml_round_trip base "http://127.0.0.1:4200" "key" "claude" settings
    path servers "github" github "https://mcp.example/" empty_disk true registered.2 true moved.2).
  - reflexivity.
  - exact servers_NoDup.
  - exact github_in.
  - reflexivity.
  - discriminate.
  - exact registered_ok.
  - vm_compute. reflexivity.
Defined.

Definition disconnected : result unit string * disk :=
  remove_mcp_upstreams ["github"%string] registered.2.

Lemma disconnect_unregisters_names_witness :
  exists c', load_config disconnected.2 = (Ok c', disconnected.2) /\
    McpRouting.resolve_server (mcp c') "github" = Err Adapter.NOT_FOUND.
Proof.
  destruct (load_config registered.2) as [[c|] d] eqn:Hl; [|vm_compute in Hl; discriminate].
  assert (d = registered.2) as -> by (apply (f_equal snd) in Hl; vm_compute in Hl |- *; congruence).
  destruct (disconnect_unregisters_names yaml_round_trip ["github"%string] registered.2 disconnected.2 c)
    as (c' & Hc' & Hr & _); [done|exact Hl|vm_compute; reflexivity|].
  exists c'. split; [exact Hc'|]. apply Hr. by left.
Defined.

Lemma denies_only_added_witness :
  exists new, JsonPatch.value_at (add_mcp_tool_denies
      (JObject [("permissions", JObject [("deny", JArray [JString "Bash(rm)"])])])
      [("github", ["delete"])] ["github"]).1 ["permissions"; "deny"]%string
    = Some (JArray ([JString "Bash(rm)"] ++ (JString <$> new))).
Proof.
  destruct (denies_only_added
    (JObject [("permissions", JObject [("deny", JArray [JString "Bash(rm)"])])])
    [("github", ["delete"])] ["github"]%string [JString "Bash(rm)"] eq_refl) as (new & Hn & _).
  by exists new.
Defined.
End Sample.

End McpConfigure.
