(* ===== verification/Profile.v ===== *)
(** * Surfaces, plans and profiles

    [cli/src/agents/profile.rs] and the integration plans of [cli/src/agents/registry.rs]:
    what an agent can be governed by, what was observed of it, and what is kept about it. *)

From S2P Require Import Prelude.

Module Profile.

(** ** Observed state: [profile.rs] *)

Inductive CapLevel := LevelNone | LevelAdapted | LevelNative.
Inductive CoverageCeiling := CeilingCompiled | CeilingObserved.

#[export] Instance CapLevel_eq : EqDecision CapLevel.
Proof. solve_decision. Defined.
#[export] Instance CoverageCeiling_eq : EqDecision CoverageCeiling.
Proof. solve_decision. Defined.

(** [#[derive(PartialOrd)]], by the numbers of the cases. *)
Definition cap_rank (l : CapLevel) : nat :=
  match l with LevelNone => 0 | LevelAdapted => 1 | LevelNative => 2 end.

Definition cap_display (l : CapLevel) : string :=
  match l with LevelNone => "none" | LevelAdapted => "adapted" | LevelNative => "native" end.

Record SurfaceState {M : Type} := mkSurface {
  level : CapLevel;
  mechanism : option M;
  ceiling : option CoverageCeiling;
  surface_not_applicable : bool }.
Arguments SurfaceState : clear implicits.
Arguments mkSurface {M}.

Section surface.
Context {M : Type}.

Definition none : SurfaceState M := mkSurface LevelNone None None false.
Definition not_applicable : SurfaceState M := mkSurface LevelNone None None true.
Definition adapted (m : M) : SurfaceState M := mkSurface LevelAdapted (Some m) None false.
Definition native : SurfaceState M := mkSurface LevelNative None None false.

Definition with_ceiling (c : CoverageCeiling) (s : SurfaceState M) : SurfaceState M :=
  mkSurface (level s) (mechanism s) (Some c) (surface_not_applicable s).

Definition is_compiled_only (s : SurfaceState M) : bool :=
  bool_decide (ceiling s = Some CeilingCompiled).

Definition is_native (s : SurfaceState M) : bool := bool_decide (level s = LevelNative).
End surface.

(** ** Mechanisms: [registry.rs] *)

Inductive ExecutionMechanism := ExecLiveHookAdapter | ExecShellHook | ExecCompiledPolicy.
Inductive ToolMechanism := ToolLiveHookAdapter | ToolMcpWrapping.
Inductive BurnControlMechanism :=
| BurnAgentPactUsageReport | BurnKyrisdModelProvider | BurnEnvVarProxy | BurnConfigRewrite.
Inductive AttributionMechanism :=
| AttrAgentPactNative | AttrKyrisPathShim | AttrShellEnvironmentPolicy | AttrNativeHookPayload
| AttrProcessLineage | AttrPeerProcessObserved | AttrUnknown.

#[export] Instance AttributionMechanism_eq : EqDecision AttributionMechanism.
Proof. solve_decision. Defined.

Class MechanismLabel (M : Type) := {
  short : M -> string;
  detail : M -> string;
  is_in_band : M -> bool }.

Definition execution_label : MechanismLabel ExecutionMechanism := {|
  short m := match m with
    | ExecLiveHookAdapter => "hook" | ExecShellHook => "shell" | ExecCompiledPolicy => "policy" end;
  detail m := match m with
    | ExecLiveHookAdapter => "hook" | ExecShellHook => "shell hook"
    | ExecCompiledPolicy => "compiled policy" end;
  is_in_band m := match m with ExecLiveHookAdapter | ExecShellHook => true | ExecCompiledPolicy => false end |}.

Definition tool_label : MechanismLabel ToolMechanism := {|
  short m := match m with ToolLiveHookAdapter => "hook" | ToolMcpWrapping => "mcp" end;
  detail m := match m with ToolLiveHookAdapter => "hook" | ToolMcpWrapping => "mcp wrapper" end;
  is_in_band m := true |}.

Definition burn_label : MechanismLabel BurnControlMechanism := {|
  short m := match m with
    | BurnAgentPactUsageReport => "usage" | BurnKyrisdModelProvider => "provider"
    | BurnEnvVarProxy => "proxy" | BurnConfigRewrite => "config" end;
  detail m := match m with
    | BurnAgentPactUsageReport => "usage report" | BurnKyrisdModelProvider => "kyrisd model provider"
    | BurnEnvVarProxy => "env shim" | BurnConfigRewrite => "config rewrite" end;
  is_in_band m := match m with
    | BurnEnvVarProxy | BurnAgentPactUsageReport => true
    | BurnKyrisdModelProvider | BurnConfigRewrite => false end |}.

#[export] Existing Instance execution_label.
#[export] Existing Instance tool_label.
#[export] Existing Instance burn_label.

(** ** Plans *)

Inductive SurfaceIntegration {M : Type} :=
| NoIntegration
| AgentPactNative
| Adapted (mechanisms : list M) (design_ceiling : option CoverageCeiling).
Arguments SurfaceIntegration : clear implicits.

Definition adapted_by {M} (mechanisms : list M) : SurfaceIntegration M := Adapted mechanisms None.

Definition integration_is_none {M} (s : SurfaceIntegration M) : bool :=
  match s with NoIntegration => true | _ => false end.

Definition design_ceiling {M} (s : SurfaceIntegration M) : option CoverageCeiling :=
  match s with Adapted _ c => c | NoIntegration | AgentPactNative => None end.

Definition is_adapted {M} (s : SurfaceIntegration M) : bool :=
  match s with Adapted _ _ => true | _ => false end.

Definition plan_label {M} `{MechanismLabel M} (plan : SurfaceIntegration M) : string :=
  match plan with
  | NoIntegration => "none"
  | AgentPactNative => "native"
  | Adapted mechanisms _ => String.concat "+" (short <$> mechanisms)
  end.

Record AgentIntegrationPlan := mkPlan {
  plan_execution : SurfaceIntegration ExecutionMechanism;
  plan_tool : SurfaceIntegration ToolMechanism;
  plan_burn_control : SurfaceIntegration BurnControlMechanism;
  attribution : list AttributionMechanism;
  agentpact_native_attribution : bool }.

Definition expected_surfaces (p : AgentIntegrationPlan) : bool * bool * bool :=
  (negb (integration_is_none (plan_execution p)), negb (integration_is_none (plan_tool p)),
   negb (integration_is_none (plan_burn_control p))).

Definition surface_design_ceilings (p : AgentIntegrationPlan)
    : option CoverageCeiling * option CoverageCeiling * option CoverageCeiling :=
  (design_ceiling (plan_execution p), design_ceiling (plan_tool p),
   design_ceiling (plan_burn_control p)).

Definition requires_path_shim (p : AgentIntegrationPlan) : bool :=
  negb (agentpact_native_attribution p) && bool_decide (AttrKyrisPathShim ∈ attribution p).

Record NativeCapabilityDeclaration := mkNative {
  native_execution : bool; native_tool : bool; native_burn_control : bool; native_attribution : bool }.

Definition with_native_capabilities (c : NativeCapabilityDeclaration) (p : AgentIntegrationPlan)
    : AgentIntegrationPlan :=
  mkPlan
    (if native_execution c then AgentPactNative else plan_execution p)
    (if native_tool c then AgentPactNative else plan_tool p)
    (if native_burn_control c then AgentPactNative else plan_burn_control p)
    (attribution p)
    (native_attribution c || agentpact_native_attribution p).

(** ** Profiles *)

Record ManagedFileFingerprint := mkFingerprint { fp_path : string; content_hash : string }.

(** A time is kept as text. *)
Record SurfaceEvidence := mkEvidence {
  ev_execution : option string; ev_tool : option string; ev_burn_control : option string }.

Definition no_evidence : SurfaceEvidence := mkEvidence None None None.

Record AgentProfile := mkProfile {
  profile_agent : string;
  detected : bool;
  execution : SurfaceState ExecutionMechanism;
  tool : SurfaceState ToolMechanism;
  burn_control : SurfaceState BurnControlMechanism;
  managed_files : list ManagedFileFingerprint;
  last_reconciled : option string;
  last_native_seen : option string;
  native_evidence : SurfaceEvidence;
  live_evidence : SurfaceEvidence;
  agent_specific : gmap string string;
  compilation_gaps : list string;
  disconnected : bool;
  version : Z }.

Definition new_empty (agent : string) : AgentProfile :=
  mkProfile agent false none none none [] None None no_evidence no_evidence ∅ [] false 1.

Section updates.
Context (p : AgentProfile).

Definition with_detected (b : bool) (files : list ManagedFileFingerprint) : AgentProfile :=
  mkProfile (profile_agent p) b (execution p) (tool p) (burn_control p) files (last_reconciled p)
    (last_native_seen p) (native_evidence p) (live_evidence p) (agent_specific p)
    (compilation_gaps p) (disconnected p) (version p).

Definition with_surfaces e t b : AgentProfile :=
  mkProfile (profile_agent p) (detected p) e t b (managed_files p) (last_reconciled p)
    (last_native_seen p) (native_evidence p) (live_evidence p) (agent_specific p)
    (compilation_gaps p) (disconnected p) (version p).

Definition with_reconciled (t : string) : AgentProfile :=
  mkProfile (profile_agent p) (detected p) (execution p) (tool p) (burn_control p) (managed_files p)
    (Some t) (last_native_seen p) (native_evidence p) (live_evidence p) (agent_specific p)
    (compilation_gaps p) (disconnected p) (version p).

Definition with_native_evidence (ev : SurfaceEvidence) : AgentProfile :=
  mkProfile (profile_agent p) (detected p) (execution p) (tool p) (burn_control p) (managed_files p)
    (last_reconciled p) (last_native_seen p) ev (live_evidence p) (agent_specific p)
    (compilation_gaps p) (disconnected p) (version p).

Definition with_live_evidence (ev : SurfaceEvidence) : AgentProfile :=
  mkProfile (profile_agent p) (detected p) (execution p) (tool p) (burn_control p) (managed_files p)
    (last_reconciled p) (last_native_seen p) (native_evidence p) ev (agent_specific p)
    (compilation_gaps p) (disconnected p) (version p).

Definition with_specific (settings : gmap string string) : AgentProfile :=
  mkProfile (profile_agent p) (detected p) (execution p) (tool p) (burn_control p) (managed_files p)
    (last_reconciled p) (last_native_seen p) (native_evidence p) (live_evidence p) settings
    (compilation_gaps p) (disconnected p) (version p).

Definition with_gaps (gaps : list string) : AgentProfile :=
  mkProfile (profile_agent p) (detected p) (execution p) (tool p) (burn_control p) (managed_files p)
    (last_reconciled p) (last_native_seen p) (native_evidence p) (live_evidence p) (agent_specific p)
    gaps (disconnected p) (version p).

Definition with_disconnected (b : bool) : AgentProfile :=
  mkProfile (profile_agent p) (detected p) (execution p) (tool p) (burn_control p) (managed_files p)
    (last_reconciled p) (last_native_seen p) (native_evidence p) (live_evidence p) (agent_specific p)
    (compilation_gaps p) b (version p).

Definition migrate_native_evidence : AgentProfile :=
  match last_native_seen p, ev_burn_control (native_evidence p) with
  | Some ts, None =>
      with_native_evidence (mkEvidence (ev_execution (native_evidence p)) (ev_tool (native_evidence p)) (Some ts))
  | _, _ => p
  end.
End updates.

Definition or_else {A} (mine other : option A) : option A :=
  match mine with Some x => Some x | None => other end.

Definition merge_missing_from (mine other : SurfaceEvidence) : SurfaceEvidence * bool :=
  let missing (a b : option string) := negb (bool_decide (is_Some a)) && bool_decide (is_Some b) in
  (mkEvidence (or_else (ev_execution mine) (ev_execution other)) (or_else (ev_tool mine) (ev_tool other))
     (or_else (ev_burn_control mine) (ev_burn_control other)),
   missing (ev_execution mine) (ev_execution other) || missing (ev_tool mine) (ev_tool other)
   || missing (ev_burn_control mine) (ev_burn_control other)).

(** [probe.rs]: what is found on disk. *)
Record ProbeResult := mkProbe {
  probe_detected : bool;
  probe_execution : SurfaceState ExecutionMechanism;
  probe_tool : SurfaceState ToolMechanism;
  probe_burn_control : SurfaceState BurnControlMechanism;
  probe_managed_files : list ManagedFileFingerprint }.

Definition not_detected : ProbeResult := mkProbe false none none none [].

End Profile.
