(* ===== verification/Reconcile.v ===== *)
(** * Setting agents up, keeping them so, and disconnecting them

    [cli/src/agents/reconcile.rs], the orchestration of [configure.rs] and
    [configure/daemons.rs], [undo.rs] and the commands of [agents/mod.rs], as programs that
    ask: the profile store, the probes, the operations on an agent's surfaces
    ([McpConfigure], [Configure] and their like), the daemons.  What goes to the optional
    install log is left out. *)

From S2P Require Import Prelude Text Prog Profile.

Module Reconcile.
Import Profile.
Local Open Scope prog_scope.
Local Open Scope string_scope.
Local Open Scope list_scope.

Inductive Surface := Execution | Tool | BurnControl.

#[export] Instance Surface_eq : EqDecision Surface.
Proof. solve_decision. Defined.

Definition settings := gmap string string.

(** The questions about one agent. *)
Inductive Ask : Type -> Type :=
| LoadProfile : Ask (result (option AgentProfile) string)
| SaveProfile (p : AgentProfile) : Ask (result unit string)
(** The base URL and the inbound key of [load_or_init_config]. *)
| LoadOrInitConfig : Ask (result (string * string) string)
| IsInstalled : Ask bool
| Probe : Ask ProbeResult
(** What the agent says of itself, the breadcrumb of kyrisd, and those of the surfaces. *)
| NativeEvidence : Ask SurfaceEvidence
| NativeSeen : Ask (option string)
| LiveEvidence : Ask SurfaceEvidence
| ConfigureSurface (s : Surface) (base_url inbound_key : string) (specific : settings)
    : Ask (result (list string) string)
| UndoSurface (s : Surface) : Ask (result unit string)
| Prestage : Ask (result (list string) string)
| InstallShim : Ask (result (list string) string)
| UninstallShim : Ask (result bool string)
| UndoEnv : Ask (result unit string)
| ScrubResidue : Ask (result (list string) string)
| HttpGet (url : string) : Ask (result Z string)
| AgentPactReachable : Ask bool
| Exists (path : string) : Ask bool
| ReadFile (path : string) : Ask (option bytes)
| Sha256File (path : string) : Ask (option string)
| UnwrappedServers : Ask (list string)
| Now : Ask string
| Print (line : string) : Ask unit
| Complain (line : string) : Ask unit.

Definition task (A : Type) : Type := prog Ask (result A string).

(** The [?] operator. *)
Definition try_ {A B} (p : task A) (f : A -> task B) : task B :=
  r ← p; match r with Ok a => f a | Err e => Ret (Err e) end.

Notation "x ←? y ; z" := (try_ y (fun x => z))
  (at level 20, y at level 100, z at level 200, only parsing).

(** What an agent declares. *)
Record Descriptor := mkDescriptor {
  id : string;
  plan : AgentIntegrationPlan;
  kyris_content_markers : list string;
  supported_settings : list (string * string) }.

Section agent.
Context (agent : Descriptor).

(** ** The daemons *)

Definition success_status (status : Z) : bool := bool_decide (200 <= status <= 299)%Z.

(** [show] prints a status. *)
Definition verify_kyrisd_health (show : Z -> string) (base_url : string) : task unit :=
  let url := (base_url ++ "/healthz")%string in
  response ← ask (HttpGet url);
  match response with
  | Err e => Ret (Err ("kyrisd is not reachable at " ++ url ++ ": " ++ e)%string)
  | Ok status =>
      if success_status status then Ret (Ok tt)
      else Ret (Err ("kyrisd health check failed at " ++ url ++ ": " ++ show status)%string)
  end.

Definition governance_daemons_error (kyrisd_problem : option string) (agentpactd_down : bool)
    : option string :=
  let down :=
    match kyrisd_problem with
    | Some problem =>
        [("kyrisd unreachable (" ++ problem ++ ") — model routing / burn-control will not work "
          ++ "(try `launchctl kickstart gui/$UID/is.kyr.kyrisd` or reinstall)")%string]
    | None => []
    end
    ++ (if agentpactd_down : bool then
          [("agentpactd unreachable — command & MCP governance will not enforce; the agent "
            ++ "would run UNGOVERNED (start agentpactd or reinstall)")%string] else []) in
  match down with
  | [] => None
  | _ =>
      let line := String (Ascii.ascii_of_nat 10) "  - " in
      Some (id agent ++ " configured, but governance is NOT active:" ++ line
            ++ String.concat line down ++ String (Ascii.ascii_of_nat 10)
               "The configuration is in place — re-run `kyris agent setup " ++ id agent
            ++ "` once the daemon(s) are up.")%string
  end.

Context (show_status : Z -> string).

Definition verify_governance_daemons (base_url : string) (check_agentpactd : bool) : task unit :=
  health ← verify_kyrisd_health show_status base_url;
  let kyrisd_problem := match health with Err e => Some e | Ok _ => None end in
  agentpactd_down ← (if check_agentpactd : bool
                     then up ← ask AgentPactReachable; Ret (negb up) else Ret false);
  match governance_daemons_error kyrisd_problem agentpactd_down with
  | Some msg => Ret (Err msg)
  | None => Ret (Ok tt)
  end.

(** ** Configuring the surfaces *)

Definition skip_or (skip : bool) (p : task (list string)) : task (list string) :=
  if skip then Ret (Ok []) else p.

Fixpoint print_all (lines : list string) : prog Ask unit :=
  match lines with [] => Ret tt | l :: lines => _ ← ask (Print l); print_all lines end.

Definition configure_agent_surfaces (specific : settings)
    (skip_execution skip_tool skip_burn_control : bool) : task unit :=
  installed ← ask IsInstalled;
  if negb installed then Ret (Err (id agent ++ " is not installed.")%string)
  else
    config ←? ask LoadOrInitConfig;
    let '(base_url, inbound_key) := config in
    shim ←? skip_or (negb (requires_path_shim (plan agent))) (ask InstallShim);
    execution ←? skip_or (skip_execution || negb (is_adapted (plan_execution (plan agent))))
                   (ask (ConfigureSurface Execution base_url inbound_key specific));
    tool ←? skip_or (skip_tool || negb (is_adapted (plan_tool (plan agent))))
              (ask (ConfigureSurface Tool base_url inbound_key specific));
    burn ←? (if skip_burn_control || negb (is_adapted (plan_burn_control (plan agent)))
             then Ret (Ok [])
             else
               changes ←? ask (ConfigureSurface BurnControl base_url inbound_key specific);
               health ← verify_kyrisd_health show_status base_url;
               match health with
               | Ok _ => Ret (Ok changes)
               | Err error =>
                   Ret (Err ("kyrisd unreachable (" ++ error ++ "). Bring kyrisd up (try "
                     ++ "`launchctl kickstart gui/$UID/is.kyr.kyrisd` or reinstall), then re-run "
                     ++ "`kyris agent setup " ++ id agent ++ "`.")%string)
               end);
    match shim ++ execution ++ tool ++ burn with
    | [] => _ ← ask (Print ("No changes needed for " ++ id agent ++ ".")%string); Ret (Ok tt)
    | changes =>
        _ ← ask (Print ("Configured " ++ id agent ++ ":")%string);
        _ ← print_all ((fun c => ("  " ++ c)%string) <$> changes);
        Ret (Ok tt)
    end.

(** ** Reconciliation *)

Definition was_configured : prog Ask bool :=
  loaded ← ask LoadProfile;
  Ret (match loaded with
       | Ok (Some p) =>
           negb (bool_decide (level (execution p) = LevelNone))
           || negb (bool_decide (level (tool p) = LevelNone))
           || negb (bool_decide (level (burn_control p) = LevelNone))
       | _ => false
       end).

Definition load_or_empty : task AgentProfile :=
  loaded ←? ask LoadProfile; Ret (Ok (default (new_empty (id agent)) loaded)).

(** [parse] reads a time; the file is not there, or not a time, as if nothing was seen. *)
Definition read_breadcrumb (parse : string -> option string) (contents : option string) : option string :=
  match contents with Some c => parse (str_trim c) | None => None end.

Definition collect_native_evidence (parse : string -> option string) : prog Ask SurfaceEvidence :=
  evidence ← ask NativeEvidence;
  match ev_burn_control evidence with
  | Some _ => Ret evidence
  | None =>
      contents ← ask NativeSeen;
      Ret (mkEvidence (ev_execution evidence) (ev_tool evidence)
             (read_breadcrumb parse contents))
  end.

Definition promote_surface {M} (s : Surface) (surface : SurfaceState M) (should_promote : bool)
    : task (SurfaceState M * bool) :=
  if negb should_promote || is_native surface then Ret (Ok (surface, false))
  else if bool_decide (level surface = LevelAdapted) then
    _ ←? ask (UndoSurface s); Ret (Ok (native, true))
  else Ret (Ok (native, true)).

Definition file_contains_marker (path : string) (markers : list string) : prog Ask bool :=
  match markers with
  | [] => Ret false
  | _ =>
      contents ← ask (ReadFile path);
      Ret (match contents with
           | Some contents => existsb (fun m => contains (lit m) contents) markers
           | None => false
           end)
  end.

(** Is Kyris's content gone from one of the files? *)
Fixpoint files_lost (files : list ManagedFileFingerprint) : prog Ask bool :=
  match files with
  | [] => Ret false
  | fp :: files =>
      there ← ask (Exists (fp_path fp));
      if negb there then Ret true
      else
        hash ← ask (Sha256File (fp_path fp));
        if String.eqb (default "" hash) (content_hash fp) then files_lost files
        else
          marked ← file_contains_marker (fp_path fp) (kyris_content_markers agent);
          if marked : bool then files_lost files else Ret true
  end.

Definition needs_repair (files : list ManagedFileFingerprint) : prog Ask bool :=
  lost ← files_lost files;
  if lost : bool then Ret true
  else
    configured ← was_configured;
    if configured : bool
    then unwrapped ← ask UnwrappedServers; Ret (negb (bool_decide (unwrapped = [])))
    else Ret false.

(** The surfaces and files of a later probe. *)
Definition reprobed (probe updated : ProbeResult) : ProbeResult :=
  mkProbe (probe_detected probe) (probe_execution updated) (probe_tool updated)
    (probe_burn_control updated) (probe_managed_files updated).

(** Configure, print what came of it, look again. *)
Definition configure_and_probe (done failed : string) (specific : settings) (e t b : bool)
    (probe : ProbeResult) : prog Ask ProbeResult :=
  r ← configure_agent_surfaces specific e t b;
  _ ← (match r with
       | Ok _ => ask (Print (done ++ id agent)%string)
       | Err e => ask (Complain (failed ++ id agent ++ " failed: " ++ e)%string)
       end);
  updated ← ask Probe;
  Ret (reprobed probe updated).

(** A native level stays: the probe cannot see it. *)
Definition observed {M} (mine probed : SurfaceState M) : SurfaceState M :=
  if is_native mine then mine else probed.

Definition with_probe (probe : ProbeResult) (p : AgentProfile) : AgentProfile :=
  with_surfaces p (observed (execution p) (probe_execution probe))
    (observed (tool p) (probe_tool probe)) (observed (burn_control p) (probe_burn_control probe)).

(** An undo that failed leaves the surface as it is. *)
Definition promote_or_complain {M} (what : string) (s : Surface) (surface : SurfaceState M)
    (should_promote : bool) : prog Ask (SurfaceState M * bool) :=
  r ← promote_surface s surface should_promote;
  match r with
  | Ok promoted => Ret promoted
  | Err e =>
      _ ← ask (Complain (what ++ " cleanup for " ++ id agent ++ " failed: " ++ e)%string);
      Ret (surface, false)
  end.

Definition is_some {A} (o : option A) : bool := match o with Some _ => true | None => false end.

Definition promote_all (probe : ProbeResult) (p : AgentProfile) : prog Ask (AgentProfile * ProbeResult) :=
  let '(need_execution, need_tool, need_burn) := expected_surfaces (plan agent) in
  let promote_execution := need_execution && is_some (ev_execution (native_evidence p)) in
  let promote_tool := need_tool && is_some (ev_tool (native_evidence p)) in
  let promote_burn := need_burn && is_some (ev_burn_control (native_evidence p)) in
  '(e, execution_changed) ← promote_or_complain "Execution" Execution (execution p) promote_execution;
  '(t, tool_changed) ← promote_or_complain "Tool" Tool (tool p) promote_tool;
  '(b, burn_changed) ← promote_or_complain "Burn-control" BurnControl (burn_control p) promote_burn;
  let p := with_surfaces p e t b in
  if execution_changed || tool_changed || burn_changed then
    r ← configure_agent_surfaces (agent_specific p) promote_execution promote_tool promote_burn;
    _ ← (match r with
         | Ok _ => Ret tt
         | Err e => ask (Complain ("Re-configure " ++ id agent ++ " after promotion failed: " ++ e)%string)
         end);
    updated ← ask Probe;
    Ret (p, mkProbe (probe_detected probe) (probe_execution probe) (probe_tool probe)
              (probe_burn_control probe) (probe_managed_files updated))
  else Ret (p, probe).

Definition save_reconciled (p : AgentProfile) : task AgentProfile :=
  t ← ask Now;
  let p := with_reconciled p t in
  _ ←? ask (SaveProfile p);
  Ret (Ok p).

Context (parse_time : string -> option string).

(** The pass over an agent that is there and not disconnected, once the evidence is in. *)
Definition govern_with (probe : ProbeResult) (p : AgentProfile) (evidence : SurfaceEvidence)
    : task AgentProfile :=
  let p := with_native_evidence p (merge_missing_from (native_evidence p) evidence).1 in
  let execution_native := is_native (execution p) || is_some (ev_execution (native_evidence p)) in
  let tool_native := is_native (tool p) || is_some (ev_tool (native_evidence p)) in
  let burn_native := is_native (burn_control p) || is_some (ev_burn_control (native_evidence p)) in
  configured ← was_configured;
  probe ← (if negb configured && negb (disconnected p)
           then configure_and_probe "Auto-configured " "Auto-configure " (agent_specific p)
                  execution_native tool_native burn_native probe
           else Ret probe);
  repair ← needs_repair (managed_files p);
  probe ← (if repair : bool
           then configure_and_probe "Repaired " "Repair " (agent_specific p)
                  execution_native tool_native burn_native probe
           else Ret probe);
  '(p, probe) ← promote_all probe (with_probe probe p);
  live ← ask LiveEvidence;
  save_reconciled (with_live_evidence (with_detected p (detected p) (probe_managed_files probe)) live).

Definition govern (probe : ProbeResult) (p : AgentProfile) : task AgentProfile :=
  let p := migrate_native_evidence p in
  evidence ← collect_native_evidence parse_time;
  govern_with probe p evidence.

Definition reconcile_agent : task AgentProfile :=
  p ←? load_or_empty;
  probe ← ask Probe;
  if negb (probe_detected probe) then
    save_reconciled (if detected p then with_detected p false [] else p)
  else
    let p := with_detected p true (managed_files p) in
    if disconnected p then save_reconciled p else govern probe p.

Definition status_snapshot_agent : task AgentProfile :=
  p ←? load_or_empty;
  probe ← ask Probe;
  if negb (probe_detected probe) then Ret (Ok (with_detected p false []))
  else
    live ← ask LiveEvidence;
    Ret (Ok (with_live_evidence
      (with_detected (with_probe probe p) true (probe_managed_files probe)) live)).

(** ** Setup and disconnect *)

Definition validate_agent_settings (keys : list string) : result unit string :=
  match List.find (fun key => negb (existsb (fun s => String.eqb s.1 key) (supported_settings agent))) keys with
  | None => Ok tt
  | Some key =>
      let line := String (Ascii.ascii_of_nat 10) "" in
      let detail :=
        match supported_settings agent with
        | [] => (id agent ++ " accepts no --set settings.")%string
        | supported =>
            ("Valid --set keys for " ++ id agent ++ ":" ++ line
             ++ String.concat line ((fun s => "  " ++ s.1 ++ " — " ++ s.2) <$> supported))%string
        end in
      Err ("Unknown --set key '" ++ key ++ "' for " ++ id agent ++ ". " ++ detail)%string
  end.

Definition clear_disconnected_flag : task unit :=
  loaded ←? ask LoadProfile;
  match loaded with
  | Some p => if disconnected p then ask (SaveProfile (with_disconnected p false)) else Ret (Ok tt)
  | None => Ret (Ok tt)
  end.

Definition save_agent_specific (specific : settings) : task unit :=
  p ←? load_or_empty;
  ask (SaveProfile (with_specific p (specific ∪ agent_specific p))).

(** The surfaces of an agent that is there, and the daemons they need. *)
Definition setup_surfaces (base_url inbound_key : string) (effective : settings)
    : task (list string) :=
  installed ← ask IsInstalled;
  if installed : bool then
    shim ←? skip_or (negb (requires_path_shim (plan agent))) (ask InstallShim);
    execution ←? skip_or (negb (is_adapted (plan_execution (plan agent))))
                   (ask (ConfigureSurface Execution base_url inbound_key effective));
    tool ←? skip_or (negb (is_adapted (plan_tool (plan agent))))
              (ask (ConfigureSurface Tool base_url inbound_key effective));
    burn ←? skip_or (negb (is_adapted (plan_burn_control (plan agent))))
              (ask (ConfigureSurface BurnControl base_url inbound_key effective));
    let needs_agentpactd :=
      is_adapted (plan_execution (plan agent)) || is_adapted (plan_tool (plan agent)) in
    _ ←? verify_governance_daemons base_url needs_agentpactd;
    Ret (Ok (shim ++ execution ++ tool ++ burn))
  else
    _ ←? verify_governance_daemons base_url false;
    Ret (Ok []).

(** What is kept of a setup.  [keys] is the order in which a traversal of the settings
    finds them. *)
Definition setup_record (keys : list string) (specific : settings) (changes : list string)
    : task unit :=
  _ ←? clear_disconnected_flag;
  settings_set ←? (match keys with
    | [] => Ret (Ok [])
    | _ =>
        _ ←? save_agent_specific specific;
        Ret (Ok ((fun k => ("set " ++ k ++ "=" ++ default "" (specific !! k))%string) <$> keys))
    end);
  match changes ++ settings_set with
  | [] => _ ← ask (Print ("No changes needed for " ++ id agent ++ ".")%string); Ret (Ok tt)
  | changes =>
      installed ← ask IsInstalled;
      _ ← (if installed : bool then Ret tt
           else ask (Print (id agent ++ " not installed — prestaged only. Configure will run "
                       ++ "automatically when the agent is detected.")%string));
      _ ← ask (Print ("Applied setup for " ++ id agent ++ ":")%string);
      _ ← print_all ((fun c => ("  " ++ c)%string) <$> changes);
      Ret (Ok tt)
  end.

Definition setup_agent (keys : list string) (specific : settings) : task unit :=
  match validate_agent_settings keys with
  | Err e => Ret (Err e)
  | Ok _ =>
      config ←? ask LoadOrInitConfig;
      let '(base_url, inbound_key) := config in
      loaded ←? ask LoadProfile;
      let effective := specific ∪ default ∅ (agent_specific <$> loaded) in
      prestaged ←? ask Prestage;
      changes ←? setup_surfaces base_url inbound_key effective;
      setup_record keys specific (prestaged ++ changes)
  end.

Definition undo_agent : task unit :=
  _ ←? (if is_adapted (plan_tool (plan agent)) then ask (UndoSurface Tool) else Ret (Ok tt));
  _ ←? (if is_adapted (plan_execution (plan agent)) then ask (UndoSurface Execution) else Ret (Ok tt));
  _ ←? (if is_adapted (plan_burn_control (plan agent)) then ask (UndoSurface BurnControl)
        else Ret (Ok tt));
  removed ←? (if requires_path_shim (plan agent) then ask UninstallShim else Ret (Ok false));
  _ ← (if removed : bool then ask (Print ("Removed PATH shim for " ++ id agent)%string) else Ret tt);
  _ ←? ask UndoEnv;
  scrubbed ← ask ScrubResidue;
  _ ← (match scrubbed with
       | Ok changes => print_all changes
       | Err e => ask (Complain ("Warning: residue scrub for " ++ id agent ++ " failed: " ++ e)%string)
       end);
  p ←? load_or_empty;
  ask (SaveProfile (with_disconnected
    (with_detected (with_surfaces p none none none) (detected p) []) true)).

(** [kyris agent setup <id>], without the touch of the debounce file. *)
Definition run_setup (keys : list string) (specific : settings) : task unit :=
  _ ←? setup_agent keys specific;
  _ ←? reconcile_agent;
  Ret (Ok tt).
End agent.

(** ** All agents *)

Inductive AskAll : Type -> Type :=
| About (a : Descriptor) {X : Type} (e : Ask X) : AskAll X
(** Is the last pass less than [DEBOUNCE_SECONDS] old? *)
| RecentPass : AskAll bool
| TouchLastReconcile : AskAll unit.

Fixpoint about {A} (a : Descriptor) (p : prog Ask A) : prog AskAll A :=
  match p with
  | Ret r => Ret r
  | Vis e k => Vis (About a e) (fun x => about a (k x))
  | Panic => Panic
  end.

(** [pass] on every agent, up to the first error. *)
Fixpoint for_agents (pass : Descriptor -> task AgentProfile) (agents : list Descriptor)
    : prog AskAll (result (list (Descriptor * AgentProfile)) string) :=
  match agents with
  | [] => Ret (Ok [])
  | a :: agents =>
      r ← about a (pass a);
      match r with
      | Err e => Ret (Err e)
      | Ok p =>
          rest ← for_agents pass agents;
          Ret (match rest with Ok results => Ok ((a, p) :: results) | Err e => Err e end)
      end
  end.

Section all.
Context (show_status : Z -> string) (parse_time : string -> option string).

Definition reconcile_all (auto : bool) (agents : list Descriptor)
    : prog AskAll (result (list (Descriptor * AgentProfile)) string) :=
  skip ← (if auto then ask RecentPass else Ret false);
  if skip : bool then for_agents load_or_empty agents
  else
    results ← for_agents (fun a => reconcile_agent a show_status parse_time) agents;
    match results with
    | Err e => Ret (Err e)
    | Ok results => _ ← ask TouchLastReconcile; Ret (Ok results)
    end.

Definition status_snapshot_all := for_agents status_snapshot_agent.
End all.

(** [parse_settings] of [mod.rs]. *)
Fixpoint split_once (s : string) : option (string * string) :=
  match s with
  | EmptyString => None
  | String c s =>
      if Ascii.eqb c "=" then Some (EmptyString, s)
      else option_map (fun p => (String c p.1, p.2)) (split_once s)
  end.

Fixpoint parse_settings_into (m : settings) (raw : list string) : result settings string :=
  match raw with
  | [] => Ok m
  | entry :: raw =>
      match split_once entry with
      | None => Err ("Invalid --set value '" ++ entry ++ "': expected KEY=VALUE")%string
      | Some (EmptyString, _) => Err ("Invalid --set value '" ++ entry ++ "': empty key")%string
      | Some (k, v) => parse_settings_into (<[k := v]> m) raw
      end
  end.

Definition parse_settings : list string -> result settings string := parse_settings_into ∅.

(** ** What a run shows *)

(** Does it touch the agent's own files, or Kyris's for it? *)
Definition touches (ob : obs Ask) : bool :=
  match ob with
  | Obs e _ =>
      match e with
      | ConfigureSurface _ _ _ _ | UndoSurface _ | Prestage | InstallShim | UninstallShim | UndoEnv
      | ScrubResidue | LoadOrInitConfig => true
      | _ => false
      end
  end.

Definition saves (ob : obs Ask) : bool :=
  match ob with Obs e _ => match e with SaveProfile _ => true | _ => false end end.

Definition configures (s : Surface) (ob : obs Ask) : bool :=
  match ob with
  | Obs e _ => match e with ConfigureSurface s' _ _ _ => bool_decide (s = s') | _ => false end
  end.

Definition undoes (s : Surface) (ob : obs Ask) : bool :=
  match ob with Obs e _ => match e with UndoSurface s' => bool_decide (s = s') | _ => false end end.

Definition configured_ok (s : Surface) (ob : obs Ask) : bool :=
  match ob with
  | Obs e x =>
      match e in Ask X return X -> bool with
      | ConfigureSurface s' _ _ _ =>
          fun r => bool_decide (s = s') && match r with Ok _ => true | Err _ => false end
      | _ => fun _ => false
      end x
  end.

Definition loaded_by (ob : obs Ask) : option (result (option AgentProfile) string) :=
  match ob with
  | Obs e x => match e in Ask X return X -> _ with LoadProfile => Some | _ => fun _ => None end x
  end.

Definition declared_by (ob : obs Ask) : option SurfaceEvidence :=
  match ob with
  | Obs e x => match e in Ask X return X -> _ with NativeEvidence => Some | _ => fun _ => None end x
  end.

Definition breadcrumb_by (ob : obs Ask) : option (option string) :=
  match ob with
  | Obs e x => match e in Ask X return X -> _ with NativeSeen => Some | _ => fun _ => None end x
  end.

Definition healthy (url : string) (ob : obs Ask) : bool :=
  match ob with
  | Obs e x =>
      match e in Ask X return X -> bool with
      | HttpGet u =>
          fun r => String.eqb u url && match r with Ok status => success_status status | Err _ => false end
      | _ => fun _ => false
      end x
  end.

Definition enforcing (ob : obs Ask) : bool :=
  match ob with
  | Obs e x => match e in Ask X return X -> bool with AgentPactReachable => fun b => b | _ => fun _ => false end x
  end.

Definition base_of (ob : obs Ask) : option string :=
  match ob with
  | Obs e x =>
      match e in Ask X return X -> _ with
      | LoadOrInitConfig => fun r => match r with Ok config => Some config.1 | Err _ => None end
      | _ => fun _ => None
      end x
  end.

(** The profile a pass starts from. *)
Definition starting (a : Descriptor) (tr : list (obs Ask)) : AgentProfile :=
  match first_of loaded_by tr with
  | Some (Ok (Some p)) => p
  | _ => new_empty (id a)
  end.

(** The times known of native surfaces, old ones first. *)
Definition known (a : Descriptor) (parse : string -> option string) (tr : list (obs Ask))
    : SurfaceEvidence :=
  let declared := default no_evidence (first_of declared_by tr) in
  let seen := read_breadcrumb parse (default None (first_of breadcrumb_by tr)) in
  (merge_missing_from (native_evidence (migrate_native_evidence (starting a tr)))
     (mkEvidence (ev_execution declared) (ev_tool declared)
        (or_else (ev_burn_control declared) seen))).1.

Definition evidence_of (s : Surface) (ev : SurfaceEvidence) : option string :=
  match s with Execution => ev_execution ev | Tool => ev_tool ev | BurnControl => ev_burn_control ev end.

Definition level_of (s : Surface) (p : AgentProfile) : CapLevel :=
  match s with
  | Execution => level (execution p) | Tool => level (tool p) | BurnControl => level (burn_control p)
  end.

(** The store: what a load finds is what the last save that worked put there. *)
Fixpoint stored (store : option AgentProfile) (tr : list (obs Ask)) (after : option AgentProfile) : Prop :=
  match tr with
  | [] => after = store
  | Obs e x :: tr =>
      match e in Ask X return X -> Prop with
      | LoadProfile => fun r =>
          (r = Ok store \/ exists err, r = Err err) /\ stored store tr after
      | SaveProfile p => fun r =>
          stored (match r with Ok _ => Some p | Err _ => store end) tr after
      | _ => fun _ => stored store tr after
      end x
  end.

(** A profile but for what any look at the agent refreshes. *)
Definition lasting (p : AgentProfile) : AgentProfile := with_reconciled (with_detected p false []) "".

Lemma stored_app store tr1 tr2 after :
  stored store (tr1 ++ tr2) after <-> exists mid, stored store tr1 mid /\ stored mid tr2 after.
Proof.
  revert store. induction tr1 as [|[X e x] tr1 IH]; intros store.
  - split; [intros H; by exists store|intros (mid & -> & H); done].
  - change ((Obs e x :: tr1) ++ tr2) with (Obs e x :: (tr1 ++ tr2)).
    destruct e; cbn [stored]; rewrite ?IH; naive_solver.
Qed.

(** ** One pass *)

Section pass.
Context (agent : Descriptor) (show_status : Z -> string) (parse_time : string -> option string).

(** The questions that leave native evidence alone. *)
Definition settled (undo configure : Surface -> Prop) (X : Type) (e : Ask X) : Prop :=
  match e with
  | NativeEvidence | NativeSeen => False
  | UndoSurface s => undo s
  | ConfigureSurface s _ _ _ => configure s
  | _ => True
  end.

Section settled.
Context (undo configure : Surface -> Prop).

#[local] Notation quiet p := (asks (settled undo configure) p (fun _ => True)).

Lemma mute_bind {A B} (p : prog Ask A) (f : A -> prog Ask B) :
  quiet p -> (forall a, quiet (f a)) -> quiet (prog_bind p f).
Proof.
  intros Hp Hf. apply asks_bind. eapply asks_mono; [exact Hp|]. intros [a|] _; [apply Hf|done].
Qed.

Lemma quiet_try {A B} (p : task A) (f : A -> task B) :
  quiet p -> (forall a, quiet (f a)) -> quiet (try_ p f).
Proof. intros Hp Hf. apply mute_bind; [done|]. intros [a|e]; [apply Hf|done]. Qed.

Lemma mute_ask {X} (e : Ask X) : settled undo configure X e -> quiet (ask e).
Proof. by intros He. Qed.

Lemma quiet_print_all lines : quiet (print_all lines).
Proof. induction lines as [|l lines IH]; cbn; [done|]. by split. Qed.

Lemma quiet_health base_url : quiet (verify_kyrisd_health show_status base_url).
Proof. cbn. split; [done|]. intros [s|e]; cbn; [by destruct (success_status s)|done]. Qed.

Lemma quiet_was_configured : quiet was_configured.
Proof. by cbn. Qed.

Lemma quiet_skip b p : (b = false -> quiet p) -> quiet (skip_or b p).
Proof. destruct b; cbn; [done|]. intros Hp. by apply Hp. Qed.

(** Every surface that is not skipped may be configured. *)
Definition may_configure (e t b : bool) : Prop :=
  (e = false -> is_adapted (plan_execution (plan agent)) = true -> configure Execution) /\
  (t = false -> is_adapted (plan_tool (plan agent)) = true -> configure Tool) /\
  (b = false -> is_adapted (plan_burn_control (plan agent)) = true -> configure BurnControl).

Lemma quiet_configure specific e t b :
  may_configure e t b -> quiet (configure_agent_surfaces agent show_status specific e t b).
Proof.
  intros (He & Ht & Hb). unfold configure_agent_surfaces.
  apply mute_bind; [by apply mute_ask|]. intros []; [|done]. cbn [negb].
  apply quiet_try; [by apply mute_ask|]. intros [base key].
  apply quiet_try; [by apply quiet_skip|]. intros shim.
  apply quiet_try; [apply quiet_skip; intros [? ?%negb_false_iff]%orb_false_iff; by apply mute_ask, He|]. intros ex.
  apply quiet_try; [apply quiet_skip; intros [? ?%negb_false_iff]%orb_false_iff; by apply mute_ask, Ht|]. intros to.
  apply quiet_try.
  - destruct (b || _) eqn:Hor; [done|]. apply orb_false_iff in Hor as [Hb' ?%negb_false_iff].
    apply quiet_try; [by apply mute_ask, Hb|]. intros changes.
    apply mute_bind; [apply quiet_health|]. by intros [].
  - intros burn. destruct (shim ++ ex ++ to ++ burn) as [|c cs].
    + by apply mute_bind; [apply mute_ask|].
    + apply mute_bind; [by apply mute_ask|]. intros _.
      apply mute_bind; [apply quiet_print_all|done].
Qed.

Lemma quiet_configure_and_probe done_ failed specific e t b probe :
  may_configure e t b -> quiet (configure_and_probe agent show_status done_ failed specific e t b probe).
Proof.
  intros Hmay. apply mute_bind; [by apply quiet_configure|]. intros [c|err];
  (apply mute_bind; [by apply mute_ask|]; intros _; by cbn).
Qed.

Lemma quiet_files_lost files : quiet (files_lost agent files).
Proof.
  induction files as [|fp files IH]; cbn [files_lost]; [done|].
  apply mute_bind; [by apply mute_ask|]. intros []; [|done]. cbn [negb].
  apply mute_bind; [by apply mute_ask|]. intros hash.
  destruct (String.eqb _ _); [done|]. apply mute_bind.
  - unfold file_contains_marker. by destruct (kyris_content_markers agent).
  - by intros [].
Qed.

Lemma quiet_needs_repair files : quiet (needs_repair agent files).
Proof.
  apply mute_bind; [apply quiet_files_lost|]. intros []; [done|].
  apply mute_bind; [done|]. by intros [].
Qed.

Lemma quiet_promote {M} what s (surface : SurfaceState M) b :
  (b = true -> undo s) -> quiet (promote_or_complain agent what s surface b).
Proof.
  intros Hu. apply mute_bind.
  - unfold promote_surface. destruct b; cbn [negb orb]; [|done].
    destruct (is_native surface); [done|]. case_bool_decide; [|done].
    apply quiet_try; [by apply mute_ask, Hu|done].
  - intros [?|?]; [done|]. by apply mute_bind; [apply mute_ask|].
Qed.

End settled.

#[local] Notation known_first ev := (fun s => is_Some (evidence_of s ev)) (only parsing).
#[local] Notation not_known ev := (fun s => evidence_of s ev = None) (only parsing).
#[local] Notation hands_over ev p :=
  (asks (settled (known_first ev) (not_known ev)) p (fun _ => True)).

Lemma is_some_spec {A} (o : option A) : is_some o = true <-> is_Some o.
Proof. destruct o; cbn; split; intros H; (eauto || done || by destruct H). Qed.

Lemma is_some_false {A} (o : option A) : is_some o = false <-> o = None.
Proof. by destruct o. Qed.

Lemma skipped_when_known ev e t b :
  may_configure (not_known ev) (e || is_some (ev_execution ev)) (t || is_some (ev_tool ev))
    (b || is_some (ev_burn_control ev)).
Proof. repeat split; intros [_ H%is_some_false]%orb_false_iff _; exact H. Qed.

Lemma promote_all_hands_over ev probe p :
  native_evidence p = ev -> hands_over ev (promote_all agent show_status probe p).
Proof.
  intros <-. unfold promote_all. destruct (expected_surfaces (plan agent)) as [[ne nt] nb] eqn:Hexp.
  injection Hexp as He Ht Hb.
  apply mute_bind; [apply quiet_promote; intros [_ H%is_some_spec]%andb_true_iff; exact H|].
  intros [e ec]. apply mute_bind; [apply quiet_promote; intros [_ H%is_some_spec]%andb_true_iff; exact H|].
  intros [t tc]. apply mute_bind; [apply quiet_promote; intros [_ H%is_some_spec]%andb_true_iff; exact H|].
  intros [b bc]. destruct (ec || tc || bc); [|done].
  apply mute_bind.
  - apply quiet_configure. subst ne nt nb. unfold may_configure.
    repeat split; intros [Hn|Hn%is_some_false]%andb_false_iff Had; try exact Hn;
      [destruct (plan_execution (plan agent))|destruct (plan_tool (plan agent))
      |destruct (plan_burn_control (plan agent))]; done.
  - intros [u|err]; by cbn.
Qed.

Lemma govern_with_hands_over probe p evidence :
  hands_over (merge_missing_from (native_evidence p) evidence).1
    (govern_with agent show_status probe p evidence).
Proof.
  unfold govern_with. set (ev := (merge_missing_from _ _).1). cbv zeta.
  pose proof (skipped_when_known ev (is_native (execution p)) (is_native (tool p))
    (is_native (burn_control p))) as Hmay.
  apply mute_bind; [apply quiet_was_configured|]. intros configured.
  apply mute_bind; [destruct (_ && _); [by apply quiet_configure_and_probe|done]|]. intros probe1.
  apply mute_bind; [apply quiet_needs_repair|]. intros repair.
  apply mute_bind; [destruct repair; [by apply quiet_configure_and_probe|done]|]. intros probe2.
  apply mute_bind; [by apply promote_all_hands_over|]. intros [p' probe3].
  apply mute_bind; [done|]. intros live.
  apply mute_bind; [done|]. intros t. by apply quiet_try.
Qed.

(** What is asked once the evidence is in leaves what is known as it is. *)
Lemma known_settled undo configure tr1 tr2 :
  is_Some (first_of loaded_by tr1) ->
  Forall (fun ob : obs Ask => match ob with Obs e _ => settled undo configure _ e end) tr2 ->
  known agent parse_time (tr1 ++ tr2) = known agent parse_time tr1.
Proof.
  intros [l Hl] Hq. unfold known, starting. rewrite !first_of_app, Hl.
  rewrite (first_of_none declared_by tr2), (first_of_none breadcrumb_by tr2);
    [|eapply Forall_impl; [exact Hq|]; by intros [X [] x]..].
  by destruct (first_of declared_by tr1), (first_of breadcrumb_by tr1).
Qed.

Lemma migrate_detected p b files :
  native_evidence (migrate_native_evidence (with_detected p b files)) =
  native_evidence (migrate_native_evidence p).
Proof.
  unfold migrate_native_evidence. cbn. by destruct (last_native_seen p), (ev_burn_control (native_evidence p)).
Qed.

Lemma collect_runs tr o :
  runs (collect_native_evidence parse_time) tr o ->
  first_of loaded_by tr = None /\
  Forall (fun ob => forall s, undoes s ob = false /\ configures s ob = false) tr /\
  o = Some (mkEvidence (ev_execution (default no_evidence (first_of declared_by tr)))
              (ev_tool (default no_evidence (first_of declared_by tr)))
              (or_else (ev_burn_control (default no_evidence (first_of declared_by tr)))
                 (read_breadcrumb parse_time (default None (first_of breadcrumb_by tr))))).
Proof.
  intros ([ex to bu] & tr' & -> & Hr). destruct bu as [b|]; cbn in Hr.
  - destruct Hr as [-> ->]. split_and!; [done|by repeat constructor|done].
  - destruct Hr as (c & tr'' & -> & [-> ->]).
    split_and!; [done|by repeat constructor|by destruct c].
Qed.

(** The three ways a pass goes. *)
Lemma reconcile_runs tr o :
  runs (reconcile_agent agent show_status parse_time) tr o ->
  (exists e, tr = [Obs LoadProfile (Err e)] /\ o = Some (Err e)) \/
  exists l probe tr', tr = Obs LoadProfile (Ok l) :: Obs Probe probe :: tr' /\
    let p := default (new_empty (id agent)) l in
    if negb (probe_detected probe) then
      runs (save_reconciled (if detected p then with_detected p false [] else p)) tr' o
    else if disconnected p then runs (save_reconciled (with_detected p true (managed_files p))) tr' o
    else runs (govern agent show_status parse_time probe (with_detected p true (managed_files p))) tr' o.
Proof.
  intros (l & tr1 & -> & Hr).
  destruct l as [l|e]; [|destruct Hr as [-> ->]; left; by exists e].
  destruct Hr as (probe & tr2 & -> & Hr). right. exists l, probe, tr2. split; [done|].
  set (p := default (new_empty (id agent)) l) in *. cbn [prog_bind] in Hr. cbv zeta.
  destruct (negb (probe_detected probe)); [exact Hr|].
  cbv zeta in Hr. change (disconnected (with_detected p true (managed_files p))) with (disconnected p) in Hr.
  destruct (disconnected p); exact Hr.
Qed.

Lemma save_reconciled_runs p tr o :
  runs (save_reconciled p) tr o ->
  exists t r, tr = [Obs Now t; Obs (SaveProfile (with_reconciled p t)) r] /\
    o = Some (match r with Ok _ => Ok (with_reconciled p t) | Err e => Err e end).
Proof.
  intros (t & tr1 & -> & r & tr2 & -> & Hr). exists t, r.
  by destruct r; destruct Hr as [-> ->].
Qed.

Lemma settled_hands (tr : list (obs Ask)) ev :
  Forall (fun ob : obs Ask => match ob with
     Obs e _ => settled (fun s => is_Some (evidence_of s ev)) (fun s => evidence_of s ev = None) _ e end) tr ->
  forall s ob, ob ∈ tr ->
    (undoes s ob = true -> is_Some (evidence_of s ev)) /\
    (configures s ob = true -> evidence_of s ev = None).
Proof.
  intros Hq s [X e x] Hin. rewrite Forall_forall in Hq. specialize (Hq _ Hin). cbn in Hq.
  destruct e; cbn; (split; intros H; [|]); try done; apply bool_decide_eq_true in H; by subst.
Qed.

(** A pass of [reconcile_agent] hands a surface over between Kyris and the agent one
    way only.  Whatever the store, the probes and the agent answer: a surface's Kyris
    configuration is undone only where the agent is known to handle that surface itself
    (the evidence kept in the profile, the old single field of it migrated, what the agent
    declares, or the breadcrumb of kyrisd), and only a surface about which nothing is known
    is configured; so no pass does both to one surface, and what is proven native is not
    configured again, be it by the first configuration, a repair, or after a promotion. *)
Theorem pass_hands_over_known (tr : list (obs Ask)) o :
  runs (reconcile_agent agent show_status parse_time) tr o ->
  forall s ob, ob ∈ tr ->
    (undoes s ob = true -> is_Some (evidence_of s (known agent parse_time tr))) /\
    (configures s ob = true -> evidence_of s (known agent parse_time tr) = None).
Proof.
  intros Hrun s ob Hin.
  apply reconcile_runs in Hrun as [(e & -> & ->)|(l & probe & tr2 & -> & Hr)].
  { by apply list_elem_of_singleton in Hin as ->. }
  cbv zeta in Hr. set (p := default (new_empty (id agent)) l) in *.
  assert (Hidle : forall p0 : AgentProfile, runs (save_reconciled p0) tr2 o ->
    undoes s ob = false /\ configures s ob = false).
  { intros p' (t & r & -> & ->)%save_reconciled_runs. set_unfold in Hin. by naive_solver. }
  destruct (negb (probe_detected probe)); [by destruct (Hidle _ Hr) as [-> ->]|].
  destruct (disconnected p); [by destruct (Hidle _ Hr) as [-> ->]|]. clear Hidle.
  apply runs_bind in Hr as [[(_ & _ & [=])%collect_runs _]|(trc & ev & tr3 & -> & Hc & Hr)].
  apply collect_runs in Hc as (Hload & Hq & [= ->]).
  eapply asks_runs in Hr as [_ Hq3]; [|apply govern_with_hands_over].
  pose proof (known_settled _ _ (Obs LoadProfile (Ok l) :: Obs Probe probe :: trc) tr3
    ltac:(by eexists) Hq3) as Hk.
  cbn [app] in Hk. rewrite Hk.
  apply elem_of_cons in Hin as [->|[->|[Hin|Hin]%elem_of_app]%elem_of_cons]; [by cbn..| |].
  - rewrite Forall_forall in Hq. destruct (Hq _ Hin s) as [-> ->]. by split.
  - apply (settled_hands _ _ Hq3 s ob) in Hin. subst p. unfold known, starting. cbn [first_of loaded_by].
    rewrite migrate_detected in Hin. by destruct l.
Qed.

Lemma snapshot_reads tr o :
  runs (status_snapshot_agent agent) tr o ->
  Forall (fun ob => touches ob = false /\ saves ob = false) tr.
Proof.
  intros Hr. apply (asks_runs (fun X e => forall x, touches (@Obs Ask X e x) = false /\ saves (@Obs Ask X e x) = false))
    with (R := fun _ => True) in Hr as [_ Hq].
  - eapply Forall_impl; [exact Hq|]. intros [X e x] He. apply He.
  - cbn. split; [done|]. intros [l|e]; cbn; [|done]. split; [done|]. intros probe.
    by destruct (negb _).
Qed.

Lemma stored_unsaved store tr after :
  Forall (fun ob => saves ob = false) tr -> stored store tr after -> after = store.
Proof.
  induction tr as [|[X e x] tr IH]; [by intros _|]. intros [He Htr]%Forall_cons. cbn [stored].
  destruct e; try done; cbn in He; try (by apply IH). intros [_ H]. by apply IH.
Qed.

Lemma stored_skip store tr1 tr2 after :
  Forall (fun ob => saves ob = false) tr1 -> stored store (tr1 ++ tr2) after -> stored store tr2 after.
Proof. intros Hun (mid & Hmid & Hst)%stored_app. by apply (stored_unsaved _ _ _ Hun) in Hmid as ->. Qed.

(** One pass over a disconnected agent. *)
Lemma disconnected_pass tr o p after :
  runs (reconcile_agent agent show_status parse_time) tr o ->
  disconnected p = true -> stored (Some p) tr after ->
  Forall (fun ob => touches ob = false) tr /\
  exists p', after = Some p' /\ lasting p' = lasting p.
Proof.
  intros Hrun Hd Hst. apply reconcile_runs in Hrun as [(e & -> & ->)|(l & probe & tr2 & -> & Hr)].
  { destruct Hst as [_ ->]. split; [by repeat constructor|by exists p]. }
  destruct Hst as [Hl Hst]. assert (l = Some p) as -> by (destruct Hl as [[= ->]|[? [=]]]; done).
  change (default (new_empty (id agent)) (Some p)) with p in Hr. cbv zeta in Hr. rewrite Hd in Hr.
  assert (Hidle : forall p0 : AgentProfile, lasting p0 = lasting p -> runs (save_reconciled p0) tr2 o ->
    Forall (fun ob => touches ob = false) (Obs LoadProfile (Ok (Some p)) :: Obs Probe probe :: tr2) /\
    exists p', after = Some p' /\ lasting p' = lasting p).
  { intros p0 Hp0 (t & r & -> & ->)%save_reconciled_runs. split; [by repeat constructor|].
    cbn in Hst. destruct r; subst after; eauto. }
  destruct (negb (probe_detected probe)); (eapply Hidle; [|exact Hr]); [by destruct (detected p)|done].
Qed.

(** C22. Disconnecting is lasting.  From a store that says the agent is disconnected,
    whatever the passes of the reconcile watcher and the looks of [kyris agent status] that
    follow, in any number and order and with whatever answers (a save that fails included):
    nothing of the agent's is
    configured, repaired, promoted or undone, no shim is installed, the configuration of
    kyrisd is not created, and the store still says disconnected, with the surfaces, the
    evidence and the settings it had. *)
Theorem disconnected_stays (passes : list (list (obs Ask))) p after :
  Forall (fun tr => exists o, runs (reconcile_agent agent show_status parse_time) tr o \/
                              runs (status_snapshot_agent agent) tr o) passes ->
  disconnected p = true -> stored (Some p) (List.concat passes) after ->
  Forall (fun ob => touches ob = false) (List.concat passes) /\
  exists p', after = Some p' /\ disconnected p' = true /\ lasting p' = lasting p.
Proof.
  intros Hpasses. revert p. induction Hpasses as [|tr passes [o Hr] Hpasses IH]; intros p Hd Hst.
  { split; [done|]. exists p. by rewrite Hst. }
  cbn [List.concat] in *. apply stored_app in Hst as (mid & Hst1 & Hst2).
  assert (Forall (fun ob => touches ob = false) tr /\
    exists p', mid = Some p' /\ lasting p' = lasting p) as (Htr & p' & -> & Hp').
  { destruct Hr as [Hr|Hr]; [by eapply disconnected_pass|]. apply snapshot_reads in Hr.
    split; [eapply Forall_impl; [exact Hr|]; by intros ? []|].
    apply stored_unsaved in Hst1; [by exists p|]. eapply Forall_impl; [exact Hr|]; by intros ? []. }
  assert (Hd' : disconnected p' = true).
  { change (disconnected (lasting p') = true). by rewrite Hp'. }
  destruct (IH p' Hd' Hst2) as (Hts & p'' & -> & Hd'' & Hp''). split; [by apply Forall_app_2|].
  exists p''. split_and!; [done|done|by rewrite Hp''].
Qed.

(** ** Setup *)

Lemma runs_try {A B} (p : task A) (f : A -> task B) tr o :
  runs (try_ p f) tr o <->
  (runs p tr None /\ o = None) \/
  (exists e, runs p tr (Some (Err e)) /\ o = Some (Err e)) \/
  exists tr1 a tr2, tr = tr1 ++ tr2 /\ runs p tr1 (Some (Ok a)) /\ runs (f a) tr2 o.
Proof.
  unfold try_. rewrite runs_bind. split.
  - intros [H|(tr1 & [a|e] & tr2 & -> & H1 & H2)]; [by left|right; right; by exists tr1, a, tr2|].
    destruct H2 as [-> ->]. rewrite app_nil_r. right. left. by exists e.
  - intros [H|[(e & H & ->)|(tr1 & a & tr2 & -> & H1 & H2)]]; [by left| |].
    + right. exists tr, (Err e), []. by rewrite app_nil_r.
    + right. by exists tr1, (Ok a), tr2.
Qed.

Lemma runs_ask {X} (e : Ask X) tr o : runs (ask e) tr o <-> exists x, tr = [Obs e x] /\ o = Some x.
Proof.
  split; [intros (x & tr' & -> & [-> ->]); by exists x|].
  intros (x & -> & ->). by exists x, [].
Qed.

Definition unsaved (tr : list (obs Ask)) : Prop := Forall (fun ob => saves ob = false) tr.

Lemma unsaved_app tr1 tr2 : unsaved tr1 -> unsaved tr2 -> unsaved (tr1 ++ tr2).
Proof. apply Forall_app_2. Qed.

Ltac unsaved_tac :=
  solve [repeat (assumption || reflexivity || apply unsaved_app || apply Forall_nil_2
                 || (apply Forall_cons_2))].

Lemma health_runs base tr o :
  runs (verify_kyrisd_health show_status base) tr o ->
  unsaved tr /\
  exists r, o = Some r /\ (r = Ok tt -> existsb (healthy (base ++ "/healthz")%string) tr = true).
Proof.
  intros (r & tr1 & -> & Hr). cbn [prog_bind] in Hr.
  destruct r as [status|e]; [destruct (success_status status) eqn:Hok|];
    destruct Hr as [-> ->]; (split; [by repeat constructor|]); eexists; (split; [done|]); [|done..].
  intros _. cbn. by rewrite String.eqb_refl, Hok.
Qed.

Lemma governed_error kyrisd down :
  governance_daemons_error agent kyrisd down = None -> kyrisd = None /\ down = false.
Proof. by destruct kyrisd, down. Qed.

Lemma verify_runs base check tr o :
  runs (verify_governance_daemons agent show_status base check) tr o ->
  unsaved tr /\
  ((exists e, o = Some (Err e)) \/
   (o = Some (Ok tt) /\ existsb (healthy (base ++ "/healthz")%string) tr = true /\
    (check = true -> existsb enforcing tr = true))).
Proof.
  intros [[(_ & r & [=] & _)%health_runs _]|(tr1 & health & tr2 & -> & (Hs1 & ? & [= <-] & Hh)%health_runs & Hr)]%runs_bind.
  cbv zeta in Hr. rewrite existsb_app.
  apply runs_bind in Hr as [[Hr ->]|(tr3 & down & tr4 & -> & Hd & Hr)].
  { destruct check; [destruct Hr as (? & ? & ? & ? & [=])|destruct Hr as [_ [=]]]. }
  assert (unsaved tr3 /\ (down = false -> check = true -> existsb enforcing tr3 = true)) as [Hs3 Hdown].
  { destruct check.
    - destruct Hd as (up & tr' & -> & [-> [= ->]]). split; [by repeat constructor|]. by destruct up.
    - destruct Hd as [-> _]. split; [constructor|done]. }
  destruct (governance_daemons_error _ _ _) as [msg|] eqn:Herr; destruct Hr as [-> ->].
  - split; [unsaved_tac|]. left. eauto.
  - apply governed_error in Herr as [Hp ->]. split; [unsaved_tac|]. right.
    split_and!; [done| |].
    + rewrite Hh; [done|]. by destruct health as [[]|].
    + intros Hc. rewrite existsb_app, existsb_app, (Hdown eq_refl Hc). by rewrite orb_true_r.
Qed.

Lemma skip_runs b (e : Ask (result (list string) string)) tr o :
  (forall x, saves (Obs e x) = false) -> runs (skip_or b (ask e)) tr o ->
  unsaved tr /\
  exists r, o = Some r /\
    (forall c, r = Ok c -> b = false -> tr = [Obs e (Ok c)]).
Proof.
  intros He. destruct b.
  - intros [-> ->]. split; [constructor|]. by eexists.
  - intros (x & -> & ->)%runs_ask. split; [by repeat constructor|]. exists x. split; [done|]. by intros c ->.
Qed.

Lemma skip_step {B} b (e : Ask (result (list string) string)) (f : list string -> task B) tr o :
  (forall x, saves (Obs e x) = false) -> runs (try_ (skip_or b (ask e)) f) tr o ->
  (unsaved tr /\ exists err, o = Some (Err err)) \/
  exists tr1 c tr2, tr = tr1 ++ tr2 /\ unsaved tr1 /\ (b = false -> tr1 = [Obs e (Ok c)]) /\ runs (f c) tr2 o.
Proof.
  intros He [[(_ & r & [=] & _)%skip_runs _]|[(err & (Hs & _)%skip_runs & ->)|(tr1 & c & tr2 & -> & Hr1 & Hr2)]]%runs_try;
    [done|left; eauto|done|].
  apply skip_runs in Hr1 as (Hs & r & [= <-] & Hc); [|done].
  right. exists tr1, c, tr2. split_and!; [done|done| |done]. intros Hb. by apply Hc.
Qed.

(** A surface that the plan adapts was configured. *)
Definition all_configured (tr : list (obs Ask)) : Prop :=
  (is_adapted (plan_execution (plan agent)) = true -> existsb (configured_ok Execution) tr = true) /\
  (is_adapted (plan_tool (plan agent)) = true -> existsb (configured_ok Tool) tr = true) /\
  (is_adapted (plan_burn_control (plan agent)) = true -> existsb (configured_ok BurnControl) tr = true).

Definition installed_by (ob : obs Ask) : option bool :=
  match ob with
  | Obs e x => match e in Ask X return X -> _ with IsInstalled => Some | _ => fun _ => None end x
  end.

Lemma surfaces_runs base key effective tr o :
  runs (setup_surfaces agent show_status base key effective) tr o ->
  unsaved tr /\
  ((exists e, o = Some (Err e)) \/
   exists changes, o = Some (Ok changes) /\
    existsb (healthy (base ++ "/healthz")%string) tr = true /\
    exists installed, first_of installed_by tr = Some installed /\
    (installed = true ->
      all_configured tr /\
      (is_adapted (plan_execution (plan agent)) || is_adapted (plan_tool (plan agent)) = true ->
       existsb enforcing tr = true))).
Proof.
  intros ([] & tr' & -> & Hr); cbn [prog_bind] in Hr.
  2: { apply runs_try in Hr as [[Hr _]|[(e & (Hs & _)%verify_runs & ->)|(tr1 & a & tr2 & -> & Hr1 & [-> ->])]].
       - by apply verify_runs in Hr as [_ [(? & [=])|([=] & _)]].
       - split; [by constructor|]. left. eauto.
       - apply verify_runs in Hr1 as [Hs [(? & [=])|(_ & Hh & _)]]. rewrite app_nil_r.
         split; [by constructor|]. right. eexists. split_and!; [done|by cbn|]. exists false. by split. }
  apply skip_step in Hr as [[Hs He]|(tr1 & shim & tr2 & -> & Hs1 & _ & Hr)];
    [split; [unsaved_tac|by left]| |done].
  apply skip_step in Hr as [[Hs He]|(tr3 & ex & tr4 & -> & Hs3 & Hc3 & Hr)];
    [split; [unsaved_tac|by left]| |done].
  apply skip_step in Hr as [[Hs He]|(tr5 & to & tr6 & -> & Hs5 & Hc5 & Hr)];
    [split; [unsaved_tac|by left]| |done].
  apply skip_step in Hr as [[Hs He]|(tr7 & bu & tr8 & -> & Hs7 & Hc7 & Hr)];
    [split; [unsaved_tac|by left]| |done].
  cbv zeta in Hr.
  apply runs_try in Hr as [[Hr _]|[(e & (Hs & _)%verify_runs & ->)|(tr9 & a & tr10 & -> & Hr1 & [-> ->])]].
  { by apply verify_runs in Hr as [_ [(? & [=])|([=] & _)]]. }
  { split; [unsaved_tac|]. left. eauto. }
  apply verify_runs in Hr1 as [Hs [(? & [=])|(_ & Hh & He)]].
  split; [unsaved_tac|]. right. eexists. split; [done|].
  assert (Hmid : forall f tr, existsb f tr = true ->
    existsb f (Obs IsInstalled true :: tr1 ++ tr3 ++ tr5 ++ tr7 ++ tr ++ []) = true).
  { intros f tr Hf. cbn. rewrite !existsb_app, Hf, !orb_true_r. done. }
  split; [by apply Hmid|]. exists true. split; [done|]. intros _.
  split; [|intros Hn; by apply Hmid, He]. unfold all_configured. cbn [existsb configured_ok].
  rewrite !existsb_app.
  split_and!; intros Ha; rewrite Ha in *; cbn in Hc3, Hc5, Hc7.
  - rewrite Hc3 by done. by cbn; rewrite !orb_true_r.
  - rewrite Hc5 by done. by cbn; rewrite !orb_true_r.
  - rewrite Hc7 by done. by cbn; rewrite !orb_true_r.
Qed.

Lemma clear_runs tr store after :
  runs clear_disconnected_flag tr (Some (Ok tt)) -> stored store tr after ->
  forall p, after = Some p -> disconnected p = false.
Proof.
  intros (l & tr1 & -> & Hr) [Hl Hst]. cbn [prog_bind] in Hr.
  destruct Hl as [->|[e ->]]; [|by destruct Hr as [_ [=]]].
  destruct store as [p0|]; [|destruct Hr as [-> _]; by cbn in Hst; subst].
  destruct (disconnected p0) eqn:Hd.
  - apply runs_ask in Hr as (r & -> & [= <-]). cbn in Hst. subst. by intros p [= <-].
  - destruct Hr as [-> _]. cbn in Hst. subst. by intros p [= <-].
Qed.

Lemma save_specific_runs specific tr store after :
  runs (save_agent_specific agent specific) tr (Some (Ok tt)) -> stored store tr after ->
  exists p, after = Some p /\ specific ⊆ agent_specific p /\
    disconnected p = disconnected (default (new_empty (id agent)) store).
Proof.
  intros (l & tr1 & -> & Hr) [Hl Hst]. cbn [prog_bind] in Hr.
  destruct Hl as [->|[e ->]]; [|by destruct Hr as [_ [=]]].
  apply runs_ask in Hr as (r & -> & [= <-]). cbn in Hst. subst after.
  eexists. split_and!; [done| |done]. cbn. apply map_union_subseteq_l.
Qed.

Lemma print_all_saves lines tr o : runs (print_all lines) tr o -> unsaved tr.
Proof.
  revert tr. induction lines as [|l lines IH]; cbn; intros tr; [intros [-> _]; constructor|].
  intros (u & tr' & -> & Hr). constructor; [done|]. by eapply IH.
Qed.

Lemma record_runs keys specific changes tr store after :
  runs (setup_record agent keys specific changes) tr (Some (Ok tt)) -> stored store tr after ->
  (forall p, after = Some p -> disconnected p = false) /\
  (keys <> [] -> exists p, after = Some p /\ specific ⊆ agent_specific p).
Proof.
  intros [[_ [=]]|[(e & _ & [=])|(tr1 & [] & tr2 & -> & Hc & Hr)]]%runs_try Hst.
  apply stored_app in Hst as (mid & Hmid & Hst). pose proof (clear_runs _ _ _ Hc Hmid) as Hclear.
  apply runs_try in Hr as [[_ [=]]|[(e & _ & [=])|(tr3 & set & tr4 & -> & Hset & Hr)]].
  apply stored_app in Hst as (mid' & Hmid' & Hst).
  assert (unsaved tr4) as Hun.
  { destruct (changes ++ set) as [|c cs].
    - destruct Hr as (u & tr' & -> & [-> _]). unsaved_tac.
    - destruct Hr as (inst & tr' & -> & Hr). cbn [prog_bind] in Hr. constructor; [done|].
      apply runs_bind in Hr as [[_ [=]]|(tr5 & u & tr6 & -> & H5 & Hr)].
      apply unsaved_app; [destruct inst; [by destruct H5 as [-> _]; constructor|]|].
      { apply runs_ask in H5 as (x & -> & _). unsaved_tac. }
      destruct Hr as (u' & tr' & -> & Hr). cbn [prog_bind] in Hr. constructor; [done|].
      apply runs_bind in Hr as [[_ [=]]|(tr7 & u'' & tr8 & -> & H7 & [-> _])].
      apply unsaved_app; [by eapply print_all_saves|constructor]. }
  apply (stored_unsaved _ _ _ Hun) in Hst. subst mid'.
  destruct keys as [|k keys].
  - destruct Hset as [-> _]. cbn in Hmid'. subst. by split.
  - apply runs_try in Hset as [[_ [=]]|[(e & _ & [=])|(tr5 & [] & tr6 & -> & Hs & [-> _])]].
    rewrite app_nil_r in Hmid'. destruct (save_specific_runs _ _ _ _ Hs Hmid') as (p & -> & Hsub & Hd).
    split; [|eauto]. intros p' [= <-]. rewrite Hd. destruct mid as [p0|]; [by apply Hclear|done].
Qed.

(** What comes before anything is recorded. *)
Lemma setup_runs keys specific tr o :
  runs (setup_agent agent show_status keys specific) tr o ->
  (unsaved tr /\ exists e, o = Some (Err e)) \/
  exists tr1 changes tr2 base, tr = tr1 ++ tr2 /\ unsaved tr1 /\
    validate_agent_settings agent keys = Ok tt /\ first_of base_of tr1 = Some base /\
    existsb (healthy (base ++ "/healthz")%string) tr1 = true /\
    (exists installed, first_of installed_by tr1 = Some installed /\
     (installed = true -> all_configured tr1 /\
       (is_adapted (plan_execution (plan agent)) || is_adapted (plan_tool (plan agent)) = true ->
        existsb enforcing tr1 = true))) /\
    runs (setup_record agent keys specific changes) tr2 o.
Proof.
  unfold setup_agent. destruct (validate_agent_settings agent keys) as [[]|e];
    [|intros [-> ->]; left; split; [constructor|eauto]].
  intros (c & tr1 & -> & Hr). cbn [prog_bind] in Hr.
  destruct c as [[base key]|e]; [|destruct Hr as [-> ->]; left; split; [unsaved_tac|eauto]].
  destruct Hr as (l & tr2 & -> & Hr). cbn [prog_bind] in Hr.
  destruct l as [l|e]; [|destruct Hr as [-> ->]; left; split; [unsaved_tac|eauto]].
  destruct Hr as (pre & tr3 & -> & Hr). cbn [prog_bind] in Hr.
  destruct pre as [pre|e]; [|destruct Hr as [-> ->]; left; split; [unsaved_tac|eauto]].
  cbv zeta in Hr.
  apply runs_try in Hr as [[Hr _]|[(e & (Hs & _)%surfaces_runs & ->)|(tr4 & ch & tr5 & -> & Hr1 & Hr)]].
  { by apply surfaces_runs in Hr as [_ [(? & [=])|(? & [=] & _)]]. }
  { left. split; [unsaved_tac|eauto]. }
  apply surfaces_runs in Hr1 as [Hs [(? & [=])|(ch' & [= <-] & Hh & Hi)]].
  right. exists (Obs LoadOrInitConfig (Ok (base, key)) :: Obs LoadProfile (Ok l) :: Obs Prestage (Ok pre) :: tr4),
    (pre ++ ch), tr5, base.
  split_and!; [done|unsaved_tac|done|done|exact Hh|exact Hi|exact Hr].
Qed.

(** A setup that reports success is one.  Where [setup_agent] returns [Ok]: every
    setting named is one the agent declares; kyrisd answered its health check, at the
    address the configuration gives, with a success status; where the agent is installed,
    every surface its plan adapts was configured without an error, and agentpactd answered
    if execution or tools are among them; and the store it leaves says the agent is not
    disconnected, and holds all the settings given, whatever else it held. *)
Theorem setup_succeeds_governed keys specific tr store after :
  runs (setup_agent agent show_status keys specific) tr (Some (Ok tt)) -> stored store tr after ->
  validate_agent_settings agent keys = Ok tt /\
  (exists base, first_of base_of tr = Some base /\
    existsb (healthy (base ++ "/healthz")%string) tr = true) /\
  (first_of installed_by tr = Some true ->
    all_configured tr /\
    (is_adapted (plan_execution (plan agent)) || is_adapted (plan_tool (plan agent)) = true ->
     existsb enforcing tr = true)) /\
  (forall p, after = Some p -> disconnected p = false) /\
  (keys <> [] -> exists p, after = Some p /\ specific ⊆ agent_specific p).
Proof.
  intros Hr Hst. apply setup_runs in Hr as [[_ [e [=]]]|
    (tr1 & changes & tr2 & base & -> & Hun & Hv & Hb & Hh & (inst & Hi & Hc) & Hr)].
  apply stored_app in Hst as (mid & _ & Hst).
  assert (Hleft : forall f, existsb f tr1 = true -> existsb f (tr1 ++ tr2) = true).
  { intros f Hf. by rewrite existsb_app, Hf. }
  rewrite !first_of_app, Hb, Hi. split_and!; [done|exists base; split; [done|by apply Hleft]| |..].
  - intros [= ->]. destruct (Hc eq_refl) as [(H1 & H2 & H3) He]. unfold all_configured.
    split_and!; intros Ha; apply Hleft; auto.
  - by apply (record_runs keys specific changes tr2 mid after).
  - by apply (record_runs keys specific changes tr2 mid after).
Qed.

(** What a setup forgets when the health check fails.  Where kyrisd answers no health
    check with success, [setup_agent] returns an error, and the store is the one it found:
    the configuration of the surfaces is kept in the agent's files, but the settings given
    with [--set] are in no profile, and an agent that was disconnected is still marked so;
    the passes of the watcher that follow leave it alone ([disconnected_stays]), though its
    files were configured. *)
Theorem setup_failed_forgets keys specific tr o store after base :
  runs (setup_agent agent show_status keys specific) tr o -> stored store tr after ->
  first_of base_of tr = Some base -> existsb (healthy (base ++ "/healthz")%string) tr = false ->
  (exists e, o = Some (Err e)) /\ unsaved tr /\ after = store.
Proof.
  intros Hr Hst Hb Hno. apply setup_runs in Hr as [[Hun He]|
    (tr1 & changes & tr2 & base' & -> & Hun & Hv & Hb' & Hh & _ & Hr)].
  - split_and!; [done|done|]. by eapply stored_unsaved.
  - rewrite first_of_app, Hb' in Hb. injection Hb as ->. by rewrite existsb_app, Hh in Hno.
Qed.

(** ** Disconnecting *)

Lemma undo_step {A B} (b : bool) (e : Ask (result A string)) (d : A) (f : A -> task B) tr o :
  runs (try_ (if b then ask e else Ret (Ok d)) f) tr o ->
  (exists err, tr = [Obs e (Err err)] /\ b = true /\ o = Some (Err err)) \/
  exists a tr2, tr = (if b then [Obs e (Ok a)] else []) ++ tr2 /\ runs (f a) tr2 o.
Proof.
  destruct b.
  - intros ([a|err] & tr' & -> & Hr); [right; by exists a, tr'|].
    destruct Hr as [-> ->]. left. by exists err.
  - intros Hr. right. by exists d, tr.
Qed.

(** The surfaces undone, in order. *)
Definition undone (ob : obs Ask) : list Surface :=
  match ob with Obs e _ => match e with UndoSurface s => [s] | _ => [] end end.

Definition adapted_surfaces : list Surface :=
  (if is_adapted (plan_tool (plan agent)) then [Tool] else []) ++
  (if is_adapted (plan_execution (plan agent)) then [Execution] else []) ++
  (if is_adapted (plan_burn_control (plan agent)) then [BurnControl] else []).

Lemma disconnect_finish tr store after :
  runs (_ ←? ask UndoEnv;
        scrubbed ← ask ScrubResidue;
        _ ← (match scrubbed with
             | Ok changes => print_all changes
             | Err e => ask (Complain ("Warning: residue scrub for " ++ id agent ++ " failed: " ++ e)%string)
             end);
        p ←? load_or_empty agent;
        ask (SaveProfile (with_disconnected
          (with_detected (with_surfaces p none none none) (detected p) []) true))) tr (Some (Ok tt)) ->
  stored store tr after ->
  flat_map undone tr = [] /\
  after = Some (with_disconnected (with_detected
    (with_surfaces (default (new_empty (id agent)) store) none none none)
    (detected (default (new_empty (id agent)) store)) []) true).
Proof.
  intros (e & tr1 & -> & Hr) Hst. cbn [prog_bind stored] in *.
  destruct e as [e|e]; [|by destruct Hr as [_ [=]]].
  destruct Hr as (scrubbed & tr2 & -> & Hr). cbn [prog_bind stored] in *.
  apply runs_bind in Hr as [[_ [=]]|(tr3 & u & tr4 & -> & H3 & Hr)].
  assert (flat_map undone tr3 = [] /\ unsaved tr3) as [Hu3 Hs3].
  { destruct scrubbed as [changes|err].
    - revert tr3 H3 Hst. induction changes as [|c cs IH]; cbn [print_all]; intros tr3 H3 Hst.
      + destruct H3 as [-> _]. by split; [|constructor].
      + destruct H3 as (x & tr' & -> & H3). destruct (IH tr' H3 Hst) as [Hf Hun].
        split; [exact Hf|]. by constructor.
    - apply runs_ask in H3 as (x & -> & _). by split; [|repeat constructor]. }
  apply stored_app in Hst as (mid & Hmid & Hst). apply (stored_unsaved _ _ _ Hs3) in Hmid as ->.
  destruct Hr as (l & tr5 & -> & Hr). cbn [prog_bind] in Hr. destruct Hst as [Hl Hst].
  destruct Hl as [->|[err ->]]; [|by destruct Hr as [_ [=]]].
  apply runs_ask in Hr as (r & -> & [= <-]). cbn in Hst. subst after.
  cbn [flat_map undone]. rewrite flat_map_app, Hu3. by split.
Qed.

(** What a disconnect leaves.  Where [undo_agent] returns [Ok], every surface the plan
    adapts was undone once, tools first so that the names of upstreams can still be read,
    then execution, then burn control; and the store it leaves holds the profile it found,
    its settings, evidence and gaps included, with no surface configured, no file managed,
    and marked disconnected, so that what follows leaves the agent alone. *)
Theorem disconnect_records tr store after :
  runs (undo_agent agent) tr (Some (Ok tt)) -> stored store tr after ->
  flat_map undone tr = adapted_surfaces /\
  after = Some (with_disconnected (with_detected
    (with_surfaces (default (new_empty (id agent)) store) none none none)
    (detected (default (new_empty (id agent)) store)) []) true).
Proof.
  intros Hr Hst. unfold undo_agent in Hr.
  apply undo_step in Hr as [(? & _ & _ & [=])|([] & tr1 & -> & Hr)].
  apply undo_step in Hr as [(? & _ & _ & [=])|([] & tr2 & -> & Hr)].
  apply undo_step in Hr as [(? & _ & _ & [=])|([] & tr3 & -> & Hr)].
  apply undo_step in Hr as [(? & _ & _ & [=])|(removed & tr4 & -> & Hr)].
  apply runs_bind in Hr as [[_ [=]]|(tr5 & [] & tr6 & -> & H5 & Hr)].
  assert (stored store tr6 after /\ flat_map undone tr5 = []) as [Hst' H5u].
  { assert (unsaved tr5 /\ flat_map undone tr5 = []) as [Hs5 ->].
    { destruct removed; [apply runs_ask in H5 as (x & -> & _)|destruct H5 as [-> _]];
        by split; [repeat constructor|]. }
    split; [|done].
    do 4 (apply stored_skip in Hst; [|case_match; repeat constructor]).
    by apply stored_skip in Hst. }
  destruct (disconnect_finish tr6 store after Hr Hst') as [Hu ->]. split; [|done].
  rewrite !flat_map_app, H5u, Hu. unfold adapted_surfaces.
  by destruct (is_adapted (plan_tool _)), (is_adapted (plan_execution _)),
    (is_adapted (plan_burn_control _)), (requires_path_shim _).
Qed.

End pass.

(** Which agent a question is about. *)
Definition asked_of (agents : list Descriptor) (ob : obs AskAll) : Prop :=
  match ob with Obs e _ => match e with About a _ => a ∈ agents | _ => False end end.

Lemma runs_about {A} a (p : prog Ask A) tr o :
  runs (about a p) tr o -> Forall (asked_of [a]) tr /\ exists tr', runs p tr' o.
Proof.
  revert tr. induction p as [r|X e k IH|]; intros tr; cbn [about].
  - intros [-> ->]. split; [constructor|]. by exists [].
  - intros (x & tr' & -> & Hr). destruct (IH x tr' Hr) as (Hq & tr2 & Hr2).
    split; [constructor; [cbn; set_solver|done]|]. by exists (Obs e x :: tr2), x, tr2.
  - intros [-> ->]. split; [constructor|]. by exists [].
Qed.

(** The first agent whose pass fails ends the walk. *)
Lemma for_agents_fails pass agents tr e :
  runs (for_agents pass agents) tr (Some (Err e)) ->
  exists l1 a l2, agents = l1 ++ a :: l2 /\ Forall (asked_of (l1 ++ [a])) tr /\
    exists tra, runs (pass a) tra (Some (Err e)).
Proof.
  revert tr. induction agents as [|a agents IH]; intros tr; [by intros [_ [=]]|].
  intros [[_ [=]]|(tr1 & r & tr2 & -> & (Hq & tra & Hra)%runs_about & Hr)]%runs_bind.
  destruct r as [p|err].
  - apply runs_bind in Hr as [[_ [=]]|(tr3 & rest & tr4 & -> & Hrest & Hr)].
    destruct rest as [results|err]; destruct Hr as [-> [= <-]].
    destruct (IH _ Hrest) as (l1 & b & l2 & -> & Hqs & Hb).
    exists (a :: l1), b, l2. rewrite app_nil_r. split_and!; [done| |done].
    apply Forall_app_2; [eapply Forall_impl; [exact Hq|]|eapply Forall_impl; [exact Hqs|]];
      intros [X [] x]; cbn; set_solver.
  - destruct Hr as [-> [= <-]]. exists [], a, agents. rewrite app_nil_r. split_and!; eauto.
Qed.

(** One agent whose pass fails, because its profile cannot be read or saved, ends the pass
    of the watcher: the agents that come after it in the registry are not looked at, and the
    time of the pass is not recorded. *)
Theorem failed_pass_stops_the_others show_status parse_time agents tr e :
  runs (reconcile_all show_status parse_time false agents) tr (Some (Err e)) ->
  exists l1 a l2, agents = l1 ++ a :: l2 /\ Forall (asked_of (l1 ++ [a])) tr /\
    exists tra, runs (reconcile_agent a show_status parse_time) tra (Some (Err e)).
Proof.
  cbn [reconcile_all prog_bind].
  intros [[_ [=]]|(tr1 & results & tr2 & -> & Hrun & Hr)]%runs_bind.
  destruct results as [results|err]; [by destruct Hr as (u & tr' & -> & [_ [=]])|].
  destruct Hr as [-> [= <-]]. rewrite app_nil_r. by apply for_agents_fails.
Qed.

(** ** A run of each *)

Module Sample.

Definition shell_agent : Descriptor :=
  mkDescriptor "demo"
    (mkPlan (adapted_by [ExecLiveHookAdapter]) (adapted_by [ToolMcpWrapping]) NoIntegration
       [AttrNativeHookPayload] false) ["kyris"] [("mode", "how much to ask")].

Definition show_status (z : Z) : string := "status".
Definition parse_time (s : string) : option string := Some s.

Definition probe_all : ProbeResult :=
  mkProbe true (adapted ExecLiveHookAdapter) (adapted ToolMcpWrapping) none [].

(** A world: the profile stored at first, what the agent says of itself, and whether kyrisd
    is up. *)
Definition world (stored : option AgentProfile) (native : SurfaceEvidence) (up : bool) X (e : Ask X) : X :=
  match e with
  | LoadProfile => Ok stored
  | SaveProfile _ => Ok tt
  | LoadOrInitConfig => Ok ("http://localhost:1", "key")
  | IsInstalled => true
  | Probe => probe_all
  | NativeEvidence => native
  | NativeSeen => None
  | LiveEvidence => no_evidence
  | ConfigureSurface _ _ _ _ => Ok []
  | UndoSurface _ => Ok tt
  | Prestage => Ok []
  | InstallShim => Ok []
  | UninstallShim => Ok false
  | UndoEnv => Ok tt
  | ScrubResidue => Ok []
  | HttpGet _ => if up then Ok 200%Z else Err "refused"
  | AgentPactReachable => true
  | Exists _ => true
  | ReadFile _ => None
  | Sha256File _ => None
  | UnwrappedServers => []
  | Now => "now"
  | Print _ => tt
  | Complain _ => tt
  end.

Definition governed : AgentProfile :=
  with_surfaces (new_empty "demo") (adapted ExecLiveHookAdapter) (adapted ToolMcpWrapping) none.

Definition opted_out : AgentProfile := with_disconnected (new_empty "demo") true.

Definition says_native : SurfaceEvidence := mkEvidence (Some "yesterday") None None.

Definition pass := reconcile_agent shell_agent show_status parse_time.

(** Something was said in a concrete run. *)
Ltac asked := apply list_elem_of_In; vm_compute; repeat first [left; reflexivity | right].

(** The agent proved its execution surface native: that one is undone, the tool surface
    configured again. *)
Example promoted_run :
  let tr := (play (world (Some governed) says_native true) pass).1 in
  existsb (undoes Execution) tr = true /\ existsb (configures Tool) tr = true /\
  existsb (configures Execution) tr = false.
Proof. vm_compute. done. Qed.

Lemma pass_hands_over_known_witness :
  is_Some (evidence_of Execution (known shell_agent parse_time
    (play (world (Some governed) says_native true) pass).1)) /\
  evidence_of Tool (known shell_agent parse_time
    (play (world (Some governed) says_native true) pass).1) = None.
Proof.
  pose proof (pass_hands_over_known shell_agent show_status parse_time _ _
    (play_runs (world (Some governed) says_native true) pass)) as H.
  split.
  - apply (H Execution (Obs (UndoSurface Execution) (Ok tt))); [asked|reflexivity].
  - apply (H Tool (Obs (ConfigureSurface Tool "http://localhost:1" "key" ∅) (Ok []))); [asked|reflexivity].
Defined.

Lemma disconnected_stays_witness :
  exists p', Some opted_out = Some p' /\ disconnected p' = true /\ lasting p' = lasting opted_out.
Proof.
  set (tr := (play (world (Some opted_out) says_native true) (status_snapshot_agent shell_agent)).1).
  refine (proj2 (disconnected_stays shell_agent show_status parse_time [tr; tr] opted_out (Some opted_out)
    _ eq_refl _)); [|by vm_compute; eauto 10].
  repeat constructor; eexists; right; apply play_runs.
Defined.

(** A first setup, with a setting. *)
Definition first_setup := setup_agent shell_agent show_status ["mode"] {["mode" := "quiet"]}.

Lemma setup_succeeds_governed_witness :
  let tr := (play (world (Some governed) no_evidence true) first_setup).1 in
  all_configured shell_agent tr /\ existsb enforcing tr = true.
Proof.
  intros tr.
  destruct (setup_succeeds_governed shell_agent show_status ["mode"] {["mode" := "quiet"]} tr
    (Some governed)
    (Some (with_specific governed {["mode" := "quiet"]}))) as (_ & _ & Hi & _ & _).
  - exact (play_runs (world (Some governed) no_evidence true) first_setup).
  - vm_compute. eauto 20.
  - destruct (Hi eq_refl) as [Hc He]. split; [exact Hc|by apply He].
Defined.

Lemma setup_failed_forgets_witness :
  existsb (configured_ok Tool) (play (world (Some opted_out) no_evidence false) first_setup).1 = true /\
  exists e, (play (world (Some opted_out) no_evidence false) first_setup).2 = Some (Err e).
Proof.
  split; [reflexivity|].
  refine (proj1 (setup_failed_forgets shell_agent show_status ["mode"] {["mode" := "quiet"]} _ _
    (Some opted_out) (Some opted_out) "http://localhost:1"
    (play_runs (world (Some opted_out) no_evidence false) first_setup) _ eq_refl eq_refl)).
  vm_compute. eauto 20.
Defined.

Lemma disconnect_records_witness :
  flat_map undone (play (world (Some governed) no_evidence true) (undo_agent shell_agent)).1 =
  [Tool; Execution].
Proof.
  refine (proj1 (disconnect_records shell_agent _ (Some governed) _
    (play_runs (world (Some governed) no_evidence true) (undo_agent shell_agent)) _)).
  - vm_compute. eauto 20.
Defined.

Lemma failed_pass_stops_the_others_witness :
  exists l1 a l2, [shell_agent; shell_agent] = l1 ++ a :: l2 /\
    Forall (asked_of (l1 ++ [a])) [Obs (About shell_agent LoadProfile) (Err "bad JSON")] /\
    exists tra, runs (reconcile_agent a show_status parse_time) tra (Some (Err "bad JSON")).
Proof.
  apply (failed_pass_stops_the_others show_status parse_time [shell_agent; shell_agent]).
  by exists (Err "bad JSON"), [].
Defined.
End Sample.
End Reconcile.
