(* ===== verification/CodexCli.v ===== *)
(** * Codex

    [cli/src/agents/codex_cli.rs] with [codex_cli/hooks.rs], [codex_cli/model_provider.rs],
    [codex_cli/paths.rs], [codex_cli_schema.rs], and the shell hook of
    [configure/hooks.rs]: what setup writes into the configuration of Codex, the trust
    entries it mints for its hooks, what the probe takes for configured, and what
    disconnecting takes away.

    The disk and the manifest are those of [Manifest]; directories and permissions are
    not modelled, so [ensure_codex_dir] is nothing. *)

From stdpp Require Import pretty.
From S2P Require Import Prelude Text Json JsonPatch JsonEdit Toml TomlPatch Hook Manifest Configure CompilePolicy McpRouting McpConfigure Profile.

Module CodexCli.
Import JsonEdit Manifest.
Local Open Scope string_scope.
Local Open Scope list_scope.

(** ** The shell hook: [configure/hooks.rs] *)

(** [str::replace] of one character. *)
Fixpoint escape_quotes (l : bytes) : bytes :=
  match l with
  | [] => []
  | b :: l => if Ascii.eqb b "'"%char then lit "'\''" ++ escape_quotes l else b :: escape_quotes l
  end.

Definition shell_command (path : string) : string :=
  ("bash '" ++ of_bytes (escape_quotes (lit path)) ++ "'")%string.

(** The script, with [`] for the double quote, which it does not hold. *)
Definition hook_script_template : string :=
"#!/usr/bin/env bash
# SPDX-FileCopyrightText: Copyright 2026 Kyris
# SPDX-License-Identifier: Apache-2.0
set -euo pipefail

export KYRIS_GOVERNED_SUBPROCESS=`__AGENT_ID__`

KYRIS_BIN=``
for candidate in \
  `$HOME/.kyris/bin/kyris` \
  `$HOME/.local/bin/kyris` \
  `/opt/homebrew/bin/kyris` \
  `/usr/local/bin/kyris`; do
  if [ -x `$candidate` ]; then
    KYRIS_BIN=`$candidate`
    break
  fi
done
if [ -z `$KYRIS_BIN` ] && command -v kyris >/dev/null 2>&1; then
  KYRIS_BIN=`$(command -v kyris)`
fi
if [ -z `$KYRIS_BIN` ]; then
  echo `[agentpact-hook] kyris binary not found; skipping governance check` >&2
  exit 0
fi

exec `$KYRIS_BIN` hook check --agent __AGENT_ID__
".

Definition hook_script_source (agent_id : string) : string :=
  Configure.str_replace "__AGENT_ID__" agent_id
    (of_bytes (replace_byte "`" [dquote] (lit hook_script_template))).

(** ** Paths: [codex_cli/paths.rs] *)

(** [Path::parent] of a path with a file name. *)
Fixpoint drop_slashes (l : bytes) : bytes :=
  match l with b :: l' => if Ascii.eqb b "/"%char then drop_slashes l' else l | [] => [] end.

Fixpoint after_slash (l : bytes) : option bytes :=
  match l with [] => None | b :: l => if Ascii.eqb b "/"%char then Some l else after_slash l end.

Definition parent (path : string) : string :=
  match after_slash (rev (lit path)) with
  | None => ""
  | Some before =>
      match drop_slashes before with [] => "/" | dir => of_bytes (rev dir) end
  end.

(** [Path::join] with a relative name, also of an empty path. *)
Definition join (dir name : string) : string :=
  if String.eqb dir "" then name else CompilePolicy.path_join dir name.

Definition codex_config_path_from (codex_home : option string) (home : string) : string :=
  join (default (join home ".codex") codex_home) "config.toml".

(** ** The shape of a configuration: [codex_cli_schema.rs]

    What [serde] accepts: a field of the named type if it is there, a required one must
    be; other keys pass. *)

Section shape.
Context `{TomlFloat}.

Definition optional (f : string) (accepts : toml -> bool) (t : toml_table) : bool :=
  match tbl_get f t with Some v => accepts v | None => true end.

Definition required (f : string) (accepts : toml -> bool) (t : toml_table) : bool :=
  match tbl_get f t with Some v => accepts v | None => false end.

Definition is_string (v : toml) : bool := bool_decide (is_Some (tas_str v)).
Definition is_bool (v : toml) : bool := bool_decide (is_Some (tas_bool v)).

Definition is_map_of (accepts : toml -> bool) (v : toml) : bool :=
  match as_table v with Some t => forallb (fun p => accepts p.2) t | None => false end.

Definition is_vec_of (accepts : toml -> bool) (v : toml) : bool :=
  match tas_array v with Some l => forallb accepts l | None => false end.

Definition ModelProvider (v : toml) : bool :=
  match as_table v with
  | Some t =>
      required "name" is_string t && required "base_url" is_string t
      && required "wire_api" is_string t
      && optional "experimental_bearer_token" is_string t
      && optional "http_headers" (is_map_of is_string) t
      && optional "requires_openai_auth" is_bool t && optional "supports_websockets" is_bool t
  | None => false
  end.

Definition McpServer (v : toml) : bool :=
  match as_table v with
  | Some t =>
      optional "command" is_string t && optional "args" (is_vec_of is_string) t
      && optional "env" (is_map_of is_string) t && optional "url" is_string t
  | None => false
  end.

Definition Features (v : toml) : bool :=
  match as_table v with
  | Some t => optional "hooks" is_bool t && optional "codex_hooks" is_bool t
  | None => false
  end.

Definition CodexConfigShape (v : toml) : bool :=
  match as_table v with
  | Some t =>
      optional "openai_base_url" is_string t
      && optional "model_providers" (is_map_of ModelProvider) t
      && optional "mcp_servers" (is_map_of McpServer) t
      && optional "features" Features t
  | None => false
  end.
End shape.

(** ** Trust in a hook: [codex_cli/hooks.rs] *)

(** [serde_json::to_value] of a TOML value, [serde_json::to_vec], SHA-256. *)
Class CodexDigest `{TomlFloat} := {
  to_value : toml -> result json string;
  to_vec : json -> result bytes string;
  sha256 : bytes -> bytes }.

(** Objects with their keys in order, at every depth. *)
Fixpoint canonical_json (value : json) : json :=
  match value with
  | JObject m =>
      JObject (foldr (fun p sorted => tbl_insert p.1 p.2 sorted) []
        ((fix go m := match m with [] => [] | (k, v) :: m => (k, canonical_json v) :: go m end) m))
  | JArray items => JArray (List.map canonical_json items)
  | other => other
  end.

Definition hex_digit (n : N) : ascii :=
  ascii_of_N (if (n <? 10)%N then 48 + n else 87 + n).

Definition hex (l : bytes) : bytes :=
  flat_map (fun b => [hex_digit (code b / 16); hex_digit (code b mod 16)]%N) l.

(** The handler of a hook as Codex hashes it. *)
Record CodexHookTrustHandler := mkTrustHandler {
  handler_type : string;
  command : string;
  command_windows : option string;
  timeout_sec : Z;
  is_async : bool;
  status_message : option string }.

Definition CODEX_HOOK_EVENTS : list (string * string) :=
  [("PreToolUse", "pre_tool_use"); ("PermissionRequest", "permission_request")].

Definition CODEX_HOOK_TIMEOUT_SECS : Z := 7 * 24 * 60 * 60.
Definition CODEX_LEGACY_HOOK_TIMEOUT_SECS : Z := 600.

Definition codex_kyris_hook_command (script_path : string) : string := shell_command script_path.

Definition hook_key (hooks_path event_label : string) (group handler : nat) : string :=
  (hooks_path ++ ":" ++ event_label ++ ":" ++ pretty group ++ ":" ++ pretty handler)%string.

Definition codex_kyris_hook_key (hooks_path event_label : string) : string :=
  hook_key hooks_path event_label 0 0.

Section codex.
Context {T : TomlFloat} {digest : CodexDigest} {serde : SerdeText}.

Definition codex_toml_version (value : toml) : string :=
  let value := match to_value value with Ok v => v | Err _ => JNull end in
  let serialized := match to_vec (canonical_json value) with Ok b => b | Err _ => [] end in
  ("sha256:" ++ of_bytes (hex (sha256 serialized)))%string.

(** [toml::Value::try_from] of the identity: a field that is [None] is left out, a number
    beyond [i64] is an error. *)
Definition trust_identity (event_label matcher : string) (h : CodexHookTrustHandler)
    : result toml string :=
  if bool_decide (i64_max < timeout_sec h)%Z
  then Err "cannot build codex hook trust identity: u64 value was too large"
  else
    Ok (TTable
      [("event_name", TString event_label);
       ("hooks", TArray [TTable
         ([("async", TBoolean (is_async h)); ("command", TString (command h))]
          ++ match command_windows h with Some c => [("commandWindows", TString c)] | None => [] end
          ++ match status_message h with Some m => [("statusMessage", TString m)] | None => [] end
          ++ [("timeout", TInteger (timeout_sec h)); ("type", TString (handler_type h))])]);
       ("matcher", TString matcher)]).

Definition codex_hook_identity_hash (event_label matcher : string) (h : CodexHookTrustHandler)
    : result string string :=
  match trust_identity event_label matcher h with
  | Ok value => Ok (codex_toml_version value)
  | Err e => Err e
  end.

Definition codex_kyris_hook_hash_with_timeout (script_path event_label : string) (timeout : Z)
    : result string string :=
  codex_hook_identity_hash event_label ""
    (mkTrustHandler "command" (codex_kyris_hook_command script_path) None timeout false None).

Definition codex_kyris_hook_hash (script_path event_label : string) : result string string :=
  codex_kyris_hook_hash_with_timeout script_path event_label CODEX_HOOK_TIMEOUT_SECS.

(** What Codex reads of a handler in the file. *)
Definition file_handler (command : string) (handler : json) : CodexHookTrustHandler :=
  mkTrustHandler
    (default "command" (get "type" handler ≫= as_str))
    command
    (get "commandWindows" handler ≫= as_str)
    (default 600%Z (get "timeout" handler ≫= as_u64))
    (default false (get "async" handler ≫= as_bool))
    (get "statusMessage" handler ≫= as_str).

Definition runs_command (command : string) (handler : json) : bool :=
  bool_decide (get "command" handler ≫= as_str = Some command).

(** The first handler of the command: the numbers of its group and in it, the group, and
    the handler. *)
Fixpoint find_handler (command : string) (groups : list json) (group_idx : nat)
    : option (nat * nat * json * json) :=
  match groups with
  | [] => None
  | group :: groups =>
      match get "hooks" group ≫= as_array with
      | None => find_handler command groups (S group_idx)
      | Some handlers =>
          match list_find (fun h => runs_command command h = true) handlers with
          | Some (handler_idx, handler) => Some (group_idx, handler_idx, group, handler)
          | None => find_handler command groups (S group_idx)
          end
      end
  end.

Definition hook_groups (hooks : json) (event_json_key : string) : option (list json) :=
  (get "hooks" hooks ≫= get event_json_key) ≫= as_array.

(** The key and the hash Codex itself would compute from the file. *)
Definition file_trust_of (hooks : json) (hooks_path script_path event_json_key event_label : string)
    : option (string * string) :=
  groups ← hook_groups hooks event_json_key;
  '(group_idx, handler_idx, group, handler) ←
    find_handler (codex_kyris_hook_command script_path) groups 0;
  hash ← ok (codex_hook_identity_hash event_label (default "" (get "matcher" group ≫= as_str))
               (file_handler (codex_kyris_hook_command script_path) handler));
  Some (hook_key hooks_path event_label group_idx handler_idx, hash).

Definition codex_kyris_hook_file_trust (hooks_path script_path event_json_key event_label : string)
    : cmd (option (string * string)) :=
  hooks ← McpConfigure.attempt (read_json_value hooks_path);
  mret (hooks ≫= fun v => file_trust_of v hooks_path script_path event_json_key event_label).

Definition trust_path (key : string) : list string := ["hooks"; "state"; key; "trusted_hash"].

(** One event: a drifted entry is not trusted again (a warning is printed). *)
Definition ensure_event_trust (hooks_path script_path event_json_key event_label : string)
    (s : toml * bool) : cmd (toml * bool) :=
  canonical_hash ← lift "" (codex_kyris_hook_hash script_path event_label);
  trust ← codex_kyris_hook_file_trust hooks_path script_path event_json_key event_label;
  let mint key hash :=
    let '(config, changed) := TomlPatch.ensure_toml_string_path s.1 (trust_path key) hash in
    (config, s.2 || changed) in
  mret (match trust with
        | Some (key, file_hash) =>
            if String.eqb file_hash canonical_hash then mint key file_hash else s
        | None => mint (codex_kyris_hook_key hooks_path event_label) canonical_hash
        end).

Fixpoint ensure_events_trust (hooks_path script_path : string) (events : list (string * string))
    (s : toml * bool) : cmd (toml * bool) :=
  match events with
  | [] => mret s
  | (event_json_key, event_label) :: events =>
      s ← ensure_event_trust hooks_path script_path event_json_key event_label s;
      ensure_events_trust hooks_path script_path events s
  end.

Definition ensure_codex_kyris_hook_trust (config : toml) (hooks_path script_path : string)
    : cmd (toml * bool) :=
  ensure_events_trust hooks_path script_path CODEX_HOOK_EVENTS (config, false).

Definition trusted_hash_of (config : toml) (key : string) : option string :=
  (((tget "hooks" config ≫= tget "state") ≫= tget key) ≫= tget "trusted_hash") ≫= tas_str.

Definition codex_kyris_hook_trusted (config_path hooks_path script_path : string) : cmd bool :=
  config ← McpConfigure.attempt (read_toml_value config_path);
  match config with
  | None => mret false
  | Some config =>
      trust ← codex_kyris_hook_file_trust hooks_path script_path "PreToolUse" "pre_tool_use";
      mret (match trust with
            | None => false
            | Some (key, expected_hash) =>
                bool_decide (trusted_hash_of config key = Some expected_hash)
            end)
  end.

(** ** Edits of the configuration *)

(** Several settings, one after another. *)
Fixpoint ensure_each (sets : list (list string * toml)) (config : toml) : toml * bool :=
  match sets with
  | [] => (config, false)
  | (path, value) :: sets =>
      let '(config, changed) :=
        match value with
        | TString s => TomlPatch.ensure_toml_string_path config path s
        | TBoolean b => TomlPatch.ensure_toml_bool_path config path b
        | _ => (config, false)
        end in
      let '(config, later) := ensure_each sets config in
      (config, changed || later)
  end.

Definition kyris_provider (base_url_v1 inbound_key : string) : list (list string * toml) :=
  [(["model_providers"; "kyris"; "name"], TString "Kyris");
   (["model_providers"; "kyris"; "base_url"], TString base_url_v1);
   (["model_providers"; "kyris"; "wire_api"], TString "responses");
   (["model_providers"; "kyris"; "http_headers"; "x-kyris-inbound"], TString inbound_key);
   (["model_providers"; "kyris"; "requires_openai_auth"], TBoolean true);
   (["model_providers"; "kyris"; "supports_websockets"], TBoolean false)].

Fixpoint remove_toml_path (root : toml) (path : list string) : toml * bool :=
  match path with
  | [] => (root, false)
  | [key] =>
      match root with
      | TTable t => (TTable (tbl_remove key t), bool_decide (is_Some (tbl_get key t)))
      | _ => (root, false)
      end
  | segment :: path =>
      match root with
      | TTable t =>
          match tbl_get segment t with
          | Some next =>
              let '(next, removed) := remove_toml_path next path in
              (TTable (tbl_insert segment next t), removed)
          | None => (root, false)
          end
      | _ => (root, false)
      end
  end.

Definition table_is_empty (root : toml) (path : list string) : bool :=
  match foldl (fun cursor segment => cursor ≫= tget segment) (Some root) path ≫= as_table with
  | Some [] => true
  | _ => false
  end.

Definition ensure_codex_kyris_model_provider (config : toml) (base_url_v1 inbound_key : string)
    : toml * bool :=
  let '(config, changed) := ensure_each (kyris_provider base_url_v1 inbound_key) config in
  let '(config, removed) :=
    remove_toml_path config ["model_providers"; "kyris"; "experimental_bearer_token"] in
  (config, changed || removed).

Definition shell_env_path : list string :=
  ["shell_environment_policy"; "set"; "KYRIS_GOVERNED_SUBPROCESS"].

Definition ensure_codex_shell_env_marker (config : toml) : toml * bool :=
  TomlPatch.ensure_toml_string_path config shell_env_path "codex-cli".

(** ** Residue *)

Definition is_kyris_local_url (url : string) : bool :=
  contains (lit "127.0.0.1") (lit url) || contains (lit "localhost") (lit url)
  || contains (lit ":4710") (lit url).

(** One step of the scrub: remove a path where a test of the whole document says so. *)
Definition scrub_step (s : toml * bool) (step : (toml -> bool) * list string) : toml * bool :=
  if step.1 s.1
  then let '(config, removed) := remove_toml_path s.1 step.2 in (config, s.2 || removed)
  else s.

Definition key_is (key value : string) (config : toml) : bool :=
  bool_decide (tget key config ≫= tas_str = Some value).

Definition empty_at (path : list string) (config : toml) : bool := table_is_empty config path.

Definition scrub_steps : list ((toml -> bool) * list string) :=
  [(key_is "model_provider" "kyris", ["model_provider"]);
   (fun config => match tget "openai_base_url" config ≫= tas_str with
                  | Some url => is_kyris_local_url url | None => false end, ["openai_base_url"]);
   (fun _ => true, ["model_providers"; "kyris"]);
   (empty_at ["model_providers"], ["model_providers"]);
   (fun _ => true, ["permissions"; "kyris"]);
   (empty_at ["permissions"], ["permissions"]);
   (key_is "default_permissions" "kyris", ["default_permissions"]);
   (key_is "approval_policy" "untrusted", ["approval_policy"]);
   (fun _ => true, shell_env_path);
   (empty_at ["shell_environment_policy"; "set"], ["shell_environment_policy"; "set"]);
   (empty_at ["shell_environment_policy"], ["shell_environment_policy"])].

Definition scrub_codex_config_value (config : toml) : toml * bool :=
  foldl scrub_step (config, false) scrub_steps.

(** The hashes kyris ever wrote. *)
Definition kyris_hashes (script_path : string) : list string :=
  flat_map (fun event : string * string =>
    omap (fun t => ok (codex_kyris_hook_hash_with_timeout script_path event.2 t))
      [CODEX_HOOK_TIMEOUT_SECS; CODEX_LEGACY_HOOK_TIMEOUT_SECS]) CODEX_HOOK_EVENTS.

Definition kyris_keys (config : toml) (key_prefix : string) (hashes : list string) : list string :=
  match (tget "hooks" config ≫= tget "state") ≫= as_table with
  | Some state =>
      (List.filter (fun p : string * toml =>
        str_starts_with key_prefix p.1
        && match tget "trusted_hash" p.2 ≫= tas_str with
           | Some h => existsb (String.eqb h) hashes
           | None => false
           end) state).*1
  | None => []
  end.

Definition scrub_codex_kyris_hook_trust (config : toml) (config_path : string) : toml * bool :=
  let dir := parent config_path in
  let hooks_path := join dir "hooks.json" in
  let script_path := join dir "kyris_pretooluse.sh" in
  let keys := kyris_keys config (hooks_path ++ ":")%string (kyris_hashes script_path) in
  foldl scrub_step (config, false)
    (((fun key => (fun _ => true, ["hooks"; "state"; key])) <$> keys)
     ++ [(empty_at ["hooks"; "state"], ["hooks"; "state"]); (empty_at ["hooks"], ["hooks"])]).

(** ** The files *)

Context `{FloatEq} `{McpConfigure.ConfigStore}.
(** [CODEX_HOME], the home directory, is [codex] on the path. *)
Context (codex_home : option string) (home_dir : result string string) (codex_on_path : bool).
(** What [toml] says of a document of another shape. *)
Context (shape_error : toml -> string).

Definition TomlShapeValidator (contents : bytes) : result unit string :=
  match toml_from_str contents with
  | Err e => Err ("[TomlShape] " ++ e)%string
  | Ok v => if CodexConfigShape v then Ok tt else Err ("[TomlShape] " ++ shape_error v)%string
  end.

Definition codex_config_path : cmd string :=
  home ← lift "" home_dir; mret (codex_config_path_from codex_home home).

Definition codex_dir : cmd string := path ← codex_config_path; mret (parent path).

Definition codex_hooks_path : cmd string := dir ← codex_dir; mret (join dir "hooks.json").

Definition script_path_of : cmd string := dir ← codex_dir; mret (join dir "kyris_pretooluse.sh").

Definition rules_path_of : cmd string :=
  dir ← codex_dir; mret (join (join dir "rules") "agentpact.rules").

(** [PathBuf] compares the components of paths. *)
Fixpoint pieces_from (current l : bytes) : list bytes :=
  match l with
  | [] => [current]
  | b :: l => if Ascii.eqb b "/"%char then current :: pieces_from [] l else pieces_from (current ++ [b]) l
  end.

Definition components (p : string) : list string :=
  let pieces := List.map of_bytes (pieces_from [] (lit p)) in
  let named := fun c => negb (String.eqb c "" || String.eqb c ".") in
  (if str_starts_with "/" p then ["/"]
   else match pieces with "." :: _ => ["."] | _ => [] end)
  ++ List.filter named pieces.

Definition component_rank (c : string) : nat :=
  if String.eqb c "/" then 0 else if String.eqb c "." then 1 else if String.eqb c ".." then 2 else 3.

Fixpoint components_leb (l l' : list string) : bool :=
  match l, l' with
  | [], _ => true
  | _, [] => false
  | c :: l, c' :: l' =>
      if String.eqb c c' then components_leb l l'
      else if Nat.eqb (component_rank c) (component_rank c') then String.leb c c'
      else Nat.leb (component_rank c) (component_rank c')
  end.

Fixpoint dedup_paths (l : list string) : list string :=
  match l with
  | p :: ((q :: _) as l') =>
      if bool_decide (components p = components q)
      then match dedup_paths l' with [] => [p] | _ :: rest => p :: rest end
      else p :: dedup_paths l'
  | _ => l
  end.

Definition codex_config_candidate_paths : list string :=
  let here := match codex_home with Some dir => [join dir "config.toml"] | None => [] end in
  let there := match home_dir with Ok home => [join (join home ".codex") "config.toml"] | Err _ => [] end in
  dedup_paths (sort_by (fun p q => components_leb (components p) (components q)) (here ++ there)).

Definition path_exists (p : string) : cmd bool :=
  existing ← read_if_exists p; mret (bool_decide (is_Some existing)).

Definition read_or_empty_codex_config (config_path : string) : cmd toml :=
  read_toml_value config_path.

Definition write_codex_config (config_path : string) (new : toml) (component : string) : cmd unit :=
  write_toml_value config_path new component TomlShapeValidator;; mret tt.

Definition write_codex_config_unmanaged (config_path : string) (new : toml) : cmd unit :=
  printed ← lift ("Cannot serialize " ++ config_path ++ ": ") (toml_to_string_pretty new);
  let contents := printed ++ [newline] in
  lift ("validation failed for " ++ config_path ++ ": ") (TomlShapeValidator contents);;
  write_file config_path contents.

Definition write_json_unmanaged (path : string) (value : json) : cmd unit :=
  lift ("validation failed for " ++ path ++ ": ") (WellFormedJsonValidator (serialized value));;
  write_file path (serialized value).

(** ** The live hook *)

Fixpoint ensure_phases (phases : list string) (command : string) (nested : bool) (timeout : option Z)
    (s : json * bool) : json * bool :=
  match phases with
  | [] => s
  | phase :: phases =>
      let '(hooks, changed) := ensure_json_command_hook s.1 phase command nested timeout in
      ensure_phases phases command nested timeout (hooks, s.2 || changed)
  end.

Definition NoopValidator (contents : bytes) : result unit string := Ok tt.

Definition install_live_hook_adapter (agent_id component : string) (hook_phases : list string)
    (script_path hooks_file_path : string) (nested : bool) (hook_timeout : option Z)
    : cmd (list string) :=
  wrote ← write_managed_file script_path (lit (hook_script_source agent_id)) component NoopValidator;
  hooks ← read_json_value hooks_file_path;
  let '(hooks, hooks_changed) :=
    ensure_phases hook_phases (shell_command script_path) nested hook_timeout (hooks, false) in
  let changes := if wrote : bool then [("wrote " ++ script_path)%string] else [] in
  if hooks_changed : bool then
    write_json_value hooks_file_path hooks component;;
    mret (changes ++ [("updated " ++ hooks_file_path)%string])
  else mret changes.

(** ** Residue of all files *)

Fixpoint scrub_configs (paths : list string) : cmd (list string) :=
  match paths with
  | [] => mret []
  | path :: paths =>
      existing ← read_if_exists path;
      match existing with
      | None => scrub_configs paths
      | Some _ =>
          config ← read_toml_value path;
          let '(config, scrubbed) := scrub_codex_config_value config in
          let '(config, untrusted) := scrub_codex_kyris_hook_trust config path in
          if scrubbed || untrusted then
            write_codex_config_unmanaged path config;;
            rest ← scrub_configs paths;
            mret (("scrubbed " ++ path)%string :: rest)
          else scrub_configs paths
      end
  end.

Fixpoint remove_hooks (events : list (string * string)) (s : json * bool) : json * bool :=
  match events with
  | [] => s
  | event :: events =>
      let '(hooks, removed) := remove_json_command_hook s.1 event.1 "kyris_pretooluse" in
      remove_hooks events (hooks, s.2 || removed)
  end.

Definition scrub_hooks_file (hooks_path : string) : cmd (list string) :=
  existing ← read_if_exists hooks_path;
  match existing with
  | None => mret []
  | Some _ =>
      hooks ← read_json_value hooks_path;
      let '(hooks, removed) := remove_hooks CODEX_HOOK_EVENTS (hooks, false) in
      if removed : bool then
        write_json_unmanaged hooks_path hooks;;
        mret [("removed hook(s) from " ++ hooks_path)%string]
      else mret []
  end.

Definition remove_file_if_exists (path : string) : cmd bool :=
  existing ← read_if_exists path;
  match existing with Some _ => remove_if_exists path;; mret true | None => mret false end.

Definition scrub_file (path : string) : cmd (list string) :=
  removed ← remove_file_if_exists path;
  mret (if removed : bool then [("removed " ++ path)%string] else []).

Definition scrub_codex_residue : cmd (list string) :=
  configs ← scrub_configs codex_config_candidate_paths;
  hooks_path ← codex_hooks_path;
  hooks ← scrub_hooks_file hooks_path;
  script ← script_path_of;
  scripts ← scrub_file script;
  rules ← rules_path_of;
  rules ← scrub_file rules;
  mret (configs ++ hooks ++ scripts ++ rules).

(** ** The agent: [codex_cli.rs] *)

Definition is_installed : cmd bool :=
  existing ← McpConfigure.attempt (path ← codex_config_path; path_exists path);
  mret (default false existing || codex_on_path).

Definition kyris_content_markers : list bytes :=
  [lit "kyris-mcp"; lit "kyris_pretooluse"; lit "KYRIS_GOVERNED_SUBPROCESS";
   lit "model_provider = " ++ [dquote] ++ lit "kyris" ++ [dquote]; lit "[model_providers.kyris]"].

Definition integration_plan : Profile.AgentIntegrationPlan :=
  Profile.mkPlan
    (Profile.adapted_by [Profile.ExecLiveHookAdapter; Profile.ExecCompiledPolicy])
    (Profile.adapted_by [Profile.ToolMcpWrapping])
    (Profile.adapted_by [Profile.BurnKyrisdModelProvider])
    [Profile.AttrKyrisPathShim; Profile.AttrShellEnvironmentPolicy; Profile.AttrNativeHookPayload;
     Profile.AttrPeerProcessObserved]
    false.

Definition has_kyris_provider_config (v : toml) : bool :=
  key_is "model_provider" "kyris" v
  && match ((tget "model_providers" v ≫= tget "kyris") ≫= tget "base_url") ≫= tas_str with
     | Some u => negb (String.eqb u "")
     | None => false
     end.

(** [toml::to_string]. *)
Context (toml_to_string : toml -> result bytes string).

Definition fingerprint (path : string) : cmd (list Profile.ManagedFileFingerprint) :=
  contents ← read_if_exists path;
  mret (match contents with
        | Some c => [Profile.mkFingerprint path (of_bytes (hex (sha256 c)))]
        | None => []
        end).

Definition toml_has_any_mcp_servers (v : option toml) (servers_key : string) : bool :=
  match v with
  | Some v => match tget servers_key v ≫= as_table with Some [] | None => false | Some _ => true end
  | None => false
  end.

Definition probe_found (config_path hooks_path script_path rules_path : string)
    : cmd Profile.ProbeResult :=
  hooks_text ← read_if_exists hooks_path;
  let has_registered_hook :=
    match hooks_text with Some c => contains (lit "kyris") c | None => false end in
  trusted ← codex_kyris_hook_trusted config_path hooks_path script_path;
  let has_hook : bool := has_registered_hook && trusted in
  value ← McpConfigure.attempt (read_toml_value config_path);
  let has_mcp_wrap :=
    match value with
    | Some v => match toml_to_string v with Ok text => contains (lit "kyris-mcp") text | Err _ => false end
    | None => false
    end in
  has_compiled_policy ← path_exists rules_path;
  config_print ← fingerprint config_path;
  hooks_print ← fingerprint hooks_path;
  mret (Profile.mkProbe true
    (if has_hook then Profile.adapted Profile.ExecLiveHookAdapter
     else if has_compiled_policy : bool
          then Profile.with_ceiling Profile.CeilingCompiled (Profile.adapted Profile.ExecCompiledPolicy)
          else Profile.none)
    (if has_mcp_wrap then Profile.adapted Profile.ToolMcpWrapping
     else if negb (toml_has_any_mcp_servers value "mcp_servers") then Profile.not_applicable
     else Profile.none)
    (if match value with Some v => has_kyris_provider_config v | None => false end
     then Profile.adapted Profile.BurnKyrisdModelProvider else Profile.none)
    (config_print ++ hooks_print)).

(** Without a home directory there are no paths, so nothing is found in files. *)
Definition probe : cmd Profile.ProbeResult :=
  detected ← is_installed;
  if negb detected then mret Profile.not_detected
  else
    paths ← McpConfigure.attempt
      (config ← codex_config_path; hooks ← codex_hooks_path; script ← script_path_of;
       rules ← rules_path_of; mret (config, hooks, script, rules));
    match paths with
    | Some (config, hooks, script, rules) => probe_found config hooks script rules
    | None => mret (Profile.mkProbe true Profile.none Profile.not_applicable Profile.none [])
    end.

(** ** Configuring *)

Context `{CompilePolicy.PolicyLoader} (env : CompilePolicy.Env) (o : CompilePolicy.HashOrder).
Context (in_order : gmap string (list string) -> list (string * list string)).
(** The profile of Codex in the store of [state.rs]. *)
Context (load_agent_profile : cmd (option Profile.AgentProfile))
  (save_agent_profile : Profile.AgentProfile -> cmd unit).

Definition quoted (s : string) : string := String dquote (s ++ String dquote "").

Definition note (b : bool) (what : string) : list string := if b then [what] else [].

(** Every edit of [config.toml] before the compiled policy: in one go. *)
Definition execution_edits (config_path hooks_path script_path : string) (config : toml)
    : cmd (toml * bool * list string) :=
  let '(config, hooks_on) :=
    TomlPatch.ensure_toml_bool_path config ["features"; "hooks"] true in
  let '(config, marked) := ensure_codex_shell_env_marker config in
  let prior_approval := tget "approval_policy" config ≫= tas_str in
  let '(config, approval) :=
    TomlPatch.ensure_toml_string_path config ["approval_policy"] "untrusted" in
  '(config, trusted) ← ensure_codex_kyris_hook_trust config hooks_path script_path;
  mret (config, hooks_on || marked || approval || trusted,
    note hooks_on ("enabled hooks feature in " ++ config_path)
    ++ note marked ("set shell env marker in " ++ config_path)
    ++ (if approval then
          match prior_approval with
          | Some prior =>
              note (negb (String.eqb prior "untrusted"))
                ("warning: approval_policy was " ++ quoted prior ++ " — overridden to " ++ quoted "untrusted" ++ " so "
                 ++ "codex routes governed commands to its approval prompt (restored on "
                 ++ "`kyris agent disconnect codex-cli`)")
          | None => []
          end ++ [("set approval_policy=untrusted in " ++ config_path)%string]
        else [])
    ++ note trusted ("trusted kyris hooks in " ++ config_path)).

Definition write_rules : cmd (list string) :=
  match CompilePolicy.compile_codex_permissions env o None with
  | Err e => mret [("warning: compiled policy skipped: " ++ e)%string]
  | Ok (rules, _) =>
      match CompilePolicy.serialize_codex_rules_file rules with
      | [] => mret []
      | contents =>
          rules_path ← rules_path_of;
          wrote ← write_managed_file rules_path contents "codex-cli:execution" NoopValidator;
          mret (note wrote ("wrote " ++ rules_path))
      end
  end.

(** The tables of the compiled policy; [default_permissions] is set unless it is another's. *)
Definition permission_edits (config_path : string) (filesystem network_domains : list (string * string))
    (config : toml) : toml * bool * list string :=
  let '(config, fs) :=
    TomlPatch.merge_toml_string_entries config ["permissions"; "kyris"; "filesystem"] filesystem in
  let '(config, net) :=
    TomlPatch.merge_toml_string_entries config ["permissions"; "kyris"; "network"; "domains"]
      network_domains in
  let wrote :=
    note fs ("wrote " ++ pretty (length filesystem) ++ " path rule(s) to [permissions.kyris.filesystem] in "
             ++ config_path)
    ++ note net ("wrote " ++ pretty (length network_domains)
                 ++ " domain rule(s) to [permissions.kyris.network.domains] in " ++ config_path) in
  match tget "default_permissions" config ≫= tas_str with
  | None | Some "kyris" =>
      let '(config, activated) :=
        TomlPatch.ensure_toml_string_path config ["default_permissions"] "kyris" in
      (config, fs || net || activated,
       wrote ++ note activated ("set default_permissions = " ++ quoted "kyris" ++ " in " ++ config_path))
  | Some other =>
      (config, fs || net,
       wrote ++ [("warning: [permissions.kyris] written but not activated — "
                 ++ "default_permissions is already " ++ quoted other ++ ". "
                 ++ "Set default_permissions = " ++ quoted "kyris" ++ " to activate.")%string])
  end.

Definition write_permissions (config_path : string) : cmd (list string) :=
  match CompilePolicy.compile_codex_permissions_table env o None with
  | Err e => mret [("warning: permissions table skipped: " ++ e)%string]
  | Ok table =>
      let filesystem := CompilePolicy.by_key (map_to_list (CompilePolicy.filesystem table)) in
      let domains := CompilePolicy.by_key (map_to_list (CompilePolicy.network_domains table)) in
      changes ← match filesystem, domains with
        | [], [] => mret []
        | _, _ =>
            config ← read_toml_value config_path;
            let '(config, config_changed, changes) :=
              permission_edits config_path filesystem domains config in
            (if config_changed : bool
             then write_codex_config config_path config "codex-cli:execution" else mret tt);;
            mret changes
        end;
      match CompilePolicy.gaps table with
      | [] => mret changes
      | gaps =>
          profile ← load_agent_profile;
          save_agent_profile (Profile.with_gaps (default (Profile.new_empty "codex-cli") profile) gaps);;
          mret (changes ++ ((fun gap => ("warning: " ++ gap)%string) <$> gaps))
      end
  end.

Definition configure_execution_surface : cmd (list string) :=
  config_path ← codex_config_path;
  hooks_path ← codex_hooks_path;
  script_path ← script_path_of;
  changes ← install_live_hook_adapter "codex-cli" "codex-cli:execution"
    ["PreToolUse"; "PermissionRequest"] script_path hooks_path true (Some CODEX_HOOK_TIMEOUT_SECS);
  config ← read_or_empty_codex_config config_path;
  '(config, config_changed, edits) ← execution_edits config_path hooks_path script_path config;
  (if config_changed : bool
   then write_codex_config config_path config "codex-cli:execution" else mret tt);;
  rules ← write_rules;
  permissions ← write_permissions config_path;
  mret (changes ++ edits ++ rules ++ permissions).

Definition configure_burn_control_surface (base_url inbound_key : string) : cmd (list string) :=
  config_path ← codex_config_path;
  config ← read_or_empty_codex_config config_path;
  let prior_provider := tget "model_provider" config ≫= tas_str in
  let '(config, chosen) :=
    TomlPatch.ensure_toml_string_path config ["model_provider"] "kyris" in
  let '(config, provider) :=
    ensure_codex_kyris_model_provider config (base_url ++ "/v1") inbound_key in
  let warning :=
    match prior_provider with
    | Some prior =>
        note (chosen && negb (String.eqb prior "kyris"))
          ("warning: model_provider was " ++ quoted prior ++ " — overridden to " ++ quoted "kyris" ++ " so "
           ++ "burn-control can route through kyrisd; `kyris agent disconnect codex-cli` "
           ++ "restores it")
    | None => []
    end in
  if chosen || provider then
    write_codex_config config_path config "codex-cli:burn-control";;
    mret (warning ++ [("updated " ++ config_path)%string])
  else mret warning.

Definition configure_tool_surface (base_url inbound_key : string) : cmd (list string) :=
  config_path ← codex_config_path;
  config ← read_or_empty_codex_config config_path;
  let '(config, mcp) :=
    McpConfigure.rewrite_codex_mcp_servers config base_url inbound_key "codex-cli" in
  let '(config, filtered) := McpConfigure.apply_toml_tool_filters env o in_order config in
  changes ← (if McpConfigure.changed mcp || filtered then
               write_codex_config config_path config "codex-cli:tool";;
               mret [("updated " ++ config_path)%string]
             else mret []);
  match McpConfigure.http_rewrites mcp with
  | [] => mret changes
  | rewrites =>
      McpConfigure.upsert_mcp_upstreams rewrites;;
      mret (changes ++ ["registered MCP upstream(s) in kyrisd.yaml"])
  end.

(** ** Undoing; what is printed is the result *)

Definition mcp_configs : cmd (list McpConfigure.McpConfigLocation) :=
  path ← McpConfigure.attempt codex_config_path;
  mret (match path with
        | Some path => [McpConfigure.mkLocation path (McpConfigure.TomlServers "mcp_servers")]
        | None => []
        end).

Definition undo_tool_surface : cmd (list string) :=
  locations ← mcp_configs;
  mcp_names ← McpConfigure.mcp_server_names_from_agent locations;
  McpConfigure.remove_mcp_upstreams mcp_names;;
  config_path ← codex_config_path;
  restore_manifest_entry_component config_path "codex-cli:tool";;
  scrub_codex_residue.

Definition undo_execution_surface : cmd (list string) :=
  config_path ← codex_config_path;
  restore_manifest_entry_component config_path "codex-cli:execution";;
  hooks_path ← codex_hooks_path;
  restore_manifest_entry_component hooks_path "codex-cli:execution";;
  script ← script_path_of;
  restore_manifest_entry_component script "codex-cli:execution";;
  rules ← rules_path_of;
  restore_manifest_entry_component rules "codex-cli:execution";;
  scrub_codex_residue.

Definition undo_burn_control_surface : cmd (list string) :=
  path ← McpConfigure.attempt codex_config_path;
  reverted ← match path with
             | Some path =>
                 restored ← restore_manifest_entry_component path "codex-cli:burn-control";
                 mret (note restored ("Reverted " ++ path))
             | None => mret []
             end;
  scrubbed ← scrub_codex_residue;
  mret (reverted ++ scrubbed).
End codex.

Definition APPROVAL_PROMPT_SETTING : string := "approval_prompt".

(** [hook_protocol]. *)
Definition hook_protocol : Hook.HookProtocol :=
  Hook.mkProtocol "tool_name" ["tool_input"]
    [Hook.mkToolMapping "Bash" "execute" (Some "command");
     Hook.mkToolMapping "apply_patch" "apply_patch" (Some "command")]
    ["update_plan"; "view_image"; "spawn_agent"; "wait_agent"; "close_agent"; "followup_task";
     "list_agents"; "request_user_input"; "tool_search"; "list_mcp_resources";
     "list_mcp_resource_templates"; "read_mcp_resource"; "list_available_plugins_to_install"]
    ["request_permissions"; "request_plugin_install"; "send_message"; "spawn_agents_on_csv";
     "report_agent_job_result"]
    "call" Hook.EmptyStdout
    (Hook.mkRuntime CODEX_HOOK_TIMEOUT_SECS Hook.FailOpenPosture true false)
    (Some (JObject [("hookSpecificOutput",
       JObject [("hookEventName", JString "PermissionRequest");
                ("decision", JObject [("behavior", JString "allow")])])]))
    None (Some Hook.DeferToNativeApproval).

(** ** The command line reads back *)

(** What a POSIX shell makes of a line of plain characters, single quotes and backslashes:
    its words, or nothing for a quote that does not end or another special character. *)
Definition special (b : ascii) : bool :=
  bool_decide (b ∈ lit "$`;&|<>()*?[#~=%!{}" ++ [dquote; newline; "009"%char]).

Fixpoint sh_words (quoted : bool) (word : option bytes) (l : bytes) : option (list bytes) :=
  match l with
  | [] => if quoted then None else Some (match word with Some w => [w] | None => [] end)
  | b :: l =>
      if quoted then
        if Ascii.eqb b "'"%char then sh_words false word l
        else sh_words true (Some (default [] word ++ [b])) l
      else if Ascii.eqb b "'"%char then sh_words true (Some (default [] word)) l
      else if Ascii.eqb b backslash then
        match l with
        | c :: l => sh_words false (Some (default [] word ++ [c])) l
        | [] => None
        end
      else if Ascii.eqb b " "%char then
        rest ← sh_words false None l;
        Some (match word with Some w => w :: rest | None => rest end)
      else if special b then None
      else sh_words false (Some (default [] word ++ [b])) l
  end.

Lemma sh_words_quoted path w rest :
  sh_words true (Some w) (escape_quotes path ++ "'"%char :: rest) =
  sh_words false (Some (w ++ path)) rest.
Proof.
  revert w. induction path as [|b path IH]; intros w; cbn [escape_quotes app].
  - cbn. by rewrite app_nil_r.
  - destruct (Ascii.eqb_spec b "'") as [->|Hb].
    + change (lit "'\''" ++ escape_quotes path) with ("'" :: "\" :: "'" :: "'" :: escape_quotes path)%char.
      cbn. rewrite (IH (w ++ ["'"%char])). by rewrite <- app_assoc.
    + cbn. apply Ascii.eqb_neq in Hb. rewrite Hb. rewrite (IH (w ++ [b])). by rewrite <- app_assoc.
Qed.

(** The command registered for a hook runs the script whatever its path.  A shell
    that reads [shell_command path] finds two words, [bash] and the path, byte for byte:
    spaces, quotes, dollar signs and line feeds in the path of the home directory end no
    word and start nothing else. *)
Theorem shell_command_reads_back path :
  sh_words false None (lit (shell_command path)) = Some [lit "bash"; lit path].
Proof.
  unfold shell_command. rewrite !lit_app, lit_of_bytes.
  change (lit "bash '") with (lit "bash " ++ ["'"%char]). change (lit "'") with ["'"%char].
  rewrite <- !app_assoc. cbn [app]. cbn -[escape_quotes]. by rewrite sh_words_quoted.
Qed.

(** ** Several settings at once *)

Section edits.
Context {T : TomlFloat}.
Import TomlPatch.

Definition settable (v : toml) : Prop := (exists s, v = TString s) \/ (exists b, v = TBoolean b).

Definition set_one (config : toml) (path : list string) (value : toml) : toml * bool :=
  match value with
  | TString s => ensure_toml_string_path config path s
  | TBoolean b => ensure_toml_bool_path config path b
  | _ => (config, false)
  end.

Lemma set_one_spec config parent leaf value :
  twf config = true -> settable value ->
  let path := parent ++ [leaf] in
  let r := set_one config path value in
  twf r.1 = true /\ value_at r.1 path = Some value /\
  (r.2 = false <-> value_at config path = Some value) /\
  (r.2 = false -> r.1 = config) /\
  (forall p, incomparable p path -> value_at r.1 p = value_at config p).
Proof.
  intros Hw [[s ->]|[b ->]] path r.
  - split; [by apply ensure_toml_string_path_twf|].
    by apply ensure_toml_string_path_spec.
  - split; [by apply ensure_toml_bool_path_twf|].
    by apply ensure_toml_bool_path_spec.
Qed.

Lemma ensure_each_cons config path value sets :
  ensure_each ((path, value) :: sets) config =
  let '(config1, changed) := set_one config path value in
  let '(config2, later) := ensure_each sets config1 in
  (config2, changed || later).
Proof. done. Qed.

Lemma incomparable_sym p q : incomparable p q -> incomparable q p.
Proof. unfold incomparable. tauto. Qed.

(** Settings at paths of which none leads to another: all are there afterwards, no change
    is reported exactly if they were, and then the document is the same; every other path
    keeps its value. *)
Lemma ensure_each_spec sets config :
  twf config = true ->
  Forall (fun s => s.1 <> [] /\ settable s.2) sets ->
  ForallOrdPairs (fun s s' => incomparable s.1 s'.1) sets ->
  let r := ensure_each sets config in
  twf r.1 = true /\
  Forall (fun s => value_at r.1 s.1 = Some s.2) sets /\
  (r.2 = false <-> Forall (fun s => value_at config s.1 = Some s.2) sets) /\
  (r.2 = false -> r.1 = config) /\
  (forall p, Forall (fun s => incomparable p s.1) sets -> value_at r.1 p = value_at config p).
Proof.
  intros Hw Hset Hpairs r. subst r. revert config Hw Hset.
  induction Hpairs as [|[path value] sets Hp Hpairs IH]; intros config Hw Hset.
  { cbn. split_and!; try done. }
  apply Forall_cons in Hset as [[Hne Hv] Hset]. cbn [fst snd] in Hne, Hv, Hp.
  destruct path as [|leaf parent _] using rev_ind; [done|].
  rewrite ensure_each_cons. pose proof (set_one_spec config parent leaf value Hw Hv) as Hone.
  cbv zeta in Hone. destruct (set_one config (parent ++ [leaf]) value) as [config1 changed]. cbn [fst snd] in Hone.
  destruct Hone as (Hw1 & Hin & Hflag & Hsame & Hframe).
  specialize (IH config1 Hw1 Hset). destruct (ensure_each sets config1) as [config2 later].
  cbn [fst snd] in IH |- *. destruct IH as (Hw2 & Hin2 & Hflag2 & Hsame2 & Hframe2).
  assert (value_at config2 (parent ++ [leaf]) = Some value) as Hkeep.
  { rewrite Hframe2; [done|]. eapply Forall_impl; [exact Hp|]. auto. }
  assert (changed = false -> Forall (fun s => value_at config1 s.1 = Some s.2) sets <->
    Forall (fun s => value_at config s.1 = Some s.2) sets) as Hmove.
  { intros Hc. by rewrite (Hsame Hc). }
  split_and!; [done|by constructor| | |].
  - rewrite orb_false_iff, Hflag, Hflag2, Forall_cons. cbn [fst snd].
    split; intros [H1 H2]; (split; [done|]); by apply Hmove; [apply Hflag|].
  - intros [Hc Hl]%orb_false_iff. by rewrite (Hsame2 Hl), (Hsame Hc).
  - intros p [Hp1 Hps]%Forall_cons. rewrite Hframe2 by done. by apply Hframe.
Qed.

(** ** Removing a path *)

Lemma remove_toml_path_cons t key seg path :
  remove_toml_path (TTable t) (key :: seg :: path) =
  match tbl_get key t with
  | Some next =>
      let '(next, removed) := remove_toml_path next (seg :: path) in
      (TTable (tbl_insert key next t), removed)
  | None => (TTable t, false)
  end.
Proof. done. Qed.

Lemma remove_toml_path_twf root path : twf root = true -> twf (remove_toml_path root path).1 = true.
Proof.
  revert root. induction path as [|key path IH]; intros root Hw; [done|].
  destruct path as [|seg path].
  - destruct root; try done. by apply twf_remove.
  - destruct root as [| | | | | |t]; try done. rewrite remove_toml_path_cons.
    destruct (tbl_get key t) as [next|] eqn:Hk; [|done].
    specialize (IH next ltac:(by eapply twf_get)).
    destruct (remove_toml_path next (seg :: path)) as [next' removed]. by apply twf_insert.
Qed.

Lemma remove_toml_path_gone root path :
  path <> [] -> value_at (remove_toml_path root path).1 path = None.
Proof.
  revert root. induction path as [|key path IH]; intros root Hne; [done|]. destruct path as [|seg path].
  - destruct root as [| | | | | |t]; try done. cbn. by rewrite tbl_get_remove, String.eqb_refl.
  - destruct root as [| | | | | |t]; try done. rewrite remove_toml_path_cons.
    destruct (tbl_get key t) as [next|] eqn:Hk; [|by cbn; rewrite Hk].
    specialize (IH next ltac:(done)). destruct (remove_toml_path next (seg :: path)) as [next' removed].
    cbn [fst] in *. rewrite value_at_tbl, tbl_get_insert, String.eqb_refl. done.
Qed.

Lemma remove_toml_path_flag root path :
  (remove_toml_path root path).2 = false <-> path = [] \/ value_at root path = None.
Proof.
  revert root. induction path as [|key path IH]; intros root; [by split; [left|]|]. destruct path as [|seg path].
  - destruct root as [| | | | | |t]; try (by split; [right|]). cbn.
    rewrite bool_decide_eq_false. destruct (tbl_get key t) as [v|]; cbn.
    + split; [intros H; destruct H; eauto|by intros [[=]|[=]]].
    + split; [by right|by intros _ [? [=]]].
  - destruct root as [| | | | | |t]; try (by split; [right|]).
    rewrite remove_toml_path_cons, value_at_tbl. destruct (tbl_get key t) as [next|] eqn:Hk; [|by split; [right|]].
    specialize (IH next). destruct (remove_toml_path next (seg :: path)) as [next' removed].
    cbn [snd mbind option_bind] in *. rewrite IH. split; [intros [[=]|H]; by right|intros [[=]|H]; by right].
Qed.

Lemma remove_toml_path_frame root path p :
  ~ p `prefix_of` path -> ~ path `prefix_of` p ->
  value_at (remove_toml_path root path).1 p = value_at root p.
Proof.
  revert root p. induction path as [|key path IH]; intros root p Hp Hq; [done|].
  destruct p as [|k p]; [by destruct Hp; apply prefix_nil|].
  destruct path as [|seg path].
  - destruct root as [| | | | | |t]; try done. cbn [remove_toml_path fst]. rewrite !value_at_tbl, tbl_get_remove.
    destruct (String.eqb_spec k key) as [->|]; [|done]. destruct Hq. by apply prefix_cons, prefix_nil.
  - destruct root as [| | | | | |t]; try done. rewrite remove_toml_path_cons.
    destruct (tbl_get key t) as [next|] eqn:Hk; [|done].
    assert (k = key -> ~ p `prefix_of` seg :: path /\ ~ seg :: path `prefix_of` p) as Hinc.
    { intros ->. split; intros ?; [destruct Hp|destruct Hq]; by apply prefix_cons. }
    pose proof (fun H1 H2 => IH next p H1 H2) as Hc.
    destruct (remove_toml_path next (seg :: path)) as [next' removed]. cbn [fst] in *.
    rewrite !value_at_tbl, tbl_get_insert. destruct (String.eqb_spec k key) as [->|]; [|done].
    rewrite Hk. cbn. apply Hc; by apply Hinc.
Qed.

(** ** The route through kyrisd *)

#[export] Instance incomparable_dec p q : Decision (incomparable p q).
Proof. unfold incomparable. apply _. Defined.

(** Concrete paths, none of which leads to another. *)
Ltac apart := repeat constructor; cbn [fst snd]; vm_decided.

Lemma incomparable_app p q r : incomparable p q -> incomparable p (q ++ r).
Proof.
  intros [H1 H2]. split; intros H.
  - destruct (prefix_weak_total p q (q ++ r) H) as [?|?]; [apply prefix_app_r; done|done|done].
  - destruct H2. by eapply prefix_app_l.
Qed.

Lemma kyris_provider_sets url key :
  Forall (fun s : list string * toml => s.1 <> [] /\ settable s.2) (kyris_provider url key) /\
  ForallOrdPairs (fun s s' : list string * toml => incomparable s.1 s'.1) (kyris_provider url key).
Proof.
  split; [|apart].
  unfold kyris_provider, settable. rewrite !Forall_cons, Forall_nil. cbn [fst snd]. naive_solver.
Qed.

Definition bearer_path : list string := ["model_providers"; "kyris"; "experimental_bearer_token"].

(** The route of Codex through kyrisd.  Whatever the configuration holds, after
    [ensure_codex_kyris_model_provider] the provider [kyris] has the address and the inbound
    key it was given, in the header kyrisd reads and not as the bearer of the upstream: a
    bearer an older setup left is gone, so that Codex sends its own credential; no value
    outside [model_providers.kyris] is changed; and run again it reports no change. *)
Theorem provider_routes_through_kyrisd config url key :
  twf config = true ->
  let r := ensure_codex_kyris_model_provider config url key in
  Forall (fun s => value_at r.1 s.1 = Some s.2) (kyris_provider url key) /\
  value_at r.1 bearer_path = None /\
  (forall p, incomparable p ["model_providers"; "kyris"] -> value_at r.1 p = value_at config p) /\
  (ensure_codex_kyris_model_provider r.1 url key).2 = false.
Proof.
  intros Hw r. subst r. destruct (kyris_provider_sets url key) as [Hset Hpairs].
  assert (Forall (fun s : list string * toml => incomparable s.1 bearer_path) (kyris_provider url key)) as Hb
    by (apart).
  pose proof (ensure_each_spec (kyris_provider url key) config Hw Hset Hpairs) as Heach. cbv zeta in Heach.
  unfold ensure_codex_kyris_model_provider. fold bearer_path.
  destruct (ensure_each (kyris_provider url key) config) as [config1 changed].
  cbn [fst snd] in Heach. destruct Heach as (Hw1 & Hin & _ & _ & Hframe).
  pose proof (remove_toml_path_gone config1 bearer_path ltac:(done)) as Hgone.
  pose proof (remove_toml_path_twf config1 bearer_path Hw1) as Hw2.
  pose proof (remove_toml_path_frame config1 bearer_path) as Hkeep.
  destruct (remove_toml_path config1 bearer_path) as [config2 removed]. cbn [fst snd] in *.
  assert (Forall (fun s => value_at config2 s.1 = Some s.2) (kyris_provider url key)) as Hin2.
  { rewrite Forall_forall in Hin, Hb |- *. intros s Hs. destruct (Hb s Hs). rewrite Hkeep by done. by apply Hin. }
  split_and!; [done|done| |].
  - intros p Hp. rewrite Hkeep.
    + apply Hframe. repeat constructor; cbn [fst];
        (apply (incomparable_app p ["model_providers"; "kyris"] [_]) ||
         apply (incomparable_app p ["model_providers"; "kyris"] [_; _])); done.
    + apply (incomparable_app p _ ["experimental_bearer_token"] Hp).
    + apply (incomparable_app p _ ["experimental_bearer_token"] Hp).
  - pose proof (ensure_each_spec (kyris_provider url key) config2 Hw2 Hset Hpairs) as Hagain.
    cbv zeta in Hagain.
    destruct (ensure_each (kyris_provider url key) config2) as [config3 changed'].
    cbn [fst snd] in Hagain. destruct Hagain as (_ & _ & Hflag & Hsame & _).
    assert (changed' = false) as -> by (by apply Hflag). rewrite (Hsame eq_refl).
    pose proof (remove_toml_path_flag config2 bearer_path) as Hno.
    destruct (remove_toml_path config2 bearer_path) as [config4 removed']. cbn [snd] in *.
    cbn. apply Hno. by right.
Qed.

(** ** The scrub *)

Definition wanted_gone : list (list string) :=
  [["model_providers"; "kyris"]; ["permissions"; "kyris"]; shell_env_path].

(** A run of steps that keeps what no step leads to or through. *)
Lemma scrub_frame steps s p :
  Forall (fun step : (toml -> bool) * list string => incomparable p step.2) steps ->
  value_at (foldl scrub_step s steps).1 p = value_at s.1 p.
Proof.
  revert s. induction steps as [|[test path] steps IH]; intros s; [done|].
  intros [[H1 H2] Hs]%Forall_cons. cbn [foldl]. rewrite IH by done. unfold scrub_step. cbn [fst snd].
  destruct (test s.1); [|done]. pose proof (remove_toml_path_frame s.1 path p H1 H2) as Hf.
  by destruct (remove_toml_path s.1 path).
Qed.

(** A path that is not there stays away. *)
Lemma remove_toml_path_absent root path p :
  value_at root p = None -> value_at (remove_toml_path root path).1 p = None.
Proof.
  revert root p. induction path as [|key path IH]; intros root p Hp; [done|].
  destruct p as [|k p]; [done|]. destruct root as [| | | | | |t]; [by destruct path..|].
  destruct path as [|seg path].
  - cbn [remove_toml_path fst]. rewrite value_at_tbl in *. rewrite tbl_get_remove.
    by destruct (String.eqb k key).
  - rewrite remove_toml_path_cons. destruct (tbl_get key t) as [next|] eqn:Hk; [|done].
    pose proof (IH next p) as Hn. destruct (remove_toml_path next (seg :: path)) as [next' removed].
    cbn [fst] in *. rewrite value_at_tbl in *. rewrite tbl_get_insert.
    destruct (String.eqb_spec k key) as [->|]; [|done]. rewrite Hk in Hp. cbn in *. by apply Hn.
Qed.

Lemma scrub_absent steps s p :
  value_at s.1 p = None -> value_at (foldl scrub_step s steps).1 p = None.
Proof.
  revert s. induction steps as [|[test path] steps IH]; intros s Hp; [done|]. cbn [foldl]. apply IH.
  unfold scrub_step. cbn [fst snd]. destruct (test s.1); [|done].
  pose proof (remove_toml_path_absent s.1 path p Hp) as Ha. by destruct (remove_toml_path s.1 path).
Qed.

(** What a step removes is gone at the end, and a key whose removal depends on its value
    does not have that value at the end. *)
Lemma scrub_removes before path after s :
  path <> [] ->
  value_at (foldl scrub_step s (before ++ ((fun _ => true), path) :: after)).1 path = None.
Proof.
  intros Hne. rewrite foldl_app. cbn [foldl]. apply scrub_absent. unfold scrub_step. cbn [fst snd].
  pose proof (remove_toml_path_gone (foldl scrub_step s before).1 path Hne) as Hg.
  by destruct (remove_toml_path _ path).
Qed.

Lemma key_is_value key value config :
  key_is key value config = bool_decide (value_at config [key] ≫= tas_str = Some value).
Proof.
  unfold key_is, tget. apply bool_decide_ext. destruct config as [| | | | | |t]; try done.
  cbn. by destruct (tbl_get key t).
Qed.

Lemma scrub_key before key value after s :
  Forall (fun step : (toml -> bool) * list string => incomparable [key] step.2) (before ++ after) ->
  value_at (foldl scrub_step s (before ++ (key_is key value, [key]) :: after)).1 [key] =
  if bool_decide (value_at s.1 [key] ≫= tas_str = Some value) then None else value_at s.1 [key].
Proof.
  intros [Hb Ha]%Forall_app. rewrite foldl_app. cbn [foldl]. rewrite scrub_frame by done.
  unfold scrub_step at 1. cbn [fst snd]. rewrite key_is_value, scrub_frame by done.
  case_bool_decide as Hk.
  - pose proof (remove_toml_path_gone (foldl scrub_step s before).1 [key] ltac:(done)) as Hg.
    by destruct (remove_toml_path _ [key]).
  - by rewrite scrub_frame.
Qed.

(** The keys of its own that kyris sets. *)
Definition kyris_values : list (string * string) :=
  [("model_provider", "kyris"); ("default_permissions", "kyris"); ("approval_policy", "untrusted")].

(** What a disconnect takes out of a configuration of Codex.  After
    [scrub_codex_config_value] there is no provider [kyris], no permission table of kyris and
    no shell marker; [model_provider], [default_permissions] and [approval_policy] are gone
    where they have the value kyris gives them, and kept otherwise; and every path that
    leads neither to nor through one of the settings kyris writes keeps its value.  The
    value alone decides: an [approval_policy] of [untrusted] that the user set is taken out
    as well, also after the manifest restored it. *)
Theorem scrub_strips_kyris config :
  let r := (scrub_codex_config_value config).1 in
  Forall (fun p => value_at r p = None) wanted_gone /\
  Forall (fun kv : string * string =>
    value_at r [kv.1] = if bool_decide (value_at config [kv.1] ≫= tas_str = Some kv.2)
                        then None else value_at config [kv.1]) kyris_values /\
  (forall p, Forall (fun step : (toml -> bool) * list string => incomparable p step.2) scrub_steps ->
     value_at r p = value_at config p).
Proof.
  intros r. subst r. unfold scrub_codex_config_value. split; [|split].
  - repeat constructor.
    + by apply (scrub_removes (take 2 scrub_steps) _ (drop 3 scrub_steps)).
    + by apply (scrub_removes (take 4 scrub_steps) _ (drop 5 scrub_steps)).
    + by apply (scrub_removes (take 8 scrub_steps) _ (drop 9 scrub_steps)).
  - repeat constructor; cbn [fst snd].
    + apply (scrub_key (take 0 scrub_steps) _ _ (drop 1 scrub_steps) (config, false)).
      apart.
    + apply (scrub_key (take 6 scrub_steps) _ _ (drop 7 scrub_steps) (config, false)).
      apart.
    + apply (scrub_key (take 7 scrub_steps) _ _ (drop 8 scrub_steps) (config, false)).
      apart.
  - intros p Hp. by rewrite scrub_frame.
Qed.
End edits.

(** ** Trust *)

Section trust.
Context {T : TomlFloat} {digest : CodexDigest} {serde : SerdeText}.
Import TomlPatch.

(** The hash of what kyris installs for an event. *)
Definition canonical_hash (script_path event_label : string) : string :=
  match codex_kyris_hook_hash script_path event_label with Ok h => h | Err _ => "" end.

Lemma canonical_hash_ok script_path event_label :
  codex_kyris_hook_hash script_path event_label = Ok (canonical_hash script_path event_label).
Proof. reflexivity. Qed.

(** One event, with the hooks file read. *)
Definition event_trust (hooks : option json) (hooks_path script_path : string) (event : string * string)
    (s : toml * bool) : toml * bool :=
  let mint key hash :=
    let '(config, changed) := ensure_toml_string_path s.1 (trust_path key) hash in
    (config, s.2 || changed) in
  match hooks ≫= fun v => file_trust_of v hooks_path script_path event.1 event.2 with
  | Some (key, file_hash) =>
      if String.eqb file_hash (canonical_hash script_path event.2) then mint key file_hash else s
  | None => mint (codex_kyris_hook_key hooks_path event.2) (canonical_hash script_path event.2)
  end.

Lemma ensure_event_trust_spec hooks_path script_path jk label s d :
  ensure_event_trust hooks_path script_path jk label s d =
  (Ok (event_trust (ok (read_json_value hooks_path d).1) hooks_path script_path (jk, label) s), d).
Proof. unfold ensure_event_trust. rewrite canonical_hash_ok. reflexivity. Qed.

Lemma ensure_events_trust_spec hooks_path script_path events s d :
  ensure_events_trust hooks_path script_path events s d =
  (Ok (foldl (fun s event => event_trust (ok (read_json_value hooks_path d).1) hooks_path script_path event s)
         s events), d).
Proof.
  revert s. induction events as [|[jk label] events IH]; intros s; [done|].
  cbn [ensure_events_trust foldl]. unfold mbind, cmd_bind. rewrite ensure_event_trust_spec. apply IH.
Qed.

Lemma trusted_hash_value config key :
  trusted_hash_of config key = value_at config (trust_path key) ≫= tas_str.
Proof.
  unfold trusted_hash_of, trust_path, tget. destruct config as [| | | | | |t]; try done. cbn.
  destruct (tbl_get "hooks" t) as [[| | | | | |t1]|]; try done. cbn.
  destruct (tbl_get "state" t1) as [[| | | | | |t2]|]; try done. cbn.
  destruct (tbl_get key t2) as [[| | | | | |t3]|]; try done. cbn.
  by destruct (tbl_get "trusted_hash" t3).
Qed.

Lemma trust_paths_apart key key' : key <> key' -> incomparable (trust_path key) (trust_path key').
Proof.
  intros Hne. unfold trust_path. split; intros H;
    apply prefix_cons_inv_2, prefix_cons_inv_2, prefix_cons_inv_1 in H; congruence.
Qed.

Lemma mint_trust config key key' hash :
  twf config = true ->
  trusted_hash_of (ensure_toml_string_path config (trust_path key) hash).1 key' =
  if String.eqb key' key then Some hash else trusted_hash_of config key'.
Proof.
  intros Hw. destruct (ensure_toml_string_path_spec config ["hooks"; "state"; key] "trusted_hash" hash Hw)
    as (Hin & _ & _ & Hframe). change (["hooks"; "state"; key] ++ ["trusted_hash"]) with (trust_path key) in *.
  rewrite !trusted_hash_value. destruct (String.eqb_spec key' key) as [->|Hne]; [by rewrite Hin|].
  by rewrite Hframe by by apply trust_paths_apart.
Qed.

(** Where an event's entry is minted, if it is. *)
Definition minted_key (hooks : option json) (hooks_path script_path : string) (event : string * string)
    : option string :=
  match hooks ≫= fun v => file_trust_of v hooks_path script_path event.1 event.2 with
  | Some (key, h) => if String.eqb h (canonical_hash script_path event.2) then Some key else None
  | None => Some (codex_kyris_hook_key hooks_path event.2)
  end.

Lemma event_trust_spec hooks hooks_path script_path event s key :
  twf s.1 = true ->
  let s' := event_trust hooks hooks_path script_path event s in
  twf s'.1 = true /\
  trusted_hash_of s'.1 key =
    if bool_decide (minted_key hooks hooks_path script_path event = Some key)
    then Some (canonical_hash script_path event.2) else trusted_hash_of s.1 key.
Proof.
  intros Hw s'. subst s'. unfold event_trust, minted_key.
  assert (Hmint : forall k h,
    let s' := (let '(config, changed) := ensure_toml_string_path s.1 (trust_path k) h in
               (config, s.2 || changed)) in
    twf s'.1 = true /\ trusted_hash_of s'.1 key =
      if bool_decide (Some k = Some key) then Some h else trusted_hash_of s.1 key).
  { intros k h s'. subst s'. pose proof (mint_trust s.1 k key h Hw) as Hm.
    pose proof (ensure_toml_string_path_twf s.1 (trust_path k) h Hw) as Hw'.
    destruct (ensure_toml_string_path s.1 (trust_path k) h) as [c b]. cbn [fst] in *. split; [done|].
    rewrite Hm. destruct (String.eqb_spec key k) as [->|]; case_bool_decide; naive_solver. }
  destruct (hooks ≫= _) as [[k h]|].
  - destruct (String.eqb_spec h (canonical_hash script_path event.2)) as [->|]; [apply Hmint|].
    by rewrite bool_decide_eq_false_2.
  - apply Hmint.
Qed.

(** Keys of different events differ. *)
Lemma lit_inj_string s t : s = t -> lit s = lit t.
Proof. by intros ->. Qed.

Lemma hook_keys_apart hooks_path g h g' h' :
  hook_key hooks_path "pre_tool_use" g h <> hook_key hooks_path "permission_request" g' h'.
Proof.
  unfold hook_key. intros Heq%lit_inj_string. rewrite !lit_app in Heq.
  apply app_inv_head in Heq. change (lit "pre_tool_use") with ("p"%char :: "r"%char :: lit "e_tool_use") in Heq.
  change (lit "permission_request") with ("p"%char :: "e"%char :: lit "rmission_request") in Heq.
  change (lit ":") with [":"%char] in Heq. cbn [app] in Heq. discriminate Heq.
Qed.

Lemma file_trust_key v hooks_path script_path jk label key h :
  file_trust_of v hooks_path script_path jk label = Some (key, h) ->
  exists g i, key = hook_key hooks_path label g i.
Proof.
  unfold file_trust_of. intros (groups & _ & H)%bind_Some.
  apply bind_Some in H as ([[[g i] gr] hd] & _ & H). apply bind_Some in H as (hash & _ & [= <- _]). eauto.
Qed.

(** The trust entries after [ensure_codex_kyris_hook_trust]. *)
Lemma trust_entries_after config hooks_path script_path hooks d config' changed key :
  twf config = true ->
  (read_json_value hooks_path d).1 = Ok hooks ->
  (ensure_codex_kyris_hook_trust config hooks_path script_path d).1 = Ok (config', changed) ->
  trusted_hash_of config' key =
  if bool_decide (minted_key (Some hooks) hooks_path script_path
                    ("PermissionRequest", "permission_request") = Some key)
  then Some (canonical_hash script_path "permission_request")
  else if bool_decide (minted_key (Some hooks) hooks_path script_path
                         ("PreToolUse", "pre_tool_use") = Some key)
  then Some (canonical_hash script_path "pre_tool_use") else trusted_hash_of config key.
Proof.
  intros Hw Hhooks Hens. unfold ensure_codex_kyris_hook_trust in Hens.
  rewrite ensure_events_trust_spec, Hhooks in Hens. cbn [ok fst foldl CODEX_HOOK_EVENTS] in Hens.
  injection Hens as Hens.
  destruct (event_trust_spec (Some hooks) hooks_path script_path ("PreToolUse", "pre_tool_use")
    (config, false) key Hw) as [Hw1 H1].
  destruct (event_trust_spec (Some hooks) hooks_path script_path ("PermissionRequest", "permission_request")
    _ key Hw1) as [Hw2 H2].
  rewrite Hens in H2. cbn [fst snd] in H1, H2. by rewrite H2, H1.
Qed.

Lemma gate_key_apart hooks hooks_path script_path g i :
  minted_key hooks hooks_path script_path ("PermissionRequest", "permission_request") <>
  Some (hook_key hooks_path "pre_tool_use" g i).
Proof.
  unfold minted_key. cbn [fst snd].
  destruct (hooks ≫= _) as [[k2 h2]|] eqn:Hf2.
  - apply bind_Some in Hf2 as (v & _ & (g2 & i2 & ->)%file_trust_key).
    destruct (String.eqb _ _); [|done]. intros [= Heq]. by eapply hook_keys_apart.
  - intros [= Heq]. by eapply hook_keys_apart.
Qed.

Lemma probe_reads_trust config_path hooks_path script_path hooks config d :
  (read_json_value hooks_path d).1 = Ok hooks -> (read_toml_value config_path d).1 = Ok config ->
  (codex_kyris_hook_trusted config_path hooks_path script_path d).1 =
  Ok (match file_trust_of hooks hooks_path script_path "PreToolUse" "pre_tool_use" with
      | None => false
      | Some (key, h) => bool_decide (trusted_hash_of config key = Some h)
      end).
Proof.
  intros Hhooks Hconf. unfold codex_kyris_hook_trusted, codex_kyris_hook_file_trust, mbind, cmd_bind,
    McpConfigure.attempt. rewrite Hconf. cbn [ok]. by rewrite Hhooks.
Qed.

(** An entry that hashes to what kyris installs is trusted afterwards; for any other the
    trust is as before. *)
Lemma gate_trust_after config hooks_path script_path hooks d config' changed key h :
  twf config = true ->
  (read_json_value hooks_path d).1 = Ok hooks ->
  (ensure_codex_kyris_hook_trust config hooks_path script_path d).1 = Ok (config', changed) ->
  file_trust_of hooks hooks_path script_path "PreToolUse" "pre_tool_use" = Some (key, h) ->
  trusted_hash_of config' key =
    if String.eqb h (canonical_hash script_path "pre_tool_use") then Some h
    else trusted_hash_of config key.
Proof.
  intros Hw Hhooks Hens Hf. rewrite (trust_entries_after _ _ _ _ _ _ _ key Hw Hhooks Hens).
  pose proof (file_trust_key _ _ _ _ _ _ _ Hf) as (g & i & ->).
  rewrite (bool_decide_eq_false_2 _ (gate_key_apart _ _ _ _ _)).
  unfold minted_key. cbn [fst snd mbind option_bind]. rewrite Hf.
  destruct (String.eqb_spec h (canonical_hash script_path "pre_tool_use")) as [->|Hne].
  - by rewrite bool_decide_eq_true_2.
  - by rewrite bool_decide_eq_false_2.
Qed.

(** C23. Setup vouches for its own hook and for no other.  Once [ensure_codex_kyris_hook_trust]
    has run, Codex and the probe take the governance hook for trusted exactly if the hooks
    file registers the script, and either the entry hashes, as Codex hashes it, to what kyris
    installs, or the user had trusted that very entry before: an entry that was edited, a
    shorter timeout say, is not vouched for.  And every trust entry is as before, or holds
    the hash of what kyris installs for one of the two events: no hash of anything else is
    ever minted. *)
Theorem setup_vouches_for_its_hook config hooks_path script_path config_path hooks d d' config' changed :
  twf config = true ->
  (read_json_value hooks_path d).1 = Ok hooks -> (read_json_value hooks_path d').1 = Ok hooks ->
  (ensure_codex_kyris_hook_trust config hooks_path script_path d).1 = Ok (config', changed) ->
  (read_toml_value config_path d').1 = Ok config' ->
  ((codex_kyris_hook_trusted config_path hooks_path script_path d').1 = Ok true <->
   exists key h, file_trust_of hooks hooks_path script_path "PreToolUse" "pre_tool_use" = Some (key, h) /\
     (h = canonical_hash script_path "pre_tool_use" \/ trusted_hash_of config key = Some h)) /\
  (forall key, trusted_hash_of config' key = trusted_hash_of config key \/
     exists event, event ∈ CODEX_HOOK_EVENTS /\
       trusted_hash_of config' key = Some (canonical_hash script_path event.2)).
Proof.
  intros Hw Hhooks Hhooks' Hens Hconf. rewrite (probe_reads_trust _ _ _ _ _ _ Hhooks' Hconf). split.
  - destruct (file_trust_of hooks _ _ "PreToolUse" _) as [[key h]|] eqn:Hf;
      [|split; [by intros [=]|by intros (? & ? & [=] & _)]].
    rewrite (gate_trust_after _ _ _ _ _ _ _ _ _ Hw Hhooks Hens Hf).
    destruct (String.eqb_spec h (canonical_hash script_path "pre_tool_use")) as [->|Hne].
    + rewrite bool_decide_eq_true_2 by done. split; [|done]. intros _. eexists _, _. split; [done|by left].
    + split.
      * intros [= Hb%bool_decide_eq_true]. eexists _, _. split; [done|by right].
      * intros (key' & h' & [= <- <-] & [?|Ht]); [done|]. by rewrite bool_decide_eq_true_2.
  - intros key. rewrite (trust_entries_after _ _ _ _ _ _ _ key Hw Hhooks Hens).
    destruct (bool_decide _); [right; eexists; split; [right; left|done]|].
    destruct (bool_decide _); [right; eexists; split; [left|done]|by left].
Qed.

(** ** A fresh registration *)

Lemma hook_groups_with root phase entries phase' :
  hook_groups (with_phase root phase entries) phase' =
  if String.eqb phase' phase then Some entries else hook_groups root phase'.
Proof.
  unfold hook_groups, with_phase. cbn [get as_object mbind option_bind].
  rewrite obj_get_insert, String.eqb_refl. cbn [mbind option_bind get as_object].
  rewrite obj_get_insert. destruct (String.eqb_spec phase' phase) as [->|]; [done|].
  unfold entry_or. destruct root as [| | | | | |m]; cbn; [try done..|].
  destruct (obj_get "hooks" m) as [[]|]; done.
Qed.

Lemma phase_entries_groups root phase : phase_entries root phase = default [] (hook_groups root phase).
Proof.
  unfold phase_entries, hook_groups, entry_or, as_json_array, as_json_object.
  destruct root as [| | | | | |m]; try done. cbn.
  destruct (obj_get "hooks" m) as [[| | | | | |m']|]; try done. cbn.
  by destruct (obj_get phase m') as [[]|].
Qed.

(** Nothing in the file runs the command for a phase. *)
Definition unregistered (hooks : json) (phase command : string) : Prop :=
  existsb (fun e => entry_has_command e command) (phase_entries hooks phase) = false /\
  find_handler command (phase_entries hooks phase) 0 = None.

Lemma find_handler_shift command groups n m :
  find_handler command groups n = None -> find_handler command groups m = None.
Proof.
  revert n m. induction groups as [|g groups IH]; intros n m; [done|]. cbn.
  destruct (get "hooks" g ≫= as_array) as [handlers|]; [|apply IH].
  destruct (list_find _ handlers) as [[]|]; [done|apply IH].
Qed.

Lemma find_handler_snoc command groups entry n :
  find_handler command groups n = None ->
  find_handler command (groups ++ [entry]) n = find_handler command [entry] (n + length groups).
Proof.
  revert n. induction groups as [|g groups IH]; intros n; [by rewrite Nat.add_0_r|].
  cbn [find_handler app length]. replace (n + S (length groups)) with (S n + length groups) by lia.
  destruct (get "hooks" g ≫= as_array) as [handlers|]; [|apply IH].
  destruct (list_find _ handlers) as [[? ?]|]; [done|apply IH].
Qed.

Lemma find_mut_absent p f l : existsb p l = false -> find_mut p f l = None.
Proof.
  induction l as [|x l IH]; cbn; [done|]. intros [-> Hl]%orb_false_iff. by rewrite IH.
Qed.

Lemma file_trust_fresh hooks hooks_path script_path phase label groups :
  hook_groups hooks phase =
    Some (groups ++ [new_entry (shell_command script_path) true (Some CODEX_HOOK_TIMEOUT_SECS)]) ->
  find_handler (shell_command script_path) groups 0 = None ->
  file_trust_of hooks hooks_path script_path phase label =
    Some (hook_key hooks_path label (length groups) 0, canonical_hash script_path label).
Proof.
  intros Hg Hf. unfold file_trust_of. rewrite Hg. cbn [mbind option_bind].
  unfold codex_kyris_hook_command. rewrite (find_handler_snoc _ _ _ 0 Hf). cbn.
  unfold runs_command. cbn. rewrite bool_decide_eq_true_2 by done. cbn.
  unfold canonical_hash, codex_kyris_hook_hash, codex_kyris_hook_hash_with_timeout, file_handler.
  cbn. done.
Qed.

(** A first setup ends in a trusted hook.  In a hooks file where nothing runs the script
    yet, whatever groups the user has there, the entries that setup appends for the two
    events are found where they are, after the user's, and hash to what kyris installs; so
    the trust entries minted for the file are those Codex looks for, and the probe sees a
    live hook. *)
Theorem first_setup_is_trusted config hooks0 hooks_path script_path config_path d d' config' changed :
  twf config = true ->
  unregistered hooks0 "PreToolUse" (shell_command script_path) ->
  unregistered hooks0 "PermissionRequest" (shell_command script_path) ->
  let hooks := (ensure_phases ["PreToolUse"; "PermissionRequest"] (shell_command script_path) true
                  (Some CODEX_HOOK_TIMEOUT_SECS) (hooks0, false)).1 in
  (read_json_value hooks_path d).1 = Ok hooks -> (read_json_value hooks_path d').1 = Ok hooks ->
  (ensure_codex_kyris_hook_trust config hooks_path script_path d).1 = Ok (config', changed) ->
  (read_toml_value config_path d').1 = Ok config' ->
  (forall phase label, (phase, label) ∈ CODEX_HOOK_EVENTS ->
     file_trust_of hooks hooks_path script_path phase label =
       Some (hook_key hooks_path label (length (phase_entries hooks0 phase)) 0,
             canonical_hash script_path label)) /\
  (codex_kyris_hook_trusted config_path hooks_path script_path d').1 = Ok true.
Proof.
  intros Hw [Hn1 Hf1] [Hn2 Hf2] hooks Hh Hh' Hens Hconf.
  set (entry := new_entry (shell_command script_path) true (Some CODEX_HOOK_TIMEOUT_SECS)).
  assert (Hooks : hooks = with_phase (with_phase hooks0 "PreToolUse" (phase_entries hooks0 "PreToolUse" ++ [entry]))
    "PermissionRequest" (phase_entries hooks0 "PermissionRequest" ++ [entry])).
  { subst hooks. cbn [ensure_phases fst]. rewrite ensure_json_command_hook_unfold.
    rewrite find_mut_absent by done. cbn [fst ensure_phases].
    rewrite ensure_json_command_hook_unfold, phase_entries_groups, hook_groups_with.
    change (String.eqb "PermissionRequest" "PreToolUse") with false. cbn iota.
    rewrite <- phase_entries_groups. by rewrite find_mut_absent. }
  assert (Htrust : forall phase label, (phase, label) ∈ CODEX_HOOK_EVENTS ->
     file_trust_of hooks hooks_path script_path phase label =
       Some (hook_key hooks_path label (length (phase_entries hooks0 phase)) 0,
             canonical_hash script_path label)).
  { intros phase label Hin. unfold CODEX_HOOK_EVENTS in Hin.
    apply elem_of_cons in Hin as [[= -> ->]|Hin]; [|apply list_elem_of_singleton in Hin as [= -> ->]];
      (apply file_trust_fresh; [|done]); rewrite Hooks, !hook_groups_with; done. }
  split; [done|].
  pose proof (Htrust "PreToolUse" "pre_tool_use" ltac:(left)) as Hgate.
  rewrite (probe_reads_trust _ _ _ _ _ _ Hh' Hconf), Hgate.
  rewrite (gate_trust_after _ _ _ _ _ _ _ _ _ Hw Hh Hens Hgate), String.eqb_refl.
  by rewrite bool_decide_eq_true_2.
Qed.
End trust.

(** ** A provider of the user's *)

Section foreign.
Context {T : TomlFloat} {serde : SerdeText}.
Context (codex_home : option string) (home_dir : result string string) (shape_error : toml -> string).
Import TomlPatch.

Lemma foreign_shape config name v :
  value_at config ["model_providers"; name] = Some v -> ModelProvider v = false ->
  CodexConfigShape config = false.
Proof.
  intros Hv Hbad. unfold CodexConfigShape. destruct config as [| | | | | |t]; try done.
  rewrite value_at_tbl in Hv. apply bind_Some in Hv as (mp & Hmp & Hv). cbn [as_table].
  unfold optional. rewrite Hmp. destruct mp as [| | | | | |ps]; try done.
  rewrite value_at_tbl in Hv. apply bind_Some in Hv as (v' & Hps%tbl_get_elem & [= ->]).
  unfold is_map_of. cbn [as_table].
  assert (forallb (fun p => ModelProvider p.2) ps = false) as ->.
  { apply not_true_is_false. intros Hall. rewrite forallb_forall in Hall.
    apply list_elem_of_In, Hall in Hps. cbn in Hps. congruence. }
  by rewrite andb_false_r.
Qed.

Hypothesis reads_back : forall v b, toml_to_string_pretty v = Ok b -> toml_from_str (b ++ [newline]) = Ok v.

Lemma write_misshapen path config component d :
  CodexConfigShape config = false ->
  exists e, write_codex_config shape_error path config component d = (Err e, d).
Proof.
  intros Hbad. unfold write_codex_config, write_toml_value. unfold mbind, cmd_bind, lift.
  destruct (toml_to_string_pretty config) as [b|e] eqn:Hp; [|by eexists].
  cbn [mret cmd_ret]. unfold TomlShapeValidator. rewrite (reads_back _ _ Hp), Hbad. by eexists.
Qed.

(** A provider of the user's that lacks a field stops the setup of Codex.  The shape
    [config.toml] is checked against wants [name], [base_url] and [wire_api] of every entry
    of [model_providers], not only of kyris's own.  With one entry that lacks one of them
    (Codex itself has defaults for the last two), [configure_burn_control_surface] returns
    an error and writes nothing: the model calls of this user are not routed through
    kyrisd. *)
Theorem foreign_provider_blocks_setup config path name v base key d :
  codex_config_path codex_home home_dir d = (Ok path, d) ->
  read_toml_value path d = (Ok config, d) -> twf config = true ->
  value_at config ["model_providers"; name] = Some v -> name <> "kyris" -> ModelProvider v = false ->
  value_at config ["model_provider"] <> Some (TString "kyris") ->
  exists e, configure_burn_control_surface codex_home home_dir shape_error base key d = (Err e, d).
Proof using reads_back.
  intros Hpath Hread Hw Hv Hname Hbad Hother.
  unfold configure_burn_control_surface, read_or_empty_codex_config, mbind, cmd_bind.
  rewrite Hpath, Hread.
  destruct (ensure_toml_string_path_spec config [] "model_provider" "kyris" Hw) as (_ & Hflag & _ & Hframe).
  cbn [app] in *.
  pose proof (ensure_toml_string_path_twf config ["model_provider"] "kyris" Hw) as Hw1.
  destruct (ensure_toml_string_path config ["model_provider"] "kyris") as [config1 chosen]. cbn [fst snd] in *.
  assert (chosen = true) as ->.
  { apply not_false_is_true. intros Hc. by apply Hother, Hflag. }
  assert (value_at config1 ["model_providers"; name] = Some v) as Hv1.
  { rewrite Hframe; [done|]. vm_compute. split; intros [? [=]]. }
  unfold ensure_codex_kyris_model_provider. fold bearer_path.
  destruct (kyris_provider_sets (base ++ "/v1") key) as [Hset Hpairs].
  pose proof (ensure_each_spec (kyris_provider (base ++ "/v1") key) config1 Hw1 Hset Hpairs) as Heach. cbv zeta in Heach.
  destruct (ensure_each (kyris_provider (base ++ "/v1") key) config1) as [config2 changed].
  cbn [fst snd] in Heach. destruct Heach as (_ & _ & _ & _ & Hframe2).
  assert (Hap : incomparable ["model_providers"; name] ["model_providers"; "kyris"]).
  { split; intros H%prefix_cons_inv_2%prefix_cons_inv_1; congruence. }
  assert (value_at config2 ["model_providers"; name] = Some v) as Hv2.
  { rewrite Hframe2; [done|]. repeat constructor; cbn [fst];
      (apply (incomparable_app _ ["model_providers"; "kyris"] [_]) ||
       apply (incomparable_app _ ["model_providers"; "kyris"] [_; _])); done. }
  pose proof (remove_toml_path_frame config2 bearer_path ["model_providers"; name]) as Hkeep.
  destruct (remove_toml_path config2 bearer_path) as [config3 removed]. cbn [fst] in Hkeep.
  destruct (incomparable_app _ _ ["experimental_bearer_token"] Hap) as [Ha1 Ha2].
  rewrite Hv2 in Hkeep. specialize (Hkeep Ha1 Ha2). cbn [orb].
  destruct (write_misshapen path config3 "codex-cli:burn-control" d (foreign_shape _ _ _ Hkeep Hbad)) as [e He].
  rewrite He. by eexists.
Qed.
End foreign.

(** ** A configuration of each *)

Module Sample.
#[local] Existing Instance one_float.
Import TomlPatch.

(** A printed form of documents without floats. *)
Definition leaf : Type := string + Z + bool + unit.

Fixpoint tree (v : toml) : gen_tree (leaf * nat) :=
  match v with
  | TString s => GenLeaf (inl (inl (inl s)), 0)
  | TInteger n => GenLeaf (inl (inl (inr n)), 0)
  | TFloat _ => GenLeaf (inr tt, 0)
  | TBoolean b => GenLeaf (inl (inr b), 0)
  | TDatetime s => GenLeaf (inl (inl (inl s)), 1)
  | TArray l => GenNode 0 (List.map tree l)
  | TTable m =>
      GenNode 1 (flat_map (fun p => [GenLeaf (inl (inl (inl p.1)), 2); tree p.2]) m)
  end%nat.

Fixpoint untree (t : gen_tree (leaf * nat)) : toml :=
  match t with
  | GenLeaf (inl (inl (inl s)), 0) => TString s
  | GenLeaf (inl (inl (inl s)), _) => TDatetime s
  | GenLeaf (inl (inl (inr n)), _) => TInteger n
  | GenLeaf (inl (inr b), _) => TBoolean b
  | GenLeaf (inr _, _) => TFloat tt
  | GenNode 0 l => TArray (List.map untree l)
  | GenNode _ l =>
      TTable ((fix pairs (l : list (gen_tree (leaf * nat))) : toml_table :=
        match l with
        | GenLeaf (inl (inl (inl k)), _) :: v :: l => (k, untree v) :: pairs l
        | _ => []
        end) l)
  end%nat.

Lemma untree_tree v : untree (tree v) = v.
Proof.
  induction v as [| |[]| | |l IH|m IH] using toml_ind; try done; cbn [tree untree].
  - f_equal. induction IH as [|x l Hx Hl IH]; cbn; by rewrite ?Hx, ?IH.
  - f_equal. induction IH as [|[k x] m Hx Hm IH]; cbn; [done|]. cbn in Hx. by rewrite Hx, IH.
Qed.

(** The hooks file is [hooks], whatever it holds. *)
Definition serde (hooks : json) : SerdeText := {|
  from_str _ := Ok hooks;
  to_string_pretty _ := [];
  toml_from_str b :=
    match decode (McpConfigure.Sample.undigits (removelast b)) with
    | Some t => Ok (untree t) | None => Err "not TOML" end;
  toml_to_string_pretty v := Ok (McpConfigure.Sample.digits (encode (tree v)));
  debug _ := "" |}.

Definition printed (v : toml) : bytes := McpConfigure.Sample.digits (encode (tree v)) ++ [newline].

Lemma reads_back hooks v b :
  @toml_to_string_pretty _ (serde hooks) v = Ok b -> @toml_from_str _ (serde hooks) (b ++ [newline]) = Ok v.
Proof.
  cbn. intros [= <-]. rewrite removelast_last, McpConfigure.Sample.undigits_digits, decode_encode.
  by rewrite untree_tree.
Qed.

Fixpoint as_json (v : toml) : json :=
  match v with
  | TString s | TDatetime s => JString s
  | TInteger n => JNumber n
  | TFloat _ => JNull
  | TBoolean b => JBool b
  | TArray l => JArray (List.map as_json l)
  | TTable m => JObject ((fix go m := match m with [] => [] | (k, x) :: m => (k, as_json x) :: go m end) m)
  end.

(** A digest that tells commands and timeouts apart. *)
Fixpoint text_of (v : json) : bytes :=
  match v with
  | JString s => lit s
  | JNumber n => lit (pretty n)
  | JArray l => flat_map text_of l
  | JObject m => flat_map (fun p => text_of p.2) m
  | _ => []
  end.

#[local] Instance digest : CodexDigest := {|
  to_value v := Ok (as_json v); to_vec v := Ok (text_of v); sha256 b := b |}.

Definition script : string := "/Users/o'hara/.codex/kyris_pretooluse.sh".

(** The user has a hook of their own. *)
Definition hooks0 : json :=
  JObject [("hooks", JObject [("PreToolUse", JArray [new_entry "lint" true None])])].

Definition hooks1 : json :=
  (ensure_phases ["PreToolUse"; "PermissionRequest"] (shell_command script) true
     (Some CODEX_HOOK_TIMEOUT_SECS) (hooks0, false)).1.

Definition config : toml := TTable [("model", TString "o3")].

Definition trusted_config : toml :=
  match (@ensure_codex_kyris_hook_trust _ _ (serde hooks1) config "hooks.json" script
          (mkDisk {["hooks.json" := []]} None "now")).1 with
  | Ok (c, _) => c | Err _ => config end.

Definition disk1 : disk :=
  mkDisk {["hooks.json" := []; "config.toml" := printed trusted_config]} None "now".

Lemma first_setup_is_trusted_witness :
  (@codex_kyris_hook_trusted _ _ (serde hooks1) "config.toml" "hooks.json" script disk1).1 = Ok true /\
  @file_trust_of _ digest hooks1 "hooks.json" script "PreToolUse" "pre_tool_use" =
    Some (hook_key "hooks.json" "pre_tool_use" 1 0, canonical_hash script "pre_tool_use").
Proof.
  destruct (@first_setup_is_trusted _ _ (serde hooks1) config hooks0 "hooks.json" script "config.toml"
    (mkDisk {["hooks.json" := []]} None "now") disk1 trusted_config true) as [Hf Ht];
    [reflexivity|split; reflexivity|split; reflexivity|reflexivity|reflexivity|vm_compute; reflexivity
    |vm_compute; reflexivity|].
  split; [exact Ht|]. apply (Hf "PreToolUse" "pre_tool_use"). left.
Defined.

(** The user shortens the timeout of the entry: setup does not trust it. *)
Definition edited : json :=
  JObject [("hooks", JObject [("PreToolUse",
    JArray [new_entry (shell_command script) true (Some 30%Z)])])].

Definition edited_config : toml :=
  match (@ensure_codex_kyris_hook_trust _ _ (serde edited) config "hooks.json" script
          (mkDisk {["hooks.json" := []]} None "now")).1 with
  | Ok (c, _) => c | Err _ => config end.

Definition edited_disk : disk :=
  mkDisk {["hooks.json" := []; "config.toml" := printed edited_config]} None "now".

Lemma setup_vouches_for_its_hook_witness :
  (@codex_kyris_hook_trusted _ _ (serde edited) "config.toml" "hooks.json" script edited_disk).1 <> Ok true.
Proof.
  destruct (@setup_vouches_for_its_hook _ _ (serde edited) config "hooks.json" script "config.toml" edited
    (mkDisk {["hooks.json" := []]} None "now") edited_disk edited_config true) as [Hiff _];
    [reflexivity|reflexivity|reflexivity|vm_compute; reflexivity|vm_compute; reflexivity|].
  intros Ht. destruct (proj1 Hiff Ht) as (key & h & Hf & Hor). vm_compute in Hf. injection Hf as <- <-.
  destruct Hor as [Hh|Hh]; vm_compute in Hh; discriminate Hh.
Defined.

Lemma provider_routes_through_kyrisd_witness :
  value_at (ensure_codex_kyris_model_provider config "http://localhost:4710/v1" "key").1
    ["model"] = Some (TString "o3").
Proof.
  destruct (provider_routes_through_kyrisd config "http://localhost:4710/v1" "key" eq_refl) as (_ & _ & Hk & _).
  rewrite Hk; [reflexivity|]. vm_compute. split; intros [? [=]].
Defined.

(** A provider without [wire_api], which Codex takes. *)
Definition with_ollama : toml :=
  TTable [("model_providers", TTable [("ollama", TTable
    [("base_url", TString "http://localhost:11434/v1"); ("name", TString "Ollama")])])].

Definition user_disk : disk := mkDisk {["home/.codex/config.toml" := printed with_ollama]} None "now".

Lemma foreign_provider_blocks_setup_witness :
  exists e, @configure_burn_control_surface _ (serde JNull) None (Ok "home") (fun _ => "missing field")
    "http://localhost:4710" "key" user_disk = (Err e, user_disk).
Proof.
  apply (@foreign_provider_blocks_setup _ (serde JNull) None (Ok "home") (fun _ => "missing field")
    (reads_back JNull) with_ollama "home/.codex/config.toml" "ollama"
    (TTable [("base_url", TString "http://localhost:11434/v1"); ("name", TString "Ollama")]));
    [reflexivity|vm_compute; reflexivity|reflexivity|reflexivity|done|reflexivity|done].
Defined.
End Sample.
End CodexCli.
