(* ===== verification/Scrub.v ===== *)
(** * Removing what kyris left behind

    [cli/src/agents/scrub.rs]: the pass that takes kyris content out of an agent's
    configuration by its signatures, without the install manifest, with the writes of
    [kyris uninstall] around it ([cli/src/lifecycle/uninstall.rs]).

    An object is [serde_json::Map] with insertion order: [remove] swaps the last entry
    into the place of the one it removes. *)

From S2P Require Import Prelude Text Json JsonPatch JsonEdit Toml Manifest McpConfigure.

Module Scrub.
Import JsonEdit Manifest.
Local Open Scope string_scope.
Local Open Scope list_scope.

(** ** Signatures *)

Definition KYRIS_HEADER_KEYS : list string := ["x-kyris-inbound"; "x-kyris-agent-id"].

Definition BASEURL_KEYS : list string := ["baseURL"; "baseUrl"; "base_url"].

Definition KYRIS_CONTENT_MARKERS : list string :=
  ["kyris-governance"; "kyris-mcp"; "kyris-hook"; "kyris hook check"; "agentpact_pretooluse";
   "agentpact_beforetool"; "kyris_pretooluse"; "/.kyris/"].

Definition RESIDUE_SCAN_MARKERS : list string :=
  ["sk-kyris"; "x-kyris-"; "kyris-governance"; "kyris-mcp"; "kyris-hook"; "kyris hook check";
   "agentpact_pretooluse"; "agentpact_beforetool"; "kyris_pretooluse"; "/.kyris/";
   "model_providers.kyris"; "KYRIS_GOVERNED_SUBPROCESS"].

(** [str::split_once]: what follows the first occurrence. *)
Fixpoint after_first (sep l : bytes) : option bytes :=
  match str_strip_prefix sep l with
  | Some rest => Some rest
  | None => match l with [] => None | _ :: l => after_first sep l end
  end.

Fixpoint until (b : ascii) (l : bytes) : bytes :=
  match l with
  | [] => []
  | c :: l => if Ascii.eqb c b then [] else c :: until b l
  end.

Definition authority_of (base_url : string) : option string :=
  let rest := default (lit base_url) (after_first (lit "://") (lit base_url)) in
  match until "/"%char rest with [] => None | authority => Some (of_bytes authority) end.

(** [m] is one of the markers in [s]. *)
Definition marked (s : string) : bool :=
  existsb (fun m => contains (lit m) (lit s)) KYRIS_CONTENT_MARKERS.
#[global] Arguments marked : simpl never.

Definition file_has_kyris_marker `{TomlFloat} (path : string) : cmd bool :=
  existing ← read_if_exists path;
  mret (match existing with
        | Some c => existsb (fun m => contains (lit m) c) KYRIS_CONTENT_MARKERS
        | None => false
        end).

Fixpoint json_has_kyris_marker (v : json) : bool :=
  match v with
  | JString s => marked s
  | JArray a => existsb json_has_kyris_marker a
  | JObject o => existsb (fun p => marked p.1 || json_has_kyris_marker p.2) o
  | _ => false
  end.

(** ** The scrub *)

Definition object := list (string * json).

Fixpoint assoc {A} (k : string) (l : list (string * A)) : option A :=
  match l with
  | [] => None
  | (k', a) :: l => if String.eqb k k' then Some a else assoc k l
  end.

(** [if map.remove(k).is_some() { changed = true }]. *)
Definition remove_key (s : object * bool) (k : string) : object * bool :=
  match obj_get k s.1 with
  | Some _ => (obj_swap_remove k s.1, true)
  | None => s
  end.

Section scrub.
Context (kyrisd_authority : option string).

Definition is_kyris_value (s : string) : bool :=
  is_kyris_key s
  || match kyrisd_authority with Some a => contains (lit a) (lit s) | None => false end.

Definition kyris_valued (v : json) : bool :=
  match as_str v with Some s => is_kyris_value s | None => false end.

Definition has_header (m : object) : bool :=
  existsb (fun h => bool_decide (is_Some (obj_get h m))) KYRIS_HEADER_KEYS.

(** In the object itself, or in the object of its headers. *)
Definition had_kyris_header (m : object) : bool :=
  has_header m
  || existsb (fun hk => match obj_get hk m ≫= as_object with
                        | Some h => has_header h
                        | None => false
                        end) ["headers"; "http_headers"].

(** The edits of an object before its children. *)
Definition drop_routing (m : object) : object * bool :=
  let s := foldl remove_key (m, false) KYRIS_HEADER_KEYS in
  let s := foldl remove_key s (List.filter (fun p => kyris_valued p.2) s.1).*1 in
  if had_kyris_header m then foldl remove_key s BASEURL_KEYS else s.

Section children.
Context (scrub : json -> json * bool).

(** [retain], then the scrub of what is left, each with what it returns. *)
Definition retain_scrub (arr : list json) : list (json * bool) :=
  flat_map (fun e => if json_has_kyris_marker e then [] else [scrub e]) arr.

Definition shorter (kept : list (json * bool)) (arr : list json) : bool :=
  negb (Nat.eqb (length kept) (length arr)).

(** The value of a key that is not removed, and whether it changed. *)
Definition scrub_child (v : json) : json * bool :=
  match v with
  | JArray arr =>
      let kept := retain_scrub arr in
      (JArray kept.*1, shorter kept arr || existsb snd kept)
  | _ => scrub v
  end.
End children.

(** One round of the loop over the keys; [children] is what becomes of every value. *)
Definition scrub_key (children : list (string * (json * bool))) (s : object * bool) (key : string)
    : object * bool :=
  if marked key then (obj_swap_remove key s.1, true)
  else match assoc key children with
       | Some (JObject [], true) => (obj_swap_remove key s.1, true)
       | Some (child, changed) => (obj_insert key child s.1, s.2 || changed)
       | None => s
       end.

Fixpoint scrub_kyris_json (v : json) : json * bool :=
  match v with
  | JObject m =>
      let s := drop_routing m in
      let children := List.map (fun p => (p.1, scrub_child scrub_kyris_json p.2)) m in
      let '(m', changed) := foldl (scrub_key children) s s.1.*1 in
      (JObject m', changed)
  | JArray arr =>
      let kept := retain_scrub scrub_kyris_json arr in
      (JArray kept.*1, shorter kept arr)
  | _ => (v, false)
  end.
End scrub.

(** ** What the passes over an object make of it *)

Lemma assoc_map {A} (f : json -> A) k (m : object) :
  assoc k (List.map (fun p => (p.1, f p.2)) m) = f <$> obj_get k m.
Proof. induction m as [|[k0 v0] m IH]; [done|]. cbn. by destruct (String.eqb k k0). Qed.

(** [s] keeps its keys distinct. *)
Definition distinct (m : object) : Prop := NoDup m.*1.

Lemma remove_keys_spec ks s :
  distinct s.1 ->
  distinct (foldl remove_key s ks).1 /\
  (forall k, obj_get k (foldl remove_key s ks).1 =
     if bool_decide (k ∈ ks) then None else obj_get k s.1).
Proof.
  revert s. induction ks as [|k0 ks IH]; intros s Hs; [done|]. cbn [foldl].
  assert (distinct (remove_key s k0).1 /\
    forall k, obj_get k (remove_key s k0).1 = if String.eqb k k0 then None else obj_get k s.1)
    as [Hd Hg].
  { unfold remove_key. destruct (obj_get k0 s.1) eqn:E; cbn [fst].
    - split; [by apply obj_swap_remove_NoDup|]. intros k. by apply obj_get_swap_remove.
    - split; [done|]. intros k. by destruct (String.eqb_spec k k0) as [->|]. }
  destruct (IH _ Hd) as [Hd' Hg']. split; [done|]. intros k. rewrite Hg', Hg.
  destruct (String.eqb_spec k k0) as [->|].
  - rewrite (bool_decide_eq_true_2 (k0 ∈ k0 :: ks)) by set_solver. by case_bool_decide.
  - rewrite (bool_decide_ext (k ∈ k0 :: ks) (k ∈ ks)) by set_solver. done.
Qed.

Section spec.
Context (kyrisd_authority : option string).
#[local] Notation scrub := (scrub_kyris_json kyrisd_authority).
#[local] Notation child := (scrub_child (scrub_kyris_json kyrisd_authority)).

(** What goes before the children are looked at. *)
Definition routing (m : object) (k : string) (v : json) : bool :=
  bool_decide (k ∈ KYRIS_HEADER_KEYS) || kyris_valued kyrisd_authority v
  || had_kyris_header m && bool_decide (k ∈ BASEURL_KEYS).

Lemma drop_routing_spec m :
  distinct m ->
  distinct (drop_routing kyrisd_authority m).1 /\
  forall k, obj_get k (drop_routing kyrisd_authority m).1 =
    v ← obj_get k m; if routing m k v then None else Some v.
Proof.
  intros Hm. unfold drop_routing.
  destruct (remove_keys_spec KYRIS_HEADER_KEYS (m, false) Hm) as [Hd1 Hg1].
  set (s1 := foldl remove_key (m, false) KYRIS_HEADER_KEYS) in *.
  set (valued := (List.filter (fun p => kyris_valued kyrisd_authority p.2) s1.1).*1).
  destruct (remove_keys_spec valued s1 Hd1) as [Hd2 Hg2].
  assert (forall k, bool_decide (k ∈ valued) =
    match obj_get k s1.1 with Some v => kyris_valued kyrisd_authority v | None => false end) as Hval.
  { intros k. unfold valued. destruct (obj_get k s1.1) as [v|] eqn:E.
    - destruct (kyris_valued kyrisd_authority v) eqn:Ev.
      + apply bool_decide_eq_true, list_elem_of_fmap. exists (k, v). split; [done|].
        apply elem_of_List_filter. split; [by apply obj_get_elem|done].
      + apply bool_decide_eq_false. intros ([k' v'] & -> & [Hin Hv']%elem_of_List_filter)%list_elem_of_fmap.
        cbn in *. rewrite (elem_obj_get _ _ _ Hd1 Hin) in E. congruence.
    - apply bool_decide_eq_false. intros ([k' v'] & -> & [Hin Hv']%elem_of_List_filter)%list_elem_of_fmap.
      cbn in *. by rewrite (elem_obj_get _ _ _ Hd1 Hin) in E. }
  set (s2 := foldl remove_key s1 valued) in *.
  assert (forall k, obj_get k s2.1 = v ← obj_get k m;
    if bool_decide (k ∈ KYRIS_HEADER_KEYS) || kyris_valued kyrisd_authority v then None else Some v)
    as Hg2'.
  { intros k. rewrite Hg2, Hval, Hg1. cbn [fst]. case_bool_decide; cbn [orb].
    - by destruct (obj_get k m).
    - destruct (obj_get k m) as [v|]; [|done]. cbn. by destruct (kyris_valued _ v). }
  unfold routing. destruct (had_kyris_header m).
  - destruct (remove_keys_spec BASEURL_KEYS s2 Hd2) as [Hd3 Hg3]. split; [done|]. intros k.
    rewrite Hg3, Hg2'. destruct (obj_get k m) as [v|]; cbn; [|by case_bool_decide].
    destruct (bool_decide (k ∈ BASEURL_KEYS)); cbn; [by rewrite orb_true_r|by rewrite orb_false_r].
  - split; [done|]. intros k. rewrite Hg2'. destruct (obj_get k m) as [v|]; cbn; [|done].
    by rewrite orb_false_r.
Qed.

(** What the loop makes of a key it meets. *)
Definition outcome (k : string) (r : option (json * bool)) : option json :=
  if marked k then None
  else match r with
       | Some (JObject [], true) => None
       | Some (v, _) => Some v
       | None => None
       end.

Lemma scrub_keys_spec children ks s :
  NoDup ks -> distinct s.1 -> (forall k, k ∈ ks -> is_Some (assoc k children)) ->
  distinct (foldl (scrub_key children) s ks).1 /\
  forall k, obj_get k (foldl (scrub_key children) s ks).1 =
    if bool_decide (k ∈ ks) then outcome k (assoc k children) else obj_get k s.1.
Proof.
  intros Hks. revert s. induction Hks as [|k0 ks Hk0 _ IH]; intros s Hs Hc; [done|]. cbn [foldl].
  assert (distinct (scrub_key children s k0).1 /\
    forall k, obj_get k (scrub_key children s k0).1 =
      if String.eqb k k0 then outcome k (assoc k children) else obj_get k s.1) as [Hd Hg].
  { destruct (Hc k0) as [[v c] Hv]; [set_solver|]. unfold scrub_key, outcome.
    assert (forall k, obj_get k (obj_insert k0 v s.1) =
      if String.eqb k k0 then Some v else obj_get k s.1) as Hins by (intros; apply obj_get_insert).
    assert (forall k, obj_get k (obj_swap_remove k0 s.1) =
      if String.eqb k k0 then None else obj_get k s.1) as Hrem
      by (intros; by apply obj_get_swap_remove).
    assert (distinct (obj_swap_remove k0 s.1)) by by apply obj_swap_remove_NoDup.
    assert (distinct (obj_insert k0 v s.1)) by by apply obj_insert_NoDup.
    rewrite Hv. destruct (marked k0) eqn:Em.
    - split; [done|]. intros k. cbn [fst]. rewrite Hrem.
      destruct (String.eqb_spec k k0) as [->|]; [by rewrite Em|done].
    - destruct v as [| | | | | |[|]], c; (split; [done|]); intros k; cbn [fst]; rewrite ?Hins, ?Hrem;
        (destruct (String.eqb_spec k k0) as [->|]; [by rewrite Em, Hv|done]). }
  destruct (IH _ Hd) as [Hd' Hg']; [set_solver|]. split; [done|]. intros k. rewrite Hg', Hg.
  destruct (String.eqb_spec k k0) as [->|].
  - rewrite (bool_decide_eq_false_2 (k0 ∈ ks)), (bool_decide_eq_true_2 (k0 ∈ k0 :: ks)) by set_solver.
    done.
  - rewrite (bool_decide_ext (k ∈ k0 :: ks) (k ∈ ks)) by set_solver. done.
Qed.

(** One object, by its keys. *)
Lemma scrub_object m :
  distinct m ->
  exists m', (scrub (JObject m)).1 = JObject m' /\ distinct m' /\
    forall k, obj_get k m' =
      v ← obj_get k m; if routing m k v then None else outcome k (Some (child v)).
Proof.
  intros Hm. destruct (drop_routing_spec m Hm) as [Hd Hg]. cbn [scrub_kyris_json].
  set (children := List.map _ m). set (s := drop_routing kyrisd_authority m) in *.
  assert (forall k, k ∈ s.1.*1 -> is_Some (assoc k children)) as Hc.
  { intros k [v Hv]%obj_get_is_Some. unfold children. rewrite assoc_map, fmap_is_Some.
    rewrite Hg in Hv. destruct (obj_get k m); [eauto|done]. }
  destruct (scrub_keys_spec children s.1.*1 s Hd Hd Hc) as [Hd' Hg'].
  destruct (foldl (scrub_key children) s s.1.*1) as [m' c]. exists m'. split_and!; [done..|].
  intros k. cbn [fst] in *. rewrite Hg', Hg. unfold children. rewrite assoc_map.
  rewrite (bool_decide_ext _ _ (iff_sym (obj_get_is_Some k s.1))), Hg.
  destruct (obj_get k m) as [v|]; cbn; [|done]. by destruct (routing m k v).
Qed.

Lemma retain_scrub_fst arr :
  (retain_scrub scrub arr).*1 =
    (fun e => (scrub e).1) <$> List.filter (fun e => negb (json_has_kyris_marker e)) arr.
Proof.
  induction arr as [|e arr IH]; [done|]. cbn. destruct (json_has_kyris_marker e); cbn; [done|].
  f_equal. apply IH.
Qed.

Lemma scrub_array arr :
  (scrub (JArray arr)).1 =
    JArray ((fun e => (scrub e).1) <$> List.filter (fun e => negb (json_has_kyris_marker e)) arr).
Proof. cbn [scrub_kyris_json fst]. by rewrite retain_scrub_fst. Qed.

Lemma scrub_child_fst v : (child v).1 = (scrub v).1.
Proof. by destruct v. Qed.

(** ** Values without residue, and what may be taken out *)

(** No object of [v] has a header of kyris, a key with a marker or a value that is a
    key or an address of kyris; no element of an array has a marker. *)
Fixpoint clean (v : json) : bool :=
  match v with
  | JObject m =>
      forallb (fun p =>
        negb (bool_decide (p.1 ∈ KYRIS_HEADER_KEYS)) && negb (marked p.1)
        && negb (kyris_valued kyrisd_authority p.2) && clean p.2) m
  | JArray l => forallb (fun e => negb (json_has_kyris_marker e) && clean e) l
  | _ => true
  end.

(** A member of an object that is kyris's by its signature. *)
Definition justified (m : object) (k : string) (v : json) : Prop :=
  k ∈ KYRIS_HEADER_KEYS \/ marked k = true \/ kyris_valued kyrisd_authority v = true \/
  (had_kyris_header m = true /\ k ∈ BASEURL_KEYS).

(** [v'] is [v] less members that are kyris's, less objects that only held such, and less
    the elements of arrays with a marker; nothing is added or changed. *)
Inductive surgical : json -> json -> Prop :=
| surgical_same v : surgical v v
| surgical_array l l' :
    Forall2 surgical (List.filter (fun e => negb (json_has_kyris_marker e)) l) l' ->
    surgical (JArray l) (JArray l')
| surgical_object m m' :
    (forall k v', obj_get k m' = Some v' -> exists v, obj_get k m = Some v /\ surgical v v') ->
    (forall k v, obj_get k m = Some v -> obj_get k m' = None ->
       justified m k v \/ (v <> JObject [] /\ surgical v (JObject []))) ->
    surgical (JObject m) (JObject m').

Lemma outcome_Some k v w :
  outcome k (Some (child v)) = Some w -> w = (scrub v).1 /\ marked k = false.
Proof.
  unfold outcome. destruct (marked k); [done|]. rewrite <- scrub_child_fst.
  destruct (child v) as [u c]. destruct u as [| | | | | |[|]], c; naive_solver.
Qed.

Lemma outcome_None k v :
  outcome k (Some (child v)) = None ->
  marked k = true \/ (v <> JObject [] /\ (scrub v).1 = JObject []).
Proof.
  unfold outcome. destruct (marked k); [by left|]. rewrite <- scrub_child_fst.
  destruct (child v) as [u c] eqn:E. destruct u as [| | | | | |[|]], c; try done.
  intros _. right. split; [by intros ->|done].
Qed.

Lemma member_Forall m (P : string * json -> Prop) k v :
  Forall P m -> obj_get k m = Some v -> P (k, v).
Proof. intros Hm Hk%obj_get_elem. rewrite Forall_forall in Hm. by apply Hm. Qed.

(** The members of the result are scrubbed members. *)
Lemma scrub_object_member m m' k w :
  (forall k, obj_get k m' = v ← obj_get k m;
     if routing m k v then None else outcome k (Some (child v))) ->
  obj_get k m' = Some w ->
  exists v, obj_get k m = Some v /\ w = (scrub v).1 /\ marked k = false /\
    routing m k v = false.
Proof.
  intros Hg Hk. rewrite Hg in Hk. apply bind_Some in Hk as (v & Hv & Hk).
  destruct (routing m k v) eqn:Er; [done|]. apply outcome_Some in Hk as [-> ?]. eauto.
Qed.

Lemma wf_array l : wf (JArray l) = true <-> Forall (fun v => wf v = true) l.
Proof. simpl. rewrite forallb_forall, Forall_forall. by setoid_rewrite list_elem_of_In. Qed.

Lemma Forall_filter_map {A B} (P : B -> Prop) (p : A -> bool) (f : A -> B) (l : list A) :
  Forall (fun x => p x = true -> P (f x)) l -> Forall P (f <$> List.filter p l).
Proof.
  induction 1 as [|x l Hx _ IH]; [constructor|]. cbn. destruct (p x) eqn:E; [|done].
  constructor; auto.
Qed.

Lemma scrub_wf v : wf v = true -> wf (scrub v).1 = true.
Proof.
  induction v as [| | | | |l IH|m IH] using json_ind; try done.
  - intros Hw%wf_array. rewrite scrub_array. apply wf_array, Forall_filter_map.
    rewrite !Forall_forall in *. intros v Hv _. by apply IH; [|apply Hw].
  - intros [Hd Hw]%wf_object. destruct (scrub_object m Hd) as (m' & -> & Hd' & Hg).
    apply wf_object. split; [done|]. apply Forall_forall. intros [k w] Hin.
    destruct (scrub_object_member m m' k w Hg (elem_obj_get _ _ _ Hd' Hin)) as (v & Hv & -> & _).
    apply (member_Forall m _ k v IH Hv), (member_Forall m _ k v Hw Hv).
Qed.

Lemma existsb_false {A} (p : A -> bool) l : existsb p l = false <-> Forall (fun x => p x = false) l.
Proof.
  rewrite <- not_true_iff_false, existsb_exists, Forall_forall. setoid_rewrite list_elem_of_In.
  split; [intros H x Hx|intros H (x & Hx & Hp)].
  - destruct (p x) eqn:E; [|done]. destruct H. eauto.
  - by rewrite H in Hp.
Qed.

Lemma scrub_keeps_unmarked v :
  wf v = true -> json_has_kyris_marker v = false -> json_has_kyris_marker (scrub v).1 = false.
Proof.
  induction v as [| | | | |l IH|m IH] using json_ind; try done.
  - intros Hw%wf_array Hn%existsb_false. rewrite scrub_array. apply existsb_false, Forall_filter_map.
    rewrite !Forall_forall in *. intros v Hv _. by apply IH; [|apply Hw|apply Hn].
  - intros [Hd Hw]%wf_object Hn%existsb_false.
    destruct (scrub_object m Hd) as (m' & -> & Hd' & Hg).
    apply existsb_false, Forall_forall. intros [k w] Hin.
    destruct (scrub_object_member m m' k w Hg (elem_obj_get _ _ _ Hd' Hin)) as (v & Hv & -> & Hk & _).
    cbn [fst snd]. rewrite Hk. apply obj_get_elem in Hv. rewrite !Forall_forall in *.
    apply (IH (k, v) Hv); [by apply (Hw (k, v))|]. specialize (Hn (k, v) Hv). cbn in Hn.
    by apply orb_false_iff in Hn as [_ Hn].
Qed.

Lemma forallb_Forall {A} (p : A -> bool) l : forallb p l = true <-> Forall (fun x => p x = true) l.
Proof. rewrite forallb_forall, Forall_forall. by setoid_rewrite list_elem_of_In. Qed.

Lemma clean_array l :
  clean (JArray l) = true <->
    Forall (fun e => json_has_kyris_marker e = false /\ clean e = true) l.
Proof.
  cbn. rewrite forallb_Forall. apply Forall_iff. intros e.
  by rewrite andb_true_iff, negb_true_iff.
Qed.

Lemma clean_object m :
  clean (JObject m) = true <->
    Forall (fun p => (p.1 ∉ KYRIS_HEADER_KEYS /\ marked p.1 = false /\
      kyris_valued kyrisd_authority p.2 = false) /\ clean p.2 = true) m.
Proof.
  cbn [clean]. rewrite forallb_Forall. apply Forall_iff. intros p.
  rewrite !andb_true_iff, !negb_true_iff, bool_decide_eq_false. naive_solver.
Qed.

Lemma kyris_valued_scrub v : kyris_valued kyrisd_authority (scrub v).1 = true ->
  kyris_valued kyrisd_authority v = true.
Proof. destruct v; try done. cbn. by destruct (foldl _ _ _). Qed.

Lemma scrub_clean v : wf v = true -> clean (scrub v).1 = true.
Proof.
  induction v as [| | | | |l IH|m IH] using json_ind; try done.
  - intros Hw%wf_array. rewrite scrub_array. apply clean_array, Forall_filter_map.
    rewrite !Forall_forall in *. intros v Hv Hn%negb_true_iff.
    split; [by apply scrub_keeps_unmarked; [apply Hw|]|by apply IH; [|apply Hw]].
  - intros [Hd Hw]%wf_object. destruct (scrub_object m Hd) as (m' & -> & Hd' & Hg).
    apply clean_object, Forall_forall. intros [k w] Hin.
    destruct (scrub_object_member m m' k w Hg (elem_obj_get _ _ _ Hd' Hin)) as (v & Hv & -> & Hk & Hr).
    cbn [fst snd]. unfold routing in Hr. apply orb_false_iff in Hr as [Hr _].
    apply orb_false_iff in Hr as [Hh%bool_decide_eq_false Hval].
    split_and!; [done..| |].
    + destruct (kyris_valued _ (scrub v).1) eqn:E; [|done]. apply kyris_valued_scrub in E. congruence.
    + apply (member_Forall m _ k v IH Hv), (member_Forall m _ k v Hw Hv).
Qed.

Lemma scrub_surgical v : wf v = true -> surgical v (scrub v).1.
Proof.
  induction v as [| | | | |l IH|m IH] using json_ind; try (intros; apply surgical_same).
  - intros Hw%wf_array. rewrite scrub_array. apply surgical_array.
    clear - IH Hw. induction Hw as [|v l Hv _ IHl]; [constructor|].
    inversion IH as [|? ? Hs IH']; subst. cbn. destruct (json_has_kyris_marker v); cbn; [auto|].
    constructor; auto.
  - intros [Hd Hw]%wf_object. destruct (scrub_object m Hd) as (m' & -> & Hd' & Hg).
    apply surgical_object.
    + intros k w Hk. destruct (scrub_object_member m m' k w Hg Hk) as (v & Hv & -> & _).
      exists v. split; [done|]. apply (member_Forall m _ k v IH Hv), (member_Forall m _ k v Hw Hv).
    + intros k v Hv Hk. rewrite Hg, Hv in Hk. cbn in Hk.
      destruct (routing m k v) eqn:Er.
      * left. unfold routing in Er. unfold justified.
        apply orb_true_iff in Er as [[Er%bool_decide_eq_true|Er]%orb_true_iff|
          [? Er%bool_decide_eq_true]%andb_true_iff]; auto.
      * apply outcome_None in Hk as [Hk|[Hne Hs]]; [left; unfold justified; auto|].
        right. split; [done|]. rewrite <- Hs. apply (member_Forall m _ k v IH Hv), (member_Forall m _ k v Hw Hv).
Qed.

(** ** A second pass, and what the flag says *)

Lemma fold_stays {A B} (f : A -> B -> A) s ks : (forall k, k ∈ ks -> f s k = s) -> foldl f s ks = s.
Proof.
  induction ks as [|k ks IH]; intros Hf; [done|]. cbn. rewrite Hf by set_solver. apply IH. set_solver.
Qed.

(** A pass over keys whose flag stays down did nothing. *)
Lemma fold_unflagged {A B} (f : A * bool -> B -> A * bool) s ks :
  (forall s k, (f s k).2 = false -> s.2 = false) ->
  (forall k, k ∈ ks -> (f s k).2 = false -> f s k = s) ->
  (foldl f s ks).2 = false -> foldl f s ks = s.
Proof.
  intros Hmono. induction ks as [|k ks IH]; intros Hf Hflag; [done|]. cbn in *.
  assert (forall t, (foldl f t ks).2 = false -> t.2 = false) as Hdown.
  { clear - Hmono. induction ks as [|k ks IH]; intros t; cbn; [done|]. intros ?%IH. eauto. }
  rewrite Hf in Hflag |- * by (set_solver || by apply Hdown). apply IH; [set_solver|done].
Qed.

Lemma retain_scrub_id l :
  Forall (fun e => json_has_kyris_marker e = false /\ (scrub e).1 = e) l ->
  (retain_scrub scrub l).*1 = l.
Proof.
  intros Hl. rewrite retain_scrub_fst. induction Hl as [|e l [Hm He] _ IH]; [done|].
  cbn. rewrite Hm. cbn. by rewrite He, IH.
Qed.

Lemma retain_scrub_unflagged l :
  Forall (fun e => json_has_kyris_marker e = false /\ scrub e = (e, false)) l ->
  shorter (retain_scrub scrub l) l = false /\ existsb snd (retain_scrub scrub l) = false.
Proof.
  unfold shorter. induction 1 as [|e l [Hm He] _ [IH1 IH2]]; [done|]. cbn. rewrite Hm. cbn.
  by rewrite He.
Qed.

Lemma clean_headers m : clean (JObject m) = true -> had_kyris_header m = false.
Proof.
  assert (forall m, clean (JObject m) = true -> has_header m = false) as Hh.
  { intros m' Hc%clean_object. apply existsb_false, Forall_forall. intros h Hh.
    apply bool_decide_eq_false. intros [v Hv].
    by destruct (member_Forall m' _ h v Hc Hv) as [(Hno & _) _]. }
  intros Hc. unfold had_kyris_header. rewrite Hh by done. apply existsb_false, Forall_forall.
  intros hk _. destruct (obj_get hk m) as [v|] eqn:E; [|done]. destruct v as [| | | | | |h]; try done.
  apply Hh. apply clean_object in Hc. by destruct (member_Forall m _ hk _ Hc E).
Qed.

Lemma drop_routing_clean m : clean (JObject m) = true -> drop_routing kyrisd_authority m = (m, false).
Proof.
  intros Hc. unfold drop_routing. rewrite clean_headers by done. apply clean_object in Hc.
  rewrite (fold_stays _ (m, false) KYRIS_HEADER_KEYS).
  - replace (List.filter _ _) with ([] : object); [done|]. cbn [fst].
    induction Hc as [|[k v] m' [(_ & _ & Hv) _] _ IH]; [done|]. cbn in *. by rewrite Hv.
  - intros h Hh. unfold remove_key. cbn [fst]. destruct (obj_get h m) as [v|] eqn:E; [|done].
    by destruct (member_Forall m _ h v Hc E) as [(Hno & _) _].
Qed.

Lemma scrub_clean_id v :
  wf v = true -> clean v = true -> scrub v = (v, false) /\ child v = (v, false).
Proof.
  induction v as [| | | | |l IH|m IH] using json_ind; try done.
  - intros Hw%wf_array Hc%clean_array.
    assert (Forall (fun e => json_has_kyris_marker e = false /\ scrub e = (e, false)) l) as Hl.
    { rewrite !Forall_forall in *. intros e He. destruct (Hc e He). split; [done|].
      by apply IH; [|apply Hw|]. }
    destruct (retain_scrub_unflagged l Hl) as [Hshort Hflag].
    cbn [scrub_kyris_json scrub_child]. rewrite retain_scrub_id, Hshort, Hflag; [done|].
    eapply Forall_impl; [done|]. by intros e [? ->].
  - intros [Hd Hw]%wf_object Hc. cbn [scrub_child]. enough (scrub (JObject m) = (JObject m, false)) by done.
    cbn [scrub_kyris_json]. rewrite drop_routing_clean by done.
    set (children := List.map _ m). apply clean_object in Hc.
    rewrite (fold_stays _ (m, false)); [done|]. cbn [fst]. intros k [v Hv]%obj_get_is_Some.
    unfold scrub_key, children. rewrite assoc_map, Hv. cbn [fmap option_fmap option_map fst snd].
    destruct (member_Forall m _ k v Hc Hv) as [(_ & Hk & _) Hcv]. cbn [fst snd] in *. rewrite Hk.
    destruct (member_Forall m _ k v IH Hv (member_Forall m _ k v Hw Hv) Hcv) as [_ Hs].
    cbn [snd] in Hs. rewrite Hs. by destruct v as [| | | | | |[|]]; cbn; rewrite obj_insert_id.
Qed.

(** No array is an element of an array. *)
Fixpoint plain (v : json) : bool :=
  match v with
  | JArray l => forallb (fun e => match e with JArray _ => false | _ => plain e end) l
  | JObject m => forallb (fun p => plain p.2) m
  | _ => true
  end.

Lemma remove_keys_unflagged s ks :
  (foldl remove_key s ks).2 = false -> foldl remove_key s ks = s.
Proof.
  apply fold_unflagged.
  - intros t k. unfold remove_key. by destruct (obj_get k t.1).
  - intros k _. unfold remove_key. by destruct (obj_get k s.1).
Qed.

Lemma drop_routing_unflagged m :
  (drop_routing kyrisd_authority m).2 = false -> drop_routing kyrisd_authority m = (m, false).
Proof.
  unfold drop_routing. set (s1 := foldl remove_key (m, false) KYRIS_HEADER_KEYS).
  set (s2 := foldl remove_key s1 _). intros Hf.
  assert (s2.2 = false -> s2 = (m, false)) as Hs2.
  { intros H2. unfold s2 in *. rewrite remove_keys_unflagged in H2 |- * by done.
    by apply remove_keys_unflagged. }
  destruct (had_kyris_header m); [|auto]. rewrite remove_keys_unflagged in Hf |- * by done. auto.
Qed.

Lemma retain_scrub_shorter l : length (retain_scrub scrub l) <= length l.
Proof.
  unfold retain_scrub. induction l as [|e l IH]; [done|]. cbn [flat_map].
  rewrite length_app. destruct (json_has_kyris_marker e); cbn [length]; lia.
Qed.

(** A pass that reports no change made none, unless an array holds an array. *)
Lemma scrub_reports v :
  wf v = true -> plain v = true -> (child v).2 = false -> child v = (v, false).
Proof.
  induction v as [| | | | |l IH|m IH] using json_ind; try done.
  - intros Hw%wf_array Hp%forallb_Forall Hf. cbn [scrub_child snd] in *.
    apply orb_false_iff in Hf as [Hshort Hf]. rewrite Hshort, Hf. f_equal. f_equal.
    apply retain_scrub_id. clear - IH Hw Hp Hshort Hf.
    apply negb_false_iff, Nat.eqb_eq in Hshort.
    induction IH as [|e l He _ IHl]; [constructor|]. inversion Hw; inversion Hp; subst.
    pose proof (retain_scrub_shorter l) as Hle. unfold retain_scrub in Hshort, Hf, Hle.
    cbn [flat_map length] in Hshort, Hf, Hle. fold (retain_scrub scrub l) in Hshort, Hf, Hle.
    destruct (json_has_kyris_marker e) eqn:Em; cbn [app length existsb] in *; [lia|].
    apply orb_false_iff in Hf as [Hf1 Hf2]. constructor; [|apply IHl; [done|done| |done]; by injection Hshort].
    split; [done|]. rewrite <- scrub_child_fst, He; [done..| |]; by destruct e.
  - intros [Hd Hw]%wf_object Hp%forallb_Forall. cbn [scrub_child scrub_kyris_json].
    set (children := List.map _ m). set (s := drop_routing kyrisd_authority m).
    intros Hf.
    assert (forall t ks, (foldl (scrub_key children) t ks).2 = false -> t.2 = false) as Hdown.
    { intros t ks. revert t. induction ks as [|k ks IHk]; intros t; cbn; [done|].
      intros Ht%IHk. unfold scrub_key in Ht. destruct (marked k); [done|].
      destruct (assoc k children) as [[[| | | | | |[|]] []]|]; cbn in Ht; rewrite ?orb_true_r, ?orb_false_r in Ht; done. }
    assert (s = (m, false)) as Hs.
    { apply drop_routing_unflagged. apply (Hdown s s.1.*1). by destruct (foldl _ s _). }
    rewrite Hs in Hf |- *. cbn [fst] in *.
    assert (foldl (scrub_key children) (m, false) m.*1 = (m, false)) as ->; [|done].
    apply fold_unflagged.
    + intros t k. apply (Hdown t [k]).
    + intros k [v Hv]%obj_get_is_Some. unfold scrub_key, children. rewrite assoc_map, Hv.
      cbn [fmap option_fmap option_map fst snd]. destruct (marked k); [done|].
      pose proof (member_Forall m _ k v IH Hv (member_Forall m _ k v Hw Hv)
        (member_Forall m _ k v Hp Hv)) as Hc. cbn [snd] in Hc.
      destruct (child v) as [u c] eqn:Ec. destruct c.
      * destruct u as [| | | | | |[|]]; cbn; done.
      * specialize (Hc eq_refl). injection Hc as ->.
        intros _. by destruct v as [| | | | | |[|]]; cbn; rewrite obj_insert_id.
    + by destruct (foldl _ _ _).
Qed.
End spec.

(** The scrub takes out kyris's content and nothing else.  Of any configuration with
    distinct keys it leaves one in which no object has a header of kyris, a key with a
    marker, or a value that is an inbound key or lies on kyrisd's address, and no array an
    element with a marker; what it removed is a member with such a signature, the base URL
    next to a header of kyris, an element with a marker, or an object that held nothing
    else, and everything that stays has its value; a second pass changes nothing, nor does
    the first where there was nothing to take; and where it says so, unless an array holds
    an array. *)
Theorem scrub_takes_only_residue kyrisd_authority v :
  wf v = true ->
  let '(v', changed) := scrub_kyris_json kyrisd_authority v in
  wf v' = true /\ clean kyrisd_authority v' = true /\ surgical kyrisd_authority v v' /\
  scrub_kyris_json kyrisd_authority v' = (v', false) /\
  (clean kyrisd_authority v = true -> v' = v /\ changed = false) /\
  (is_Some (as_object v) -> plain v = true -> changed = false -> v' = v).
Proof.
  intros Hw. pose proof (scrub_wf kyrisd_authority v Hw) as Hw'.
  pose proof (scrub_clean kyrisd_authority v Hw) as Hc.
  pose proof (scrub_surgical kyrisd_authority v Hw) as Hs.
  pose proof (scrub_reports kyrisd_authority v Hw) as Hr.
  pose proof (scrub_clean_id kyrisd_authority v Hw) as Hid.
  destruct (scrub_kyris_json kyrisd_authority v) as [v' changed] eqn:E. cbn [fst] in *.
  split_and!; [done..| | |].
  - by apply scrub_clean_id.
  - intros Hcv. destruct (Hid Hcv) as [[= -> ->] _]. done.
  - intros [m Hm] Hp ->. destruct v; try done. unfold scrub_child in Hr. rewrite E in Hr.
    by injection (Hr Hp eq_refl) as ->.
Qed.

(** ** Wrapped servers *)

(** The members of a scrubbed object whose value the scrub leaves alone. *)
Lemma scrub_keeps_member a m k v :
  distinct m -> obj_get k m = Some v ->
  k ∉ KYRIS_HEADER_KEYS -> k ∉ BASEURL_KEYS -> marked k = false -> kyris_valued a v = false ->
  as_object v = None ->
  get k (scrub_kyris_json a (JObject m)).1 = Some (scrub_kyris_json a v).1.
Proof.
  intros Hd Hv Hh Hb Hk Hval Ho.
  destruct (scrub_object a m Hd) as (m' & -> & _ & Hg). cbn [get]. rewrite Hg, Hv.
  cbn [mbind option_bind]. unfold routing.
  rewrite (bool_decide_eq_false_2 (k ∈ KYRIS_HEADER_KEYS)), (bool_decide_eq_false_2 (k ∈ BASEURL_KEYS)),
    Hval, andb_false_r by done. cbn [orb]. unfold outcome. rewrite Hk.
  rewrite <- (scrub_child_fst a v). destruct (scrub_child _ v) as [u c] eqn:E. cbn [fst].
  destruct u as [| | | | | |[|]]; try done.
  assert (u' : (scrub_child (scrub_kyris_json a) v).1 = JObject []) by by rewrite E.
  rewrite scrub_child_fst in u'. by destruct v; [..|by cbn in Ho].
Qed.

Lemma scrub_strings a l :
  (scrub_kyris_json a (JArray (JString <$> l))).1 =
    JArray (JString <$> List.filter (fun s => negb (marked s)) l).
Proof.
  rewrite scrub_array. f_equal. induction l as [|s l IH]; [done|]. cbn.
  destruct (marked s); cbn; [apply IH|]. f_equal. apply IH.
Qed.

(** The scrub does not undo the wrapping of MCP servers; where the command of a server
    is an array, it breaks the server.  When nothing but the scrub takes kyris out of a
    configuration, a server setup wrapped still runs kyris-mcp if its command is a string;
    if it is an array, the name of the program is gone and the agent runs a program called
    wrap, with the user's command among its arguments. *)
Theorem scrub_leaves_wrapped_servers a base key agent_id name m m' changed rewrites :
  wf (JObject m) = true -> get "transport" (JObject m) ≫= as_object = None ->
  McpConfigure.rewrite_json_entry base key agent_id name (JObject m) = (JObject m', changed, rewrites) ->
  is_kyris_value a "kyris-mcp" = false ->
  (forall command, get "command" (JObject m) = Some (JString command) -> command <> "kyris-mcp" ->
     get "command" (scrub_kyris_json a (JObject m')).1 = Some (JString "kyris-mcp")) /\
  (forall program args, get "command" (JObject m) = Some (JArray (JString <$> program :: args)) ->
     program <> "kyris-mcp" ->
     get "command" (scrub_kyris_json a (JObject m')).1 =
       Some (JArray (JString <$> "wrap" :: List.filter (fun s => negb (marked s))
         (["--server"; name; "--agent"; agent_id] ++ program :: args)))).
Proof.
  intros [Hd _]%wf_object Ht Hr Ha.
  assert ("command" ∉ KYRIS_HEADER_KEYS /\ "command" ∉ BASEURL_KEYS /\ marked "command" = false)
    as (Hh & Hb & Hk) by (split_and!; [vm_decided..|by vm_compute]).
  assert ((let '(t, c, r) := McpConfigure.rewrite_json_server base key agent_id name m in
    (JObject t, c, r)) = (JObject m', changed, rewrites)) as Hr'
    by (cbn [get] in Ht; unfold McpConfigure.rewrite_json_entry in Hr; by destruct (obj_get "transport" m) as [[]|]).
  clear Hr Ht. rename Hr' into Hr.
  unfold McpConfigure.rewrite_json_server in Hr. cbn [get].
  split.
  - intros command Hc Hne. rewrite Hc in Hr. cbn [mbind option_bind as_str] in Hr.
    destruct (String.eqb_spec command "kyris-mcp"); [done|]. injection Hr as <- _ _.
    apply (scrub_keeps_member a _ _ (JString "kyris-mcp"));
      [by do 2 apply obj_insert_NoDup| |done..].
    by rewrite !obj_get_insert.
  - intros program args Hc Hne. rewrite Hc in Hr. cbn [mbind option_bind as_str as_array fmap list_fmap head] in Hr.
    change (default "" (Some program)) with program in Hr.
    destruct (String.eqb_spec program "kyris-mcp"); [done|]. injection Hr as <- _ _.
    rewrite (scrub_keeps_member a _ "command" (JArray (JString <$>
      ["kyris-mcp"; "wrap"; "--server"; name; "--agent"; agent_id] ++ program :: args)));
      [|by apply obj_insert_NoDup|by rewrite obj_get_insert|done..].
    rewrite scrub_strings. f_equal.
Qed.

(** ** Runs *)

Module Sample.
Definition auth : option string := Some "127.0.0.1:4710".

Example authority_test :
  authority_of "http://127.0.0.1:4710/v1" = auth /\
  authority_of "https://kyrisd.example.com:8443" = Some "kyrisd.example.com:8443" /\
  authority_of "" = None.
Proof. by vm_compute. Qed.

(** The provider of [testScrubsOpencodeStaleKeyHeadersAndBaseUrl]. *)
Definition routed : json :=
  JObject [("provider", JObject [("anthropic", JObject [("options", JObject
    [("baseURL", JString "http://127.0.0.1:4710/v1"); ("apiKey", JString "sk-kyris-53d867STALE");
     ("headers", JObject [("x-kyris-inbound", JString "sk-kyris-50c3");
                          ("x-kyris-agent-id", JString "opencode/opencode")]);
     ("model", JString "claude-haiku-4-5")])])])].

Example routed_test :
  scrub_kyris_json auth routed =
    (JObject [("provider", JObject [("anthropic", JObject [("options", JObject
      [("model", JString "claude-haiku-4-5")])])])], true).
Proof. by vm_compute. Qed.

(** In an array within an array a header goes, and the scrub says nothing changed: its
    caller then leaves the file as it was. *)
Example nested_array_unreported :
  scrub_kyris_json auth
    (JObject [("k", JArray [JArray [JObject [("x-kyris-inbound", JString "sk-kyris-1")]]])]) =
    (JObject [("k", JArray [JArray [JObject []]])], false).
Proof. by vm_compute. Qed.

(** The user's handler in a group with one of kyris's goes with the group. *)
Example user_hook_lost :
  scrub_kyris_json auth
    (JObject [("hooks", JObject [("PreToolUse", JArray [JObject [("matcher", JString "Bash");
       ("hooks", JArray [JObject [("type", JString "command"); ("command", JString "my-linter")];
          JObject [("type", JString "command");
                   ("command", JString "bash '/h/.claude/hooks/agentpact_pretooluse.sh'")]])]])])]) =
    (JObject [("hooks", JObject [("PreToolUse", JArray [])])], true).
Proof. by vm_compute. Qed.

(** An address that merely begins with kyrisd's is taken for kyrisd's. *)
Example other_port_taken :
  scrub_kyris_json (Some "127.0.0.1:471")
    (JObject [("url", JString "http://127.0.0.1:4710/metrics")]) = (JObject [], true).
Proof. by vm_compute. Qed.

Lemma scrub_takes_only_residue_witness :
  wf routed = true /\
  let '(v', changed) := scrub_kyris_json auth routed in
  wf v' = true /\ clean auth v' = true /\ surgical auth routed v' /\
  scrub_kyris_json auth v' = (v', false) /\
  (clean auth routed = true -> v' = routed /\ changed = false) /\
  (is_Some (as_object routed) -> plain routed = true -> changed = false -> v' = routed).
Proof. split; [vm_compute; reflexivity|]. apply scrub_takes_only_residue. vm_compute. reflexivity. Defined.

Definition local_server : object :=
  [("type", JString "local");
   ("command", JArray (JString <$> ["npx"; "server-filesystem"; "/home/u/.kyris/notes"]))].

Definition wrapped_local : object :=
  obj_insert "command" (JArray (JString <$> ["kyris-mcp"; "wrap"; "--server"; "fs"; "--agent";
    "opencode/opencode"; "npx"; "server-filesystem"; "/home/u/.kyris/notes"])) local_server.

Lemma scrub_leaves_wrapped_servers_witness :
  get "command" (scrub_kyris_json auth (JObject wrapped_local)).1 =
    Some (JArray (JString <$> ["wrap"; "--server"; "fs"; "--agent"; "opencode/opencode"; "npx";
                               "server-filesystem"])).
Proof.
  refine (proj2 (scrub_leaves_wrapped_servers auth "http://127.0.0.1:4710" "sk-kyris-1"
    "opencode/opencode" "fs" local_server wrapped_local true [] _ _ _ _)
    "npx" ["server-filesystem"; "/home/u/.kyris/notes"] _ _);
    first [vm_compute; reflexivity | discriminate].
Defined.
End Sample.

End Scrub.
