(* ===== verification/Paths.v ===== *)
(** * Where kyris keeps its files

    [core/src/paths.rs] and the breadcrumbs of [core/src/live_evidence.rs], whose paths
    come from agent ids in request headers.

    A path is the string of its components; [join] is [Path::join] with a relative name.
    The environment is a function from names to values. *)

From S2P Require Import Prelude Text.

Module Paths.
Local Open Scope string_scope.
Local Open Scope list_scope.

(** [Path::join]: a separator unless there is one; a name that is absolute replaces all. *)
Definition join (dir name : string) : string :=
  if str_starts_with "/" name then name
  else if String.eqb dir "" then name
  else if ends_with (lit "/") (lit dir) then (dir ++ name)%string
  else (dir ++ "/" ++ name)%string.

Section paths.
Context (env : string -> option string).

Definition home : string := default "/" (env "HOME").

Definition runtime_dir : string :=
  match env "KYRIS_HOME" with
  | Some explicit => explicit
  | None => join home ".kyris"
  end.

Definition config_dir : string :=
  join (match env "XDG_CONFIG_HOME" with Some d => d | None => join home ".config" end) "kyris".

Definition data_dir : string :=
  join (match env "XDG_DATA_HOME" with
        | Some d => d
        | None => join (join home ".local") "share"
        end) "kyris".

Definition state_dir : string :=
  join (match env "XDG_STATE_HOME" with
        | Some d => d
        | None => join (join home ".local") "state"
        end) "kyris".

(** Rebuilt by every install, wiped by every uninstall. *)
Definition manifest_path : string := join runtime_dir "manifest.json".
Definition hooks_dir : string := join runtime_dir "hooks".
Definition agents_dir : string := join runtime_dir "agents".
Definition backups_dir : string := join runtime_dir "backups".
Definition env_shim_path : string := join runtime_dir "env".
Definition pid_path : string := join runtime_dir "kyrisd.pid".

(** Kept by an uninstall. *)
Definition config_path : string := join config_dir "kyrisd.yaml".
Definition storage_path : string := join data_dir "kyrisd.duckdb".
Definition credentials_path : string := join data_dir "credentials.json".
Definition secret_dir : string := join data_dir "secret".
Definition pricing_cache_path : string := join data_dir "pricing.json".
Definition log_dir : string := join state_dir "log".
Definition log_path : string := join log_dir "kyris.log".
Definition launchd_log_path : string := join log_dir "kyrisd.log".
Definition crash_dir : string := join state_dir "crash".
Definition diagnostics_dir : string := join state_dir "diagnostics".
Definition fail_open_path : string := join state_dir "fail-open.jsonl".
Definition approvals_log_path : string := join state_dir "approvals.jsonl".
Definition prompts_log_path : string := join state_dir "prompts.jsonl".

(** [cli/src/state.rs]. *)
Definition kyris_home : string := runtime_dir.
Definition env_dir : string := join runtime_dir "env".
Definition bin_dir : string := join runtime_dir "bin".
End paths.

(** ** Breadcrumbs: [live_evidence.rs] *)

Definition SURFACE_EXECUTION : string := "execution".
Definition SURFACE_TOOL : string := "tool".
Definition SURFACE_BURN_CONTROL : string := "burn_control".

Definition REFRESH_SECS : Z := 60.

(** [rsplit('/').next()]. *)
Definition bare_agent_id (agent_id : string) : string :=
  of_bytes (rev ((fix until l := match l with
    | [] => []
    | b :: l => if Ascii.eqb b "/"%char then [] else b :: until l
    end) (rev (lit agent_id)))).

Definition token_char (b : ascii) : bool :=
  in_range 48 57 b || in_range 65 90 b || in_range 97 122 b
  || bool_decide (b ∈ ["."; "_"; "-"]%char).

Definition valid_bare_id (bare : string) : bool :=
  negb (String.eqb bare "") && negb (String.eqb bare ".") && negb (String.eqb bare "..")
  && forallb token_char (lit bare).

Definition live_seen_dir (env : string -> option string) : string := join (agents_dir env) ".live-seen".

Definition surface_path (dir agent_id surface : string) : option string :=
  let bare := bare_agent_id agent_id in
  if valid_bare_id bare then Some (join (join dir bare) surface) else None.

(** The crumbs: when each file was written, and with what; times are in seconds. *)
Notation crumbs := (gmap string (Z * bytes)).

(** [duration_since] is an error when the file is from the future. *)
Definition fresh (now modified : Z) : bool := (0 <=? now - modified)%Z && (now - modified <? REFRESH_SECS)%Z.

Definition record_in (dir agent_id surface : string) (now : Z) (stamp : bytes) (c : crumbs) : crumbs :=
  match surface_path dir agent_id surface with
  | None => c
  | Some path =>
      match c !! path with
      | Some (modified, _) => if fresh now modified then c else <[path := (now, stamp)]> c
      | None => <[path := (now, stamp)]> c
      end
  end.

Definition last_seen_in {T} (parse : bytes -> option T) (dir agent_id surface : string) (c : crumbs)
    : option T :=
  path ← surface_path dir agent_id surface;
  '(_, contents) ← c !! path;
  parse (trim contents).

(** ** Lemmas *)

Lemma str_starts_with_app p s : str_starts_with p (p ++ s)%string = true.
Proof. unfold str_starts_with. rewrite lit_app. apply starts_with_app. Qed.

(** [path] is [dir] or below it. *)
Definition within (dir path : string) : bool :=
  String.eqb dir path || str_starts_with (dir ++ "/") path.

Lemma token_no_slash l : forallb token_char l = true -> "/"%char ∉ l.
Proof.
  rewrite forallb_forall. intros H Hin%list_elem_of_In%H. by vm_compute in Hin.
Qed.

Lemma valid_not_absolute bare : valid_bare_id bare = true -> str_starts_with "/" bare = false.
Proof.
  unfold valid_bare_id. rewrite !andb_true_iff. intros [_ Ht%token_no_slash].
  destruct (str_starts_with "/" bare) eqn:E; [|done].
  apply starts_with_true in E as [r E]. rewrite E in Ht. set_solver.
Qed.

Lemma join_plain dir name :
  str_starts_with "/" name = false -> dir <> "" -> ends_with (lit "/") (lit dir) = false ->
  join dir name = (dir ++ "/" ++ name)%string.
Proof. intros Hn Hd He. unfold join. rewrite Hn, He. by destruct (String.eqb_spec dir ""). Qed.

Lemma ends_with_snoc l b c : ends_with [b] (l ++ [c]) = Ascii.eqb b c.
Proof. unfold ends_with. rewrite rev_app_distr. simpl. by destruct (Ascii.eqb b c). Qed.

(** A string whose last character is none of ['/']. *)
Lemma no_slash_end dir l : l <> [] -> "/"%char ∉ l -> ends_with (lit "/") (dir ++ l) = false.
Proof.
  intros Hne Hl. destruct l as [|c l _] using rev_ind; [done|]. rewrite app_assoc.
  change (lit "/") with ["/"%char]. rewrite ends_with_snoc.
  destruct (Ascii.eqb_spec "/"%char c); [set_solver|done].
Qed.

Lemma string_app_assoc a b c : ((a ++ b) ++ c = a ++ (b ++ c))%string.
Proof. apply lit_inj. by rewrite !lit_app, app_assoc. Qed.

Lemma live_seen_dir_plain env :
  live_seen_dir env <> "" /\ ends_with (lit "/") (lit (live_seen_dir env)) = false.
Proof.
  unfold live_seen_dir, join. change (str_starts_with "/" ".live-seen") with false. cbv iota.
  destruct (String.eqb_spec (agents_dir env) ""); [done|].
  destruct (ends_with (lit "/") (lit (agents_dir env))); (split; [by destruct (agents_dir env)|]);
    rewrite ?lit_app; [apply no_slash_end|rewrite app_assoc; apply no_slash_end];
    first [done|vm_decided].
Qed.

(** Whatever an id in a header says, its breadcrumb is two levels below the directory of the
    breadcrumbs: under a plain name that is neither [.] nor [..], and the surface. *)
Theorem breadcrumb_stays_inside env agent_id surface path :
  surface ∈ [SURFACE_EXECUTION; SURFACE_TOOL; SURFACE_BURN_CONTROL] ->
  surface_path (live_seen_dir env) agent_id surface = Some path ->
  exists bare, path = (live_seen_dir env ++ "/" ++ bare ++ "/" ++ surface)%string /\
    bare <> "" /\ bare <> "." /\ bare <> ".." /\ "/"%char ∉ lit bare.
Proof.
  intros Hs. assert (str_starts_with "/" surface = false) as Hrel
    by (repeat (apply elem_of_cons in Hs as [->|Hs]; [done|]); by apply elem_of_nil in Hs).
  destruct (live_seen_dir_plain env) as [Hd He]. unfold surface_path.
  destruct (valid_bare_id _) eqn:Hv; [|done]. intros [= <-].
  eexists. pose proof (valid_not_absolute _ Hv) as Ha. unfold valid_bare_id in Hv.
  rewrite !andb_true_iff, !negb_true_iff in Hv.
  destruct Hv as [[[H1%String.eqb_neq H2%String.eqb_neq] H3%String.eqb_neq] H4%token_no_slash].
  split; [|done]. rewrite (join_plain (live_seen_dir env)) by done. rewrite join_plain; [|done| |].
  - by rewrite !string_app_assoc.
  - by destruct (live_seen_dir env).
  - rewrite lit_app, lit_app, app_assoc. apply no_slash_end; [|done].
    intros E. apply H1. by apply lit_inj.
Qed.

(** A breadcrumb is written at most once a minute, and read back as it was written. *)
Theorem breadcrumb_debounced {T} (parse : bytes -> option T) dir agent_id surface now stamp t c :
  valid_bare_id (bare_agent_id agent_id) = true -> parse (trim stamp) = Some t ->
  let c' := record_in dir agent_id surface now stamp c in
  (forall later stamp', (now <= later < now + REFRESH_SECS)%Z ->
     c' !! join (join dir (bare_agent_id agent_id)) surface = Some (now, stamp) ->
     record_in dir agent_id surface later stamp' c' = c') /\
  (c !! join (join dir (bare_agent_id agent_id)) surface = None ->
     last_seen_in parse dir agent_id surface c' = Some t).
Proof.
  intros Hv Hp c'. unfold c', record_in, last_seen_in, surface_path. rewrite Hv. cbv iota zeta.
  split.
  - intros later stamp' Hl Hc. unfold mbind. rewrite Hc.
    replace (fresh later now) with true; [done|].
    unfold fresh, REFRESH_SECS in *. symmetry. rewrite andb_true_iff, Z.leb_le, Z.ltb_lt. lia.
  - intros E. rewrite E. unfold mbind, option_bind. by rewrite lookup_insert_eq.
Qed.

(** ** What an uninstall wipes and what it keeps *)

Lemma starts_with_cancel a p l : starts_with (a ++ p) (a ++ l) = starts_with p l.
Proof. induction a as [|b a IH]; [done|]. cbn. by rewrite Ascii.eqb_refl. Qed.

(** Joining relative names to one directory puts the same text before each. *)
Lemma join_prefix dir :
  exists before, forall name, str_starts_with "/" name = false -> join dir name = (before ++ name)%string.
Proof.
  unfold join. destruct (String.eqb_spec dir "") as [->|]; [|destruct (ends_with (lit "/") (lit dir))].
  - exists "". by intros name ->.
  - exists dir. by intros name ->.
  - exists (dir ++ "/")%string. intros name ->. by rewrite string_app_assoc.
Qed.

Definition kept_paths (env : string -> option string) : list string :=
  [config_dir env; config_path env; data_dir env; storage_path env; credentials_path env;
   secret_dir env; pricing_cache_path env; state_dir env; log_dir env; log_path env;
   launchd_log_path env; crash_dir env; diagnostics_dir env; fail_open_path env;
   approvals_log_path env; prompts_log_path env].

(** Where no variable moves them, the files an uninstall keeps are outside the directory it
    wipes, wherever the home directory is. *)
Theorem kept_outside_wiped env :
  env "KYRIS_HOME" = None -> env "XDG_CONFIG_HOME" = None -> env "XDG_DATA_HOME" = None ->
  env "XDG_STATE_HOME" = None ->
  Forall (fun path => within (runtime_dir env) path = false) (kept_paths env).
Proof.
  intros Hk Hc Hd Hs. unfold kept_paths, config_path, storage_path, credentials_path, secret_dir,
    pricing_cache_path, launchd_log_path, log_path, crash_dir, diagnostics_dir, fail_open_path,
    approvals_log_path, prompts_log_path, log_dir, config_dir, data_dir, state_dir, runtime_dir.
  rewrite Hk, Hc, Hd, Hs. destruct (join_prefix (home env)) as [before Hb].
  rewrite !Hb by done.
  assert (forall name more, str_starts_with "/" more = false -> name <> "" ->
    ends_with (lit "/") (lit name) = false ->
    join (before ++ name) more = (before ++ name ++ "/" ++ more)%string) as Hj.
  { intros name more Hm Hn He. rewrite join_plain; [by rewrite !string_app_assoc|done|by destruct before|].
    destruct (lit name) as [|b l] eqn:E using rev_ind; [by destruct name|].
    change (lit "/") with ["/"%char] in *. rewrite ends_with_snoc in He.
    by rewrite lit_app, E, app_assoc, ends_with_snoc. }
  assert (forall rest, starts_with (lit ".kyris") (lit rest) = false ->
    within (before ++ ".kyris") (before ++ rest) = false) as Hw.
  { intros rest Hr. unfold within, str_starts_with. rewrite !lit_app, <- app_assoc, starts_with_cancel.
    apply orb_false_iff. split.
    - apply String.eqb_neq. intros E. apply (f_equal lit) in E. rewrite !lit_app in E.
      apply app_inv_head in E. rewrite <- E in Hr. by vm_compute in Hr.
    - apply not_true_is_false. intros [r E]%starts_with_true.
      rewrite E, <- app_assoc in Hr. by rewrite starts_with_app in Hr. }
  rewrite !Hj by done. repeat (apply Forall_cons; split; [by apply Hw|]). apply Forall_nil. done.
Qed.

Module Sample.
Definition env (name : string) : option string :=
  if String.eqb name "HOME" then Some "/Users/ada" else None.

Example paths_test :
  manifest_path env = "/Users/ada/.kyris/manifest.json" /\
  secret_dir env = "/Users/ada/.local/share/kyris/secret" /\
  surface_path (live_seen_dir env) "anthropic/claude-code" SURFACE_TOOL =
    Some "/Users/ada/.kyris/agents/.live-seen/claude-code/tool" /\
  surface_path (live_seen_dir env) "vendor/.." SURFACE_TOOL = None /\
  surface_path (live_seen_dir env) "a/" SURFACE_TOOL = None.
Proof. by vm_compute. Qed.

Lemma breadcrumb_stays_inside_witness :
  exists bare, "/Users/ada/.kyris/agents/.live-seen/claude-code/tool" =
      (live_seen_dir env ++ "/" ++ bare ++ "/" ++ SURFACE_TOOL)%string /\
    bare <> "" /\ bare <> "." /\ bare <> ".." /\ "/"%char ∉ lit bare.
Proof.
  apply (breadcrumb_stays_inside env "anthropic/claude-code"); [vm_decided|vm_compute; reflexivity].
Defined.

Lemma breadcrumb_debounced_witness :
  last_seen_in (fun b => Some b) "crumbs" "anthropic/claude-code" SURFACE_TOOL
    (record_in "crumbs" "claude-code" SURFACE_TOOL 100 (lit "then") ∅) = Some (lit "then").
Proof.
  apply (breadcrumb_debounced (fun b => Some b) "crumbs" "claude-code" SURFACE_TOOL 100 (lit "then"));
    vm_compute; reflexivity.
Defined.

Lemma kept_outside_wiped_witness :
  Forall (fun path => within (runtime_dir env) path = false) (kept_paths env).
Proof. apply kept_outside_wiped; vm_compute; reflexivity. Defined.
End Sample.
End Paths.
