(* ===== verification/Launch.v ===== *)
(** * How an agent is launched

    [cli/src/agents/prestage.rs], [shim.rs], the environment of [registry.rs] and the part of
    [probe.rs] that reads it back: the file of exports that points an agent at kyrisd, the
    script on the path that loads it, and the probe that says whether it does.

    Files and the manifest are those of [Manifest]; a directory is the files whose path has
    it as parent. *)

From S2P Require Import Prelude Text Json Toml Manifest CompilePolicy McpRouting McpConfigure Profile CodexCli Paths.

Module Launch.
Import Manifest.
Local Open Scope string_scope.
Local Open Scope list_scope.

(** ** The environment of an agent: [registry.rs] *)

Record ProviderRouting := mkRouting {
  base_url_vars : list string;
  auth_skip_flags : list (string * string);
  custom_headers_var : string;
  header_separator : string }.

Definition canonical_agent_id (id : string) : string :=
  if String.eqb id "claude-code" then "anthropic/claude-code"
  else if String.eqb id "codex-cli" then "openai/codex-cli"
  else if String.eqb id "gemini-cli" then "google/gemini-cli"
  else if String.eqb id "opencode" then "opencode/opencode"
  else if String.eqb id "cline" then "cline/cline"
  else id.

Definition AGENT_IDS : list string := ["claude-code"; "codex-cli"; "gemini-cli"; "cline"; "opencode"].

Definition env_exports (id : string) (routing : option ProviderRouting) (base_url inbound_key : string)
    : list (string * string) :=
  match routing with
  | None => []
  | Some r =>
      ((fun var => (var, base_url)) <$> base_url_vars r)
      ++ auth_skip_flags r
      ++ [(custom_headers_var r,
           ("x-kyris-inbound: " ++ inbound_key ++ header_separator r ++ "x-kyris-agent-id: "
            ++ canonical_agent_id id)%string)]
  end.

(** ** The file of exports: [prestage.rs] *)

Definition shell_single_quote (value : string) : string :=
  ("'" ++ of_bytes (CodexCli.escape_quotes (lit value)) ++ "'")%string.

Definition export_line (e : string * string) : bytes :=
  lit "export " ++ lit e.1 ++ lit "=" ++ lit (shell_single_quote e.2).

Definition exports_to_shell (exports : list (string * string)) : bytes :=
  (lit "# SPDX-License-Identifier: Apache-2.0" ++ [newline])
  ++ concat ((fun e => export_line e ++ [newline]) <$> exports).

(** ** The shim: [shim.rs] *)

Definition binary_name (agent_id : string) : option string :=
  if String.eqb agent_id "claude-code" then Some "claude"
  else if String.eqb agent_id "codex-cli" then Some "codex"
  else if String.eqb agent_id "gemini-cli" then Some "gemini"
  else if String.eqb agent_id "cline" then Some "cline"
  else if String.eqb agent_id "opencode" then Some "opencode"
  else None.

(** A text with [~] for the double quote. *)
Definition dq (s : string) : string := of_bytes (replace_byte "~" [dquote] (lit s)).

Definition shim_source (agent_id binary : string) : string :=
  (dq "#!/bin/sh
# SPDX-FileCopyrightText: Copyright 2026 Kyris
# SPDX-License-Identifier: Apache-2.0
# Kyris PATH shim for " ++ binary ++ dq " (agent id: " ++ agent_id ++ dq ").
# Marks the spawned agent's process tree so kyris's shell hooks know
# they are inside a governed agent and arm the preexec trap.
export KYRIS_GOVERNED_SUBPROCESS=~" ++ agent_id ++ dq "~

# Source this agent's Kyris env file(s) — base-URL redirect + inbound-key
# header — so burn-control / gateway routing reaches the agent on EVERY launch.
# This is the sole env-delivery path (there is no shell-RC env loader): the shim
# is the one wrapper that always runs when the agent binary is invoked. Guarded
# with -f so agents that ship no env file are unaffected. The ~-~*.sh glob also
# picks up split files (e.g. cline's cline-policy.sh).
for __kyris_env in ~$HOME/.kyris/env/" ++ agent_id ++ dq ".sh~ ~$HOME/.kyris/env/" ++ agent_id ++ dq "~-*.sh; do
    [ -f ~$__kyris_env~ ] && . ~$__kyris_env~
done
unset __kyris_env

# Strip our own directory from PATH so `command -v " ++ binary ++ dq "` resolves to
# the real binary (the next match on PATH). Without this we would loop
# onto ourselves.
__kyris_shim_dir=~$HOME/.kyris/bin~
__kyris_new_path=~~
__kyris_old_ifs=~$IFS~
IFS=~:~
for __kyris_d in $PATH; do
    [ ~$__kyris_d~ = ~$__kyris_shim_dir~ ] && continue
    if [ -z ~$__kyris_new_path~ ]; then
        __kyris_new_path=~$__kyris_d~
    else
        __kyris_new_path=~$__kyris_new_path:$__kyris_d~
    fi
done
IFS=~$__kyris_old_ifs~
PATH=~$__kyris_new_path~
export PATH
unset __kyris_shim_dir __kyris_new_path __kyris_old_ifs __kyris_d

real=$(command -v " ++ binary ++ dq " 2>/dev/null) || {
    printf '[kyris] %s not found on PATH after stripping shim dir\n' ~" ++ binary ++ dq "~ >&2
    exit 127
}

# Session sandbox (core, always-on where an OS backend exists). Jail the whole
# agent process tree at launch via kyris-exec. Guard on backend availability
# FIRST: `exec` cannot fall back, and kyris-exec exits non-zero where it can't
# sandbox, so we must not exec it on a platform with no backend. macOS Seatbelt
# is the only backend today. If the backend exists but the launcher is missing
# (broken install), fall through to an UNJAILED launch with a loud warning —
# never silently claim confinement, never block the launch.
if [ ~$(uname)~ = ~Darwin~ ] && [ -x /usr/bin/sandbox-exec ]; then
    __kyris_exec=$(command -v kyris-exec 2>/dev/null)
    if [ -n ~$__kyris_exec~ ]; then
        exec ~$__kyris_exec~ --session --agent ~" ++ agent_id ++ dq "~ -- ~$real~ ~$@~
    fi
    printf '[kyris] OS sandbox available but kyris-exec not found; launching %s UNJAILED\n' ~" ++ binary ++ dq "~ >&2
fi

exec ~$real~ ~$@~
")%string.

Section launch.
Context {T : TomlFloat} {serde : SerdeText} `{FloatEq} `{McpConfigure.ConfigStore}.
(** The environment of the command. *)
Context (env : string -> option string).

Definition prestage_env (id : string) (routing : option ProviderRouting) (base_url inbound_key : string)
    : cmd (list string) :=
  match env_exports id routing base_url inbound_key with
  | [] => mret []
  | exports =>
      let env_file := Paths.join (Paths.env_dir env) (id ++ ".sh") in
      wrote ← write_managed_file env_file (exports_to_shell exports) "agents" CodexCli.NoopValidator;
      mret (if wrote : bool then [("wrote " ++ env_file)%string] else [])
  end.

Definition prestage_agent_inner := prestage_env.

Definition prestage_agent (id : string) (routing : option ProviderRouting) : cmd (list string) :=
  config ← McpConfigure.load_or_init_config;
  prestage_agent_inner id routing (McpConfigure.base_url config) (McpConfigure.inbound_key config).

(** What it prints. *)
Fixpoint prestage_each (base_url inbound_key : string) (agents : list (string * option ProviderRouting))
    : cmd (list string) :=
  match agents with
  | [] => mret []
  | (id, routing) :: agents =>
      changes ← prestage_agent_inner id routing base_url inbound_key;
      rest ← prestage_each base_url inbound_key agents;
      mret (match changes with
            | [] => rest
            | _ => ("Prestaged " ++ id ++ ":")%string :: ((fun c => ("  " ++ c)%string) <$> changes) ++ rest
            end)
  end.

Definition prestage_all (agents : list (string * option ProviderRouting)) : cmd (list string) :=
  config ← McpConfigure.load_or_init_config;
  prestage_each (McpConfigure.base_url config) (McpConfigure.inbound_key config) agents.

Definition install_shim (agent_id : string) : cmd (list string) :=
  match binary_name agent_id with
  | None => mret []
  | Some binary =>
      let path := Paths.join (Paths.bin_dir env) binary in
      wrote ← write_managed_file path (lit (shim_source agent_id binary)) "agents" CodexCli.NoopValidator;
      mret (if wrote : bool then [("wrote shim " ++ path)%string] else [])
  end.

Definition shim_content_delivers_env (contents : bytes) (agent_id : string) : bool :=
  contains (lit (".kyris/env/" ++ agent_id ++ ".sh")) contents.

Definition shim_delivers_env (agent_id : string) : cmd bool :=
  match binary_name agent_id with
  | None => mret false
  | Some binary =>
      contents ← read_if_exists (Paths.join (Paths.bin_dir env) binary);
      mret (match contents with Some c => shim_content_delivers_env c agent_id | None => false end)
  end.

Definition uninstall_shim (agent_id : string) : cmd bool :=
  match binary_name agent_id with
  | None => mret false
  | Some binary => CodexCli.remove_file_if_exists (Paths.join (Paths.bin_dir env) binary)
  end.

(** ** Is the agent routed: [probe.rs] *)

Definition kyrisd_base_url : cmd (option string) :=
  config ← McpConfigure.attempt McpConfigure.load_config; mret (McpConfigure.base_url <$> config).

(** [entry.file_name()]. *)
Definition file_name (path : string) : bytes :=
  rev ((fix until l := match l with
    | [] => []
    | b :: l => if Ascii.eqb b "/"%char then [] else b :: until l
    end) (rev (lit path))).

Definition is_env_file (agent_id : string) (name : bytes) : bool :=
  ends_with (lit ".sh") name
  && (bool_decide (name = lit (agent_id ++ ".sh")) || starts_with (lit (agent_id ++ "-")) name).

Definition agent_env_file_matches (agent_id : string) (predicate : bytes -> bool) : cmd bool := fun d =>
  (Ok (existsb (fun f =>
         String.eqb (CodexCli.parent f.1) (Paths.env_dir env)
         && is_env_file agent_id (file_name f.1) && predicate f.2)
       (map_to_list (files d))), d).

(** [trim_matches] of one character. *)
Fixpoint trim_start_byte (b : ascii) (l : bytes) : bytes :=
  match l with
  | [] => []
  | c :: l' => if Ascii.eqb c b then trim_start_byte b l' else l
  end.

Definition trim_matches (b : ascii) (l : bytes) : bytes :=
  rev (trim_start_byte b (rev (trim_start_byte b l))).

Definition exports_value (var_name expected : string) (contents : bytes) : bool :=
  existsb (fun line =>
    match str_strip_prefix (lit ("export " ++ var_name ++ "=")) line with
    | Some value => bool_decide (trim_matches "'" (trim value) = lit expected)
    | None => false
    end) (lines contents).

Definition env_file_exports_value (agent_id var_name expected : string) : cmd bool :=
  agent_env_file_matches agent_id (exports_value var_name expected).

Definition env_loader_sourced : cmd bool :=
  let home := default "" (env "HOME") in
  zshrc ← read_if_exists (home ++ "/.zshrc");
  bashrc ← read_if_exists (home ++ "/.bashrc");
  mret (contains (lit ".kyris/env/load.sh") (default [] zshrc)
        || contains (lit ".kyris/env/load.sh") (default [] bashrc)).

Definition env_delivery_reaches_agent (agent_id : string) : cmd bool :=
  delivers ← shim_delivers_env agent_id;
  if delivers : bool then mret true else env_loader_sourced.

Definition env_routes_to_kyrisd (agent_id var_name : string) : cmd bool :=
  base ← kyrisd_base_url;
  match base with
  | None => mret false
  | Some base =>
      exports ← env_file_exports_value agent_id var_name base;
      if exports : bool then env_delivery_reaches_agent agent_id else mret false
  end.

(** ** Disconnecting: [undo.rs] *)

(** What it prints. *)
Definition undo_env_agent (id : string) (routing : option ProviderRouting) : cmd (list string) :=
  let env_file := Paths.join (Paths.env_dir env) (id ++ ".sh") in
  restored ← restore_manifest_entry env_file;
  said ← (if restored : bool then mret ("Reverted " ++ env_file)%string
          else
            removed ← CodexCli.remove_file_if_exists env_file;
            mret (if removed : bool then ("Removed " ++ env_file)%string
                  else ("No setup file found for " ++ id ++ ".")%string));
  mret (said :: match env_exports id routing "" "" with
                | [] => []
                | exports => "# Remove these from your current shell if already exported:"
                             :: ((fun e => ("unset " ++ e.1)%string) <$> exports)
                end).
End launch.

(** ** The value of an export reads back *)

(** A shell that reads the quoted value finds one word, the value, byte for byte. *)
Theorem shell_single_quote_reads_back value :
  CodexCli.sh_words false None (lit (shell_single_quote value)) = Some [lit value].
Proof.
  unfold shell_single_quote. rewrite !lit_app, lit_of_bytes. change (lit "'") with ["'"%char].
  cbn -[CodexCli.escape_quotes]. by rewrite CodexCli.sh_words_quoted.
Qed.

(** ** The probe recognises what setup wrote *)

Lemma after_slash_app l m : "/"%char ∉ l -> CodexCli.after_slash (l ++ "/"%char :: m) = Some m.
Proof.
  induction l as [|b l IH]; intros Hl; [done|]. cbn.
  destruct (Ascii.eqb_spec b "/"%char); [set_solver|]. apply IH. set_solver.
Qed.

Lemma parent_join dir name :
  dir <> "" -> ends_with (lit "/") (lit dir) = false -> "/"%char ∉ lit name ->
  CodexCli.parent (dir ++ "/" ++ name) = dir.
Proof.
  intros Hd He Hn. unfold CodexCli.parent. rewrite !lit_app, !rev_app_distr.
  change (rev (lit "/")) with ["/"%char]. rewrite <- app_assoc. cbn [app].
  rewrite after_slash_app by (rewrite elem_of_reverse_list || by rewrite list_elem_of_In, <- in_rev, <- list_elem_of_In).
  destruct (rev (lit dir)) as [|b l] eqn:E.
  { apply (f_equal (@rev ascii)) in E. rewrite rev_involutive in E. destruct Hd.
    by apply lit_inj. }
  assert (Ascii.eqb b "/" = false) as Hb.
  { unfold ends_with in He. rewrite E in He. cbn in He.
    rewrite andb_true_r in He. by rewrite Ascii.eqb_sym. }
  cbn. rewrite Hb. apply lit_inj. rewrite lit_of_bytes.
  apply (f_equal (@rev ascii)) in E. rewrite rev_involutive in E. by rewrite E.
Qed.

Lemma lines_text_app ls rest : Forall plain_line ls -> lines (text_of ls ++ rest) = ls ++ lines rest.
Proof.
  unfold lines. induction 1 as [|l ls [Hl Hcr] _ IH]; [done|].
  change (text_of (l :: ls)) with ((l ++ [newline]) ++ text_of ls). rewrite <- !app_assoc.
  assert (forall current m more, newline ∉ m ->
    lines_from current (m ++ [newline] ++ more) = strip_cr (current ++ m) :: lines_from [] more) as Hgo.
  { intros current m more. revert current. induction m as [|b m IHm]; intros current Hm; simpl.
    - by rewrite app_nil_r.
    - apply not_elem_of_cons in Hm as [Hb Hm].
      destruct (Ascii.eqb_spec b newline); [congruence|]. rewrite IHm by done.
      by rewrite <- app_assoc. }
  rewrite Hgo by done. simpl. by rewrite Hcr, IH.
Qed.

Lemma escape_no_quote l : "'"%char ∉ l -> CodexCli.escape_quotes l = l.
Proof.
  induction l as [|b l IH]; intros Hl; [done|]. unfold CodexCli.escape_quotes in *. cbn.
  destruct (Ascii.eqb_spec b "'"%char); [set_solver|]. cbn. f_equal. apply IH. set_solver.
Qed.

Lemma trim_start_byte_no b l : b ∉ l -> trim_start_byte b l = l.
Proof. destruct l as [|c l]; [done|]. intros H. cbn. destruct (Ascii.eqb_spec c b); [set_solver|done]. Qed.

Lemma trim_matches_quoted b l : b ∉ l -> trim_matches b (b :: l ++ [b]) = l.
Proof.
  intros H. unfold trim_matches. cbn. rewrite Ascii.eqb_refl.
  destruct l as [|c l]; [cbn; by rewrite Ascii.eqb_refl|].
  cbn [app trim_start_byte]. destruct (Ascii.eqb_spec c b); [set_solver|].
  rewrite app_comm_cons, rev_app_distr. cbn [rev app trim_start_byte]. rewrite Ascii.eqb_refl.
  rewrite trim_start_byte_no; [by rewrite rev_app_distr, rev_involutive|].
  change (rev l ++ [c]) with (rev (c :: l)). by rewrite list_elem_of_In, <- in_rev, <- list_elem_of_In.
Qed.

Lemma strip_cr_snoc l b : b <> "013"%char -> strip_cr (l ++ [b]) = l ++ [b].
Proof.
  intros H. unfold strip_cr. rewrite rev_app_distr. cbn. by destruct (Ascii.eqb_spec b "013"%char).
Qed.

Lemma trim_quoted l : trim ("'"%char :: l ++ ["'"%char]) = "'"%char :: l ++ ["'"%char].
Proof.
  unfold trim. assert (trim_start ("'"%char :: l ++ ["'"%char]) = "'"%char :: l ++ ["'"%char]) as ->
    by (unfold trim_start; cbn [length trim_start_aux];
        replace (strip_one white_space ("'"%char :: l ++ ["'"%char])) with (None (A:=bytes)); [done|reflexivity]).
  unfold trim_end. rewrite app_comm_cons, rev_app_distr, length_app, Nat.add_comm.
  cbn [rev app length Nat.add trim_start_aux].
  replace (strip_one white_space_rev ("'"%char :: rev l ++ ["'"%char])) with (None (A:=bytes)); [|reflexivity].
  cbn [rev]. by rewrite rev_app_distr, rev_involutive.
Qed.

(** A line of the file of exports. *)
Lemma export_line_shape name value :
  "'"%char ∉ lit value ->
  export_line (name, value) = lit ("export " ++ name ++ "=") ++ "'"%char :: lit value ++ ["'"%char].
Proof.
  intros H. unfold export_line, shell_single_quote. cbn [fst snd].
  rewrite !lit_app, lit_of_bytes, escape_no_quote by done. rewrite <- !app_assoc. done.
Qed.

Lemma export_line_plain name value :
  newline ∉ lit name -> newline ∉ lit value -> "'"%char ∉ lit value ->
  plain_line (export_line (name, value)).
Proof.
  intros Hn Hv Hq. rewrite export_line_shape by done. split.
  - rewrite !lit_app, !elem_of_app, elem_of_cons, elem_of_app. intros Hin.
    assert (newline ∉ lit "export " /\ newline ∉ lit "=" /\ newline <> "'"%char /\ newline ∉ ["'"%char])
      as (? & ? & ? & ?) by (repeat split; vm_decided). naive_solver.
  - rewrite app_comm_cons, app_assoc. by apply strip_cr_snoc.
Qed.

(** The line gives the value back to the probe. *)
Lemma export_line_value name value :
  "'"%char ∉ lit value ->
  match str_strip_prefix (lit ("export " ++ name ++ "=")) (export_line (name, value)) with
  | Some v => bool_decide (trim_matches "'" (trim v) = lit value)
  | None => false
  end = true.
Proof.
  intros H. rewrite export_line_shape by done.
  assert (forall p l, str_strip_prefix p (p ++ l) = Some l) as ->.
  { intros p l. unfold str_strip_prefix. by rewrite starts_with_app, drop_app_length. }
  rewrite trim_quoted, trim_matches_quoted by done. by apply bool_decide_eq_true.
Qed.

Lemma write_managed_file_files {T : TomlFloat} p contents c validate d b d' :
  write_managed_file p contents c validate d = (Ok b, d') -> files d' = <[p := contents]> (files d).
Proof.
  assert (forall a x y d1 d2, record_manifest_if_absent p a x y d1 = (Ok tt, d2) -> files d2 = files d1) as Hrec.
  { intros a x y d1 d2. unfold record_manifest_if_absent, load_manifest, now_rfc3339, save_manifest.
    unfold mbind, cmd_bind. destruct (existsb _ _); intros [= <-]; done. }
  unfold write_managed_file, read_if_exists. unfold mbind, cmd_bind.
  destruct (bool_decide_reflect (files d !! p = Some contents)) as [Hf|Hf].
  - destruct (record_manifest_if_absent _ _ _ _ d) as [[[]|] d1] eqn:Hr; intros [= _ <-].
    by rewrite (Hrec _ _ _ _ _ Hr), insert_id.
  - destruct (validate contents) as [[]|]; [|done]. cbn [lift mret cmd_ret]. unfold write_file.
    destruct (record_manifest_if_absent _ _ _ _ _) as [[[]|] d1] eqn:Hr; intros [= _ <-].
    by rewrite (Hrec _ _ _ _ _ Hr).
Qed.

Section routed.
Context {T : TomlFloat} {serde : SerdeText} `{FloatEq} `{McpConfigure.ConfigStore}.
Context (env : string -> option string).

Definition env_file (id : string) : string := Paths.join (Paths.env_dir env) (id ++ ".sh").
Definition shim_file (binary : string) : string := Paths.join (Paths.bin_dir env) binary.

(** A directory of kyris and its files. *)
Lemma runtime_join name :
  str_starts_with "/" name = false -> lit name <> [] -> "/"%char ∉ lit name ->
  let dir := Paths.join (Paths.runtime_dir env) name in
  dir <> "" /\ ends_with (lit "/") (lit dir) = false.
Proof.
  intros Hr Hn Hs. cbv zeta. destruct (Paths.join_prefix (Paths.runtime_dir env)) as [before Hb].
  rewrite (Hb name) by done. split.
  - intros E. apply (f_equal lit) in E. rewrite lit_app in E. apply app_eq_nil in E as [_ E]. done.
  - rewrite lit_app. by apply Paths.no_slash_end.
Qed.

Lemma parent_in dir name :
  dir <> "" -> ends_with (lit "/") (lit dir) = false ->
  str_starts_with "/" name = false -> "/"%char ∉ lit name ->
  CodexCli.parent (Paths.join dir name) = dir /\ file_name (Paths.join dir name) = lit name.
Proof.
  intros Hd He Hr Hn. rewrite Paths.join_plain by done. split; [by apply parent_join|].
  unfold file_name. rewrite !lit_app, !rev_app_distr. change (rev (lit "/")) with ["/"%char].
  rewrite <- app_assoc. rewrite <- (rev_involutive (lit name)) at 2. f_equal.
  assert ("/"%char ∉ rev (lit name)) as Hn' by by rewrite list_elem_of_In, <- in_rev, <- list_elem_of_In.
  induction (rev (lit name)) as [|b l IH]; [done|]. cbn.
  destruct (Ascii.eqb_spec b "/"%char); [set_solver|]. f_equal. apply IH. set_solver.
Qed.

Lemma env_bin_differ : Paths.env_dir env <> Paths.bin_dir env.
Proof.
  unfold Paths.env_dir, Paths.bin_dir.
  destruct (Paths.join_prefix (Paths.runtime_dir env)) as [before Hb]. rewrite !Hb by done.
  intros E%(f_equal lit). rewrite !lit_app in E. by apply app_inv_head in E.
Qed.

(** What is known of the ids of the registry. *)
Lemma id_facts id :
  id ∈ AGENT_IDS -> exists binary, binary_name id = Some binary /\
    str_starts_with "/" (id ++ ".sh") = false /\ "/"%char ∉ lit (id ++ ".sh") /\
    str_starts_with "/" binary = false /\ "/"%char ∉ lit binary /\
    is_env_file id (lit (id ++ ".sh")) = true /\
    shim_content_delivers_env (lit (shim_source id binary)) id = true.
Proof.
  unfold AGENT_IDS. intros Hid. repeat (apply elem_of_cons in Hid as [->|Hid];
    [eexists; split; [reflexivity|]; split_and!; first [vm_compute; reflexivity|vm_decided]|]).
  by apply elem_of_nil in Hid.
Qed.

Lemma load_config_kept d d' c :
  McpConfigure.load_config d = (Ok c, d) ->
  (forall p, McpConfigure.config_path = Ok p -> files d' !! p = files d !! p) ->
  McpConfigure.load_config d' = (Ok c, d').
Proof.
  unfold McpConfigure.load_config, read_if_exists. unfold mbind, cmd_bind.
  destruct McpConfigure.config_path as [p|]; [|done]. cbn [lift mret cmd_ret]. intros Hl Hp.
  rewrite (Hp p) by done. destruct (files d !! p) as [t|]; [|done].
  destruct (McpConfigure.yaml_from_str t) as [c0|]; cbn [lift mret cmd_ret] in *; [|done].
  injection Hl as ->. reflexivity.
Qed.

(** The probe finds a value which a line of the file of exports has. *)
Lemma probe_finds id var expected rest ls d :
  id ∈ AGENT_IDS -> Forall plain_line ls ->
  files d !! env_file id = Some (text_of ls ++ rest) ->
  "'"%char ∉ lit expected -> export_line (var, expected) ∈ ls ->
  env_file_exports_value env id var expected d = (Ok true, d).
Proof.
  intros Hid Hls Hf Hq Hin. destruct (id_facts _ Hid) as (binary & _ & Hr & Hs & _ & _ & Hi & _).
  unfold env_file_exports_value, agent_env_file_matches. do 2 f_equal.
  apply existsb_exists. exists (env_file id, text_of ls ++ rest).
  rewrite <- list_elem_of_In. split; [by apply elem_of_map_to_list|]. cbn [fst snd].
  destruct (runtime_join "env") as [Hd He]; [done|done|vm_decided|].
  destruct (parent_in (Paths.env_dir env) (id ++ ".sh")) as [Hp Hn]; [done..|].
  unfold env_file. rewrite Hp, Hn, String.eqb_refl, Hi. cbn [andb].
  unfold exports_value. rewrite lines_text_app by done. apply existsb_exists.
  exists (export_line (var, expected)). rewrite <- list_elem_of_In, elem_of_app. split; [by left|].
  by apply export_line_value.
Qed.

Lemma env_shim_differ id binary :
  str_starts_with "/" (id ++ ".sh") = false -> "/"%char ∉ lit (id ++ ".sh") ->
  str_starts_with "/" binary = false -> "/"%char ∉ lit binary ->
  shim_file binary <> env_file id.
Proof.
  intros Hr Hs Hbr Hbs E. destruct env_bin_differ.
  destruct (runtime_join "env") as [Hd He]; [done|done|vm_decided|].
  destruct (runtime_join "bin") as [Hd' He']; [done|done|vm_decided|].
  destruct (parent_in (Paths.env_dir env) (id ++ ".sh")) as [<- _]; [done..|].
  destruct (parent_in (Paths.bin_dir env) binary) as [<- _]; [done..|].
  unfold env_file, shim_file in E. by rewrite E.
Qed.

(** The first lines of the file: the comment and the URLs. *)
Definition head_lines (routing : ProviderRouting) (url : string) : list bytes :=
  lit "# SPDX-License-Identifier: Apache-2.0"
  :: ((fun var => export_line (var, url)) <$> base_url_vars routing).

Lemma head_plain routing c :
  newline ∉ lit (McpConfigure.base_url c) -> "'"%char ∉ lit (McpConfigure.base_url c) ->
  Forall (fun v => newline ∉ lit v) (base_url_vars routing) ->
  Forall plain_line (head_lines routing (McpConfigure.base_url c)).
Proof.
  intros Hn Hq Hv. apply Forall_cons. split.
  - split; [vm_decided|done].
  - apply Forall_fmap. eapply Forall_impl; [exact Hv|]. intros v Hvn. by apply export_line_plain.
Qed.

Lemma text_of_app ls ls' : text_of (ls ++ ls') = text_of ls ++ text_of ls'.
Proof. unfold text_of. by rewrite fmap_app, concat_app. Qed.

Lemma exports_text exports :
  exports_to_shell exports =
  text_of (lit "# SPDX-License-Identifier: Apache-2.0" :: (export_line <$> exports)).
Proof. unfold exports_to_shell, text_of. rewrite fmap_cons, <- list_fmap_compose. reflexivity. Qed.

Lemma load_or_init_same d c c' d' :
  McpConfigure.load_config d = (Ok c, d) -> McpConfigure.load_or_init_config d = (Ok c', d') ->
  d' = d /\ McpConfigure.base_url c' = McpConfigure.base_url c.
Proof.
  intros Hl. unfold McpConfigure.load_or_init_config. unfold mbind, cmd_bind.
  destruct McpConfigure.config_path as [p|] eqn:Hp; [|done]. cbn [lift mret cmd_ret]. unfold read_if_exists.
  destruct (files d !! p) as [t|] eqn:Hf.
  - rewrite Hl. destruct (McpConfigure.secret_get_or_create _ _) as [i|]; [|done]. cbn [lift mret cmd_ret].
    destruct (McpConfigure.secret_get_or_create _ _) as [o|]; [|done]. cbn [lift mret cmd_ret].
    by intros [= <- <-].
  - unfold McpConfigure.load_config, read_if_exists in Hl. unfold mbind, cmd_bind in Hl.
    rewrite Hp in Hl. cbn [lift mret cmd_ret] in Hl. by rewrite Hf in Hl.
Qed.

Lemma prestage_writes id routing c var d changes d1 :
  var ∈ base_url_vars routing -> McpConfigure.load_config d = (Ok c, d) ->
  prestage_agent env id (Some routing) d = (Ok changes, d1) ->
  exists rest, files d1 =
    <[env_file id := text_of (head_lines routing (McpConfigure.base_url c)) ++ rest]> (files d).
Proof.
  intros Hvar Hl Hpre. unfold prestage_agent in Hpre. unfold mbind, cmd_bind in Hpre.
  destruct (McpConfigure.load_or_init_config d) as [[c1|] d'] eqn:Hc; [|done].
  destruct (load_or_init_same _ _ _ _ Hl Hc) as [-> Hb].
  unfold prestage_agent_inner, prestage_env in Hpre. rewrite Hb in Hpre.
  destruct (env_exports id (Some routing) (McpConfigure.base_url c) (McpConfigure.inbound_key c1))
    as [|e exports] eqn:Ee.
  { unfold env_exports in Ee. destruct (base_url_vars routing); [by apply elem_of_nil in Hvar|done]. }
  rewrite <- Ee in Hpre. cbv iota in Hpre. unfold mbind, cmd_bind in Hpre.
  destruct (write_managed_file _ _ _ _ d) as [[wrote|] d3] eqn:Hw; [|done].
  cbn [mret cmd_ret] in Hpre. injection Hpre as _ <-.
  apply write_managed_file_files in Hw. rewrite Hw. unfold env_file.
  rewrite exports_text. unfold env_exports. rewrite fmap_app, app_comm_cons, text_of_app.
  eexists. by rewrite <- list_fmap_compose.
Qed.

(** C24. What setup writes is what the probe looks for.  For every agent of the registry
    that is routed by its environment, after [prestage_agent] and [install_shim] the probe
    says that each of the variables that hold a base URL routes to kyrisd: the file of
    exports has the line with the URL of the configuration, quoted, whatever the key and
    the header after it hold, and the shim on the path sources that file.  Writing the shim
    overwrites neither the exports nor the configuration. *)
Theorem prestaged_agent_is_routed id routing c var d changes d1 shim_changes d2 :
  id ∈ AGENT_IDS -> var ∈ base_url_vars routing ->
  McpConfigure.load_config d = (Ok c, d) ->
  (forall p binary, McpConfigure.config_path = Ok p -> binary_name id = Some binary ->
     p <> env_file id /\ p <> shim_file binary) ->
  newline ∉ lit (McpConfigure.base_url c) -> "'"%char ∉ lit (McpConfigure.base_url c) ->
  Forall (fun v => newline ∉ lit v) (base_url_vars routing) ->
  prestage_agent env id (Some routing) d = (Ok changes, d1) ->
  install_shim env id d1 = (Ok shim_changes, d2) ->
  env_routes_to_kyrisd env id var d2 = (Ok true, d2).
Proof.
  intros Hid Hvar Hl Hpath Hnl Hq Hvars Hpre Hshim.
  destruct (id_facts _ Hid) as (binary & Hbin & Hr & Hs & Hbr & Hbs & _ & Hsrc).
  destruct (prestage_writes _ _ _ _ _ _ _ Hvar Hl Hpre) as (rest & Hd1).
  unfold install_shim in Hshim. rewrite Hbin in Hshim. unfold mbind, cmd_bind in Hshim.
  destruct (write_managed_file _ _ _ _ d1) as [[wrote|] d3] eqn:Hw; [|done].
  cbn [mret cmd_ret] in Hshim. injection Hshim as <- <-.
  apply write_managed_file_files in Hw. fold (shim_file binary) in Hw.
  pose proof (env_shim_differ _ _ Hr Hs Hbr Hbs) as Hne.
  unfold env_routes_to_kyrisd, kyrisd_base_url, McpConfigure.attempt. unfold mbind, cmd_bind.
  rewrite (load_config_kept d d3 c Hl).
  2:{ intros p Hp. destruct (Hpath p binary Hp Hbin). by rewrite Hw, Hd1, !lookup_insert_ne. }
  cbn [fst ok fmap option_fmap option_map mret cmd_ret].
  erewrite (probe_finds id var (McpConfigure.base_url c) rest); [|done| | |done|].
  - unfold env_delivery_reaches_agent, shim_delivers_env. rewrite Hbin. unfold mbind, cmd_bind, read_if_exists.
    fold (shim_file binary). rewrite Hw, lookup_insert_eq. cbn [mret cmd_ret]. by rewrite Hsrc.
  - apply (head_plain routing c Hnl Hq Hvars).
  - by rewrite Hw, lookup_insert_ne, Hd1, lookup_insert_eq.
  - apply elem_of_cons. right. apply list_elem_of_fmap. by exists var.
Qed.
End routed.

(** ** Examples *)

Module Sample.
#[local] Existing Instance one_float.
#[local] Existing Instance printed_floats.
#[local] Existing Instance Manifest.sample_serde.
#[local] Existing Instance McpConfigure.Sample.store.

Definition env (name : string) : option string :=
  if String.eqb name "HOME" then Some "/Users/ada" else None.

Definition moved_env (name : string) : option string :=
  if String.eqb name "KYRIS_HOME" then Some "/opt/kyris" else env name.

Definition routing : ProviderRouting :=
  mkRouting ["ANTHROPIC_BASE_URL"; "ANTHROPIC_BEDROCK_BASE_URL"; "ANTHROPIC_VERTEX_BASE_URL";
      "ANTHROPIC_FOUNDRY_BASE_URL"; "ANTHROPIC_BEDROCK_MANTLE_BASE_URL"]
    [("CLAUDE_CODE_SKIP_BEDROCK_AUTH", "1"); ("CLAUDE_CODE_SKIP_VERTEX_AUTH", "1")]
    "ANTHROPIC_CUSTOM_HEADERS" (of_bytes [newline]).

Definition start : disk := mkDisk {["kyrisd.yaml" := McpConfigure.DEFAULT_CONFIG]} None "t".

Definition config : McpConfigure.KyrisdConfig :=
  McpConfigure.mkConfig "127.0.0.1:4100" false "" "" (McpRouting.mkMcp false 0 []) [].

Definition prestaged env : disk := (prestage_agent env "claude-code" (Some routing) start).2.
Definition installed env : disk := (install_shim env "claude-code" (prestaged env)).2.

(** The header after the URL spans two lines of the file. *)
Example exports_test :
  files (prestaged env) !! "/Users/ada/.kyris/env/claude-code.sh" =
  Some (text_of [lit "# SPDX-License-Identifier: Apache-2.0";
    lit "export ANTHROPIC_BASE_URL='http://127.0.0.1:4100'";
    lit "export ANTHROPIC_BEDROCK_BASE_URL='http://127.0.0.1:4100'";
    lit "export ANTHROPIC_VERTEX_BASE_URL='http://127.0.0.1:4100'";
    lit "export ANTHROPIC_FOUNDRY_BASE_URL='http://127.0.0.1:4100'";
    lit "export ANTHROPIC_BEDROCK_MANTLE_BASE_URL='http://127.0.0.1:4100'";
    lit "export CLAUDE_CODE_SKIP_BEDROCK_AUTH='1'";
    lit "export CLAUDE_CODE_SKIP_VERTEX_AUTH='1'";
    lit "export ANTHROPIC_CUSTOM_HEADERS='x-kyris-inbound: sk-kyris-0";
    lit "x-kyris-agent-id: anthropic/claude-code'"]).
Proof. by vm_compute. Qed.

Lemma prestaged_agent_is_routed_witness :
  env_routes_to_kyrisd env "claude-code" "ANTHROPIC_BASE_URL" (installed env) = (Ok true, installed env).
Proof.
  apply (prestaged_agent_is_routed env "claude-code" routing config "ANTHROPIC_BASE_URL" start
    ["wrote /Users/ada/.kyris/env/claude-code.sh"] (prestaged env)
    ["wrote shim /Users/ada/.kyris/bin/claude"] (installed env)).
  all: try vm_decided.
  all: try (vm_compute; reflexivity).
  intros p binary [= <-] [= <-]. split; vm_decided.
Defined.

(** With the directory moved by [KYRIS_HOME] the probe says the same, but the shim sources
    the file of the home directory, which is not there. *)
Example shim_ignores_kyris_home :
  (env_routes_to_kyrisd moved_env "claude-code" "ANTHROPIC_BASE_URL" (installed moved_env)).1 = Ok true /\
  env_file moved_env "claude-code" = "/opt/kyris/env/claude-code.sh" /\
  files (installed moved_env) !! "/Users/ada/.kyris/env/claude-code.sh" = None /\
  contains (lit (dq "in ~$HOME/.kyris/env/claude-code.sh~"))
    (default [] (files (installed moved_env) !! "/opt/kyris/bin/claude")) = true /\
  contains (lit "KYRIS_HOME") (default [] (files (installed moved_env) !! "/opt/kyris/bin/claude")) = false.
Proof. by vm_compute. Qed.
End Sample.
End Launch.
