(* ===== verification/Adaptation.v ===== *)
(** * How an agent is adapted: data

    [cli/src/agents/adaptation.rs], the documents of [documents.rs] and their gate in
    [manifest.rs].  A document is given as [serde] reads it; a [BTreeMap] is a list in the
    order of its keys. *)

From S2P Require Import Prelude Text Json Configure McpConfigure Hook Profile Launch.

Module Adaptation.
Local Open Scope string_scope.
Local Open Scope list_scope.

(** ** Profiles: [adaptation.rs] *)

Record Detect := mkDetect { binaries : list string; config_paths : list string }.

Inductive Discovery :=
| Static (path : string)
| EnvRooted (env subpath fallback : string)
| WalkUp (filenames : list string) (global_dir : string)
| SiblingOf (file name : string)
| WalkUpOptional (filenames : list string).

Record ConfigFile := mkFile { discovery : Discovery; format : Configure.FileFormat }.

Inductive RoutingKind := Env | Config | ProviderTable.

Inductive ConfigureOp :=
| InstallFile (template dest : string) (mode : option string)
| SetKey (file : string) (path : list string) (value : json)
| RouteMcp
| InstallPlugin (dest register_in : string)
| RequireWritable (file : string)
| SetGovernedPermissions (file : string)
| StripKyrisApikey (file : string) (path : list string)
| InstallHook (script register_in : string) (events : list string) (nested : bool)
    (hook_timeout : option Z)
| McpDerivedDenies (file : string)
| WriteCompiledPolicy (dest : string)
| EnsureRoutableAuth (file : string)
| SetSettingFromInput (file : string) (path : list string) (input : string)
| RemoveLegacyHook (file event marker : string).

Inductive ProbeRule :=
| FileExists (file : string)
| ContainsMarker (file marker : string)
| McpWrap
| KeyEqualsKyrisd (file : string) (path : list string) (suffix : option string)
| ArrayContains (file : string) (path : list string) (value : string)
| EnvPointsKyrisd (var : string)
| CompiledPolicyLoadable (file : string)
| AuthRoutable (file : string) (alt_file : option string)
| All (rules : list ProbeRule)
| HookScriptMatches (file : string).

Inductive UndoOp :=
| ManifestRestore (file scope : string) (delete_if_unmanaged : bool)
| UndoMcp
| DeleteEnvFile
| RestoreComponent (scope : string)
| DeleteFile (file : string).

Record ExecutionFallback := mkFallback {
  fallback_probe : list ProbeRule;
  fallback_mechanism : Profile.ExecutionMechanism;
  fallback_ceiling : option Profile.CoverageCeiling }.

Record ExecutionSurface := mkExecution {
  exec_mechanisms : list Profile.ExecutionMechanism;
  exec_configure : list ConfigureOp;
  exec_probe : list ProbeRule;
  exec_fallback : option ExecutionFallback;
  exec_undo : list UndoOp }.

Record ToolSurface := mkTool {
  tool_mechanisms : list Profile.ToolMechanism;
  tool_mcp : list McpConfigure.McpSource;
  exclude_tools : option (list string);
  tool_configure : list ConfigureOp;
  tool_undo : list UndoOp }.

Record EnvRouting := mkEnvRouting {
  base_url_vars : list string;
  auth_skip_flags : list (string * string);
  custom_headers_var : string;
  header_separator : string }.

Record ModelRoutingSurface := mkModelRouting {
  kind : RoutingKind;
  routing_mechanisms : list Profile.BurnControlMechanism;
  routing_env : option EnvRouting;
  routing_configure : list ConfigureOp;
  routing_probe : list ProbeRule;
  routing_undo : list UndoOp }.

Record Surfaces := mkSurfaces {
  execution : option ExecutionSurface;
  tool : option ToolSurface;
  model_routing : option ModelRoutingSurface }.

Record SettingSpec := mkSetting { setting_key : string; description : string }.

Record AdaptationProfile := mkAdaptation {
  detect : Detect;
  config_files : list (string * ConfigFile);
  surfaces : Surfaces;
  attribution : list Profile.AttributionMechanism;
  agentpact_native_attribution : bool;
  launch_dir : option string;
  delegate : option string;
  hook_protocol : option Hook.HookProtocol;
  markers : list string;
  settings : list SettingSpec;
  live_query : bool }.

(** ** The gate: [manifest.rs] *)

Record AgentManifest := mkManifest {
  api_version : string;
  manifest_kind : string;
  protocol_version : Z;
  agent : string;
  agent_version : option string;
  native : Profile.NativeCapabilityDeclaration;
  adaptation : option AdaptationProfile }.

Definition SUPPORTED_PROTOCOL_VERSION : Z := 1.

(** [from_str] reads a document, [show] prints a version. *)
Definition parse_and_validate (from_str : bytes -> result AgentManifest string) (show : Z -> string)
    (json : bytes) (expected_agent : string) : result AgentManifest string :=
  match from_str json with
  | Err e => Err ("invalid AgentCapabilities JSON: " ++ e)
  | Ok manifest =>
      if negb (String.eqb (api_version manifest) "agentpact/v1") then
        Err ("unsupported apiVersion: " ++ api_version manifest)
      else if negb (String.eqb (manifest_kind manifest) "AgentCapabilities") then
        Err ("unsupported kind: " ++ manifest_kind manifest)
      else if (SUPPORTED_PROTOCOL_VERSION <? protocol_version manifest)%Z then
        Err ("unsupported protocol_version " ++ show (protocol_version manifest)
             ++ " (this build supports up to " ++ show SUPPORTED_PROTOCOL_VERSION ++ ")")
      else if negb (String.eqb (agent manifest) expected_agent) then
        Err ("capabilities agent " ++ agent manifest ++ " does not match " ++ expected_agent)
      else Ok manifest
  end%string.

(** ** The shipped documents: [documents.rs] *)

Definition static_json (path : string) : ConfigFile := mkFile (Static path) Configure.Json.

Definition document (name : string) (profile : AdaptationProfile) : AgentManifest :=
  mkManifest "agentpact/v1" "AgentCapabilities" 1 name None
    (Profile.mkNative false false false false) (Some profile).

Definition set_providers (path : list string) (value : json) : ConfigureOp :=
  SetKey "providers" ("providers" :: "anthropic" :: path) value.

Definition CLINE : AgentManifest := document "cline/cline" {|
  detect := mkDetect ["cline"] ["hook"; "providers"];
  config_files :=
    [("global_state", static_json "~/.cline/data/globalState.json");
     ("hook", static_json "~/.cline/hooks/PreToolUse.cjs");
     ("mcp", static_json "~/.cline/data/settings/cline_mcp_settings.json");
     ("providers", static_json "~/.cline/data/settings/providers.json")];
  surfaces := {|
    execution := Some {|
      exec_mechanisms := [Profile.ExecLiveHookAdapter];
      exec_configure := [InstallFile "cline_pretooluse" "hook" (Some "0644")];
      exec_probe := [FileExists "hook"];
      exec_fallback := None;
      exec_undo := [ManifestRestore "hook" "cline:execution" true] |};
    tool := Some {|
      tool_mechanisms := [Profile.ToolMcpWrapping];
      tool_mcp := [McpConfigure.mkSource "mcp" ["mcpServers"] false];
      exclude_tools := None;
      tool_configure := [RouteMcp];
      tool_undo := [UndoMcp] |};
    model_routing := Some {|
      kind := Config;
      routing_mechanisms := [Profile.BurnConfigRewrite];
      routing_env := None;
      routing_configure :=
        [SetKey "providers" ["version"] (JNumber 1);
         set_providers ["settings"; "provider"] (JString "anthropic");
         set_providers ["settings"; "baseUrl"] (JString "{base_url_v1}");
         set_providers ["updatedAt"] (JString "2026-01-01T00:00:00.000Z");
         set_providers ["tokenSource"] (JString "manual");
         set_providers ["settings"; "headers"; "x-kyris-inbound"] (JString "{inbound_key}");
         set_providers ["settings"; "headers"; "x-kyris-agent-id"] (JString "{agent_id}")];
      routing_probe :=
        [KeyEqualsKyrisd "providers" ["providers"; "anthropic"; "settings"; "baseUrl"] (Some "/v1")];
      routing_undo := [ManifestRestore "providers" "cline:burn-control" false] |} |};
  attribution := [Profile.AttrKyrisPathShim; Profile.AttrNativeHookPayload; Profile.AttrProcessLineage];
  agentpact_native_attribution := false;
  launch_dir := None;
  delegate := None;
  hook_protocol := Some (Hook.mkProtocol "tool_name" ["tool_input"]
    [Hook.mkToolMapping "run_commands" "execute" (Some "detail");
     Hook.mkToolMapping "editor" "write" (Some "detail");
     Hook.mkToolMapping "apply_patch" "apply_patch" (Some "detail")]
    ["read_files"; "search_codebase"; "fetch_web_content"; "ask_question"; "skills"; "submit_and_exit"]
    [] "call" Hook.EmptyStdout (Hook.mkRuntime 120 Hook.FailOpenPosture false false)
    None (Some (Hook.mkNaming "__" true)) None);
  markers := ["kyris hook check"; "kyris-mcp"];
  settings := [];
  live_query := false |}.

(** The keys of one provider of opencode. *)
Definition set_options (provider url : string) : list ConfigureOp :=
  [SetKey "config" ["provider"; provider; "options"; "baseURL"] (JString url);
   SetKey "config" ["provider"; provider; "options"; "headers"; "x-kyris-inbound"] (JString "{inbound_key}");
   SetKey "config" ["provider"; provider; "options"; "headers"; "x-kyris-agent-id"] (JString "{agent_id}")].

Definition OPENCODE : AgentManifest := document "opencode/opencode" {|
  detect := mkDetect ["opencode"] ["config"];
  config_files :=
    [("config", mkFile (WalkUp ["opencode.jsonc"; "opencode.json"] "~/.config/opencode") Configure.Jsonc);
     ("plugin", mkFile (SiblingOf "config" "kyris-governance.js") Configure.Json)];
  surfaces := {|
    execution := Some {|
      exec_mechanisms := [Profile.ExecLiveHookAdapter];
      exec_configure :=
        [RequireWritable "config"; InstallPlugin "plugin" "config"; SetGovernedPermissions "config"];
      exec_probe := [All [ArrayContains "config" ["plugin"] "kyris-governance"; FileExists "plugin"]];
      exec_fallback := None;
      exec_undo := [ManifestRestore "config" "opencode:execution" false;
                    ManifestRestore "plugin" "opencode:execution" true] |};
    tool := Some {|
      tool_mechanisms := [Profile.ToolMcpWrapping];
      tool_mcp := [McpConfigure.mkSource "config" ["mcp"] false];
      exclude_tools := None;
      tool_configure := [RequireWritable "config"; RouteMcp];
      tool_undo := [UndoMcp] |};
    model_routing := Some {|
      kind := Config;
      routing_mechanisms := [Profile.BurnConfigRewrite];
      routing_env := None;
      routing_configure :=
        [RequireWritable "config"]
        ++ set_options "anthropic" "{base_url_v1}" ++ set_options "openai" "{base_url_v1}"
        ++ set_options "google" "{base_url}/v1beta"
        ++ [StripKyrisApikey "config" ["provider"; "anthropic"; "options"; "apiKey"];
            StripKyrisApikey "config" ["provider"; "openai"; "options"; "apiKey"];
            StripKyrisApikey "config" ["provider"; "google"; "options"; "apiKey"]];
      routing_probe :=
        [KeyEqualsKyrisd "config" ["provider"; "anthropic"; "options"; "baseURL"] (Some "/v1");
         KeyEqualsKyrisd "config" ["provider"; "openai"; "options"; "baseURL"] (Some "/v1");
         KeyEqualsKyrisd "config" ["provider"; "google"; "options"; "baseURL"] (Some "/v1beta");
         EnvPointsKyrisd "ANTHROPIC_BASE_URL"];
      routing_undo := [ManifestRestore "config" "opencode:burn-control" false] |} |};
  attribution := [Profile.AttrKyrisPathShim; Profile.AttrNativeHookPayload; Profile.AttrProcessLineage];
  agentpact_native_attribution := false;
  launch_dir := None;
  delegate := None;
  hook_protocol := Some (Hook.mkProtocol "tool_name" ["tool_input"]
    [Hook.mkToolMapping "bash" "execute" (Some "command");
     Hook.mkToolMapping "edit" "write" (Some "filePath");
     Hook.mkToolMapping "write" "write" (Some "filePath");
     Hook.mkToolMapping "read" "read" (Some "filePath");
     Hook.mkToolMapping "apply_patch" "apply_patch" (Some "patchText")]
    ["glob"; "grep"; "todowrite"; "task"; "webfetch"; "websearch"; "skill"; "lsp"; "question";
     "plan_exit"; "invalid"]
    [] "call" Hook.EmptyStdout (Hook.mkRuntime 600 Hook.FailOpenPosture false false)
    None (Some (Hook.mkNaming "_" false)) None);
  markers := ["kyris-governance"; "kyris-mcp"];
  settings := [];
  live_query := false |}.

Definition approval_prompt : SettingSpec :=
  mkSetting "approval_prompt" "Approval UX for an `ask`: `kyris` (kyris's pending-approval popup — default) or `native` (the agent's own prompt)".

Definition CLAUDE_CODE : AgentManifest := document "anthropic/claude-code" {|
  detect := mkDetect ["claude"] ["settings"; "user_config"];
  config_files :=
    [("hookscript", static_json "~/.claude/hooks/agentpact_pretooluse.sh");
     ("project_mcp", mkFile (WalkUpOptional [".mcp.json"]) Configure.Json);
     ("settings", static_json "~/.claude/settings.json");
     ("user_config", static_json "~/.claude.json")];
  surfaces := {|
    execution := Some {|
      exec_mechanisms := [Profile.ExecLiveHookAdapter];
      exec_configure := [InstallHook "hookscript" "settings" ["PreToolUse"] true None];
      exec_probe :=
        [All [ContainsMarker "settings" "agentpact_pretooluse"; HookScriptMatches "hookscript"]];
      exec_fallback := None;
      exec_undo := [ManifestRestore "settings" "claude-code:execution" false;
                    ManifestRestore "hookscript" "claude-code:execution" true] |};
    tool := Some {|
      tool_mechanisms := [Profile.ToolMcpWrapping];
      tool_mcp := [McpConfigure.mkSource "user_config" ["mcpServers"] false;
                   McpConfigure.mkSource "user_config" ["projects"; "*"; "mcpServers"] true;
                   McpConfigure.mkSource "project_mcp" ["mcpServers"] false];
      exclude_tools := None;
      tool_configure := [RouteMcp; McpDerivedDenies "settings"];
      tool_undo := [UndoMcp] |};
    model_routing := Some {|
      kind := Env;
      routing_mechanisms := [Profile.BurnEnvVarProxy];
      routing_env := Some (mkEnvRouting
        ["ANTHROPIC_BASE_URL"; "ANTHROPIC_BEDROCK_BASE_URL"; "ANTHROPIC_VERTEX_BASE_URL";
         "ANTHROPIC_FOUNDRY_BASE_URL"; "ANTHROPIC_BEDROCK_MANTLE_BASE_URL"]
        [("CLAUDE_CODE_SKIP_BEDROCK_AUTH", "1"); ("CLAUDE_CODE_SKIP_VERTEX_AUTH", "1")]
        "ANTHROPIC_CUSTOM_HEADERS" (of_bytes [newline]));
      routing_configure := [];
      routing_probe := [EnvPointsKyrisd "ANTHROPIC_BASE_URL"];
      routing_undo := [DeleteEnvFile] |} |};
  attribution := [Profile.AttrKyrisPathShim; Profile.AttrNativeHookPayload; Profile.AttrProcessLineage];
  agentpact_native_attribution := false;
  launch_dir := Some "CLAUDE_PROJECT_DIR";
  delegate := None;
  hook_protocol := Some (Hook.mkProtocol "tool_name" ["tool_input"; "input"]
    [Hook.mkToolMapping "Bash" "execute" (Some "command");
     Hook.mkToolMapping "bash" "execute" (Some "command");
     Hook.mkToolMapping "Read" "read" (Some "file_path");
     Hook.mkToolMapping "read_file" "read" (Some "file_path");
     Hook.mkToolMapping "Write" "write" (Some "file_path");
     Hook.mkToolMapping "write_file" "write" (Some "file_path");
     Hook.mkToolMapping "Edit" "write" (Some "file_path");
     Hook.mkToolMapping "edit_file" "write" (Some "file_path");
     Hook.mkToolMapping "NotebookEdit" "write" (Some "notebook_path");
     Hook.mkToolMapping "PowerShell" "execute" (Some "command")]
    ["AskUserQuestion"; "TodoWrite"; "ExitPlanMode"; "EnterPlanMode"; "Task"; "Agent"; "Glob"; "Grep";
     "LSP"; "BashOutput"; "KillShell"; "ToolSearch"; "Skill"; "Monitor"; "ScheduleWakeup"; "TaskCreate";
     "TaskGet"; "TaskList"; "TaskUpdate"; "TaskOutput"; "TaskStop"]
    ["WebFetch"; "WebSearch"; "SendMessage"; "SlashCommand"; "EnterWorktree"; "ExitWorktree";
     "CronCreate"; "CronDelete"; "CronList"; "PushNotification"; "RemoteTrigger"]
    "call"
    (Hook.AllowJson (JObject [("hookSpecificOutput", JObject
       [("hookEventName", JString "PreToolUse"); ("permissionDecision", JString "allow");
        ("permissionDecisionReason", JString "approved by AgentPact policy")])]))
    (Hook.mkRuntime 600 Hook.FailOpenPosture true true)
    None None
    (Some (Hook.NativePrompt (JObject [("hookSpecificOutput", JObject
       [("hookEventName", JString "PreToolUse"); ("permissionDecision", JString "ask");
        ("permissionDecisionReason", JString "AgentPact policy requires your confirmation")])]))));
  markers := ["agentpact_pretooluse"; "kyris-mcp"];
  settings := [approval_prompt];
  live_query := false |}.

Definition GEMINI_CLI : AgentManifest := document "google/gemini-cli" {|
  detect := mkDetect ["gemini"] ["user_settings"];
  config_files :=
    [("hookscript", static_json "~/.gemini/hooks/agentpact_beforetool.sh");
     ("policy", static_json "~/.gemini/policies/agentpact.toml");
     ("user_settings", static_json "~/.gemini/settings.json");
     ("workspace_settings", mkFile (WalkUpOptional [".gemini/settings.json"]) Configure.Json)];
  surfaces := {|
    execution := Some {|
      exec_mechanisms := [Profile.ExecLiveHookAdapter; Profile.ExecCompiledPolicy];
      exec_configure :=
        [InstallHook "hookscript" "user_settings" ["BeforeTool"] true (Some 600000%Z);
         WriteCompiledPolicy "policy";
         RemoveLegacyHook "workspace_settings" "BeforeTool" "agentpact_beforetool"];
      exec_probe := [ContainsMarker "user_settings" "agentpact_beforetool";
                     ContainsMarker "workspace_settings" "agentpact_beforetool"];
      exec_fallback := Some (mkFallback [CompiledPolicyLoadable "policy"] Profile.ExecCompiledPolicy
                               (Some Profile.CeilingCompiled));
      exec_undo := [RestoreComponent "gemini-cli:execution"; DeleteFile "hookscript";
                    DeleteFile "policy"] |};
    tool := Some {|
      tool_mechanisms := [Profile.ToolMcpWrapping];
      tool_mcp := [McpConfigure.mkSource "user_settings" ["mcpServers"] false;
                   McpConfigure.mkSource "workspace_settings" ["mcpServers"] false];
      exclude_tools := Some ["mcpServers"];
      tool_configure := [RouteMcp];
      tool_undo := [UndoMcp] |};
    model_routing := Some {|
      kind := Env;
      routing_mechanisms := [Profile.BurnEnvVarProxy];
      routing_env := Some (mkEnvRouting ["GOOGLE_GEMINI_BASE_URL"; "GOOGLE_VERTEX_BASE_URL"] []
        "GEMINI_CLI_CUSTOM_HEADERS" ", ");
      routing_configure :=
        [EnsureRoutableAuth "user_settings";
         SetSettingFromInput "user_settings" ["model"; "maxSessionTurns"] "maxSessionTurns"];
      routing_probe :=
        [All [EnvPointsKyrisd "GOOGLE_GEMINI_BASE_URL";
              AuthRoutable "user_settings" (Some "workspace_settings")]];
      routing_undo := [RestoreComponent "gemini-cli:burn-control"; DeleteEnvFile] |} |};
  attribution := [Profile.AttrKyrisPathShim; Profile.AttrNativeHookPayload; Profile.AttrProcessLineage];
  agentpact_native_attribution := false;
  launch_dir := Some "GEMINI_PROJECT_DIR";
  delegate := None;
  hook_protocol := Some (Hook.mkProtocol "tool_name" ["tool_input"]
    [Hook.mkToolMapping "run_shell_command" "execute" (Some "command");
     Hook.mkToolMapping "read_file" "read" (Some "file_path");
     Hook.mkToolMapping "write_file" "write" (Some "file_path");
     Hook.mkToolMapping "replace" "write" (Some "file_path")]
    ["glob"; "grep_search"; "search_file_content"; "list_directory"; "google_web_search"; "update_topic";
     "read_mcp_resource"; "list_mcp_resources"; "tracker_create_task"; "tracker_update_task";
     "tracker_get_task"; "tracker_list_tasks"; "tracker_add_dependency"; "tracker_visualize";
     "write_todos"; "list_background_processes"; "read_background_output"; "invoke_agent";
     "complete_task"; "get_internal_docs"]
    ["web_fetch"; "activate_skill"; "read_many_files"; "ask_user"; "enter_plan_mode"; "exit_plan_mode"]
    "call" (Hook.AllowJson (JObject [("decision", JString "allow")]))
    (Hook.mkRuntime 600 Hook.FailOpenPosture true false)
    None None
    (Some (Hook.NativePrompt (JObject [("decision", JString "ask");
       ("reason", JString "AgentPact policy requires your confirmation")]))));
  markers := ["agentpact_beforetool"; "kyris-mcp"; "Generated by Kyris"];
  settings :=
    [mkSetting "maxSessionTurns" "Max agent turns per session (writes model.maxSessionTurns to settings.json; 0 or below means unlimited)";
     approval_prompt];
  live_query := false |}.

Definition CODEX_CLI : AgentManifest := document "openai/codex-cli" {|
  detect := mkDetect ["codex"] ["config"];
  config_files :=
    [("config", mkFile (EnvRooted "CODEX_HOME" "config.toml" "~/.codex/config.toml") Configure.Toml)];
  surfaces := {|
    execution := Some (mkExecution [Profile.ExecLiveHookAdapter; Profile.ExecCompiledPolicy] [] [] None []);
    tool := Some (mkTool [Profile.ToolMcpWrapping]
                    [McpConfigure.mkSource "config" ["mcp_servers"] false] None [] []);
    model_routing :=
      Some (mkModelRouting ProviderTable [Profile.BurnKyrisdModelProvider] None [] [] []) |};
  attribution := [Profile.AttrKyrisPathShim; Profile.AttrShellEnvironmentPolicy;
                  Profile.AttrNativeHookPayload; Profile.AttrPeerProcessObserved];
  agentpact_native_attribution := false;
  launch_dir := None;
  delegate := Some "codex-cli";
  hook_protocol := Some (Hook.mkProtocol "tool_name" ["tool_input"]
    [Hook.mkToolMapping "Bash" "execute" (Some "command");
     Hook.mkToolMapping "apply_patch" "apply_patch" (Some "command")]
    ["update_plan"; "view_image"; "spawn_agent"; "wait_agent"; "close_agent"; "followup_task";
     "list_agents"; "request_user_input"; "tool_search"; "list_mcp_resources";
     "list_mcp_resource_templates"; "read_mcp_resource"; "list_available_plugins_to_install"]
    ["request_permissions"; "request_plugin_install"; "send_message"; "spawn_agents_on_csv";
     "report_agent_job_result"]
    "call" Hook.EmptyStdout (Hook.mkRuntime 604800 Hook.FailOpenPosture true false)
    (Some (JObject [("hookSpecificOutput",
       JObject [("hookEventName", JString "PermissionRequest");
                ("decision", JObject [("behavior", JString "allow")])])]))
    None (Some Hook.DeferToNativeApproval));
  markers := ["kyris-mcp"; "kyris_pretooluse"; "KYRIS_GOVERNED_SUBPROCESS";
              Launch.dq "model_provider = ~kyris~"; "[model_providers.kyris]"];
  settings := [approval_prompt];
  live_query := false |}.

Definition for_agent (id : string) : option AgentManifest :=
  if String.eqb id "cline" then Some CLINE
  else if String.eqb id "opencode" then Some OPENCODE
  else if String.eqb id "claude-code" then Some CLAUDE_CODE
  else if String.eqb id "gemini-cli" then Some GEMINI_CLI
  else if String.eqb id "codex-cli" then Some CODEX_CLI
  else None.
(** ** The documents are consistent *)

Definition lookup_file (name : string) (profile : AdaptationProfile) : option ConfigFile :=
  snd <$> List.find (fun f => String.eqb f.1 name) (config_files profile).

(** The files that an operation, a rule, an undo or a declared file names. *)
Definition op_files (op : ConfigureOp) : list string :=
  match op with
  | InstallFile _ dest _ | WriteCompiledPolicy dest => [dest]
  | SetKey file _ _ | RequireWritable file | SetGovernedPermissions file | StripKyrisApikey file _
  | McpDerivedDenies file | EnsureRoutableAuth file | SetSettingFromInput file _ _
  | RemoveLegacyHook file _ _ => [file]
  | InstallPlugin dest register_in => [dest; register_in]
  | InstallHook script register_in _ _ _ => [script; register_in]
  | RouteMcp => []
  end.

Fixpoint rule_files (rule : ProbeRule) : list string :=
  match rule with
  | FileExists file | ContainsMarker file _ | KeyEqualsKyrisd file _ _ | ArrayContains file _ _
  | CompiledPolicyLoadable file | HookScriptMatches file => [file]
  | AuthRoutable file alt_file => file :: match alt_file with Some f => [f] | None => [] end
  | All rules => flat_map rule_files rules
  | McpWrap | EnvPointsKyrisd _ => []
  end.

Definition undo_files (op : UndoOp) : list string :=
  match op with ManifestRestore file _ _ | DeleteFile file => [file] | _ => [] end.

Definition discovery_files (cf : ConfigFile) : list string :=
  match discovery cf with SiblingOf file _ => [file] | _ => [] end.

(** The surfaces of a profile: their name, and what configures, probes and undoes them. *)
Definition surface_lists (p : AdaptationProfile)
    : list (string * list ConfigureOp * list ProbeRule * list UndoOp) :=
  match execution (surfaces p) with
  | Some s => [("execution", exec_configure s,
                exec_probe s ++ match exec_fallback s with Some f => fallback_probe f | None => [] end,
                exec_undo s)]
  | None => []
  end
  ++ match tool (surfaces p) with
     | Some s => [("tool", tool_configure s, [], tool_undo s)]
     | None => []
     end
  ++ match model_routing (surfaces p) with
     | Some s => [("burn-control", routing_configure s, routing_probe s, routing_undo s)]
     | None => []
     end.

Definition named_files (p : AdaptationProfile) : list string :=
  config_paths (detect p) ++ flat_map (fun f => discovery_files f.2) (config_files p)
  ++ match tool (surfaces p) with
     | Some s => (McpConfigure.source_config <$> tool_mcp s)
     | None => []
     end
  ++ flat_map (fun '(_, configure, probe, undo) =>
       flat_map op_files configure ++ flat_map rule_files probe ++ flat_map undo_files undo)
       (surface_lists p).

(** Undoing a surface restores what the manifest holds of a file an operation names, under
    the component the operations wrote it. *)
Definition undoes (id surface : string) (undo : list UndoOp) (file : string) : bool :=
  existsb (fun op =>
    match op with
    | ManifestRestore f scope _ => String.eqb f file && String.eqb scope (id ++ ":" ++ surface)
    | RestoreComponent scope => String.eqb scope (id ++ ":" ++ surface)
    | UndoMcp => String.eqb surface "tool"
    | DeleteEnvFile | DeleteFile _ => false
    end) undo.

(** Every legacy hook is removed after the hook of the run is installed. *)
Fixpoint installs_first (ops : list ConfigureOp) : bool :=
  match ops with
  | [] => true
  | RemoveLegacyHook _ _ _ :: ops =>
      negb (existsb (fun op => match op with InstallHook _ _ _ _ _ => true | _ => false end) ops)
      && installs_first ops
  | _ :: ops => installs_first ops
  end.

(** [require_writable] writes nothing. *)
Definition writes_file (op : ConfigureOp) : list string :=
  match op with RequireWritable _ => [] | op => op_files op end.

Definition consistent (id : string) (p : AdaptationProfile) : bool :=
  forallb (fun name => bool_decide (is_Some (lookup_file name p))) (named_files p)
  && forallb (fun '(surface, configure, _, undo) =>
       forallb (undoes id surface undo) (flat_map writes_file configure) && installs_first configure)
       (surface_lists p)
  && match execution (surfaces p), tool (surfaces p), model_routing (surfaces p) with
     | Some e, Some t, Some r =>
         negb (bool_decide (exec_mechanisms e = [])) && negb (bool_decide (tool_mechanisms t = []))
         && negb (bool_decide (routing_mechanisms r = []))
     | _, _, _ => false
     end
  && match hook_protocol p with
     | Some hp =>
         let r := Hook.runtime hp in
         ((0 <? Hook.poll_deadline_of r)
          && (Hook.poll_deadline_of r <? Hook.bridge_spawn_timeout_ms r)
          && (Hook.bridge_spawn_timeout_ms r <? Hook.agent_hook_timeout_secs r * 1000))%Z
     | None => false
     end.

#[export] Instance burn_eq : EqDecision Profile.BurnControlMechanism.
Proof. solve_decision. Defined.
#[export] Instance exec_eq : EqDecision Profile.ExecutionMechanism.
Proof. solve_decision. Defined.
#[export] Instance toolm_eq : EqDecision Profile.ToolMechanism.
Proof. solve_decision. Defined.

(** Every agent of the registry has a document that passes the gate for its canonical
    id, and the document is consistent: every file that is named is declared; every file
    that configuring a surface writes is restored by its undo, under the component the
    writes are recorded with; a legacy hook is removed only after the hook of the run is
    there; each of the three surfaces has a mechanism for the probe to report; and the
    bridge of its hook is killed after kyris stops polling and before the agent stops
    waiting. *)
Theorem documents_consistent id :
  id ∈ Launch.AGENT_IDS ->
  exists m p, for_agent id = Some m /\ adaptation m = Some p /\
    (forall show, parse_and_validate (fun _ => Ok m) show [] (Launch.canonical_agent_id id) = Ok m) /\
    consistent id p = true.
Proof.
  unfold Launch.AGENT_IDS. intros Hid.
  repeat (apply elem_of_cons in Hid as [->|Hid];
    [do 2 eexists; split_and!; [reflexivity|reflexivity|intros; vm_compute; reflexivity|
                                vm_compute; reflexivity]|]).
  by apply elem_of_nil in Hid.
Qed.

(** Only a document of the agent that was asked passes, in a version that is understood. *)
Theorem gate_fails_closed from_str show doc expected m :
  parse_and_validate from_str show doc expected = Ok m ->
  from_str doc = Ok m /\ agent m = expected /\ api_version m = "agentpact/v1" /\
  (protocol_version m <= SUPPORTED_PROTOCOL_VERSION)%Z.
Proof.
  unfold parse_and_validate. destruct (from_str doc) as [m'|]; [|done].
  destruct (String.eqb_spec (api_version m') "agentpact/v1"); [|done].
  destruct (String.eqb_spec (manifest_kind m') "AgentCapabilities"); [|done]. cbn [negb].
  destruct (Z.ltb_spec SUPPORTED_PROTOCOL_VERSION (protocol_version m')); [done|].
  destruct (String.eqb_spec (agent m') expected); [|done]. by intros [= ->].
Qed.

Module Sample.
Lemma documents_consistent_witness :
  exists m p, for_agent "gemini-cli" = Some m /\ adaptation m = Some p /\
    (forall show, parse_and_validate (fun _ => Ok m) show [] "google/gemini-cli" = Ok m) /\
    consistent "gemini-cli" p = true.
Proof. apply (documents_consistent "gemini-cli"). vm_decided. Defined.
End Sample.
End Adaptation.
