(* ===== verification/Bridges.v ===== *)
(** * The bridges installed in agents

    The scripts of [cli/src/agents/templates.rs] and of [configure/hooks.rs] that ask
    [kyris hook check], with [~] for the double quote, which they do not hold. *)

From stdpp Require Import pretty.
From S2P Require Import Prelude Text Configure Launch.

Module Bridges.
Local Open Scope string_scope.

Definition CLINE_PRETOOLUSE : string := Launch.dq
"// SPDX-FileCopyrightText: Copyright 2026 Kyris
// SPDX-License-Identifier: Apache-2.0
// Generated by Kyris — AgentPact live governance for cline (file-hook bridge).
// cline runs this on every tool call (PreToolUse -> tool_call), blocking. It
// reshapes cline's payload into the kyris hook payload, asks the shared decision
// engine (kyris hook check -> agentpactd), and blocks the tool by emitting a
// {cancel:true} control object when governance denies.
const { spawnSync } = require(~node:child_process~)
const { existsSync } = require(~node:fs~)
const { homedir } = require(~node:os~)

// Prefer the managed copy, then well-known install paths, then PATH — mirrors the
// shell adapter's resolution (a real binary at a known path over whatever PATH is).
function kyrisBin() {
  for (const c of [
    homedir() + ~/.kyris/bin/kyris~,
    homedir() + ~/.local/bin/kyris~,
    ~/opt/homebrew/bin/kyris~,
    ~/usr/local/bin/kyris~,
  ]) {
    if (existsSync(c)) return c
  }
  return ~kyris~
}

// cline runtime tool name -> the detail kyris governs (command for execute,
// path for write, patch text for apply_patch). cline accepts MANY run_commands
// shapes (schemas.ts RunCommands/StructuredCommands unions): commands as a
// string[] or string, command/cmd singletons, a bare string or string[], and
// structured {command,args} entries (Windows). Normalize all of them to one
// compound line so agentpactd splits it into per-segment decisions; an
// unrecognized shape yields ~~ (empty detail → governed as an empty execute,
// never silently skipped).
function oneCommand(c) {
  if (typeof c === ~string~) return c
  if (c && typeof c === ~object~ && typeof c.command === ~string~) {
    return Array.isArray(c.args) && c.args.length ? c.command + ~ ~ + c.args.join(~ ~) : c.command
  }
  return ~~
}
function detailFor(name, input) {
  // apply_patch: bare patch string or {input: patchString}.
  if (name === ~apply_patch~) {
    if (typeof input === ~string~) return input
    return input && typeof input.input === ~string~ ? input.input : ~~
  }
  if (name === ~run_commands~) {
    if (typeof input === ~string~) return input
    if (Array.isArray(input)) return input.map(oneCommand).filter(Boolean).join(~ && ~)
    const i = input || {}
    const list = i.commands ?? i.command ?? i.cmd
    if (Array.isArray(list)) return list.map(oneCommand).filter(Boolean).join(~ && ~)
    return oneCommand(list)
  }
  const i = input || {}
  if (name === ~editor~) return typeof i.path === ~string~ ? i.path : ~~
  return ~~
}

let raw = ~~
process.stdin.on(~data~, (d) => { raw += d })
process.stdin.on(~end~, () => {
  let p = {}
  try { p = JSON.parse(raw) } catch { p = {} }
  const tc = p.tool_call || {}
  // cwd is the permitted-domain anchor agentpactd resolves policy from; cline has
  // no top-level cwd, so use the first workspace root.
  const cwd = (Array.isArray(p.workspaceRoots) && p.workspaceRoots[0]) ||
    (p.workspaceInfo && p.workspaceInfo.rootPath) || process.cwd()
  const payload = JSON.stringify({
    tool_name: tc.name,
    tool_input: { detail: detailFor(tc.name, tc.input) },
    cwd,
  })
  const res = spawnSync(kyrisBin(), [~hook~, ~check~, ~--agent~, ~cline~], {
    input: payload,
    cwd,
    encoding: ~utf8~,
    timeout: __SPAWN_TIMEOUT_MS__,
    env: { ...process.env, KYRIS_GOVERNED_SUBPROCESS: ~cline~ },
  })
  // A hung engine fails CLOSED: cline kills this hook shortly after and then
  // RUNS the command (fail-open, 120s), so an unresolved check must become a
  // deny while we can still deliver one. Only a missing/unrunnable binary fails
  // open (~kyris not installed -> ungoverned~, matching the shell adapter).
  if (res.error && res.error.code === ~ETIMEDOUT~) {
    process.stdout.write(JSON.stringify({ cancel: true, errorMessage: ~kyris governance check timed out before a decision~ }))
    return
  }
  if (res.error) { process.stdout.write(~{}~); return }
  // exit 0 = allow; nonzero (2 = deny). cline reads the JSON control object
  // from stdout (not the exit code). `{cancel:true}` STOPS the agent run
  // (cline maps it to ControlledStopError — it does not gracefully skip just
  // this tool, and it drops `errorMessage`, so the model is not told why).
  // Heavier than a per-tool deny, but safe: nothing ungoverned runs. The
  // errorMessage is kept anyway for the cline-side log / future versions.
  if (res.status !== 0) {
    const reason = (res.stderr || res.stdout || ~~).trim().replace(/^\[agentpact\]\s*/, ~~)
    process.stdout.write(JSON.stringify({ cancel: true, errorMessage: reason || ~blocked by kyris governance~ }))
  } else {
    process.stdout.write(~{}~)
  }
})
".

Definition bridge_template (name : string) : option string :=
  if String.eqb name "cline_pretooluse" then Some CLINE_PRETOOLUSE else None.

Definition plugin_hook_template : string := Launch.dq
"// SPDX-FileCopyrightText: Copyright 2026 Kyris
// SPDX-License-Identifier: Apache-2.0
// Generated by Kyris — AgentPact live governance for __AGENT_ID__.
// On every tool call, ask `kyris hook check` (→ agentpactd) for a decision and
// block the tool (throw) when governance denies it. This is the plugin-delivery
// twin of the native shell-hook adapter; the decision engine is shared.
//
// The check runs via ASYNC spawn (not spawnSync): this plugin runs INSIDE the
// long-lived opencode server process, so a synchronous wait during a kyris
// approval hold would freeze every session, the HTTP API, and abort delivery
// for the whole hold window. The hook is awaited, so the event loop stays free.
import { spawn } from ~node:child_process~
import { existsSync } from ~node:fs~
import { homedir } from ~node:os~

// Prefer the managed copy, then well-known absolute install paths, then PATH —
// mirrors the shell adapter's resolution (a real binary at a known path is
// preferred to whatever PATH resolves to).
function kyrisBin() {
  for (const candidate of [
    homedir() + ~/.kyris/bin/kyris~,
    homedir() + ~/.local/bin/kyris~,
    ~/opt/homebrew/bin/kyris~,
    ~/usr/local/bin/kyris~,
  ]) {
    if (existsSync(candidate)) return candidate
  }
  return ~kyris~
}

const KYRIS_BIN = kyrisBin()

// Resolve to {status} on a clean exit, {timedOut} if the engine outran the
// deadline (we SIGKILL it), or {error} if the binary could not run at all.
function runKyrisCheck(payload, cwd) {
  return new Promise((resolve) => {
    let child
    try {
      child = spawn(KYRIS_BIN, [~hook~, ~check~, ~--agent~, ~__AGENT_ID__~], {
        cwd,
        env: { ...process.env, KYRIS_GOVERNED_SUBPROCESS: ~__AGENT_ID__~ },
      })
    } catch (e) {
      resolve({ error: e })
      return
    }
    let stdout = ~~, stderr = ~~, settled = false
    const finish = (r) => { if (!settled) { settled = true; clearTimeout(timer); resolve(r) } }
    const timer = setTimeout(() => { try { child.kill(~SIGKILL~) } catch {} finish({ timedOut: true }) }, __SPAWN_TIMEOUT_MS__)
    child.on(~error~, (e) => finish({ error: e })) // ENOENT etc. (fires async)
    child.stdout.on(~data~, (d) => { stdout += d })
    child.stderr.on(~data~, (d) => { stderr += d })
    child.on(~close~, (status) => finish({ status, stdout, stderr }))
    // A write to a dead child surfaces an ASYNC 'error' on the stdin stream that
    // a try/catch cannot catch; without this handler it would throw inside the
    // opencode server event loop. Fail open (a dead child → not-installed).
    child.stdin.on(~error~, (e) => finish({ error: e }))
    try { child.stdin.write(payload); child.stdin.end() } catch (e) { finish({ error: e }) }
  })
}

export const KyrisGovernance = async (input) => {
  // `cwd` is the permitted-domain anchor agentpactd resolves policy from
  // (opencode has no launch-dir env var, so it must ride in the payload). It
  // lives on the plugin-factory input (PluginInput.directory), NOT the per-hook
  // input.
  const cwd = input.directory
  return {
    ~tool.execute.before~: async (inp, out) => {
      const payload = JSON.stringify({ tool_name: inp.tool, tool_input: out?.args ?? {}, cwd })
      const res = await runKyrisCheck(payload, cwd)
      // A hung engine fails CLOSED: this agent has no native permission backstop
      // behind the plugin, so an unresolved check must become a deny, not a
      // silent allow. Only a missing/unrunnable binary fails open (~kyris not
      // installed → ungoverned~, matching the shell adapter).
      if (res.timedOut) throw new Error(~kyris governance check timed out before a decision~)
      if (res.error) return
      // exit 0 = allow; nonzero (2 = deny) blocks this one tool call. The reason
      // arrives on stderr as ~[agentpact] <reason>~.
      if (res.status !== 0) {
        const reason = (res.stderr || res.stdout || ~~).trim().replace(/^\[agentpact\]\s*/, ~~)
        throw new Error(reason || ~blocked by kyris governance~)
      }
    },
  }
}
".

(** The timeout is that of the agent's hook protocol, if it declares one. *)
Definition plugin_hook_source (agent_id : string) (spawn_timeout_ms : option Z) : result string string :=
  match spawn_timeout_ms with
  | None => Err (agent_id ++ " declares no hook protocol — cannot derive the plugin spawn timeout")
  | Some ms =>
      Ok (Configure.str_replace "__SPAWN_TIMEOUT_MS__" (pretty (Z.to_N ms))
           (Configure.str_replace "__AGENT_ID__" agent_id plugin_hook_template))
  end.
End Bridges.
