(* ===== verification/Commands.v ===== *)
(** * What commands leave alone

    Lemmas on the commands of [Manifest] and on setting values by path, for the files that
    compose them: a command that succeeds, the files it does not touch, what a write leaves,
    what a file reads back as after its keys are set. *)

From S2P Require Import Prelude Text Toml TomlPatch Json JsonPatch JsonEdit Manifest Configure McpRouting McpConfigure.

Module Commands.
Import JsonPatch JsonEdit Manifest.
Local Open Scope string_scope.
Local Open Scope list_scope.

(** ** Commands that succeed, and what they leave alone *)

Section commands.
Context {T : TomlFloat}.

Lemma bind_Ok {A B} (m : cmd A) (f : A -> cmd B) d b d' :
  (x ← m; f x) d = (Ok b, d') -> exists a d1, m d = (Ok a, d1) /\ f a d1 = (Ok b, d').
Proof. unfold mbind, cmd_bind. destruct (m d) as [[a|e] d1]; [eauto|done]. Qed.

(** Whatever comes of the command, the files in [P] are as before. *)
Definition keeps {A} (P : string -> Prop) (m : cmd A) : Prop :=
  forall d r d' q, m d = (r, d') -> P q -> files d' !! q = files d !! q.

Lemma keeps_bind {A B} P (m : cmd A) (f : A -> cmd B) :
  keeps P m -> (forall a, keeps P (f a)) -> keeps P (x ← m; f x).
Proof.
  intros Hm Hf d r d' q E Hq. unfold mbind, cmd_bind in E.
  destruct (m d) as [[a|e] d1] eqn:E1.
  - rewrite (Hf a d1 r d' q E Hq). by apply (Hm _ _ _ _ E1).
  - injection E as <- <-. by apply (Hm _ _ _ _ E1).
Qed.

Lemma keeps_unchanged {A} P (m : cmd A) : (forall d, files (m d).2 = files d) -> keeps P m.
Proof. intros Hm d r d' q E _. specialize (Hm d). rewrite E in Hm. cbn in Hm. by rewrite Hm. Qed.

Lemma keeps_lift {A} P context (r : result A string) : keeps P (lift context r).
Proof. by apply keeps_unchanged; destruct r. Qed.

Lemma keeps_write P p contents : (forall q, P q -> q <> p) -> keeps P (write_file p contents).
Proof. intros Hp d r d' q [= <- <-] Hq. cbn. by rewrite lookup_insert_ne by (symmetry; by apply Hp). Qed.

Lemma keeps_remove P p : (forall q, P q -> q <> p) -> keeps P (remove_if_exists p).
Proof. intros Hp d r d' q [= <- <-] Hq. cbn. by rewrite lookup_delete_ne by (symmetry; by apply Hp). Qed.
End commands.

Ltac keep :=
  repeat match goal with
  | |- keeps _ (mbind _ _) => apply keeps_bind; [|intros ?]
  | |- keeps _ (lift _ _) => apply keeps_lift
  | |- keeps _ (mret _) => by apply keeps_unchanged
  | |- keeps _ (throw _) => by apply keeps_unchanged
  | |- keeps _ (read_if_exists _) => by apply keeps_unchanged
  | |- keeps _ load_manifest => by apply keeps_unchanged
  | |- keeps _ now_rfc3339 => by apply keeps_unchanged
  | |- keeps _ (save_manifest _) => by apply keeps_unchanged
  | |- keeps _ remove_manifest => by apply keeps_unchanged
  | |- keeps _ (if ?b then _ else _) => destruct b
  | |- keeps _ (match ?x with _ => _ end) => destruct x
  | |- keeps _ (let '(_, _) := ?x in _) => destruct x
  | |- keeps _ (write_file _ _) => by apply keeps_write
  | |- keeps _ (remove_if_exists _) => by apply keeps_remove
  end.

Section frames.
Context {T : TomlFloat} {serde : SerdeText} {feq : FloatEq}.
Context (P : string -> Prop) (p : string) (Hp : forall q, P q -> q <> p).

Lemma keeps_write_managed contents c validate : keeps P (write_managed_file p contents c validate).
Proof using Hp. unfold write_managed_file, record_manifest_if_absent. keep. Qed.

Lemma keeps_write_json v c : keeps P (write_json_value p v c).
Proof using Hp.
  unfold write_json_value, read_json_value, write_managed_json, record_managed_json_edit. keep.
Qed.

Lemma keeps_unapply e : path e = p -> keeps P (unapply_entry e).
Proof using Hp.
  intros <-. unfold unapply_entry, remove_lines, unapply_json_file, unapply_toml_file,
    remove_empty_created_json_file, remove_empty_created_toml_file. keep.
Qed.
End frames.

(** ** What commands may write *)

(** What a command may change: whatever comes of it, a file is as it was or holds contents
    that [W] allows for it. *)
Definition changes {T : TomlFloat} {A} (W : string -> bytes -> Prop) (m : cmd A) : Prop :=
  forall d r d' p, m d = (r, d') ->
    files d' !! p = files d !! p \/ exists contents, files d' !! p = Some contents /\ W p contents.

Section changing.
Context {T : TomlFloat} {A B : Type} (W : string -> bytes -> Prop).

Lemma changes_bind (m : cmd A) (f : A -> cmd B) :
  changes W m -> (forall a d d', m d = (Ok a, d') -> changes W (f a)) -> changes W (x ← m; f x).
Proof.
  intros Hm Hf d r d' p E. unfold mbind, cmd_bind in E. destruct (m d) as [[a|e] d1] eqn:E1.
  - destruct (Hf _ _ _ E1 d1 r d' p E) as [->|?]; [by apply (Hm _ _ _ p E1)|by right].
  - injection E as <- <-. by apply (Hm _ _ _ p E1).
Qed.

Lemma changes_unchanged (m : cmd A) : (forall d, files (m d).2 = files d) -> changes W m.
Proof. intros Hm d r d' p E. left. specialize (Hm d). rewrite E in Hm. cbn in Hm. by rewrite Hm. Qed.

Lemma changes_lift context (r : result A string) : changes W (lift context r).
Proof. by apply changes_unchanged; destruct r. Qed.

Lemma lift_Ok context (r : result A string) a d d' : lift context r d = (Ok a, d') -> r = Ok a /\ d' = d.
Proof. destruct r; [|done]. by intros [= -> ->]. Qed.
End changing.

Lemma changes_weaken {T : TomlFloat} {A} (W W' : string -> bytes -> Prop) (m : cmd A) :
  (forall p contents, W p contents -> W' p contents) -> changes W m -> changes W' m.
Proof. intros HW Hm d r d' p E. destruct (Hm _ _ _ p E) as [?|(c & ? & ?)]; [by left|right; eauto]. Qed.

Lemma changes_managed {T : TomlFloat} (W : string -> bytes -> Prop) p contents c validate :
  W p contents -> changes W (write_managed_file p contents c validate).
Proof.
  intros HW d r d' q E. unfold write_managed_file, record_manifest_if_absent in E.
  destruct (decide (q = p)) as [->|Hq].
  - unfold mbind, cmd_bind, read_if_exists, load_manifest, now_rfc3339 in E. cbn in E.
    destruct (bool_decide (files d !! p = Some contents)).
    + left. destruct (existsb _ _); injection E as <- <-; done.
    + destruct (validate contents); [|injection E as <- <-; by left]. cbn in E.
      right. exists contents. destruct (existsb _ _); injection E as <- <-; cbn; by rewrite lookup_insert_eq.
  - left. assert (keeps (fun q => q <> p) (write_managed_file p contents c validate)) as Hk
      by (by apply keeps_write_managed).
    by apply (Hk d r d' q E).
Qed.

(** A write of JSON that succeeds leaves the printed value. *)
Lemma write_json_files {T : TomlFloat} {serde : SerdeText} {feq : FloatEq} p v c d b d' :
  write_json_value p v c d = (Ok b, d') -> files d' !! p = Some (serialized v).
Proof.
  assert (forall old new ex c d1 d2, record_managed_json_edit p old new ex c d1 = (Ok tt, d2) ->
    files d2 = files d1) as Hrec.
  { intros old new ex c' d1 d2. unfold record_managed_json_edit, load_manifest, now_rfc3339, save_manifest.
    unfold mbind, cmd_bind. destruct (find_entry _ _) as [[i e]|]; [|by intros [= <-]].
    destruct (action e); [by intros [= <-]|done| |done].
    destruct (unapply old ops). by intros [= <-]. }
  intros H. unfold write_json_value in H.
  apply bind_Ok in H as (? & d1 & _ & H). apply bind_Ok in H as (? & d2 & _ & H).
  apply bind_Ok in H as (old & d3 & _ & H). unfold write_managed_json in H.
  apply bind_Ok in H as (ex & d4 & Hx & H). injection Hx as <- <-.
  destruct (bool_decide_reflect (files d3 !! p = Some (serialized v))) as [Hf|Hf].
  - apply bind_Ok in H as ([] & d5 & H5 & H). injection H as _ <-. by rewrite (Hrec _ _ _ _ _ _ H5).
  - apply bind_Ok in H as ([] & d5 & H5 & H). injection H5 as <-.
    apply bind_Ok in H as ([] & d6 & H6 & H). injection H as _ <-.
    rewrite (Hrec _ _ _ _ _ _ H6). cbn. apply lookup_insert_eq.
Qed.


(** ** Keys set by path *)

Section lens.
Context {feq : FloatEq}.

Lemma value_at_cons root key path :
  value_at root (key :: path) = obj_get key (as_json_object root) ≫= fun v => value_at v path.
Proof. by destruct root. Qed.

Lemma incomparable_cons key p q : incomparable (key :: p) (key :: q) -> incomparable p q.
Proof. intros [H1 H2]. split; intros H; [apply H1|apply H2]; by apply prefix_cons. Qed.

(** Setting a value leaves those at other paths. *)
Lemma set_value_other root path q value :
  incomparable q path -> value_at (set_json_value_path root path value).1 q = value_at root q.
Proof.
  revert root q. induction path as [|key rest IH]; intros root q Hi; [done|].
  destruct q as [|k q]; [by destruct Hi as [[] _]; apply prefix_nil|].
  cbn [set_json_value_path]. destruct rest as [|key2 rest].
  - assert (k <> key) as Hk.
    { intros ->. destruct Hi as [_ []]. by apply prefix_cons, prefix_nil. }
    destruct (match obj_get key _ with Some v => json_eqb v value | None => false end);
      cbn [fst]; rewrite !value_at_cons; change (as_json_object (JObject ?m)) with m; [done|].
    rewrite obj_get_insert. by destruct (String.eqb_spec k key).
  - specialize (IH (entry_or key (JObject []) (as_json_object root))).
    remember (key2 :: rest) as rest' eqn:Er.
    destruct (set_json_value_path _ rest' value) as [child changed]. cbn [fst] in *.
    rewrite !value_at_cons. change (as_json_object (JObject ?m)) with m.
    rewrite obj_get_insert. destruct (String.eqb_spec k key) as [->|]; [|done].
    apply incomparable_cons in Hi. change (Some child ≫= ?f) with (f child). cbv beta.
    rewrite IH by done. unfold entry_or.
    destruct (obj_get key (as_json_object root)) as [c|]; [done|]. cbn.
    destruct q as [|k2 q]; [|done]. by destruct Hi as [[] _]; apply prefix_nil.
Qed.

Context {T : TomlFloat} {serde : SerdeText}.

Definition set_all (ctx : Configure.SubstCtx) (ops : list (list string * json)) (s : json * bool)
    : json * bool :=
  foldl (fun s op =>
    let '(config, changed) := set_json_value_path s.1 op.1 (Configure.substitute_value op.2 ctx) in
    (config, s.2 || changed)) s ops.

(** No other operation sets at, above or below the path. *)
Definition sole (path : list string) (value : json) (op : list string * json) : Prop :=
  op = (path, value) \/ incomparable path op.1.

Lemma set_all_other ctx ops path value s v :
  path <> [] -> wf (Configure.substitute_value value ctx) = true ->
  Forall (sole path value) ops ->
  value_at s.1 path = Some v -> json_eqb v (Configure.substitute_value value ctx) = true ->
  exists v', value_at (set_all ctx ops s).1 path = Some v' /\
    json_eqb v' (Configure.substitute_value value ctx) = true.
Proof.
  intros Hp Hw Hall. revert s v. induction Hall as [|op ops Hop _ IH]; intros s v Hv He; [eauto|].
  cbn [set_all foldl]. destruct Hop as [->|Hop]; cbn [fst snd].
  - pose proof (set_value_spec s.1 path _ Hw Hp) as Hs.
    destruct (set_json_value_path s.1 path _) as [config changed]. destruct Hs as ((v' & H1 & H2) & _).
    by apply (IH (config, s.2 || changed) v').
  - pose proof (set_value_other s.1 op.1 path (Configure.substitute_value op.2 ctx) Hop) as Hs.
    destruct (set_json_value_path s.1 op.1 _) as [config changed].
    apply (IH (config, s.2 || changed) v); [|done]. cbn in *. by rewrite Hs.
Qed.

Lemma set_all_sets ctx ops path value s :
  path <> [] -> wf (Configure.substitute_value value ctx) = true ->
  Forall (sole path value) ops -> (path, value) ∈ ops ->
  exists v, value_at (set_all ctx ops s).1 path = Some v /\
    json_eqb v (Configure.substitute_value value ctx) = true.
Proof.
  intros Hp Hw Hall. revert s. induction Hall as [|op ops Hop Hall IH]; intros s Hin;
    [by apply elem_of_nil in Hin|].
  apply elem_of_cons in Hin as [<-|Hin]; [|by apply IH].
  cbn [set_all foldl fst snd].
  pose proof (set_value_spec s.1 path _ Hw Hp) as Hs.
  destruct (set_json_value_path s.1 path _) as [config changed]. destruct Hs as ((v & H1 & H2) & _).
  by eapply (set_all_other ctx ops path value (config, s.2 || changed)).
Qed.

(** What reports no change has changed nothing. *)
Lemma set_all_unchanged ctx ops s :
  Forall (fun op => op.1 <> [] /\ wf (Configure.substitute_value op.2 ctx) = true) ops ->
  (set_all ctx ops s).2 = false -> (set_all ctx ops s).1 = s.1 /\ s.2 = false.
Proof.
  intros Hall. revert s. induction Hall as [|op ops [Hp Hw] _ IH]; intros s Hs; [done|].
  cbn [set_all foldl] in *.
  pose proof (set_value_spec s.1 op.1 _ Hw Hp) as Hspec.
  destruct (set_json_value_path s.1 op.1 _) as [config changed]. destruct Hspec as (_ & _ & Hc).
  destruct (IH _ Hs) as [H1 H2]. cbn in H1, H2. apply orb_false_iff in H2 as [H2 ->].
  fold (set_all ctx ops (config, s.2 || false)) in *. rewrite H1. by rewrite Hc.
Qed.

Lemma keeps_set_keys P p ops ctx c :
  (forall q, P q -> q <> p) -> keeps P (Configure.apply_json_set_keys p ops ctx c).
Proof.
  intros Hp. unfold Configure.apply_json_set_keys. unfold read_json_value at 1. keep.
  by apply keeps_write_json.
Qed.

(** After the keys are set, the file reads back with each value at its path. *)
Lemma set_keys_read_back p ops ctx c d msgs d' path value :
  Configure.apply_json_set_keys p ops ctx c d = (Ok msgs, d') ->
  (forall v, read_json_value p d = (Ok v, d) ->
     let w := (set_all ctx ops (v, false)).1 in from_str (serialized w) = Ok w) ->
  Forall (fun op => op.1 <> [] /\ wf (Configure.substitute_value op.2 ctx) = true) ops ->
  Forall (sole path value) ops -> (path, value) ∈ ops ->
  exists w v, read_json_value p d' = (Ok w, d') /\ value_at w path = Some v /\
    json_eqb v (Configure.substitute_value value ctx) = true.
Proof.
  intros H Hprint Hwf Hall Hin.
  assert (path <> [] /\ wf (Configure.substitute_value value ctx) = true) as [Hp Hw]
    by (rewrite Forall_forall in Hwf; by apply (Hwf _ Hin)).
  apply bind_Ok in H as (v & d1 & Hv & H).
  assert (d1 = d) as ->.
  { unfold read_json_value in Hv. apply bind_Ok in Hv as (x & d2 & [= <- <-] & Hv).
    destruct (files d !! p) as [t|]; [destruct (from_str t)|]; by injection Hv. }
  fold (set_all ctx ops (v, false)) in H. specialize (Hprint v Hv). cbv zeta in Hprint.
  destruct (set_all_sets ctx ops path value (v, false) Hp Hw Hall Hin) as (v' & Hv' & He).
  pose proof (set_all_unchanged ctx ops (v, false) Hwf) as Hsame.
  destruct (set_all ctx ops (v, false)) as [w changed]. cbn [fst snd] in *.
  exists w, v'. split; [|done]. destruct changed.
  - apply bind_Ok in H as (b & d2 & Hd2 & H). injection H as <- <-.
    apply write_json_files in Hd2. unfold read_json_value, read_if_exists. unfold mbind, cmd_bind.
    by rewrite Hd2, Hprint.
  - destruct (Hsame eq_refl) as [-> _]. by injection H as <- <-.
Qed.
End lens.

(** ** A text for every value *)

(** A printer and its parser, for examples on whole configurations. *)
Module Coded.
#[local] Existing Instance one_float.

Definition leaf : Type := string + Z + bool + unit.

Fixpoint tree (v : json) : gen_tree (leaf * nat) :=
  match v with
  | JNull => GenLeaf (inr tt, 0)
  | JBool b => GenLeaf (inl (inr b), 0)
  | JNumber n => GenLeaf (inl (inl (inr n)), 0)
  | JFloat s => GenLeaf (inl (inl (inl s)), 1)
  | JString s => GenLeaf (inl (inl (inl s)), 0)
  | JArray l => GenNode 0 (List.map tree l)
  | JObject m => GenNode 1 (flat_map (fun p => [GenLeaf (inl (inl (inl p.1)), 2); tree p.2]) m)
  end%nat.

Fixpoint untree (t : gen_tree (leaf * nat)) : json :=
  match t with
  | GenLeaf (inl (inl (inl s)), 0) => JString s
  | GenLeaf (inl (inl (inl s)), _) => JFloat s
  | GenLeaf (inl (inl (inr n)), _) => JNumber n
  | GenLeaf (inl (inr b), _) => JBool b
  | GenLeaf (inr _, _) => JNull
  | GenNode 0 l => JArray (List.map untree l)
  | GenNode _ l =>
      JObject ((fix pairs (l : list (gen_tree (leaf * nat))) : list (string * json) :=
        match l with
        | GenLeaf (inl (inl (inl k)), _) :: v :: l => (k, untree v) :: pairs l
        | _ => []
        end) l)
  end%nat.

Lemma untree_coded v : untree (tree v) = v.
Proof.
  induction v as [| | | | |l IH|m IH] using json_ind; try done; cbn [tree untree].
  - f_equal. induction IH as [|x l Hx Hl IH]; cbn; by rewrite ?Hx, ?IH.
  - f_equal. induction IH as [|[k x] m Hx Hm IH]; cbn; [done|]. cbn in Hx. by rewrite Hx, IH.
Qed.

Definition print (v : json) : bytes := McpConfigure.Sample.digits (encode (tree v)).

(** The text may end in a line feed. *)
Definition parse (b : bytes) : result json string :=
  match decode (McpConfigure.Sample.undigits (if ends_with [newline] b then removelast b else b)) with
  | Some t => Ok (untree t)
  | None => Err "not JSON"
  end.

Definition serde : SerdeText := {|
  from_str := parse;
  to_string_pretty := print;
  toml_from_str _ := Err "not TOML";
  toml_to_string_pretty _ := Err "no TOML";
  debug _ := "" |}.

Lemma coded_reads_back v : @from_str _ serde (@serialized _ serde v) = Ok v.
Proof.
  cbn. unfold parse, serialized. cbn [to_string_pretty serde].
  assert (ends_with [newline] (print v ++ [newline]) = true) as ->
    by (unfold ends_with; rewrite rev_app_distr; done).
  rewrite removelast_last. unfold print.
  by rewrite McpConfigure.Sample.undigits_digits, decode_encode, untree_coded.
Qed.
End Coded.
End Commands.
