(* ===== verification/GenericAgent.v ===== *)
(** * Agents driven by their documents

    [cli/src/agents/generic.rs] over the profiles of [Adaptation], with what it calls of
    [engine.rs], [probe.rs] and [configure/hooks.rs]: where the files of an agent are, the
    operations that configure a surface, the rules that probe it, the operations that undo
    it and the scrub of what is left.

    What only reads the disk is a function of it; the other operations are commands of
    [Manifest].  File modes and the directories made on the way are left out. *)

From stdpp Require Import pretty.
From S2P Require Import Prelude Text Toml TomlPatch Json JsonPatch JsonEdit Manifest Configure CompilePolicy McpRouting McpConfigure Hook Profile CodexCli Scrub Paths Launch Adaptation Bridges Commands.

Module GenericAgent.
Import JsonPatch JsonEdit Manifest Adaptation Commands.
Local Open Scope string_scope.
Local Open Scope list_scope.

(** The trait [AgentDescriptor], as far as the realization of the surfaces goes.  An undo
    gives what it prints. *)
Record Realization {T : TomlFloat} := mkRealization {
  real_probe : cmd Profile.ProbeResult;
  real_configure_execution : string -> string -> gmap string string -> cmd (list string);
  real_configure_tool : string -> string -> gmap string string -> cmd (list string);
  real_configure_burn_control : string -> string -> gmap string string -> cmd (list string);
  real_undo_execution : cmd (list string);
  real_undo_tool : cmd (list string);
  real_undo_burn_control : cmd (list string);
  real_burn_control_config_paths : list string;
  real_scrub_residue : cmd (list string) }.

Section agent.
Context {T : TomlFloat} {serde : SerdeText} {feq : FloatEq} {digest : CodexCli.CodexDigest}
  {store : McpConfigure.ConfigStore} {loader : CompilePolicy.PolicyLoader}.
(** The environment, the working directory, what is on the path. *)
Context (env : string -> option string) (working_dir : option string)
  (find_in_path : string -> option string).

(** ** Paths: [engine.rs] *)

Definition exists_at (d : disk) (p : string) : bool := bool_decide (is_Some (files d !! p)).

Definition home_dir : result string string :=
  match env "HOME" with Some home => Ok home | None => Err "HOME is not set" end.

Definition expand_tilde (path : string) : result string string :=
  if String.eqb path "~" then home_dir
  else match str_strip_prefix (lit "~/") (lit path) with
       | Some rest => match home_dir with
                      | Ok home => Ok (Paths.join home (of_bytes rest))
                      | Err e => Err e
                      end
       | None => Ok path
       end.

(** [Path::parent]. *)
Definition path_parent (p : string) : option string :=
  match CodexCli.drop_slashes (rev (lit p)) with [] => None | _ => Some (CodexCli.parent p) end.

Definition first_existing (d : disk) (dir : string) (filenames : list string) : option string :=
  List.find (exists_at d) (Paths.join dir <$> filenames).

(** The fuel is the length of the directory: each step is shorter. *)
Fixpoint walk_up (d : disk) (fuel : nat) (dir : string) (filenames : list string) : option string :=
  match first_existing d dir filenames with
  | Some found => Some found
  | None =>
      match fuel, path_parent dir with
      | S fuel, Some up => walk_up d fuel up filenames
      | _, _ => None
      end
  end.

Definition walk_up_from (d : disk) (dir : option string) (filenames : list string) : option string :=
  dir ← dir; walk_up d (String.length dir) dir filenames.

Definition env_rooted_path (env_value : option string) (subpath fallback : string)
    : result string string :=
  match env_value with
  | Some v => if String.eqb v "" then expand_tilde fallback else Ok (Paths.join v subpath)
  | None => expand_tilde fallback
  end.

Definition resolve_config_path (d : disk) (discovery : Discovery) (working_dir : option string)
    : result string string :=
  match discovery with
  | Static path => expand_tilde path
  | EnvRooted var subpath fallback => env_rooted_path (env var) subpath fallback
  | WalkUp filenames global_dir =>
      match walk_up_from d working_dir filenames with
      | Some found => Ok found
      | None =>
          match expand_tilde global_dir with
          | Err e => Err e
          | Ok global =>
              match first_existing d global filenames with
              | Some found => Ok found
              | None =>
                  match last filenames with
                  | Some name => Ok (Paths.join global name)
                  | None => Err "walk_up requires at least one filename"
                  end
              end
          end
      end
  | WalkUpOptional filenames =>
      match walk_up_from d working_dir filenames with
      | Some found => Ok found
      | None => Err "walk_up_optional: no matching file found"
      end
  | SiblingOf _ _ => Err "sibling_of is resolved by the caller (it needs the referenced file's path)"
  end.

Definition is_detected (d : disk) (profile : AdaptationProfile) : bool :=
  existsb (fun b => bool_decide (is_Some (find_in_path b))) (binaries (detect profile))
  || existsb (fun name =>
       match lookup_file name profile with
       | Some cf => match resolve_config_path d (discovery cf) working_dir with
                    | Ok p => exists_at d p
                    | Err _ => false
                    end
       | None => false
       end) (config_paths (detect profile)).

(** ** Live capabilities: [engine.rs] *)

(** What [<bin> agentpact] prints, if it ends well and in time; what reads a document. *)
Context (run_agentpact_command : string -> option bytes)
  (read_document : bytes -> result AgentManifest string) (show_version : Z -> string).

Fixpoint query_live_capabilities (binaries : list string) (canonical : string)
    : option Profile.NativeCapabilityDeclaration :=
  match binaries with
  | [] => None
  | binary :: binaries =>
      match bin ← find_in_path binary; stdout ← run_agentpact_command bin;
            ok (parse_and_validate read_document show_version stdout canonical) with
      | Some manifest => Some (native manifest)
      | None => query_live_capabilities binaries canonical
      end
  end.

(** ** Operations of [engine.rs] *)

(** [u32::from_str_radix] in base 8. *)
Fixpoint octal (acc : Z) (l : bytes) : option Z :=
  match l with
  | [] => Some acc
  | b :: l =>
      if in_range 48 55 b then
        let acc := (acc * 8 + Z.of_N (code b - 48))%Z in
        if (acc <? 2 ^ 32)%Z then octal acc l else None
      else None
  end.

Definition from_str_radix_8 (l : bytes) : option Z :=
  match l with
  | [] => None
  | b :: l' =>
      if Ascii.eqb b "+"%char then match l' with [] => None | _ => octal 0 l' end else octal 0 l
  end.

(** [trim_start_matches]. *)
Fixpoint trim_start_matches (fuel : nat) (p l : bytes) : bytes :=
  match fuel with
  | O => l
  | S fuel => match str_strip_prefix p l with Some l => trim_start_matches fuel p l | None => l end
  end.

(** [invalid] is what the standard library says of a mode it cannot read. *)
Context (invalid : string -> string).

Definition parse_mode (mode : string) : result Z string :=
  match from_str_radix_8 (trim_start_matches (String.length mode) (lit "0o") (lit mode)) with
  | Some m => Ok m
  | None => Err ("invalid mode " ++ invalid mode)%string
  end.

Definition install_template (template dest : string) (mode : option string) (spawn_timeout_ms : Z)
    (component : string) : cmd (list string) :=
  match Bridges.bridge_template template with
  | None => throw ("unknown bridge template: " ++ template)%string
  | Some text =>
      let content := Configure.str_replace "__SPAWN_TIMEOUT_MS__" (pretty (Z.to_N spawn_timeout_ms)) text in
      match mode with Some m => lift "" (parse_mode m);; mret tt | None => mret tt end;;
      wrote ← write_managed_file dest (lit content) component CodexCli.NoopValidator;
      mret (if wrote : bool then [("wrote " ++ dest)%string] else [])
  end.

Definition ROUTABLE_AUTH_TYPES : list string := ["gemini-api-key"; "vertex-ai"; "gateway"].

Definition selected_auth_type (settings : json) : option string :=
  security ← get "security" settings; auth ← get "auth" security; t ← get "selectedType" auth; as_str t.

Definition is_routable_auth_type (t : string) : bool := bool_decide (t ∈ ROUTABLE_AUTH_TYPES).

Definition auth_routable (settings : json) : bool :=
  match selected_auth_type settings with Some t => is_routable_auth_type t | None => false end.

(** Is there a key in the keychain. *)
Context (key_in_keychain : bool).

Definition gemini_api_key_available (d : disk) : bool :=
  match env "GEMINI_API_KEY" with Some v => negb (bool_decide (trim (lit v) = [])) | None => false end
  || match home_dir with
     | Ok home => exists_at d (Paths.join (Paths.join home ".gemini") "gemini-credentials.json")
     | Err _ => false
     end
  || key_in_keychain.

(** A function of the disk, as a command. *)
Definition reading {A} (f : disk -> A) : cmd A := fun d => (Ok (f d), d).

Definition reading_result (f : disk -> result string string) : cmd string := fun d => (f d, d).

Definition ensure_routable_auth (p : string) (format : Configure.FileFormat) (component : string)
    : cmd (list string) :=
  settings ← Configure.read_config p format;
  if auth_routable settings then mret []
  else
    available ← reading gemini_api_key_available;
    if negb available then
      mret ["warning: gemini is using OAuth/Code Assist and no GEMINI_API_KEY is available — kyris cannot meter that traffic (the base-URL redirect is ignored on the OAuth path). Provide a GEMINI_API_KEY and re-run setup to enable burn-control."]
    else
      let '(settings, changed) :=
        set_json_string_path settings ["security"; "auth"; "selectedType"] "gemini-api-key" in
      if changed : bool then
        write_json_value p settings component;;
        mret [(Launch.dq "set security.auth.selectedType = ~gemini-api-key~ in " ++ p
               ++ " (prior selection could not route through kyrisd)")%string]
      else mret [].

(** The environment of policies and the order of its maps. *)
Context (penv : CompilePolicy.Env) (o : CompilePolicy.HashOrder)
  (in_order : gmap string (list string) -> list (string * list string))
  (regex_escape : bytes -> bytes)
  (rules_to_string : list CompilePolicy.GeminiPolicyRule -> result string string)
  (rules_from_str : string -> result toml string).

Definition write_compiled_policy (dest component : string) : cmd (list string) :=
  match CompilePolicy.compile_gemini_permissions regex_escape penv o None with
  | Ok (rules, _) =>
      match as_array rules with
      | Some (_ :: _) =>
          let text := CompilePolicy.serialize_gemini_policy_toml rules_to_string rules in
          wrote ← write_managed_file dest (lit text) component CodexCli.NoopValidator;
          mret (if wrote : bool then [("wrote " ++ dest)%string] else [])
      | _ => mret []
      end
  | Err e => mret [("warning: compiled policy skipped: " ++ e)%string]
  end.

(** ** The plugin: [configure/hooks.rs] *)

Definition install_plugin_hook_adapter (agent_id component : string) (spawn_timeout_ms : option Z)
    (plugin_path config_path : string) : cmd (list string) :=
  source ← lift "" (Bridges.plugin_hook_source agent_id spawn_timeout_ms);
  wrote ← write_managed_file plugin_path (lit source) component CodexCli.NoopValidator;
  config ← read_json_value config_path;
  let '(config, registered) := ensure_json_array_contains config ["plugin"] plugin_path in
  (if registered : bool then write_json_value config_path config component;; mret tt else mret tt);;
  mret ((if wrote : bool then [("wrote " ++ plugin_path)%string] else [])
        ++ (if registered : bool then
              [("registered kyris governance plugin in " ++ config_path)%string] else [])).

(** ** An agent: [generic.rs] *)

(** [same_file] compares canonical paths when both resolve. *)
Context (canonicalize : disk -> string -> option string).

Definition same_file (d : disk) (a b : string) : bool :=
  String.eqb a b
  || match canonicalize d a, canonicalize d b with
     | Some ca, Some cb => String.eqb ca cb
     | _, _ => false
     end.

Context (id : string) (profile : AdaptationProfile).

(** A sibling is found from the file it names, at most through every declared file. *)
Fixpoint config_path_in (fuel : nat) (d : disk) (working_dir : option string) (name : string)
    : result string string :=
  match lookup_file name profile with
  | None => Err (id ++ ": unknown config file '" ++ name ++ "'")%string
  | Some cf =>
      match discovery cf, fuel with
      | SiblingOf file sibling, S fuel =>
          match config_path_in fuel d working_dir file with
          | Err e => Err e
          | Ok base =>
              match path_parent base with
              | Some parent => Ok (Paths.join parent sibling)
              | None => Err (id ++ ": cannot resolve parent of " ++ base)%string
              end
          end
      | discovery, _ => resolve_config_path d discovery working_dir
      end
  end.

Definition config_path (d : disk) (name : string) : result string string :=
  config_path_in (length (config_files profile)) d working_dir name.

Definition global_config_path (d : disk) (name : string) : result string string :=
  config_path_in (length (config_files profile)) d None name.

Definition path_of (name : string) : cmd string := reading_result (fun d => config_path d name).

Definition config_format (name : string) : Configure.FileFormat :=
  match lookup_file name profile with Some cf => format cf | None => Configure.Json end.

Definition component (surface : string) : string := (id ++ ":" ++ surface)%string.

Definition canonical_id : string := Launch.canonical_agent_id id.

Definition spawn_timeout_ms : option Z :=
  (fun hp => Hook.bridge_spawn_timeout_ms (Hook.runtime hp)) <$> hook_protocol profile.

(** The agent as [McpConfigure] sees it, on the disk as it is. *)
Definition mcp_agent : cmd McpConfigure.Agent := reading (fun d =>
  McpConfigure.mkAgent id canonical_id (tool_mcp <$> tool (surfaces profile))
    (tool (surfaces profile) ≫= exclude_tools) (config_path d) config_format).

(** *** Configuring *)

Section configure.
Context (component base_url inbound_key : string) (agent_specific : gmap string string).

Definition ctx : Configure.SubstCtx := Configure.mkSubst base_url inbound_key canonical_id.

Record progress := mkProgress {
  changes : list string;
  (** The keys to set, by file, in the order in which the files came. *)
  set_keys_by_file : list (string * list (list string * json));
  installed_hook_paths : list string }.

Definition changed (more : list string) (s : progress) : progress :=
  mkProgress (changes s ++ more) (set_keys_by_file s) (installed_hook_paths s).

Fixpoint add_set_key (file : string) (entry : list string * json)
    (l : list (string * list (list string * json))) : list (string * list (list string * json)) :=
  match l with
  | [] => [(file, [entry])]
  | (f, entries) :: l =>
      if String.eqb f file then (f, entries ++ [entry]) :: l else (f, entries) :: add_set_key file entry l
  end.

Definition remove_legacy_hook (s : progress) (file event marker : string) : cmd (list string) := fun d =>
  match config_path d file with
  | Ok p =>
      if exists_at d p && negb (existsb (fun q => same_file d q p) (installed_hook_paths s)) then
        (config ← Configure.read_config p (config_format file);
         let '(config, removed) := remove_json_command_hook config event marker in
         if removed : bool then
           write_json_value p config component;;
           mret [("removed legacy " ++ event ++ " hook from " ++ p)%string]
         else mret []) d
      else (Ok [], d)
  | Err _ => (Ok [], d)
  end.

Definition mcp_derived_denies (file : string) : cmd (list string) :=
  agent ← mcp_agent;
  locations ← McpConfigure.mcp_configs agent;
  names ← McpConfigure.mcp_server_names_from_agent locations;
  p ← path_of file;
  settings ← read_json_value p;
  let '(settings, denied) :=
    McpConfigure.apply_claude_mcp_tool_denies penv o in_order settings names in
  if denied : bool then
    write_json_value p settings component;; mret [("applied MCP tool policy in " ++ p)%string]
  else mret [].

(** One operation; what it reports is added to the changes. *)
Definition configure_op (op : ConfigureOp) (s : progress) : cmd progress :=
  match op with
  | InstallFile template dest mode =>
      p ← path_of dest;
      more ← install_template template p mode (default 0%Z spawn_timeout_ms) component;
      mret (changed more s)
  | RouteMcp =>
      agent ← mcp_agent;
      more ← McpConfigure.configure_json_mcp_tool_surface penv o in_order agent base_url inbound_key;
      mret (changed more s)
  | SetKey file path value =>
      mret (mkProgress (changes s) (add_set_key file (path, value) (set_keys_by_file s))
              (installed_hook_paths s))
  | InstallPlugin dest register_in =>
      plugin ← path_of dest;
      config ← path_of register_in;
      more ← install_plugin_hook_adapter id component spawn_timeout_ms plugin config;
      mret (changed more s)
  | RequireWritable file => p ← path_of file; Configure.require_writable p;; mret s
  | SetGovernedPermissions file =>
      p ← path_of file;
      more ← Configure.set_governed_permissions p (config_format file) component;
      mret (changed more s)
  | StripKyrisApikey file path =>
      p ← path_of file;
      more ← Configure.strip_kyris_apikey p (config_format file) path inbound_key component;
      mret (changed more s)
  | InstallHook script register_in events nested hook_timeout =>
      script ← path_of script;
      settings ← path_of register_in;
      more ← CodexCli.install_live_hook_adapter id component events script settings nested hook_timeout;
      mret (mkProgress (changes s ++ more) (set_keys_by_file s) (installed_hook_paths s ++ [settings]))
  | McpDerivedDenies file => more ← mcp_derived_denies file; mret (changed more s)
  | WriteCompiledPolicy dest =>
      p ← path_of dest; more ← write_compiled_policy p component; mret (changed more s)
  | EnsureRoutableAuth file =>
      p ← path_of file;
      more ← ensure_routable_auth p (config_format file) component;
      mret (changed more s)
  | SetSettingFromInput file path input =>
      match agent_specific !! input with
      | None => mret s
      | Some value =>
          p ← path_of file;
          more ← Configure.set_setting_from_input p (config_format file) path value component;
          mret (changed more s)
      end
  | RemoveLegacyHook file event marker =>
      more ← remove_legacy_hook s file event marker; mret (changed more s)
  end.

Fixpoint configure_ops (ops : list ConfigureOp) (s : progress) : cmd progress :=
  match ops with
  | [] => mret s
  | op :: ops => s ← configure_op op s; configure_ops ops s
  end.

Fixpoint apply_set_keys (l : list (string * list (list string * json))) : cmd (list string) :=
  match l with
  | [] => mret []
  | (file, ops) :: l =>
      p ← path_of file;
      here ← Configure.apply_json_set_keys p ops ctx component;
      rest ← apply_set_keys l;
      mret (here ++ rest)
  end.

Definition run_configure (ops : list ConfigureOp) : cmd (list string) :=
  s ← configure_ops ops (mkProgress [] [] []);
  more ← apply_set_keys (set_keys_by_file s);
  mret (changes s ++ more).
End configure.

(** *** Undoing *)

Definition undo_op (op : UndoOp) : cmd (list string) :=
  match op with
  | ManifestRestore file scope delete_if_unmanaged =>
      p ← path_of file; Configure.restore p scope delete_if_unmanaged;; mret []
  | UndoMcp => agent ← mcp_agent; McpConfigure.undo_json_mcp_tool_surface agent
  | DeleteEnvFile =>
      CodexCli.remove_file_if_exists (Paths.join (Paths.env_dir env) (id ++ ".sh"));; mret []
  | RestoreComponent scope =>
      restored ← restore_manifest_component scope;
      mret ((fun p => ("Reverted " ++ p)%string) <$> restored)
  | DeleteFile file => p ← path_of file; CodexCli.remove_file_if_exists p;; mret []
  end.

Fixpoint run_undo (ops : list UndoOp) : cmd (list string) :=
  match ops with
  | [] => mret []
  | op :: ops => said ← undo_op op; rest ← run_undo ops; mret (said ++ rest)
  end.

(** *** Probing *)

Definition read_ok (p : string) (d : disk) : option json := ok (read_json_value p d).1.

Definition json_servers_at (value : json) (servers_path : list string) : option (list (string * json)) :=
  Configure.json_get value servers_path ≫= as_object.

Definition json_server_is_wrapped (server : json) : bool :=
  match get "command" (McpConfigure.json_mcp_fields server) with
  | Some (JString c) => String.eqb c "kyris-mcp"
  | Some (JArray (JString first :: _)) => String.eqb first "kyris-mcp"
  | _ => false
  end.

Definition json_has_mcp_wrap (d : disk) (p : string) (servers_path : list string) : bool :=
  match v ← read_ok p d; json_servers_at v servers_path with
  | Some servers => existsb (fun s => json_server_is_wrapped s.2) servers
  | None => false
  end.

Definition json_has_any_mcp_servers (d : disk) (p : string) (servers_path : list string) : bool :=
  match v ← read_ok p d; json_servers_at v servers_path with
  | Some (_ :: _) => true
  | _ => false
  end.

Definition toml_servers (d : disk) (p servers_key : string) : option (list (string * toml)) :=
  v ← ok (read_toml_value p d).1; servers ← tget servers_key v; as_table servers.

Definition toml_has_mcp_wrap (d : disk) (p servers_key : string) : bool :=
  match toml_servers d p servers_key with
  | Some servers =>
      existsb (fun s => bool_decide (tget "command" s.2 ≫= tas_str = Some "kyris-mcp")) servers
  | None => false
  end.

Definition location_status (d : disk) (l : McpConfigure.McpConfigLocation) : bool * bool :=
  let p := McpConfigure.location_path l in
  match McpConfigure.location_format l with
  | McpConfigure.JsonServers path => (json_has_mcp_wrap d p path, json_has_any_mcp_servers d p path)
  | McpConfigure.TomlServers key =>
      (toml_has_mcp_wrap d p key,
       match toml_servers d p key with Some (_ :: _) => true | _ => false end)
  end.

(** The locations of the agent's servers on a disk. *)
Definition mcp_configs_at (d : disk) : list McpConfigure.McpConfigLocation :=
  match (agent ← mcp_agent; McpConfigure.mcp_configs agent) d with
  | (Ok locations, _) => locations
  | (Err _, _) => []
  end.

Definition mcp_locations_status (d : disk) : bool * bool :=
  foldl (fun s l => let '(wrap, any) := location_status d l in (s.1 || wrap, s.2 || any))
    (false, false) (mcp_configs_at d).

(** The text of a named file. *)
Definition text_at (d : disk) (name : string) : option bytes :=
  p ← ok (config_path d name); files d !! p.

Definition json_at (d : disk) (name : string) : option json :=
  p ← ok (config_path d name); read_ok p d.

Definition kyrisd_url (d : disk) : option string :=
  match Launch.kyrisd_base_url d with (Ok url, _) => url | (Err _, _) => None end.

Definition selected_type (d : disk) (name : string) : option string :=
  v ← json_at d name; selected_auth_type v.

Fixpoint probe_rule_matches (d : disk) (rule : ProbeRule) : bool :=
  match rule with
  | FileExists file => match config_path d file with Ok p => exists_at d p | Err _ => false end
  | ContainsMarker file marker =>
      match text_at d file with Some c => contains (lit marker) c | None => false end
  | McpWrap => (mcp_locations_status d).1
  | KeyEqualsKyrisd file path suffix =>
      match kyrisd_url d with
      | None => false
      | Some base =>
          let expected := (base ++ default "" suffix)%string in
          bool_decide ((v ← json_at d file; x ← Configure.json_get v path; as_str x) = Some expected)
      end
  | ArrayContains file path value =>
      match config_path d file with
      | Err _ => false
      | Ok p =>
          match (Configure.read_config p (config_format file) d).1 with
          | Err _ => false
          | Ok v =>
              match Configure.json_get v path ≫= as_array with
              | Some items => existsb (fun s => contains (lit value) (lit s)) (omap as_str items)
              | None => false
              end
          end
      end
  | EnvPointsKyrisd var =>
      match (Launch.env_routes_to_kyrisd env id var d).1 with Ok b => b | Err _ => false end
  | CompiledPolicyLoadable file =>
      match text_at d file with
      | Some c => CompilePolicy.gemini_policy_file_is_loadable rules_from_str (of_bytes c)
      | None => false
      end
  | AuthRoutable file alt_file =>
      match (match alt_file ≫= selected_type d with
             | Some t => Some t
             | None => selected_type d file
             end) with
      | Some t => is_routable_auth_type t
      | None => false
      end
  | All rules => forallb (probe_rule_matches d) rules
  | HookScriptMatches file =>
      bool_decide (text_at d file = Some (lit (CodexCli.hook_script_source id)))
  end.

Definition probe_execution (d : disk) : Profile.SurfaceState Profile.ExecutionMechanism :=
  match execution (surfaces profile) with
  | None => Profile.none
  | Some s =>
      if existsb (probe_rule_matches d) (exec_probe s) then
        match exec_mechanisms s with m :: _ => Profile.adapted m | [] => Profile.none end
      else
        match exec_fallback s with
        | Some fb =>
            if existsb (probe_rule_matches d) (fallback_probe fb) then
              let state := Profile.adapted (fallback_mechanism fb) in
              match fallback_ceiling fb with
              | Some c => Profile.with_ceiling c state
              | None => state
              end
            else Profile.none
        | None => Profile.none
        end
  end.

Definition probe_tool (d : disk) : Profile.SurfaceState Profile.ToolMechanism :=
  match tool (surfaces profile) with
  | None => Profile.none
  | Some _ =>
      let '(has_wrap, has_servers) := mcp_locations_status d in
      if has_wrap : bool then Profile.adapted Profile.ToolMcpWrapping
      else if has_servers : bool then Profile.none else Profile.not_applicable
  end.

Definition probe_burn_control (d : disk) : Profile.SurfaceState Profile.BurnControlMechanism :=
  match model_routing (surfaces profile) with
  | None => Profile.none
  | Some s =>
      if existsb (probe_rule_matches d) (routing_probe s) then
        match routing_mechanisms s with m :: _ => Profile.adapted m | [] => Profile.none end
      else Profile.none
  end.

(** The files of kyris whose drift is watched. *)
Fixpoint managed_files (d : disk) (seen : list string) (names : list string)
    : list Profile.ManagedFileFingerprint :=
  match names with
  | [] => []
  | name :: names =>
      match config_path d name with
      | Err _ => managed_files d seen names
      | Ok p =>
          if bool_decide (p ∈ seen) then managed_files d seen names
          else
            let has_marker :=
              match files d !! p with
              | Some c => existsb (fun m => contains (lit m) c) (markers profile)
              | None => false
              end in
            (if has_marker then default [] (ok (CodexCli.fingerprint p d).1) else [])
            ++ managed_files d (seen ++ [p]) names
      end
  end.

(** Codex delegates to its own realization; another name panics in the code, and no shipped
    document has one. *)
Context (codex : Realization).

Definition native_delegate : option Realization :=
  match delegate profile with Some _ => Some codex | None => None end.

Definition probe : cmd Profile.ProbeResult :=
  match native_delegate with
  | Some real => real_probe real
  | None => reading (fun d =>
      if negb (is_detected d profile) then Profile.not_detected
      else Profile.mkProbe true (probe_execution d) (probe_tool d) (probe_burn_control d)
             (managed_files d [] (config_files profile).*1))
  end.

(** *** The surfaces *)

Definition configure_execution_surface (base_url inbound_key : string)
    (agent_specific : gmap string string) : cmd (list string) :=
  match native_delegate with
  | Some real => real_configure_execution real base_url inbound_key agent_specific
  | None =>
      match execution (surfaces profile) with
      | Some s => run_configure (component "execution") base_url inbound_key agent_specific (exec_configure s)
      | None => mret []
      end
  end.

Definition configure_tool_surface (base_url inbound_key : string)
    (agent_specific : gmap string string) : cmd (list string) :=
  match native_delegate with
  | Some real => real_configure_tool real base_url inbound_key agent_specific
  | None =>
      match tool (surfaces profile) with
      | Some s => run_configure (component "tool") base_url inbound_key agent_specific (tool_configure s)
      | None => mret []
      end
  end.

Definition configure_burn_control_surface (base_url inbound_key : string)
    (agent_specific : gmap string string) : cmd (list string) :=
  match native_delegate with
  | Some real => real_configure_burn_control real base_url inbound_key agent_specific
  | None =>
      match model_routing (surfaces profile) with
      | Some s =>
          run_configure (component "burn-control") base_url inbound_key agent_specific (routing_configure s)
      | None => mret []
      end
  end.

Definition undo_execution_surface : cmd (list string) :=
  match native_delegate with
  | Some real => real_undo_execution real
  | None => match execution (surfaces profile) with Some s => run_undo (exec_undo s) | None => mret [] end
  end.

Definition undo_tool_surface : cmd (list string) :=
  match native_delegate with
  | Some real => real_undo_tool real
  | None => match tool (surfaces profile) with Some s => run_undo (tool_undo s) | None => mret [] end
  end.

Definition undo_burn_control_surface : cmd (list string) :=
  match native_delegate with
  | Some real => real_undo_burn_control real
  | None =>
      match model_routing (surfaces profile) with Some s => run_undo (routing_undo s) | None => mret [] end
  end.

Definition burn_control_config_paths (d : disk) : list string :=
  match native_delegate with
  | Some real => real_burn_control_config_paths real
  | None =>
      match model_routing (surfaces profile) with
      | None => []
      | Some s =>
          let names := foldl (fun names op =>
            match op with
            | SetKey file _ _ => if bool_decide (file ∈ names) then names else names ++ [file]
            | _ => names
            end) [] (routing_configure s) in
          omap (fun n => ok (config_path d n)) names
      end
  end.

(** *** Residue *)

(** The files that are kyris's own. *)
Definition owned_files : list string :=
  match execution (surfaces profile) with
  | None => []
  | Some s =>
      omap (fun op =>
        match op with
        | InstallFile _ dest _ | InstallPlugin dest _ | WriteCompiledPolicy dest => Some dest
        | InstallHook script _ _ _ _ => Some script
        | _ => None
        end) (exec_configure s)
  end.

Definition scrub_owned (p : string) : cmd (list string) :=
  marked ← Scrub.file_has_kyris_marker p;
  if marked : bool then remove_if_exists p;; mret [("removed kyris file " ++ p)%string] else mret [].

(** A configuration that cannot be read is left alone. *)
Definition scrub_config (kyrisd_authority : option string) (p : string) (format : Configure.FileFormat)
    : cmd (list string) :=
  read ← McpConfigure.attempt (Configure.read_config p format);
  match read with
  | None => mret []
  | Some config =>
      let '(config, scrubbed) := Scrub.scrub_kyris_json kyrisd_authority config in
      if scrubbed : bool then
        write_json_value p config (component "scrub");;
        mret [("scrubbed kyris residue from " ++ p)%string]
      else mret []
  end.

Definition scrub_file (kyrisd_authority : option string) (name : string) (cf : ConfigFile)
    : cmd (list string) := fun d =>
  match global_config_path d name with
  | Err _ => (Ok [], d)
  | Ok p =>
      if negb (exists_at d p) then (Ok [], d)
      else if bool_decide (name ∈ owned_files) then scrub_owned p d
      else match format cf with
           | Configure.Json | Configure.Jsonc => scrub_config kyrisd_authority p (format cf) d
           | Configure.Toml => (Ok [], d)
           end
  end.

Fixpoint scrub_files (kyrisd_authority : option string) (l : list (string * ConfigFile))
    : cmd (list string) :=
  match l with
  | [] => mret []
  | (name, cf) :: l =>
      here ← scrub_file kyrisd_authority name cf;
      rest ← scrub_files kyrisd_authority l;
      mret (here ++ rest)
  end.

Definition scrub_residue : cmd (list string) :=
  match native_delegate with
  | Some real => real_scrub_residue real
  | None =>
      url ← reading kyrisd_url;
      scrub_files (url ≫= Scrub.authority_of) (config_files profile)
  end.

(** *** What is declared *)

Definition integration_plan (manifest : AgentManifest) : Profile.AgentIntegrationPlan :=
  let surface {M} (mechanisms : option (list M)) : Profile.SurfaceIntegration M :=
    match mechanisms with Some l => Profile.adapted_by l | None => Profile.NoIntegration end in
  Profile.with_native_capabilities (native manifest)
    (Profile.mkPlan
      (surface (exec_mechanisms <$> execution (surfaces profile)))
      (surface (tool_mechanisms <$> tool (surfaces profile)))
      (surface (routing_mechanisms <$> model_routing (surfaces profile)))
      (attribution profile) (agentpact_native_attribution profile)).

Definition provider_routing : option Launch.ProviderRouting :=
  mr ← model_routing (surfaces profile); e ← routing_env mr;
  Some (Launch.mkRouting (base_url_vars e) (auth_skip_flags e) (custom_headers_var e) (header_separator e)).

(** The times are [now]. *)
Definition native_evidence (now : string) : Profile.SurfaceEvidence :=
  if negb (live_query profile) then Profile.no_evidence
  else
    match query_live_capabilities (binaries (detect profile)) canonical_id with
    | None => Profile.no_evidence
    | Some n =>
        Profile.mkEvidence
          (if Profile.native_execution n then Some now else None)
          (if Profile.native_tool n then Some now else None)
          (if Profile.native_burn_control n then Some now else None)
    end.
(** ** The walk up finds the nearest file *)

(** What looking through a directory and all above it finds. *)
Inductive nearest (d : disk) (filenames : list string) : string -> option string -> Prop :=
| nearest_here dir p :
    first_existing d dir filenames = Some p -> nearest d filenames dir (Some p)
| nearest_above dir up r :
    first_existing d dir filenames = None -> path_parent dir = Some up ->
    nearest d filenames up r -> nearest d filenames dir r
| nearest_nowhere dir :
    first_existing d dir filenames = None -> path_parent dir = None -> nearest d filenames dir None.

Lemma drop_slashes_shorter l : length (CodexCli.drop_slashes l) <= length l.
Proof. induction l as [|b l IH]; [done|]. cbn. destruct (Ascii.eqb b "/"); cbn; lia. Qed.

Lemma after_slash_shorter l m : CodexCli.after_slash l = Some m -> length m < length l.
Proof.
  induction l as [|b l IH]; [done|]. cbn. destruct (Ascii.eqb b "/"); [intros [= ->]; lia|].
  intros H%IH. lia.
Qed.

Lemma length_lit s : length (lit s) = String.length s.
Proof. unfold lit. induction s as [|b s IH]; [done|]. cbn. by f_equal. Qed.

Lemma length_lit_of l : String.length (of_bytes l) = length l.
Proof. rewrite <- length_lit. by rewrite lit_of_bytes. Qed.

(** A parent is a shorter path. *)
Lemma parent_shorter dir up : path_parent dir = Some up -> String.length up < String.length dir.
Proof.
  unfold path_parent. destruct (CodexCli.drop_slashes (rev (lit dir))) as [|b l] eqn:E; [done|].
  intros [= <-]. unfold CodexCli.parent. rewrite <- (length_lit dir), <- (length_rev (lit dir)).
  destruct (CodexCli.after_slash (rev (lit dir))) as [m|] eqn:Ea.
  - pose proof (after_slash_shorter _ _ Ea). pose proof (drop_slashes_shorter m).
    destruct (CodexCli.drop_slashes m) as [|c k] eqn:Em.
    + change (String.length "/") with 1. destruct (rev (lit dir)) as [|x [|y r]]; cbn in *; try lia.
      destruct (Ascii.eqb x "/"); done.
    + rewrite length_lit_of, length_rev. lia.
  - destruct (rev (lit dir)); [done|]. cbn. lia.
Qed.

(** The search for the configuration of a project looks through the working directory
    and every directory above it, once, and gives the nearest file: it ends, and what it
    gives is what the unbounded walk gives. *)
Theorem walk_up_nearest d dir filenames :
  nearest d filenames dir (walk_up d (String.length dir) dir filenames).
Proof.
  assert (forall fuel dir, String.length dir <= fuel -> nearest d filenames dir (walk_up d fuel dir filenames))
    as Hw; [|by apply Hw].
  clear dir. induction fuel as [|fuel IH]; intros dir Hf; cbn [walk_up];
    (destruct (first_existing d dir filenames) eqn:Ef; [by constructor|]).
  - apply nearest_nowhere; [done|]. destruct (path_parent dir) eqn:E; [|done].
    apply parent_shorter in E. lia.
  - destruct (path_parent dir) as [up|] eqn:E; [|by apply nearest_nowhere].
    eapply nearest_above; [done..|]. apply IH. apply parent_shorter in E. lia.
Qed.

(** ** What setup writes is what the probe reads *)

Lemma configure_set_keys c base key spec file keys s d :
  configure_ops c base key spec ((fun e => SetKey file e.1 e.2) <$> keys) s d =
  (Ok (mkProgress (changes s)
         (foldl (fun l e => add_set_key file e l) (set_keys_by_file s) keys)
         (installed_hook_paths s)), d).
Proof.
  revert s. induction keys as [|[path value] keys IH]; intros s; [destruct s; reflexivity|].
  cbn [fmap list_fmap configure_ops configure_op]. unfold mbind, cmd_bind. cbn [mret cmd_ret].
  by rewrite IH.
Qed.

Lemma add_set_keys file keys :
  keys <> [] -> foldl (fun l e => add_set_key file e l) [] keys = [(file, keys)].
Proof.
  destruct keys as [|e keys]; [done|]. intros _. cbn [foldl add_set_key].
  assert (forall before, foldl (fun l e => add_set_key file e l) [(file, before)] keys =
    [(file, before ++ keys)]) as Hgo; [|by apply Hgo].
  induction keys as [|e' keys IH]; intros before; cbn [foldl add_set_key]; [by rewrite app_nil_r|].
  rewrite String.eqb_refl, IH. by rewrite <- app_assoc.
Qed.

Lemma kyrisd_url_of d c : McpConfigure.load_config d = (Ok c, d) -> kyrisd_url d = Some (McpConfigure.base_url c).
Proof.
  intros H. unfold kyrisd_url, Launch.kyrisd_base_url, McpConfigure.attempt. unfold mbind, cmd_bind.
  by rewrite H.
Qed.

(** Keys that are set in one file with the URL of kyrisd are what the rule looks for. *)
Lemma configured_keys_are_probed c file p keys path template suffix key spec comp d msgs d' :
  (forall d, config_path d file = Ok p) ->
  McpConfigure.load_config d = (Ok c, d) ->
  (forall q, McpConfigure.config_path = Ok q -> q <> p) ->
  let url := McpConfigure.base_url c in
  Configure.apply (ctx url key) template = (url ++ default "" suffix)%string ->
  Forall (fun op => op.1 <> [] /\ wf (Configure.substitute_value op.2 (ctx url key)) = true) keys ->
  Forall (sole path (JString template)) keys -> (path, JString template) ∈ keys ->
  (forall v, read_json_value p d = (Ok v, d) ->
     let w := (set_all (ctx url key) keys (v, false)).1 in from_str (serialized w) = Ok w) ->
  run_configure comp url key spec ((fun e => SetKey file e.1 e.2) <$> keys) d = (Ok msgs, d') ->
  (exists w, read_json_value p d' = (Ok w, d') /\
     JsonPatch.value_at w path = Some (JString (url ++ default "" suffix))) /\
  probe_rule_matches d' (KeyEqualsKyrisd file path suffix) = true.
Proof.
  intros Hpath Hl Hconfig url Hurl Hwf Hsole Hin Hprint Hrun.
  unfold run_configure in Hrun. apply bind_Ok in Hrun as (s & d1 & Hs & Hrun).
  rewrite configure_set_keys in Hs. injection Hs as <- <-. cbn [set_keys_by_file changes] in Hrun.
  rewrite add_set_keys in Hrun by (by intros ->; apply elem_of_nil in Hin).
  apply bind_Ok in Hrun as (more & d2 & Hkeys & Hrun). injection Hrun as _ <-.
  cbn [apply_set_keys] in Hkeys. unfold path_of, reading_result in Hkeys.
  apply bind_Ok in Hkeys as (q & d3 & Hq & Hkeys). rewrite Hpath in Hq. injection Hq as <- <-.
  apply bind_Ok in Hkeys as (here & d3 & Hset & Hkeys). injection Hkeys as _ <-.
  destruct (set_keys_read_back p keys (ctx url key) comp d here d3 path (JString template)
    Hset Hprint Hwf Hsole Hin) as (w & v & Hr & Hv & He).
  cbn [Configure.substitute_value] in He. rewrite Hurl in He.
  assert (v = JString (url ++ default "" suffix)) as -> by (destruct v; try done; by apply String.eqb_eq in He as ->).
  split; [by exists w|]. cbn [probe_rule_matches]. rewrite (kyrisd_url_of d3 c).
  - apply bool_decide_eq_true. unfold json_at. rewrite Hpath. cbn [ok mbind option_bind].
    unfold read_ok. rewrite Hr. cbn [fst ok mbind option_bind]. by rewrite Configure.json_get_value_at, Hv.
  - apply (Launch.load_config_kept d); [done|]. intros q Hq.
    apply (keeps_set_keys (fun r => r = q) p keys (ctx url key) comp) with (2 := Hset); [|done].
    intros r ->. by apply Hconfig.
Qed.

(** *** Files at a fixed place *)

Lemma expand_home home path :
  env "HOME" = Some home -> expand_tilde ("~/" ++ path) = Ok (Paths.join home path).
Proof.
  intros Hh. unfold expand_tilde.
  destruct (String.eqb_spec ("~/" ++ path) "~") as [E|_]; [by destruct path|].
  unfold str_strip_prefix. rewrite lit_app, starts_with_app, drop_app_length.
  unfold home_dir. rewrite Hh. do 2 f_equal. apply lit_inj. by rewrite lit_of_bytes.
Qed.

Lemma static_path home name path d :
  env "HOME" = Some home -> lookup_file name profile = Some (static_json ("~/" ++ path)) ->
  config_path d name = Ok (Paths.join home path).
Proof.
  intros Hh Hl. unfold config_path. rewrite <- (expand_home home path Hh).
  destruct (length (config_files profile)); cbn [config_path_in]; by rewrite Hl.
Qed.

(** *** Cline *)

Definition set_key_ops (ops : list ConfigureOp) : list (list string * json) :=
  omap (fun op => match op with SetKey _ path value => Some (path, value) | _ => None end) ops.

Definition cline_keys : list (list string * json) :=
  match adaptation CLINE ≫= (fun p => model_routing (surfaces p)) with
  | Some s => set_key_ops (routing_configure s)
  | None => []
  end.

Lemma replace_absent from to l b rest fuel :
  from = b :: rest -> b ∉ l -> Configure.replace_aux fuel from to l = l.
Proof.
  intros -> Hl. revert l Hl. induction fuel as [|fuel IH]; intros l Hl; [by destruct l|].
  destruct l as [|x l]; [done|]. cbn [Configure.replace_aux]. unfold str_strip_prefix.
  cbn [starts_with]. destruct (Ascii.eqb_spec b x) as [->|]; [set_solver|]. cbn [andb].
  rewrite IH; [done|set_solver].
Qed.

Lemma str_replace_absent from to s b rest :
  lit from = b :: rest -> b ∉ lit s -> Configure.str_replace from to s = s.
Proof.
  intros Hf Hs. unfold Configure.str_replace. rewrite (replace_absent _ _ _ b rest) by done.
  apply lit_inj. by rewrite lit_of_bytes.
Qed.

(** A template that is the URL gives the URL, if this is free of braces. *)
Lemma apply_base_url_v1 url key :
  "{"%char ∉ lit url -> Configure.apply (ctx url key) "{base_url_v1}" = (url ++ "/v1")%string.
Proof.
  intros Hu. unfold Configure.apply. cbn [Configure.base_url Configure.ctx_inbound_key Configure.ctx_agent_id ctx].
  assert (Configure.str_replace "{base_url_v1}" (url ++ "/v1") "{base_url_v1}" = (url ++ "/v1")%string) as ->.
  { unfold Configure.str_replace. apply lit_inj. rewrite lit_of_bytes.
    assert (forall from to fuel, from <> [] -> Configure.replace_aux (S fuel) from to from = to) as Hrep;
      [|by apply (Hrep (lit "{base_url_v1}") _ 12)].
    intros from to fuel Hf. destruct from as [|b from]; [done|]. cbn [Configure.replace_aux].
    unfold str_strip_prefix. pose proof (starts_with_app (b :: from) []) as Hp.
    rewrite app_nil_r in Hp. rewrite Hp, drop_all.
    destruct fuel; cbn; by rewrite app_nil_r. }
  assert ("{"%char ∉ lit (url ++ "/v1")) as Hv.
  { rewrite lit_app, elem_of_app. intros [|H]; [done|]. revert H. vm_decided. }
  rewrite (str_replace_absent "{base_url}" _ _ "{" (lit "base_url}")); [|done|done].
  rewrite (str_replace_absent "{inbound_key}" _ _ "{" (lit "inbound_key}")); [|done|done].
  by rewrite (str_replace_absent "{agent_id}" _ _ "{" (lit "agent_id}")).
Qed.

Lemma cline_surface s :
  adaptation CLINE = Some profile -> model_routing (surfaces profile) = Some s ->
  routing_configure s = (fun e => SetKey "providers" e.1 e.2) <$> cline_keys.
Proof.
  intros Hp Hs. unfold cline_keys. rewrite Hp. change (Some profile ≫= ?f) with (f profile). cbv beta.
  rewrite Hs. revert Hs. cbn in Hp. injection Hp as <-. cbn. by intros [= <-].
Qed.

(** C25. Setting Cline up routes it, and the probe sees it.  When the setup of the
    burn-control surface with the URL of kyrisd's configuration succeeds, whatever the
    agent's file of providers held, that file reads back with the URL of kyrisd, and [/v1],
    as the base URL of its provider, and the probe, which reads the configuration of kyrisd
    again, reports the surface adapted by a rewrite of the configuration.  The file of
    providers is not the configuration of kyrisd, the URL has no brace, and the document
    that is written reads back as what was printed. *)
Theorem cline_setup_is_routed home c key spec d msgs d' :
  adaptation CLINE = Some profile -> env "HOME" = Some home ->
  let p := Paths.join home ".cline/data/settings/providers.json" in
  let url := McpConfigure.base_url c in
  McpConfigure.load_config d = (Ok c, d) ->
  (forall q, McpConfigure.config_path = Ok q -> q <> p) ->
  "{"%char ∉ lit url ->
  (forall v, read_json_value p d = (Ok v, d) ->
     let w := (set_all (ctx url key) cline_keys (v, false)).1 in from_str (serialized w) = Ok w) ->
  configure_burn_control_surface url key spec d = (Ok msgs, d') ->
  (exists w, read_json_value p d' = (Ok w, d') /\
     JsonPatch.value_at w ["providers"; "anthropic"; "settings"; "baseUrl"] = Some (JString (url ++ "/v1"))) /\
  probe_burn_control d' = Profile.adapted Profile.BurnConfigRewrite.
Proof.
  intros Hprofile Hhome p url Hl Hconfig Hurl Hprint Hrun.
  destruct (model_routing (surfaces profile)) as [s|] eqn:Hs;
    [|cbn in Hprofile; injection Hprofile as <-; discriminate].
  pose proof (cline_surface s Hprofile Hs) as Hops.
  assert (delegate profile = None /\ routing_mechanisms s = [Profile.BurnConfigRewrite] /\
    routing_probe s = [KeyEqualsKyrisd "providers" ["providers"; "anthropic"; "settings"; "baseUrl"] (Some "/v1")] /\
    config_files profile = [("global_state", static_json "~/.cline/data/globalState.json");
     ("hook", static_json "~/.cline/hooks/PreToolUse.cjs");
     ("mcp", static_json "~/.cline/data/settings/cline_mcp_settings.json");
     ("providers", static_json "~/.cline/data/settings/providers.json")])
    as (Hd & Hm & Hprobe & Hfiles)
    by (cbn in Hprofile; injection Hprofile as <-; by injection Hs as <-).
  unfold configure_burn_control_surface, native_delegate in Hrun. rewrite Hd, Hs, Hops in Hrun.
  unfold probe_burn_control. rewrite Hs, Hprobe, Hm. cbn [existsb].
  destruct (configured_keys_are_probed c "providers" p cline_keys
    ["providers"; "anthropic"; "settings"; "baseUrl"] "{base_url_v1}" (Some "/v1") key spec (component "burn-control") d msgs d')
    as [Hw ->]; try done.
  - intros d0. apply (static_path home _ ".cline/data/settings/providers.json"); [done|].
    unfold lookup_file. by rewrite Hfiles.
  - by apply apply_base_url_v1.
  - repeat (apply Forall_cons; split; [done|]). by apply Forall_nil.
  - repeat (apply Forall_cons; split; [first [by left | right; unfold incomparable; vm_decided]|]). by apply Forall_nil.
  - do 2 (apply elem_of_cons; right). by apply elem_of_cons; left.
Qed.

(** ** The hook that setup installs stays *)

Lemma read_json_same p d d' v d1 :
  files d' !! p = files d !! p -> read_json_value p d = (Ok v, d1) -> read_json_value p d' = (Ok v, d').
Proof.
  intros Hf H. unfold read_json_value, read_if_exists in *. unfold mbind, cmd_bind in *.
  rewrite Hf. destruct (files d !! p) as [t|]; [|by injection H as <- <-].
  destruct (from_str t) as [w|]; [|done]. by injection H as <- <-.
Qed.

(** The command is registered for the phase. *)
Definition registered (phase command : string) (settings : json) : bool :=
  existsb (fun e => entry_has_command e command) (phase_entries settings phase).

Lemma ensure_registers root phase command nested timeout :
  let '(root', changed) := ensure_json_command_hook root phase command nested timeout in
  registered phase command root' = true /\ (changed = false -> registered phase command root = true).
Proof.
  rewrite ensure_json_command_hook_unfold. unfold registered.
  destruct (find_mut _ _ _) as [[array changed]|] eqn:E.
  - rewrite phase_entries_with. pose proof (find_mut_existsb_found _ _ _ _ _
      (fun x Hx => reconcile_existing_has_command command nested timeout x Hx) E) as Hf.
    split; [done|]. intros _. rewrite <- (find_mut_existsb _ _ _ _ _ _
      (fun x Hx => eq_trans (reconcile_existing_has_command command nested timeout x Hx) (eq_sym Hx)) E).
    done.
  - rewrite phase_entries_with, existsb_app. split; [|done]. cbn [existsb].
    rewrite new_entry_has_command. by destruct (existsb _ _).
Qed.

Lemma hook_installed agent c phase script settings nested timeout d msgs d' :
  script <> settings ->
  (forall v, read_json_value settings d = (Ok v, d) ->
     let w := (ensure_json_command_hook v phase (CodexCli.shell_command script) nested timeout).1 in
     from_str (serialized w) = Ok w) ->
  CodexCli.install_live_hook_adapter agent c [phase] script settings nested timeout d = (Ok msgs, d') ->
  exists w, read_json_value settings d' = (Ok w, d') /\
    registered phase (CodexCli.shell_command script) w = true.
Proof.
  intros Hne Hprint H. unfold CodexCli.install_live_hook_adapter in H.
  apply bind_Ok in H as (wrote & d1 & Hw & H). apply bind_Ok in H as (v & d2 & Hv & H).
  assert (files d1 !! settings = files d !! settings) as Hf.
  { apply (keeps_write_managed (fun q => q = settings) script) with (2 := Hw); [|done].
    intros q ->. done. }
  assert (d2 = d1) as ->.
  { unfold read_json_value in Hv. apply bind_Ok in Hv as (x & d3 & [= <- <-] & Hv).
    destruct (files d1 !! settings) as [t|]; [destruct (from_str t)|]; by injection Hv. }
  pose proof (read_json_same settings d1 d v d1 (eq_sym Hf) Hv) as Hv0.
  specialize (Hprint v Hv0). cbn [CodexCli.ensure_phases] in H. cbn [fst snd] in H.
  pose proof (ensure_registers v phase (CodexCli.shell_command script) nested timeout) as He.
  destruct (ensure_json_command_hook v phase _ nested timeout) as [w changed].
  cbn [fst orb] in *. destruct He as [Hr Hsame]. destruct changed.
  - apply bind_Ok in H as (b & d3 & Hd3 & H). injection H as _ <-.
    apply write_json_files in Hd3. exists w. split; [|done].
    unfold read_json_value, read_if_exists. unfold mbind, cmd_bind. by rewrite Hd3, Hprint.
  - injection H as _ <-. exists v. split; [done|]. by apply Hsame.
Qed.

Lemma keeps_write_policy P dest c :
  (forall q, P q -> q <> dest) -> keeps P (write_compiled_policy dest c).
Proof. intros Hp. unfold write_compiled_policy. keep. by apply keeps_write_managed. Qed.

Lemma keeps_read_config P p format : keeps P (Configure.read_config p format).
Proof.
  unfold Configure.read_config, read_json_value, Configure.read_jsonc_tolerant. keep.
Qed.

(** Removing legacy hooks spares every file that the run installed a hook into. *)
Lemma keeps_remove_legacy c s file event marker settings :
  settings ∈ installed_hook_paths s ->
  keeps (fun q => q = settings) (remove_legacy_hook c s file event marker).
Proof.
  intros Hin d r d' q E ->. unfold remove_legacy_hook in E.
  destruct (config_path d file) as [p|]; [|by injection E as <- <-].
  destruct (exists_at d p && negb (existsb (fun q => same_file d q p) (installed_hook_paths s))) eqn:Eb;
    [|by injection E as <- <-].
  apply andb_true_iff in Eb as [_ Hsame%negb_true_iff].
  assert (settings <> p) as Hne.
  { intros ->. assert (existsb (fun q => same_file d q p) (installed_hook_paths s) = true);
      [|congruence]. apply existsb_exists. exists p. split; [by apply list_elem_of_In|].
    unfold same_file. by rewrite String.eqb_refl. }
  refine (keeps_bind (fun q => q = settings) _ _ (keeps_read_config _ _ _) _ d r d' settings E eq_refl).
  intros config. keep. apply keeps_write_json. by intros q' ->.
Qed.

(** Setting Gemini up ends with its hook registered.  The settings of the user are written
    first and the hook of an older install is then taken out of the settings of the
    workspace; from a directory below the home directory these can be found under the same
    name.  Wherever setup runs and whatever is found above that directory, the settings of
    the user afterwards have the hook.  (The files of [disk] have one name each, so that
    [canonicalize] only ever keeps more hooks here.) *)
Theorem gemini_hook_survives_setup home url key spec d msgs d' :
  adaptation GEMINI_CLI = Some profile -> env "HOME" = Some home ->
  let settings := Paths.join home ".gemini/settings.json" in
  let command := CodexCli.shell_command (Paths.join home ".gemini/hooks/agentpact_beforetool.sh") in
  (forall v, read_json_value settings d = (Ok v, d) ->
     let w := (ensure_json_command_hook v "BeforeTool" command true (Some 600000%Z)).1 in
     from_str (serialized w) = Ok w) ->
  configure_execution_surface url key spec d = (Ok msgs, d') ->
  exists w, read_json_value settings d' = (Ok w, d') /\ registered "BeforeTool" command w = true.
Proof.
  intros Hprofile Hhome settings command Hprint Hrun.
  assert (delegate profile = None /\ (exec_configure <$> execution (surfaces profile)) = Some
    [InstallHook "hookscript" "user_settings" ["BeforeTool"] true (Some 600000%Z);
     WriteCompiledPolicy "policy";
     RemoveLegacyHook "workspace_settings" "BeforeTool" "agentpact_beforetool"] /\
    config_files profile =
    [("hookscript", static_json "~/.gemini/hooks/agentpact_beforetool.sh");
     ("policy", static_json "~/.gemini/policies/agentpact.toml");
     ("user_settings", static_json "~/.gemini/settings.json");
     ("workspace_settings", mkFile (WalkUpOptional [".gemini/settings.json"]) Configure.Json)])
    as (Hd & Hops & Hfiles) by (cbn in Hprofile; injection Hprofile as <-; done).
  assert (forall d name path, List.find (fun f => String.eqb f.1 name) (config_files profile) =
      Some (name, static_json ("~/" ++ path)) -> config_path d name = Ok (Paths.join home path)) as Hat.
  { intros d0 name path Hf. apply static_path; [done|]. unfold lookup_file. by rewrite Hf. }
  rewrite Hfiles in Hat.
  destruct (Paths.join_prefix home) as [before Hjoin].
  unfold configure_execution_surface, native_delegate in Hrun. rewrite Hd in Hrun.
  destruct (execution (surfaces profile)) as [s|]; [|done]. cbn in Hops. injection Hops as Hops. rewrite Hops in Hrun.
  unfold run_configure in Hrun. apply bind_Ok in Hrun as (s3 & d3 & Hrun & Hend).
  cbn [configure_ops configure_op] in Hrun.
  apply bind_Ok in Hrun as (s1 & d1 & H1 & Hrun). apply bind_Ok in Hrun as (s2 & d2 & H2 & Hrun).
  apply bind_Ok in Hrun as (s3' & d3' & H3 & [= -> ->]).
  apply bind_Ok in H1 as (q1 & e1 & Hq1 & H1). unfold path_of, reading_result in Hq1.
  rewrite (Hat _ _ ".gemini/hooks/agentpact_beforetool.sh") in Hq1 by done. injection Hq1 as <- <-.
  apply bind_Ok in H1 as (q2 & e2 & Hq2 & H1). unfold path_of, reading_result in Hq2.
  rewrite (Hat _ _ ".gemini/settings.json") in Hq2 by done. injection Hq2 as <- <-.
  apply bind_Ok in H1 as (more & e3 & Hinst & H1). injection H1 as <- <-.
  assert (forall rel, rel <> ".gemini/settings.json" -> str_starts_with "/" rel = false ->
    Paths.join home rel <> settings) as Hother.
  { intros rel Hne Hrel. unfold settings. rewrite !Hjoin by done. intros E%(f_equal lit).
    rewrite !lit_app in E. apply app_inv_head in E. by apply lit_inj in E. }
  destruct (hook_installed _ _ _ _ settings _ _ _ _ _ 
    (Hother ".gemini/hooks/agentpact_beforetool.sh" ltac:(done) ltac:(done)) Hprint Hinst)
    as (w & Hw & Hreg).
  exists w. split; [|done].
  assert (files d' !! settings = files e3 !! settings) as Hsame; [|by apply (read_json_same _ e3 _ _ e3)].
  apply bind_Ok in H2 as (q & e & Hq & H2). unfold path_of, reading_result in Hq.
  rewrite (Hat _ _ ".gemini/policies/agentpact.toml") in Hq by done. injection Hq as <- <-.
  apply bind_Ok in H2 as (more2 & e' & H2 & [= <- <-]).
  apply bind_Ok in H3 as (more3 & e4 & H3 & [= <- <-]).
  cbn [changed set_keys_by_file apply_set_keys] in Hend.
  apply bind_Ok in Hend as (last & e5 & [= <- <-] & [= _ <-]).
  etransitivity.
  { eapply keeps_remove_legacy; [|exact H3|reflexivity]. by apply elem_of_cons; left. }
  apply (keeps_write_policy (fun q => q = settings)) with (2 := H2); [|done].
  intros q -> E. by apply (Hother ".gemini/policies/agentpact.toml").
Qed.
End agent.

(** ** The realization of Codex: what [native_delegate] gives *)
Section codex.
Context {T : TomlFloat} {digest : CodexCli.CodexDigest} {serde : SerdeText} {feq : FloatEq}
  {store : McpConfigure.ConfigStore} {loader : CompilePolicy.PolicyLoader}.
Context (codex_home : option string) (home_dir : result string string) (codex_on_path : bool)
  (shape_error : toml -> string) (toml_to_string : toml -> result bytes string)
  (penv : CompilePolicy.Env) (o : CompilePolicy.HashOrder)
  (in_order : gmap string (list string) -> list (string * list string))
  (load_agent_profile : cmd (option Profile.AgentProfile))
  (save_agent_profile : Profile.AgentProfile -> cmd unit).

Definition CodexCli_realization : Realization := {|
  real_probe := CodexCli.probe codex_home home_dir codex_on_path toml_to_string;
  real_configure_execution _ _ _ :=
    CodexCli.configure_execution_surface codex_home home_dir shape_error penv o
      load_agent_profile save_agent_profile;
  real_configure_tool base_url inbound_key _ :=
    CodexCli.configure_tool_surface codex_home home_dir shape_error penv o in_order base_url inbound_key;
  real_configure_burn_control base_url inbound_key _ :=
    CodexCli.configure_burn_control_surface codex_home home_dir shape_error base_url inbound_key;
  real_undo_execution := CodexCli.undo_execution_surface codex_home home_dir shape_error;
  real_undo_tool := CodexCli.undo_tool_surface codex_home home_dir shape_error;
  real_undo_burn_control := CodexCli.undo_burn_control_surface codex_home home_dir shape_error;
  real_burn_control_config_paths :=
    match home_dir with Ok home => [CodexCli.codex_config_path_from codex_home home] | Err _ => [] end;
  real_scrub_residue := CodexCli.scrub_codex_residue codex_home home_dir shape_error |}.
End codex.

(** ** Runs *)
Module Sample.
#[local] Existing Instance one_float.
#[local] Existing Instance printed_floats.
#[local] Existing Instance Coded.serde.
#[local] Existing Instance McpConfigure.Sample.store.
#[local] Existing Instance CompilePolicy.Sample.loader.
#[local] Existing Instance CodexCli.Sample.digest.

Definition env (v : string) : option string := if String.eqb v "HOME" then Some "/home/u" else None.

Definition blank : AdaptationProfile :=
  mkAdaptation (mkDetect [] []) [] (mkSurfaces None None None) [] false None None None [] [] false.

Definition cline : AdaptationProfile := default blank (adaptation CLINE).
Definition gemini : AdaptationProfile := default blank (adaptation GEMINI_CLI).

Definition codex : Realization :=
  CodexCli_realization None (Ok "/home/u") false (fun _ => "") (fun _ => Err "")
    CompilePolicy.Sample.env CompilePolicy.map_order map_to_list (mret None) (fun _ => mret tt).

(** The user of Cline has a provider of their own, with a key. *)
Definition providers : json :=
  JObject [("version", JNumber 1); ("lastUsedProvider", JString "anthropic")].

Definition cline_disk : disk :=
  mkDisk {["/home/u/.cline/data/settings/providers.json" := serialized providers;
           "kyrisd.yaml" := McpConfigure.DEFAULT_CONFIG]} None "now".

Definition config : McpConfigure.KyrisdConfig :=
  McpConfigure.mkConfig "127.0.0.1:4100" false "" "" (McpRouting.mkMcp false 0 []) [].

Definition set_cline_up : result (list string) string * disk :=
  configure_burn_control_surface env None (fun s => s) false CompilePolicy.Sample.env
    CompilePolicy.map_order map_to_list (fun b => b) (fun _ => Ok "") (fun _ p => Some p)
    "cline" cline codex "http://127.0.0.1:4100" "sk-kyris" ∅ cline_disk.

Lemma cline_setup_is_routed_witness :
  set_cline_up.1 = Ok ["wrote /home/u/.cline/data/settings/providers.json"] /\
  (exists w, read_json_value "/home/u/.cline/data/settings/providers.json" set_cline_up.2 = (Ok w, set_cline_up.2) /\
     JsonPatch.value_at w ["providers"; "anthropic"; "settings"; "baseUrl"] =
       Some (JString "http://127.0.0.1:4100/v1")) /\
  probe_burn_control env None (fun _ => Err "") "cline" cline set_cline_up.2 =
    Profile.adapted Profile.BurnConfigRewrite.
Proof.
  split; [vm_compute; reflexivity|].
  apply (cline_setup_is_routed env None (fun _ => None) (fun _ => None) (fun _ => Err "")
    (fun s => s) false CompilePolicy.Sample.env CompilePolicy.map_order map_to_list (fun b => b)
    (fun _ => Ok "") (fun _ => Err "") (fun _ p => Some p) "cline" cline codex "/home/u" config
    "sk-kyris" ∅ cline_disk ["wrote /home/u/.cline/data/settings/providers.json"] set_cline_up.2).
  - vm_compute; reflexivity.
  - reflexivity.
  - vm_compute; reflexivity.
  - intros q [= <-]. vm_compute. congruence.
  - vm_decided.
  - intros v _. apply Coded.coded_reads_back.
  - vm_compute; reflexivity.
Defined.

(** Setup runs in a directory of the home directory; the settings of the workspace are the
    settings of the user, with a hook of an older install. *)
Definition settings0 : json :=
  JObject [("hooks", JObject [("BeforeTool",
    JArray [new_entry "/home/u/.gemini/hooks/agentpact_beforetool.sh" true None])])].

Definition gemini_disk : disk :=
  mkDisk {["/home/u/.gemini/settings.json" := serialized settings0]} None "now".

Definition set_gemini_up : result (list string) string * disk :=
  configure_execution_surface env (Some "/home/u/work/repo") (fun s => s) false
    CompilePolicy.Sample.env CompilePolicy.map_order map_to_list (fun b => b) (fun _ => Ok "")
    (fun _ p => Some p) "gemini-cli" gemini codex "http://127.0.0.1:4100" "sk-kyris" ∅ gemini_disk.

Definition gemini_said : list string := match set_gemini_up.1 with Ok l => l | Err _ => [] end.

Lemma gemini_hook_survives_setup_witness :
  config_path env (Some "/home/u/work/repo") "gemini-cli" gemini gemini_disk "workspace_settings" =
    Ok "/home/u/.gemini/settings.json" /\
  exists w, read_json_value "/home/u/.gemini/settings.json" set_gemini_up.2 = (Ok w, set_gemini_up.2) /\
    registered "BeforeTool"
      (CodexCli.shell_command "/home/u/.gemini/hooks/agentpact_beforetool.sh") w = true.
Proof.
  split; [vm_compute; reflexivity|].
  apply (gemini_hook_survives_setup env (Some "/home/u/work/repo") (fun s => s) false
    CompilePolicy.Sample.env CompilePolicy.map_order map_to_list (fun b => b) (fun _ => Ok "")
    (fun _ p => Some p) "gemini-cli" gemini codex "/home/u" "http://127.0.0.1:4100" "sk-kyris" ∅
    gemini_disk gemini_said set_gemini_up.2).
  - vm_compute; reflexivity.
  - reflexivity.
  - intros v _. apply Coded.coded_reads_back.
  - vm_compute; reflexivity.
Defined.
End Sample.
End GenericAgent.
