(* ===== verification/Uninstall.v ===== *)
(** * Uninstalling

    [cli/src/lifecycle/uninstall.rs] with [undo_agent] of [cli/src/agents/undo.rs] on the
    disk: every agent is undone and scrubbed, then every entry of the manifest, then the
    hook scripts at known places are swept.  Stopping kyrisd, the calls of [launchctl] and
    the report at the end are left out; what goes to the log is kept. *)

From S2P Require Import Prelude Text Toml TomlPatch Json JsonPatch JsonEdit Manifest Configure CompilePolicy McpRouting McpConfigure Profile CodexCli Scrub Paths Launch Adaptation Commands GenericAgent.

Module Uninstall.
Import JsonPatch Manifest Commands.
Local Open Scope string_scope.
Local Open Scope list_scope.

(** An agent of the registry. *)
Record Agent {T : TomlFloat} := mkAgent {
  id : string;
  plan : Profile.AgentIntegrationPlan;
  routing : option Launch.ProviderRouting;
  real : GenericAgent.Realization }.

(** A line of the install log, by the method that writes it. *)
Inductive logged :=
| Removed (path : string)
| Stripped (path : string)
| Unpatched (path : string)
| Warn (message : string)
| Info (message : string).

(** [str::trim_start_matches]. *)
Definition trim_start_str (p s : string) : string :=
  of_bytes (GenericAgent.trim_start_matches (String.length s) (lit p) (lit s)).

Definition log_manifest_action (action : string) : logged :=
  if str_starts_with "removed " action then Removed (trim_start_str "removed " action)
  else if str_starts_with "removed kyris lines from " action then
    Stripped (trim_start_str "removed kyris lines from " action)
  else if str_starts_with "unapplied JSON patch on " action
          || str_starts_with "unapplied TOML patch on " action then
    Unpatched (trim_start_str "unapplied TOML patch on "
                 (trim_start_str "unapplied JSON patch on " action))
  else if str_starts_with "skipped " action then Warn action
  else if contains (lit "could not be fully cleaned") (lit action) then Warn action
  else Info action.

Definition WELL_KNOWN_HOOK_PATHS : list string :=
  [".claude/hooks/agentpact_pretooluse.sh"; ".codex/kyris_pretooluse.sh";
   ".codex/hooks/agentpact_pretooluse.sh"; ".gemini/kyris_pretooluse.sh";
   ".gemini/hooks/agentpact_beforetool.sh"; ".gemini/policies/agentpact.toml";
   ".cline/hooks/PreToolUse.cjs"; ".config/opencode/kyris-governance.js"].

Section uninstall.
Context {T : TomlFloat} {serde : SerdeText} {feq : FloatEq}.
Context (env : string -> option string).
Context (load_agent_profile : string -> cmd (option Profile.AgentProfile))
  (save_agent_profile : Profile.AgentProfile -> cmd unit).

(** ** Undoing an agent: [undo.rs] *)

(** [unwrap_or_else] of a step that may fail: what it prints then. *)
Definition or_warn {A} (m : cmd A) (said : A -> list string) (warning : string -> string)
    : cmd (list string) := fun d =>
  match m d with
  | (Ok a, d') => (Ok (said a), d')
  | (Err e, d') => (Ok [warning e], d')
  end.

Definition undo_agent (a : Agent) : cmd (list string) :=
  tool ← (if Profile.is_adapted (Profile.plan_tool (plan a)) then GenericAgent.real_undo_tool (real a)
          else mret []);
  execution ← (if Profile.is_adapted (Profile.plan_execution (plan a))
               then GenericAgent.real_undo_execution (real a) else mret []);
  burn ← (if Profile.is_adapted (Profile.plan_burn_control (plan a))
          then GenericAgent.real_undo_burn_control (real a) else mret []);
  shim ← (if Profile.requires_path_shim (plan a) then Launch.uninstall_shim env (id a) else mret false);
  exports ← Launch.undo_env_agent env (id a) (routing a);
  scrubbed ← or_warn (GenericAgent.real_scrub_residue (real a)) (fun changes => changes)
               (fun e => ("Warning: residue scrub for " ++ id a ++ " failed: " ++ e)%string);
  stored ← load_agent_profile (id a);
  let p := default (Profile.new_empty (id a)) stored in
  save_agent_profile (Profile.with_disconnected (Profile.with_detected
    (Profile.with_surfaces p Profile.none Profile.none Profile.none) (Profile.detected p) []) true);;
  mret (tool ++ execution ++ burn
        ++ (if shim : bool then [("Removed PATH shim for " ++ id a)%string] else [])
        ++ exports ++ scrubbed).

(** ** The command: [uninstall.rs] *)

Definition never_configured (p : Profile.AgentProfile) : bool :=
  let off {M} (s : Profile.SurfaceState M) := match Profile.level s with Profile.LevelNone => true | _ => false end in
  off (Profile.execution p) && off (Profile.tool p) && off (Profile.burn_control p)
  && match Profile.managed_files p with [] => true | _ => false end.

(** A profile that cannot be read counts as none. *)
Fixpoint undo_all_agents (agents : list Agent) : cmd (list string) :=
  match agents with
  | [] => mret []
  | a :: agents => fun d =>
      match load_agent_profile (id a) d with
      | (Ok (Some p), d) =>
          if never_configured p then undo_all_agents agents d
          else
            (said ← or_warn (undo_agent a) (fun said => said)
                      (fun e => ("Warning: cleanup of " ++ id a ++ " failed: " ++ e)%string);
             rest ← undo_all_agents agents;
             mret (("Cleaning up " ++ id a ++ "...")%string :: said ++ rest)) d
      | (_, d) => undo_all_agents agents d
      end
  end.

Definition sweep_one (path : string) : cmd logged :=
  existing ← read_if_exists path;
  match existing with
  | None => mret (Info ("sweep: " ++ path ++ " already absent")%string)
  | Some _ =>
      marked ← Scrub.file_has_kyris_marker path;
      if negb marked then mret (Info ("sweep: " ++ path ++ " has no kyris marker — left alone")%string)
      else remove_if_exists path;; mret (Removed path)
  end.

Fixpoint sweep_each (home : string) (paths : list string) : cmd (list logged) :=
  match paths with
  | [] => mret []
  | rel :: paths =>
      here ← sweep_one (Paths.join home rel);
      rest ← sweep_each home paths;
      mret (here :: rest)
  end.

Definition sweep_in_home (home : string) : cmd (list logged) := sweep_each home WELL_KNOWN_HOOK_PATHS.

Definition sweep_well_known_hook_scripts : cmd (list logged) :=
  match env "HOME" with
  | None => mret [Warn "HOME not set; skipping hook script sweep"]
  | Some home => sweep_in_home home
  end.

Definition unregister_package : cmd (list logged) :=
  let home := default "" (env "HOME") in
  let registry_dir := Paths.join (match env "XDG_DATA_HOME" with
                                  | Some d => d
                                  | None => Paths.join (Paths.join home ".local") "share"
                                  end) "kyr-packages" in
  let manifest := Paths.join registry_dir "kyris.json" in
  existing ← read_if_exists manifest;
  match existing with
  | Some _ => remove_if_exists manifest;; mret [Removed manifest]
  | None => mret [Info ("package manifest not found (already absent): " ++ manifest)%string]
  end.

(** [codex] is the scrub of [codex_cli].  The first part is what is printed. *)
Definition run (agents : list Agent) (codex : cmd (list string)) : cmd (list string * list logged) :=
  said ← undo_all_agents agents;
  actions ← restore_all_manifest_entries;
  scrubbed ← or_warn codex (fun changes => changes)
               (fun e => ("Warning: codex residue scrub failed: " ++ e)%string);
  swept ← sweep_well_known_hook_scripts;
  package ← unregister_package;
  mret (said ++ match actions with
                | [] => ["No managed install actions were recorded."]
                | _ => actions
                end ++ scrubbed,
        (log_manifest_action <$> actions) ++ swept ++ package).

(** ** Undoing the manifest *)

Lemma unapply_all_keeps p entries actions warnings :
  Forall (fun e => path e <> p) entries ->
  keeps (fun q => q = p) (unapply_all entries actions warnings).
Proof.
  intros Hall d r d' q E ->. revert actions warnings d E.
  induction Hall as [|e entries He _ IH]; intros actions warnings d E; [by injection E as <- <-|].
  cbn [unapply_all] in E. destruct (unapply_entry e d) as [[a|w] d1] eqn:Eu.
  all: rewrite (IH _ _ _ E).
  all: apply (keeps_unapply (fun q => q = p) (path e)) with (3 := Eu); [|done|done].
  all: intros q -> E'; by apply He.
Qed.

(** A file that is not there stays away. *)
Lemma unapply_absent p e d r d' :
  files d !! p = None -> unapply_entry e d = (r, d') -> files d' !! p = None.
Proof.
  intros Hp E. destruct (decide (path e = p)) as [<-|Hne].
  - revert E. unfold unapply_entry, read_if_exists, remove_if_exists. unfold mbind, cmd_bind.
    assert (bool_decide (is_Some (files d !! path e)) = false) as Hno
      by (rewrite Hp; apply bool_decide_eq_false_2; by intros []).
    destruct (action e); cbn; rewrite ?Hno; intros [= <- <-]; cbn; [apply lookup_delete_eq|done..].
  - rewrite <- Hp. apply (keeps_unapply (fun q => q = p) (path e)) with (3 := E); [|done|done].
    intros q -> E'; by apply Hne.
Qed.

Lemma unapply_all_absent p entries actions warnings d r d' :
  files d !! p = None -> unapply_all entries actions warnings d = (r, d') -> files d' !! p = None.
Proof.
  revert actions warnings d. induction entries as [|e entries IH]; intros actions warnings d Hp E;
    [by injection E as _ <-|].
  cbn [unapply_all] in E. destruct (unapply_entry e d) as [[a|w] d1] eqn:Eu;
    (eapply IH; [|exact E]); by eapply unapply_absent.
Qed.

(** An entry that made the file removes it, whatever comes before and after. *)
Lemma unapply_all_created p entries actions warnings d r d' :
  Exists (fun e => path e = p /\ action e = Created) entries ->
  unapply_all entries actions warnings d = (r, d') -> files d' !! p = None.
Proof.
  intros Hex. revert actions warnings d. induction Hex as [e entries [Hp Ha]|e entries _ IH];
    intros actions warnings d E; cbn [unapply_all] in E.
  - assert (exists a d1, unapply_entry e d = (Ok a, d1) /\ files d1 !! p = None) as (a & d1 & Eu & Hf).
    { unfold unapply_entry, remove_if_exists. unfold mbind, cmd_bind. rewrite Ha, Hp.
      eexists _, _. split; [done|]. cbn. apply lookup_delete_eq. }
    rewrite Eu in E. by eapply unapply_all_absent.
  - destruct (unapply_entry e d) as [[a|w] d1]; by eapply IH.
Qed.

Lemma restore_all_split d r d' :
  restore_all_manifest_entries d = (r, d') ->
  exists x d1, unapply_all (rev (default [] (manifest d))) [] [] d = (Ok x, d1) /\ files d' = files d1.
Proof.
  unfold restore_all_manifest_entries, load_manifest. unfold mbind, cmd_bind.
  assert (forall entries actions warnings d, exists x d1,
    unapply_all entries actions warnings d = (Ok x, d1)) as Hok.
  { induction entries as [|e entries IH]; intros actions warnings d0; [by do 2 eexists|].
    cbn [unapply_all]. by destruct (unapply_entry e d0) as [[a|w] d1]. }
  destruct (Hok (rev (default [] (manifest d))) [] [] d) as ([actions warnings] & d1 & E).
  rewrite E. intros [= _ <-]. by do 2 eexists.
Qed.

(** A configuration that was saved is an entry of its own, and goes with it. *)
Lemma restore_deletes_config {store : McpConfigure.ConfigStore} c p d d1 r d2 :
  McpConfigure.config_path = Ok p ->
  Forall (fun e => is_entry p "config" e = true -> action e = Created) (base d) ->
  McpConfigure.save_config c d = (Ok tt, d1) ->
  restore_all_manifest_entries d1 = (r, d2) ->
  is_Some (files d1 !! p) /\ files d2 !! p = None.
Proof.
  intros Hp Hbase Hsave Hrest. unfold McpConfigure.save_config in Hsave. rewrite Hp in Hsave.
  apply bind_Ok in Hsave as (q & d3 & [= <- <-] & Hsave).
  apply bind_Ok in Hsave as (contents & d3 & Ht & Hsave).
  assert (d3 = d) as ->.
  { destruct (McpConfigure.yaml_to_string c); [|done]. by injection Ht. }
  apply bind_Ok in Hsave as (b & d4 & Hw & [= <-]).
  split; [by rewrite (McpConfigure.write_managed_file_contents _ _ _ _ _ _ _ Hw)|].
  apply restore_all_split in Hrest as (x & d5 & Hu & ->).
  eapply unapply_all_created; [|exact Hu]. apply Exists_exists.
  assert (exists e, e ∈ default [] (manifest d4) /\ is_entry p "config" e = true /\ action e = Created)
    as (e & He & Hi & Ha).
  { assert (forall d0, manifest d0 = manifest d -> forall d0',
      record_manifest_if_absent p Created "config" true d0 = (Ok tt, d0') ->
      exists e, e ∈ default [] (manifest d0') /\ is_entry p "config" e = true /\ action e = Created) as Hrec.
    { intros d0 Hm d0' H. unfold record_manifest_if_absent, load_manifest, now_rfc3339, save_manifest in H.
      unfold mbind, cmd_bind in H. rewrite Hm in H. fold (base d) in H.
      destruct (existsb (is_entry p "config") (base d)) eqn:Ee; injection H as <-.
      - apply existsb_exists in Ee as (e & Hin & Hi). exists e. rewrite Hm. fold (base d).
        apply list_elem_of_In in Hin. split; [done|]. split; [done|].
        rewrite Forall_forall in Hbase. by apply Hbase.
      - eexists. cbn [manifest]. change (default [] (Some ?l)) with l.
        split; [apply elem_of_app; right; by apply elem_of_cons; left|].
        unfold is_entry. cbn. by rewrite String.eqb_refl. }
    unfold write_managed_file in Hw. apply bind_Ok in Hw as (existing & d6 & [= <- <-] & Hw).
    destruct (bool_decide _).
    - apply bind_Ok in Hw as ([] & d7 & H7 & [= _ <-]). by eapply Hrec.
    - apply bind_Ok in Hw as ([] & d7 & H7 & Hw).
      assert (d7 = d) as ->.
      { destruct (McpConfigure.yaml_well_formed contents); [|done]. by injection H7. }
      apply bind_Ok in Hw as ([] & d8 & [= <-] & Hw).
      apply bind_Ok in Hw as ([] & d9 & H9 & [= _ <-]). by eapply Hrec in H9. }
  exists e. rewrite list_elem_of_In, <- in_rev, <- list_elem_of_In.
  unfold is_entry in Hi. apply andb_true_iff in Hi as [Hi%String.eqb_eq _]. done.
Qed.

(** What the scrub writes is an entry too, and is taken back. *)
Lemma restore_puts_residue_back id authority p contents om nm d :
  files d !! p = Some contents -> from_str contents = Ok (JObject om) ->
  wf (JObject om) = true -> no_entry p (base d) ->
  Scrub.scrub_kyris_json authority (JObject om) = (JObject nm, true) ->
  json_eqb (JObject om) (JObject nm) = false ->
  from_str (serialized (JObject nm)) = Ok (JObject nm) ->
  exists d1 r d2 res,
    GenericAgent.scrub_config id authority p Configure.Json d =
      (Ok [("scrubbed kyris residue from " ++ p)%string], d1) /\
    files d1 !! p = Some (serialized (JObject nm)) /\
    restore_all_manifest_entries d1 = (r, d2) /\
    files d2 !! p = Some (serialized res) /\ json_eqb res (JObject om) = true.
Proof.
  intros Hp Hread Hwf Hbase Hscrub Hne Hprint.
  assert (starts_as p d om) as Hstart by (unfold starts_as; by rewrite Hp).
  assert (installable om (JObject nm)) as Hinst.
  { split_and!; [|by exists nm|done|done]. change (JObject nm) with ((JObject nm, true).1).
    rewrite <- Hscrub. by apply Scrub.scrub_wf. }
  set (c := GenericAgent.component id "scrub").
  destruct (first_write p c d om Hwf Hbase Hstart (JObject nm) Hinst) as (b & d1 & Hw & Hrec).
  destruct (restore_recorded p c d om Hwf Hbase Hstart (JObject nm) d1 Hinst Hrec) as
    (d3 & _ & Hrest & _ & _ & Hmine); [by rewrite Hp|].
  rewrite Hp in Hmine. destruct Hmine as (res & Hres & Heq).
  destruct (restore_all_manifest_entries d1) as [r d2] eqn:Hall.
  exists d1, r, d2, res. split_and!; [| | done| |done].
  - unfold GenericAgent.scrub_config, McpConfigure.attempt. unfold mbind, cmd_bind.
    assert (Configure.read_config p Configure.Json d = (Ok (JObject om), d)) as ->.
    { unfold Configure.read_config, read_json_value, read_if_exists. unfold mbind, cmd_bind. cbv beta.
      rewrite Hp, bool_decide_eq_true_2 by eauto. cbv beta. by rewrite Hp, Hread. }
    cbn [fst ok]. rewrite Hscrub. cbv iota. fold c. by rewrite Hw.
  - destruct Hrec as [Hf _]. by rewrite Hf, lookup_insert_eq.
  - apply restore_all_split in Hall as (x & d4 & Hu & ->).
    destruct Hrec as (_ & om' & t & Hm & _). rewrite Hm in Hu. change (default [] (Some ?l)) with l in Hu.
    rewrite rev_app_distr in Hu. cbn [rev app unapply_all] in Hu.
    unfold restore_manifest_entry_component, load_manifest in Hrest. unfold mbind, cmd_bind in Hrest.
    rewrite Hm in Hrest. change (default [] (Some ?l)) with l in Hrest.
    erewrite find_entry_last in Hrest by done.
    destruct (unapply_entry _ d1) as [[a|w] d5]; [|done].
    rewrite delete_last in Hrest.
    destruct (save_or_remove_base (base d) d5) as (d6 & Hs & Hf6 & _). rewrite Hs in Hrest.
    injection Hrest as <-. rewrite Hf6 in Hres. rewrite <- Hres.
    apply (unapply_all_keeps p) with (2 := Hu); [|done].
    apply Forall_rev. exact Hbase.
Qed.

(** ** The sweep *)

Lemma sweep_one_spec p d r d' :
  sweep_one p d = (r, d') ->
  (forall q, q <> p -> files d' !! q = files d !! q) /\
  files d' !! p = match files d !! p with
                  | Some c => if existsb (fun m => contains (lit m) c) Scrub.KYRIS_CONTENT_MARKERS
                              then None else Some c
                  | None => None
                  end.
Proof.
  unfold sweep_one, Scrub.file_has_kyris_marker, read_if_exists, remove_if_exists.
  unfold mbind, cmd_bind. cbv beta. destruct (files d !! p) as [c|] eqn:E; [|by intros [= <- <-]].
  cbv beta. rewrite E. cbn [mret cmd_ret]. destruct (existsb _ _); cbn [negb]; intros [= <- <-]; [|done].
  cbn. split; [|apply lookup_delete_eq]. intros q Hq. by rewrite lookup_delete_ne.
Qed.

(** The sweep of the home directory removes of the known hook scripts those that carry a
    signature of kyris, all of them, and touches no other file. *)
Lemma sweep_in_home_spec home d r d' :
  sweep_in_home home d = (r, d') ->
  forall q, files d' !! q =
    if bool_decide (q ∈ Paths.join home <$> WELL_KNOWN_HOOK_PATHS) then
      match files d !! q with
      | Some c => if existsb (fun m => contains (lit m) c) Scrub.KYRIS_CONTENT_MARKERS
                  then None else Some c
      | None => None
      end
    else files d !! q.
Proof.
  unfold sweep_in_home. generalize WELL_KNOWN_HOOK_PATHS as paths. intros paths. revert r d d'.
  induction paths as [|rel paths IH]; intros r d d' E q; [by injection E as <- <-|].
  cbn [sweep_each] in E. unfold mbind, cmd_bind in E.
  destruct (sweep_one (Paths.join home rel) d) as [[here|w] d1] eqn:E1.
  2:{ exfalso. revert E1. unfold sweep_one, Scrub.file_has_kyris_marker, read_if_exists.
      unfold mbind, cmd_bind. cbv beta. destruct (files d !! _); [|done]. cbv beta.
      cbn [mret cmd_ret]. by destruct (negb _). }
  destruct (sweep_each home paths d1) as [r2 d2] eqn:E2.
  assert (d' = d2) as -> by (by destruct r2; injection E as _ <-).
  rewrite (IH _ _ _ E2 q). apply sweep_one_spec in E1 as [Hother Hmine].
  cbn [fmap list_fmap]. destruct (decide (q = Paths.join home rel)) as [->|Hne].
  - rewrite (bool_decide_eq_true_2 (_ ∈ _ :: _)) by (by apply elem_of_cons; left). rewrite Hmine.
    destruct (files d !! _) as [c|]; [|by case_bool_decide].
    destruct (existsb _ _) eqn:Ex; case_bool_decide; rewrite ?Ex; done.
  - rewrite Hother by done. erewrite (bool_decide_ext (q ∈ Paths.join home rel :: _)); [done|].
    rewrite elem_of_cons. naive_solver.
Qed.

(** ** What uninstalling does to a file *)

Lemma run_around (R : option bytes -> option bytes -> Prop) p agents codex d said d1 r d2 :
  (forall x y z, R x y -> R y z -> R x z) -> (forall x, R x x) ->
  (forall d r d', codex d = (r, d') -> R (files d !! p) (files d' !! p)) ->
  (forall d r d', sweep_well_known_hook_scripts d = (r, d') -> R (files d !! p) (files d' !! p)) ->
  (forall d r d', unregister_package d = (r, d') -> R (files d !! p) (files d' !! p)) ->
  undo_all_agents agents d = (Ok said, d1) -> run agents codex d = (r, d2) ->
  exists r1 d3, restore_all_manifest_entries d1 = (r1, d3) /\ R (files d3 !! p) (files d2 !! p).
Proof.
  intros Htrans Hrefl Hcodex Hsweep Hpackage Hundo Hrun. unfold run, mbind, cmd_bind in Hrun.
  rewrite Hundo in Hrun. destruct (restore_all_manifest_entries d1) as [[actions|e] d3];
    [|injection Hrun as _ <-; by do 2 eexists].
  exists (Ok actions), d3. split; [done|]. unfold or_warn in Hrun.
  destruct (codex d3) as [rc d4] eqn:Ec. specialize (Hcodex _ _ _ Ec).
  destruct (sweep_well_known_hook_scripts d4) as [rs d5] eqn:Es. specialize (Hsweep _ _ _ Es).
  destruct (unregister_package d5) as [rp d6] eqn:Ep. specialize (Hpackage _ _ _ Ep).
  destruct rc; rewrite Es in Hrun; (destruct rs; [rewrite Ep in Hrun; destruct rp|]);
    injection Hrun as _ <-; eauto.
Qed.

Lemma sweep_known d r d' :
  sweep_well_known_hook_scripts d = (r, d') ->
  forall q, files d' !! q = files d !! q \/
    files d' !! q = None /\
    exists home, env "HOME" = Some home /\ q ∈ Paths.join home <$> WELL_KNOWN_HOOK_PATHS.
Proof.
  unfold sweep_well_known_hook_scripts. destruct (env "HOME") as [home|]; [|intros [= _ <-]; by left].
  intros E q. rewrite (sweep_in_home_spec _ _ _ _ E q). case_bool_decide; [|by left].
  destruct (files d !! q) as [c|]; [|by left]. destruct (existsb (fun m => contains (lit m) c) _); [right; eauto|by left].
Qed.

(** The entry of kyris in the registry of packages. *)
Definition package_manifest : string :=
  Paths.join (Paths.join (match env "XDG_DATA_HOME" with
                          | Some d => d
                          | None => Paths.join (Paths.join (default "" (env "HOME")) ".local") "share"
                          end) "kyr-packages") "kyris.json".

Lemma unregister_known d r d' :
  unregister_package d = (r, d') ->
  forall q, files d' !! q = files d !! q \/ files d' !! q = None /\ q = package_manifest.
Proof.
  unfold unregister_package, read_if_exists, remove_if_exists. unfold mbind, cmd_bind. cbv beta.
  fold package_manifest. destruct (files d !! package_manifest) as [c|]; intros [= _ <-] q; [|by left].
  cbn. destruct (decide (q = package_manifest)) as [->|Hne]; [right; by rewrite lookup_delete_eq|].
  left. by rewrite lookup_delete_ne.
Qed.

(** No surface of the agent is governed, as far as its profile says. *)
Definition unconfigured (a : Agent) : Prop :=
  forall d, exists r, load_agent_profile (id a) d = (r, d) /\
    match r with Ok (Some p) => never_configured p = true | _ => True end.

Lemma undo_unconfigured agents d :
  Forall unconfigured agents -> undo_all_agents agents d = (Ok [], d).
Proof.
  intros Hall. induction Hall as [|a agents Ha _ IH]; [done|]. cbn [undo_all_agents].
  destruct (Ha d) as (r & -> & Hr). destruct r as [[p|]|]; [by rewrite Hr|done..].
Qed.

(** C26. Uninstalling deletes the configuration of kyrisd.  Any command that saves it, one
    that adds a server of an agent for instance, records it in the manifest as a file kyris
    created, also when the user wrote it or an earlier version left it; the uninstall
    removes it, with whatever the user had in it, even if no agent is configured any more. *)
Theorem uninstall_deletes_config {store : McpConfigure.ConfigStore} agents codex c p d d1 r d2 :
  McpConfigure.config_path = Ok p ->
  Forall (fun e => is_entry p "config" e = true -> action e = Created) (base d) ->
  McpConfigure.save_config c d = (Ok tt, d1) ->
  Forall unconfigured agents -> keeps (fun q => q = p) codex ->
  run agents codex d1 = (r, d2) ->
  is_Some (files d1 !! p) /\ files d2 !! p = None.
Proof.
  intros Hp Hbase Hsave Hagents Hcodex Hrun.
  destruct (run_around (fun x y => x = None -> y = None) p agents codex d1 [] d1 r d2)
    as (r1 & d3 & Hrest & Hgone).
  - eauto.
  - done.
  - intros d0 r0 d0' E H. by rewrite (Hcodex _ _ _ _ E eq_refl).
  - intros d0 r0 d0' E H. destruct (sweep_known _ _ _ E p) as [->|[? _]]; done.
  - intros d0 r0 d0' E H. destruct (unregister_known _ _ _ E p) as [->|[? _]]; done.
  - by apply undo_unconfigured.
  - done.
  - destruct (restore_deletes_config c p d d1 r1 d3 Hp Hbase Hsave Hrest) as [? ?]. auto.
Qed.

(** The command succeeds and has nothing to do. *)
Definition idle {A} (m : cmd A) (d : disk) : Prop := exists x, m d = (Ok x, d).

(** What [undo_agent] does before the scrub finds nothing to do: the manifest has no record
    of the agent. *)
Definition unrecorded (a : Agent) (d : disk) : Prop :=
  idle (GenericAgent.real_undo_tool (real a)) d /\
  idle (GenericAgent.real_undo_execution (real a)) d /\
  idle (GenericAgent.real_undo_burn_control (real a)) d /\
  idle (Launch.uninstall_shim env (id a)) d /\
  idle (Launch.undo_env_agent env (id a) (routing a)) d.

Lemma undo_unrecorded a d changes d1 profile :
  unrecorded a d -> GenericAgent.real_scrub_residue (real a) d = (Ok changes, d1) ->
  (forall d, load_agent_profile (id a) d = (Ok profile, d)) ->
  (forall p d, save_agent_profile p d = (Ok tt, d)) ->
  exists said, undo_agent a d = (Ok said, d1).
Proof.
  intros ([t Ht] & [e He] & [b Hb] & [s Hs] & [x Hx]) Hscrub Hload Hsave.
  unfold undo_agent, mbind, cmd_bind.
  destruct (Profile.is_adapted (Profile.plan_tool (plan a))); [rewrite Ht|]; cbn [mret cmd_ret];
  (destruct (Profile.is_adapted (Profile.plan_execution (plan a))); [rewrite He|]); cbn [mret cmd_ret];
  (destruct (Profile.is_adapted (Profile.plan_burn_control (plan a))); [rewrite Hb|]); cbn [mret cmd_ret];
  (destruct (Profile.requires_path_shim (plan a)); [rewrite Hs|]); cbn [mret cmd_ret];
  rewrite Hx; unfold or_warn; rewrite Hscrub, Hload, Hsave; eauto.
Qed.

(** Uninstalling brings back what the scrub took out.  The scrub of an agent is there
    for a manifest that has no record of it; it writes the configuration through the
    manifest, under a component of its own, and undoing the manifest, which comes after the
    agents, applies the reverse.  A configuration in which the scrub finds something of
    kyris ends up as it was before the uninstall, credential, address and all. *)
Theorem uninstall_restores_residue a others codex authority p contents om nm d profile r d2 :
  files d !! p = Some contents -> from_str contents = Ok (JObject om) ->
  wf (JObject om) = true -> no_entry p (base d) ->
  Scrub.scrub_kyris_json authority (JObject om) = (JObject nm, true) ->
  json_eqb (JObject om) (JObject nm) = false ->
  from_str (serialized (JObject nm)) = Ok (JObject nm) ->
  unrecorded a d ->
  GenericAgent.real_scrub_residue (real a) d = GenericAgent.scrub_config (id a) authority p Configure.Json d ->
  (forall d, load_agent_profile (id a) d = (Ok (Some profile), d)) -> never_configured profile = false ->
  (forall p d, save_agent_profile p d = (Ok tt, d)) ->
  Forall unconfigured others -> keeps (fun q => q = p) codex ->
  (forall home, env "HOME" = Some home -> p ∉ Paths.join home <$> WELL_KNOWN_HOOK_PATHS) ->
  p <> package_manifest ->
  run (a :: others) codex d = (r, d2) ->
  exists res, files d2 !! p = Some (serialized res) /\ json_eqb res (JObject om) = true.
Proof.
  intros Hp Hread Hwf Hbase Hscrub Hne Hprint Hun Hreal Hload Hconf Hsave Hothers Hcodex Hsweep Hpkg Hrun.
  destruct (restore_puts_residue_back (id a) authority p contents om nm d Hp Hread Hwf Hbase Hscrub Hne Hprint)
    as (d1 & r1 & d3 & res & Hd1 & _ & Hrest & Hres & Heq).
  rewrite Hd1 in Hreal. destruct (undo_unrecorded _ _ _ _ _ Hun Hreal Hload Hsave) as [said Hundo].
  destruct (run_around eq p (a :: others) codex d
    (("Cleaning up " ++ id a ++ "...")%string :: said ++ []) d1 r d2) as (r1' & d3' & Hrest' & Hsame).
  - by intros ? ? ? -> ->.
  - done.
  - intros d0 r0 d0' E. by rewrite (Hcodex _ _ _ _ E eq_refl).
  - intros d0 r0 d0' E. destruct (sweep_known _ _ _ E p) as [->|[_ (home & Hh & Hin)]]; [done|].
    by destruct (Hsweep home Hh).
  - intros d0 r0 d0' E. by destruct (unregister_known _ _ _ E p) as [->|[_ ->]].
  - cbn [undo_all_agents]. rewrite Hload, Hconf. unfold or_warn, mbind, cmd_bind. rewrite Hundo.
    by rewrite undo_unconfigured.
  - done.
  - rewrite Hrest in Hrest'. injection Hrest' as _ <-. exists res. by rewrite <- Hsame.
Qed.

(** ** The log *)

Lemma trim_start_str_once p s :
  p <> "" -> str_starts_with p s = false -> trim_start_str p (p ++ s) = s.
Proof.
  intros Hp Hs. unfold trim_start_str. destruct p as [|b p]; [done|].
  change (String.length (String b p ++ s)) with (S (String.length (p ++ s))).
  cbn [GenericAgent.trim_start_matches]. unfold str_strip_prefix at 1.
  rewrite lit_app, starts_with_app, drop_app_length.
  assert (forall fuel, GenericAgent.trim_start_matches fuel (lit (String b p)) (lit s) = lit s) as ->.
  { intros [|fuel]; [done|]. cbn [GenericAgent.trim_start_matches]. unfold str_strip_prefix.
    unfold str_starts_with in Hs. by rewrite Hs. }
  apply lit_inj. by rewrite lit_of_bytes.
Qed.

(** Where only lines of kyris were taken out of a file, the log says that a file was
    removed: the branch for lines is behind the one for files and is never reached. *)
Theorem stripped_lines_logged_as_removal p :
  log_manifest_action ("removed kyris lines from " ++ p) = Removed ("kyris lines from " ++ p).
Proof.
  change ("removed kyris lines from " ++ p)%string with ("removed " ++ ("kyris lines from " ++ p))%string.
  unfold log_manifest_action. rewrite Paths.str_starts_with_app.
  by rewrite trim_start_str_once.
Qed.
End uninstall.

(** ** Examples *)

Module Sample.
#[local] Existing Instance one_float.
#[local] Existing Instance printed_floats.
#[local] Existing Instance Coded.serde.
#[local] Existing Instance McpConfigure.Sample.store.
#[local] Existing Instance CompilePolicy.Sample.loader.
#[local] Existing Instance CodexCli.Sample.digest.

Definition env : string -> option string := GenericAgent.Sample.env.

(** A configuration the user wrote. *)
Definition users_config : disk := mkDisk {["kyrisd.yaml" := lit "listen: 0.0.0.0:9000"]} None "t".

Definition config : McpConfigure.KyrisdConfig :=
  McpConfigure.mkConfig "0.0.0.0:9000" false "" "" (McpRouting.mkMcp true 0 []) [].

Definition saved : disk := (McpConfigure.save_config config users_config).2.

(** No agent has a profile, and Codex left nothing behind. *)
Definition removed : result (list string * list logged) string * disk :=
  run env (fun _ => mret None) (fun _ => mret tt) [] (mret []) saved.

Lemma uninstall_deletes_config_witness :
  is_Some (files saved !! "kyrisd.yaml") /\ files removed.2 !! "kyrisd.yaml" = None.
Proof.
  apply (uninstall_deletes_config env (fun _ => mret None) (fun _ => mret tt) [] (mret []) config
    "kyrisd.yaml" users_config saved removed.1 removed.2).
  - vm_compute; reflexivity.
  - apply List.Forall_nil.
  - vm_compute; reflexivity.
  - apply List.Forall_nil.
  - by apply keeps_unchanged.
  - apply surjective_pairing.
Defined.

(** Cline, as [GenericAgent] runs it from its document. *)
Definition cline : Agent := {|
  id := "cline";
  plan := GenericAgent.integration_plan GenericAgent.Sample.cline Adaptation.CLINE;
  routing := None;
  real := {|
    GenericAgent.real_probe := mret Profile.not_detected;
    GenericAgent.real_configure_execution _ _ _ := mret [];
    GenericAgent.real_configure_tool _ _ _ := mret [];
    GenericAgent.real_configure_burn_control _ _ _ := mret [];
    GenericAgent.real_undo_execution :=
      GenericAgent.undo_execution_surface env None "cline" GenericAgent.Sample.cline GenericAgent.Sample.codex;
    GenericAgent.real_undo_tool :=
      GenericAgent.undo_tool_surface env None "cline" GenericAgent.Sample.cline GenericAgent.Sample.codex;
    GenericAgent.real_undo_burn_control :=
      GenericAgent.undo_burn_control_surface env None "cline" GenericAgent.Sample.cline
        GenericAgent.Sample.codex;
    GenericAgent.real_burn_control_config_paths := [];
    GenericAgent.real_scrub_residue :=
      GenericAgent.scrub_residue env "cline" GenericAgent.Sample.cline GenericAgent.Sample.codex |} |}.

(** Its providers, which no manifest has a record of. *)
Definition stale : list (string * json) :=
  [("theme", JString "dark");
   ("settings", JObject [("baseUrl", JString "http://127.0.0.1:4100/v1");
      ("headers", JObject [("x-kyris-inbound", JString "sk-kyris-1")])])].

Definition providers : string := "/home/u/.cline/data/settings/providers.json".

Definition stale_disk : disk :=
  mkDisk {[providers := serialized (JObject stale); "kyrisd.yaml" := McpConfigure.DEFAULT_CONFIG]} None "t".

Definition governed : Profile.AgentProfile :=
  Profile.with_surfaces (Profile.new_empty "cline") Profile.none Profile.none
    (Profile.adapted Profile.BurnConfigRewrite).

Definition uninstalled : result (list string * list logged) string * disk :=
  run env (fun _ => mret (Some governed)) (fun _ => mret tt) [cline] (mret []) stale_disk.

(** The scrub reports what it took, and the next step puts it back. *)
Lemma uninstall_restores_residue_witness :
  (exists said logged, uninstalled.1 = Ok (said, logged) /\
    bool_decide (("scrubbed kyris residue from " ++ providers)%string ∈ said) = true) /\
  exists res, files uninstalled.2 !! providers = Some (serialized res) /\
    json_eqb res (JObject stale) = true.
Proof.
  split; [eexists _, _; split; vm_compute; reflexivity|].
  apply (uninstall_restores_residue env (fun _ => mret (Some governed)) (fun _ => mret tt) cline []
    (mret []) (Some "127.0.0.1:4100") providers (serialized (JObject stale)) stale
    [("theme", JString "dark")] stale_disk governed uninstalled.1 uninstalled.2).
  - vm_compute; reflexivity.
  - apply Coded.coded_reads_back.
  - vm_compute; reflexivity.
  - apply List.Forall_nil.
  - vm_compute; reflexivity.
  - vm_compute; reflexivity.
  - apply Coded.coded_reads_back.
  - split_and!; eexists; vm_compute; reflexivity.
  - vm_compute; reflexivity.
  - done.
  - vm_compute; reflexivity.
  - done.
  - apply List.Forall_nil.
  - by apply keeps_unchanged.
  - intros home [= <-]. vm_decided.
  - vm_compute. congruence.
  - apply surjective_pairing.
Defined.

(** The compiled policy of Gemini is among the files to sweep and carries no signature. *)
Example compiled_policy_left :
  bool_decide (".gemini/policies/agentpact.toml" ∈ WELL_KNOWN_HOOK_PATHS) = true /\
  existsb (fun m => contains (lit m) (lit CompilePolicy.policy_header)) Scrub.KYRIS_CONTENT_MARKERS = false.
Proof. by vm_compute. Qed.
End Sample.
End Uninstall.
