(* ===== verification/Secret.v ===== *)
(** * The secret store

    [core/src/secret.rs]: the bearer keys that kyrisd and its callers share, one file per
    account, minted by whoever comes first.  Several processes run [get_or_create_in] at
    once; each of its calls to the file system is one step, and the steps interleave in any
    order.  A process may die between two of them, and the file may be deleted.

    A file is known by its inode, here the process that created it: what is written goes to
    the inode that was opened, whatever the name stands for by then. *)

From stdpp Require Import functions.
From S2P Require Import Prelude Text CodexCli.

Module Secret.
Local Open Scope string_scope.
Local Open Scope list_scope.

Definition ACCOUNT_INBOUND : string := "inbound_key".
Definition ACCOUNT_OPERATOR : string := "operator_key".

(** [buf] is what the generator of random numbers gives. *)
Definition generate_secret (prefix : string) (buf : bytes) : bytes :=
  lit prefix ++ lit "-" ++ CodexCli.hex buf.

(** [trim_end_matches] of the line feed. *)
Fixpoint trim_newlines_rev (l : bytes) : bytes :=
  match l with
  | b :: l' => if Ascii.eqb b newline then trim_newlines_rev l' else l
  | [] => []
  end.

Definition trim_newlines (l : bytes) : bytes := rev (trim_newlines_rev (rev l)).

(** Where a process is. *)
Inductive progress :=
| Starting
| Minting
(** It has created the file, and not yet written it. *)
| Writing (candidate : bytes)
| Adopting
| Returned (r : result bytes string)
| Dead.

Definition process : Type := nat.

Record state := mkState { file : option (process * bytes); procs : process -> progress }.

Inductive event :=
| Step (p : process)
| Crash (p : process)
| Delete.

#[export] Instance event_eq_dec : EqDecision event.
Proof. solve_decision. Defined.

Section store.
Context (path prefix : string) (random : process -> bytes).

Definition candidate (p : process) : bytes := generate_secret prefix (random p).

(** [read_to_string]. *)
Definition read (s : state) : option bytes :=
  match file s with
  | Some (_, contents) => if valid_utf8 contents then Some contents else None
  | None => None
  end.

Definition moved (s : state) (p : process) (to : progress) : state :=
  mkState (file s) (<[p := to]> (procs s)).

(** One call to the file system of [get_or_create_in]. *)
Definition get_or_create_in (s : state) (p : process) : option state :=
  match procs s p with
  | Starting =>
      match read s with
      | Some existing => Some (moved s p (Returned (Ok (trim_newlines existing))))
      | None => Some (moved s p Minting)
      end
  | Minting =>
      (* create_secret_file *)
      match file s with
      | None => Some (moved (mkState (Some (p, [])) (procs s)) p (Writing (candidate p)))
      | Some _ => Some (moved s p Adopting)
      end
  | Writing contents =>
      let file := match file s with
                  | Some (inode, old) => Some (inode, if Nat.eqb inode p then contents else old)
                  | None => None
                  end in
      Some (moved (mkState file (procs s)) p (Returned (Ok contents)))
  | Adopting =>
      match read s with
      | Some existing => Some (moved s p (Returned (Ok (trim_newlines existing))))
      | None => Some (moved s p (Returned (Err ("read " ++ path)%string)))
      end
  | Returned _ | Dead => None
  end.

Definition delete_in (s : state) : state := mkState None (procs s).

Definition exec (s : state) (e : event) : option state :=
  match e with
  | Step p => get_or_create_in s p
  | Crash p => match procs s p with
               | Returned _ | Dead => None
               | _ => Some (moved s p Dead)
               end
  | Delete => Some (delete_in s)
  end.

Definition step (s : state) (e : event) (s' : state) : Prop := exec s e = Some s'.

(** No process has begun. *)
Definition fresh (contents : option (process * bytes)) : state := mkState contents (fun _ => Starting).

(** ** Trimming *)

Lemma trim_newlines_keeps l : last l <> Some newline -> trim_newlines l = l.
Proof.
  unfold trim_newlines. destruct l as [|b l _] using rev_ind; [done|].
  rewrite last_snoc, rev_app_distr. cbn. intros Hb.
  destruct (Ascii.eqb_spec b newline) as [->|_]; [by destruct Hb|].
  change (b :: rev l) with (rev [b] ++ rev l). by rewrite <- rev_app_distr, rev_involutive.
Qed.

Lemma generate_secret_last buf : last (generate_secret prefix buf) <> Some newline.
Proof.
  unfold generate_secret. assert (forall (l : bytes) b, last (l ++ [b]) = Some b) as Hlast by (intros; apply last_snoc).
  destruct buf as [|b buf _] using rev_ind.
  - rewrite app_nil_r. change (lit "-") with ["-"%char]. by rewrite Hlast.
  - unfold CodexCli.hex. rewrite flat_map_app. cbn [flat_map]. rewrite app_nil_r.
    rewrite !app_assoc. change [CodexCli.hex_digit (code b / 16); CodexCli.hex_digit (code b mod 16)]
      with ([CodexCli.hex_digit (code b / 16)] ++ [CodexCli.hex_digit (code b mod 16)]).
    rewrite app_assoc, Hlast. intros [= E]. assert (code b mod 16 < 16)%N as Hlt by (apply N.mod_lt; lia).
    revert E Hlt. generalize (code b mod 16)%N as n. intros n E Hn.
    assert (n ∈ [0;1;2;3;4;5;6;7;8;9;10;11;12;13;14;15]%N) as Hin.
    { repeat (rewrite elem_of_cons). lia. }
    repeat (apply elem_of_cons in Hin as [->|Hin]; [done|]). by apply elem_of_nil in Hin.
Qed.

Lemma generate_secret_nonempty buf : generate_secret prefix buf <> [].
Proof. unfold generate_secret. by destruct (lit prefix). Qed.

(** ** One secret *)

(** As long as the file is not deleted: only the process that created it has it open, and
    what was returned, if anything was in it, is what the file holds. *)
Definition settled (s : state) : Prop :=
  (forall p c, procs s p = Writing c ->
     file s = Some (p, []) /\ c <> [] /\ last c <> Some newline) /\
  (forall p a, procs s p = Returned (Ok a) -> a <> [] ->
     exists i c, file s = Some (i, c) /\ trim_newlines c = a).

Lemma settled_fresh contents : settled (fresh contents).
Proof. by split. Qed.

Lemma settled_moved s p to :
  settled s -> (forall c, to <> Writing c) ->
  (forall a, to = Returned (Ok a) -> a <> [] -> exists i c, file s = Some (i, c) /\ trim_newlines c = a) ->
  settled (moved s p to).
Proof.
  intros [Hw Hr] Hto Hret. split; cbn; intros q x; (destruct (decide (q = p)) as [->|Hne];
    [rewrite fn_lookup_insert|rewrite fn_lookup_insert_ne by done]); eauto.
  intros E. by destruct (Hto x).
Qed.

Lemma read_file s contents : read s = Some contents -> exists i, file s = Some (i, contents).
Proof.
  unfold read. destruct (file s) as [[i c]|]; [|done]. destruct (valid_utf8 c); [|done].
  intros [= ->]. eauto.
Qed.

Lemma settled_step s e s' : e <> Delete -> settled s -> step s e s' -> settled s'.
Proof.
  intros Hdel Hs. unfold step. destruct e as [p|p|]; [| |done]; cbn [exec].
  2:{ destruct (procs s p); intros [= <-]; by apply settled_moved. }
  unfold get_or_create_in. destruct (procs s p) as [| |c| |r|] eqn:Ep; [..|done|done].
  - destruct (read s) as [contents|] eqn:Er; intros [= <-]; apply settled_moved; try done.
    intros a [= <-] _. apply read_file in Er as [i Er]. eauto.
  - destruct (file s) as [[i c]|] eqn:Ef; intros [= <-]; [by apply settled_moved|].
    destruct Hs as [Hw Hr]. split; cbn; intros q x; (destruct (decide (q = p)) as [->|Hne];
      [rewrite fn_lookup_insert|rewrite fn_lookup_insert_ne by done]); try done.
    + intros [= <-]. split_and!; [done|apply generate_secret_nonempty|apply generate_secret_last].
    + intros Hq. by destruct (Hw _ _ Hq) as [? _]; rewrite Ef in *.
    + intros Hq Hx. by destruct (Hr _ _ Hq Hx) as (? & ? & ? & _); rewrite Ef in *.
  - destruct Hs as [Hw Hr]. destruct (Hw _ _ Ep) as (Ef & Hc & Hl). rewrite Ef, Nat.eqb_refl.
    intros [= <-]. split; cbn; intros q x; (destruct (decide (q = p)) as [->|Hne];
      [rewrite fn_lookup_insert|rewrite fn_lookup_insert_ne by done]); try done.
    + intros Hq. destruct (Hw _ _ Hq) as [E _]. rewrite Ef in E. by injection E as ->.
    + intros [= <-] _. eexists _, _. split; [done|]. by apply trim_newlines_keeps.
    + intros Hq Hx. destruct (Hr _ _ Hq Hx) as (i & c' & E & Ht). rewrite Ef in E.
      injection E as <- <-. by rewrite <- Ht in Hx.
  - destruct (read s) as [contents|] eqn:Er; intros [= <-]; apply settled_moved; try done.
    intros a [= <-] _. apply read_file in Er as [i Er]. eauto.
Qed.

Lemma settled_trace s evs s' : Delete ∉ evs -> settled s -> trace step s evs s' -> settled s'.
Proof.
  intros Hdel Hs Htr. induction Htr as [|s evs s1 e s2 _ IH Hstep]; [done|].
  rewrite elem_of_app, list_elem_of_singleton in Hdel.
  eapply settled_step; [|by apply IH; [intros ?; apply Hdel; left|]|done]. naive_solver.
Qed.

(** C27. Whatever is returned, and is not empty, is one secret.  Any number of processes ask
    for the key of an account, their calls interleaved in any way and some of them killed on
    the way; two of them that both come back with a key that is not empty have the same, the
    one in the file. *)
Theorem secrets_agree contents evs s p q a b :
  trace step (fresh contents) evs s -> Delete ∉ evs ->
  procs s p = Returned (Ok a) -> procs s q = Returned (Ok b) -> a <> [] -> b <> [] ->
  a = b /\ exists i c, file s = Some (i, c) /\ trim_newlines c = a.
Proof.
  intros Htr Hdel Hp Hq Ha Hb.
  destruct (settled_trace _ _ _ Hdel (settled_fresh contents) Htr) as [_ Hr].
  destruct (Hr _ _ Hp Ha) as (i & c & Ef & <-). destruct (Hr _ _ Hq Hb) as (i' & c' & Ef' & <-).
  rewrite Ef in Ef'. injection Ef' as <- <-. eauto.
Qed.

(** ** The empty secret *)

(** A process that comes between the creation of the file and its writing returns an
    empty key, and the one that creates it a key of its own: the two do not converge. *)
Theorem racing_reader_gets_nothing :
  exists s, trace step (fresh None) [Step 0; Step 0; Step 1; Step 0] s /\
    procs s 0 = Returned (Ok (candidate 0)) /\ procs s 1 = Returned (Ok []) /\ candidate 0 <> [].
Proof.
  eexists. split; [|split_and!; [| |apply generate_secret_nonempty]].
  - apply (exec_list_trace exec). reflexivity.
  - reflexivity.
  - reflexivity.
Qed.

(** The file is empty and nobody is going to write it. *)
Definition abandoned (s : state) : Prop :=
  (exists i, file s = Some (i, [])) /\ forall p c, procs s p <> Writing c.

Lemma abandoned_step s e s' : e <> Delete -> abandoned s -> step s e s' -> abandoned s'.
Proof.
  intros Hdel [[i Hf] Hw]. unfold step.
  assert (forall p to, (forall c, to <> Writing c) -> abandoned (moved s p to)) as Hm.
  { intros p to Hto. split; [by exists i|]. cbn. intros q c. destruct (decide (q = p)) as [->|Hne];
      [rewrite fn_lookup_insert|rewrite fn_lookup_insert_ne by done]; auto. }
  destruct e as [p|p|]; [| |done]; cbn [exec]; [unfold get_or_create_in, read; rewrite Hf|];
    destruct (procs s p) as [| |c| |r|] eqn:Ep; try done;
    try (by destruct (Hw p c)); intros [= <-]; by apply Hm.
Qed.

(** Every process that returns after [s] returns an empty key. *)
Lemma abandoned_returns s evs s' p :
  Delete ∉ evs -> trace step s evs s' -> abandoned s -> (forall r, procs s p <> Returned r) ->
  abandoned s' /\ forall r, procs s' p = Returned r -> r = Ok [].
Proof.
  intros Hdel Htr Hs Hp. induction Htr as [s|s evs s1 e s2 _ IH Hstep].
  { split; [done|]. intros r Hr. by destruct (Hp r). }
  rewrite elem_of_app, list_elem_of_singleton in Hdel.
  destruct IH as [H1 Hr1]; [naive_solver|done|done|].
  assert (e <> Delete) as He by naive_solver.
  split; [by eapply abandoned_step|]. destruct H1 as [[i Hf] Hw]. unfold step in Hstep.
  assert (forall q to, (to = Returned (Ok []) \/ forall r, to <> Returned r) ->
    forall r, procs (moved s1 q to) p = Returned r -> r = Ok []) as Hm.
  { intros q to Hto r. cbn. destruct (decide (p = q)) as [->|Hne];
      [rewrite fn_lookup_insert|rewrite fn_lookup_insert_ne by done; apply Hr1].
    destruct Hto as [->|Hto]; [by intros [= <-]|]. intros E. by destruct (Hto r). }
  destruct e as [q|q|]; [| |done]; cbn [exec] in Hstep;
    [unfold get_or_create_in, read in Hstep; rewrite Hf in Hstep|];
    destruct (procs s1 q) as [| |c| |r|] eqn:Eq; try done;
    try (by destruct (Hw q c)); injection Hstep as <-; apply Hm; auto.
Qed.

(** A process that dies between the creation of the file and its writing leaves an
    empty file behind, and every process that asks afterwards, for as long as nobody
    deletes it, gets the empty key. *)
Theorem crash_leaves_empty_secret :
  exists s, trace step (fresh None) [Step 0; Step 0; Crash 0] s /\
    forall evs s' p r, trace step s evs s' -> Delete ∉ evs -> procs s' p = Returned r -> r = Ok [].
Proof.
  eexists. split; [apply (exec_list_trace exec); reflexivity|].
  intros evs s' p r Htr Hdel Hr.
  refine (proj2 (abandoned_returns _ _ _ p Hdel Htr _ _) r Hr).
  - split; [by exists 0|]. cbn. intros [|q] c; done.
  - cbn. intros r'. by destruct p.
Qed.

(** ** Nobody waits *)

(** The calls that are left to a process, at most. *)
Definition left_to (x : progress) : nat :=
  match x with
  | Starting => 3
  | Minting => 2
  | Writing _ | Adopting => 1
  | Returned _ | Dead => 0
  end.

Lemma step_left s e s' p :
  step s e s' ->
  left_to (procs s' p) + (if decide (e = Step p) then 1 else 0) <= left_to (procs s p).
Proof.
  unfold step. assert (forall t q to, left_to (procs (moved t q to) p) =
    if decide (p = q) then left_to to else left_to (procs t p)) as Hm.
  { intros t q to. cbn. case_decide as E; [subst; by rewrite fn_lookup_insert|].
    by rewrite fn_lookup_insert_ne. }
  destruct e as [q|q|]; cbn [exec].
  - unfold get_or_create_in. intros H.
    assert (exists t to, procs t = procs s /\ s' = moved t q to /\ left_to to < left_to (procs s q))
      as (t & to & Ht & -> & Hlt).
    { destruct (procs s q); [destruct (read s)|destruct (file s)| |destruct (read s)|done|done];
        injection H as <-; eexists _, _; (split; [|split; [reflexivity|cbn; lia]]); reflexivity. }
    rewrite Hm, Ht. repeat case_decide; simplify_eq; lia.
  - intros H. assert (s' = moved s q Dead) as -> by (destruct (procs s q); try done; by injection H).
    rewrite Hm. repeat case_decide; simplify_eq; cbn; lia.
  - intros [= <-]. case_decide; [done|]. cbn. lia.
Qed.

(** Each process makes at most three calls, whatever the others do: none waits for another. *)
Theorem get_or_create_wait_free s evs s' p :
  trace step s evs s' -> length (filter (fun e => e = Step p) evs) <= 3.
Proof.
  intros Htr. enough (left_to (procs s' p) + length (filter (fun e => e = Step p) evs)
    <= left_to (procs s p)) as H.
  { assert (left_to (procs s p) <= 3); [destruct (procs s p); cbn; lia|lia]. }
  induction Htr as [s|s evs s1 e s2 _ IH Hstep]; [cbn; lia|].
  apply (step_left _ _ _ p) in Hstep. rewrite filter_app, length_app, filter_cons, filter_nil.
  destruct (decide (e = Step p)); cbn [length]; lia.
Qed.
End store.

(** ** A race that is lost *)
Module Sample.

Definition random (p : process) : bytes := [ascii_of_nat (16 + p)].

(** Both find no file; the second finds it written when it comes to create it. *)
Definition race : list event := [Step 0; Step 1; Step 0; Step 0; Step 1; Step 1].

Definition raced : state :=
  default (fresh None) (exec_list (exec "p" "sk-kyris" random) (fresh None) race).

Lemma secrets_agree_witness :
  procs raced 0 = Returned (Ok (lit "sk-kyris-10")) /\
  lit "sk-kyris-10" = lit "sk-kyris-10" /\
  exists i c, file raced = Some (i, c) /\ trim_newlines c = lit "sk-kyris-10".
Proof.
  split; [reflexivity|].
  apply (secrets_agree "p" "sk-kyris" random None race raced 0 1).
  - apply (exec_list_trace (exec "p" "sk-kyris" random)). reflexivity.
  - vm_decided.
  - reflexivity.
  - reflexivity.
  - done.
  - done.
Defined.
End Sample.
End Secret.
