(* ===== verification/Server.v ===== *)
(** * The server of kyrisd

    What stands around the handlers of [Adapter], [McpRouting], [Pending] and [Gate]:
    [daemon/src/auth.rs], the routes and layers of [server.rs] with those of the adapters,
    [server/middleware.rs], [trace_id.rs], the reading routes of [operator_routes.rs], the
    startup of [server/lifecycle.rs], the reload of the configuration, and the loading of it
    in [daemon/src/config.rs] and [core/src/config.rs].

    The router of axum is an argument: what it makes of a path is one of the registered
    routes, or none.  A layer runs around every route of the router it is added to. *)

From stdpp Require Import gmap.
From S2P Require Import Prelude Text Json Event Timeline Adapter McpRouting Secret.

Module Server.
Local Open Scope string_scope.
Local Open Scope list_scope.

(** ** Keys: [auth.rs] *)

Inductive AuthResult := AuthOk | Rejected | Misconfigured.

Section auth.
(** [HeaderValue::to_str]. *)
Context (to_str : bytes -> option string).

Definition header_text (name : string) (h : Adapter.header_map) : option string :=
  Adapter.header name h ≫= to_str.

Definition constant_time_eq (a b : bytes) : bool := bytes_eqb a b.

(** The key in the header of a bearer, else that of an API key. *)
Definition provided_key (h : Adapter.header_map) : option bytes :=
  match header_text "authorization" h ≫= (fun v => str_strip_prefix (lit "Bearer ") (lit v)) with
  | Some key => Some key
  | None => lit <$> header_text "x-api-key" h
  end.

Definition validate_key (h : Adapter.header_map) (expected : string) : AuthResult :=
  if String.eqb expected "" then Misconfigured
  else match provided_key h with
       | Some key => if constant_time_eq key (lit expected) then AuthOk else Rejected
       | None => Rejected
       end.

Definition validate_inbound_key (h : Adapter.header_map) (expected : string) : AuthResult :=
  if String.eqb expected "" then Misconfigured
  else match header_text "x-kyris-inbound" h with
       | Some v => if constant_time_eq (lit v) (lit expected) then AuthOk else validate_key h expected
       | None => validate_key h expected
       end.

(** [next], or the status that refuses; the body is read to its end first. *)
Definition answer {A} (r : AuthResult) (next : A) : result A Z :=
  match r with
  | AuthOk => Ok next
  | Rejected => Err Adapter.UNAUTHORIZED
  | Misconfigured => Err Adapter.INTERNAL_SERVER_ERROR
  end.

Definition inbound_auth_middleware {A} (inbound_key : string) (h : Adapter.header_map) (next : A)
    : result A Z := answer (validate_inbound_key h inbound_key) next.

Definition operator_auth_middleware {A} (operator_key : string) (h : Adapter.header_map) (next : A)
    : result A Z := answer (validate_key h operator_key) next.

(** ** Routes: [server.rs] and the adapters *)

Inductive handler :=
| handle_messages | handle_count_tokens | handle_completions | handle_responses
| handle_model_action | list_models
| handle_mcp_root_post | handle_mcp_root_get | handle_mcp_root_delete
| handle_mcp_post | handle_mcp_get | handle_mcp_delete
| circuit_breaker_reset | circuit_breaker_reset_all | circuit_breaker_stop | hook_log
| list_pending | resolve_pending | hold_pending | cancel_pending | pending_status
| operator_gateway_records | operator_timeline | operator_stats | operator_stream
| operator_session_token | diag_log_filter_get | diag_log_filter_set
| healthz.

Inductive method := GET | POST | DELETE.

#[global] Instance method_eq_dec : EqDecision method.
Proof. solve_decision. Defined.

(** A path of the router with what answers each method. *)
Record route := mkRoute { pattern : string; methods : list (method * handler) }.

Definition anthropic_routes : list route :=
  [mkRoute "/v1/messages" [(POST, handle_messages)];
   mkRoute "/v1/messages/count_tokens" [(POST, handle_count_tokens)]].

Definition openai_routes : list route :=
  [mkRoute "/v1/chat/completions" [(POST, handle_completions)];
   mkRoute "/v1/responses" [(POST, handle_responses)]].

Definition google_routes : list route :=
  [mkRoute "/v1beta/models/{model_action}" [(POST, handle_model_action)]].

Definition models_route : list route := [mkRoute "/v1/models" [(GET, list_models)]].

Definition adapter_routes : list route :=
  anthropic_routes ++ openai_routes ++ google_routes ++ models_route.

Definition mcp_routes : list route :=
  [mkRoute "/mcp/{server}"
     [(POST, handle_mcp_root_post); (GET, handle_mcp_root_get); (DELETE, handle_mcp_root_delete)];
   mkRoute "/mcp/{server}/{*path}"
     [(POST, handle_mcp_post); (GET, handle_mcp_get); (DELETE, handle_mcp_delete)]].

Definition authed_operational_routes : list route :=
  [mkRoute "/api/circuit-breaker/reset" [(POST, circuit_breaker_reset)];
   mkRoute "/api/circuit-breaker/reset-all" [(POST, circuit_breaker_reset_all)];
   mkRoute "/api/circuit-breaker/stop" [(POST, circuit_breaker_stop)];
   mkRoute "/api/hook/log" [(POST, hook_log)];
   mkRoute "/api/pending" [(GET, list_pending)];
   mkRoute "/api/pending/{id}/resolve" [(POST, resolve_pending)];
   mkRoute "/api/pending/hold" [(POST, hold_pending)];
   mkRoute "/api/pending/{id}/cancel" [(DELETE, cancel_pending)];
   mkRoute "/api/pending/{id}/status" [(GET, pending_status)];
   mkRoute "/operator/gateway-records" [(GET, operator_gateway_records)];
   mkRoute "/operator/timeline" [(GET, operator_timeline)];
   mkRoute "/operator/stats" [(GET, operator_stats)];
   mkRoute "/operator/stream" [(GET, operator_stream)];
   mkRoute "/operator/session-tokens/{session_id}" [(GET, operator_session_token)];
   mkRoute "/operator/diag/log-filter" [(GET, diag_log_filter_get); (POST, diag_log_filter_set)]].

Definition health_routes : list route := [mkRoute "/healthz" [(GET, healthz)]].

(** The routes of the application, each with the layer its router has. *)
Inductive layer := InboundAuth | OperatorAuth | NoAuth.

Definition under (l : layer) (routes : list route) : list (layer * route) := pair l <$> routes.

Definition application : list (layer * route) :=
  under InboundAuth (adapter_routes ++ mcp_routes)
  ++ under OperatorAuth authed_operational_routes
  ++ under NoAuth health_routes.

(** [axum]: which of the routes a path takes. *)
Context (find_route : list string -> string -> option string).

Definition METHOD_NOT_ALLOWED : Z := 405.

(** The handler that runs, or the status that is answered in its place. *)
Definition serve (inbound_key operator_key : string) (m : method) (path : string)
    (h : Adapter.header_map) : result handler Z :=
  match find_route ((fun r => pattern r.2) <$> application) path with
  | None => Err Adapter.NOT_FOUND
  | Some p =>
      match List.find (fun r => String.eqb (pattern r.2) p) application with
      | None => Err Adapter.NOT_FOUND
      | Some (l, r) =>
          let next := match List.find (fun e => bool_decide (e.1 = m)) (methods r) with
                      | Some (_, handler) => Ok handler
                      | None => Err METHOD_NOT_ALLOWED
                      end in
          match match l with
                | InboundAuth => inbound_auth_middleware inbound_key h next
                | OperatorAuth => operator_auth_middleware operator_key h next
                | NoAuth => Ok next
                end with
          | Ok next => next
          | Err status => Err status
          end
      end
  end.
End auth.

(** ** Middleware: [server/middleware.rs], [trace_id.rs] *)

Definition HOP_BY_HOP : list string :=
  ["connection"; "keep-alive"; "upgrade"; "te"; "trailer"; "proxy-authenticate"; "proxy-authorization"].

Definition response_framing_violation (h : Adapter.header_map) : option string :=
  if Adapter.contains_key "transfer-encoding" h && Adapter.contains_key "content-length" h then
    Some "both transfer-encoding and content-length headers are set on the response (hyper requires exactly one)"
  else
    match List.find (fun name => Adapter.contains_key name h) HOP_BY_HOP with
    | Some name =>
        Some ("hop-by-hop header `" ++ name ++ "` is set on the response (RFC 7230 §6.1 forbids relaying connection-scoped headers past a proxy)")%string
    | None => None
    end.

Definition content_length (to_str : bytes -> option string) (h : Adapter.header_map) : option N :=
  v ← Adapter.header "content-length" h; s ← to_str v; parse_usize (lit s).

(** The level of the line that the access log gives a status. *)
Inductive level := INFO | WARN | ERROR.

Definition request_log_level (status : Z) : level :=
  if (500 <=? status)%Z then ERROR else if (400 <=? status)%Z then WARN else INFO.

(** [u8::is_ascii_graphic]. *)
Definition is_ascii_graphic (b : ascii) : bool := in_range 33 126 b.

Definition is_valid_inbound_id (s : string) : bool :=
  negb (String.eqb s "") && (String.length s <=? 128)%nat
  && forallb (fun b => is_ascii_graphic b && negb (Ascii.eqb b " "%char)) (lit s).

(** [HeaderMap::insert]. *)
Definition header_insert (name : string) (v : bytes) (h : Adapter.header_map) : Adapter.header_map :=
  List.filter (fun e => negb (String.eqb e.1 name)) h ++ [(name, v)].

Section trace_id.
Context (to_str : bytes -> option string).
(** [HeaderValue::from_str]; a fresh UUID. *)
Context (from_str : string -> option bytes) (mint_trace_id : string).

Definition request_trace_id (h : Adapter.header_map) : string :=
  match header_text to_str "x-request-id" h with
  | Some s => if is_valid_inbound_id s then s else mint_trace_id
  | None => mint_trace_id
  end.

(** [next] takes the identifier of the request, which is in its extensions; the headers of
    its response are what counts. *)
Definition trace_id_middleware (h : Adapter.header_map) (next : string -> Adapter.header_map)
    : Adapter.header_map :=
  let trace_id := request_trace_id h in
  let response := next trace_id in
  match from_str trace_id with
  | Some value => header_insert "x-kyris-trace-id" value response
  | None => response
  end.
End trace_id.

(** ** The configuration: [core/src/config.rs], [types/src/config.rs], [daemon/src/config.rs] *)

Record TlsConfig := mkTls { tls_enabled : bool; cert_path : string; key_path : string }.

(** The fields in use; the numbers are [u64] or [usize]. *)
Record KyrisdConfig := mkConfig {
  api_version : option string;
  listen : string;
  inbound_key : string;
  operator_key : string;
  max_request_body_bytes : N;
  drain_timeout_seconds : N;
  tls : TlsConfig;
  providers : list Adapter.ProviderConfig;
  breaker_enabled : bool;
  max_tokens : N;
  session_idle_minutes : N;
  fetch_interval_hours : N;
  retention_days : N;
  channel_capacity : N;
  mcp_enabled : bool;
  pending_timeout_seconds : N;
  socket_timeout_ms : N }.

Definition EXPECTED_API_VERSION : string := "kyris/v1".

Definition validate_api_version (c : KyrisdConfig) : result unit string :=
  match api_version c with
  | Some v =>
      if String.eqb v EXPECTED_API_VERSION then Ok tt
      else Err ("unsupported config apiVersion '" ++ v ++ "' (expected '" ++ EXPECTED_API_VERSION ++ "')")%string
  | None => Err ("config is missing required 'apiVersion: " ++ EXPECTED_API_VERSION ++ "'")%string
  end.

Definition tls_validate (exists_ : string -> bool) (c : TlsConfig) : result unit string :=
  if negb (tls_enabled c) then Ok tt
  else if String.eqb (cert_path c) "" then Err "tls.enabled is true but tls.cert_path is empty"
  else if String.eqb (key_path c) "" then Err "tls.enabled is true but tls.key_path is empty"
  else if negb (exists_ (cert_path c)) then Err ("tls.cert_path does not exist: " ++ cert_path c)%string
  else if negb (exists_ (key_path c)) then Err ("tls.key_path does not exist: " ++ key_path c)%string
  else Ok tt.

Definition base_url (c : KyrisdConfig) : string :=
  ((if tls_enabled (tls c) then "https" else "http") ++ "://" ++ listen c)%string.

Section overrides.
Context (get : string -> option string).

Definition text (key old : string) : string := default old (get key).

(** What does not parse is left. *)
Definition number (key : string) (old : N) : N :=
  default old (get key ≫= (fun v => parse_usize (lit v))).

Definition flag (key : string) (old : bool) : bool :=
  match get key with Some v => String.eqb v "true" || String.eqb v "1" | None => old end.

Definition apply_overrides_from (c : KyrisdConfig) : KyrisdConfig := {|
  api_version := api_version c;
  listen := text "KYRIS_SERVER_LISTEN" (listen c);
  inbound_key := inbound_key c;
  operator_key := operator_key c;
  max_request_body_bytes := number "KYRIS_SERVER_MAX_REQUEST_BODY_BYTES" (max_request_body_bytes c);
  drain_timeout_seconds := number "KYRIS_SERVER_DRAIN_TIMEOUT_SECONDS" (drain_timeout_seconds c);
  tls := tls c;
  providers := providers c;
  breaker_enabled := flag "KYRIS_CIRCUIT_BREAKER_ENABLED" (breaker_enabled c);
  max_tokens := number "KYRIS_CIRCUIT_BREAKER_MAX_TOKENS" (max_tokens c);
  session_idle_minutes :=
    number "KYRIS_CIRCUIT_BREAKER_SESSION_IDLE_MINUTES" (session_idle_minutes c);
  fetch_interval_hours := number "KYRIS_PRICING_FETCH_INTERVAL_HOURS" (fetch_interval_hours c);
  retention_days := number "KYRIS_STATS_RETENTION_DAYS" (retention_days c);
  channel_capacity := number "KYRIS_STATS_CHANNEL_CAPACITY" (channel_capacity c);
  mcp_enabled := flag "KYRIS_MCP_ENABLED" (mcp_enabled c);
  pending_timeout_seconds := number "KYRIS_MCP_PENDING_TIMEOUT_SECONDS" (pending_timeout_seconds c);
  socket_timeout_ms := number "KYRIS_MCP_SOCKET_TIMEOUT_MS" (socket_timeout_ms c) |}.
End overrides.

Definition with_keys (inbound operator : string) (c : KyrisdConfig) : KyrisdConfig :=
  mkConfig (api_version c) (listen c) inbound operator (max_request_body_bytes c)
    (drain_timeout_seconds c) (tls c) (providers c) (breaker_enabled c) (max_tokens c)
    (session_idle_minutes c) (fetch_interval_hours c) (retention_days c) (channel_capacity c)
    (mcp_enabled c) (pending_timeout_seconds c) (socket_timeout_ms c).

Section loading.
(** The file: its text, if it is there, and its mode. *)
Context (path : string) (contents : option bytes) (mode : result Z string)
  (from_yaml : bytes -> result KyrisdConfig string) (show_octal : Z -> string).
Context (get_or_create : string -> string -> result string string) (env : string -> option string).

Definition validate_permissions : result unit string :=
  match mode with
  | Err e => Err ("failed to stat config file " ++ path ++ ": " ++ e)%string
  | Ok st_mode =>
      let mode := Z.land st_mode 511 in
      if negb (Z.land mode 4 =? 0)%Z then
        Err ("kyrisd.yaml is world-readable (mode " ++ show_octal mode
             ++ "). Set permissions to 0600: chmod 600 " ++ path)%string
      else Ok tt
  end.

Definition populate_keys (c : KyrisdConfig) : result KyrisdConfig string :=
  match get_or_create Secret.ACCOUNT_INBOUND "sk-kyris" with
  | Err e => Err e
  | Ok inbound =>
      match get_or_create Secret.ACCOUNT_OPERATOR "sk-kyris-ops" with
      | Err e => Err e
      | Ok operator => Ok (with_keys inbound operator c)
      end
  end.

(** The reload: whatever fails is the caller's to report. *)
Definition try_load_config : result KyrisdConfig string :=
  match contents with
  | None => Err ("config not found: " ++ path)%string
  | Some text =>
      match from_yaml text with
      | Err e => Err ("failed to parse config: " ++ e)%string
      | Ok config =>
          match validate_api_version config with
          | Err e => Err e
          | Ok _ =>
              match validate_permissions with
              | Err e => Err e
              | Ok _ =>
                  match populate_keys config with
                  | Err e => Err e
                  | Ok config => Ok (apply_overrides_from env config)
                  end
              end
          end
      end
  end.

(** The start: [None] where the process exits.  A file that is not there is the default
    one first, with the mode 0600. *)
Definition load_config_from (default_content : bytes) : option KyrisdConfig :=
  let '(text, permissions) :=
    match contents with
    | None => (default_content, Ok tt)
    | Some text => (text, validate_permissions)
    end in
  match permissions with
  | Err _ => None
  | Ok _ =>
      match from_yaml text with
      | Err _ => None
      | Ok config =>
          match validate_api_version config, populate_keys config with
          | Ok _, Ok config => Some (apply_overrides_from env config)
          | _, _ => None
          end
      end
  end.

(** What a hook or a command connects to. *)
Record KyrisdConnection := mkConnection { connection_url : string; connection_key : string }.

Definition rewrite_wildcard_to_loopback (listen : string) : string :=
  match str_strip_prefix (lit "0.0.0.0") (lit listen) with
  | Some port => ("127.0.0.1" ++ of_bytes port)%string
  | None =>
      match str_strip_prefix (lit "[::]:") (lit listen) with
      | Some port => ("127.0.0.1:" ++ of_bytes port)%string
      | None =>
          match str_strip_prefix (lit "[::]") (lit listen) with
          | Some port => ("127.0.0.1" ++ of_bytes port)%string
          | None => listen
          end
      end
  end.

Definition load_kyrisd_connection : option KyrisdConnection :=
  text ← contents;
  match from_yaml text, get_or_create Secret.ACCOUNT_OPERATOR "sk-kyris-ops" with
  | Ok config, Ok key =>
      Some (mkConnection ("http://" ++ rewrite_wildcard_to_loopback (listen config))%string key)
  | _, _ => None
  end.
End loading.

(** ** Reloading: [server.rs] *)

#[local] Existing Instance Adapter.provider_format_eq_dec.

Section reload.
(** A client of HTTP; [build_provider_client] makes one, and does not look at the provider. *)
Context {Client : Type} (build_provider_client : Adapter.ProviderConfig -> Client).

Record AppState := mkState {
  config : KyrisdConfig;
  provider_clients : gmap string Client }.

(** A list of pairs as a [HashMap]: of two pairs with one key the later counts. *)
Definition collect {A} (l : list (string * A)) : gmap string A :=
  foldl (fun m e => <[e.1 := e.2]> m) ∅ l.

Definition build_provider_clients (c : KyrisdConfig) : gmap string Client :=
  collect ((fun p => (Adapter.name p, build_provider_client p)) <$> providers c).

Definition provider_configs_match (old new : Adapter.ProviderConfig) : bool :=
  String.eqb (Adapter.name old) (Adapter.name new)
  && bool_decide (Adapter.format old = Adapter.format new)
  && String.eqb (Adapter.upstream old) (Adapter.upstream new)
  && bool_decide (Adapter.models old = Adapter.models new)
  && (Adapter.timeout_seconds old =? Adapter.timeout_seconds new)%Z
  && (Adapter.streaming_timeout_seconds old =? Adapter.streaming_timeout_seconds new)%Z.

Definition client_for (current : AppState) (p : Adapter.ProviderConfig) : Client :=
  default (build_provider_client p)
    (existing ← List.find (fun old => provider_configs_match old p) (providers (config current));
     provider_clients current !! Adapter.name existing).

Definition rebuild_provider_clients_preserving_unchanged (current : AppState) (new : KyrisdConfig)
    : gmap string Client :=
  collect ((fun p => (Adapter.name p, client_for current p)) <$> providers new).

Definition apply_reloaded_config (s : AppState) (new : KyrisdConfig) : AppState :=
  mkState new (rebuild_provider_clients_preserving_unchanged s new).

(** What the loads of the configuration give, one for each signal. *)
Definition reload_step (s : AppState) (loaded : result KyrisdConfig string) : AppState :=
  match loaded with Ok new => apply_reloaded_config s new | Err _ => s end.

Definition reload_loop (s : AppState) (loads : list (result KyrisdConfig string)) : AppState :=
  foldl reload_step s loads.

Definition started (c : KyrisdConfig) : AppState := mkState c (build_provider_clients c).
End reload.

(** ** Starting: [server/lifecycle.rs] *)

(** [i32::from_str]. *)
Definition parse_i32 (l : bytes) : option Z :=
  match l with
  | [] => None
  | b :: l' =>
      let signed (positive : bool) (digits : bytes) : option Z :=
        match digits with
        | [] => None
        | _ => n ← parse_digits 0 digits;
               let z := if positive then Z.of_N n else (- Z.of_N n)%Z in
               if bool_decide (-2147483648 <= z <= 2147483647)%Z then Some z else None
        end in
      if Ascii.eqb b "-"%char then signed false l'
      else if Ascii.eqb b "+"%char then signed true l' else signed true l
  end.

Definition is_ascii_hexdigit (b : ascii) : bool :=
  in_range 48 57 b || in_range 97 102 b || in_range 65 70 b.

Definition is_kyrisd_executable (file_name : string) : bool :=
  String.eqb file_name "kyrisd"
  || match str_strip_prefix (lit "kyrisd-") (lit file_name) with
     | Some suffix => match suffix with [] => false | _ => forallb is_ascii_hexdigit suffix end
     | None => false
     end.

(** A process, as [sysinfo] lists it: the name is that of its executable, where it is known
    and text. *)
Record Process := mkProcess { pid : N; user_id : option N; exe_name : option string }.

Inductive Signal := SIGTERM | SIGKILL.

Definition is_stray (own_pid owner_uid : N) (p : Process) : bool :=
  negb (pid p =? own_pid)%N && bool_decide (user_id p = Some owner_uid)
  && match exe_name p with Some name => is_kyrisd_executable name | None => false end.

(** The signals, in order.  [alive_after] is whether signal 0 reaches a process two seconds
    after the first ones. *)
Definition reap_stray_daemons (own_pid owner_uid : N) (processes : list Process)
    (alive_after : N -> bool) : list (N * Signal) :=
  let strays := pid <$> List.filter (is_stray own_pid owner_uid) processes in
  ((fun p => (p, SIGTERM)) <$> strays)
  ++ ((fun p => (p, SIGKILL)) <$> List.filter alive_after strays).

(** The newest report of the directory that is a text file and not older than the
    threshold; of two of the same time the first. *)
Definition newer (newest : option (string * Z)) (modified : Z) : bool :=
  match newest with None => true | Some (_, t) => (t <? modified)%Z end.

Definition most_recent_report_since_in (entries : list (string * bool * option Z)) (threshold : Z)
    : option string :=
  fst <$> foldl (fun newest '(path, txt, modified) =>
    match modified with
    | Some modified =>
        if txt && (threshold <=? modified)%Z && newer newest modified then Some (path, modified)
        else newest
    | None => newest
    end) (None : option (string * Z)) entries.

Inductive recovery := Panicked (crash_report : string) | Killed.

(** What is said of the daemon before this one, with the words of the toast.  [modified] is
    when its PID file was written, with the seconds since. *)
Definition check_crash_recovery (pid_file : option bytes) (alive : Z -> bool)
    (modified : option (Z * option Z)) (show : Z -> string)
    (reports : list (string * bool * option Z)) : option (recovery * string) :=
  contents ← pid_file;
  old_pid ← parse_i32 (trim contents);
  if alive old_pid then None
  else
    let report := match modified with
                  | Some (written, _) => most_recent_report_since_in reports written
                  | None => None
                  end in
    let duration := match modified with
                    | None | Some (_, None) => "unknown"
                    | Some (_, Some secs) => if (secs <? 60)%Z then (show secs ++ "s")%string
                                   else (show (secs / 60)%Z ++ "m")%string
                    end in
    Some (match report with Some r => Panicked r | None => Killed end, duration).

(** ** Reading routes: [server/operator_routes.rs] *)

Section operator.
Context `{AgentpactTypes} `{Float64}.
Context (parse_from_rfc3339 : string -> bool) (quoted : string -> string).
Context (try_cast : string -> option Z) (parse_segments : string -> option (list Event.Segment)).
Context (env_home : string) (scope : Timeline.SyncScope) (log : list Timeline.LogRow)
  (table : list Timeline.stored_record).

Definition validate_rfc3339 (name : string) (v : option string) : result unit (Z * string) :=
  match v with
  | Some v =>
      if parse_from_rfc3339 v then Ok tt
      else Err (Adapter.BAD_REQUEST,
                "invalid `" ++ name ++ "`: expected an RFC3339 timestamp, got " ++ quoted v)%string
  | None => Ok tt
  end.

Record TimelineQuery := mkTimelineQuery {
  q_agent : option string; q_action : option string; q_decision : option string;
  q_session : option string; q_trace_id : option string; q_dir : option string;
  q_since : option string; q_until : option string; q_limit : option N }.

Definition timeline_entries (f : Timeline.TimelineFilter) : list Timeline.TimelineEntry :=
  Timeline.query_timeline try_cast parse_segments env_home scope log table f.

Definition get_timeline (q : TimelineQuery) : result (list Timeline.TimelineEntry) (Z * string) :=
  match validate_rfc3339 "since" (q_since q) with
  | Err e => Err e
  | Ok _ =>
      match validate_rfc3339 "until" (q_until q) with
      | Err e => Err e
      | Ok _ =>
          Ok (timeline_entries
                (Timeline.mkFilter (q_agent q) (q_action q) (q_decision q) (q_session q) (q_trace_id q)
                   (q_dir q) (q_since q) (q_until q) (default 50%N (q_limit q))))
      end
  end.

Definition stats_filter (since dir : option string) : Timeline.TimelineFilter :=
  Timeline.mkFilter None None None None None dir since None 10000.

Definition get_stats (since dir : option string) : result Timeline.TimelineStats (Z * string) :=
  match validate_rfc3339 "since" since with
  | Err e => Err e
  | Ok _ => Ok (Timeline.compute_stats (timeline_entries (stats_filter since dir)))
  end.

(** The query of the database may fail; what it says then is not modelled. *)
Definition get_gateway_records (f : Timeline.GatewayRecordFilter)
    : result (list Record.GatewayRecord) (Z * string) :=
  match validate_rfc3339 "since" (Timeline.rf_since f) with
  | Err e => Err e
  | Ok _ =>
      match Timeline.query_gateway_records try_cast table f with
      | Some records => Ok records
      | None => Err (Adapter.INTERNAL_SERVER_ERROR, "")
      end
  end.
End operator.

Record HealthzResponse := mkHealthz {
  ready : bool; health_providers : nat; dropped_events : N; db_writable : bool }.

Definition SERVICE_UNAVAILABLE : Z := 503.

Definition get_healthz (c : KyrisdConfig) (dropped : N) (db_writable : bool) : Z * HealthzResponse :=
  let ready := (dropped =? 0)%N && db_writable in
  (if ready then Adapter.OK else SERVICE_UNAVAILABLE,
   mkHealthz ready (length (providers c)) dropped db_writable).

(** [list_models]. *)
Definition get_models (c : KyrisdConfig) : list (string * string) :=
  flat_map (fun p => (fun m => (m, Adapter.name p)) <$> Adapter.models p) (providers c).

(** ** Nothing but the health of the daemon is for everybody *)

Section keys.
Context (to_str : bytes -> option string) (find_route : list string -> string -> option string).

(** The request carries the key: in the header of kyris, or as a bearer or an API key. *)
Definition presents (h : Adapter.header_map) (key : string) : Prop :=
  header_text to_str "x-kyris-inbound" h = Some key \/ provided_key to_str h = Some (lit key).

Lemma validate_key_ok h expected :
  validate_key to_str h expected = AuthOk <-> expected <> "" /\ provided_key to_str h = Some (lit expected).
Proof.
  unfold validate_key, constant_time_eq, bytes_eqb.
  destruct (String.eqb_spec expected "") as [->|Hne]; [naive_solver|].
  destruct (provided_key to_str h) as [key|]; [|naive_solver].
  case_bool_decide; naive_solver.
Qed.

Lemma validate_inbound_key_ok h expected :
  validate_inbound_key to_str h expected = AuthOk <-> expected <> "" /\ presents h expected.
Proof.
  unfold validate_inbound_key, presents, constant_time_eq, bytes_eqb.
  destruct (String.eqb_spec expected "") as [->|Hne]; [naive_solver|].
  destruct (header_text to_str "x-kyris-inbound" h) as [v|]; [|rewrite validate_key_ok; naive_solver].
  case_bool_decide as Hv; [apply lit_inj in Hv; naive_solver|]. rewrite validate_key_ok. naive_solver.
Qed.

Definition handlers (routes : list route) : list handler :=
  flat_map (fun r => (methods r).*2) routes.

Lemma answer_ok {A} r (next x : A) : answer r next = Ok x <-> r = AuthOk /\ next = x.
Proof. destruct r; naive_solver. Qed.

Lemma application_layers l r :
  (l, r) ∈ application ->
  match l with
  | InboundAuth => r ∈ adapter_routes ++ mcp_routes
  | OperatorAuth => r ∈ authed_operational_routes
  | NoAuth => r ∈ health_routes
  end.
Proof.
  unfold application, under. rewrite !elem_of_app. setoid_rewrite list_elem_of_fmap.
  intros [(? & E & H)|[(? & E & H)|(? & E & H)]]; injection E as -> ->; done.
Qed.

Lemma handlers_elem r m hd routes :
  r ∈ routes -> List.find (fun e => bool_decide (e.1 = m)) (methods r) = Some (m, hd) -> hd ∈ handlers routes.
Proof.
  intros Hr [Hm _]%find_some. apply elem_of_flat_map. exists r. split; [done|].
  apply list_elem_of_fmap. exists (m, hd). by split; [|apply list_elem_of_In].
Qed.

(** C28. A request reaches a handler only with the key that is configured for its route: the
    routes of models and of MCP servers want the inbound key, those of the operator the
    operator's, and no key at all opens anything while the one that is configured is empty.
    Only the health of the daemon is for everybody.  This is of every route registered,
    whatever the router makes of the path. *)
Theorem handlers_behind_keys inbound_key operator_key m path h hd :
  serve to_str find_route inbound_key operator_key m path h = Ok hd ->
  hd = healthz \/
  hd ∈ handlers (adapter_routes ++ mcp_routes) /\ inbound_key <> "" /\ presents h inbound_key \/
  hd ∈ handlers authed_operational_routes /\ operator_key <> "" /\
    provided_key to_str h = Some (lit operator_key).
Proof.
  unfold serve. destruct (find_route _ path) as [p|]; [|done].
  destruct (List.find _ application) as [[l r]|] eqn:Ef; [|done].
  apply find_some in Ef as [Hin%list_elem_of_In%application_layers _].
  destruct (List.find _ (methods r)) as [[m' hd']|] eqn:Em.
  2:{ destruct l; unfold inbound_auth_middleware, operator_auth_middleware;
        try destruct (_ to_str h _); done. }
  assert (m' = m) as ->. { apply find_some in Em as [_ E]. by apply bool_decide_eq_true in E. }
  destruct l; unfold inbound_auth_middleware, operator_auth_middleware.
  - destruct (answer _ _) as [x|] eqn:Ea; [|done]. apply answer_ok in Ea as [Ea <-]. intros [= <-].
    right; left. split; [by eapply handlers_elem|]. by apply validate_inbound_key_ok.
  - destruct (answer _ _) as [x|] eqn:Ea; [|done]. apply answer_ok in Ea as [Ea <-]. intros [= <-].
    right; right. split; [by eapply handlers_elem|]. by apply validate_key_ok.
  - intros [= <-]. left. pose proof (handlers_elem r m hd' _ Hin Em) as Hhd. cbn in Hhd.
    by apply list_elem_of_singleton in Hhd.
Qed.
End keys.

(** ** Responses that hyper can send *)

Lemma contains_key_cons name n v (h : Adapter.header_map) :
  Adapter.contains_key name ((n, v) :: h) = String.eqb n name || Adapter.contains_key name h.
Proof.
  unfold Adapter.contains_key, Adapter.header. cbn. unfold decide.
  destruct (String.eqb_spec n name) as [->|Hne]; destruct (_ : Decision _); naive_solver.
Qed.

Lemma contains_key_filter f name (h : Adapter.header_map) :
  (forall v, f (name, v) = false) -> Adapter.contains_key name (List.filter f h) = false.
Proof.
  intros Hf. induction h as [|[n v] h IH]; [done|]. cbn [List.filter].
  destruct (f (n, v)) eqn:E; [|done]. rewrite contains_key_cons, IH.
  destruct (String.eqb_spec n name) as [->|]; [by rewrite Hf in E|done].
Qed.

Lemma contains_key_snoc name n v (h : Adapter.header_map) :
  Adapter.contains_key name (h ++ [(n, v)]) = Adapter.contains_key name h || String.eqb n name.
Proof.
  induction h as [|[n' v'] h IH]; cbn [app]; rewrite contains_key_cons; [by rewrite orb_false_r|].
  by rewrite IH, contains_key_cons, orb_assoc.
Qed.

Definition unframed (h : Adapter.header_map) : Prop :=
  Adapter.contains_key "transfer-encoding" h = false /\
  Forall (fun name => Adapter.contains_key name h = false) HOP_BY_HOP.

Lemma unframed_fine h : unframed h -> response_framing_violation h = None.
Proof.
  intros [Hte Hall]. unfold response_framing_violation. rewrite Hte. cbn [andb].
  destruct (List.find _ HOP_BY_HOP) as [name|] eqn:E; [|done].
  apply find_some in E as [Hin%list_elem_of_In E]. rewrite Forall_forall in Hall.
  by rewrite Hall in E.
Qed.

Lemma filter_unframed f h :
  (forall name v, name ∈ "transfer-encoding" :: HOP_BY_HOP -> f (name, v) = false) ->
  unframed (List.filter f h).
Proof.
  intros Hf. split; [apply contains_key_filter; intros v; apply Hf; by apply elem_of_cons; left|].
  apply Forall_forall. intros name Hin. apply contains_key_filter. intros v. apply Hf.
  by apply elem_of_cons; right.
Qed.

Lemma unframed_snoc n v h :
  n ∉ "transfer-encoding" :: HOP_BY_HOP -> unframed h -> unframed (h ++ [(n, v)]).
Proof.
  intros Hn [Hte Hall].
  assert (forall name, name ∈ "transfer-encoding" :: HOP_BY_HOP -> String.eqb n name = false) as Hne.
  { intros name Hin. apply String.eqb_neq. by intros ->. }
  split.
  - rewrite contains_key_snoc, Hte. apply Hne. by apply elem_of_cons; left.
  - rewrite Forall_forall in Hall |- *. intros name Hin. rewrite contains_key_snoc, Hall by done.
    apply Hne. by apply elem_of_cons; right.
Qed.

(** What is relayed of an upstream, to a model or to an MCP server, is never a response that
    hyper resets the connection over, whatever headers the upstream sent. *)
Theorem relayed_responses_framed to_str trace_id r :
  response_framing_violation (Adapter.relayed_headers to_str trace_id r) = None /\
  response_framing_violation (McpRouting.upstream_response_headers (Adapter.resp_headers r)) = None.
Proof.
  split; apply unframed_fine.
  - unfold Adapter.relayed_headers. apply unframed_snoc; [vm_decided|].
    apply filter_unframed. intros name v Hin. unfold Adapter.relayable. cbn [fst].
    assert (bool_decide (Adapter.to_lowercase name ∈ Adapter.NON_RELAYABLE_HEADERS) = true) as ->; [|done].
    revert name Hin. apply Forall_forall. repeat constructor.
  - apply filter_unframed. intros name v Hin. cbn [fst]. unfold McpRouting.returned_header.
    assert (McpRouting.is_hop_by_hop name = true) as ->; [|done].
    revert name Hin. apply Forall_forall. repeat constructor.
Qed.

(** ** One identifier for a request *)

Lemma header_insert_read name v (h : Adapter.header_map) :
  Adapter.header name (header_insert name v h) = Some v.
Proof.
  unfold header_insert. assert (Adapter.contains_key name
    (List.filter (fun e => negb (String.eqb e.1 name)) h) = false) as Hno.
  { apply contains_key_filter. intros w. cbn. by rewrite String.eqb_refl. }
  revert Hno. generalize (List.filter (fun e => negb (String.eqb e.1 name)) h) as l. intros l.
  induction l as [|[n w] l IH]; rewrite ?contains_key_cons; unfold Adapter.header; cbn; unfold decide.
  - intros _. by destruct (_ : Decision (name = name)).
  - intros [Hn Hl]%orb_false_iff. apply String.eqb_neq in Hn.
    destruct (_ : Decision (n = name)); [done|]. by apply IH.
Qed.

(** The identifier that the caller reads in the response is the one under which the handlers
    and the log know the request: its own where it sent one of printable characters, a fresh
    one otherwise.  [from_str] takes printable characters as they are. *)
Theorem trace_id_echoed to_str from_str mint h next :
  (forall s, forallb is_ascii_graphic (lit s) = true -> from_str s = Some (lit s)) ->
  forallb is_ascii_graphic (lit mint) = true ->
  Adapter.header "x-kyris-trace-id" (trace_id_middleware to_str from_str mint h next) =
    Some (lit (request_trace_id to_str mint h)).
Proof.
  intros Hfrom Hmint. unfold trace_id_middleware. rewrite Hfrom; [apply header_insert_read|].
  unfold request_trace_id. destruct (header_text to_str "x-request-id" h) as [s|]; [|done].
  destruct (is_valid_inbound_id s) eqn:E; [|done]. unfold is_valid_inbound_id in E.
  apply andb_true_iff in E as [_ E]. rewrite forallb_forall in E |- *. intros b Hb.
  by apply E, andb_true_iff in Hb as [? _].
Qed.

(** ** Reloads *)

Section reloads.
Context {Client : Type} (build : Adapter.ProviderConfig -> Client).

Lemma collect_snoc {A} (l : list (string * A)) e : collect (l ++ [e]) = <[e.1 := e.2]> (collect l).
Proof. unfold collect. by rewrite foldl_app. Qed.

Lemma dom_collect {A} (l : list (string * A)) : dom (collect l) = list_to_set (l.*1) :> gset string.
Proof.
  induction l as [|e l IH] using rev_ind; [apply dom_empty_L|].
  rewrite collect_snoc, dom_insert_L, IH, fmap_app, list_to_set_app_L. set_solver.
Qed.

Lemma collect_lookup {A} (l : list (string * A)) k v :
  NoDup l.*1 -> (k, v) ∈ l -> collect l !! k = Some v.
Proof.
  induction l as [|e l IH] using rev_ind; [by intros _ H%elem_of_nil|].
  rewrite fmap_app, collect_snoc. intros (Hl & He & _)%NoDup_app. rewrite elem_of_app, list_elem_of_singleton.
  intros [Hin| <-]; [|apply lookup_insert_eq]. rewrite lookup_insert_ne; [by apply IH|].
  intros <-. apply (He e.1); [|by apply list_elem_of_singleton].
  apply list_elem_of_fmap. by exists (e.1, v).
Qed.

Definition names (c : KyrisdConfig) : list string := Adapter.name <$> providers c.

Lemma fst_pairs {A} (f : Adapter.ProviderConfig -> A) l :
  ((fun p => (Adapter.name p, f p)) <$> l).*1 = Adapter.name <$> l.
Proof. rewrite <- list_fmap_compose. by apply list_fmap_ext. Qed.

(** Whatever the configurations that are loaded, and whichever of the loads fail, there is
    a client for exactly the providers of the configuration in force. *)
Theorem reloads_keep_clients c loads :
  let s := reload_loop build (started build c) loads in
  dom (provider_clients s) = list_to_set (names (config s)) :> gset string.
Proof.
  cbn. induction loads as [|loaded loads IH] using rev_ind.
  - cbn. unfold build_provider_clients. by rewrite dom_collect, fst_pairs.
  - unfold reload_loop in *. rewrite foldl_app. cbn [foldl]. unfold reload_step at 1 3.
    destruct loaded as [new|e]; [|done]. cbn. unfold rebuild_provider_clients_preserving_unchanged.
    by rewrite dom_collect, fst_pairs.
Qed.

Lemma provider_configs_match_eq old new : provider_configs_match old new = true <-> old = new.
Proof.
  unfold provider_configs_match. rewrite !andb_true_iff, !String.eqb_eq, !bool_decide_eq_true, !Z.eqb_eq.
  destruct old, new; cbn. split; [|by intros [= -> -> -> -> -> ->]]. intuition congruence.
Qed.

(** A provider that a reload leaves as it was keeps its client, and with it the connections
    that are open. *)
Theorem unchanged_provider_keeps_client s new p :
  p ∈ providers (config s) -> p ∈ providers new -> NoDup (names new) ->
  is_Some (provider_clients s !! Adapter.name p) ->
  provider_clients (apply_reloaded_config build s new) !! Adapter.name p =
    provider_clients s !! Adapter.name p.
Proof.
  intros Hold Hnew Hnodup [client Hc]. cbn. unfold rebuild_provider_clients_preserving_unchanged.
  rewrite Hc. apply collect_lookup; [by rewrite fst_pairs|].
  apply list_elem_of_fmap. exists p. split; [|done]. f_equal. unfold client_for.
  destruct (List.find _ (providers (config s))) as [old|] eqn:E.
  - apply find_some in E as [_ ->%provider_configs_match_eq]. cbn. by rewrite Hc.
  - exfalso. eapply find_none in E; [|by apply list_elem_of_In].
    assert (provider_configs_match p p = true) by (by apply provider_configs_match_eq). congruence.
Qed.
End reloads.

(** ** The daemon and those who call it *)

Section connection.
Context (path : string) (contents : option bytes) (mode : result Z string)
  (from_yaml : bytes -> result KyrisdConfig string) (show_octal : Z -> string).
Context (get_or_create : string -> string -> result string string) (env : string -> option string).

Lemma loaded c :
  try_load_config path contents mode from_yaml show_octal get_or_create env = Ok c ->
  exists text c0 inbound operator, contents = Some text /\ from_yaml text = Ok c0 /\
    get_or_create Secret.ACCOUNT_INBOUND "sk-kyris" = Ok inbound /\
    get_or_create Secret.ACCOUNT_OPERATOR "sk-kyris-ops" = Ok operator /\
    c = apply_overrides_from env (with_keys inbound operator c0).
Proof.
  unfold try_load_config, populate_keys. destruct contents as [text|]; [|done].
  destruct (from_yaml text) as [c0|] eqn:Ey; [|done]. destruct (validate_api_version c0); [|done].
  destruct (validate_permissions _ _ _); [|done].
  destruct (get_or_create Secret.ACCOUNT_INBOUND _) as [i|] eqn:Ei; [|done].
  destruct (get_or_create Secret.ACCOUNT_OPERATOR _) as [o|] eqn:Eo; [|done].
  intros [= <-]. by exists text, c0, i, o.
Qed.

Lemma connected conn :
  load_kyrisd_connection contents from_yaml get_or_create = Some conn ->
  exists text c0 operator, contents = Some text /\ from_yaml text = Ok c0 /\
    get_or_create Secret.ACCOUNT_OPERATOR "sk-kyris-ops" = Ok operator /\
    conn = mkConnection ("http://" ++ rewrite_wildcard_to_loopback (listen c0)) operator.
Proof.
  unfold load_kyrisd_connection. destruct contents as [text|]; [|done]. cbn.
  destruct (from_yaml text) as [c0|] eqn:Ey; [|done].
  destruct (get_or_create Secret.ACCOUNT_OPERATOR _) as [o|] eqn:Eo; [|done].
  intros [= <-]. by exists text, c0, o.
Qed.

(** Hook and daemon agree on the key and, without TLS, on the address.  Where both read
    the same file and the same store, the key that a hook or a command sends is the one the
    daemon wants, in any environment; and if no variable moves the address and TLS is off,
    it calls the address the daemon listens on, the wildcards by their loopback. *)
Theorem connection_reaches_daemon c conn :
  try_load_config path contents mode from_yaml show_octal get_or_create env = Ok c ->
  load_kyrisd_connection contents from_yaml get_or_create = Some conn ->
  connection_key conn = operator_key c /\
  (env "KYRIS_SERVER_LISTEN" = None -> tls_enabled (tls c) = false ->
   listen c = rewrite_wildcard_to_loopback (listen c) -> connection_url conn = base_url c).
Proof.
  intros (t & c0 & i & o & Ht & Hc & _ & Ho & ->)%loaded (t' & c0' & o' & Ht' & Hc' & Ho' & ->)%connected.
  rewrite Ht in Ht'. injection Ht' as <-. rewrite Hc in Hc'. injection Hc' as <-.
  rewrite Ho in Ho'. injection Ho' as <-. split; [done|].
  intros Henv Htls Hlisten. unfold base_url. rewrite Htls. cbn in *. unfold text in *.
  rewrite Henv in *. cbn in *. by rewrite <- Hlisten.
Qed.

(** With TLS on, what hooks and commands call is not what the daemon serves: they use plain
    HTTP whatever the configuration says. *)
Theorem tls_daemon_called_in_plain c conn :
  try_load_config path contents mode from_yaml show_octal get_or_create env = Ok c ->
  load_kyrisd_connection contents from_yaml get_or_create = Some conn ->
  tls_enabled (tls c) = true ->
  str_starts_with "https://" (base_url c) = true /\ str_starts_with "https://" (connection_url conn) = false.
Proof.
  intros _ (text & c0 & o & _ & _ & _ & ->)%connected Htls. unfold base_url. rewrite Htls.
  split; [|done]. unfold str_starts_with. by rewrite !lit_app.
Qed.
End connection.

(** ** Strays, statistics, health *)

(** Only a process of the same user, other than the daemon itself, whose executable has the
    name of kyrisd or of one of its test binaries gets a signal, and none is killed that was
    not asked to end first. *)
Theorem reap_only_strays own_pid owner_uid processes alive_after p signal :
  (p, signal) ∈ reap_stray_daemons own_pid owner_uid processes alive_after ->
  (exists proc name, proc ∈ processes /\ pid proc = p /\ p <> own_pid /\
     user_id proc = Some owner_uid /\ exe_name proc = Some name /\ is_kyrisd_executable name = true) /\
  (p, SIGTERM) ∈ reap_stray_daemons own_pid owner_uid processes alive_after.
Proof.
  unfold reap_stray_daemons.
  set (strays := pid <$> List.filter (is_stray own_pid owner_uid) processes).
  intros Hin. assert (p ∈ strays) as Hp.
  { apply elem_of_app in Hin as [Hin|Hin]; apply list_elem_of_fmap in Hin as (q & [= -> _] & Hq); [done|].
    by apply elem_of_List_filter in Hq as [? _]. }
  split.
  - apply list_elem_of_fmap in Hp as (proc & -> & Hproc). apply elem_of_List_filter in Hproc as [Hproc Hs].
    unfold is_stray in Hs. apply andb_true_iff in Hs as [[Hpid%negb_true_iff Hu]%andb_true_iff Hn].
    apply N.eqb_neq in Hpid. apply bool_decide_eq_true in Hu.
    destruct (exe_name proc) as [name|] eqn:En; [|done]. by exists proc, name.
  - apply elem_of_app. left. apply list_elem_of_fmap. by exists p.
Qed.

(** The statistics of a window are those of at most ten thousand entries of it. *)
Theorem stats_of_newest `{AgentpactTypes} `{Float64} try_cast parse_segments env_home scope log table
    since dir :
  length (timeline_entries try_cast parse_segments env_home scope log table (stats_filter since dir))
    <= 10000.
Proof.
  unfold timeline_entries, Timeline.query_timeline, stats_filter. cbv zeta. cbn [Timeline.f_limit].
  rewrite length_take.
  assert (N.to_nat (N.max 1 (N.min 10000 10000)) <= 10000)%nat as Hle by (apply Nat.leb_le; by vm_compute).
  etransitivity; [apply Nat.le_min_l|exact Hle].
Qed.

(** A daemon without any provider is ready. *)
Lemma ready_without_providers c : providers c = [] -> get_healthz c 0 true = (200%Z, mkHealthz true 0 0 true).
Proof. intros Hp. unfold get_healthz. by rewrite Hp. Qed.

(** ** Examples *)
Module Sample.

Definition to_str (b : bytes) : option string := Some (of_bytes b).

(** A router for paths without parameters. *)
Definition find_route (patterns : list string) (path : string) : option string :=
  List.find (String.eqb path) patterns.

Definition request : Adapter.header_map :=
  [("authorization", lit "Bearer sk-ant-oat-1"); ("x-kyris-inbound", lit "sk-kyris-1")].

(** The key of an agent does not open the routes of the operator, nor does it open anything
    while no key is configured. *)
Example inbound_is_not_operator :
  serve to_str find_route "sk-kyris-1" "sk-kyris-ops-1" GET "/operator/stats" request = Err 401%Z /\
  serve to_str find_route "" "" POST "/v1/messages" request = Err 500%Z /\
  serve to_str find_route "" "" GET "/healthz" [] = Ok healthz.
Proof. by vm_compute. Qed.

Lemma handlers_behind_keys_witness :
  serve to_str find_route "sk-kyris-1" "sk-kyris-ops-1" POST "/v1/messages" request = Ok handle_messages /\
  (handle_messages = healthz \/
   handle_messages ∈ handlers (adapter_routes ++ mcp_routes) /\ "sk-kyris-1" <> "" /\
     presents to_str request "sk-kyris-1" \/
   handle_messages ∈ handlers authed_operational_routes /\ "sk-kyris-ops-1" <> "" /\
     provided_key to_str request = Some (lit "sk-kyris-ops-1")).
Proof.
  split; [vm_compute; reflexivity|].
  apply (handlers_behind_keys to_str find_route "sk-kyris-1" "sk-kyris-ops-1" POST "/v1/messages" request).
  vm_compute; reflexivity.
Defined.

Definition stored : KyrisdConfig :=
  mkConfig (Some "kyris/v1") "127.0.0.1:4100" "" "" 10485760 30 (mkTls false "" "") [] true 500000 30 24 90
    1000 false 300 5000.

Definition from_yaml (b : bytes) : result KyrisdConfig string :=
  if bytes_eqb b (lit "stored") then Ok stored else Err "not YAML".

Definition get_or_create (account prefix : string) : result string string := Ok (prefix ++ "-0")%string.

(** The environment changes the cap, not the address. *)
Definition env (v : string) : option string :=
  if String.eqb v "KYRIS_CIRCUIT_BREAKER_MAX_TOKENS" then Some "900000" else None.

Definition running : KyrisdConfig :=
  apply_overrides_from env (with_keys "sk-kyris-0" "sk-kyris-ops-0" stored).

Definition connection : KyrisdConnection := mkConnection "http://127.0.0.1:4100" "sk-kyris-ops-0".

Lemma connection_reaches_daemon_witness :
  max_tokens running = 900000%N /\
  connection_key connection = operator_key running /\
  (env "KYRIS_SERVER_LISTEN" = None -> tls_enabled (tls running) = false ->
   listen running = rewrite_wildcard_to_loopback (listen running) ->
   connection_url connection = base_url running).
Proof.
  split; [vm_compute; reflexivity|].
  apply (connection_reaches_daemon "kyrisd.yaml" (Some (lit "stored")) (Ok 384%Z) from_yaml (fun _ => "")
    get_or_create env running connection).
  - vm_compute; reflexivity.
  - vm_compute; reflexivity.
Defined.
End Sample.
End Server.
