(* ===== verification/RunState.v ===== *)
(** * Disabling and enabling

    [cli/src/lifecycle/run_state.rs]: [kyris disable] and [kyris enable] write the mode into
    the user's policy by editing the text of one line of it. *)

From S2P Require Import Prelude Text Configure Manifest Paths.

Module RunState.
Import Manifest.
Local Open Scope string_scope.
Local Open Scope list_scope.

Definition MODE_LOG : string := "log".
Definition MODE_ENFORCE : string := "enforce".

(** The two modes that are ever asked for. *)
Inductive Mode := Disable | Enable.

Definition mode_name (m : Mode) : string := match m with Disable => MODE_LOG | Enable => MODE_ENFORCE end.

Inductive WriteOutcome := Created | Updated | Unchanged.

(** ** The line of the mode *)

(** [rest.find('#')]: what is before it, and it with what follows. *)
Fixpoint split_comment (l : bytes) : bytes * bytes :=
  match l with
  | [] => ([], [])
  | b :: l' =>
      if Ascii.eqb b "#"%char then ([], l)
      else let '(value, comment) := split_comment l' in (b :: value, comment)
  end.

Definition comment_suffix (comment : bytes) : bytes :=
  match comment with [] => [] | _ => lit "  " ++ comment end.

(** What the line is written as, and whether that is another mode; [None] if it is not a
    line of the mode. *)
Definition rewrite_one (target_mode : string) (raw_line : bytes) : option (bytes * bool) :=
  let trimmed := trim_start raw_line in
  if starts_with (lit "#") trimmed || bytes_eqb trimmed [] then None
  else
    match str_strip_prefix (lit "mode:") trimmed with
    | None => None
    | Some rest =>
        let '(value_part, comment_part) := split_comment rest in
        let current_value := trim value_part in
        let indent := take (length raw_line - length trimmed) raw_line in
        Some (indent ++ lit "mode: " ++ lit target_mode ++ comment_suffix comment_part,
              negb (bytes_eqb current_value (lit target_mode)))
    end.

(** The lines, whether the mode was found, and whether it changed. *)
Fixpoint rewrite_lines (target_mode : string) (ls : list bytes) : list bytes * bool * bool :=
  match ls with
  | [] => ([], false, false)
  | l :: ls' =>
      match rewrite_one target_mode l with
      | Some (l', changed) => (l' :: ls', true, changed)
      | None => let '(out, found, changed) := rewrite_lines target_mode ls' in (l :: out, found, changed)
      end
  end.

Definition no_mode (target_mode : string) : string :=
  ("no uncommented `mode:` key found. Add `  mode: " ++ target_mode
   ++ "` under `spec:` or delete the file to have `kyris install` re-seed it.")%string.

Definition rewrite_mode_line (contents : bytes) (target_mode : string) : result (bytes * bool) string :=
  let '(out, found, changed) := rewrite_lines target_mode (lines contents) in
  if negb found then Err (no_mode target_mode)
  else
    let output := text_of out in
    Ok (if negb (ends_with [newline] contents) && ends_with [newline] output
        then removelast output else output, changed).

Definition fresh_pact_yaml (target_mode : string) : bytes :=
  text_of (lit <$>
    ["# SPDX-License-Identifier: Apache-2.0";
     "# User policy. Toggle enforcement with `kyris disable` (log)";
     "# or `kyris enable` (enforce). Add `commands:` rules under";
     "# `spec:` for per-pattern decisions.";
     "apiVersion: agentpact/v1";
     "kind: Pact";
     "metadata:";
     "  name: user-default";
     "spec:";
     ("  mode: " ++ target_mode)%string]).

(** The file, if it is there, before and after; that it can be read and written is taken
    for granted. *)
Definition write_mode_in_place (file : option bytes) (target_mode : string)
    : result WriteOutcome string * option bytes :=
  match file with
  | None => (Ok Created, Some (fresh_pact_yaml target_mode))
  | Some contents =>
      (* read_to_string *)
      if negb (valid_utf8 contents) then (Err "read: stream did not contain valid UTF-8", file)
      else
        match rewrite_mode_line contents target_mode with
        | Err e => (Err e, file)
        | Ok (new_contents, changed) =>
            if negb changed then (Ok Unchanged, file) else (Ok Updated, Some new_contents)
        end
  end.

(** ** The commands *)

Section commands.
Context (env : string -> option string).

Definition pact_yaml_path : string :=
  Paths.join (match env "XDG_CONFIG_HOME" with
              | Some xdg => xdg
              | None => (default "" (env "HOME") ++ "/.config")%string
              end) "agentpact/policy/pact.yaml".

Definition agentpact_socket : string :=
  match env "AGENTPACT_SOCK" with
  | Some sock => sock
  | None => (default "" (env "HOME") ++ "/.agentpact/agentpact.sock")%string
  end.

(** The first line that is printed, or that goes to the standard error with exit code 1. *)
Definition said (m : Mode) (o : WriteOutcome) : string :=
  match m, o with
  | Disable, Updated => "Kyris disabled — mode is now `log`."
  | Enable, Updated => "Kyris enabled — mode is now `enforce`."
  | Disable, Unchanged => "Kyris is already in `log` mode. No change."
  | Enable, Unchanged => "Kyris is already in `enforce` mode. No change."
  | Disable, Created => ("Kyris disabled — created " ++ pact_yaml_path ++ " with mode `log`.")%string
  | Enable, Created => ("Kyris enabled — created " ++ pact_yaml_path ++ " with mode `enforce`.")%string
  end.

Definition run_toggle (agentpactd_reachable : bool) (m : Mode) (file : option bytes)
    : result string string * option bytes :=
  if negb agentpactd_reachable then
    (Err ("[kyris] agentpactd is not reachable at " ++ agentpact_socket
          ++ ". Mode changes only take effect when the policy daemon is running. Fix that first (try `kyris doctor` or reinstall agentpact), then re-run.")%string, file)
  else
    match write_mode_in_place file (mode_name m) with
    | (Ok o, file) => (Ok (said m o), file)
    | (Err e, file) => (Err ("[kyris] could not update " ++ pact_yaml_path ++ ": " ++ e)%string, file)
    end.
End commands.

(** ** One line *)

Lemma split_comment_app l : let '(v, c) := split_comment l in
  l = v ++ c /\ "#"%char ∉ v /\ (c = [] \/ exists c', c = "#"%char :: c').
Proof.
  induction l as [|b l IH]; cbn [split_comment]; [split_and!; [done|apply not_elem_of_nil|by left]|].
  destruct (Ascii.eqb_spec b "#"%char) as [->|Hne]; [split_and!; [done|apply not_elem_of_nil|by right; eexists]|].
  destruct (split_comment l) as [v c], IH as (-> & Hv & Hc). split_and!; [done| |done].
  by apply not_elem_of_cons.
Qed.

Lemma split_comment_spec v c :
  "#"%char ∉ v -> (c = [] \/ exists c', c = "#"%char :: c') -> split_comment (v ++ c) = (v, c).
Proof.
  intros Hv Hc. induction v as [|b v IH]; cbn [app split_comment].
  - by destruct Hc as [->|[c' ->]].
  - apply not_elem_of_cons in Hv as [Hb Hv].
    destruct (Ascii.eqb_spec b "#"%char) as [->|_]; [done|]. by rewrite IH.
Qed.

(** What the line of the mode becomes: its comment, if it has one, after two spaces. *)
Definition mode_line (indent : bytes) (m : string) (comment : bytes) : bytes :=
  indent ++ lit "mode: " ++ lit m ++ match comment with [] => [] | _ => lit "  " ++ comment end.

Definition names_mode (l : bytes) : Prop := exists indent rest, indentation indent /\ l = indent ++ lit "mode:" ++ rest.

Definition comment_like (c : bytes) : Prop := c = [] \/ exists c', c = "#"%char :: c'.

(** Only what stands between [mode:] and the comment is looked at and replaced. *)
Lemma rewrite_one_shape m l l' changed :
  rewrite_one m l = Some (l', changed) ->
  exists indent value comment, indentation indent /\ "#"%char ∉ value /\ comment_like comment /\
    l = indent ++ lit "mode:" ++ value ++ comment /\ l' = mode_line indent m comment /\
    changed = negb (bytes_eqb (trim value) (lit m)).
Proof.
  unfold rewrite_one. destruct (trim_start_split l) as (i & Hi & Hl).
  destruct (_ || _); [done|]. destruct (str_strip_prefix (lit "mode:") (trim_start l)) as [rest|] eqn:Er; [|done].
  pose proof (split_comment_app rest) as Hs. destruct (split_comment rest) as [v c], Hs as (-> & Hv & Hc).
  intros [= <- <-]. exists i, v, c. unfold str_strip_prefix in Er.
  destruct (starts_with _ (trim_start l)) eqn:Hs; [|done]. apply starts_with_true in Hs as [r Hr].
  rewrite Hr, drop_app_length in Er. injection Er as ->. split_and!; try done.
  - by rewrite Hl, Hr.
  - unfold mode_line. rewrite Hl at 1 3. rewrite length_app.
    replace (length i + length (trim_start l) - length (trim_start l)) with (length i) by lia.
    by rewrite take_app_length.
Qed.

Lemma rewrite_one_mode m indent value comment :
  indentation indent -> "#"%char ∉ value -> comment_like comment ->
  rewrite_one m (indent ++ lit "mode:" ++ value ++ comment) =
    Some (mode_line indent m comment, negb (bytes_eqb (trim value) (lit m))).
Proof.
  intros Hi Hv Hc. unfold rewrite_one, mode_line.
  assert (trim_start (indent ++ lit "mode:" ++ value ++ comment) = lit "mode:" ++ value ++ comment) as ->
    by (by apply trim_start_indent).
  rewrite length_app. replace (length indent + length (lit "mode:" ++ value ++ comment)
    - length (lit "mode:" ++ value ++ comment)) with (length indent) by lia.
  rewrite take_app_length.
  assert (starts_with (lit "#") (lit "mode:" ++ value ++ comment)
    || bytes_eqb (lit "mode:" ++ value ++ comment) [] = false) as -> by done.
  unfold str_strip_prefix. rewrite starts_with_app, drop_app_length.
  by rewrite (split_comment_spec _ _ Hv Hc).
Qed.

(** The line that was written is a line of the mode, with the mode that was asked for. *)
Lemma mode_line_value i (m : Mode) c :
  comment_like c -> exists v, "#"%char ∉ v /\ trim v = lit (mode_name m) /\
    mode_line i (mode_name m) c = i ++ lit "mode:" ++ v ++ c.
Proof.
  intros Hc. exists (lit " " ++ lit (mode_name m) ++ match c with [] => [] | _ => lit "  " end).
  split_and!; [destruct m, c; vm_decided|by destruct m, c|]. unfold mode_line. by destruct m, c.
Qed.

Lemma rewrite_one_plain (m : Mode) l l' changed :
  rewrite_one (mode_name m) l = Some (l', changed) -> plain_line l -> plain_line l'.
Proof.
  intros (i & v & c & Hi & Hv & Hc & -> & -> & _)%rewrite_one_shape [Hnl Hcr].
  rewrite !not_elem_of_app in Hnl. destruct Hnl as (Hni & _ & _ & Hnc). unfold mode_line, comment_suffix.
  split.
  - rewrite !not_elem_of_app. split_and!; [done|vm_decided|destruct m; vm_decided|].
    destruct c; [apply not_elem_of_nil|]. rewrite not_elem_of_app. split; [vm_decided|done].
  - rewrite strip_cr_last in Hcr |- *. destruct Hc as [->|[c' ->]].
    + rewrite app_nil_r, !last_app_ne by by destruct m. by destruct m.
    + assert (forall l x : bytes, last (l ++ x ++ "#"%char :: c') = last ("#"%char :: c')) as Hlast.
      { intros l x. rewrite !last_app_ne; [done|done|by destruct x]. }
      rewrite app_assoc, Hlast in Hcr. by rewrite app_assoc, app_assoc, Hlast.
Qed.

(** ** The file *)

Lemma rewrite_lines_None m ls out changed :
  rewrite_lines m ls = (out, false, changed) -> Forall (fun l => rewrite_one m l = None) ls.
Proof.
  revert out changed. induction ls as [|l ls IH]; [constructor|]. intros out changed. cbn [rewrite_lines].
  destruct (rewrite_one m l) as [[l' c]|] eqn:E; [done|].
  destruct (rewrite_lines m ls) as [[out' found] c]. intros [= <- -> <-]. constructor; eauto.
Qed.

Lemma rewrite_lines_split m ls out changed :
  rewrite_lines m ls = (out, true, changed) ->
  exists a l b l', ls = a ++ l :: b /\ Forall (fun l => rewrite_one m l = None) a /\
    rewrite_one m l = Some (l', changed) /\ out = a ++ l' :: b.
Proof.
  revert out. induction ls as [|l ls IH]; [done|]. intros out. cbn [rewrite_lines].
  destruct (rewrite_one m l) as [[l' c]|] eqn:E.
  - intros [= <- <-]. exists [], l, ls, l'. by split_and!.
  - destruct (rewrite_lines m ls) as [[out' found] c]. intros [= <- -> <-].
    destruct (IH _ eq_refl) as (a & l1 & b & l' & -> & Ha & Hl & ->).
    exists (l :: a), l1, b, l'. split_and!; [done|by constructor|done|done].
Qed.

Lemma rewrite_lines_app m a l b l' changed :
  Forall (fun l => rewrite_one m l = None) a -> rewrite_one m l = Some (l', changed) ->
  rewrite_lines m (a ++ l :: b) = (a ++ l' :: b, true, changed).
Proof.
  intros Ha Hl. induction Ha as [|x a Hx _ IH]; cbn [app rewrite_lines]; [by rewrite Hl|].
  by rewrite Hx, IH.
Qed.

(** Which line is the mode's does not depend on the mode that is asked for. *)
Lemma rewrite_one_no_mode m l : rewrite_one m l = None <-> ~ names_mode l.
Proof.
  split.
  - intros H (i & rest & Hi & ->). pose proof (split_comment_app rest) as Hs.
    destruct (split_comment rest) as [v c], Hs as (-> & Hv & Hc). by rewrite rewrite_one_mode in H.
  - intros H. destruct (rewrite_one m l) as [[l' changed]|] eqn:E; [|done]. destruct H.
    apply rewrite_one_shape in E as (i & v & c & Hi & _ & _ & -> & _). by eexists _, _.
Qed.

Lemma rewrite_mode_line_text ls m out changed :
  Forall plain_line ls ->
  rewrite_mode_line (text_of ls) m = Ok (out, changed) <->
  exists ls', rewrite_lines m ls = (ls', true, changed) /\ out = text_of ls'.
Proof.
  intros Hls. unfold rewrite_mode_line. rewrite lines_text_of by done.
  destruct (rewrite_lines m ls) as [[ls' found] c] eqn:E. destruct found; cbn [negb].
  - assert (ls <> []) as Hne by (intros ->; done). rewrite text_of_ends by done. cbn [negb andb]. split.
    + intros [= <- <-]. eauto.
    + intros (l & [= <- <-] & ->). done.
  - split; [done|]. by intros (l & [= ] & _).
Qed.

(** The edited file is text where the file was. *)
Lemma edit_is_text (m : Mode) a i v c b :
  comment_like c -> valid_utf8 (text_of (a ++ (i ++ lit "mode:" ++ v ++ c) :: b)) = true ->
  valid_utf8 (text_of (a ++ mode_line i (mode_name m) c :: b)) = true.
Proof.
  intros Hc.
  assert (forall x, text_of (a ++ (i ++ lit "mode" ++ x) :: b) =
    (text_of a ++ i) ++ "m"%char :: (lit "ode" ++ x) ++ newline :: text_of b) as E.
  { intros x. unfold text_of. rewrite fmap_app, concat_app, fmap_cons. cbn [concat]. by rewrite <- !app_assoc. }
  change (lit "mode:" ++ v ++ c) with (lit "mode" ++ lit ":" ++ v ++ c).
  unfold mode_line. change (lit "mode: ") with (lit "mode" ++ lit ": "). rewrite <- (app_assoc (lit "mode")).
  rewrite !E, !valid_utf8_ascii_app by done. rewrite !andb_true_iff. intros (HP & HX & HB). split_and!; [done| |done].
  destruct Hc as [->|[c' ->]]; [by destruct m|].
  rewrite !app_assoc in HX. rewrite valid_utf8_ascii_app in HX by done. apply andb_true_iff in HX as [_ HX].
  rewrite !app_assoc, valid_utf8_ascii_app by done. rewrite HX. by destruct m.
Qed.

Lemma write_mode_edits (m : Mode) a i v c b :
  Forall plain_line (a ++ (i ++ lit "mode:" ++ v ++ c) :: b) -> Forall (fun l => ~ names_mode l) a ->
  indentation i -> "#"%char ∉ v -> comment_like c ->
  valid_utf8 (text_of (a ++ (i ++ lit "mode:" ++ v ++ c) :: b)) = true ->
  write_mode_in_place (Some (text_of (a ++ (i ++ lit "mode:" ++ v ++ c) :: b))) (mode_name m) =
    if bytes_eqb (trim v) (lit (mode_name m)) then (Ok Unchanged, Some (text_of (a ++ (i ++ lit "mode:" ++ v ++ c) :: b)))
    else (Ok Updated, Some (text_of (a ++ mode_line i (mode_name m) c :: b))).
Proof.
  intros Hp Ha Hi Hv Hc Hu. unfold write_mode_in_place. rewrite Hu. cbn [negb].
  assert (rewrite_mode_line (text_of (a ++ (i ++ lit "mode:" ++ v ++ c) :: b)) (mode_name m) =
    Ok (text_of (a ++ mode_line i (mode_name m) c :: b), negb (bytes_eqb (trim v) (lit (mode_name m))))) as ->.
  { apply rewrite_mode_line_text; [done|]. eexists. split; [|reflexivity]. apply rewrite_lines_app.
    - eapply Forall_impl; [exact Ha|]. intros l. apply rewrite_one_no_mode.
    - by apply rewrite_one_mode. }
  by destruct (bytes_eqb _ _).
Qed.

(** C29. A toggle edits one line, and the next edits it again.  Where [kyris disable] or
    [kyris enable] succeeds on a policy file of whole lines (each ended by a line feed
    alone), the first line that begins with [mode:] keeps its indentation and its comment and
    every other line of the file stays as it was; the file is written exactly where the
    value on that line is another one than the mode that is asked for.  And a toggle after
    it finds that mode there: it leaves the file alone where it asks for the same, and
    otherwise writes its own mode on that same line, with the same indentation and
    comment. *)
Theorem toggle_edits_one_line (m : Mode) ls o out :
  Forall plain_line ls ->
  write_mode_in_place (Some (text_of ls)) (mode_name m) = (Ok o, Some out) ->
  exists before indent value comment after,
    ls = before ++ (indent ++ lit "mode:" ++ value ++ comment) :: after /\
    Forall (fun l => ~ names_mode l) before /\
    indentation indent /\ "#"%char ∉ value /\ comment_like comment /\
    (o = Unchanged /\ trim value = lit (mode_name m) /\ out = text_of ls \/
     o = Updated /\ trim value <> lit (mode_name m) /\
       out = text_of (before ++ mode_line indent (mode_name m) comment :: after)) /\
    forall m' : Mode, write_mode_in_place (Some out) (mode_name m') =
      if String.eqb (mode_name m) (mode_name m') then (Ok Unchanged, Some out)
      else (Ok Updated, Some (text_of (before ++ mode_line indent (mode_name m') comment :: after))).
Proof.
  intros Hls Hw. unfold write_mode_in_place in Hw. destruct (valid_utf8 _) eqn:Hu; [|done]. cbn [negb] in Hw.
  destruct (rewrite_mode_line _ _) as [[out' changed]|] eqn:E; [|done].
  apply rewrite_mode_line_text in E as (ls' & E & ->); [|done].
  apply rewrite_lines_split in E as (a & l & b & l' & -> & Ha & Hl & ->).
  pose proof (rewrite_one_plain _ _ _ _ Hl) as Hpl.
  apply rewrite_one_shape in Hl as (i & v & c & Hi & Hv & Hc & -> & -> & ->).
  assert (Forall (fun l => ~ names_mode l) a) as Ha'
    by (eapply Forall_impl; [exact Ha|]; intros l; apply rewrite_one_no_mode).
  exists a, i, v, c, b. unfold bytes_eqb in Hw.
  destruct (bool_decide_reflect (trim v = lit (mode_name m))) as [Ht|Ht]; injection Hw as <- <-;
    split_and!; auto; intros m'.
  - pose proof (write_mode_edits m' a i v c b Hls Ha' Hi Hv Hc Hu) as Hw. rewrite Ht in Hw.
    etrans; [exact Hw|]. by destruct m, m'.
  - destruct (mode_line_value i m c Hc) as (v' & Hv' & Hm & E). rewrite E.
    rewrite write_mode_edits; try done.
    + rewrite Hm. by destruct m, m'.
    + rewrite <- E. apply Forall_app in Hls as [Hpa [Hpl' Hpb]%Forall_cons]. apply Forall_app. split; [done|].
      constructor; auto.
    + rewrite <- E. by eapply edit_is_text.
Qed.

(** A file without such a line is left alone, and the command fails. *)
Theorem toggle_without_mode env (m : Mode) ls :
  Forall plain_line ls -> Forall (fun l => ~ names_mode l) ls ->
  exists e, run_toggle env true m (Some (text_of ls)) = (Err e, Some (text_of ls)).
Proof.
  intros Hls Hno. unfold run_toggle, write_mode_in_place. cbn [negb].
  destruct (negb _); [by eexists|].
  destruct (rewrite_mode_line _ _) as [[out changed]|e] eqn:E; [|by eexists].
  apply rewrite_mode_line_text in E as (ls' & E & _); [|done].
  apply rewrite_lines_split in E as (a & l & b & l' & -> & _ & Hl & _).
  apply Forall_app in Hno as [_ [Hno _]%Forall_cons]. rewrite <- rewrite_one_no_mode in Hno. erewrite Hno in Hl. done.
Qed.

(** Nothing is written while the daemon cannot be reached. *)
Lemma unreachable_untouched env (m : Mode) file : (run_toggle env false m file).2 = file.
Proof. done. Qed.

(** What is written where there is no file can be toggled. *)
Lemma fresh_toggles (m m' : Mode) :
  rewrite_mode_line (fresh_pact_yaml (mode_name m)) (mode_name m') =
    Ok (fresh_pact_yaml (mode_name m'), negb (String.eqb (mode_name m) (mode_name m'))).
Proof. destruct m, m'; vm_compute; reflexivity. Qed.

(** ** Examples *)
Module Sample.

Definition policy : list bytes :=
  lit <$> ["# mode: log"; "kind: Pact"; "spec:"; "  mode: log   # for the demo"; "  commands:"].

(** The first [mode:] of the file counts, wherever it stands: here the policy stays in log
    mode, and the command says that it is in the other already. *)
Example label_taken_for_mode :
  run_toggle (fun _ => None) true Enable
    (Some (text_of (lit <$> ["metadata:"; "  labels:"; "    mode: enforce"; "spec:"; "  mode: log"]))) =
  (Ok "Kyris is already in `enforce` mode. No change.",
   Some (text_of (lit <$> ["metadata:"; "  labels:"; "    mode: enforce"; "spec:"; "  mode: log"]))).
Proof. by vm_compute. Qed.

(** A quoted value is another value: it is written again without its quotes. *)
Example quoted_mode :
  write_mode_in_place (Some (lit "mode: 'log'")) MODE_LOG = (Ok Updated, Some (lit "mode: log")).
Proof. by vm_compute. Qed.

(** Carriage returns are lost on every line. *)
Example carriage_returns_lost :
  write_mode_in_place (Some (lit "kind: Pact" ++ ["013"%char; newline] ++ lit "mode: log" ++ ["013"%char; newline]))
    MODE_ENFORCE = (Ok Updated, Some (text_of (lit <$> ["kind: Pact"; "mode: enforce"]))).
Proof. by vm_compute. Qed.

Lemma policy_plain : Forall plain_line policy.
Proof. repeat constructor; vm_decided. Qed.

Definition enforcing : list bytes :=
  lit <$> ["# mode: log"; "kind: Pact"; "spec:"; "  mode: enforce  # for the demo"; "  commands:"].

Lemma toggle_edits_one_line_witness :
  exists before indent value comment after,
    policy = before ++ (indent ++ lit "mode:" ++ value ++ comment) :: after /\
    Forall (fun l => ~ names_mode l) before /\
    indentation indent /\ "#"%char ∉ value /\ comment_like comment /\
    (Updated = Unchanged /\ trim value = lit "enforce" /\ text_of enforcing = text_of policy \/
     Updated = Updated /\ trim value <> lit "enforce" /\
       text_of enforcing = text_of (before ++ mode_line indent "enforce" comment :: after)) /\
    forall m' : Mode, write_mode_in_place (Some (text_of enforcing)) (mode_name m') =
      if String.eqb "enforce" (mode_name m') then (Ok Unchanged, Some (text_of enforcing))
      else (Ok Updated, Some (text_of (before ++ mode_line indent (mode_name m') comment :: after))).
Proof.
  apply (toggle_edits_one_line Enable policy Updated).
  - exact policy_plain.
  - vm_compute; reflexivity.
Defined.
End Sample.
End RunState.
