(* ===== verification/Update.v ===== *)
(** * Updating

    [cli/src/lifecycle/update.rs] and [release.rs]: [kyris update] asks GitHub for the newest
    release of each repository, compares versions, and replaces the binaries it finds on the
    path with those of a tarball that matches its checksum.

    GitHub, [brew], [tar], the regular expression of a version, SHA-256 and the services are
    arguments.  What is printed is left out, and [kyris.log], the log of the update; the
    record of a replaced binary in the install manifest is part of [disk]. *)

From S2P Require Import Prelude Text Json Toml JsonEdit JsonPatch Manifest Commands Adapter CodexCli GenericAgent Paths.

Module Update.
Import Manifest JsonEdit Commands.
Local Open Scope string_scope.
Local Open Scope list_scope.

(** ** Versions: [update.rs] *)

(** What stands before the first dash. *)
Definition head_of (piece : bytes) : bytes := default [] (head (Adapter.split_on "-" piece)).

Definition version_part (piece : bytes) : N := default 0%N (parse_usize (head_of piece)).

(** [[u64; 3]]. *)
Definition version_parts (version : string) : list N :=
  resize 3 0%N (version_part <$> take 3 (Adapter.split_on "." (lit version))).

Fixpoint compare_parts (current latest : list N) : Z :=
  match current, latest with
  | c :: current, l :: latest =>
      match N.compare c l with
      | Lt => -1
      | Gt => 1
      | Eq => compare_parts current latest
      end
  | _, _ => 0
  end.

Definition compare_versions (current latest : string) : Z :=
  compare_parts (version_parts current) (version_parts latest).

Definition normalize_version (version : string) : string :=
  of_bytes (GenericAgent.trim_start_matches (String.length version) (lit "v") (trim (lit version))).

(** ** Releases: [release.rs] *)

Record GitHubAsset := mkAsset { asset_name : string; browser_download_url : string }.

Record GitHubRelease := mkRelease { tag_name : string; assets : list GitHubAsset }.

Definition release_target (os arch : string) : result string string :=
  if String.eqb os "macos" && (String.eqb arch "aarch64" || String.eqb arch "arm64") then Ok "darwin-aarch64"
  else if String.eqb os "macos" && String.eqb arch "x86_64" then Ok "darwin-x86_64"
  else if String.eqb os "linux" && String.eqb arch "x86_64" then Ok "linux-x86_64"
  else if String.eqb os "linux" && String.eqb arch "aarch64" then Ok "linux-aarch64"
  else Err ("Unsupported target: " ++ os ++ "/" ++ arch)%string.

(** [split_once(char::is_whitespace)]. *)
Fixpoint split_once_white (before l : bytes) : option (bytes * bytes) :=
  match strip_one white_space l with
  | Some rest => Some (before, rest)
  | None => match l with [] => None | b :: l => split_once_white (before ++ [b]) l end
  end.

(** One line of a list of checksums: the hash, if the line is of the file.  [to_lowercase] is
    taken of ASCII only: no other character becomes a hexadecimal digit. *)
Definition checksum_line (filename : bytes) (line : bytes) : option bytes :=
  let line := trim line in
  if bytes_eqb line [] || starts_with (lit "#") line then None
  else match split_once_white [] line with
       | Some (hash, name) =>
           let name := trim name in
           if bytes_eqb name filename
              || bytes_eqb (GenericAgent.trim_start_matches (length name) (lit "./") name) filename
           then Some (to_ascii_lowercase hash) else None
       | None => None
       end.

Definition parse_checksums (text : bytes) (filename : string) : option bytes :=
  head (omap (checksum_line (lit filename)) (lines text)).

Section release.
Context (sha256 : bytes -> bytes) (download_asset : GitHubAsset -> result bytes string).

Definition sha256_hex (data : bytes) : bytes := CodexCli.hex (sha256 data).

Definition download_and_verify (release : GitHubRelease) (asset : GitHubAsset) : result bytes string :=
  match download_asset asset with
  | Err e => Err e
  | Ok tarball_bytes =>
      match List.find (fun a => String.eqb (asset_name a) "SHA256SUMS") (assets release) with
      | None => Err ("Release is missing SHA256SUMS file — cannot verify " ++ asset_name asset)%string
      | Some checksums_asset =>
          match download_asset checksums_asset with
          | Err e => Err e
          | Ok checksums =>
              if negb (valid_utf8 checksums) then Err "SHA256SUMS is not valid UTF-8"
              else match parse_checksums checksums (asset_name asset) with
                   | None => Err ("SHA256SUMS does not contain an entry for " ++ asset_name asset)%string
                   | Some expected_hash =>
                       let actual_hash := sha256_hex tarball_bytes in
                       if negb (bytes_eqb actual_hash expected_hash) then
                         Err ("Checksum mismatch for " ++ asset_name asset ++ ": expected "
                              ++ of_bytes expected_hash ++ ", got " ++ of_bytes actual_hash)%string
                       else Ok tarball_bytes
                   end
          end
      end
  end.
End release.

(** ** The update *)

Inductive UpdateMode := Apply | Check | Background.

#[export] Instance update_mode_eq_dec : EqDecision UpdateMode.
Proof. solve_decision. Defined.

Inductive ServiceKind := Kyrisd | Agentpactd.

Record RepoUpdate := mkRepo {
  owner : string; repo : string; formula : string; primary_binary : string;
  binaries : list string; service : option ServiceKind }.

Record RepoUpdateStatus := mkStatus {
  status_repo : string; current : option string; latest : option string; channel : string }.

Record UpdateCheckResult := mkCheck { checked_at : string; repos : list RepoUpdateStatus }.

Definition has_script_update (s : RepoUpdateStatus) : bool :=
  if negb (String.eqb (channel s) "script") then false
  else match current s, latest s with
       | Some c, Some l => (compare_versions c l <? 0)%Z
       | _, _ => false
       end.

(** The instants are in nanoseconds. *)
Definition is_stale (parse_from_rfc3339 : string -> option Z) (now : Z) (max_age_hours : Z)
    (c : UpdateCheckResult) : bool :=
  match parse_from_rfc3339 (checked_at c) with
  | None => true
  | Some checked => (max_age_hours <=? Z.quot (Z.quot (now - checked) 1000000000) 3600)%Z
  end.

(** What [serde] makes of the cache. *)
Definition json_option (o : option string) : json := match o with Some s => JString s | None => JNull end.

Definition status_json (s : RepoUpdateStatus) : json :=
  JObject [("repo", JString (status_repo s)); ("current", json_option (current s));
           ("latest", json_option (latest s)); ("channel", JString (channel s))].

Definition check_json (c : UpdateCheckResult) : json :=
  JObject [("checked_at", JString (checked_at c)); ("repos", JArray (status_json <$> repos c))].

Definition repos_to_update : list RepoUpdate :=
  [mkRepo "kyr-is" "kyris" "kyris" "kyris" ["kyris"; "kyrisd"; "kyris-mcp"; "kyris-hook"] (Some Kyrisd);
   mkRepo "kyr-is" "agentpact" "agentpact" "agentpactd" ["agentpactd"] (Some Agentpactd)].

Section update.
Context {T : TomlFloat} {serde : SerdeText}.
Context (env : string -> option string) (os arch : string).
Context (brew_formula_installed : string -> bool).
(** What [--version] gives: whether it succeeded, and its output. *)
Context (run_version : string -> option (bool * bytes)).
(** [Regex::find] of the pattern of a version. *)
Context (find_version : bytes -> option bytes).
Context (find_in_path : string -> option string).
(** GitHub is asked twice: first for the versions, later for what to install. *)
Context (probed_release fetched_release : string -> string -> result GitHubRelease string).
Context (sha256 : bytes -> bytes) (download_asset : GitHubAsset -> result bytes string).
(** The files of a tarball. *)
Context (extract_tarball : bytes -> string -> result (string -> option bytes) string).
(** [managed_by_homebrew || launchd_loaded]. *)
Context (service_up : ServiceKind -> bool) (restart_service : ServiceKind -> result unit string).

Definition cache_path : string := Paths.join (Paths.kyris_home env) "last-update-check.json".

Definition save (c : UpdateCheckResult) : cmd unit := write_file cache_path (to_string_pretty (check_json c)).

Definition installed_version (binary : string) : option string :=
  '(success, stdout) ← run_version binary;
  if negb success then None
  else if valid_utf8 stdout then of_bytes <$> find_version stdout else None.

Definition probe_repo (r : RepoUpdate) : RepoUpdateStatus :=
  if brew_formula_installed (formula r) then
    mkStatus (repo r) (installed_version (primary_binary r)) None "brew"
  else
    match installed_version (primary_binary r) with
    | None => mkStatus (repo r) None None "missing"
    | Some current_version =>
        let latest_version := match probed_release (owner r) (repo r) with
                              | Ok release => Some (normalize_version (tag_name release))
                              | Err _ => None
                              end in
        mkStatus (repo r) (Some current_version) latest_version "script"
    end.

Inductive ApplyOutcome := UpdateAvailable (applied : bool) | Noop.

Definition write_managed_bytes (p : string) (contents : bytes) (c : string) : cmd bool :=
  write_managed_file p contents c CodexCli.NoopValidator.

(** One after the other; whether any file was written. *)
Fixpoint replace_binaries (extracted : string -> option bytes) (names : list string) : cmd bool :=
  match names with
  | [] => mret false
  | binary :: names =>
      match find_in_path binary, extracted binary with
      | Some path, Some contents =>
          replaced ← write_managed_bytes path contents "update";
          others ← replace_binaries extracted names;
          mret (replaced || others)
      | _, _ => replace_binaries extracted names
      end
  end.

Definition install_release (r : RepoUpdate) (target : string) : cmd ApplyOutcome :=
  release ← lift "" (fetched_release (owner r) (repo r));
  let name := (repo r ++ "-" ++ target ++ ".tar.gz")%string in
  match List.find (fun a => String.eqb (asset_name a) name) (assets release) with
  | None => throw ("Missing release asset " ++ name ++ " for " ++ repo r)%string
  | Some asset =>
      verified_bytes ← lift "" (download_and_verify sha256 download_asset release asset);
      extracted ← lift "" (extract_tarball verified_bytes name);
      replaced_any ← replace_binaries extracted (binaries r);
      (match service r with
       | Some kind => if replaced_any && service_up kind then lift "" (restart_service kind) else mret tt
       | None => mret tt
       end);;
      mret (UpdateAvailable replaced_any)
  end.

Definition apply_or_report (r : RepoUpdate) (status : RepoUpdateStatus) (mode : UpdateMode) (target : string)
    : cmd ApplyOutcome :=
  if String.eqb (channel status) "brew" || String.eqb (channel status) "missing" then mret Noop
  else
    match current status, latest status with
    | Some current_version, Some latest_version =>
        if (0 <=? compare_versions current_version latest_version)%Z then mret Noop
        else if bool_decide (mode = Check) then mret (UpdateAvailable false)
        else install_release r target
    | _, _ => mret Noop
    end.

Fixpoint apply_all (mode : UpdateMode) (target : string) (l : list (RepoUpdate * RepoUpdateStatus))
    : cmd (list ApplyOutcome) :=
  match l with
  | [] => mret []
  | (r, status) :: l =>
      outcome ← apply_or_report r status mode target;
      others ← apply_all mode target l;
      mret (outcome :: others)
  end.

(** The repositories whose update is available, and those whose update was applied. *)
Definition run_update (mode : UpdateMode) : cmd (nat * nat) :=
  target ← lift "" (release_target os arch);
  let statuses := probe_repo <$> repos_to_update in
  t ← now_rfc3339;
  save (mkCheck t statuses);;
  if bool_decide (mode = Background) then mret (0, 0)
  else
    outcomes ← apply_all mode target (zip repos_to_update statuses);
    mret (length (List.filter (fun o => match o with UpdateAvailable _ => true | Noop => false end) outcomes),
          length (List.filter (fun o => match o with UpdateAvailable a => a | Noop => false end) outcomes)).

(** Nothing is said of an update in the background that fails. *)
Definition run (background check : bool) (d : disk) : Z * disk :=
  let mode := if background then Background else if check then Check else Apply in
  match run_update mode d with
  | (Ok _, d) => (0, d)
  | (Err _, d) => (if bool_decide (mode = Background) then 0 else 1, d)
  end%Z.
End update.

(** ** Versions in order *)

Lemma parse_digits_bound acc l n :
  parse_digits acc l = Some n -> (acc < 2 ^ 64)%N -> (n < 2 ^ 64)%N.
Proof.
  revert acc. induction l as [|b l IH]; intros acc; cbn [parse_digits]; [by intros [= <-]|].
  destruct (digit b) as [d|]; [|done]. cbn. destruct (N.leb_spec (acc * 10 + d) 18446744073709551615); [|done].
  intros Hl _. apply (IH _ Hl). lia.
Qed.

Lemma version_part_bound piece : (version_part piece < 2 ^ 64)%N.
Proof.
  unfold version_part, parse_usize. destruct (head_of piece) as [|b l]; [done|].
  assert (forall l, default 0%N (parse_digits 0 l) < 2 ^ 64)%N as Hp.
  { intros l'. destruct (parse_digits 0 l') eqn:E; [by eapply parse_digits_bound|done]. }
  destruct (Ascii.eqb b "+"); [|apply Hp]. destruct l; [done|apply Hp].
Qed.

Lemma version_parts_three v :
  exists a b c, version_parts v = [a; b; c] /\ (a < 2 ^ 64 /\ b < 2 ^ 64 /\ c < 2 ^ 64)%N.
Proof.
  assert (Forall (fun n => n < 2 ^ 64)%N (version_parts v)) as Hall.
  { unfold version_parts. apply Forall_resize; [done|]. apply Forall_fmap, Forall_true.
    intros piece. apply version_part_bound. }
  pose proof (length_resize (version_part <$> take 3 (Adapter.split_on "." (lit v))) 3 0%N) as Hlen.
  fold (version_parts v) in Hlen. destruct (version_parts v) as [|a [|b [|c [|? ?]]]]; try done.
  exists a, b, c. rewrite !Forall_cons in Hall. naive_solver.
Qed.

(** The place of a version among all versions. *)
Definition rank (version : string) : N :=
  foldl (fun acc part => acc * 2 ^ 64 + part)%N 0%N (version_parts version).

Lemma digit_compare a b x y :
  (x < 2 ^ 64)%N -> (y < 2 ^ 64)%N ->
  N.compare (a * 2 ^ 64 + x) (b * 2 ^ 64 + y) =
    match N.compare a b with Eq => N.compare x y | c => c end.
Proof.
  intros Hx Hy. destruct (N.compare_spec a b) as [->|Hlt|Hgt].
  - destruct (N.compare_spec x y); [by subst; apply N.compare_refl|apply N.compare_lt_iff; lia|apply N.compare_gt_iff; lia].
  - apply N.compare_lt_iff. nia.
  - apply N.compare_gt_iff. nia.
Qed.

(** Comparing two versions is comparing two numbers: the parts of a version are the
    digits of a number in base 2^64, and the sign that comes out is that of the order of
    those.  So versions are totally preordered, and no update goes in a circle. *)
Theorem versions_compare_as_numbers current latest :
  compare_versions current latest =
    match N.compare (rank current) (rank latest) with Lt => -1 | Eq => 0 | Gt => 1 end%Z.
Proof.
  unfold compare_versions, rank.
  destruct (version_parts_three current) as (a & b & c & -> & _ & Hb & Hc).
  destruct (version_parts_three latest) as (x & y & z & -> & _ & Hy & Hz).
  cbn [foldl compare_parts]. rewrite !digit_compare, !N.mul_0_l, !N.add_0_l by done.
  by destruct (N.compare a x), (N.compare b y), (N.compare c z).
Qed.

(** ** Checksums *)

(** What [sha256sum] writes. *)
Definition checksums_text (entries : list (bytes * bytes)) : bytes :=
  text_of ((fun e => e.1 ++ lit "  " ++ e.2) <$> entries).

Definition checksums_entry (e : bytes * bytes) : Prop :=
  e.1 <> [] /\ e.2 <> [] /\ Forall (fun b => visible b = true) e.1 /\ Forall (fun b => visible b = true) e.2 /\
  to_ascii_lowercase e.1 = e.1 /\ starts_with (lit "#") e.1 = false /\ starts_with (lit "./") e.2 = false.

Lemma trim_visible l :
  l <> [] -> visible (default " "%char (head l)) = true -> visible (default " "%char (last l)) = true ->
  trim l = l.
Proof.
  intros Hl Hh Ht. unfold trim. destruct l as [|b l]; [done|]. rewrite trim_start_visible by done.
  destruct (b :: l) as [|b' l' _] using rev_ind; [done|]. rewrite last_snoc in Ht. by apply trim_end_visible.
Qed.

Lemma trim_space l :
  l <> [] -> visible (default " "%char (head l)) = true -> visible (default " "%char (last l)) = true ->
  trim (lit " " ++ l) = l.
Proof.
  intros Hl Hh Ht. by rewrite <- (trim_visible l) at 2.
Qed.

Lemma Forall_head_last (P : ascii -> Prop) l : l <> [] -> Forall P l ->
  P (default " "%char (head l)) /\ P (default " "%char (last l)).
Proof.
  intros Hl Hall. split; [destruct l; [done|]; by apply Forall_cons in Hall as [? _]|].
  destruct l as [|b l _] using rev_ind; [done|]. apply Forall_app in Hall as [_ H].
  rewrite last_snoc. by apply Forall_cons in H as [? _].
Qed.

Lemma split_once_white_visible before h l :
  Forall (fun b => visible b = true) h ->
  split_once_white before (h ++ " "%char :: l) = Some (before ++ h, l).
Proof.
  intros Hh. revert before. induction Hh as [|b h Hb _ IH]; intros before; cbn [app].
  - cbn [split_once_white]. change (" "%char :: l) with (lit " " ++ l). rewrite strip_white by vm_decided.
    by rewrite app_nil_r.
  - cbn [split_once_white]. rewrite (strip_one_visible _ _ _ white_space_heads Hb), IH.
    by rewrite <- app_assoc.
Qed.

Lemma visible_plain l : Forall (fun b => visible b = true) l -> newline ∉ l.
Proof. intros Hl Hn. rewrite Forall_forall in Hl. by specialize (Hl _ Hn). Qed.

Section entries.
Context (e : bytes * bytes) (He : checksums_entry e).

Lemma entry_line_last : last (e.1 ++ lit "  " ++ e.2) = last e.2.
Proof using He.
  destruct He as (_ & Hn & _). rewrite app_assoc, last_app.
  destruct (last e.2) eqn:E; [done|]. by apply last_None in E.
Qed.

Lemma entry_line_plain : plain_line (e.1 ++ lit "  " ++ e.2).
Proof using He.
  pose proof entry_line_last as Hlast. destruct He as (_ & Hn & H1 & H2 & _). split.
  - rewrite !not_elem_of_app. split_and!; [by apply visible_plain|vm_decided|by apply visible_plain].
  - apply strip_cr_last. rewrite Hlast. intros E.
    apply Forall_head_last in H2 as [_ H2]; [|done]. by rewrite E in H2.
Qed.

Lemma entry_line_read filename :
  checksum_line filename (e.1 ++ lit "  " ++ e.2) = if bytes_eqb e.2 filename then Some e.1 else None.
Proof using He.
  pose proof entry_line_last as Hlast. destruct He as (Hn1 & Hn & H1 & H2 & Hlow & Hc & Hd).
  pose proof (Forall_head_last _ _ Hn1 H1) as [Hh1 _]. pose proof (Forall_head_last _ _ Hn H2) as [Hh2 Hl2].
  unfold checksum_line. rewrite trim_visible; [| |by destruct (e.1)|by rewrite Hlast].
  2:{ by destruct (e.1). }
  assert (bytes_eqb (e.1 ++ lit "  " ++ e.2) [] || starts_with (lit "#") (e.1 ++ lit "  " ++ e.2) = false) as ->.
  { destruct (e.1) as [|b h]; [done|]. cbn in *. by rewrite andb_true_r in Hc |- *. }
  change (lit "  " ++ e.2) with (" "%char :: lit " " ++ e.2). rewrite split_once_white_visible by done.
  assert (trim (lit " " ++ e.2) = e.2) as ->.
  { by apply trim_space. }
  assert (GenericAgent.trim_start_matches (length e.2) (lit "./") e.2 = e.2) as ->.
  { destruct (length e.2); [done|]. cbn [GenericAgent.trim_start_matches]. unfold str_strip_prefix. by rewrite Hd. }
  by rewrite orb_diag, app_nil_l, Hlow.
Qed.
End entries.

(** Checksums are read back as they were written: of a list with one line for each
    file, as [sha256sum] writes it, the hash that is found for a file is its own. *)
Theorem checksums_read_back entries hash name :
  Forall checksums_entry entries -> NoDup entries.*2 -> (hash, lit name) ∈ entries ->
  parse_checksums (checksums_text entries) name = Some hash.
Proof.
  intros Hall Hnodup Hin. unfold parse_checksums, checksums_text. rewrite lines_text_of.
  2:{ apply Forall_fmap. eapply Forall_impl; [exact Hall|]. apply entry_line_plain. }
  induction Hall as [|e entries He _ IH]; [by apply elem_of_nil in Hin|].
  rewrite fmap_cons in Hnodup |- *. apply NoDup_cons in Hnodup as [Hne Hnodup]. cbn [omap list_omap].
  rewrite (entry_line_read e He). unfold bytes_eqb. apply elem_of_cons in Hin as [<-|Hin].
  - by rewrite bool_decide_eq_true_2.
  - rewrite bool_decide_eq_false_2; [by apply IH|]. intros E. apply Hne.
    rewrite E. apply list_elem_of_fmap. by exists (hash, lit name).
Qed.

(** ** What is replaced *)

Section update.
Context {T : TomlFloat} {serde : SerdeText}.
Context (env : string -> option string) (os arch : string).
Context (brew_formula_installed : string -> bool).
Context (run_version : string -> option (bool * bytes)).
Context (find_version : bytes -> option bytes).
Context (find_in_path : string -> option string).
Context (probed_release fetched_release : string -> string -> result GitHubRelease string).
Context (sha256 : bytes -> bytes) (download_asset : GitHubAsset -> result bytes string).
Context (extract_tarball : bytes -> string -> result (string -> option bytes) string).
Context (service_up : ServiceKind -> bool) (restart_service : ServiceKind -> result unit string).

(** A tarball of the release, for the target, whose digest is the one that the checksums of
    the release have for it, and the file is in it. *)
Definition verified (r : RepoUpdate) (target binary : string) (contents : bytes) : Prop :=
  exists release asset sums tarball checksums extracted,
    fetched_release (owner r) (repo r) = Ok release /\
    asset ∈ assets release /\ asset_name asset = (repo r ++ "-" ++ target ++ ".tar.gz")%string /\
    sums ∈ assets release /\ asset_name sums = "SHA256SUMS" /\
    download_asset asset = Ok tarball /\ download_asset sums = Ok checksums /\
    parse_checksums checksums (asset_name asset) = Some (sha256_hex sha256 tarball) /\
    extract_tarball tarball (asset_name asset) = Ok extracted /\ extracted binary = Some contents.

(** The primary binary is installed at an older version than that of the release GitHub names. *)
Definition outdated (r : RepoUpdate) : Prop :=
  brew_formula_installed (formula r) = false /\
  exists version release,
    installed_version run_version find_version (primary_binary r) = Some version /\
    probed_release (owner r) (repo r) = Ok release /\
    (rank version < rank (normalize_version (tag_name release)))%N.

Definition replaceable (target p : string) (contents : bytes) : Prop :=
  exists r binary, r ∈ repos_to_update /\ binary ∈ binaries r /\ find_in_path binary = Some p /\
    outdated r /\ verified r target binary contents.

Lemma download_verified release asset tarball :
  download_and_verify sha256 download_asset release asset = Ok tarball ->
  exists sums checksums, sums ∈ assets release /\ asset_name sums = "SHA256SUMS" /\
    download_asset asset = Ok tarball /\ download_asset sums = Ok checksums /\
    parse_checksums checksums (asset_name asset) = Some (sha256_hex sha256 tarball).
Proof.
  unfold download_and_verify. destruct (download_asset asset) as [bytes|]; [|done].
  destruct (List.find _ _) as [sums|] eqn:Es; [|done].
  apply find_some in Es as [Hin%list_elem_of_In Hname%String.eqb_eq].
  destruct (download_asset sums) as [checksums|] eqn:Ed; [|done]. destruct (negb _); [done|].
  destruct (parse_checksums checksums _) as [expected|] eqn:Ep; [|done].
  unfold bytes_eqb. destruct (bool_decide_reflect (sha256_hex sha256 bytes = expected)) as [<-|]; [|done].
  intros [= ->]. by exists sums, checksums.
Qed.

Lemma replace_changes (W : string -> bytes -> Prop) extracted names :
  (forall binary p contents, binary ∈ names -> find_in_path binary = Some p ->
     extracted binary = Some contents -> W p contents) ->
  changes W (replace_binaries find_in_path extracted names).
Proof.
  induction names as [|binary names IH]; intros HW; [by apply changes_unchanged|].
  assert (changes W (replace_binaries find_in_path extracted names)) as Hrest.
  { apply IH. intros b p contents Hb. apply HW. by right. }
  cbn [replace_binaries]. destruct (find_in_path binary) as [p|] eqn:Ef; [|done].
  destruct (extracted binary) as [contents|] eqn:Ee; [|done].
  apply changes_bind; [apply changes_managed, (HW binary); [by left|done|done]|]. intros replaced _ _ _.
  apply changes_bind; [done|]. intros others _ _ _. by apply changes_unchanged.
Qed.

Lemma install_changes r target :
  changes (fun p contents => exists binary, binary ∈ binaries r /\ find_in_path binary = Some p /\
      verified r target binary contents)
    (install_release find_in_path fetched_release sha256 download_asset extract_tarball service_up
       restart_service r target).
Proof.
  unfold install_release. apply changes_bind; [apply changes_lift|]. intros release d0 d0' [Hr _]%lift_Ok.
  destruct (List.find _ _) as [asset|] eqn:Ea; [|by apply changes_unchanged].
  apply find_some in Ea as [Hin%list_elem_of_In Hname%String.eqb_eq].
  apply changes_bind; [apply changes_lift|].
  intros tarball ? ? [(sums & checksums & Hs)%download_verified _]%lift_Ok.
  apply changes_bind; [apply changes_lift|]. intros extracted ? ? [He _]%lift_Ok.
  apply changes_bind.
  - apply replace_changes. intros binary p contents Hb Hp Hc. exists binary. split_and!; [done|done|].
    exists release, asset, sums, tarball, checksums, extracted. rewrite <- Hname in He. naive_solver.
  - intros replaced ? ? _. apply changes_bind; [|by intros; apply changes_unchanged].
    destruct (service r); [|by apply changes_unchanged].
    destruct (_ && _); [apply changes_lift|by apply changes_unchanged].
Qed.

Lemma negative_rank current latest :
  (0 <=? compare_versions current latest)%Z = false -> (rank current < rank latest)%N.
Proof.
  rewrite versions_compare_as_numbers. destruct (N.compare_spec (rank current) (rank latest)); done.
Qed.

Lemma apply_changes r mode target :
  r ∈ repos_to_update ->
  changes (fun p contents => mode <> Check /\ replaceable target p contents)
    (apply_or_report find_in_path fetched_release sha256 download_asset extract_tarball service_up
       restart_service r (probe_repo brew_formula_installed run_version find_version probed_release r) mode target).
Proof.
  intros Hr. unfold apply_or_report, probe_repo.
  destruct (brew_formula_installed (formula r)) eqn:Eb; [by apply changes_unchanged|].
  destruct (installed_version _ _ _) as [version|] eqn:Ev; [|by apply changes_unchanged].
  cbn [channel current latest]. destruct (_ || _); [by apply changes_unchanged|].
  destruct (probed_release (owner r) (repo r)) as [release|] eqn:Er; [|by apply changes_unchanged].
  destruct (0 <=? compare_versions _ _)%Z eqn:Ec; [by apply changes_unchanged|].
  destruct (bool_decide_reflect (mode = Check)); [by apply changes_unchanged|].
  eapply changes_weaken; [|apply install_changes]. intros p contents (binary & Hb & Hp & Hv).
  split; [done|]. exists r, binary. split_and!; try done. split; [done|].
  exists version, release. split_and!; [done|done|by apply negative_rank].
Qed.

Lemma apply_all_changes mode target rs :
  Forall (fun r => r ∈ repos_to_update) rs ->
  changes (fun p contents => mode <> Check /\ replaceable target p contents)
    (apply_all find_in_path fetched_release sha256 download_asset extract_tarball service_up restart_service
       mode target (zip rs (probe_repo brew_formula_installed run_version find_version probed_release <$> rs))).
Proof.
  induction 1 as [|r rs Hr _ IH]; [by apply changes_unchanged|]. cbn [zip_with fmap list_fmap apply_all].
  apply changes_bind; [by apply apply_changes|]. intros outcome _ _ _.
  apply changes_bind; [done|]. intros others _ _ _. by apply changes_unchanged.
Qed.

(** C30. An update replaces a file only by verified bytes, for a repository that is out of
    date.  Whatever GitHub, the downloads and the machine answer, and however the update
    ends: a file that it changed is the cache of its check, or it is found on the path under
    the name of a binary of a repository, kyris or agentpact, that Homebrew has not
    installed and whose primary binary ([kyris], [agentpactd]; the others are not asked)
    gave a version older than the newest release; it is now the file of that name in a
    tarball whose digest the checksums of the release name; and the update was asked to
    apply, not to check.  (The files are those of [files]: the install manifest, where a
    replacement is recorded, is kept beside them in [disk], and the log of the update is
    left out.) *)
Theorem only_verified_bytes_replace mode d r d' p :
  run_update env os arch brew_formula_installed run_version find_version find_in_path probed_release
    fetched_release sha256 download_asset extract_tarball service_up restart_service mode d = (r, d') ->
  files d' !! p <> files d !! p -> p <> cache_path env ->
  mode = Apply /\ exists target contents,
    release_target os arch = Ok target /\ files d' !! p = Some contents /\ replaceable target p contents.
Proof.
  intros Hrun Hne Hp. set (W := fun p contents => p = cache_path env \/ mode = Apply /\
    exists target, release_target os arch = Ok target /\ replaceable target p contents).
  assert (changes W (run_update env os arch brew_formula_installed run_version find_version find_in_path
    probed_release fetched_release sha256 download_asset extract_tarball service_up restart_service mode)) as Hc.
  { unfold run_update. apply changes_bind; [apply changes_lift|]. intros target ? ? [Ht _]%lift_Ok.
    apply changes_bind; [by apply changes_unchanged|]. intros t _ _ _.
    apply changes_bind; [|intros _ _ _ _].
    - intros e0 r0 e1 q [= <- <-]. cbn. destruct (decide (q = cache_path env)) as [->|Hq];
        [right; rewrite lookup_insert_eq; eexists; split; [done|by left]|left; by rewrite lookup_insert_ne].
    - destruct (bool_decide_reflect (mode = Background)); [by apply changes_unchanged|].
      apply changes_bind; [|by intros; apply changes_unchanged].
      eapply changes_weaken; [|apply apply_all_changes, Forall_forall; by intros].
      intros q contents [Hmode Hq]. right. split; [by destruct mode|eauto]. }
  destruct (Hc d r d' p Hrun) as [?|(contents & Hf & [?|(Hmode & target & Ht & Hr)])]; [done|done|]. eauto 6.
Qed.
End update.

(** ** Examples *)
Module Sample.

#[local] Existing Instance one_float.

(** A release candidate counts as the release, so whoever has one is told that it is up to
    date when the release comes. *)
Example candidate_counts_as_release : compare_versions "1.4.0-rc.1" "1.4.0" = 0%Z.
Proof. by vm_compute. Qed.

(** A part with build metadata does not parse and counts as 0, so such a version stays older
    than itself. *)
Example metadata_counts_as_zero : compare_versions "1.4.2+7" "1.4.2" = (-1)%Z.
Proof. by vm_compute. Qed.

Definition sums : list (bytes * bytes) :=
  [(lit "00ff", lit "agentpact-linux-x86_64.tar.gz"); (lit "54", lit "kyris-linux-x86_64.tar.gz")].

Lemma sums_written : Forall checksums_entry sums.
Proof. unfold checksums_entry. repeat constructor; try done; vm_decided. Qed.

Lemma checksums_read_back_witness :
  parse_checksums (checksums_text sums) "kyris-linux-x86_64.tar.gz" = Some (lit "54").
Proof.
  apply checksums_read_back.
  - exact sums_written.
  - vm_decided.
  - vm_decided.
Defined.

(** The hash of bytes is they, and a tarball "T" has one binary in it. *)
Definition sha256 (data : bytes) : bytes := data.

Definition release : GitHubRelease :=
  mkRelease "v1.3.0" [mkAsset "kyris-linux-x86_64.tar.gz" "1"; mkAsset "SHA256SUMS" "2"].

Definition newest (owner repo : string) : result GitHubRelease string :=
  if String.eqb repo "kyris" then Ok release else Err "no such repository".

Definition download_asset (a : GitHubAsset) : result bytes string :=
  Ok (if String.eqb (browser_download_url a) "1" then lit "T" else checksums_text sums).

Definition extract_tarball (tarball : bytes) (label : string) : result (string -> option bytes) string :=
  Ok (fun binary => if String.eqb binary "kyris" then Some (lit "new") else None).

Definition run_version (binary : string) : option (bool * bytes) := Some (true, lit "1.2.9").

Definition find_in_path (binary : string) : option string := Some ("/usr/local/bin/" ++ binary)%string.

Definition env (v : string) : option string := Some "/home/u".

Definition before : disk := mkDisk {[ "/usr/local/bin/kyris" := lit "old" ]} None "2026-01-01T00:00:00Z".

Definition serde : SerdeText := {|
  from_str b := Err "unread"; to_string_pretty v := []; toml_from_str b := Err "unread";
  toml_to_string_pretty v := Err "unwritten"; debug a := "" |}.

Definition updated : result (nat * nat) string * disk :=
  run_update (serde := serde) env "linux" "x86_64" (fun _ => false) run_version Some find_in_path newest newest
    sha256 download_asset extract_tarball (fun _ => true) (fun _ => Ok tt) Apply before.

Lemma only_verified_bytes_replace_witness :
  updated.1 = Ok (1, 1) /\ Apply = Apply /\ exists target contents,
    release_target "linux" "x86_64" = Ok target /\
    files updated.2 !! "/usr/local/bin/kyris" = Some contents /\
    replaceable (fun _ => false) run_version Some find_in_path newest newest sha256 download_asset
      extract_tarball target "/usr/local/bin/kyris" contents.
Proof.
  split; [vm_compute; reflexivity|].
  apply (only_verified_bytes_replace (serde := serde) env "linux" "x86_64" (fun _ => false) run_version Some
    find_in_path newest newest sha256 download_asset extract_tarball (fun _ => true) (fun _ => Ok tt)
    Apply before updated.1 updated.2 "/usr/local/bin/kyris").
  - vm_compute; reflexivity.
  - vm_compute; discriminate.
  - vm_compute; discriminate.
Defined.
End Sample.
End Update.
