(* ===== verification/Enroll.v ===== *)
(** * Enrolment

    [cli/src/lifecycle/enroll.rs] and [core/src/enrollment.rs]: [kyris enroll] obtains a token
    of the user from GitHub by its device flow, trades it at the relay for the identity of the
    machine, and writes that down.

    GitHub, the relay, the terminal and the services are arguments; a response is its status
    and its body.  What is printed is left out.  Of the configuration only the sections in use
    are looked at, which [McpConfigure] keeps as YAML. *)

From S2P Require Import Prelude Text Json Toml JsonEdit Manifest Commands Adapter McpConfigure Paths Launch.

Module Enroll.
Import JsonEdit Manifest Commands.
Local Open Scope string_scope.
Local Open Scope list_scope.

(** ** Data *)

Record EnrollArgs := mkArgs { force : bool; arg_relay_url : option string }.

Record DeviceCodeResponse := mkDevice {
  device_code : string; user_code : string; verification_uri : string; expires_in : N; interval : N }.

Record AccessTokenResponse := mkToken { access_token : option string; error : option string }.

Record EnrollmentRequest := mkRequest {
  request_hostname : string; request_os : string; request_arch : string;
  kyris_version : string; agentpact_version : string }.

Record Credentials := mkCredentials { machine_id : string; machine_token : string }.

(** What the derived [Deserialize] makes of a value. *)
Definition string_field (k : string) (v : json) : option string :=
  match obj_get k (as_json_object v) with Some (JString s) => Some s | _ => None end.

Definition u64_field (k : string) (v : json) : option N :=
  match obj_get k (as_json_object v) with
  | Some (JNumber n) => if bool_decide (0 <= n <= u64_max)%Z then Some (Z.to_N n) else None
  | _ => None
  end.

Definition option_field (k : string) (v : json) : option (option string) :=
  match obj_get k (as_json_object v) with
  | None | Some JNull => Some None
  | Some (JString s) => Some (Some s)
  | Some _ => None
  end.

Definition device_code_response (v : json) : option DeviceCodeResponse :=
  d ← string_field "device_code" v; u ← string_field "user_code" v; uri ← string_field "verification_uri" v;
  e ← u64_field "expires_in" v; i ← u64_field "interval" v; Some (mkDevice d u uri e i).

Definition access_token_response (v : json) : option AccessTokenResponse :=
  match v with
  | JObject _ => t ← option_field "access_token" v; e ← option_field "error" v; Some (mkToken t e)
  | _ => None
  end.

Definition device_flow_error (v : json) : option (string * option string) :=
  e ← string_field "error" v; d ← option_field "error_description" v; Some (e, d).

Definition credentials_of_json (v : json) : option Credentials :=
  i ← string_field "machine_id" v; t ← string_field "machine_token" v; Some (mkCredentials i t).

Definition credentials_json (c : Credentials) : json :=
  JObject [("machine_id", JString (machine_id c)); ("machine_token", JString (machine_token c))].

(** ** Where to enrol *)

Definition non_empty (s : string) : option string :=
  let trimmed := str_trim s in if String.eqb trimmed "" then None else Some trimmed.

Fixpoint drop_slashes (l : bytes) : bytes :=
  match l with b :: l' => if Ascii.eqb b "/" then drop_slashes l' else l | [] => [] end.

Definition trim_end_slashes (s : string) : string := of_bytes (rev (drop_slashes (rev (lit s)))).

(** The first of the sources that has a value. *)
Definition or_else {A} (x y : option A) : option A := match x with Some _ => x | None => y end.

Definition resolve_relay_url (env : string -> option string) (args : EnrollArgs) (config_relay_url : string)
    : result string string :=
  let relay_url := trim_end_slashes (default ""
    (or_else (arg_relay_url args ≫= non_empty)
       (or_else (env "KYRIS_RELAY_URL" ≫= non_empty) (non_empty config_relay_url)))) in
  if String.eqb relay_url "" then
    Err "Cannot enroll without a relay URL. Set `relay.url` in kyrisd.yaml, pass `--relay-url`, or set `KYRIS_RELAY_URL`."
  else Ok relay_url.

Definition resolve_github_client_id (env : string -> option string) (config_client_id : string)
    : result string string :=
  match or_else (env "GITHUB_CLIENT_ID" ≫= non_empty) (non_empty config_client_id) with
  | Some id => Ok id
  | None => Err "Cannot enroll without a GitHub client id. Set `github.client_id` in kyrisd.yaml or the GITHUB_CLIENT_ID env var."
  end.

Definition env_flag (env : string -> option string) (name : string) : bool :=
  match env name with
  | Some value =>
      bool_decide (to_ascii_lowercase (trim (lit value)) ∈ [lit "1"; lit "true"; lit "yes"; lit "on"])
  | None => false
  end.

Definition verify_force_rotation (existing : option Credentials) (enrollment : Credentials) (force : bool)
    : result unit string :=
  if negb force then Ok tt
  else match existing with
       | None => Ok tt
       | Some existing =>
           if negb (String.eqb (machine_id enrollment) (machine_id existing)) then
             Err ("Force enrollment changed machine_id from " ++ machine_id existing ++ " to "
                  ++ machine_id enrollment ++ ". Expected rotation on the existing machine record.")%string
           else if String.eqb (machine_token enrollment) (machine_token existing) then
             Err "Force enrollment did not rotate the machine token. Expected a new machine_token."
           else Ok tt
       end.

(** The output of a command, if it has any. *)
Definition output_or (fallback : string) (output : option bytes) : string :=
  match output with
  | Some out =>
      if valid_utf8 out then match trim out with [] => fallback | l => of_bytes l end else fallback
  | None => fallback
  end.

Definition hostname (env : string -> option string) (output : option bytes) : string :=
  match env "HOSTNAME" with
  | Some value => if String.eqb (str_trim value) "" then output_or "unknown-host" output else value
  | None => output_or "unknown-host" output
  end.

Definition component_version (output : option bytes) : string := output_or "not-found" output.

(** What commands print: [hostname], and [agentpactd --version]. *)
Definition machine_metadata (env : string -> option string) (os arch version : string)
    (hostname_output agentpactd_output : option bytes) : EnrollmentRequest :=
  mkRequest (hostname env hostname_output) os arch version (component_version agentpactd_output).

(** The new directories, where some were entered.  [input] is what the terminal gave. *)
Definition prompt_sync_scope (is_terminal : bool) (input : result string string)
    : result (option (list string)) string :=
  if negb is_terminal then Ok None
  else match input with
       | Err e => Err ("Failed to read sync scope: " ++ e)%string
       | Ok input =>
           match trim (lit input) with
           | [] => Ok None
           | trimmed =>
               Ok (Some (of_bytes <$> List.filter (fun v => negb (bytes_eqb v []))
                           (trim <$> Adapter.split_on "," trimmed)))
           end
       end.

(** ** The device flow *)

Section requests.
Context {T : TomlFloat} {serde : SerdeText}.
(** What the crates say of a status, a value of another shape, and a body. *)
Context (status_error : Z -> string) (shape_error : json -> string) (shown : Z -> bytes -> string).

(** [error_for_status] and [json]. *)
Definition decoded {A} (request_failed parse_failed : string) (decode : json -> option A)
    (response : Z * bytes) : result A string :=
  let '(status, body) := response in
  if bool_decide (400 <= status < 600)%Z then Err (request_failed ++ status_error status)%string
  else match from_str body with
       | Err e => Err (parse_failed ++ e)%string
       | Ok v => match decode v with Some a => Ok a | None => Err (parse_failed ++ shape_error v)%string end
       end.

Definition request_device_code (response : result (Z * bytes) string) : result DeviceCodeResponse string :=
  match response with
  | Err e => Err ("Failed to request GitHub device code: " ++ e)%string
  | Ok (status, body) =>
      match match from_str body with Ok v => device_flow_error v | Err _ => None end with
      | Some (error, description) =>
          Err ("GitHub device code request failed: " ++ default error description ++ " (" ++ error ++ ")")%string
      | None =>
          if negb (Adapter.is_success status) then
            Err ("GitHub device code request failed: HTTP " ++ shown status body)%string
          else match from_str body with
               | Err e => Err ("Failed to parse GitHub device code response: " ++ e)%string
               | Ok v => match device_code_response v with
                         | Some d => Ok d
                         | None => Err ("Failed to parse GitHub device code response: " ++ shape_error v)%string
                         end
               end
      end
  end.

Definition request_access_token (response : result (Z * bytes) string) : result AccessTokenResponse string :=
  match response with
  | Err e => Err ("Failed to poll GitHub access token: " ++ e)%string
  | Ok response =>
      decoded "GitHub access token request failed: " "Failed to parse GitHub access token response: "
        access_token_response response
  end.

Definition enroll_with_relay (response : result (Z * bytes) string) : result Credentials string :=
  match response with
  | Err e => Err ("Failed to enroll with the Kyris relay: " ++ e)%string
  | Ok response =>
      decoded "Kyris relay enrollment failed: " "Failed to parse Kyris relay enrollment response: "
        credentials_of_json response
  end.
End requests.

Definition wrap_u64 (n : N) : N := (n mod 2 ^ 64)%N.

Section polling.
(** What the n-th request gives, if it ever gives anything (the client has no timeout), and
    the milliseconds that it and the sleep after it take beyond those slept. *)
Context (expires_in : N) (reply : nat -> option (result AccessTokenResponse string)) (took : nat -> Z).

(** What a reply without a token means: an interval to go on with, or an error. *)
Definition next_interval (e : option string) (interval : N) : result N string :=
  match e with
  | None => Err "GitHub device flow returned an empty token response."
  | Some e =>
      if String.eqb e "authorization_pending" then Ok interval
      else if String.eqb e "slow_down" then Ok (wrap_u64 (interval + 5))
      else if String.eqb e "access_denied" then Err "GitHub authorization was denied."
      else if String.eqb e "expired_token" then Err "GitHub device code expired."
      else Err ("GitHub device flow failed: " ++ e)%string
  end.

(** How it ends, or that it waits for the reply to its last request for ever. *)
Inductive Polled := Ended (r : result string string) | Waiting.

(** The outcome, with when the requests were made; [None] when the fuel is out. *)
Fixpoint poll_loop (fuel n : nat) (elapsed : Z) (interval : N) : option (Polled * list Z) :=
  match fuel with
  | O => None
  | S fuel =>
      if (Z.of_N expires_in <=? elapsed / 1000)%Z then
        Some (Ended (Err "GitHub device code expired before authorization completed."), [])
      else
        match reply n with
        | None => Some (Waiting, [elapsed])
        | Some (Err e) => Some (Ended (Err e), [elapsed])
        | Some (Ok response) =>
            match access_token response with
            | Some token => Some (Ended (Ok token), [elapsed])
            | None =>
                match next_interval (error response) interval with
                | Err e => Some (Ended (Err e), [elapsed])
                | Ok interval =>
                    '(r, times) ← poll_loop fuel (S n) (elapsed + took n + 1000 * Z.of_N interval) interval;
                    Some (r, elapsed :: times)
                end
            end
        end
  end.

(** Every turn sleeps a second at least, so there are no more turns than seconds. *)
Definition poll_access_token (interval : N) : option (Polled * list Z) :=
  poll_loop (S (N.to_nat expires_in)) 0 0 (N.max 1 interval).
End polling.

(** Twenty looks, a quarter of a second apart. *)
Fixpoint healthy_within (looks n : nat) (health : nat -> bool) : bool :=
  match looks with
  | O => false
  | S looks => health n || healthy_within looks (S n) health
  end.

Definition wait_for_kyrisd_health (base_url : string) (health : nat -> bool) : result unit string :=
  if healthy_within 20 0 health then Ok tt
  else Err ("kyrisd is not healthy after enrollment restart at " ++ base_url ++ "/healthz")%string.

(** ** The command *)

Section enroll.
Context {T : TomlFloat} {serde : SerdeText} {store : McpConfigure.ConfigStore}.
Context (env : string -> option string).
Context (status_error : Z -> string) (shape_error : json -> string) (shown : Z -> bytes -> string).
(** [relay.url], [github.client_id] and [sync.scope] in the sections of a configuration. *)
Context (config_relay_url config_client_id : McpConfigure.KyrisdConfig -> string).
Context (with_scope : list string -> McpConfigure.KyrisdConfig -> McpConfigure.KyrisdConfig).
Context (post_device_code : string -> result (Z * bytes) string).
Context (post_access_token : string -> string -> nat -> result (Z * bytes) string) (took : nat -> Z).
Context (post_enroll : string -> string -> EnrollmentRequest -> result (Z * bytes) string).
Context (metadata : EnrollmentRequest).
Context (is_terminal : bool) (input : result string string).
Context (kyrisd_up : bool) (restart_kyrisd : result unit string) (health : nat -> bool).

Definition credentials_file : string := Paths.credentials_path env.

(** [core/src/enrollment.rs]. *)
Definition load_path : string := default credentials_file (env "KYRIS_CREDENTIALS_PATH").

Definition load_from (contents : option bytes) : option Credentials :=
  contents ← contents;
  v ← (if valid_utf8 contents then ok (from_str contents) else None);
  c ← credentials_of_json v;
  if String.eqb (str_trim (machine_id c)) "" || String.eqb (str_trim (machine_token c)) "" then None else Some c.

Definition load (d : disk) : option Credentials := load_from (files d !! load_path).

(** [JsonShapeValidator<Credentials>]. *)
Definition credentials_validator (contents : bytes) : result unit string :=
  match from_str contents with
  | Err e => Err e
  | Ok v => match credentials_of_json v with Some _ => Ok tt | None => Err (shape_error v) end
  end.

Definition write_credentials (c : Credentials) : cmd unit :=
  write_managed_file credentials_file (to_string_pretty (credentials_json c)) "credentials" credentials_validator;;
  mret tt.

(** Here every request returns, so that there is always an outcome ([polling_obeys]). *)
Definition poll (device : DeviceCodeResponse) (client_id : string) : result string string :=
  match poll_access_token (expires_in device)
          (fun n => Some (request_access_token status_error shape_error
                            (post_access_token client_id (device_code device) n)))
          took (interval device) with
  | Some (Ended r, _) => r
  | _ => Err ""
  end.

Definition obtain (existing : option Credentials) (args : EnrollArgs) (config : McpConfigure.KyrisdConfig)
    : result Credentials string :=
  match resolve_relay_url env args (config_relay_url config) with
  | Err e => Err e
  | Ok relay_url =>
      match resolve_github_client_id env (config_client_id config) with
      | Err e => Err e
      | Ok client_id =>
          match request_device_code shape_error shown (post_device_code client_id) with
          | Err e => Err e
          | Ok device =>
              match poll device client_id with
              | Err e => Err e
              | Ok token =>
                  match enroll_with_relay status_error shape_error (post_enroll relay_url token metadata) with
                  | Err e => Err e
                  | Ok enrollment =>
                      match verify_force_rotation existing enrollment (force args) with
                      | Err e => Err e
                      | Ok _ => Ok enrollment
                      end
                  end
              end
          end
      end
  end.

Definition enroll (args : EnrollArgs) : cmd unit :=
  config ← McpConfigure.load_or_init_config;
  existing ← (fun d => (Ok (load d), d));
  credentials ← lift "" (obtain existing args config);
  write_credentials credentials;;
  scope ← lift "" (prompt_sync_scope is_terminal input);
  let config := match scope with Some scope => with_scope scope config | None => config end in
  (match scope with Some _ => McpConfigure.save_config config | None => mret tt end);;
  if kyrisd_up then
    lift "" restart_kyrisd;;
    lift "" (wait_for_kyrisd_health (McpConfigure.base_url config) health)
  else mret tt.
End enroll.

(** ** Polling *)

Section polled.
Context (expires_in : N) (reply : nat -> option (result AccessTokenResponse string)) (took : nat -> Z).

(** How many of the replies from the n-th on, [m] of them, asked to slow down. *)
Definition asks_slow (r : option (result AccessTokenResponse string)) : bool :=
  match r with
  | Some (Ok (mkToken None (Some e))) => String.eqb e "slow_down"
  | _ => false
  end.

Fixpoint slow_downs (n m : nat) : N :=
  match m with
  | O => 0
  | S m => ((if asks_slow (reply n) then 1 else 0) + slow_downs (S n) m)%N
  end.

Definition spaced (n : nat) (interval : N) (times : list Z) : Prop :=
  forall k a b, times !! k = Some a -> times !! S k = Some b ->
    (a + 1000 * Z.of_N (interval + 5 * slow_downs n (S k)) <= b)%Z.

Lemma next_interval_Ok e interval i :
  next_interval e interval = Ok i ->
  i = if asks_slow (Some (Ok (mkToken None e))) then wrap_u64 (interval + 5) else interval.
Proof.
  unfold next_interval. destruct e as [e|]; [|done]. cbn [asks_slow].
  destruct (String.eqb_spec e "authorization_pending") as [->|]; [by intros [= <-]|].
  destruct (String.eqb e "slow_down"); [by intros [= <-]|].
  by destruct (String.eqb e "access_denied"), (String.eqb e "expired_token").
Qed.

(** What the last request, the one after [k] others, gave: a token that comes out, or nothing
    at all where the loop still waits. *)
Definition last_reply (n : nat) (r : Polled) (times : list Z) : Prop :=
  (forall token, r = Ended (Ok token) ->
     exists k e, length times = S k /\ reply (n + k) = Some (Ok (mkToken (Some token) e))) /\
  (r = Waiting -> exists k, length times = S k /\ reply (n + k) = None).

Definition poll_spec (n : nat) (elapsed : Z) (interval : N) (r : Polled) (times : list Z) : Prop :=
  spaced n interval times /\
  Forall (fun t => elapsed <= t /\ t / 1000 < Z.of_N expires_in)%Z times /\
  (forall t, head times = Some t -> t = elapsed) /\
  last_reply n r times.

Lemma poll_spec_stop n elapsed interval r :
  (elapsed / 1000 < Z.of_N expires_in)%Z ->
  (forall token, r = Ended (Ok token) -> exists e, reply n = Some (Ok (mkToken (Some token) e))) ->
  (r = Waiting -> reply n = None) ->
  poll_spec n elapsed interval r [elapsed].
Proof.
  intros He Hr Hs. split_and!.
  - by intros k a b _.
  - apply List.Forall_cons; [split; [lia|done]|constructor].
  - by intros t [= ->].
  - split; [intros token [e Hk]%Hr; exists 0, e|intros Hk%Hs; exists 0]; by rewrite Nat.add_0_r.
Qed.

Lemma polling fuel n elapsed interval :
  (forall n, 0 <= took n)%Z -> (1 <= interval)%N -> (interval + 5 * N.of_nat fuel < 2 ^ 64)%N ->
  0 < fuel -> (Z.of_N expires_in < Z.of_nat fuel + elapsed / 1000)%Z ->
  exists r times, poll_loop expires_in reply took fuel n elapsed interval = Some (r, times) /\
    poll_spec n elapsed interval r times.
Proof.
  intros Htook. revert n elapsed interval. induction fuel as [|fuel IH]; intros n elapsed interval Hi Hw Hpos Hf; [lia|].
  cbn [poll_loop]. destruct (Z.leb_spec (Z.of_N expires_in) (elapsed / 1000)) as [He|He].
  { eexists _, _. split; [done|]. unfold last_reply. by split_and!. }
  destruct (reply n) as [[[token e]|e]|] eqn:Er.
  2,3: (eexists _, _; split; [done|]; by apply poll_spec_stop).
  cbn [access_token error]. destruct token as [token|].
  { eexists _, _. split; [done|]. apply poll_spec_stop; [done| |done]. intros t [= ->]. eauto. }
  destruct (next_interval e interval) as [i|] eqn:En.
  2:{ eexists _, _. split; [done|]. by apply poll_spec_stop. }
  apply next_interval_Ok in En. set (slow := if asks_slow (reply n) then 1%N else 0%N).
  assert (i = interval + 5 * slow)%N as Hii.
  { unfold slow. rewrite Er, En. destruct (asks_slow _); [|lia]. unfold wrap_u64. rewrite N.mod_small; lia. }
  set (later := (elapsed + took n + 1000 * Z.of_N i)%Z).
  assert (elapsed / 1000 + 1 <= later / 1000)%Z as Hlater.
  { rewrite <- Z.div_add by done. apply Z.div_le_mono; [done|]. unfold later. specialize (Htook n).
    unfold slow in Hii. lia. }
  destruct (IH (S n) later i) as (r & times & -> & Hspaced & Hall & Hhead & Htoken & Hsilent);
    [unfold slow in Hii; lia|unfold slow in Hii; destruct (asks_slow (reply n)); lia|lia|lia|].
  exists r, (elapsed :: times). split; [done|]. split_and!.
  - intros [|k] a b.
    + intros [= <-] Hb. change (times !! 0 = Some b) in Hb. rewrite <- head_lookup in Hb. apply Hhead in Hb as ->.
      change (slow_downs n 1) with (slow + 0)%N. rewrite N.add_0_r, <- Hii. specialize (Htook n). unfold later. lia.
    + intros Ha Hb. specialize (Hspaced k a b Ha Hb).
      change (slow_downs n (S (S k))) with (slow + slow_downs (S n) (S k))%N. lia.
  - apply List.Forall_cons; [split; [lia|done]|]. eapply Forall_impl; [exact Hall|]. cbn. intros t [Ht ?].
    split; [|done]. specialize (Htook n). unfold later in Ht. lia.
  - by intros t [= ->].
  - split; [intros token (k & e' & Hlen & Hk)%Htoken; exists (S k), e'|
            intros (k & Hlen & Hk)%Hsilent; exists (S k)];
      (split; [cbn; by rewrite Hlen|by rewrite Nat.add_succ_r]).
Qed.
End polled.

(** C31. Polling ends, in time and at the pace that was asked for.  Whatever GitHub replies
    and however long its replies take, the loop that waits for the user ends, unless a
    request is never answered, on which it then waits for ever, the client having no timeout;
    the fuel of [poll_access_token] is enough.  No request is made after the code has
    expired; two requests in a row are at least the interval apart that GitHub named, a
    second at least even where it named none, and five seconds more for each reply so far
    that asked to slow down; and a token that comes out is that of the last reply.  The
    interval may grow by five seconds at every turn without reaching [2 ^ 64], past which it
    would wrap around. *)
Theorem polling_obeys expires_in interval reply took :
  (forall n, 0 <= took n)%Z -> (interval + 5 * (expires_in + 1) + 1 < 2 ^ 64)%N ->
  exists r times,
    poll_access_token expires_in reply took interval = Some (r, times) /\
    spaced reply 0 (N.max 1 interval) times /\
    Forall (fun t => 0 <= t /\ t / 1000 < Z.of_N expires_in)%Z times /\
    (forall token, r = Ended (Ok token) ->
       exists k e, length times = S k /\ reply k = Some (Ok (mkToken (Some token) e))) /\
    (r = Waiting -> exists k, length times = S k /\ reply k = None).
Proof.
  intros Htook Hw. unfold poll_access_token.
  destruct (polling expires_in reply took (S (N.to_nat expires_in)) 0 0 (N.max 1 interval))
    as (r & times & Hp & Hspaced & Hall & _ & Htoken & Hsilent); [done|lia|lia|lia|change (0 / 1000)%Z with 0%Z; lia|].
  exists r, times. by split_and!.
Qed.

(** ** The relay and the credentials *)

(** The relay that the command line names, or else the environment, or else the configuration. *)
Definition relay_named (env : string -> option string) (args : EnrollArgs) (config url : string) : Prop :=
  url <> "" /\ exists s, or_else (arg_relay_url args ≫= non_empty)
    (or_else (env "KYRIS_RELAY_URL" ≫= non_empty) (non_empty config)) = Some s /\ url = trim_end_slashes s.

Lemma relay_url_resolved env args config url :
  resolve_relay_url env args config = Ok url -> relay_named env args config url.
Proof.
  unfold resolve_relay_url, relay_named. set (source := or_else _ _).
  destruct (String.eqb_spec (trim_end_slashes (default "" source)) "") as [|Hne]; [done|].
  intros [= <-]. split; [done|]. destruct source as [s|]; [by exists s|]. by destruct Hne.
Qed.

Section written.
Context {T : TomlFloat} {serde : SerdeText} {store : McpConfigure.ConfigStore}.
Context (env : string -> option string).
Context (status_error : Z -> string) (shape_error : json -> string) (shown : Z -> bytes -> string).
Context (config_relay_url config_client_id : McpConfigure.KyrisdConfig -> string).
Context (with_scope : list string -> McpConfigure.KyrisdConfig -> McpConfigure.KyrisdConfig).
Context (post_device_code : string -> result (Z * bytes) string).
Context (post_access_token : string -> string -> nat -> result (Z * bytes) string) (took : nat -> Z).
Context (post_enroll : string -> string -> EnrollmentRequest -> result (Z * bytes) string).
Context (metadata : EnrollmentRequest).
Context (is_terminal : bool) (input : result string string).
Context (kyrisd_up : bool) (restart_kyrisd : result unit string) (health : nat -> bool).

(** The relay that was named answered a token that GitHub gave for this device with these
    credentials. *)
Definition issued (config : McpConfigure.KyrisdConfig) (args : EnrollArgs) (c : Credentials) : Prop :=
  exists relay_url client_id device n token e status body v,
    relay_named env args (config_relay_url config) relay_url /\
    resolve_github_client_id env (config_client_id config) = Ok client_id /\
    request_device_code shape_error shown (post_device_code client_id) = Ok device /\
    request_access_token status_error shape_error (post_access_token client_id (device_code device) n)
      = Ok (mkToken (Some token) e) /\
    post_enroll relay_url token metadata = Ok (status, body) /\ ~ (400 <= status < 600)%Z /\
    from_str body = Ok v /\ credentials_of_json v = Some c.

(** Credentials of the machine that had others. *)
Definition rotated (old c : Credentials) : Prop :=
  machine_id c = machine_id old /\ machine_token c <> machine_token old.

Lemma forced_rotation existing c f :
  verify_force_rotation existing c f = Ok tt -> f = true -> forall old, existing = Some old -> rotated old c.
Proof.
  intros Hv -> old ->. unfold verify_force_rotation in Hv. cbn [negb] in Hv.
  destruct (String.eqb_spec (machine_id c) (machine_id old)) as [Hid|]; [|done]. cbn [negb] in Hv.
  by destruct (String.eqb_spec (machine_token c) (machine_token old)).
Qed.

Lemma decoded_Ok {A} e1 e2 (decode : json -> option A) status body a :
  decoded status_error shape_error e1 e2 decode (status, body) = Ok a ->
  ~ (400 <= status < 600)%Z /\ exists v, from_str body = Ok v /\ decode v = Some a.
Proof.
  unfold decoded. destruct (bool_decide_reflect (400 <= status < 600)%Z); [done|].
  destruct (from_str body) as [v|]; [|done]. destruct (decode v) eqn:Ed; [|done].
  intros [= ->]. eauto.
Qed.

Lemma poll_token device client_id token :
  poll status_error shape_error post_access_token took device client_id = Ok token ->
  exists n e, request_access_token status_error shape_error (post_access_token client_id (device_code device) n)
    = Ok (mkToken (Some token) e).
Proof.
  unfold poll, poll_access_token.
  generalize (S (N.to_nat (expires_in device))) 0 0%Z (N.max 1 (interval device)).
  induction n as [|fuel IH]; intros n elapsed i; cbn [poll_loop]; [done|].
  destruct (_ <=? _)%Z; [done|].
  destruct (request_access_token _ _ _) as [[[t|] e]|] eqn:Er; [|cbn [access_token error]|done].
  - intros [= ->]. eauto.
  - destruct (next_interval e i) as [i'|]; [|done].
    specialize (IH (S n) (elapsed + took n + 1000 * Z.of_N i')%Z i').
    destruct (poll_loop _ _ _ fuel _ _ _) as [[r times]|]; [|done]. exact IH.
Qed.

Lemma obtain_issued existing args config c :
  obtain env status_error shape_error shown config_relay_url config_client_id post_device_code
    post_access_token took post_enroll metadata existing args config = Ok c ->
  issued config args c /\ verify_force_rotation existing c (force args) = Ok tt.
Proof.
  unfold obtain. destruct (resolve_relay_url _ _ _) as [url|] eqn:Eu; [|done].
  apply relay_url_resolved in Eu.
  destruct (resolve_github_client_id _ _) as [client|] eqn:Eg; [|done].
  destruct (request_device_code _ _ _) as [device|] eqn:Ed; [|done].
  destruct (poll _ _ _ _ _ _) as [token|] eqn:Ep; [|done]. apply poll_token in Ep as (n & e & Ep).
  destruct (post_enroll url token metadata) as [[status body]|] eqn:Er; [|done]. cbn [enroll_with_relay].
  destruct (decoded _ _ _ _ _ _) as [c'|] eqn:Ec; [|done]. apply decoded_Ok in Ec as (Hs & v & Hv & Hc).
  destruct (verify_force_rotation _ _ _) as [[]|] eqn:Ef; [|done]. intros [= ->].
  split; [|done]. exists url, client, device, n, token, e, status, body, v. by split_and!.
Qed.

Lemma changes_save_config (W : string -> bytes -> Prop) config :
  (forall p contents, McpConfigure.config_path = Ok p -> W p contents) ->
  changes W (McpConfigure.save_config config).
Proof.
  intros HW. unfold McpConfigure.save_config. apply changes_bind; [apply changes_lift|].
  intros p ? ? [Hp _]%lift_Ok. apply changes_bind; [apply changes_lift|]. intros contents _ _ _.
  apply changes_bind; [by apply changes_managed, HW|]. by intros; apply changes_unchanged.
Qed.

Lemma changes_load_config (W : string -> bytes -> Prop) :
  (forall p contents, McpConfigure.config_path = Ok p -> W p contents) ->
  changes W McpConfigure.load_or_init_config.
Proof.
  intros HW. unfold McpConfigure.load_or_init_config, McpConfigure.load_config.
  apply changes_bind; [apply changes_lift|]. intros p _ _ _.
  apply changes_bind; [by apply changes_unchanged|]. intros existing _ _ _. apply changes_bind.
  - destruct existing.
    + apply changes_bind; [apply changes_lift|]. intros q _ _ _.
      apply changes_bind; [by apply changes_unchanged|]. intros [] _ _ _; [apply changes_lift|by apply changes_unchanged].
    + apply changes_bind; [apply changes_lift|]. intros config _ _ _.
      apply changes_bind; [by apply changes_save_config|]. by intros; apply changes_unchanged.
  - intros config _ _ _. apply changes_bind; [apply changes_lift|]. intros i _ _ _.
    apply changes_bind; [apply changes_lift|]. by intros; apply changes_unchanged.
Qed.

(** What follows the reading of the configuration and of the credentials. *)
Lemma enroll_writes existing config args :
  changes (fun p contents => McpConfigure.config_path = Ok p \/
      p = credentials_file env /\ exists c, contents = to_string_pretty (credentials_json c) /\
        issued config args c /\ (force args = true -> forall old, existing = Some old -> rotated old c))
    (credentials ← lift "" (obtain env status_error shape_error shown config_relay_url config_client_id
       post_device_code post_access_token took post_enroll metadata existing args config);
     write_credentials env shape_error credentials;;
     scope ← lift "" (prompt_sync_scope is_terminal input);
     let config := match scope with Some scope => with_scope scope config | None => config end in
     (match scope with Some _ => McpConfigure.save_config config | None => mret tt end);;
     if kyrisd_up then
       lift "" restart_kyrisd;;
       lift "" (wait_for_kyrisd_health (McpConfigure.base_url config) health)
     else mret tt).
Proof.
  apply changes_bind; [apply changes_lift|]. intros c ? ? [[Hc Hv]%obtain_issued _]%lift_Ok.
  apply changes_bind; [|intros _ _ _ _].
  { unfold write_credentials. apply changes_bind; [|by intros; apply changes_unchanged].
    apply changes_managed. right. split; [done|]. exists c. split_and!; [done|done|]. by apply forced_rotation. }
  apply changes_bind; [apply changes_lift|]. intros scope _ _ _. apply changes_bind; [|intros _ _ _ _].
  - destruct scope; [by apply changes_save_config; left|by apply changes_unchanged].
  - destruct kyrisd_up; [|by apply changes_unchanged].
    apply changes_bind; [apply changes_lift|]. intros; apply changes_lift.
Qed.

(** C32. Enrolling writes down what the relay issued and nothing else.  Whatever GitHub, the
    relay and the terminal answer, and however the command ends, a file that it changed is
    the configuration, or the credentials, which then are those the relay gave for a token
    that GitHub gave for the device code shown to the user; with [--force], and a file of
    credentials that could be loaded when the command began, they are of the same machine as
    those and have another token.  (The configuration is not the file that credentials are
    loaded from.) *)
Theorem credentials_from_relay args d r d' p :
  enroll env status_error shape_error shown config_relay_url config_client_id with_scope post_device_code
    post_access_token took post_enroll metadata is_terminal input kyrisd_up restart_kyrisd health
    args d = (r, d') ->
  files d' !! p <> files d !! p -> McpConfigure.config_path <> Ok p ->
  McpConfigure.config_path <> Ok (load_path env) ->
  p = credentials_file env /\ exists config c,
    fst (McpConfigure.load_or_init_config d) = Ok config /\
    files d' !! p = Some (to_string_pretty (credentials_json c)) /\
    issued config args c /\
    (force args = true -> forall old, load env d = Some old -> rotated old c).
Proof.
  intros Hrun Hne Hp Hload. unfold enroll in Hrun. unfold mbind at 1, cmd_bind at 1 in Hrun.
  destruct (McpConfigure.load_or_init_config d) as [r1 d1] eqn:E1.
  assert (forall q, McpConfigure.config_path <> Ok q -> files d1 !! q = files d !! q) as Hd1.
  { intros q Hq. destruct (changes_load_config (fun q _ => McpConfigure.config_path = Ok q)
      (fun _ _ H => H) d r1 d1 q E1) as [?|(? & _ & ?)]; done. }
  destruct r1 as [config|e]; [|injection Hrun as <- <-; by destruct Hne; apply Hd1].
  unfold mbind at 1, cmd_bind at 1 in Hrun. cbv beta iota zeta in Hrun.
  assert (load env d1 = load env d) as Hl by (unfold load; by rewrite Hd1).
  destruct (enroll_writes (load env d1) config args d1 r d' p Hrun)
    as [E|(contents & Hf & [?|(Hcp & c & -> & Hi & Hforce)])]; [|done|].
  - destruct Hne. by rewrite E, Hd1.
  - rewrite Hl in Hforce. eauto 8.
Qed.

(** What is written is what is loaded, unless a field of it is blank: the machine is then as
    it was without credentials, though the command says that it is enrolled. *)
Theorem written_credentials_load c d d' :
  env "KYRIS_CREDENTIALS_PATH" = None ->
  from_str (to_string_pretty (credentials_json c)) = Ok (credentials_json c) ->
  valid_utf8 (to_string_pretty (credentials_json c)) = true ->
  write_credentials env shape_error c d = (Ok tt, d') ->
  load env d' = if String.eqb (str_trim (machine_id c)) "" || String.eqb (str_trim (machine_token c)) ""
                then None else Some c.
Proof.
  intros Henv Hread Hutf H. unfold write_credentials in H. apply bind_Ok in H as (b & d1 & Hw & [= <-]).
  apply Launch.write_managed_file_files in Hw. unfold load, load_path. rewrite Henv. cbn [default].
  change (default ?a None) with a. rewrite Hw, lookup_insert_eq. unfold load_from. cbn [mbind option_bind].
  rewrite Hutf, Hread. by destruct c.
Qed.
End written.

(** ** Examples *)
Module Sample.

#[local] Existing Instance one_float.
#[local] Existing Instance Coded.serde.
#[local] Existing Instance McpConfigure.Sample.store.

Definition replies (n : nat) : option (result AccessTokenResponse string) :=
  match n with
  | 0 => Some (Ok (mkToken None (Some "authorization_pending")))
  | 1 => Some (Ok (mkToken None (Some "slow_down")))
  | _ => Some (Ok (mkToken (Some "gho_1") None))
  end.

(** Five seconds, and then ten. *)
Lemma polling_obeys_witness :
  poll_access_token 900 replies (fun _ => 20%Z) 5 = Some (Ended (Ok "gho_1"), [0; 5020; 15040]%Z) /\
  exists r times,
    poll_access_token 900 replies (fun _ => 20%Z) 5 = Some (r, times) /\
    spaced replies 0 (N.max 1 5) times /\
    Forall (fun t => 0 <= t /\ t / 1000 < Z.of_N 900)%Z times /\
    (forall token, r = Ended (Ok token) ->
       exists k e, length times = S k /\ replies k = Some (Ok (mkToken (Some token) e))) /\
    (r = Waiting -> exists k, length times = S k /\ replies k = None).
Proof.
  split; [vm_compute; reflexivity|].
  apply (polling_obeys 900 5 replies (fun _ => 20%Z)).
  - done.
  - vm_compute; reflexivity.
Defined.

(** GitHub named no interval: a second; and nothing comes of a request that is never answered. *)
Example polls_each_second_and_waits :
  poll_access_token 900 (fun n => if Nat.eqb n 2 then None else replies 0) (fun _ => 0%Z) 0 =
    Some (Waiting, [0; 1000; 2000]%Z).
Proof. by vm_compute. Qed.

(** A slash alone is no relay, though the configuration names one. *)
Example slash_hides_configured_relay :
  resolve_relay_url (fun _ => None) (mkArgs false (Some "/")) "https://relay.example" =
  Err "Cannot enroll without a relay URL. Set `relay.url` in kyrisd.yaml, pass `--relay-url`, or set `KYRIS_RELAY_URL`.".
Proof. by vm_compute. Qed.

Definition env (v : string) : option string := if String.eqb v "XDG_DATA_HOME" then Some "/home/u/data" else None.

Definition respond (v : list (string * json)) : result (Z * bytes) string := Ok (200%Z, Coded.print (JObject v)).

Definition post_device_code (client_id : string) : result (Z * bytes) string :=
  respond [("device_code", JString "d1"); ("user_code", JString "ABCD"); ("verification_uri", JString "https://github.com/login/device");
           ("expires_in", JNumber 900); ("interval", JNumber 5)].

Definition post_access_token (client_id device : string) (n : nat) : result (Z * bytes) string :=
  if Nat.eqb n 0 then respond [("error", JString "authorization_pending")]
  else respond [("access_token", JString "gho_1")].

Definition post_enroll (id token : string) (url bearer : string) (r : EnrollmentRequest) : result (Z * bytes) string :=
  respond [("machine_id", JString id); ("machine_token", JString token)].

Definition before : disk :=
  mkDisk {[ "kyrisd.yaml" := McpConfigure.DEFAULT_CONFIG;
            "/home/u/data/kyris/credentials.json" := to_string_pretty (credentials_json (mkCredentials "m1" "mkt_0")) ]}
    None "2026-01-01T00:00:00Z".

Definition request : EnrollmentRequest :=
  machine_metadata env "linux" "x86_64" "1.3.0" (Some (lit "host")) None.

(** The relay is named on the command line, the configuration names none. *)
Definition enrolled (id token : string) : result unit string * disk :=
  enroll env (fun _ => "") (fun _ => "") (fun _ _ => "") (fun _ => "") (fun _ => "client") (fun _ c => c)
    post_device_code post_access_token (fun _ => 20%Z) (post_enroll id token)
    request false (Ok "") false (Ok tt) (fun _ => true)
    (mkArgs true (Some "https://relay.example/")) before.

Lemma credentials_from_relay_witness :
  (enrolled "m1" "mkt_1").1 = Ok tt /\
  "/home/u/data/kyris/credentials.json" = credentials_file env /\ exists config c,
    fst (McpConfigure.load_or_init_config before) = Ok config /\
    files (enrolled "m1" "mkt_1").2 !! "/home/u/data/kyris/credentials.json" =
      Some (to_string_pretty (credentials_json c)) /\
    issued env (fun _ => "") (fun _ => "") (fun _ _ => "") (fun _ => "") (fun _ => "client")
      post_device_code post_access_token (post_enroll "m1" "mkt_1") request config
      (mkArgs true (Some "https://relay.example/")) c /\
    (true = true -> forall old, load env before = Some old -> rotated old c).
Proof.
  split; [vm_compute; reflexivity|].
  apply (credentials_from_relay env (fun _ => "") (fun _ => "") (fun _ _ => "") (fun _ => "") (fun _ => "client")
    (fun _ c => c) post_device_code post_access_token (fun _ => 20%Z) (post_enroll "m1" "mkt_1")
    request false (Ok "") false (Ok tt) (fun _ => true)
    (mkArgs true (Some "https://relay.example/")) before (enrolled "m1" "mkt_1").1 (enrolled "m1" "mkt_1").2).
  - apply surjective_pairing.
  - vm_compute; discriminate.
  - vm_compute; discriminate.
  - vm_compute; discriminate.
Defined.

(** The credentials that were there are loaded. *)
Example credentials_were_there : load env before = Some (mkCredentials "m1" "mkt_0").
Proof. by vm_compute. Qed.

(** A relay that answers a forced rotation with another machine, or with the token that was
    there, is refused, and the credentials stay: if it has retired the old token, the machine
    is left with that. *)
Example refused_rotation_keeps_old_token :
  files (enrolled "m2" "mkt_1").2 = files before /\ files (enrolled "m1" "mkt_0").2 = files before /\
  ok (enrolled "m2" "mkt_1").1 = None /\ ok (enrolled "m1" "mkt_0").1 = None.
Proof. by vm_compute. Qed.
End Sample.
End Enroll.
