(* ===== verification/Store.v ===== *)
(** * The writer of the statistics

    [daemon/src/storage.rs] and [drain_and_flush_stats] of [server/lifecycle.rs]: adapters
    put an event for each model call into a bounded queue, one task takes them out and writes
    them to the database in batches, fans them out to those who watch, keeps the counts of
    the sessions, warns about spending, and forgets what is old.

    The task and those around it are a step relation: each turn of its [select] is one step,
    and so is each attempt to send.  What the database answers is part of the step.  Times
    are in microseconds; a turn is taken to happen at one time. *)

From S2P Require Import Prelude Event Timeline Pricing Stream Adapter Server.

Module Store.
Local Open Scope string_scope.
Local Open Scope list_scope.

(** [as i32]. *)
Definition as_i32 (n : N) : Z := ((Z.of_N n + 2 ^ 31) mod 2 ^ 32 - 2 ^ 31)%Z.

Definition DAY : Z := 86400000000.
Definition MINUTE : Z := 60000000.

(** A handle on the sending side of the queue: that of [run], and that of [AppState]. *)
Inductive holder := RunHolds | StateHolds.

#[export] Instance holder_eq_dec : EqDecision holder.
Proof. solve_decision. Defined.

Section store.
Context `{F64Arith} `{AgentpactTypes}.

(** ** Rows *)

(** The row of an event, as it is read back, which is also what those who watch are sent. *)
Definition record_of_event (id time : string) (e : Stream.StatsEvent) : Record.GatewayRecord :=
  let unavailable := match Stream.metering e with Record.Unavailable => true | Record.Available => false end in
  let counted n := if unavailable then None else Some n in
  let cached n := if unavailable || (n =? 0)%Z then None else Some n in
  Record.mkRecord id (Stream.trace_id e) time (Stream.provider e) (Stream.model e)
    (counted (Stream.tokens e).1) (counted (Stream.tokens e).2)
    (cached (Stream.cache_create e)) (cached (Stream.cache_read e))
    (Stream.cost e) (Stream.latency_ms e) (Record.status_from_str (Stream.status e)) (Stream.session_id e)
    false (Stream.mcp_server e) (Stream.mcp_tool e) (Stream.metering e) (Stream.plan_status e)
    (Stream.working_dir e) (Stream.agent e).

(** What a deletion leaves where the database can compute the time it asks for; where it
    cannot, the deletion fails. *)
Definition prune (now : Z) (retention_days : N) (table : list Timeline.stored_record)
    : list Timeline.stored_record :=
  filter (fun r : Timeline.stored_record => now - DAY * as_i32 retention_days <= r.1)%Z table.

Definition prune_session_tokens (now : Z) (idle_timeout_minutes : N) (rows : gmap string (Z * Z))
    : gmap string (Z * Z) :=
  filter (fun p => now - MINUTE * as_i32 idle_timeout_minutes <= p.2.2)%Z rows.

Definition upsert_session_tokens (now : Z) (rows : gmap string (Z * Z)) (t : string * Z) : gmap string (Z * Z) :=
  <[t.1 := (t.2, now)]> rows.

(** [epoch] is the database's count of the seconds of an interval. *)
Definition load_session_tokens (epoch : Z -> Z) (now : Z) (rows : gmap string (Z * Z)) : list (string * Z * Z) :=
  (fun p => (p.1, p.2.1, Z.max 0 (epoch (now - p.2.2)%Z))) <$> map_to_list rows.

(** ** Warnings about spending *)

Section spending.
(** [total >= threshold], the negation of [threshold <= 0.0], and the key in microdollars. *)
Context (ge : f64 -> f64 -> bool) (positive : f64 -> bool) (micros : f64 -> N).
Context (warn_thresholds_usd : list f64).

Definition check_threshold (total : f64) (acc : gset N * list f64) (threshold : f64) : gset N * list f64 :=
  let '(notified, toasts) := acc in
  if negb (positive threshold) then acc
  else
    let key := micros threshold in
    if ge total threshold then
      if bool_decide (key ∈ notified) then acc else ({[key]} ∪ notified, toasts ++ [threshold])
    else (notified ∖ {[key]}, toasts).

(** The thresholds a warning is shown for. *)
Definition check_spend_thresholds (total : option f64) (notified : gset N) : gset N * list f64 :=
  match total with
  | None => (notified, [])
  | Some total => foldl (check_threshold total) (notified, []) warn_thresholds_usd
  end.
End spending.

(** ** The writer *)

Context (ge : f64 -> f64 -> bool) (positive : f64 -> bool) (micros : f64 -> N) (warn_thresholds_usd : list f64).
Context (channel_capacity flush_batch_size : nat) (retention_days session_idle_minutes : N).
Context (fresh_id : nat -> string) (strftime : Z -> string).

Record state := mkState {
  queue : list Stream.StatsEvent;
  senders : list holder;
  batch : list Stream.StatsEvent;
  table : list Timeline.stored_record;
  streamed : list Record.GatewayRecord;
  DROP_COUNT : N;
  session_rows : gmap string (Z * Z);
  notified : gset N;
  toasts : list f64;
  returned : bool }.

(** What a turn finds: the time, after how many rows an insertion fails if it does, whether
    each of the two deletions succeeds, the totals that the breaker holds with whether each
    is written, and what was spent in the window, if that can be read. *)
Record turn := mkTurn {
  now : Z; fails_after : option nat; prunes : bool; prunes_sessions : bool;
  session_totals : list (string * Z * bool); spent : option f64 }.

Inductive event :=
| TrySend (e : Stream.StatsEvent)
| DropSender
| Recv (t : turn)
| FlushTick (t : turn)
| PruneTick (t : turn).

(** Each row is written by itself: of a batch that fails, those before the failure stay. *)
Definition insert_batch (t : turn) (events : list Stream.StatsEvent) (s : state) : state * bool :=
  let written := match fails_after t with Some k => take k events | None => events end in
  let records := imap (fun i e => record_of_event (fresh_id (length (streamed s) + i)) (strftime (now t)) e) written in
  (mkState (queue s) (senders s) (batch s) (table s ++ (pair (now t) <$> records)) (streamed s ++ records)
     (DROP_COUNT s) (session_rows s) (notified s) (toasts s) (returned s),
   match fails_after t with Some _ => false | None => true end).

Definition flush_batch (t : turn) (s : state) : state :=
  let '(s, inserted) := insert_batch t (batch s) s in
  mkState (queue s) (senders s) [] (table s) (streamed s)
    (if inserted : bool then DROP_COUNT s else DROP_COUNT s + N.of_nat (length (batch s)))%N
    (session_rows s) (notified s) (toasts s) (returned s).

Definition persist_session_tokens (t : turn) (s : state) : state :=
  mkState (queue s) (senders s) (batch s) (table s) (streamed s) (DROP_COUNT s)
    (foldl (upsert_session_tokens (now t)) (session_rows s)
       (omap (fun p : string * Z * bool => if p.2 then Some p.1 else None) (session_totals t))) (notified s) (toasts s) (returned s).

Definition check_spend (t : turn) (s : state) : state :=
  let '(notified, shown) := check_spend_thresholds ge positive micros warn_thresholds_usd (spent t) (notified s) in
  mkState (queue s) (senders s) (batch s) (table s) (streamed s) (DROP_COUNT s) (session_rows s)
    notified (toasts s ++ shown) (returned s).

Definition flushed (t : turn) (s : state) : state := check_spend t (persist_session_tokens t (flush_batch t s)).

Definition received (e : Stream.StatsEvent) (rest : list Stream.StatsEvent) (s : state) : state :=
  mkState rest (senders s) (batch s ++ [e]) (table s) (streamed s) (DROP_COUNT s) (session_rows s) (notified s)
    (toasts s) (returned s).

Definition finished (s : state) : state :=
  mkState (queue s) (senders s) (batch s) (table s) (streamed s) (DROP_COUNT s) (session_rows s) (notified s)
    (toasts s) true.

Definition pruned (t : turn) (s : state) : state :=
  mkState (queue s) (senders s) (batch s)
    (if prunes t then prune (now t) retention_days (table s) else table s) (streamed s) (DROP_COUNT s)
    (if prunes_sessions t then prune_session_tokens (now t) session_idle_minutes (session_rows s) else session_rows s)
    (notified s) (toasts s) (returned s).

(** A turn of [stats_writer]; [None] where it waits. *)
Definition stats_writer (s : state) (e : event) : option state :=
  if returned s then None
  else match e with
  | Recv t =>
      match queue s, senders s with
      | e :: rest, _ =>
          let s := received e rest s in
          Some (if (flush_batch_size <=? length (batch s))%nat then flushed t s else s)
      | [], [] =>
          let s := match batch s with [] => s | _ => flush_batch t s end in
          Some (finished (persist_session_tokens t s))
      | [], _ => None
      end
  | FlushTick t => Some (match batch s with [] => s | _ => flushed t s end)
  | PruneTick t => Some (check_spend t (pruned t s))
  | _ => None
  end.

(** [try_send] of an adapter, and [record_dropped] where it fails. *)
Definition try_send (s : state) (e : Stream.StatsEvent) : state :=
  if (length (queue s) <? channel_capacity)%nat && negb (returned s) then
    mkState (queue s ++ [e]) (senders s) (batch s) (table s) (streamed s) (DROP_COUNT s) (session_rows s)
      (notified s) (toasts s) (returned s)
  else
    mkState (queue s) (senders s) (batch s) (table s) (streamed s) (DROP_COUNT s + 1)%N (session_rows s)
      (notified s) (toasts s) (returned s).

(** [drain_and_flush_stats] drops the sender it was given, once. *)
Definition drop_sender (s : state) : state :=
  mkState (queue s) (remove holder_eq_dec RunHolds (senders s)) (batch s) (table s) (streamed s) (DROP_COUNT s)
    (session_rows s) (notified s) (toasts s) (returned s).

Definition exec (s : state) (e : event) : option state :=
  match e with
  | TrySend e => Some (try_send s e)
  | DropSender => if bool_decide (RunHolds ∈ senders s) then Some (drop_sender s) else None
  | _ => stats_writer s e
  end.

Definition step (s : state) (e : event) (s' : state) : Prop := exec s e = Some s'.

(** [run] creates the queue and keeps one handle; the other is in the state that the
    handlers and the tasks of the daemon share until [run] returns. *)
Definition started (table : list Timeline.stored_record) (rows : gmap string (Z * Z)) : state :=
  mkState [] [RunHolds; StateHolds] [] table [] 0 rows ∅ [] false.

(** What [drain_and_flush_stats] says: the writer is back before the time is up, or not. *)
Definition drain_and_flush_stats (s : state) : result unit string :=
  if returned s then Ok tt else Err "timed out waiting for stats writer flush".
End store.

(** ** Every event is written once, or counted as dropped *)

Section books.
Context `{F64Arith} `{AgentpactTypes}.
Context (ge : f64 -> f64 -> bool) (positive : f64 -> bool) (micros : f64 -> N) (warn_thresholds_usd : list f64).
Context (channel_capacity flush_batch_size : nat) (retention_days session_idle_minutes : N).
Context (fresh_id : nat -> string) (strftime : Z -> string).

Notation step := (step ge positive micros warn_thresholds_usd channel_capacity flush_batch_size retention_days
  session_idle_minutes fresh_id strftime).
Notation flush_batch := (flush_batch fresh_id strftime).
Notation flushed := (flushed ge positive micros warn_thresholds_usd fresh_id strftime).

Definition sent (evs : list event) : list Stream.StatsEvent :=
  omap (fun e => match e with TrySend e => Some e | _ => None end) evs.

(** The row says what the event says; of a call that was not metered it has no tokens. *)
Definition row_of (e : Stream.StatsEvent) (r : Record.GatewayRecord) : Prop :=
  Record.trace_id r = Stream.trace_id e /\ Record.session_id r = Stream.session_id e /\
  Record.provider r = Stream.provider e /\ Record.model r = Stream.model e /\
  Record.cost_usd r = Stream.cost e /\ Record.latency_ms r = Stream.latency_ms e /\
  Record.mcp_server r = Stream.mcp_server e /\ Record.mcp_tool r = Stream.mcp_tool e /\
  Record.working_dir r = Stream.working_dir e /\ Record.agent r = Stream.agent e /\
  Record.metering r = Stream.metering e /\ Record.plan_status r = Stream.plan_status e /\
  Record.synced r = false /\
  (Record.tokens_in r, Record.tokens_out r) =
    match Stream.metering e with
    | Record.Available => (Some (Stream.tokens e).1, Some (Stream.tokens e).2)
    | Record.Unavailable => (None, None)
    end.

(** The writer took a turn at the time. *)
Definition flush_time (evs : list event) (at_time : Z) : Prop :=
  exists t, (Recv t ∈ evs \/ FlushTick t ∈ evs) /\ at_time = now t.

(** A deletion that succeeded was for what is older. *)
Definition expired (evs : list event) (r : Timeline.stored_record) : Prop :=
  exists t, PruneTick t ∈ evs /\ prunes t = true /\ (r.1 < now t - DAY * as_i32 retention_days)%Z.

(** The table of the database, from [table0] on, and what those who watch were sent. *)
Definition booked (table0 : list Timeline.stored_record) (evs : list event) (written : list Stream.StatsEvent)
    (s : state) : Prop :=
  exists rows gone,
    Forall2 (fun e (r : Timeline.stored_record) => row_of e r.2 /\ flush_time evs r.1) written rows /\
    table s ++ gone ≡ₚ table0 ++ rows /\ Forall (expired evs) gone /\
    streamed s = snd <$> rows.

Context (table0 : list Timeline.stored_record).

(** What was sent is what was written, what was lost, and what is on its way. *)
Definition accounted (evs : list event) (s : state) : Prop :=
  exists written lost,
    booked table0 evs written s /\
    sent evs ≡ₚ written ++ lost ++ batch s ++ queue s /\
    length lost <= N.to_nat (DROP_COUNT s) /\
    (DROP_COUNT s = 0%N -> sent evs = written ++ batch s ++ queue s).

Lemma accounted_same evs s s' :
  table s' = table s -> streamed s' = streamed s -> batch s' = batch s -> queue s' = queue s ->
  DROP_COUNT s' = DROP_COUNT s -> accounted evs s -> accounted evs s'.
Proof using Type. unfold accounted, booked. by intros -> -> -> -> ->. Qed.

Lemma booked_more evs e written s : booked table0 evs written s -> booked table0 (evs ++ [e]) written s.
Proof using Type.
  intros (rows & gone & Hr & Ht & Hg & Hs). exists rows, gone. split_and!; [|done| |done].
  - eapply Forall2_impl; [exact Hr|]. intros x r [Hx (t & Hin & ->)]. split; [done|]. exists t.
    split; [|done]. destruct Hin; [left|right]; apply elem_of_app; by left.
  - eapply Forall_impl; [exact Hg|]. intros r (t & Hin & ? & ?). exists t.
    split; [apply elem_of_app; by left|done].
Qed.

Lemma check_spend_same t s :
  let s' := check_spend ge positive micros warn_thresholds_usd t s in
  table s' = table s /\ streamed s' = streamed s /\ batch s' = batch s /\ queue s' = queue s /\
  DROP_COUNT s' = DROP_COUNT s /\ senders s' = senders s /\ returned s' = returned s.
Proof using Type. unfold check_spend. by destruct (check_spend_thresholds _ _ _ _ _ _). Qed.

Lemma record_of_event_row id time e : row_of e (record_of_event id time e).
Proof using Type. unfold row_of, record_of_event. cbn. by destruct (Stream.metering e). Qed.

Lemma written_records evs t l n :
  flush_time evs (now t) ->
  Forall2 (fun e (r : Timeline.stored_record) => row_of e r.2 /\ flush_time evs r.1) l
    (pair (now t) <$> imap (fun i e => record_of_event (fresh_id (n + i)) (strftime (now t)) e) l).
Proof using Type.
  intros Ht. revert n. induction l as [|e l IH]; intros n; [constructor|]. rewrite imap_cons. constructor.
  - split; [apply record_of_event_row|done].
  - specialize (IH (S n)). erewrite imap_ext; [exact IH|]. intros i x _. cbn. by rewrite Nat.add_succ_r.
Qed.

Lemma insert_batch_booked evs t written events s :
  flush_time evs (now t) -> booked table0 evs written s ->
  booked table0 evs (written ++ match fails_after t with Some k => take k events | None => events end)
    (insert_batch fresh_id strftime t events s).1.
Proof using Type.
  intros Ht (rows & gone & Hr & Hp & Hg & Hs). unfold insert_batch. cbn.
  set (l := match fails_after t with Some k => _ | None => _ end).
  eexists (rows ++ _), gone. split_and!; [apply Forall2_app; [done|by apply written_records]| |done|].
  - cbn. rewrite (assoc_L (++) table0), <- Hp. solve_Permutation.
  - cbn. rewrite Hs, fmap_app, <- list_fmap_compose. f_equal. symmetry. apply list_fmap_id.
Qed.

Lemma flush_batch_accounted evs t s :
  flush_time evs (now t) -> accounted evs s -> accounted evs (flush_batch t s).
Proof using Type.
  intros Ht (written & lost & Hw & Hp & Hl & Hz). apply (insert_batch_booked evs t _ (batch s)) in Hw; [|done].
  unfold Store.flush_batch, insert_batch, accounted in *. cbn in *. destruct (fails_after t) as [k|]; cbn.
  - exists (written ++ take k (batch s)), (lost ++ drop k (batch s)). split_and!; [exact Hw| | |].
    + rewrite Hp, <- (take_drop k (batch s)) at 1. solve_Permutation.
    + rewrite length_app, length_drop. lia.
    + intros Hd. assert (length (batch s) = 0) as Hb by lia. apply nil_length_inv in Hb as Hb.
      rewrite Hz, Hb by lia. by rewrite take_nil, app_nil_r.
  - exists (written ++ batch s), lost. split_and!; [exact Hw| |done|].
    + rewrite Hp. solve_Permutation.
    + intros Hd. by rewrite Hz, app_assoc by done.
Qed.

Lemma flushed_accounted evs t s : flush_time evs (now t) -> accounted evs s -> accounted evs (flushed t s).
Proof using Type.
  intros Ht Hs. unfold Store.flushed.
  destruct (check_spend_same t (persist_session_tokens t (flush_batch t s))) as (E0 & E1 & E2 & E3 & E4 & _).
  eapply accounted_same; [exact E0|exact E1|exact E2|exact E3|exact E4|].
  by apply (flush_batch_accounted _ t) in Hs.
Qed.

(** What a deletion takes is old. *)
Lemma pruned_accounted evs t s :
  PruneTick t ∈ evs -> accounted evs s -> accounted evs (pruned retention_days session_idle_minutes t s).
Proof using Type.
  intros Hin (written & lost & (rows & gone & Hr & Ht & Hg & Hs) & Hrest). exists written, lost.
  split; [|exact Hrest]. destruct (prunes t) eqn:Ep.
  - exists rows, (filter (fun r : Timeline.stored_record => ~ (now t - DAY * as_i32 retention_days <= r.1)%Z) (table s) ++ gone).
    split_and!; [done| | |done].
    + cbn. rewrite Ep. unfold prune. rewrite app_assoc, <- Ht. apply Permutation_app; [|done].
      apply filter_app_complement.
    + apply Forall_app. split; [|done]. apply Forall_forall. intros r [Hr' _]%list_elem_of_filter.
      exists t. split_and!; [done|done|lia].
  - exists rows, gone. cbn. by rewrite Ep.
Qed.

Lemma sent_snoc evs e : sent (evs ++ [e]) = sent evs ++ match e with TrySend e => [e] | _ => [] end.
Proof using Type. unfold sent. rewrite omap_app. by destruct e. Qed.

Lemma accounted_more evs e s :
  (forall x, e <> TrySend x) -> accounted evs s -> accounted (evs ++ [e]) s.
Proof using Type.
  intros He (written & lost & Hw & Hrest). exists written, lost. split; [by apply booked_more|].
  rewrite sent_snoc. destruct e as [x| | | |]; [by destruct (He x)|..]; by rewrite app_nil_r.
Qed.

Lemma books_step evs s e s' : accounted evs s -> step s e s' -> accounted (evs ++ [e]) s'.
Proof using Type.
  intros Hs. unfold Store.step, exec.
  assert (forall t, e = Recv t \/ e = FlushTick t -> flush_time (evs ++ [e]) (now t)) as Htime.
  { intros t He. exists t. split; [|done]. destruct He as [<-|<-]; [left|right]; apply elem_of_app; right; by left. }
  destruct e as [e| |t|t|t].
  - intros [= <-]. destruct Hs as (written & lost & Hw & Hp & Hl & Hz).
    apply (booked_more _ (TrySend e)) in Hw. unfold try_send, accounted.
    rewrite sent_snoc. destruct (_ && _); cbn.
    + exists written, lost. split_and!; [done| |done|].
      * rewrite Hp. solve_Permutation.
      * intros Hd. by rewrite Hz, !app_assoc by done.
    + exists written, (lost ++ [e]). split_and!; [done| | |lia].
      * rewrite Hp. solve_Permutation.
      * rewrite length_app. cbn. lia.
  - case_bool_decide; [|done]. intros [= <-]. apply (accounted_more _ DropSender) in Hs; [|done].
    by apply (accounted_same _ s).
  - apply (accounted_more _ (Recv t)) in Hs; [|done]. specialize (Htime t (or_introl eq_refl)).
    unfold stats_writer. destruct (returned s); [done|]. destruct (queue s) as [|e rest] eqn:Eq.
    + destruct (senders s); [|done]. intros [= <-].
      destruct (batch s) eqn:Eb; [by apply (accounted_same _ s)|].
      apply (accounted_same _ (flush_batch t s)); try done. by apply flush_batch_accounted.
    + intros [= <-].
      assert (accounted (evs ++ [Recv t]) (received e rest s)) as Hr.
      { destruct Hs as (written & lost & Hw & Hp & Hl & Hz). exists written, lost. rewrite Eq in Hp, Hz.
        cbn. split_and!; [done| |done|]; rewrite <- (app_assoc (batch s)); [exact Hp|exact Hz]. }
      destruct (_ <=? _)%nat; [by apply flushed_accounted|done].
  - apply (accounted_more _ (FlushTick t)) in Hs; [|done]. specialize (Htime t (or_intror eq_refl)).
    unfold stats_writer. destruct (returned s); [done|]. intros [= <-].
    destruct (batch s) eqn:Eb; [done|by apply flushed_accounted].
  - apply (accounted_more _ (PruneTick t)) in Hs; [|done].
    unfold stats_writer. destruct (returned s); [done|]. intros [= <-].
    destruct (check_spend_same t (pruned retention_days session_idle_minutes t s)) as (E0 & E1 & E2 & E3 & E4 & _).
    eapply accounted_same; [exact E0|exact E1|exact E2|exact E3|exact E4|].
    apply pruned_accounted; [|done]. apply elem_of_app. right. by left.
Qed.

(** C33. Every event is written once, or the daemon says that it is not well.  However the
    adapters, the ticks and the turns of the writer interleave, and whatever insertions fail
    and after how many rows: the events that were sent are those written, those lost, and
    those in the batch and the queue.  Of the written ones the table of the database got one
    row each, with what the event says, at the time of a turn of the writer, and those who
    watch were sent the same rows; beside what was in it at the start the table has these
    rows and no other, and none is gone from it that no deletion found older than the days
    of retention.  No more events are lost than are counted; while the count is zero those
    written are those sent, in that order, up to those on their way; and if any is lost the
    health of the daemon is 503. *)
Theorem events_written_once rows evs s config writable :
  trace step (started table0 rows) evs s ->
  exists written lost,
    booked table0 evs written s /\
    sent evs ≡ₚ written ++ lost ++ batch s ++ queue s /\
    (DROP_COUNT s = 0%N -> sent evs = written ++ batch s ++ queue s) /\
    length lost <= N.to_nat (DROP_COUNT s) /\
    (lost <> [] -> (Server.get_healthz config (DROP_COUNT s) writable).1 = Server.SERVICE_UNAVAILABLE).
Proof using Type.
  intros Htr. assert (accounted evs s) as (written & lost & Hw & Hp & Hl & Hz).
  { apply (trace_history_invariant step accounted _ _ _ books_step Htr).
    exists [], []. split_and!; [|done..]. exists [], []. split_and!; [constructor|by rewrite !app_nil_r|constructor|done]. }
  exists written, lost. split_and!; [done|done|done|done|]. intros Hlost. unfold Server.get_healthz.
  destruct (N.eqb_spec (DROP_COUNT s) 0) as [E|E]; [|done]. rewrite E in Hl.
  destruct lost; [done|cbn in Hl; lia].
Qed.

(** ** The end that never comes *)

Lemma state_holds_step s e s' :
  StateHolds ∈ senders s /\ returned s = false -> step s e s' -> StateHolds ∈ senders s' /\ returned s' = false.
Proof using Type.
  intros [Hs Hr]. unfold Store.step, exec.
  destruct e as [e| |t|t|t]; unfold stats_writer; rewrite ?Hr.
  - intros [= <-]. unfold try_send. by destruct (_ && _).
  - case_bool_decide; [|done]. intros [= <-]. split; [|done]. cbn. apply list_elem_of_In.
    apply in_in_remove; [done|by apply list_elem_of_In].
  - destruct (queue s) as [|e rest]; [destruct (senders s); [by apply elem_of_nil in Hs|done]|].
    intros [= <-]. destruct (_ <=? _)%nat; [|done]. unfold Store.flushed.
    set (s1 := persist_session_tokens _ _). destruct (check_spend_same t s1) as (_ & _ & _ & _ & _ & -> & ->). done.
  - intros [= <-]. destruct (batch s); [done|]. unfold Store.flushed.
    set (s1 := persist_session_tokens _ _). destruct (check_spend_same t s1) as (_ & _ & _ & _ & _ & -> & ->). done.
  - intros [= <-]. destruct (check_spend_same t (pruned retention_days session_idle_minutes t s))
      as (_ & _ & _ & _ & _ & -> & ->). done.
Qed.

(** C34. The statistics are never drained.  At the end of the daemon its sender is dropped
    and the writer is waited for; the writer goes on as long as there is a sender, and the
    state that the handlers share has one, which [run] keeps to its end: whatever happens
    meanwhile the wait ends with its timeout only. *)
Theorem drain_always_times_out table rows evs s :
  trace step (started table rows) evs s -> DropSender ∈ evs ->
  drain_and_flush_stats s = Err "timed out waiting for stats writer flush".
Proof using Type.
  intros Htr _. unfold drain_and_flush_stats.
  assert (StateHolds ∈ senders s /\ returned s = false) as [_ ->]; [|done].
  apply (trace_invariant step _ _ _ _ state_holds_step Htr). split; [|done]. by right; left.
Qed.
End books.

(** ** Forgetting *)

Section forgetting.
Context `{F64Arith} `{AgentpactTypes}.

Lemma as_i32_small n : (n < 2 ^ 31)%N -> as_i32 n = Z.of_N n.
Proof. intros Hn. unfold as_i32. rewrite Z.mod_small; lia. Qed.

Lemma as_i32_large n : (2 ^ 31 <= n < 2 ^ 32)%N -> (as_i32 n < 0)%Z.
Proof.
  intros Hn. unfold as_i32. replace (Z.of_N n + 2 ^ 31)%Z with (Z.of_N n - 2 ^ 31 + 1 * 2 ^ 32)%Z by lia.
  rewrite Z.mod_add, Z.mod_small; lia.
Qed.

(** Retention holds up to a bound.  Below 2^31 days a deletion that succeeds takes exactly
    the records older than the days configured; from there to 2^32 the number wraps to a
    negative one and it takes every record of the past. *)
Lemma retention_bound now days (table : list Timeline.stored_record) :
  ((days < 2 ^ 31)%N -> forall r, r ∈ prune now days table <-> r ∈ table /\ (now - DAY * Z.of_N days <= r.1)%Z) /\
  ((2 ^ 31 <= days < 2 ^ 32)%N -> Forall (fun r : Timeline.stored_record => r.1 <= now)%Z table -> prune now days table = []).
Proof.
  split; intros Hd.
  - intros r. unfold prune. rewrite list_elem_of_filter, as_i32_small by done. tauto.
  - intros Hold. unfold prune. apply as_i32_large in Hd. induction Hold as [|r table Hr _ IH]; [done|].
    rewrite filter_cons_False; [exact IH|]. unfold DAY. lia.
Qed.
End forgetting.

(** ** Warnings *)

Section warnings.
Context `{F64Arith} `{AgentpactTypes}.
Context (ge : f64 -> f64 -> bool) (positive : f64 -> bool) (micros : f64 -> N) (warn_thresholds_usd : list f64).

Notation check_threshold := (check_threshold ge positive micros).
Notation check_spend_thresholds := (check_spend_thresholds ge positive micros warn_thresholds_usd).

(** The thresholds that each of a sequence of checks shows a warning for. *)
Fixpoint shown (notified : gset N) (totals : list f64) : list (list f64) :=
  match totals with
  | [] => []
  | total :: totals => let '(notified, toasts) := check_spend_thresholds (Some total) notified in
                       toasts :: shown notified totals
  end.

(** Where a sequence of totals crosses a threshold upward. *)
Fixpoint crossings (threshold : f64) (above : bool) (totals : list f64) : list bool :=
  match totals with
  | [] => []
  | total :: totals => (negb above && ge total threshold) :: crossings threshold (ge total threshold) totals
  end.

Lemma check_other total acc ths key :
  key ∉ micros <$> filter (fun th => positive th = true) ths ->
  key ∈ (foldl (check_threshold total) acc ths).1 <-> key ∈ acc.1.
Proof using Type.
  revert acc. induction ths as [|th ths IH]; intros [notified toasts] Hk; [done|]. cbn [foldl].
  rewrite IH.
  2:{ intros Hin. apply Hk. rewrite filter_cons. case_decide; [by right|done]. }
  unfold Store.check_threshold. destruct (positive th) eqn:Ep; [|done]. cbn [negb].
  assert (key <> micros th) as Hne.
  { intros ->. apply Hk. rewrite filter_cons_True by done. by left. }
  destruct (ge total th); [destruct (bool_decide _)|]; cbn; set_solver.
Qed.

Lemma check_keeps_toasts total acc ths th :
  th ∉ ths -> th ∈ (foldl (check_threshold total) acc ths).2 <-> th ∈ acc.2.
Proof using Type.
  revert acc. induction ths as [|x ths IH]; intros [notified toasts] Hth; [done|]. cbn [foldl].
  apply not_elem_of_cons in Hth as [Hx Hth]. rewrite IH by done. unfold Store.check_threshold.
  destruct (positive x); [|done]. destruct (ge total x); [destruct (bool_decide _)|]; cbn; set_solver.
Qed.

Lemma check_one total acc ths th :
  NoDup (micros <$> filter (fun th => positive th = true) ths) -> positive th = true -> th ∈ ths -> th ∉ acc.2 ->
  let r := foldl (check_threshold total) acc ths in
  (micros th ∈ r.1 <-> ge total th = true) /\ (th ∈ r.2 <-> ge total th = true /\ micros th ∉ acc.1).
Proof using Type.
  revert acc. induction ths as [|x ths IH]; intros [notified toasts] Hnodup Hp Hth Hacc; [by apply elem_of_nil in Hth|].
  cbn [foldl]. rewrite filter_cons in Hnodup. destruct (decide (positive x = true)) as [Hx|Hx].
  2:{ apply elem_of_cons in Hth as [->|Hth]; [done|]. unfold Store.check_threshold at 2 4.
      destruct (positive x); [done|]. by apply (IH (notified, toasts)). }
  rewrite fmap_cons in Hnodup. apply NoDup_cons in Hnodup as [Hnew Hnodup].
  apply elem_of_cons in Hth as [->|Hth].
  - assert (x ∉ ths) as Hx'.
    { intros Hin. apply Hnew. apply list_elem_of_fmap. exists x. split; [done|]. by apply list_elem_of_filter. }
    cbv zeta. rewrite check_other, check_keeps_toasts by done. unfold Store.check_threshold. rewrite Hx. cbn [negb].
    destruct (ge total x); [destruct (bool_decide_reflect (micros x ∈ notified))|]; cbn in *; set_solver.
  - assert (micros th <> micros x) as Hne.
    { intros E. apply Hnew. rewrite <- E. apply list_elem_of_fmap. exists th. split; [done|]. by apply list_elem_of_filter. }
    assert (th <> x) as Hthx by congruence.
    destruct (IH (check_threshold total (notified, toasts) x)) as [E1 E2]; [done|done|done| |].
    { unfold Store.check_threshold. rewrite Hx. cbn [negb].
      destruct (ge total x); [destruct (bool_decide _)|]; cbn in *; set_solver. }
    split; [exact E1|]. rewrite E2. unfold Store.check_threshold. rewrite Hx. cbn [negb].
    destruct (ge total x); [destruct (bool_decide _)|]; cbn in *; set_solver.
Qed.

Lemma check_positive total acc ths th :
  th ∈ (foldl (check_threshold total) acc ths).2 -> th ∈ acc.2 \/ positive th = true.
Proof using Type.
  revert acc. induction ths as [|x ths IH]; intros [notified toasts]; [by left|]. cbn [foldl].
  intros [Hin|]%IH; [|by right]. unfold Store.check_threshold in Hin. destruct (positive x) eqn:Hx; [|by left].
  destruct (ge total x); [destruct (bool_decide _)|]; cbn in *; [by left| |by left].
  apply elem_of_app in Hin as [|Hin%list_elem_of_singleton]; [by left|right; by subst].
Qed.

(** C35. A warning about spending is shown where the spending crosses a threshold above zero
    upward and nowhere else: over any sequence of checks, the ones that show it are those at
    or above the threshold whose predecessor, if there was one, was below.  A threshold of
    zero, which the schema admits, is never warned about.  The thresholds above zero differ
    by a millionth of a dollar at least, the count that they are remembered by. *)
Theorem warned_at_crossings totals th :
  NoDup (micros <$> filter (fun th => positive th = true) warn_thresholds_usd) ->
  th ∈ warn_thresholds_usd ->
  Forall2 (fun toasts crossed => th ∈ toasts <-> positive th = true /\ crossed = true)
    (shown ∅ totals) (crossings th false totals).
Proof using Type.
  intros Hnodup Hth.
  assert (forall notified above, (positive th = true -> micros th ∈ notified <-> above = true) ->
    Forall2 (fun toasts crossed => th ∈ toasts <-> positive th = true /\ crossed = true)
      (shown notified totals) (crossings th above totals))
    as Hgo; [|apply Hgo; set_solver].
  induction totals as [|total totals IH]; intros notified above Ha; [constructor|]. cbn [shown crossings].
  unfold Store.check_spend_thresholds. destruct (positive th) eqn:Hp.
  - destruct (check_one total (notified, []) warn_thresholds_usd th Hnodup Hp Hth) as [E1 E2]; [apply not_elem_of_nil|].
    destruct (foldl _ _ _) as [notified' toasts]. cbn [fst snd] in *. constructor; [|by apply IH].
    rewrite E2, Ha by done. destruct above, (ge total th); cbn; naive_solver.
  - pose proof (check_positive total (notified, []) warn_thresholds_usd th) as Hc.
    destruct (foldl _ _ _) as [notified' toasts]. cbn [fst snd] in *. constructor; [|by apply IH].
    split; [|by intros [? _]]. intros [?%elem_of_nil|]%Hc; [done|congruence].
Qed.
End warnings.

(** ** Samples *)

Module Sample.

#[local] Instance sample_float : Float64 := {
  f64 := Z; f64_zero := 0%Z; f64_add := Z.add; f64_total_le := Z.leb }.
#[local] Instance sample_arith : F64Arith := {
  f64_of_i64 := id; f64_mul := Z.mul; f64_div := Z.div; as_f64 := fun _ => None }.
#[local] Existing Instance CoverageFacts.sample_names.

Definition call_event (trace : string) : Stream.StatsEvent :=
  Stream.mkStats trace "anthropic" "claude" (100, 50)%Z 0 0 (Some 15%Z) 250 "success" None None None
    Record.Available tt None None.

(** Of a batch of two the second row cannot be written; then a queue of two is full. *)
Definition failing : turn := mkTurn 5 (Some 1) true true [] None.
Definition fine : turn := mkTurn 6 None true true [("s"%string, 50%Z, true)] (Some 15%Z).
Definition day : list event :=
  [TrySend (call_event "a"); TrySend (call_event "b"); TrySend (call_event "c"); Recv fine; Recv failing;
   TrySend (call_event "d"); Recv fine; DropSender; FlushTick fine; PruneTick fine].

Definition at_least (total threshold : f64) : bool := (threshold <=? total)%Z.
Definition microdollars (threshold : f64) : N := Z.to_N (threshold * 1000000).
Definition sample_id (n : nat) : string := "id".
Definition sample_time (t : Z) : string := "2026-01-01T00:00:00Z".

Notation sample_exec :=
  (exec at_least (fun th => 0 <? th)%Z microdollars [10%Z; 20%Z] 2 2 30 60 sample_id sample_time).
Notation sample_step :=
  (step at_least (fun th => 0 <? th)%Z microdollars [10%Z; 20%Z] 2 2 30 60 sample_id sample_time).

(** Where [day] ends. *)
Definition evening : state := default (started [] ∅) (exec_list sample_exec (started [] ∅) day).

Example a_day :
  (batch evening, Record.trace_id <$> streamed evening, DROP_COUNT evening, toasts evening,
   session_rows evening !! "s"%string, returned evening)
  = ([], ["a"; "d"]%string, 3%N, [10%Z], Some (50%Z, 6%Z), false).
Proof. by vm_compute. Qed.

Lemma day_trace : trace sample_step (started [] ∅) day evening.
Proof. apply (exec_list_trace sample_exec). by vm_compute. Qed.

(** The drop is reported, and the daemon is not well. *)
Lemma events_written_once_witness :
  trace sample_step (started [] ∅) day evening /\
  exists written lost,
    booked 30 [] day written evening /\
    sent day ≡ₚ written ++ lost ++ batch evening ++ queue evening /\
    length lost <= N.to_nat (DROP_COUNT evening) /\
    (lost <> [] -> (Server.get_healthz Server.Sample.stored (DROP_COUNT evening) true).1 = Server.SERVICE_UNAVAILABLE).
Proof.
  split; [exact day_trace|].
  destruct (events_written_once _ _ _ _ _ _ _ _ _ _ [] _ _ _ Server.Sample.stored true day_trace)
    as (written & lost & Hw & Hp & _ & Hl & Hh).
  by exists written, lost.
Defined.

Lemma drain_always_times_out_witness :
  trace sample_step (started [] ∅) day evening /\ DropSender ∈ day /\
  drain_and_flush_stats evening = Err "timed out waiting for stats writer flush".
Proof.
  assert (DropSender ∈ day) as Hd by (unfold day; set_solver).
  split; [exact day_trace|]. split; [exact Hd|].
  exact (drain_always_times_out _ _ _ _ _ _ _ _ _ _ _ _ _ _ day_trace Hd).
Defined.

(** The spending falls below a threshold and comes back: two warnings. *)
Lemma warned_at_crossings_witness :
  let shown := shown at_least (fun th => 0 <? th)%Z microdollars [10%Z; 20%Z] ∅ [5; 12; 15; 8; 25]%Z in
  shown = [[]; [10%Z]; []; []; [10%Z; 20%Z]] /\
  Forall2 (fun toasts crossed => (10%Z : f64) ∈ toasts <-> (0 <? 10)%Z = true /\ crossed = true)
    shown [false; true; false; false; true].
Proof.
  split; [by vm_compute|].
  apply (warned_at_crossings at_least (fun th => 0 <? th)%Z microdollars [10%Z; 20%Z] [5; 12; 15; 8; 25]%Z 10%Z);
    [|by left].
  repeat constructor; set_solver.
Defined.

(** 2^32 - 1 days are minus one. *)
Example retention_wraps : as_i32 4294967295 = (-1)%Z.
Proof. done. Qed.

End Sample.

End Store.
